(* ===== verification/_CoqProject ===== *)
-Q . S2P
Prelude.v
BackedBlock.v
BackedBlockRefine.v
BlockImage.v
BlockListProps.v
BlockListMove.v
Crc32.v
OutputFile.v
Sparse.v
SparseFormat.v
SparseWrite.v
SparseWriteProps.v
PlainWrite.v
SparseRead.v
ReadProps.v
RoundTrip.v
SparseExamples.v
Words.v
Sha.v
ShaProps.v
Rsa.v
RsaProps.v
P256.v
P256Props.v
DsaSig.v
Hashmap.v
HashmapProps.v
HashmapRefine.v
StrParms.v
StrParmsProps.v
StrParmsOps.v
StrParmsTheorems.v
Unicode.v
UnicodeProps.v
UnicodeStrings.v
UnicodeValid.v
JString.v
JStringProps.v
P256Ec.v
P256Field.v
P256Mul.v
Primality.v
EcLaw.v
EcJacobian.v
P256Curve.v
P256Points.v
P256Select.v
P256Scalar.v
P256Table.v
P256Base.v
P256Ecdsa.v
P256Theorems.v
ZipArchive.v
ZipExtract.v
ZipTable.v
ZipName.v
ZipParse.v
ZipFind.v
ZipFormat.v
ZipRoundTrip.v
ZipWriter.v
ZipCopy.v
ZipExamples.v
ZipTheorems.v
LinearTransform.v
SortedVector.v
VectorSort.v
BlobCache.v
BlobCacheProps.v
BlobCacheFlat.v
BlobCacheExamples.v
