(* ===== verification/Prelude.v ===== *)
(** * Verification of the Android platform image, signature, container and text code

    The repository holds the native part of an Android platform. This
    development covers the code that images and their signatures go through:
    libsparse (core/libsparse), which holds, writes, splits and reads sparse
    file system images, and libmincrypt (core/libmincrypt), which hashes and
    verifies them; the hash map and the string parameters of libcutils
    (core/libcutils), which the daemons keep their tables in; the conversions
    between encodings of text, the sorted vectors, the blob cache and the linear
    transforms of libutils and libcutils; and the reader of zip archives
    (core/libziparchive), which packages and updates are read with. The rest of
    the repository is listed at the end.

    ** How C is modelled

    Integers are [Z], reduced by [u8] ... [i64] where the C object has the
    width; unsigned arithmetic wraps, and the operations C leaves undefined are
    explicit. [outcome] is the result of running code: a value, undefined
    behaviour (a bad read or write, a division by zero, a shift by the width), a
    failed assertion, or fuel that ran out. Stateful code is in the monad [M]:
    state in, outcome and state out. Loops that walk a linked list take the
    number of cells of the heap plus one as fuel, which is enough for a list
    without cycles; the theorems say that the code returns, so that fuel is
    proved to be enough wherever a theorem mentions a result. The loop of
    felem_is_zero_vartime has a fuel of 5 because a field element is below 2^259
    and every turn but the last takes 2p away.

    Code outside src/ is a parameter: the allocator ([Allocator], [Malloc]), the
    system calls on descriptors ([Kernel], [ReadKernel], [ZipKernel]), zlib ([Zlib],
    [RawInflate]), the build id ([Build]), memory maps and files opened by name ([Env]), the callback of
    a client. What the theorems need of it is a class of laws with a concrete
    instance ([Sink], [PlainSink], [Client], [AppendFile], [PosixFile],
    [ReadFile], [ZipFile], [ZipOutFile], [InflateProgress], [InflateSpec],
    [Plenty], [BuildLaws]).

    ** libsparse

    - BackedBlock.v: backed_block.c. Nodes of a linked list on a heap, their
      allocation and release; the abstract list is a sequence of blocks
      ([lseg], [bbl_ok]), and [queue_spec] is what adding a block means on it.
    - BackedBlockRefine.v, BlockImage.v, BlockListProps.v, BlockListMove.v: the
      code refines the abstract list; what bytes a list of blocks stands for;
      adding, splitting, moving and destroying lists; two memory errors.
    - Crc32.v: sparse_crc32.c, against the shift register of the polynomial.
    - OutputFile.v: output_file.c. The file, gzip and callback outputs and the
      sparse and plain formats over them.
    - Sparse.v: sparse.c. Sparse files: adding blocks, counting chunks, writing,
      measuring and splitting by size.
    - SparseFormat.v, SparseWrite.v, SparseWriteProps.v, PlainWrite.v: the image
      format as a list of chunks and the bytes it encodes, partial blocks filled
      up; writing a file emits exactly its image, to a client, a descriptor, or
      as a plain file.
    - SparseRead.v, ReadProps.v, RoundTrip.v: sparse_read.c and [read_all];
      reading what was written returns the same content; checksums.
    - SparseExamples.v: instances on a file in memory, and inputs the code
      mishandles.

    ** libmincrypt

    - Words.v: numbers as arrays of 32-bit digits, big-endian bytes, congruence.
    - Sha.v, ShaProps.v: sha.c and sha256.c, hash-internal.h; they compute the
      hashes of FIPS 180-4, which are written down from the standard on their own,
      however the message is cut into pieces.
    - Rsa.v, RsaProps.v: rsa.c; Montgomery multiplication, powers, and the check
      of PKCS#1 v1.5 signatures.
    - P256.v, P256Props.v: p256.c; arithmetic modulo the constants of P-256,
      inversion, and exactly which points are accepted.
    - DsaSig.v: dsa_sig.c; exactly which signatures are unpacked.
    - P256Ec.v: p256_ec.c and p256_ecdsa.c. A field element is its list of nine
      limbs, a point the triple of its Jacobian coordinates; arrays that a
      function writes are results.
    - P256Field.v, P256Mul.v: the number that limbs stand for ([fval]), their
      bounds ([tight]), and what each field operation computes with them.
    - Primality.v, EcLaw.v, EcJacobian.v: the mathematics. The two constants are
      prime, by certificates; the points of a curve over a field are a group; the
      formulas for Jacobian coordinates over a field.
    - P256Curve.v, P256Points.v: the field of integers modulo the prime, the curve
      over it, what field elements ([rep]) and points ([jrep]) stand for, and that
      the operations refine field and group operations.
    - P256Select.v, P256Scalar.v, P256Table.v, P256Base.v: choosing without
      branches; multiplication by scalars, with the proof that no sum
      it keeps of its incomplete additions is of equal points or of infinity; the
      table of multiples of the base point and the order of that point, computed
      from slopes.
    - P256Ecdsa.v, P256Theorems.v: Montgomery form, the interface, exactly which
      signatures are accepted, and that made signatures are.

    ** libcutils

    - Hashmap.v: hashmap.c. The table, its buckets and its entries are objects
      of a heap beside those of the client; the functions that hash and compare
      keys are a class. One thread: the lock is left out.
    - HashmapProps.v, HashmapRefine.v: [table] says which entries are in which
      chain at which addresses, [hashmap] which finite map that stands for, and
      [framed] that an operation leaves everything else alone and leaks nothing.
      Every operation refines the one on finite maps; [hashmap_lifecycle] puts
      them together. [short] bounds how much memory there was when an operation
      failed for lack of it.
    - StrParms.v: str_parms.c and strlcpy.c. Parameter lists over a hash map
      from strings to strings, which it owns.
    - StrParmsProps.v, StrParmsOps.v, StrParmsTheorems.v: numbers and copies of
      strings; each operation on the map of a list; parsing, looking up,
      printing and destroying together; a use after free when the map cannot
      grow.
    - JString.v, JStringProps.v: strdup8to16.c and strdup16to8.c, the modified
      UTF-8 of Java. Every UTF-16 text goes there and back; what is measured is
      enough room whatever the bytes are.

    ** libutils

    - Unicode.v: Unicode.cpp. A pointer that is read is the rest of its string,
      one that is written a buffer and an offset; leaving either is undefined
      behaviour. Whether [char] is signed is a class ([Platform]). Loops are
      structural or take the length of what they read as fuel.
    - UnicodeProps.v, UnicodeStrings.v, UnicodeValid.v: the encodings [utf8] and
      [utf16] of a list of scalar values; one character and whole strings in
      every direction; exactly which texts are accepted as UTF-8; a measure that
      is too short.
    - LinearTransform.v: LinearTransform.cpp; the exact value of both directions,
      when they refuse, and that reducing the fraction changes neither. Euclid's
      loop has as fuel the bits of the product of its two numbers, which halves.
    - SortedVector.v: VectorImpl.cpp with SharedBuffer.cpp, for vectors that own
      their buffer. A vector is the size of its buffer and its items; the items are
      a class ([ItemType]) with the laws of a strict weak order ([ItemLaws]).
      Searching, adding and removing refine operations of ordered lists.
    - VectorSort.v: the sort of VectorImpl.cpp is stable; pushing and resizing.
    - BlobCache.v: BlobCache.cpp over a sorted vector of entries. A pointer that is
      read is a memory and an offset. Eviction has as fuel the entries and one more,
      the loop of [set] two rounds, since a cleaned cache is not cleaned again.
    - BlobCacheProps.v, BlobCacheFlat.v: the invariant of a cache ([cache_ok]), what
      is in it ([stored]), what storing and looking up do; the format of a saved
      cache ([flat_cache]), saving and loading, loading any bytes, and what a
      refused load leaves of a cache in use.
    - BlobCacheExamples.v: instances, and the runs in which the code fails.

    ** libziparchive

    - ZipArchive.v: zip_archive.cc up to the iteration, entry_name_utils-inl.h
      and [FileMap::create]. A mapping is the memory that can be read at it; a
      name is an offset into it or the client's memory; reading outside is
      undefined behaviour. The search of the table has as fuel the slots and one
      more, which is enough because a slot stays free.
    - ZipExtract.v: the rest of zip_archive.cc, with [WriteFully] of base. The
      two writers are instances of a class. An inflation has as fuel the
      compressed bytes, the bytes the writer takes and the buffer, and two.
    - ZipTable.v, ZipName.v: the table is a finite set of names; exactly which
      names are valid.
    - ZipParse.v, ZipFind.v: for any file and any kernel, what an opened archive
      satisfies ([archive_ok]), and that finding and iterating are then safe and
      complete.
    - ZipFormat.v, ZipRoundTrip.v: the format ([zip_image]); what is laid out so
      is opened and every entry found.
    - ZipWriter.v, ZipCopy.v: the contract of a writer ([WriterSpec]), that both
      writers keep it, and extraction through any writer that does.
    - ZipExamples.v, ZipTheorems.v: a kernel and an inflater to apply the
      theorems to; the theorems; files that make the reader leave the mapping.

    ** Not modelled

    The command line tools of libsparse, and the other directories: daemons, device
    tools and wrappers over kernel interfaces (adb, init, debuggerd, logd, fs_mgr
    and so on) whose work is I/O; the image builders of extras/ext4_utils,
    f2fs_utils and verity; the rest of libcutils; the hash tables, strings,
    threads and reference counts of libutils, and of its vectors the sharing of
    buffers between copies. Text printed for the user is left out
    everywhere. *)

From Stdlib Require Export ZArith Lia Sorted.
From stdpp Require Export base numbers list sorting gmap strings.
From coqutil Require Export Byte LittleEndianList.

#[local] Open Scope Z_scope.

Create HintDb cdb.
Create Rewrite HintDb cdb.

(** ** Machine integers

    A C object of an integer type holds the value of its last assignment
    reduced to the width of the type: [u32 z] and so on are the conversions C
    applies, two's complement for the signed types. *)

Definition u8 (z : Z) : Z := z mod 2 ^ 8.
Definition u16 (z : Z) : Z := z mod 2 ^ 16.
Definition u32 (z : Z) : Z := z mod 2 ^ 32.
Definition u64 (z : Z) : Z := z mod 2 ^ 64.
Definition i32 (z : Z) : Z := (z + 2 ^ 31) mod 2 ^ 32 - 2 ^ 31.
Definition i64 (z : Z) : Z := (z + 2 ^ 63) mod 2 ^ 64 - 2 ^ 63.

Definition INT_MAX : Z := 2 ^ 31 - 1.

(** [errno] values the sources return negated. *)
Definition ENOMEM : Z := 12.
Definition EINVAL : Z := 22.

(** Whether [char] is signed is the platform's choice; [char_int b] is the value
    of a [char] with the bits of the byte [b]. *)
Class Platform : Type := { char_signed : bool }.

Definition char_int `{Platform} (b : Z) : Z := if char_signed && (128 <=? b) then b - 256 else b.

Lemma u32_range z : 0 <= u32 z < 2 ^ 32.
Proof. apply Z.mod_pos_bound; lia. Qed.

Lemma u32_small z : 0 <= z < 2 ^ 32 -> u32 z = z.
Proof. apply Z.mod_small. Qed.

Lemma u32_idem z : u32 (u32 z) = u32 z.
Proof. apply u32_small, u32_range. Qed.

Lemma u64_small z : 0 <= z < 2 ^ 64 -> u64 z = z.
Proof. apply Z.mod_small. Qed.

Lemma i32_small z : - 2 ^ 31 <= z < 2 ^ 31 -> i32 z = z.
Proof. intros H. unfold i32. rewrite Z.mod_small; lia. Qed.

Lemma i64_small z : - 2 ^ 63 <= z < 2 ^ 63 -> i64 z = z.
Proof. intros H. unfold i64. rewrite Z.mod_small; lia. Qed.

Lemma u32_add_l x y : u32 (u32 x + y) = u32 (x + y).
Proof. unfold u32. apply Zplus_mod_idemp_l. Qed.

#[export] Hint Resolve u32_range : cdb.

(** Rewrites every conversion whose argument is provably in range. *)
Ltac wrap_simp :=
  repeat first
    [ rewrite u32_small by lia
    | rewrite i32_small by lia
    | rewrite i64_small by lia
    | rewrite u64_small by lia ].

(** ** Rounding macros (libsparse/sparse_defs.h)

    The macros compute in the common type of their operands; [w] is the
    conversion to that type. *)

Definition DIV_ROUND_UP (w : Z -> Z) (x y : Z) : Z := Z.quot (w (x + y - 1)) y.
Definition ALIGN (w : Z -> Z) (x y : Z) : Z := w (y * DIV_ROUND_UP w x y).
Definition ALIGN_DOWN (w : Z -> Z) (x y : Z) : Z := w (y * Z.quot x y).

Lemma quot_div x y : 0 <= x -> 0 < y -> Z.quot x y = x / y.
Proof. intros. apply Z.quot_div_nonneg; lia. Qed.

Lemma div_round_up_mul y k : 0 < y -> (y * k + y - 1) / y = k.
Proof.
  intros Hy. symmetry. apply (Z.div_unique _ _ _ (y - 1)); lia.
Qed.

Lemma DIV_ROUND_UP_u32_mul y k :
  0 < y -> 0 <= k -> y * k + y <= 2 ^ 32 -> DIV_ROUND_UP u32 (y * k) y = k.
Proof.
  intros Hy Hk Hb. unfold DIV_ROUND_UP.
  rewrite u32_small by nia. rewrite quot_div by nia.
  by apply div_round_up_mul.
Qed.

Lemma DIV_ROUND_UP_i64_mul y k :
  0 < y -> 0 <= k -> y * k + y <= 2 ^ 63 -> DIV_ROUND_UP i64 (y * k) y = k.
Proof.
  intros Hy Hk Hb. unfold DIV_ROUND_UP.
  rewrite i64_small by nia. rewrite quot_div by nia.
  by apply div_round_up_mul.
Qed.

Lemma ALIGN_u32_mul y k :
  0 < y -> 0 <= k -> y * k + y <= 2 ^ 32 -> ALIGN u32 (y * k) y = y * k.
Proof.
  intros. unfold ALIGN. rewrite DIV_ROUND_UP_u32_mul by lia.
  apply u32_small; nia.
Qed.

(** [ALIGN] and [ALIGN_DOWN] on values that do not overflow. *)
Lemma ALIGN_u32_spec x y :
  0 < y -> 0 <= x -> x + y <= 2 ^ 32 ->
  x <= ALIGN u32 x y < x + y /\ ALIGN u32 x y mod y = 0.
Proof.
  intros Hy Hx Hb. unfold ALIGN, DIV_ROUND_UP.
  rewrite (u32_small (x + y - 1)) by lia. rewrite quot_div by lia.
  pose proof (Z.div_mod (x + y - 1) y ltac:(lia)) as E.
  pose proof (Z.mod_pos_bound (x + y - 1) y Hy).
  rewrite u32_small by lia.
  split; [lia|]. rewrite Z.mul_comm. apply Z.mod_mul; lia.
Qed.

Lemma ALIGN_DOWN_u32_spec x y :
  0 < y -> 0 <= x < 2 ^ 32 ->
  0 <= ALIGN_DOWN u32 x y <= x /\ x - ALIGN_DOWN u32 x y < y /\
  ALIGN_DOWN u32 x y mod y = 0.
Proof.
  intros Hy Hx. unfold ALIGN_DOWN. rewrite quot_div by lia.
  pose proof (Z.div_mod x y ltac:(lia)) as E.
  pose proof (Z.mod_pos_bound x y Hy).
  pose proof (Z.div_pos x y ltac:(lia) Hy).
  rewrite u32_small by nia.
  repeat split; try nia. rewrite Z.mul_comm. apply Z.mod_mul; lia.
Qed.

(** ** Outcomes of C code

    [UB] is undefined behaviour (a dangling or null dereference, a double
    free, a division by zero), [Abort] a failed [assert], and [NoFuel] marks a
    bounded loop that was cut off; the theorems show the fuel given suffices. *)

Inductive outcome (A : Type) : Type :=
| Ok (a : A)
| UB
| Abort
| NoFuel.
Arguments Ok {A} a.
Arguments UB {A}.
Arguments Abort {A}.
Arguments NoFuel {A}.

Definition obind {A B} (m : outcome A) (k : A -> outcome B) : outcome B :=
  match m with
  | Ok a => k a
  | UB => UB
  | Abort => Abort
  | NoFuel => NoFuel
  end.

(** Stateful C code over a store of type [S]. *)
Definition M (S A : Type) : Type := S -> outcome (A * S).

Definition ret {S A} (a : A) : M S A := fun s => Ok (a, s).
Definition bind {S A B} (m : M S A) (k : A -> M S B) : M S B :=
  fun s => obind (m s) (fun r => k r.1 r.2).
Definition undef {S A} : M S A := fun _ => UB.
Definition no_fuel {S A} : M S A := fun _ => NoFuel.
Definition assert {S} (b : bool) : M S unit :=
  fun s => if b then Ok (tt, s) else Abort.
Definition gets {S A} (f : S -> A) : M S A := fun s => Ok (f s, s).
(** Division by zero is undefined: checked before a [/] or [%] by [y]. *)
Definition divisor {S} (y : Z) : M S unit := if y =? 0 then undef else ret tt.
(** Code with no effect on the store. *)
Definition lift {S A} (m : outcome A) : M S A :=
  fun s => obind m (fun a => Ok (a, s)).

(** Code that works on one part of the store. *)
Definition on_fst {S T A} (m : M S A) : M (S * T) A :=
  fun st => obind (m st.1) (fun r => Ok (r.1, (r.2, st.2))).
Definition on_snd {S T A} (m : M T A) : M (S * T) A :=
  fun st => obind (m st.2) (fun r => Ok (r.1, (st.1, r.2))).

Declare Scope c_scope.
Delimit Scope c_scope with c.
Notation "'let!' x ':=' m 'in' k" := (bind m (fun x => k))
  (at level 10, x pattern, m at level 100, k at level 200)
  : c_scope.
Notation "m ';;!' k" := (bind m (fun _ => k))
  (at level 110, right associativity) : c_scope.
Notation "'do!' x ':=' m 'in' k" := (obind m (fun x => k))
  (at level 10, x pattern, m at level 100, k at level 200)
  : c_scope.

Lemma bind_Ok {S A B} (m : M S A) (k : A -> M S B) s a s' :
  m s = Ok (a, s') -> bind m k s = k a s'.
Proof. intros E. unfold bind. by rewrite E. Qed.

Lemma on_fst_ok {S T A} (m : M S A) s (t : T) a s' :
  m s = Ok (a, s') -> on_fst m (s, t) = Ok (a, (s', t)).
Proof. intros E. unfold on_fst. simpl. by rewrite E. Qed.

Lemma on_snd_ok {S T A} (m : M T A) (s : S) t a t' :
  m t = Ok (a, t') -> on_snd m (s, t) = Ok (a, (s, t')).
Proof. intros E. unfold on_snd. simpl. by rewrite E. Qed.

Lemma divisor_ok {S} y (s : S) : 0 < y -> divisor y s = Ok (tt, s).
Proof. intros H. unfold divisor. by destruct (Z.eqb_spec y 0); [lia|]. Qed.

#[export] Hint Resolve divisor_ok on_fst_ok on_snd_ok : cdb.

Lemma obind_Ok_inv {A B} (m : outcome A) (k : A -> outcome B) b :
  obind m k = Ok b -> exists a, m = Ok a /\ k a = Ok b.
Proof. destruct m; simpl; eauto; discriminate. Qed.

(** ** Bytes *)

(** The [n] low bytes of an integer as the host (little-endian) stores them. *)
Definition le (n : nat) (z : Z) : list byte := le_split n z.

Lemma length_le n z : length (le n z) = n.
Proof. apply length_le_split. Qed.

Lemma le_combine_le n z :
  0 <= z < 2 ^ (Z.of_nat n * 8) -> le_combine (le n z) = z.
Proof. intros H. unfold le. rewrite le_combine_split. by apply Z.mod_small. Qed.

#[export] Hint Rewrite length_le : cdb.

(** [n] bytes of the byte function [f], from offset 0. *)
Definition bytes_of (f : Z -> byte) (n : Z) : list byte := f <$> seqZ 0 n.

Lemma length_bytes_of f n : length (bytes_of f n) = Z.to_nat n.
Proof. unfold bytes_of. by rewrite length_fmap, length_seqZ. Qed.

Lemma lookup_bytes_of f n i :
  (i < Z.to_nat n)%nat -> bytes_of f n !! i = Some (f (Z.of_nat i)).
Proof.
  intros H. unfold bytes_of. rewrite list_lookup_fmap.
  rewrite lookup_seqZ_lt by lia. simpl. done.
Qed.

Lemma bytes_of_ext f g n :
  (forall i, 0 <= i < n -> f i = g i) -> bytes_of f n = bytes_of g n.
Proof.
  intros H. apply list_eq_same_length with (Z.to_nat n);
    [by rewrite length_bytes_of..|].
  intros i x y Hi. rewrite !lookup_bytes_of by done.
  rewrite H by lia. congruence.
Qed.

Lemma bytes_of_app f n m :
  0 <= n -> 0 <= m ->
  bytes_of f (n + m) = bytes_of f n ++ bytes_of (fun i => f (n + i)) m.
Proof.
  intros Hn Hm. unfold bytes_of. rewrite seqZ_app by lia.
  rewrite fmap_app. f_equal.
  apply list_eq. intros i. rewrite !list_lookup_fmap.
  destruct (decide (Z.of_nat i < m)).
  - rewrite !lookup_seqZ_lt by lia. done.
  - by rewrite !lookup_seqZ_ge by lia.
Qed.

(** ** Structs and memory *)

(** The [n]-byte field of a struct at offset [off]. *)
Definition field (l : list byte) (off n : nat) : Z := le_combine (take n (drop off l)).

Lemma field_le pre z post off n :
  0 <= z < 2 ^ (Z.of_nat n * 8) -> length pre = off -> field (pre ++ le n z ++ post) off n = z.
Proof.
  intros Hz <-. unfold field. rewrite drop_app_length, take_app_le by (by rewrite length_le).
  rewrite take_ge by (by rewrite length_le). by apply le_combine_le.
Qed.

Lemma field_skip k z l off n : (k <= off)%nat -> field (le k z ++ l) off n = field l (off - k) n.
Proof.
  intros Hk. unfold field. rewrite drop_app_ge by (rewrite length_le; lia). by rewrite length_le.
Qed.

Lemma field_here z l n : 0 <= z < 2 ^ (Z.of_nat n * 8) -> field (le n z ++ l) 0 n = z.
Proof.
  intros Hz. unfold field. rewrite drop_0, take_app_le, take_ge by (by rewrite length_le). by apply le_combine_le.
Qed.

Lemma field_range l off n : 0 <= field l off n < 2 ^ (8 * Z.of_nat n).
Proof.
  unfold field. pose proof (le_combine_bound (take n (drop off l))) as Hb.
  assert (length (take n (drop off l)) <= n)%nat by (rewrite length_take; lia).
  split; [lia|]. eapply Z.lt_le_trans; [apply Hb|]. apply Z.pow_le_mono_r; lia.
Qed.

(** Reading [n] bytes from the start of the memory [mem]. *)
Definition mem_read (mem : list byte) (n : Z) : outcome (list byte) :=
  if n <=? Z.of_nat (length mem) then Ok (take (Z.to_nat n) mem) else UB.

Lemma mem_read_Ok mem n l :
  mem_read mem n = Ok l -> 0 <= n -> Z.of_nat (length l) = n /\ l = take (Z.to_nat n) mem /\
    (Z.to_nat n <= length mem)%nat.
Proof.
  unfold mem_read. destruct (Z.leb_spec n (Z.of_nat (length mem))); [|done]. intros [= <-] Hn.
  split; [rewrite length_take; lia|]. split; [done|lia].
Qed.

(** [memcpy] into the memory [mem] at offset [off]. *)
Definition mem_write (mem : list byte) (off : Z) (data : list byte) : outcome (list byte) :=
  if off + Z.of_nat (length data) <=? Z.of_nat (length mem)
  then Ok (take (Z.to_nat off) mem ++ data ++ drop (Z.to_nat off + length data) mem)
  else UB.

Lemma mem_write_ok mem off data : 0 <= off -> off + Z.of_nat (length data) <= Z.of_nat (length mem) ->
  mem_write mem off data = Ok (take (Z.to_nat off) mem ++ data ++ drop (Z.to_nat off + length data) mem).
Proof. intros Ho Hb. unfold mem_write. by rewrite (proj2 (Z.leb_le _ _)). Qed.

(** ** Options and lists *)

Definition isSome {A} (o : option A) : bool :=
  match o with Some _ => true | None => false end.

Lemma NoDup_app_r {A} (l k : list A) : NoDup (l ++ k) -> NoDup k.
Proof. intros (_ & _ & H)%NoDup_app. done. Qed.

Lemma NoDup_app_l {A} (l k : list A) : NoDup (l ++ k) -> NoDup l.
Proof. intros (H & _ & _)%NoDup_app. done. Qed.
