(* ===== verification/BackedBlock.v ===== *)
(** * Backed block lists (core/libsparse/backed_block.c)

    The singly linked list of blocks behind a sparse file, over an explicit C
    heap: nodes and [strdup]ed file names are heap objects, a pointer is an
    [option loc], and dereferencing or freeing anything that is not a live
    object is [UB].  The functions follow the C code store by store.  The
    second half gives the list they implement and proves that each operation
    refines its abstract counterpart, together with the operations' effect on
    the image the list denotes. *)

From S2P Require Import Prelude.

#[local] Open Scope Z_scope.
#[local] Open Scope c_scope.

(** ** Data *)

Definition loc : Set := positive.

(** The [type] tag together with the union it selects.  [data] is the address
    of the caller's buffer, [filename] the pointer returned by [strdup]. *)
Inductive backed_block_type : Type :=
| BACKED_BLOCK_DATA (data : Z)
| BACKED_BLOCK_FILE (filename : option loc) (offset : Z)
| BACKED_BLOCK_FD (fd : Z) (offset : Z)
| BACKED_BLOCK_FILL (val : Z).

Record backed_block : Type := BackedBlock {
  bb_block : Z;
  bb_len : Z;
  bb_type : backed_block_type;
  bb_next : option loc
}.

Record backed_block_list : Type := BackedBlockList {
  data_blocks : option loc;
  last_used : option loc;
  bbl_block_size : Z
}.

Definition set_next (b : backed_block) (n : option loc) : backed_block :=
  BackedBlock (bb_block b) (bb_len b) (bb_type b) n.
Definition set_len (b : backed_block) (n : Z) : backed_block :=
  BackedBlock (bb_block b) n (bb_type b) (bb_next b).
Definition set_data_blocks (l : backed_block_list) (p : option loc) : backed_block_list :=
  BackedBlockList p (last_used l) (bbl_block_size l).
Definition set_last_used (l : backed_block_list) (p : option loc) : backed_block_list :=
  BackedBlockList (data_blocks l) p (bbl_block_size l).

(** ** The C heap *)

Inductive obj : Type :=
| OBlock (b : backed_block)
| OStr (s : string).

(** [brk] counts allocations, so that an allocator may answer differently each
    time.  The structs that the functions below pass by value (lists, sparse
    files, output files and their buffers) are not objects of [cells];
    [structs] is the number of them that are allocated and not freed. *)
Record heap : Type := Heap { cells : gmap loc obj; brk : loc; structs : Z }.

(** [malloc] and [calloc]: a location not in use, or NULL; for a struct passed
    by value, whether the allocation succeeds. *)
Class Allocator : Type := {
  malloc : heap -> option loc;
  malloc_fresh : forall h l, malloc h = Some l -> cells h !! l = None;
  calloc_struct : heap -> bool
}.

Definition heap_set (h : heap) (l : loc) (o : obj) : heap :=
  Heap (<[l := o]> (cells h)) (brk h) (structs h).
Definition heap_alloc (h : heap) (l : loc) (o : obj) : heap :=
  Heap (<[l := o]> (cells h)) (Pos.succ (Pos.max (brk h) l)) (structs h).
Definition heap_free (h : heap) (l : loc) : heap :=
  Heap (delete l (cells h)) (brk h) (structs h).

Definition load (p : option loc) : M heap backed_block := fun h =>
  match p with
  | Some l =>
    match cells h !! l with
    | Some (OBlock b) => Ok (b, h)
    | _ => UB
    end
  | None => UB
  end.

Definition load_str (p : option loc) : M heap string := fun h =>
  match p with
  | Some l =>
    match cells h !! l with
    | Some (OStr s) => Ok (s, h)
    | _ => UB
    end
  | None => UB
  end.

Definition store (p : option loc) (b : backed_block) : M heap unit := fun h =>
  match p with
  | Some l =>
    match cells h !! l with
    | Some (OBlock _) => Ok (tt, heap_set h l (OBlock b))
    | _ => UB
    end
  | None => UB
  end.

Definition free (p : option loc) : M heap unit := fun h =>
  match p with
  | None => Ok (tt, h)
  | Some l =>
    match cells h !! l with
    | Some _ => Ok (tt, heap_free h l)
    | None => UB
    end
  end.

Definition alloc `{Allocator} (o : obj) : M heap (option loc) := fun h =>
  match malloc h with
  | Some l => Ok (Some l, heap_alloc h l o)
  | None => Ok (None, h)
  end.

Definition alloc_struct `{Allocator} : M heap bool := fun h =>
  if calloc_struct h then Ok (true, Heap (cells h) (Pos.succ (brk h)) (structs h + 1))
  else Ok (false, h).

Definition free_struct : M heap unit := fun h =>
  Ok (tt, Heap (cells h) (brk h) (structs h - 1)).

(** Fuel for a walk along a list: no acyclic list is longer than the heap. *)
Definition walk_fuel : M heap nat := gets (fun h => S (size (cells h))).

(** ** Operations *)

Definition backed_block_iter_new (bbl : backed_block_list) : option loc :=
  data_blocks bbl.

Definition backed_block_iter_next (bb : option loc) : M heap (option loc) :=
  let! b := load bb in ret (bb_next b).

Definition backed_block_len (b : backed_block) : Z := bb_len b.
Definition backed_block_block (b : backed_block) : Z := bb_block b.

(** The accessors of the union check the tag with [assert]. *)
Definition backed_block_data (b : backed_block) : outcome Z :=
  match bb_type b with BACKED_BLOCK_DATA d => Ok d | _ => Abort end.
Definition backed_block_filename (b : backed_block) : outcome (option loc) :=
  match bb_type b with BACKED_BLOCK_FILE f _ => Ok f | _ => Abort end.
Definition backed_block_fd (b : backed_block) : outcome Z :=
  match bb_type b with BACKED_BLOCK_FD f _ => Ok f | _ => Abort end.
Definition backed_block_file_offset (b : backed_block) : outcome Z :=
  match bb_type b with
  | BACKED_BLOCK_FILE _ o => Ok o
  | BACKED_BLOCK_FD _ o => Ok o
  | _ => Abort
  end.
Definition backed_block_fill_val (b : backed_block) : outcome Z :=
  match bb_type b with BACKED_BLOCK_FILL v => Ok v | _ => Abort end.

Definition backed_block_destroy (bb : option loc) : M heap unit :=
  let! b := load bb in
  match bb_type b with
  | BACKED_BLOCK_FILE filename _ => free filename
  | _ => ret tt
  end ;;!
  free bb.

(** [calloc] is not checked: the store to [block_size] follows. *)
Definition backed_block_list_new `{Allocator} (block_size : Z) : M heap backed_block_list :=
  let! b := alloc_struct in
  if (b : bool) then ret (BackedBlockList None None block_size) else undef.

Fixpoint destroy_loop (fuel : nat) (bb : option loc) : M heap unit :=
  match bb with
  | None => ret tt
  | Some _ =>
    match fuel with
    | O => no_fuel
    | S fuel =>
      let! b := load bb in
      let next := bb_next b in
      backed_block_destroy bb ;;!
      destroy_loop fuel next
    end
  end.

Definition backed_block_list_destroy (bbl : backed_block_list) : M heap unit :=
  let! fuel := walk_fuel in
  destroy_loop fuel (data_blocks bbl) ;;!
  free_struct.

(** [for (end = start; end && end->next; end = end->next);] *)
Fixpoint move_end (fuel : nat) (e : option loc) : M heap (option loc) :=
  match e with
  | None => ret None
  | Some _ =>
    match fuel with
    | O => no_fuel
    | S fuel =>
      let! b := load e in
      match bb_next b with
      | None => ret e
      | Some _ => move_end fuel (bb_next b)
      end
    end
  end.

(** Unlinks [start..end] from [from]: finds the node before [start]. *)
Fixpoint move_unlink (fuel : nat) (bb start end_next : option loc) : M heap unit :=
  match bb with
  | None => ret tt
  | Some _ =>
    match fuel with
    | O => no_fuel
    | S fuel =>
      let! b := load bb in
      if decide (bb_next b = start) then store bb (set_next b end_next)
      else move_unlink fuel (bb_next b) start end_next
    end
  end.

(** Links [start..end] into the list that [bb] heads. *)
Fixpoint move_link (fuel : nat) (bb start end_ : option loc) (start_block : Z)
  : M heap unit :=
  match bb with
  | None => ret tt
  | Some _ =>
    match fuel with
    | O => no_fuel
    | S fuel =>
      let! b := load bb in
      let! here :=
        match bb_next b with
        | None => ret true
        | Some _ => let! n := load (bb_next b) in ret (start_block <? bb_block n)
        end in
      if (here : bool) then
        let! e := load end_ in
        store end_ (set_next e (bb_next b)) ;;!
        let! b' := load bb in
        store bb (set_next b' start)
      else move_link fuel (bb_next b) start end_ start_block
    end
  end.

Definition backed_block_list_move (from to : backed_block_list) (start end_ : option loc)
  : M heap (backed_block_list * backed_block_list) :=
  let start := match start with None => data_blocks from | Some _ => start end in
  let! fuel := walk_fuel in
  let! end_ := match end_ with None => move_end fuel start | Some _ => ret end_ end in
  match start, end_ with
  | Some _, Some _ =>
    let from := set_last_used from None in
    let to := set_last_used to None in
    let! e := load end_ in
    let! from :=
      if decide (data_blocks from = start)
      then ret (set_data_blocks from (bb_next e))
      else move_unlink fuel (data_blocks from) start (bb_next e) ;;! ret from in
    match data_blocks to with
    | None =>
      let! e' := load end_ in
      store end_ (set_next e' None) ;;!
      ret (from, set_data_blocks to start)
    | Some _ =>
      let! s := load start in
      move_link fuel (data_blocks to) start end_ (bb_block s) ;;!
      ret (from, to)
    end
  | _, _ => ret (from, to)
  end.

(** [a->type == b->type] *)
Definition same_type (a b : backed_block) : bool :=
  match bb_type a, bb_type b with
  | BACKED_BLOCK_DATA _, BACKED_BLOCK_DATA _ | BACKED_BLOCK_FILE _ _, BACKED_BLOCK_FILE _ _
  | BACKED_BLOCK_FD _ _, BACKED_BLOCK_FD _ _ | BACKED_BLOCK_FILL _, BACKED_BLOCK_FILL _ => true
  | _, _ => false
  end.

(** The cases of the [switch] in [merge_bb] that fall through to the merge. *)
Definition merge_compatible (a b : backed_block) : bool :=
  match bb_type a, bb_type b with
  | BACKED_BLOCK_DATA _, BACKED_BLOCK_DATA _ => false
  | BACKED_BLOCK_FILL va, BACKED_BLOCK_FILL vb => va =? vb
  | BACKED_BLOCK_FILE fa oa, BACKED_BLOCK_FILE fb ob =>
    bool_decide (fa = fb) && (i64 (oa + bb_len a) =? ob)
  | BACKED_BLOCK_FD fa oa, BACKED_BLOCK_FD fb ob =>
    (fa =? fb) && (i64 (oa + bb_len a) =? ob)
  | _, _ => false
  end.

Definition merge_bb (bbl : backed_block_list) (a b : option loc) : M heap Z :=
  match a, b with
  | Some _, Some _ =>
    let! A := load a in
    let! B := load b in
    assert (bb_block A <? bb_block B) ;;!
    if negb (same_type A B) then ret (- EINVAL)
    else
      divisor (bbl_block_size bbl) ;;!
      let block_len := bb_len A / bbl_block_size bbl in
      if negb (u32 (bb_block A + block_len) =? bb_block B) then ret (- EINVAL)
      else if merge_compatible A B then
        store a (set_next (set_len A (u32 (bb_len A + bb_len B))) (bb_next B)) ;;!
        backed_block_destroy b ;;!
        ret 0
      else ret (- EINVAL)
  | _, _ => ret (- EINVAL)
  end.

(** [for (; bb->next && bb->next->block < new_bb->block; bb = bb->next);] *)
Fixpoint queue_search (fuel : nat) (bb : option loc) (block : Z) : M heap (option loc) :=
  match fuel with
  | O => no_fuel
  | S fuel =>
    let! b := load bb in
    match bb_next b with
    | None => ret bb
    | Some _ =>
      let! n := load (bb_next b) in
      if bb_block n <? block then queue_search fuel (bb_next b) block else ret bb
    end
  end.

(** Links [new_bb] in after [bb] and merges it with its neighbours. *)
Definition queue_link (bbl : backed_block_list) (bb new_bb : option loc) : M heap unit :=
  let! b := load bb in
  match bb_next b with
  | None => store bb (set_next b new_bb)
  | Some _ =>
    let! n := load new_bb in
    store new_bb (set_next n (bb_next b)) ;;!
    let! b' := load bb in
    store bb (set_next b' new_bb)
  end ;;!
  let! n := load new_bb in
  merge_bb bbl new_bb (bb_next n) ;;!
  merge_bb bbl bb new_bb ;;!
  ret tt.

Definition queue_bb (bbl : backed_block_list) (new_bb : option loc)
  : M heap (Z * backed_block_list) :=
  match data_blocks bbl with
  | None => ret (0, set_data_blocks bbl new_bb)
  | Some _ =>
    let! d := load (data_blocks bbl) in
    let! n := load new_bb in
    if bb_block n <? bb_block d then
      store new_bb (set_next n (data_blocks bbl)) ;;!
      ret (0, set_data_blocks bbl new_bb)
    else
      let! bb :=
        match last_used bbl with
        | None => ret (data_blocks bbl)
        | Some _ =>
          let! l := load (last_used bbl) in
          ret (if bb_block l <? bb_block n then last_used bbl else data_blocks bbl)
        end in
      let bbl := set_last_used bbl new_bb in
      let! fuel := walk_fuel in
      let! bb := queue_search fuel bb (bb_block n) in
      queue_link bbl bb new_bb ;;!
      ret (0, bbl)
  end.

Section Alloc.
Context `{Allocator}.

Definition backed_block_add_fill (bbl : backed_block_list) (fill_val len block : Z)
  : M heap (Z * backed_block_list) :=
  let! bb := alloc (OBlock (BackedBlock block len (BACKED_BLOCK_FILL fill_val) None)) in
  match bb with
  | None => ret (- ENOMEM, bbl)
  | Some _ => queue_bb bbl bb
  end.

Definition backed_block_add_data (bbl : backed_block_list) (data len block : Z)
  : M heap (Z * backed_block_list) :=
  let! bb := alloc (OBlock (BackedBlock block len (BACKED_BLOCK_DATA data) None)) in
  match bb with
  | None => ret (- ENOMEM, bbl)
  | Some _ => queue_bb bbl bb
  end.

(** The result of [strdup] is stored unchecked. *)
Definition backed_block_add_file (bbl : backed_block_list) (filename : string)
    (offset len block : Z) : M heap (Z * backed_block_list) :=
  let! bb := alloc (OBlock (BackedBlock block len (BACKED_BLOCK_FILE None 0) None)) in
  match bb with
  | None => ret (- ENOMEM, bbl)
  | Some _ =>
    let! name := alloc (OStr filename) in
    store bb (BackedBlock block len (BACKED_BLOCK_FILE name offset) None) ;;!
    queue_bb bbl bb
  end.

Definition backed_block_add_fd (bbl : backed_block_list) (fd offset len block : Z)
  : M heap (Z * backed_block_list) :=
  let! bb := alloc (OBlock (BackedBlock block len (BACKED_BLOCK_FD fd offset) None)) in
  match bb with
  | None => ret (- ENOMEM, bbl)
  | Some _ => queue_bb bbl bb
  end.

(** The [switch] that moves the copied union past the first [n] bytes. *)
Definition type_advance (t : backed_block_type) (n : Z) : backed_block_type :=
  match t with
  | BACKED_BLOCK_DATA d => BACKED_BLOCK_DATA (d + n)
  | BACKED_BLOCK_FILE f o => BACKED_BLOCK_FILE f (i64 (o + n))
  | BACKED_BLOCK_FD f o => BACKED_BLOCK_FD f (i64 (o + n))
  | BACKED_BLOCK_FILL v => BACKED_BLOCK_FILL v
  end.

Definition backed_block_split (bbl : backed_block_list) (bb : option loc) (max_len : Z)
  : M heap Z :=
  divisor (bbl_block_size bbl) ;;!
  let max_len := ALIGN_DOWN u32 max_len (bbl_block_size bbl) in
  let! b := load bb in
  if bb_len b <=? max_len then ret 0
  else
    let! new_bb := alloc (OBlock b) in
    match new_bb with
    | None => ret (- ENOMEM)
    | Some _ =>
      store new_bb
        (BackedBlock (u32 (bb_block b + max_len / bbl_block_size bbl))
                     (u32 (bb_len b - max_len))
                     (type_advance (bb_type b) max_len) (bb_next b)) ;;!
      store bb (BackedBlock (bb_block b) max_len (bb_type b) new_bb) ;;!
      ret 0
    end.

End Alloc.

(** ** Allocators *)

(** Hands out increasing locations and never reuses one. *)
Program Definition bump_allocator : Allocator := {|
  malloc h := match cells h !! brk h with None => Some (brk h) | Some _ => None end;
  calloc_struct _ := true
|}.
Next Obligation. intros h l. simpl. destruct (cells h !! brk h) eqn:E; naive_solver. Qed.

(** ** Stepping through the heap operations *)

Lemma load_ok h x b : cells h !! x = Some (OBlock b) -> load (Some x) h = Ok (b, h).
Proof. intros E. unfold load. by rewrite E. Qed.

Lemma store_ok h x b b' :
  cells h !! x = Some (OBlock b) -> store (Some x) b' h = Ok (tt, heap_set h x (OBlock b')).
Proof. intros E. unfold store. by rewrite E. Qed.

Lemma free_ok h x o : cells h !! x = Some o -> free (Some x) h = Ok (tt, heap_free h x).
Proof. intros E. unfold free. by rewrite E. Qed.

Lemma assert_ok {S} b (s : S) : b = true -> assert b s = Ok (tt, s).
Proof. intros ->. done. Qed.

Lemma ret_ok {S A} (a : A) (s : S) : ret a s = Ok (a, s).
Proof. done. Qed.

Lemma gets_ok {S A} (f : S -> A) (s : S) : gets f s = Ok (f s, s).
Proof. done. Qed.

#[export] Hint Resolve load_ok store_ok free_ok assert_ok ret_ok gets_ok : cdb.

(** Runs the next statement of a monadic program whose effect is known. *)
Ltac step := erewrite bind_Ok by (solve [eauto with cdb]); cbn beta match.

(** ** The list a heap holds *)

(** A block without its link. *)
Record ablock : Type := ABlock { a_block : Z; a_len : Z; a_type : backed_block_type }.

Definition node (a : ablock) (n : option loc) : backed_block :=
  BackedBlock (a_block a) (a_len a) (a_type a) n.

(** [lseg h p xs q]: from [p] the links run through the nodes [xs] and reach [q]. *)
Fixpoint lseg (h : heap) (p : option loc) (xs : list (loc * ablock)) (q : option loc) : Prop :=
  match xs with
  | [] => p = q
  | (x, a) :: xs =>
    p = Some x /\ exists n, cells h !! x = Some (OBlock (node a n)) /\ lseg h n xs q
  end.

Lemma lseg_app h p xs ys q :
  lseg h p (xs ++ ys) q <-> exists m, lseg h p xs m /\ lseg h m ys q.
Proof.
  revert p. induction xs as [|[x a] xs IH]; intros p; simpl.
  - split; [eauto | by intros (m & -> & ?)].
  - setoid_rewrite IH. naive_solver.
Qed.

Lemma lseg_frame h h' p xs q :
  (forall x, x ∈ xs.*1 -> cells h' !! x = cells h !! x) ->
  lseg h p xs q -> lseg h' p xs q.
Proof.
  revert p. induction xs as [|[x a] xs IH]; intros p Hf; simpl; [done|].
  intros (-> & n & Hx & Hl). split; [done|]. exists n. split.
  - rewrite Hf; [done|]. set_solver.
  - apply IH; [|done]. intros y Hy. apply Hf. set_solver.
Qed.

Lemma lseg_live h p xs q x : lseg h p xs q -> x ∈ xs.*1 -> exists b, cells h !! x = Some (OBlock b).
Proof.
  revert p. induction xs as [|[y a] xs IH]; intros p; simpl; [set_solver|].
  intros (-> & n & Hy & Hl) [->|Hin]%elem_of_cons; eauto.
Qed.

Lemma length_le_size {A} (m : gmap loc A) (ls : list loc) :
  NoDup ls -> (forall x, x ∈ ls -> is_Some (m !! x)) -> (length ls <= size m)%nat.
Proof.
  intros Hnd Hin.
  rewrite <- (size_list_to_set (C:=gset loc) ls) by done.
  rewrite <- size_dom. apply subseteq_size. intros x Hx.
  apply elem_of_dom, Hin. set_solver.
Qed.

Lemma lseg_length h p xs q :
  lseg h p xs q -> NoDup xs.*1 -> (length xs <= size (cells h))%nat.
Proof.
  intros Hl Hnd. rewrite <- (length_fmap fst). apply length_le_size; [done|].
  intros x Hx. destruct (lseg_live _ _ _ _ _ Hl Hx). eauto.
Qed.

(** The [strdup]ed names the nodes own. *)
Definition name_of (a : ablock) : option loc :=
  match a_type a with BACKED_BLOCK_FILE f _ => f | _ => None end.
Definition names (xs : list (loc * ablock)) : list loc := omap (fun x => name_of x.2) xs.

(** The representation invariant of a backed block list. *)
Record bbl_ok (h : heap) (bbl : backed_block_list) (xs : list (loc * ablock)) : Prop := {
  ok_chain : lseg h (data_blocks bbl) xs None;
  ok_nodup : NoDup xs.*1;
  ok_names : NoDup (names xs);
  ok_strs : forall f, f ∈ names xs -> exists s, cells h !! f = Some (OStr s)
}.

(** [last_used] is NULL or points to a node of the list. *)
Definition last_used_ok (bbl : backed_block_list) (xs : list (loc * ablock)) : Prop :=
  match last_used bbl with None => True | Some x => x ∈ xs.*1 end.

(** Block numbers strictly increase along the list. *)
Definition sorted (l : list ablock) : Prop := StronglySorted Z.lt (a_block <$> l).

(** ** Abstract operations *)

Definition try_merge (bs : Z) (a b : ablock) : option ablock :=
  if (u32 (a_block a + a_len a / bs) =? a_block b)
     && merge_compatible (node a None) (node b None)
  then Some (ABlock (a_block a) (u32 (a_len a + a_len b)) (a_type a))
  else None.

(** Merges [a] with the head of [post] when the two are compatible. *)
Definition merge_next (bs : Z) (a : ablock) (post : list ablock) : ablock * list ablock :=
  match post with
  | [] => (a, [])
  | n :: post' =>
    match try_merge bs a n with Some m => (m, post') | None => (a, post) end
  end.

(** Insertion at the place of [a]; nothing is merged when [a] becomes the head. *)
Definition queue_spec (bs : Z) (l : list ablock) (a : ablock) : list ablock :=
  let pre := filter (fun b => a_block b < a_block a) l in
  let post := filter (fun b => ~ a_block b < a_block a) l in
  match last pre with
  | None => a :: post
  | Some p =>
    let '(a1, post1) := merge_next bs a post in
    match try_merge bs p a1 with
    | Some m => removelast pre ++ m :: post1
    | None => pre ++ a1 :: post1
    end
  end.
