(* ===== verification/BackedBlockRefine.v ===== *)
(** * Refinement of the backed block list

    The pointer code of [BackedBlock] implements the abstract operations on
    lists of blocks: [queue_bb] is sorted insertion with merging, whatever node
    the [last_used] shortcut starts from, as long as it is a live node. *)

From S2P Require Import Prelude BackedBlock.

#[local] Open Scope Z_scope.

Implicit Types (h : heap) (xs : list (loc * ablock)) (a b : ablock).

(** ** List segments *)

Lemma lseg_app_cons h p pre x a post q :
  lseg h p (pre ++ (x, a) :: post) q <->
  exists n, lseg h p pre (Some x) /\ cells h !! x = Some (OBlock (node a n)) /\ lseg h n post q.
Proof.
  rewrite lseg_app. simpl. split.
  - intros (m & H1 & -> & n & H2 & H3). eauto.
  - intros (n & H1 & H2 & H3). eauto 10.
Qed.

Lemma lseg_frame_app h h' p pre x post q :
  NoDup ((pre ++ post).*1) -> x ∉ (pre ++ post).*1 ->
  (forall l, l ∈ (pre ++ post).*1 -> cells h' !! l = cells h !! l) ->
  forall n, lseg h p pre (Some x) -> lseg h n post q ->
  forall a, cells h' !! x = Some (OBlock (node a n)) ->
  lseg h' p (pre ++ (x, a) :: post) q.
Proof.
  intros Hnd Hx Hf n H1 H2 a Ha. apply lseg_app_cons. exists n.
  rewrite fmap_app in Hf.
  split_and!; [|done|]; (eapply lseg_frame; [|done]); intros l Hl; apply Hf; set_solver.
Qed.

(** The head pointer of a segment that ends in NULL. *)
Definition hd_loc xs : option loc := match xs with [] => None | (x, _) :: _ => Some x end.

Lemma lseg_hd h p xs : lseg h p xs None -> p = hd_loc xs.
Proof. destruct xs as [|[x a] xs]; simpl; naive_solver. Qed.

Lemma nodup_mid {A} (pre post : list A) (x : A) :
  NoDup (pre ++ x :: post) -> (x ∉ pre ++ post) /\ NoDup (pre ++ post).
Proof. intros H. rewrite <- Permutation_middle in H. by apply NoDup_cons in H. Qed.

Lemma nodup_insert {A} (pre post : list A) (y x : A) :
  NoDup (pre ++ y :: post) -> (x ∉ pre ++ y :: post) -> NoDup (pre ++ y :: x :: post).
Proof.
  intros H1 H2. rewrite (cons_middle y), app_assoc in *.
  rewrite <- Permutation_middle. by apply NoDup_cons.
Qed.

(** ** Merging *)

Lemma try_merge_type bs a b m :
  try_merge bs a b = Some m ->
  name_of a = name_of b /\ name_of m = name_of a /\ a_block m = a_block a.
Proof.
  unfold try_merge. destruct (_ && _) eqn:E; [|done]. intros [= <-].
  apply andb_prop in E as [_ E]. unfold merge_compatible, name_of in *. simpl in *.
  destruct (a_type a), (a_type b); try done.
  apply andb_prop in E as [E _]. by apply bool_decide_eq_true in E.
Qed.

Lemma destroy_unnamed h y b n :
  cells h !! y = Some (OBlock (node b n)) -> name_of b = None ->
  backed_block_destroy (Some y) h = Ok (tt, heap_free h y).
Proof.
  intros Hy Hn. unfold backed_block_destroy. step.
  unfold name_of in Hn. simpl.
  destruct (a_type b); try rewrite Hn; step; eauto with cdb.
Qed.
#[local] Hint Resolve destroy_unnamed : cdb.

Lemma compatible_same_type a b n m :
  same_type (node a n) (node b m) = false -> merge_compatible (node a None) (node b None) = false.
Proof. unfold same_type, merge_compatible. simpl. by destruct (a_type a), (a_type b). Qed.

(** [merge_bb] on two neighbouring nodes of a list. *)
Lemma merge_bb_ok bbl h p pre x a y b post :
  0 < bbl_block_size bbl -> lseg h p (pre ++ (x, a) :: (y, b) :: post) None ->
  NoDup ((pre ++ (x, a) :: (y, b) :: post).*1) ->
  a_block a < a_block b ->
  (try_merge (bbl_block_size bbl) a b <> None -> name_of b = None) ->
  exists r h', merge_bb bbl (Some x) (Some y) h = Ok (r, h') /\
    match try_merge (bbl_block_size bbl) a b with
    | None => h' = h
    | Some m =>
      lseg h' p (pre ++ (x, m) :: post) None /\ cells h' !! y = None /\
      (forall l, l <> x -> l <> y -> cells h' !! l = cells h !! l)
    end.
Proof.
  intros Hpos Hl Hnd Hlt Hname.
  apply lseg_app_cons in Hl as (n & Hpre & Hx & -> & n' & Hy & Hpost).
  unfold merge_bb. do 2 step. erewrite bind_Ok by (by apply assert_ok, Z.ltb_lt).
  cbn beta match. unfold try_merge in *.
  destruct (same_type _ _) eqn:Es; cbn [negb];
    [|apply compatible_same_type in Es; rewrite Es, andb_false_r; by eauto].
  step. simpl. fold (node a None).
  change (merge_compatible (node a (Some y)) (node b n')) with
    (merge_compatible (node a None) (node b None)).
  destruct (u32 _ =? _) eqn:E1; simpl; [|by eauto].
  destruct (merge_compatible _ _) eqn:E2; [|by eauto].
  simpl in Hname. specialize (Hname ltac:(done)).
  rewrite fmap_app in Hnd. simpl in Hnd.
  apply nodup_mid in Hnd as [Hx1 Hnd]. pose proof (nodup_mid _ _ _ Hnd) as [Hy1 Hnd1].
  assert (x <> y) by set_solver.
  step. erewrite bind_Ok; last first.
  { eapply destroy_unnamed; [|done]. simpl. by rewrite lookup_insert_ne. }
  eexists _, _. split; [done|]. simpl. split_and!.
  - eapply (lseg_frame_app h); [rewrite ?fmap_app..|exact Hpre|exact Hpost|]; [done|set_solver| |].
    + intros l Hin. simpl. rewrite lookup_delete_ne, lookup_insert_ne by set_solver. done.
    + simpl. rewrite lookup_delete_ne, lookup_insert_eq by done. done.
  - by rewrite lookup_delete_eq.
  - intros l ??. by rewrite lookup_delete_ne, lookup_insert_ne by done.
Qed.

(** ** Insertion *)

Lemma sorted_split_key {A} (key : A -> Z) (l : list A) (k : Z) :
  StronglySorted Z.lt (key <$> l) -> (k ∉ key <$> l) ->
  exists pre post, l = pre ++ post /\
    Forall (fun z => key z < k) pre /\ Forall (fun z => k < key z) post.
Proof.
  induction l as [|x l IH]; intros Hs Hk; [by exists [], []|].
  rewrite !fmap_cons in *. apply StronglySorted_cons in Hs as [Hall Hs].
  destruct (decide (key x < k)).
  - destruct IH as (pre & post & -> & H1 & H2); [done|set_solver|].
    exists (x :: pre), post. split_and!; [done|by constructor|done].
  - exists [], (x :: l). split_and!; [done|done|].
    assert (key x <> k) by set_solver. constructor; [lia|].
    rewrite Forall_fmap in Hall. eapply Forall_impl; [done|]. simpl. lia.
Qed.

Lemma sorted_split xs k :
  sorted xs.*2 -> (k ∉ a_block <$> xs.*2) ->
  exists pre post, xs = pre ++ post /\
    Forall (fun z => a_block z.2 < k) pre /\ Forall (fun z => k < a_block z.2) post.
Proof.
  unfold sorted. rewrite <- list_fmap_compose.
  apply (sorted_split_key (a_block ∘ snd)).
Qed.

(** The two filters of [queue_spec] return the halves of a list split at [k]. *)
Lemma filter_halves (k : Z) (pre post : list ablock) :
  Forall (fun b => a_block b < k) pre -> Forall (fun b => k < a_block b) post ->
  filter (fun b => a_block b < k) (pre ++ post) = pre /\
  filter (fun b => ~ a_block b < k) (pre ++ post) = post.
Proof.
  intros H1 H2. induction H1 as [|b pre Hb _ [IH1 IH2]]; simpl.
  - induction H2 as [|b post Hb _ [IH1 IH2]]; [done|].
    rewrite filter_cons_False, filter_cons_True by lia. by rewrite IH1, IH2.
  - rewrite filter_cons_True, filter_cons_False by lia. by rewrite IH1, IH2.
Qed.

(** [queue_spec] on a list given as its two halves around the new block. *)
Lemma queue_spec_split bs pre post a :
  Forall (fun b => a_block b < a_block a) pre ->
  Forall (fun b => a_block a < a_block b) post ->
  queue_spec bs (pre ++ post) a =
  match last pre with
  | None => a :: post
  | Some p =>
    let '(a1, post1) := merge_next bs a post in
    match try_merge bs p a1 with
    | Some m => removelast pre ++ m :: post1
    | None => pre ++ a1 :: post1
    end
  end.
Proof.
  intros H1 H2. unfold queue_spec. by destruct (filter_halves _ _ _ H1 H2) as [-> ->].
Qed.

Lemma queue_search_ok h k y b post : forall pre p fuel,
  lseg h p (pre ++ (y, b) :: post) None ->
  Forall (fun z => a_block z.2 < k) (tail (pre ++ [(y, b)])) ->
  Forall (fun z => k < a_block z.2) post ->
  (length pre < fuel)%nat ->
  queue_search fuel p k h = Ok (Some y, h).
Proof.
  induction pre as [|[x a] pre IH]; intros p fuel Hl Hpre Hpost Hfuel.
  - destruct fuel as [|fuel]; [simpl in *; lia|].
    destruct Hl as (-> & n & Hy & Hl). simpl. step.
    destruct post as [|[z c] post]; simpl in Hl; [by subst|].
    destruct Hl as (-> & n' & Hz & Hl). simpl. step. simpl.
    apply Forall_cons in Hpost as [Hlt _]. simpl in Hlt.
    destruct (Z.ltb_spec (a_block c) k); [lia|done].
  - destruct fuel as [|fuel]; [simpl in *; lia|].
    destruct Hl as (-> & n & Hx & Hl). simpl. step. simpl in Hpre.
    assert (exists z c r, pre ++ (y, b) :: post = (z, c) :: r /\ a_block c < k /\ n = Some z)
      as (z & c & r & E & Hc & ->).
    { destruct pre as [|[z c] pre]; simpl in *; apply Forall_cons in Hpre as [??];
        destruct Hl as (-> & _); eauto 10. }
    assert (exists n', cells h !! z = Some (OBlock (node c n'))) as [n' Hz].
    { rewrite E in Hl. destruct Hl as (_ & n' & ? & _). eauto. }
    simpl. step. simpl. destruct (Z.ltb_spec (a_block c) k); [|lia].
    eapply IH; [done| |done|simpl in *; lia].
    destruct pre; simpl in *; by apply Forall_cons in Hpre as [_ ?].
Qed.

(** The list after [a], at [new], is linked in after [y] and merged. *)
Definition link_result (bs : Z) (pre : list (loc * ablock)) (y : loc) (b : ablock)
    (new : loc) (a : ablock) (post : list (loc * ablock)) : list (loc * ablock) :=
  let '(a1, post1) :=
    match post with
    | [] => (a, [])
    | (z, c) :: post' =>
      match try_merge bs a c with Some m => (m, post') | None => (a, post) end
    end in
  match try_merge bs b a1 with
  | Some m => pre ++ (y, m) :: post1
  | None => pre ++ (y, b) :: (new, a1) :: post1
  end.

Lemma link_result_snd bs pre y b new a post :
  Forall (fun z => a_block z.2 < a_block a) (pre ++ [(y, b)]) ->
  Forall (fun z => a_block a < a_block z.2) post ->
  (link_result bs pre y b new a post).*2 = queue_spec bs ((pre ++ (y, b) :: post).*2) a.
Proof.
  intros H1 H2. replace (pre ++ (y, b) :: post) with ((pre ++ [(y, b)]) ++ post)
    by by rewrite <- app_assoc.
  rewrite (fmap_app _ (pre ++ _)), queue_spec_split by (by apply Forall_fmap).
  rewrite fmap_app. simpl. rewrite last_snoc, removelast_last.
  unfold link_result, merge_next.
  destruct post as [|[z c] post]; simpl; repeat case_match; simplify_eq/=;
    by rewrite ?fmap_app, <- ?app_assoc.
Qed.

Lemma names_app xs ys : names (xs ++ ys) = names xs ++ names ys.
Proof. apply omap_app. Qed.

Lemma names_cons x a xs :
  names ((x, a) :: xs) = match name_of a with Some f => [f] | None => [] end ++ names xs.
Proof. unfold names. simpl. by destruct (name_of a). Qed.

Lemma elem_of_names f xs : f ∈ names xs <-> exists x a, (x, a) ∈ xs /\ name_of a = Some f.
Proof.
  unfold names. rewrite list_elem_of_omap. split.
  - intros ([x a] & ? & ?). eauto.
  - intros (x & a & ? & ?). by exists (x, a).
Qed.

(** Two blocks with distinct names merge only when neither is named. *)
Lemma try_merge_unnamed bs a b m :
  try_merge bs a b = Some m -> (forall f, name_of a = Some f -> name_of b <> Some f) ->
  name_of a = None /\ name_of b = None /\ name_of m = None.
Proof.
  intros (E1 & E2 & _)%try_merge_type Hne. destruct (name_of a) as [f|]; [|naive_solver].
  destruct (Hne f); done.
Qed.

Section Link.
Context (bbl : backed_block_list) (h : heap) (p : option loc).
Context (pre post : list (loc * ablock)) (y new : loc) (b a : ablock).
Notation xs := (pre ++ (y, b) :: post).
Notation res := (link_result (bbl_block_size bbl) pre y b new a post).

Hypothesis Hseg : lseg h p xs None.
Hypothesis Hfresh : new ∉ xs.*1.
Hypothesis Hnd : NoDup xs.*1.
Hypothesis Hnames : NoDup (names ((new, a) :: xs)).
Hypothesis Hnew : cells h !! new = Some (OBlock (node a None)).
Hypothesis Hlt : a_block b < a_block a.
Hypothesis Hpost : Forall (fun z => a_block a < a_block z.2) post.

Lemma names_disjoint x c : (x, c) ∈ xs -> forall f, name_of a = Some f -> name_of c <> Some f.
Proof using Hnames.
  intros Hin f Ha Hc. rewrite names_cons, Ha in Hnames. simpl in Hnames.
  apply NoDup_cons in Hnames as [Hn _]. apply Hn, elem_of_names. eauto.
Qed.

Lemma names_link : names res ≡ₚ names ((new, a) :: xs).
Proof using Hnames.
  clear - Hnames.
  assert (E : forall a1 post1,
    names ((new, a1) :: post1) ≡ₚ names ((new, a) :: post) -> (name_of a1 = name_of a) ->
    names (match try_merge (bbl_block_size bbl) b a1 with
           | Some m => pre ++ (y, m) :: post1
           | None => pre ++ (y, b) :: (new, a1) :: post1 end) ≡ₚ names ((new, a) :: xs)).
  { intros a1 post1 E Hn.
    transitivity (names (pre ++ (y, b) :: (new, a1) :: post1)).
    - case_match; [|done].
      destruct (try_merge_unnamed _ _ _ _ H) as (H1 & H2 & H3).
      { intros f Hf. rewrite Hn. intros Ha. by eapply (names_disjoint y b); [clear; set_solver| |]. }
      by rewrite !names_app, !names_cons, H1, H2, H3.
    - rewrite names_app, (names_cons y), E, (names_cons new a (pre ++ _)), names_app,
        (names_cons y), (names_cons new). solve_Permutation. }
  pose proof names_disjoint as Hdj.
  unfold link_result. destruct post as [|[z c] post']; [by apply E|].
  destruct (try_merge _ a c) eqn:Em; [|by apply E].
  destruct (try_merge_unnamed _ _ _ _ Em) as (H1 & H2 & H3).
  { intros f Ha. apply (Hdj z c); [clear; set_solver|done]. }
  apply E; [|congruence]. by rewrite !names_cons, H1, H2, H3.
Qed.

Lemma new_neq_y : new <> y.
Proof. clear - Hfresh. rewrite fmap_app in Hfresh. set_solver. Qed.

(** The two stores that link the new node in. *)
Lemma link_store_ok n :
  cells h !! y = Some (OBlock (node b n)) ->
  exists h1,
    match n with
    | None => store (Some y) (set_next (node b n) (Some new))
    | Some _ =>
      let! m := load (Some new) in
      store (Some new) (set_next m n) ;;!
      let! w := load (Some y) in
      store (Some y) (set_next w (Some new))
    end%c h = Ok (tt, h1) /\
    cells h1 = <[y := OBlock (node b (Some new))]> (<[new := OBlock (node a n)]> (cells h)).
Proof.
  intros Hy. pose proof new_neq_y. destruct n as [z|].
  - step. step. erewrite bind_Ok; last first.
    { apply load_ok. simpl. by rewrite lookup_insert_ne. }
    eexists. split; [eapply store_ok; simpl; by rewrite lookup_insert_ne|done].
  - eexists. split; [by eapply store_ok|]. simpl.
    by rewrite (insert_id _ new) by done.
Qed.

Lemma link_seg n h1 :
  lseg h p pre (Some y) -> lseg h n post None ->
  cells h1 = <[y := OBlock (node b (Some new))]> (<[new := OBlock (node a n)]> (cells h)) ->
  lseg h1 p (pre ++ (y, b) :: (new, a) :: post) None.
Proof.
  intros H1 H2 E. pose proof new_neq_y.
  assert (Hfr : forall l, l <> y -> l <> new -> cells h1 !! l = cells h !! l)
    by (intros; by rewrite E, !lookup_insert_ne).
  clear Hnames. rewrite fmap_app in Hfresh, Hnd. apply nodup_mid in Hnd as [Hy _].
  apply lseg_app_cons. exists (Some new). split_and!.
  - eapply lseg_frame; [|done]. intros l Hl. apply Hfr; set_solver.
  - by rewrite E, lookup_insert_eq.
  - split; [done|]. exists n. split; [by rewrite E, lookup_insert_ne, lookup_insert_eq by done|].
    eapply lseg_frame; [|done]. intros l Hl. apply Hfr; set_solver.
Qed.

(** Merging the new node with its successor, as [link_result] does first. *)
Definition absorb_next : ablock * list (loc * ablock) :=
  match post with
  | [] => (a, [])
  | (z, c) :: post' =>
    match try_merge (bbl_block_size bbl) a c with Some m => (m, post') | None => (a, post) end
  end.

Lemma merge_next_ok h1 :
  0 < bbl_block_size bbl -> lseg h1 p (pre ++ (y, b) :: (new, a) :: post) None ->
  exists r h2, merge_bb bbl (Some new) (hd_loc post) h1 = Ok (r, h2) /\
    lseg h2 p (pre ++ (y, b) :: (new, absorb_next.1) :: absorb_next.2) None /\
    (forall l, l ∉ ((new, a) :: xs).*1 -> cells h2 !! l = cells h1 !! l).
Proof.
  intros Hpos H1. pose proof names_disjoint as Hdj. unfold absorb_next.
  clear Hseg Hnames. destruct post as [|[z c] post']; [by eexists _, h1|].
  assert (Happ : forall w, pre ++ (y, b) :: w = (pre ++ [(y, b)]) ++ w)
    by (intros; by rewrite <- app_assoc).
  destruct (merge_bb_ok bbl h1 p (pre ++ [(y, b)]) new a z c post') as (r & h2 & E & Hm).
  - done.
  - by rewrite <- Happ.
  - rewrite <- Happ. revert Hfresh Hnd. rewrite !fmap_app, !fmap_cons. simpl. intros.
    by apply nodup_insert.
  - by apply Forall_cons in Hpost as [? _].
  - intros Hne. destruct (try_merge _ a c) as [m|] eqn:Em; [|done].
    destruct (try_merge_unnamed _ _ _ _ Em) as (_ & ? & _); [|done].
    intros f Ha. apply (Hdj z c); [set_solver|done].
  - exists r, h2. split; [done|]. rewrite !fmap_cons, fmap_app, fmap_cons. simpl.
    destruct (try_merge _ a c) as [m|]; simpl.
    + destruct Hm as (Hl & _ & Hfr). rewrite <- Happ in Hl. split; [done|].
      intros l Hl'. apply Hfr; set_solver.
    + subst. split; [done|]. done.
Qed.

Lemma absorb_next_props :
  a_block absorb_next.1 = a_block a /\ name_of absorb_next.1 = name_of a /\
  exists dropped, post = dropped ++ absorb_next.2.
Proof.
  unfold absorb_next. clear. destruct post as [|[z c] post']; simpl;
    [split_and!; [done..|by exists []]|].
  destruct (try_merge _ a c) eqn:E; simpl.
  - apply try_merge_type in E as (? & ? & ?). split_and!; [done..|by exists [(z, c)]].
  - split_and!; [done..|by exists []].
Qed.

Lemma link_result_absorb :
  res = match try_merge (bbl_block_size bbl) b absorb_next.1 with
        | Some m => pre ++ (y, m) :: absorb_next.2
        | None => pre ++ (y, b) :: (new, absorb_next.1) :: absorb_next.2
        end.
Proof. unfold link_result. fold absorb_next. by destruct absorb_next. Qed.

Lemma nodup_link : NoDup ((pre ++ (y, b) :: (new, absorb_next.1) :: absorb_next.2).*1).
Proof.
  destruct absorb_next_props as (_ & _ & d & E). clear Hpost Hnames Hseg.
  rewrite E in Hfresh, Hnd. revert Hfresh Hnd. rewrite !fmap_app, !fmap_cons, !fmap_app.
  simpl. intros Hf Hn. apply nodup_insert; [|clear - Hf; set_solver].
  rewrite (cons_middle y), app_assoc in Hn |- *. apply NoDup_app in Hn as (H1 & H2 & H3).
  apply NoDup_app. split_and!; [done| |by eapply NoDup_app_r].
  intros z Hz Hin. apply (H2 z Hz), elem_of_app. by right.
Qed.

Lemma link_result_locs : NoDup res.*1 /\ res.*1 ⊆ new :: xs.*1.
Proof.
  pose proof nodup_link as Hn. destruct absorb_next_props as (_ & _ & d & E).
  rewrite link_result_absorb. clear - Hn E.
  rewrite E. destruct (try_merge _ b _) as [m|].
  - revert Hn. rewrite !fmap_app, !fmap_cons, !fmap_app. simpl. intros Hn. split.
    + rewrite (cons_middle y), app_assoc in Hn |- *. by apply nodup_mid in Hn as [_ ?].
    + clear. set_solver.
  - split; [done|]. rewrite !fmap_app, !fmap_cons, !fmap_app. simpl. clear. set_solver.
Qed.

Lemma queue_link_ok :
  0 < bbl_block_size bbl ->
  exists h', queue_link bbl (Some y) (Some new) h = Ok (tt, h') /\
    lseg h' p res None /\
    (forall l, l ∉ ((new, a) :: xs).*1 -> cells h' !! l = cells h !! l) /\
    (try_merge (bbl_block_size bbl) b absorb_next.1 <> None -> cells h' !! new = None).
Proof.
  intros Hpos. pose proof (proj1 (lseg_app_cons _ _ _ _ _ _ _) Hseg) as (n & Hpre & Hy & Hn).
  destruct (link_store_ok n Hy) as (h1 & E1 & C1).
  destruct (merge_next_ok h1 Hpos (link_seg n h1 Hpre Hn C1)) as (r & h2 & E2 & H2 & F2).
  rewrite (lseg_hd _ _ _ Hn) in *. pose proof new_neq_y.
  destruct absorb_next_props as (B & N & _).
  destruct (merge_bb_ok bbl h2 p pre y b new absorb_next.1 absorb_next.2)
    as (r' & h3 & E3 & H3); [done|done|apply nodup_link|lia| |].
  { intros Hne. destruct (try_merge _ b _) as [m|] eqn:Em; [|done].
    destruct (try_merge_unnamed _ _ _ _ Em) as (_ & ? & _); [|done].
    intros f Hf. rewrite N. intros Ha. by eapply (names_disjoint y b); [set_solver| |]. }
  exists h3. split.
  { unfold queue_link. step. rewrite (bind_Ok _ _ _ _ _ E1). cbn beta.
    erewrite bind_Ok; last first.
    { apply load_ok. by rewrite C1, lookup_insert_ne, lookup_insert_eq. }
    cbn beta. rewrite (bind_Ok _ _ _ _ _ E2). cbn beta. by rewrite (bind_Ok _ _ _ _ _ E3). }
  assert (F : forall l, l ∉ ((new, a) :: xs).*1 -> cells h2 !! l = cells h !! l).
  { intros l Hl. rewrite F2, C1 by done. rewrite fmap_cons, fmap_app in Hl.
    rewrite !lookup_insert_ne; [done|set_solver..]. }
  rewrite link_result_absorb. destruct (try_merge _ b _) as [m|]; simpl.
  - destruct H3 as (? & ? & F3). split_and!; [done| |done].
    intros l Hl. rewrite <- F by done. rewrite fmap_app in Hl. apply F3; set_solver.
  - subst. split_and!; [done..|]. done.
Qed.
End Link.

(** ** [queue_bb] *)

(** Whether the new block disappears into its predecessor. *)
Definition queue_absorbed (bs : Z) (l : list ablock) (a : ablock) : bool :=
  match last (filter (fun b => a_block b < a_block a) l) with
  | None => false
  | Some p =>
    isSome (try_merge bs p (merge_next bs a (filter (fun b => ~ a_block b < a_block a) l)).1)
  end.

Lemma queue_absorbed_split bs (pre post : list (loc * ablock)) y b a :
  Forall (fun z => a_block z.2 < a_block a) (pre ++ [(y, b)]) ->
  Forall (fun z => a_block a < a_block z.2) post ->
  queue_absorbed bs ((pre ++ (y, b) :: post).*2) a =
  isSome (try_merge bs b (merge_next bs a post.*2).1).
Proof.
  intros H1 H2. replace (pre ++ (y, b) :: post) with ((pre ++ [(y, b)]) ++ post)
    by by rewrite <- app_assoc.
  rewrite (fmap_app _ (pre ++ _)). unfold queue_absorbed.
  destruct (filter_halves (a_block a) ((pre ++ [(y, b)]).*2) post.*2) as [-> ->];
    [by apply Forall_fmap..|].
  rewrite fmap_app. simpl. by rewrite last_snoc.
Qed.

Lemma absorb_next_snd bbl (post : list (loc * ablock)) a :
  (absorb_next bbl post a).1 = (merge_next (bbl_block_size bbl) a post.*2).1.
Proof.
  unfold absorb_next, merge_next. destruct post as [|[z c] post]; [done|].
  simpl. by destruct (try_merge _ a c).
Qed.

(** Where the search of [queue_bb] starts: the head, or a [last_used] node that
    lies before the place of the new block. *)
Lemma queue_start_ok bbl h (pre post : list (loc * ablock)) y b (k : Z) :
  bbl_ok h bbl (pre ++ (y, b) :: post) -> last_used_ok bbl (pre ++ (y, b) :: post) ->
  Forall (fun z => a_block z.2 < k) (pre ++ [(y, b)]) ->
  Forall (fun z => k < a_block z.2) post ->
  exists s, (match last_used bbl with
     | None => ret (data_blocks bbl)
     | Some _ =>
       let! l := load (last_used bbl) in
       ret (if bb_block l <? k then last_used bbl else data_blocks bbl)
     end)%c h = Ok (s, h) /\
    queue_search (S (size (cells h))) s k h = Ok (Some y, h).
Proof.
  intros [Hl Hnd _ _] Hlu H1 H2.
  pose proof (lseg_length _ _ _ _ Hl Hnd) as Hlen. rewrite length_app in Hlen.
  assert (Hhead : queue_search (S (size (cells h))) (data_blocks bbl) k h = Ok (Some y, h)).
  { eapply queue_search_ok; [done| |done|simpl in Hlen; lia].
    destruct pre; simpl in *; by apply Forall_cons in H1 as [_ ?]. }
  unfold last_used_ok in Hlu. destruct (last_used bbl) as [z|]; [|by eauto].
  apply list_elem_of_fmap in Hlu as ([z' c] & -> & (q1 & q2 & E)%list_elem_of_split). cbn [fst].
  pose proof Hl as Hl'. rewrite E in Hl'. apply lseg_app_cons in Hl' as (n & Hq1 & Hz & Hq2).
  eexists. step. split; [done|]. cbn [bb_block node].
  destruct (Z.ltb_spec (a_block c) k); [|done].
  assert (exists q3, (pre ++ [(y, b)]) = q1 ++ (z', c) :: q3 /\ q2 = q3 ++ post) as (q3 & E3 & ->).
  { replace (pre ++ (y, b) :: post) with ((pre ++ [(y, b)]) ++ post) in E
      by by rewrite <- app_assoc.
    apply app_eq_inv in E as [(k1 & E1 & E2)|(k1 & E1 & E2)].
    - destruct k1 as [|w k1]; simplify_eq/=; [|by eauto].
      apply Forall_cons in H2 as [? _]. simpl in *. lia.
    - subst. apply Forall_app in H2 as [_ [H2 _]%Forall_cons]. simpl in *. lia. }
  assert (exists q4, (z', c) :: q3 = q4 ++ [(y, b)]) as [q4 E4].
  { destruct q3 as [|w q3 _] using rev_ind.
    - exists []. change [(z', c)] with ([] ++ [(z', c)]).
      apply app_inj_tail in E3 as [_ E3]. by rewrite E3.
    - exists ((z', c) :: q3). rewrite app_comm_cons, app_assoc in E3.
      apply app_inj_tail in E3 as [_ ->]. done. }
  eapply (queue_search_ok _ _ _ _ post q4).
  - rewrite (cons_middle (y, b)), app_assoc, <- E4. simpl. eauto.
  - rewrite <- E4. simpl. rewrite E3 in H1. apply Forall_app in H1 as [_ H1].
    by apply Forall_cons in H1 as [_ ?].
  - done.
  - assert (length q4 <= length pre)%nat; [|simpl in *; lia].
    apply (f_equal length) in E3, E4. rewrite !length_app in *. simpl in *. lia.
Qed.

(** What [queue_bb] leaves behind, for a new block [a] at [new]. *)
Record queued (h : heap) (bbl : backed_block_list) (xs : list (loc * ablock))
    (new : loc) (a : ablock) (h' : heap) (bbl' : backed_block_list)
    (xs' : list (loc * ablock)) : Prop := {
  q_ok : bbl_ok h' bbl' xs';
  q_list : xs'.*2 = queue_spec (bbl_block_size bbl) xs.*2 a;
  q_bs : bbl_block_size bbl' = bbl_block_size bbl;
  q_locs : xs'.*1 ⊆ new :: xs.*1;
  q_names : names xs' ≡ₚ names ((new, a) :: xs);
  q_frame : forall l, l ∉ new :: xs.*1 -> cells h' !! l = cells h !! l;
  q_last : queue_absorbed (bbl_block_size bbl) xs.*2 a = false -> last_used_ok bbl' xs';
  q_dangling : queue_absorbed (bbl_block_size bbl) xs.*2 a = true ->
    last_used bbl' = Some new /\ cells h' !! new = None
}.

(** A block ready to be queued: its node is allocated outside the list, its
    name, if any, is its own. *)
Record queueable (h : heap) (xs : list (loc * ablock)) (new : loc) (a : ablock) : Prop := {
  qa_node : cells h !! new = Some (OBlock (node a None));
  qa_fresh : new ∉ xs.*1;
  qa_name : forall f, name_of a = Some f ->
    (f ∉ names xs) /\ exists s, cells h !! f = Some (OStr s)
}.

Lemma queue_names h bbl xs new a :
  bbl_ok h bbl xs -> queueable h xs new a -> NoDup (names ((new, a) :: xs)).
Proof.
  intros [_ _ Hn _] [_ _ Hq]. rewrite names_cons. destruct (name_of a) as [f|]; simpl; [|done].
  apply NoDup_cons. split; [|done]. by apply Hq.
Qed.

(** The strings the names point to survive when only nodes changed. *)
Lemma queue_strs h h' bbl xs new a :
  bbl_ok h bbl xs -> queueable h xs new a ->
  (forall l, l ∉ new :: xs.*1 -> cells h' !! l = cells h !! l) ->
  forall f, f ∈ names ((new, a) :: xs) -> exists s, cells h' !! f = Some (OStr s).
Proof.
  intros [Hl _ _ Hs] [Hn _ Hq] Hf f Hin.
  assert (exists s, cells h !! f = Some (OStr s)) as [s E].
  { rewrite names_cons in Hin. apply elem_of_app in Hin as [Hin|Hin]; [|by apply Hs].
    destruct (name_of a) as [f'|]; [|set_solver].
    apply list_elem_of_singleton in Hin as ->. by apply Hq. }
  exists s. rewrite Hf; [done|]. intros [->|Hx]%elem_of_cons; [congruence|].
  destruct (lseg_live _ _ _ _ _ Hl Hx). congruence.
Qed.

Lemma queue_absorbed_head bs (post : list ablock) a :
  Forall (fun b => a_block a < a_block b) post -> queue_absorbed bs post a = false.
Proof.
  intros H. unfold queue_absorbed.
  destruct (filter_halves (a_block a) [] post) as [E _]; [done..|].
  simpl in E. by rewrite E.
Qed.

(** The new block becomes the head of the list. *)
Lemma queue_head_ok bbl h xs new a :
  bbl_ok h bbl xs -> last_used_ok bbl xs -> queueable h xs new a ->
  Forall (fun z => a_block a < a_block z.2) xs ->
  exists bbl' h' xs', queue_bb bbl (Some new) h = Ok ((0, bbl'), h') /\
    queued h bbl xs new a h' bbl' xs'.
Proof.
  intros Hok Hlu Hq Hlt. pose proof (queue_names _ _ _ _ _ Hok Hq) as Hnames.
  pose proof (queue_strs h (heap_set h new (OBlock (node a (hd_loc xs)))) _ _ _ _ Hok Hq) as Hst.
  destruct Hok as [Hl Hnd _ _], Hq as [Hn Hf _].
  exists (set_data_blocks bbl (Some new)), (heap_set h new (OBlock (node a (hd_loc xs)))),
    ((new, a) :: xs). split.
  - unfold queue_bb. rewrite (lseg_hd _ _ _ Hl). destruct xs as [|[x d] xs]; simpl.
    + unfold heap_set. rewrite insert_id by done. by destruct h.
    + destruct Hl as (_ & n & Hx & _). do 2 step. simpl.
      apply Forall_cons in Hlt as [Hlt _]. simpl in Hlt.
      destruct (Z.ltb_spec (a_block a) (a_block d)); [|lia]. by step.
  - assert (Hfr : forall l, l ∉ new :: xs.*1 ->
      cells (heap_set h new (OBlock (node a (hd_loc xs)))) !! l = cells h !! l).
    { intros l Hl'. simpl. rewrite lookup_insert_ne; set_solver. }
    assert (Habs : queue_absorbed (bbl_block_size bbl) xs.*2 a = false)
      by (by apply queue_absorbed_head, Forall_fmap).
    constructor; simpl; try done.
    + constructor; simpl; [|by constructor|done|by apply Hst].
      split; [done|]. eexists. split; [by rewrite lookup_insert_eq|].
      rewrite <- (lseg_hd _ _ _ Hl). eapply lseg_frame; [|done].
      intros l Hl'. simpl. rewrite lookup_insert_ne; set_solver.
    + symmetry. apply (queue_spec_split _ []); [done|by apply Forall_fmap].
    + intros _. unfold last_used_ok in *. simpl. destruct (last_used bbl); set_solver.
    + congruence.
Qed.

(** The new block goes in after [y]. *)
Lemma queue_mid_ok bbl h (pre post : list (loc * ablock)) y b new a :
  0 < bbl_block_size bbl -> bbl_ok h bbl (pre ++ (y, b) :: post) -> last_used_ok bbl (pre ++ (y, b) :: post) ->
  queueable h (pre ++ (y, b) :: post) new a ->
  Forall (fun z => a_block z.2 < a_block a) (pre ++ [(y, b)]) ->
  Forall (fun z => a_block a < a_block z.2) post ->
  exists bbl' h' xs', queue_bb bbl (Some new) h = Ok ((0, bbl'), h') /\
    queued h bbl (pre ++ (y, b) :: post) new a h' bbl' xs'.
Proof.
  intros Hpos Hok Hlu Hq H1 H2. pose proof (queue_names _ _ _ _ _ Hok Hq) as Hnames.
  pose proof (queue_strs h) as Hst. specialize Hst with (1 := Hok) (2 := Hq).
  destruct (queue_start_ok bbl h pre post y b (a_block a)) as (s & E1 & E2); [done..|].
  destruct Hok as [Hl Hnd Hnm _], Hq as [Hn Hf Hnq].
  assert (Hb : a_block b < a_block a)
    by (apply Forall_app in H1 as [_ H1]; by apply Forall_cons in H1 as [? _]).
  set (bbl1 := set_last_used bbl (Some new)).
  destruct (queue_link_ok bbl1 h (data_blocks bbl) pre post y new b a)
    as (h' & E3 & Hl' & Hfr & Habs); [done..|].
  destruct (link_result_locs bbl1 pre post y new b a) as [Hnd' Hsub]; [done..|].
  pose proof (queue_absorbed_split (bbl_block_size bbl) pre post y b a H1 H2) as Eabs.
  rewrite <- (absorb_next_snd bbl1 post a : _ = (merge_next (bbl_block_size bbl) _ _).1) in Eabs.
  exists bbl1, h', (link_result (bbl_block_size bbl) pre y b new a post). split.
  - assert (exists x d n, data_blocks bbl = Some x /\
      cells h !! x = Some (OBlock (node d n)) /\ a_block d < a_block a)
      as (x & d & n & E & Hx & Hd).
    { destruct pre as [|[x d] pre]; destruct Hl as (? & n & ? & _);
        apply Forall_cons in H1 as [? _]; eauto 10. }
    unfold queue_bb. rewrite E in *. do 2 step. simpl.
    destruct (Z.ltb_spec (a_block a) (a_block d)); [lia|].
    rewrite (bind_Ok _ _ _ _ _ E1). cbn beta. unfold walk_fuel. step.
    rewrite (bind_Ok _ _ _ _ _ E2). cbn beta. by rewrite (bind_Ok _ _ _ _ _ E3).
  - constructor; try done.
    + constructor; [done..| |].
      * by rewrite names_link.
      * intros f. rewrite names_link by done. by apply Hst.
    + by apply link_result_snd.
    + by apply names_link.
    + rewrite Eabs. intros E. unfold last_used_ok. simpl.
      pose proof (link_result_absorb bbl1 pre post y new b a) as Er. simpl in Er. rewrite Er.
      destruct (try_merge _ b _); [done|]. rewrite fmap_app. set_solver.
    + rewrite Eabs. intros E. split; [done|]. apply Habs. intros En.
      simpl in En. by rewrite En in E.
Qed.

Lemma queue_bb_ok bbl h xs new a :
  0 < bbl_block_size bbl -> bbl_ok h bbl xs -> last_used_ok bbl xs -> sorted xs.*2 ->
  (a_block a ∉ a_block <$> xs.*2) -> queueable h xs new a ->
  exists bbl' h' xs', queue_bb bbl (Some new) h = Ok ((0, bbl'), h') /\
    queued h bbl xs new a h' bbl' xs'.
Proof.
  intros Hpos Hok Hlu Hs Ha Hq.
  destruct (sorted_split _ _ Hs Ha) as (pre & post & -> & H1 & H2).
  destruct pre as [|[y b] pre _] using rev_ind; [by apply queue_head_ok|].
  rewrite <- app_assoc in *. by apply queue_mid_ok.
Qed.
