(* ===== verification/BlockImage.v ===== *)
(** * The image a backed block list denotes

    Every block covers the bytes from [block * block_size] on; the bytes come
    from memory, from a file, or repeat a 32-bit fill value.  Merging,
    splitting and inserting blocks are shown to keep or extend this image. *)

From S2P Require Import Prelude BackedBlock BackedBlockRefine.

#[local] Open Scope Z_scope.

(** The bytes behind the pointers and descriptors of a block. *)
Record input : Type := Input {
  in_mem : Z -> byte;
  in_fd : Z -> Z -> byte;
  in_file : option loc -> Z -> byte
}.

(** Byte [i] of the repeated little-endian 32-bit value [v]. *)
Definition fill_byte (v i : Z) : byte := byte.of_Z (Z.shiftr v (8 * (i mod 4))).

Definition type_byte (E : input) (t : backed_block_type) (i : Z) : byte :=
  match t with
  | BACKED_BLOCK_DATA d => in_mem E (d + i)
  | BACKED_BLOCK_FILE f o => in_file E f (o + i)
  | BACKED_BLOCK_FD f o => in_fd E f (o + i)
  | BACKED_BLOCK_FILL v => fill_byte v i
  end.

Definition covers (bs : Z) (a : ablock) (pos : Z) : bool :=
  (a_block a * bs <=? pos) && (pos <? a_block a * bs + a_len a).

Fixpoint image (E : input) (bs : Z) (l : list ablock) (pos : Z) : option byte :=
  match l with
  | [] => None
  | a :: l =>
    if covers bs a pos then Some (type_byte E (a_type a) (pos - a_block a * bs))
    else image E bs l pos
  end.

(** ** Well-formed layouts *)

Definition type_wf (t : backed_block_type) (len : Z) : Prop :=
  match t with
  | BACKED_BLOCK_FILE _ o | BACKED_BLOCK_FD _ o => 0 <= o /\ o + len < 2 ^ 63
  | BACKED_BLOCK_DATA _ => True
  | BACKED_BLOCK_FILL v => 0 <= v < 2 ^ 32
  end.

(** The number of blocks [a] takes. *)
Definition blocks (bs : Z) (a : ablock) : Z := a_len a / bs.

(** A block as the callers build it: whole blocks, 32-bit block numbers. *)
Record ablock_wf (bs : Z) (a : ablock) : Prop := {
  wf_block : 0 <= a_block a;
  wf_len : 0 < a_len a < 2 ^ 32;
  wf_align : a_len a = blocks bs a * bs;
  wf_last : a_block a + blocks bs a < 2 ^ 32;
  wf_type : type_wf (a_type a) (a_len a)
}.

(** [a] ends before [b] starts. *)
Definition before (bs : Z) (a b : ablock) : Prop := a_block a + blocks bs a <= a_block b.
Definition disjoint_blocks (bs : Z) (a b : ablock) : Prop := before bs a b \/ before bs b a.

Definition block_size_ok (bs : Z) : Prop := 0 < bs < 2 ^ 32 /\ bs mod 4 = 0.

(** Blocks in order that do not overlap. *)
Record layout_ok (bs : Z) (l : list ablock) : Prop := {
  lay_wf : Forall (ablock_wf bs) l;
  lay_sorted : StronglySorted (before bs) l
}.

Section Layout.
Context (E : input) (bs : Z).
Hypothesis Hbs : block_size_ok bs.
Implicit Types (a b m : ablock) (l : list ablock).

Lemma blocks_pos a : ablock_wf bs a -> 0 < blocks bs a.
Proof using Hbs. intros [? ? H ? ?]. destruct Hbs. nia. Qed.

Lemma covers_spec a pos :
  covers bs a pos = true <-> a_block a * bs <= pos < a_block a * bs + a_len a.
Proof. unfold covers. rewrite andb_true_iff, Z.leb_le, Z.ltb_lt. done. Qed.

Lemma covers_blocks a pos :
  ablock_wf bs a ->
  covers bs a pos = true <-> a_block a <= pos / bs < a_block a + blocks bs a.
Proof using Hbs.
  intros [? ? H ? ?]. rewrite covers_spec. destruct Hbs as [Hb _].
  rewrite H.
  split; intros; [split; [apply Z.div_le_lower_bound|apply Z.div_lt_upper_bound]; nia|].
  pose proof (Z.div_mod pos bs ltac:(lia)). pose proof (Z.mod_pos_bound pos bs ltac:(lia)). nia.
Qed.

Lemma disjoint_covers a b pos :
  ablock_wf bs a -> ablock_wf bs b -> disjoint_blocks bs a b ->
  covers bs a pos = true -> covers bs b pos = false.
Proof using Hbs.
  intros Ha Hb Hd Hc. apply not_true_is_false. intros Hc'.
  apply covers_blocks in Hc, Hc'; [|done..]. unfold disjoint_blocks, before in Hd. lia.
Qed.

Lemma layout_sorted l : layout_ok bs l -> sorted l.
Proof using Hbs.
  intros [Hwf Hs]. unfold sorted. induction Hs as [|a l Hs IH Hall]; [constructor|].
  apply Forall_cons in Hwf as [Ha Hwf]. simpl. constructor; [by apply IH|].
  apply Forall_fmap. eapply Forall_impl; [done|]. intros b Hb. unfold before in Hb.
  simpl. pose proof (blocks_pos a Ha). lia.
Qed.

Lemma image_app l1 l2 pos :
  image E bs (l1 ++ l2) pos =
  match image E bs l1 pos with Some x => Some x | None => image E bs l2 pos end.
Proof. induction l1 as [|a l1 IH]; simpl; [done|]. by destruct (covers bs a pos). Qed.

Lemma image_none l pos :
  Forall (fun a => covers bs a pos = false) l -> image E bs l pos = None.
Proof. induction 1 as [|a l H _ IH]; simpl; [done|]. by rewrite H. Qed.

(** A list element decides the bytes it covers. *)
Lemma image_insert l1 l2 a pos :
  Forall (ablock_wf bs) l1 -> ablock_wf bs a -> Forall (disjoint_blocks bs a) l1 ->
  image E bs (l1 ++ a :: l2) pos =
  if covers bs a pos then Some (type_byte E (a_type a) (pos - a_block a * bs))
  else image E bs (l1 ++ l2) pos.
Proof using Hbs.
  intros Hl Ha Hd. rewrite !image_app. simpl. destruct (covers bs a pos) eqn:Hc; [|done].
  rewrite image_none; [done|].
  apply Forall_forall. intros b Hb. rewrite Forall_forall in Hl, Hd.
  eapply disjoint_covers; eauto.
Qed.

(** ** Merging *)

Lemma fill_byte_shift v i n : n mod 4 = 0 -> fill_byte v (n + i) = fill_byte v i.
Proof.
  intros Hn. unfold fill_byte. do 3 f_equal.
  by rewrite Z.add_mod, Hn, Z.add_0_l, Z.mod_mod by done.
Qed.

Lemma len_mod4 a : ablock_wf bs a -> a_len a mod 4 = 0.
Proof using Hbs.
  intros Ha. rewrite (wf_align _ _ Ha). destruct Hbs as [_ H].
  by rewrite Z.mul_mod, H, Z.mul_0_r by done.
Qed.

(** The second of two compatible blocks continues the bytes of the first. *)
Lemma merge_type_byte a b i :
  ablock_wf bs a -> merge_compatible (node a None) (node b None) = true ->
  type_wf (a_type b) (a_len b) -> 
  type_byte E (a_type a) (a_len a + i) = type_byte E (a_type b) i /\
  (0 <= a_len b -> type_wf (a_type a) (a_len a + a_len b)).
Proof using Hbs.
  intros Ha Hc Hb. pose proof (wf_type _ _ Ha) as Ht. pose proof (wf_len _ _ Ha).
  unfold merge_compatible in Hc. simpl in Hc.
  destruct (a_type a), (a_type b); try done; simpl in *.
  - apply andb_prop in Hc as [->%bool_decide_eq_true Ho%Z.eqb_eq].
    rewrite i64_small in Ho by lia. subst. split; [f_equal; lia|lia].
  - apply andb_prop in Hc as [->%Z.eqb_eq Ho%Z.eqb_eq].
    rewrite i64_small in Ho by lia. subst. split; [f_equal; lia|lia].
  - apply Z.eqb_eq in Hc as ->. split; [|done]. by apply fill_byte_shift, len_mod4.
Qed.

Lemma try_merge_sound a b m :
  ablock_wf bs a -> ablock_wf bs b -> a_len a + a_len b < 2 ^ 32 ->
  try_merge bs a b = Some m ->
  ablock_wf bs m /\ a_block m = a_block a /\ a_block b = a_block a + blocks bs a /\
  blocks bs m = blocks bs a + blocks bs b /\
  forall l pos, image E bs (m :: l) pos = image E bs (a :: b :: l) pos.
Proof using Hbs.
  intros Ha Hb Hlen. unfold try_merge. destruct (_ && _) eqn:Hm; [|done]. intros [= <-].
  apply andb_prop in Hm as [Hadj%Z.eqb_eq Hc].
  destruct (merge_type_byte a b 0 Ha Hc (wf_type _ _ Hb)) as [_ Ht].
  assert (Hbyte := fun i => proj1 (merge_type_byte a b i Ha Hc (wf_type _ _ Hb))).
  destruct Ha as [? La Hla ? ?], Hb as [? Lb Hlb ? ?]. destruct Hbs as [Hb0 _].
  fold (blocks bs a) in Hadj. assert (0 <= blocks bs a) by nia.
  rewrite u32_small in Hadj by lia.
  assert (Hbl : blocks bs (ABlock (a_block a) (u32 (a_len a + a_len b)) (a_type a))
    = blocks bs a + blocks bs b).
  { unfold blocks at 1. simpl. rewrite u32_small by lia. rewrite Hla, Hlb.
    rewrite <- Z.mul_add_distr_r. apply Z.div_mul. lia. }
  split_and!; try done.
  - constructor; rewrite ?Hbl; simpl; rewrite ?u32_small by lia; [lia..|]. apply Ht. lia.
  - intros l pos. assert (Hst : a_block b * bs = a_block a * bs + a_len a) by nia.
    simpl. unfold covers. simpl. rewrite u32_small, Hst by lia. clear - Hbyte La Lb.
    generalize dependent (a_block a * bs). intros st.
    destruct (Z.leb_spec st pos), (Z.ltb_spec pos (st + a_len a)),
      (Z.leb_spec (st + a_len a) pos), (Z.ltb_spec pos (st + a_len a + a_len b)),
      (Z.ltb_spec pos (st + (a_len a + a_len b))); simpl; try done; try lia.
    f_equal. rewrite <- Hbyte. f_equal. lia.
Qed.

(** Replacing two neighbours by their merge. *)
Lemma layout_merge pre a b m post :
  layout_ok bs (pre ++ a :: b :: post) -> a_len a + a_len b < 2 ^ 32 ->
  try_merge bs a b = Some m ->
  layout_ok bs (pre ++ m :: post) /\
  forall pos, image E bs (pre ++ m :: post) pos = image E bs (pre ++ a :: b :: post) pos.
Proof using Hbs.
  intros [Hwf Hs] Hlen Hm.
  apply Forall_app in Hwf as [Hw1 [Hwa [Hwb Hw2]%Forall_cons]%Forall_cons].
  destruct (try_merge_sound a b m) as (Hwm & Hblk & Hadj & Hn & Himg); [done..|].
  apply StronglySorted_app in Hs as (Hcross & Hs1 & Hs2).
  apply StronglySorted_cons in Hs2 as [Ha [Hb Hs2]%StronglySorted_cons].
  split.
  - constructor; [by apply Forall_app; split; [|constructor]|].
    apply StronglySorted_app. split_and!; [|done|apply StronglySorted_cons; split; [|done]].
    + intros x y Hx [->|Hy]%elem_of_cons; [|apply Hcross; set_solver].
      specialize (Hcross x a Hx ltac:(set_solver)). unfold before in *. lia.
    + eapply Forall_impl; [exact Hb|]. unfold before. intros x. lia.
  - intros pos. rewrite !image_app. by destruct (image E bs pre pos).
Qed.

Lemma layout_insert pre post a :
  layout_ok bs (pre ++ post) -> ablock_wf bs a ->
  Forall (fun b => before bs b a) pre -> Forall (before bs a) post ->
  layout_ok bs (pre ++ a :: post) /\
  forall pos, image E bs (pre ++ a :: post) pos =
    if covers bs a pos then Some (type_byte E (a_type a) (pos - a_block a * bs))
    else image E bs (pre ++ post) pos.
Proof using Hbs.
  intros [Hwf Hs] Ha H1 H2. apply Forall_app in Hwf as [Hw1 Hw2].
  apply StronglySorted_app in Hs as (Hcross & Hs1 & Hs2). split.
  - constructor; [by apply Forall_app; split; [|constructor]|].
    apply StronglySorted_app. split_and!; [|done|by apply StronglySorted_cons].
    rewrite Forall_forall in H1. intros x y Hx [->|Hy]%elem_of_cons; auto.
  - intros pos. apply image_insert; [done..|].
    eapply Forall_impl; [exact H1|]. intros b Hb. by right.
Qed.

(** A block that overlaps nothing splits the layout in two. *)
Lemma layout_split l a :
  layout_ok bs l -> ablock_wf bs a -> Forall (disjoint_blocks bs a) l ->
  exists pre post, l = pre ++ post /\
    Forall (fun b => before bs b a /\ a_block b < a_block a) pre /\
    Forall (fun b => before bs a b /\ a_block a < a_block b) post.
Proof using Hbs.
  intros Hl Ha Hd. pose proof (layout_sorted l Hl) as Hs. destruct Hl as [Hwf _].
  pose proof (blocks_pos a Ha) as Hpa.
  assert (Hne : forall b, b ∈ l -> 0 < blocks bs b /\ disjoint_blocks bs a b).
  { rewrite Forall_forall in Hwf, Hd. intros b Hb. split; [by apply blocks_pos, Hwf|by apply Hd]. }
  destruct (sorted_split_key a_block l (a_block a) Hs) as (pre & post & -> & H1 & H2).
  { intros (b & Hab & Hb)%list_elem_of_fmap. destruct (Hne b Hb) as [? [?|?]]; unfold before in *; lia. }
  exists pre, post. rewrite Forall_forall in H1, H2.
  split_and!; [done|apply Forall_forall..]; intros b Hb;
    destruct (Hne b ltac:(set_solver)) as [? [?|?]]; unfold before in *;
    first [specialize (H1 b Hb)|specialize (H2 b Hb)]; lia.
Qed.

(** Room for [a] and two neighbours in a 32-bit length. *)
Definition room l a : Prop :=
  Forall (fun b => a_len b + a_len a < 2 ^ 32 /\
    Forall (fun c => a_len b + (a_len a + a_len c) < 2 ^ 32) l) l.

Lemma queue_spec_sound l a :
  layout_ok bs l -> ablock_wf bs a -> Forall (disjoint_blocks bs a) l -> room l a ->
  layout_ok bs (queue_spec bs l a) /\
  forall pos, image E bs (queue_spec bs l a) pos =
    if covers bs a pos then Some (type_byte E (a_type a) (pos - a_block a * bs))
    else image E bs l pos.
Proof using Hbs.
  intros Hl Ha Hd Hroom.
  destruct (layout_split l a Hl Ha Hd) as (pre & post & -> & H1 & H2).
  apply Forall_and in H1 as [H1 H1'], H2 as [H2 H2'].
  destruct (layout_insert pre post a Hl Ha H1 H2) as [Hins Himg].
  rewrite queue_spec_split by done.
  destruct pre as [|p pre _] using rev_ind; [simpl; split; [done|exact Himg]|].
  rewrite last_snoc, removelast_last. rewrite <- app_assoc in Hins, Himg. simpl in *.
  assert (Hp : a_len p + a_len a < 2 ^ 32 /\
    Forall (fun c => a_len p + (a_len a + a_len c) < 2 ^ 32) post).
  { apply Forall_app in Hroom as [[_ [[Hp1 Hp2] _]%Forall_cons]%Forall_app _].
    by apply Forall_app in Hp2 as [_ ?]. }
  assert (Hfin : forall x post1,
    layout_ok bs (pre ++ p :: x :: post1) -> a_len p + a_len x < 2 ^ 32 ->
    (forall pos, image E bs (pre ++ p :: x :: post1) pos
                 = image E bs (pre ++ p :: a :: post) pos) ->
    let r := match try_merge bs p x with
             | Some m => pre ++ m :: post1
             | None => (pre ++ [p]) ++ x :: post1 end in
    layout_ok bs r /\ forall pos, image E bs r pos = image E bs (pre ++ p :: a :: post) pos).
  { intros x post1 Hlx Hsum Hix. destruct (try_merge bs p x) as [m|] eqn:Em; simpl.
    - destruct (layout_merge pre p x m post1 Hlx Hsum Em) as [? Him].
      split; [done|]. intros pos. by rewrite Him.
    - rewrite <- app_assoc. done. }
  setoid_rewrite <- Himg. destruct Hp as [Hp1 Hp2]. unfold merge_next.
  destruct post as [|n post]; [by apply Hfin|].
  destruct (try_merge bs a n) as [m|] eqn:Em; [|by apply Hfin].
  apply Forall_cons in Hp2 as [Hn _].
  assert (Hsum : a_len a + a_len n < 2 ^ 32).
  { pose proof (lay_wf _ _ Hins) as Hw. apply Forall_app in Hw as [_ [Hw _]%Forall_cons].
    pose proof (wf_len _ _ Hw). lia. }
  destruct (layout_merge (pre ++ [p]) a n m post) as [Hlm Him]; [by rewrite <- app_assoc|done..|].
  rewrite <- app_assoc in Hlm. apply Hfin; [done| |].
  - unfold try_merge in Em. case_match; simplify_eq/=. rewrite u32_small; [lia|].
    pose proof (wf_len _ _ Ha). pose proof (lay_wf _ _ Hins) as Hw.
    apply Forall_app in Hw as [_ [_ [_ [Hw _]%Forall_cons]%Forall_cons]%Forall_cons].
    pose proof (wf_len _ _ Hw). lia.
  - intros pos. specialize (Him pos). by rewrite <- !app_assoc in Him.
Qed.
End Layout.
