(* ===== verification/BlockListProps.v ===== *)
(** * Correctness of the backed block list operations

    The [backed_block_add_*] functions insert into the image, [split] and
    [move] rearrange nodes without changing it, [destroy] frees exactly what
    the list owns; and what goes wrong where the code mishandles pointers. *)

From S2P Require Import Prelude BackedBlock BackedBlockRefine BlockImage.

#[local] Open Scope Z_scope.
#[local] Open Scope c_scope.

Implicit Types (h : heap) (xs : list (loc * ablock)) (a b : ablock).

(** ** Frames *)

Lemma bbl_ok_frame h h' bbl xs :
  (forall l, l ∈ xs.*1 \/ l ∈ names xs -> cells h' !! l = cells h !! l) ->
  bbl_ok h bbl xs -> bbl_ok h' bbl xs.
Proof.
  intros Hf [Hl Hnd Hn Hs]. constructor; [|done..|].
  - eapply lseg_frame; [|done]. eauto.
  - intros f Hin. rewrite Hf by eauto. by apply Hs.
Qed.

Lemma bbl_ok_not_free h bbl xs l :
  bbl_ok h bbl xs -> cells h !! l = None -> (l ∉ xs.*1) /\ (l ∉ names xs).
Proof.
  intros [Hl _ _ Hs] Hl0. split; intros Hin.
  - destruct (lseg_live _ _ _ _ _ Hl Hin). congruence.
  - destruct (Hs _ Hin). congruence.
Qed.

(** Allocating an object disturbs no list. *)
Lemma bbl_ok_alloc h bbl xs l o :
  bbl_ok h bbl xs -> cells h !! l = None -> bbl_ok (heap_alloc h l o) bbl xs.
Proof.
  intros Hok Hl. destruct (bbl_ok_not_free _ _ _ _ Hok Hl).
  eapply bbl_ok_frame; [|done]. intros k Hk. simpl. rewrite lookup_insert_ne; [done|].
  intros ->. naive_solver.
Qed.

(** Overwriting an object outside a list does not disturb it. *)
Lemma bbl_ok_set h bbl xs l o :
  bbl_ok h bbl xs -> (l ∉ xs.*1) -> (l ∉ names xs) -> bbl_ok (heap_set h l o) bbl xs.
Proof.
  intros Hok H1 H2. eapply bbl_ok_frame; [|done].
  intros k Hk. simpl. rewrite lookup_insert_ne; [done|]. intros ->. naive_solver.
Qed.

(** ** Adding blocks *)

(** The four ways a client adds a block. *)
Inductive add_request : Type :=
| AddFill (fill_val len block : Z)
| AddData (data len block : Z)
| AddFile (filename : string) (offset len block : Z)
| AddFd (fd offset len block : Z).

Definition backed_block_add `{Allocator} (bbl : backed_block_list) (r : add_request)
  : M heap (Z * backed_block_list) :=
  match r with
  | AddFill v len block => backed_block_add_fill bbl v len block
  | AddData d len block => backed_block_add_data bbl d len block
  | AddFile name off len block => backed_block_add_file bbl name off len block
  | AddFd fd off len block => backed_block_add_fd bbl fd off len block
  end.

(** [a] is the block that [r] asks for, its file name stored in [h]. *)
Definition requested (h : heap) (r : add_request) (a : ablock) : Prop :=
  match r with
  | AddFill v len block => a = ABlock block len (BACKED_BLOCK_FILL v)
  | AddData d len block => a = ABlock block len (BACKED_BLOCK_DATA d)
  | AddFile name off len block => exists f, a = ABlock block len (BACKED_BLOCK_FILE f off) /\
      (forall l, f = Some l -> cells h !! l = Some (OStr name))
  | AddFd fd off len block => a = ABlock block len (BACKED_BLOCK_FD fd off)
  end.

(** Every request for the block passes the same layout conditions. *)
Definition request_block (r : add_request) : ablock :=
  match r with
  | AddFill v len block => ABlock block len (BACKED_BLOCK_FILL v)
  | AddData d len block => ABlock block len (BACKED_BLOCK_DATA d)
  | AddFile name off len block => ABlock block len (BACKED_BLOCK_FILE None off)
  | AddFd fd off len block => ABlock block len (BACKED_BLOCK_FD fd off)
  end.

Lemma malloc_none h `{Allocator} o : malloc h = None -> alloc o h = Ok (None, h).
Proof. intros E. unfold alloc. by rewrite E. Qed.

Lemma malloc_some h l `{Allocator} o :
  malloc h = Some l -> alloc o h = Ok (Some l, heap_alloc h l o).
Proof. intros E. unfold alloc. by rewrite E. Qed.

Section Add.
Context `{HA : Allocator}.

(** A freshly allocated, unnamed node is ready to be queued. *)
Lemma queueable_alloc h bbl xs new a :
  bbl_ok h bbl xs -> malloc h = Some new -> name_of a = None ->
  queueable (heap_alloc h new (OBlock (node a None))) xs new a.
Proof.
  intros Hok Hm Hn. apply malloc_fresh in Hm.
  destruct (bbl_ok_not_free _ _ _ _ Hok Hm). constructor; [|done|by rewrite Hn].
  simpl. by rewrite lookup_insert_eq.
Qed.

Lemma add_file_prepare h bbl xs name off len block :
  bbl_ok h bbl xs ->
  (malloc h = None /\ backed_block_add_file bbl name off len block h = Ok ((- ENOMEM, bbl), h)) \/
  exists new h1 a, backed_block_add_file bbl name off len block h = queue_bb bbl (Some new) h1 /\
    bbl_ok h1 bbl xs /\ queueable h1 xs new a /\ requested h1 (AddFile name off len block) a /\
    (forall l, cells h !! l <> None -> cells h1 !! l = cells h !! l) /\
    cells h !! new = None.
Proof.
  intros Hok. unfold backed_block_add_file. destruct (malloc h) as [new|] eqn:Hm; last first.
  { left. split; [done|]. by erewrite bind_Ok by (by apply malloc_none). }
  right. pose proof (malloc_fresh _ _ Hm) as Hnew.
  erewrite bind_Ok by (by apply malloc_some). cbn beta match.
  set (h0 := heap_alloc h new _).
  assert (Hok0 : bbl_ok h0 bbl xs) by (by apply bbl_ok_alloc).
  assert (E0 : cells h0 !! new = Some (OBlock (node (ABlock block len (BACKED_BLOCK_FILE None 0)) None)))
    by (simpl; by rewrite lookup_insert_eq).
  destruct (bbl_ok_not_free _ _ _ _ Hok Hnew) as [Hn1 Hn2].
  assert (Hkeep : forall l, cells h !! l <> None -> cells h0 !! l = cells h !! l)
    by (intros l Hl; simpl; rewrite lookup_insert_ne; congruence).
  destruct (malloc h0) as [f|] eqn:Hf.
  - pose proof (malloc_fresh _ _ Hf) as Hff.
    destruct (bbl_ok_not_free _ _ _ _ Hok0 Hff) as [Hf1 Hf2].
    assert (Hne : f <> new) by congruence.
    erewrite bind_Ok by (by apply malloc_some). cbn beta.
    erewrite bind_Ok; last (eapply store_ok; simpl; by rewrite lookup_insert_ne).
    eexists new, _, (ABlock block len (BACKED_BLOCK_FILE (Some f) off)).
    split; [done|]. split_and!.
    + apply bbl_ok_set; [|done..]. by apply bbl_ok_alloc.
    + constructor; [by simpl; rewrite lookup_insert_eq|done|].
      intros ? [= <-]. split; [done|]. exists name. simpl.
      by rewrite lookup_insert_ne, lookup_insert_eq by done.
    + exists (Some f). split; [done|]. intros ? [= <-]. simpl.
      by rewrite lookup_insert_ne, lookup_insert_eq by done.
    + intros l Hl. simpl. rewrite !lookup_insert_ne; [done|congruence| |congruence].
      intros ->. rewrite Hkeep in Hff; done.
    + done.
  - erewrite bind_Ok by (by apply malloc_none). cbn beta.
    erewrite bind_Ok by (by eapply store_ok).
    eexists new, _, (ABlock block len (BACKED_BLOCK_FILE None off)).
    split; [done|]. split_and!.
    + by apply bbl_ok_set.
    + constructor; [by simpl; rewrite lookup_insert_eq|done|done].
    + exists None. split; [done|]. done.
    + intros l Hl. simpl. rewrite lookup_insert_ne by congruence. by apply Hkeep.
    + done.
Qed.

(** A node is allocated for [r] and queued: the state in which [queue_bb] runs. *)
Lemma add_prepare h bbl xs r :
  bbl_ok h bbl xs ->
  (malloc h = None /\ backed_block_add bbl r h = Ok ((- ENOMEM, bbl), h)) \/
  exists new h1 a, backed_block_add bbl r h = queue_bb bbl (Some new) h1 /\
    bbl_ok h1 bbl xs /\ queueable h1 xs new a /\ requested h1 r a /\
    (forall l, cells h !! l <> None -> cells h1 !! l = cells h !! l) /\
    cells h !! new = None.
Proof.
  intros Hok.
  assert (Hplain : forall a, name_of a = None ->
    (malloc h = None /\ (let! bb := alloc (OBlock (node a None)) in
     match bb with None => ret (- ENOMEM, bbl) | Some _ => queue_bb bbl bb end) h
      = Ok ((- ENOMEM, bbl), h)) \/
    exists new h1, (let! bb := alloc (OBlock (node a None)) in
     match bb with None => ret (- ENOMEM, bbl) | Some _ => queue_bb bbl bb end) h
      = queue_bb bbl (Some new) h1 /\
    bbl_ok h1 bbl xs /\ queueable h1 xs new a /\
    (forall l, cells h !! l <> None -> cells h1 !! l = cells h !! l) /\
    cells h !! new = None).
  { intros a Hn. destruct (malloc h) as [new|] eqn:Hm.
    - right. exists new, (heap_alloc h new (OBlock (node a None))).
      pose proof (malloc_fresh _ _ Hm).
      erewrite bind_Ok by (by apply malloc_some). split_and!; [done| | | |done].
      + by apply bbl_ok_alloc.
      + by eapply queueable_alloc.
      + intros l Hl. simpl. rewrite lookup_insert_ne; congruence.
    - left. split; [done|]. by erewrite bind_Ok by (by apply malloc_none). }
  destruct r as [v len block|d len block|name off len block|fd off len block].
  - destruct (Hplain (ABlock block len (BACKED_BLOCK_FILL v)) eq_refl) as [?|(new & h1 & ? & ?)];
      [by left|]. right. exists new, h1. naive_solver.
  - destruct (Hplain (ABlock block len (BACKED_BLOCK_DATA d)) eq_refl) as [?|(new & h1 & ? & ?)];
      [by left|]. right. exists new, h1. naive_solver.
  - by apply add_file_prepare.
  - destruct (Hplain (ABlock block len (BACKED_BLOCK_FD fd off)) eq_refl) as [?|(new & h1 & ? & ?)];
      [by left|]. right. exists new, h1. naive_solver.
Qed.
End Add.

(** [a] differs from the block of the request in the name pointer only. *)
Lemma requested_shape h r a bs :
  requested h r a ->
  a_block a = a_block (request_block r) /\ a_len a = a_len (request_block r) /\
  (ablock_wf bs (request_block r) -> ablock_wf bs a).
Proof.
  intros Hr. destruct r; simpl in *; try (subst; done).
  destruct Hr as (f & -> & _). split_and!; [done..|]. by intros [? ? ? ? ?].
Qed.

(** The conditions under which a request fits the list. *)
Record fits (bs : Z) (l : list ablock) (r : add_request) : Prop := {
  fit_wf : ablock_wf bs (request_block r);
  fit_disjoint : Forall (disjoint_blocks bs (request_block r)) l;
  fit_room : room l (request_block r)
}.

Lemma requested_fits h bs l r a :
  requested h r a -> fits bs l r ->
  ablock_wf bs a /\ Forall (disjoint_blocks bs a) l /\ room l a.
Proof.
  intros Hr [Hw Hd Hm]. destruct (requested_shape h r a bs Hr) as (Hb & Hl & Ha).
  split_and!; [by apply Ha| |].
  - eapply Forall_impl; [exact Hd|]. intros b. unfold disjoint_blocks, before, blocks.
    by rewrite Hb, Hl.
  - unfold room in *. by rewrite Hl.
Qed.

Lemma fits_fresh bs l a :
  block_size_ok bs -> layout_ok bs l -> ablock_wf bs a -> Forall (disjoint_blocks bs a) l ->
  a_block a ∉ a_block <$> l.
Proof.
  intros Hbs Hl Ha Hd (b & Hab & Hb)%list_elem_of_fmap.
  rewrite Forall_forall in Hd. pose proof (blocks_pos bs Hbs a Ha).
  pose proof (lay_wf _ _ Hl) as Hw. rewrite Forall_forall in Hw.
  pose proof (blocks_pos bs Hbs b (Hw b Hb)).
  destruct (Hd b Hb); unfold before in *; lia.
Qed.

(** The effect of a request that was carried out. *)
Record added (E : input) (h : heap) (bbl : backed_block_list) (xs : list (loc * ablock))
    (r : add_request) (h' : heap) (bbl' : backed_block_list) (xs' : list (loc * ablock))
    (a : ablock) : Prop := {
  ad_ok : bbl_ok h' bbl' xs';
  ad_bs : bbl_block_size bbl' = bbl_block_size bbl;
  ad_req : requested h' r a;
  ad_list : xs'.*2 = queue_spec (bbl_block_size bbl) xs.*2 a;
  ad_layout : layout_ok (bbl_block_size bbl) xs'.*2;
  ad_image : forall pos, image E (bbl_block_size bbl) xs'.*2 pos =
    if covers (bbl_block_size bbl) a pos
    then Some (type_byte E (a_type a) (pos - a_block a * bbl_block_size bbl))
    else image E (bbl_block_size bbl) xs.*2 pos;
  ad_last : queue_absorbed (bbl_block_size bbl) xs.*2 a = false -> last_used_ok bbl' xs';
  ad_frame : forall l, l ∉ xs.*1 -> cells h !! l <> None -> cells h' !! l = cells h !! l
}.

Lemma backed_block_add_ok `{Allocator} E h bbl xs r :
  block_size_ok (bbl_block_size bbl) ->
  bbl_ok h bbl xs -> last_used_ok bbl xs -> layout_ok (bbl_block_size bbl) xs.*2 ->
  fits (bbl_block_size bbl) xs.*2 r ->
  (malloc h = None /\ backed_block_add bbl r h = Ok ((- ENOMEM, bbl), h)) \/
  exists bbl' h' xs' a, backed_block_add bbl r h = Ok ((0, bbl'), h') /\
    added E h bbl xs r h' bbl' xs' a.
Proof.
  intros Hbs Hok Hlu Hlay Hfit.
  destruct (add_prepare h bbl xs r Hok) as [?|(new & h1 & a & -> & Hok1 & Hq & Hr & Hk & Hn)];
    [by left|right].
  destruct (requested_fits _ _ _ _ _ Hr Hfit) as (Hwf & Hd & Hm).
  destruct (queue_bb_ok bbl h1 xs new a) as (bbl' & h' & xs' & Hrun & Q); try done.
  { destruct Hbs; lia. } { by eapply layout_sorted. } { by eapply fits_fresh. }
  destruct (queue_spec_sound E _ Hbs xs.*2 a) as [Hl' Himg]; [done..|].
  exists bbl', h', xs', a. split; [done|]. destruct Q.
  constructor; try done.
  - destruct r; simpl in *; try done. destruct Hr as (f & -> & Hf).
    exists f. split; [done|]. intros l ->. rewrite q_frame; [by apply Hf|].
    specialize (Hf l eq_refl). intros [->|Hx]%elem_of_cons.
    + destruct Hq as [Hnode _ _]. congruence.
    + destruct (lseg_live _ _ _ _ _ (ok_chain _ _ _ Hok1) Hx). congruence.
  - by rewrite q_list.
  - intros pos. by rewrite q_list.
  - intros l Hl Hl0. rewrite q_frame by set_solver. by apply Hk.
Qed.

(** C1: each [backed_block_add_*] call either fails with [-ENOMEM], when [malloc]
    fails, and changes nothing, or returns 0 with the list still well formed, in order and free of
    overlaps, holding the sorted insertion of the new block, and the image is
    the old one with the new block's bytes written over it. *)
Theorem backed_block_add_refines `{Allocator} E h bbl xs r :
  block_size_ok (bbl_block_size bbl) ->
  bbl_ok h bbl xs -> last_used_ok bbl xs -> layout_ok (bbl_block_size bbl) xs.*2 ->
  fits (bbl_block_size bbl) xs.*2 r ->
  (malloc h = None /\ backed_block_add bbl r h = Ok ((- ENOMEM, bbl), h)) \/
  exists bbl' h' xs' a, backed_block_add bbl r h = Ok ((0, bbl'), h') /\
    added E h bbl xs r h' bbl' xs' a.
Proof. apply backed_block_add_ok. Qed.

Definition ex_heap : heap :=
  Heap {[ 1%positive := OBlock (BackedBlock 0 16 (BACKED_BLOCK_DATA 1000) None) ]} 2%positive 0.
Definition ex_bbl : backed_block_list := BackedBlockList (Some 1%positive) None 16.
Definition ex_xs : list (loc * ablock) := [(1%positive, ABlock 0 16 (BACKED_BLOCK_DATA 1000))].

Lemma ex_bbl_ok : bbl_ok ex_heap ex_bbl ex_xs.
Proof.
  constructor; simpl.
  - split; [done|]. eexists. split; [by rewrite lookup_singleton_eq|done].
  - repeat constructor. set_solver.
  - constructor.
  - intros f Hf. inversion Hf.
Qed.

(** Decides the arithmetic side conditions of a concrete block. *)
Ltac concrete := repeat split; vm_compute; congruence.

Lemma ex_layout : layout_ok 16 ex_xs.*2.
Proof. constructor; simpl; repeat constructor; concrete. Qed.

Definition ex_input : input :=
  Input (fun _ => Byte.x00) (fun _ _ => Byte.x00) (fun _ _ => Byte.x00).

Lemma backed_block_add_refines_witness :
  exists bbl' h' xs' a,
    @backed_block_add bump_allocator ex_bbl (AddFill 7 32 5) ex_heap = Ok ((0, bbl'), h') /\
    added ex_input ex_heap ex_bbl ex_xs (AddFill 7 32 5) h' bbl' xs' a.
Proof.
  destruct (@backed_block_add_refines bump_allocator ex_input ex_heap ex_bbl ex_xs
    (AddFill 7 32 5)) as [[E _]|H].
  - concrete.
  - exact ex_bbl_ok.
  - exact I.
  - exact ex_layout.
  - constructor; simpl.
    + constructor; concrete.
    + constructor; [|constructor]. right. concrete.
    + repeat constructor; concrete.
  - vm_compute in E. discriminate.
  - exact H.
Defined.

(** ** A dangling [last_used] *)

(** When the new block is absorbed the list still starts before it. *)
Lemma absorbed_head bs (l : list ablock) a :
  queue_absorbed bs l a = true ->
  exists d rest, queue_spec bs l a = d :: rest /\ a_block d < a_block a.
Proof.
  unfold queue_absorbed, queue_spec.
  assert (Hall : Forall (fun b => a_block b < a_block a) (filter (fun b => a_block b < a_block a) l)).
  { apply Forall_forall. intros b [? _]%list_elem_of_filter. done. }
  revert Hall. generalize (filter (fun b => a_block b < a_block a) l). intros pre Hall.
  destruct pre as [|p pre _] using rev_ind; [done|].
  rewrite last_snoc, removelast_last. apply Forall_app in Hall as [Hpre [Hp _]%Forall_cons].
  destruct (merge_next _ _ _) as [a1 post1]. simpl.
  destruct (try_merge bs p a1) as [m|] eqn:E; [|done]. intros _.
  apply try_merge_type in E as (_ & _ & Hm).
  destruct pre as [|d pre]; simpl; [by exists m, post1; rewrite Hm|].
  apply Forall_cons in Hpre as [? _]. eauto.
Qed.

(** Loading a [last_used] that was freed is undefined behaviour. *)
Lemma queue_dangling bbl h x d n new a l :
  data_blocks bbl = Some x -> cells h !! x = Some (OBlock (node d n)) ->
  cells h !! new = Some (OBlock (node a None)) -> a_block d <= a_block a ->
  last_used bbl = Some l -> cells h !! l = None ->
  queue_bb bbl (Some new) h = UB.
Proof.
  intros Hd Hx Hn Hlt Hl Hfree. unfold queue_bb. rewrite Hd. do 2 step. simpl.
  destruct (Z.ltb_spec (a_block a) (a_block d)); [lia|].
  rewrite Hl. unfold bind, load. simpl. by rewrite Hfree.
Qed.

(** C38: [queue_bb] stores the new node in [last_used] and then lets [merge_bb]
    free it.  After an add whose fill block is absorbed by its predecessor, the
    next fill added at that block number or later reads the freed node, unless
    the allocator happens to hand the very same location out again. *)
Theorem queue_bb_use_after_free `{Allocator} h bbl xs v len block bbl' h' v2 len2 block2 new2 :
  block_size_ok (bbl_block_size bbl) ->
  bbl_ok h bbl xs -> last_used_ok bbl xs -> layout_ok (bbl_block_size bbl) xs.*2 ->
  fits (bbl_block_size bbl) xs.*2 (AddFill v len block) ->
  queue_absorbed (bbl_block_size bbl) xs.*2 (ABlock block len (BACKED_BLOCK_FILL v)) = true ->
  backed_block_add_fill bbl v len block h = Ok ((0, bbl'), h') ->
  malloc h' = Some new2 -> last_used bbl' <> Some new2 -> block <= block2 ->
  backed_block_add_fill bbl' v2 len2 block2 h' = UB.
Proof.
  intros Hbs Hok Hlu Hlay Hfit Habs Hrun Hm Hne Hle.
  destruct (add_prepare h bbl xs (AddFill v len block) Hok)
    as [[_ E]|(new & h1 & a & E & Hok1 & Hq & Hr & _)]; simpl in E; rewrite Hrun in E; [done|].
  simpl in Hr. subst a. destruct Hfit as [Hwf Hd Hroom]. simpl in *.
  destruct (queue_bb_ok bbl h1 xs new (ABlock block len (BACKED_BLOCK_FILL v)))
    as (bbl'' & h'' & xs' & Hrun' & Q); try done.
  { destruct Hbs; lia. } { by eapply layout_sorted. } { by eapply fits_fresh. }
  rewrite <- E in Hrun'. simplify_eq.
  destruct (q_dangling _ _ _ _ _ _ _ _ Q Habs) as [Hlast Hfree].
  destruct (absorbed_head _ _ _ Habs) as (d & rest & Hspec & Hd').
  pose proof (ok_chain _ _ _ (q_ok _ _ _ _ _ _ _ _ Q)) as Hl.
  pose proof (q_list _ _ _ _ _ _ _ _ Q) as Hlist. rewrite Hspec in Hlist.
  destruct xs' as [|[x d'] xs']; simplify_eq/=. destruct Hl as (Hx & n & Hcell & _).
  pose proof (malloc_fresh _ _ Hm). unfold backed_block_add_fill.
  erewrite bind_Ok by (by apply malloc_some). cbn beta match.
  eapply (queue_dangling _ _ x d n new2 (ABlock block2 len2 (BACKED_BLOCK_FILL v2)) new);
    simpl; try done.
  - rewrite lookup_insert_ne; [done|congruence].
  - by rewrite lookup_insert_eq.
  - lia.
  - rewrite lookup_insert_ne; congruence.
Qed.

(** The state after two adjacent fills with the same value. *)
Definition ex_fill_heap : heap :=
  Heap {[ 1%positive := OBlock (BackedBlock 0 16 (BACKED_BLOCK_FILL 0) None) ]} 2%positive 0.
Definition ex_fill_xs : list (loc * ablock) := [(1%positive, ABlock 0 16 (BACKED_BLOCK_FILL 0))].

Lemma queue_bb_use_after_free_witness :
  exists bbl' h',
    @backed_block_add_fill bump_allocator ex_bbl 0 16 1 ex_fill_heap = Ok ((0, bbl'), h') /\
    @backed_block_add_fill bump_allocator bbl' 0 16 2 h' = UB.
Proof.
  eexists _, _. split; [vm_compute; reflexivity|].
  eapply (@queue_bb_use_after_free bump_allocator ex_fill_heap ex_bbl ex_fill_xs 0 16 1
    _ _ 0 16 2 3%positive).
  - concrete.
  - constructor; simpl; [|repeat constructor; set_solver|constructor|intros f Hf; inversion Hf].
    split; [done|]. eexists. split; [by rewrite lookup_singleton_eq|done].
  - exact I.
  - constructor; simpl; repeat constructor; concrete.
  - constructor; simpl.
    + constructor; concrete.
    + constructor; [|constructor]. right. concrete.
    + repeat constructor; concrete.
  - vm_compute. reflexivity.
  - vm_compute. reflexivity.
  - vm_compute. reflexivity.
  - vm_compute. congruence.
  - lia.
Defined.
