(* ===== verification/BlockListMove.v ===== *)
(** * Destroying, splitting and moving blocks

    [backed_block_list_destroy] frees the nodes and names of its list and
    nothing else; [backed_block_split] cuts a block in two without changing the
    image; [backed_block_list_move] takes a run of nodes out of one list and
    links it into another. *)

From S2P Require Import Prelude BackedBlock BackedBlockRefine BlockImage BlockListProps.

#[local] Open Scope Z_scope.
#[local] Open Scope c_scope.

Implicit Types (h : heap) (xs : list (loc * ablock)) (a b : ablock).

(** ** Destroying a list *)

(** Everything a run of nodes owns. *)
Definition owned xs : list loc := xs.*1 ++ names xs.

Lemma destroy_ok h x a n :
  cells h !! x = Some (OBlock (node a n)) ->
  (forall f, name_of a = Some f -> exists s, cells h !! f = Some (OStr s)) ->
  exists h', backed_block_destroy (Some x) h = Ok (tt, h') /\ structs h' = structs h /\
    forall l, cells h' !! l = if decide (l ∈ owned [(x, a)]) then None else cells h !! l.
Proof.
  intros Hx Hn. destruct (name_of a) as [f|] eqn:Ef.
  - destruct (Hn f eq_refl) as [s Hf].
    assert (Hne : f <> x) by congruence.
    exists (heap_free (heap_free h f) x). split_and!; [|done|].
    + unfold backed_block_destroy. step. unfold name_of in Ef. simpl.
      destruct (a_type a); try done. rewrite Ef. step.
      eapply free_ok. simpl. by rewrite lookup_delete_ne.
    + intros l. unfold owned. rewrite names_cons, Ef. simpl.
      rewrite !lookup_delete. repeat case_decide; set_solver.
  - exists (heap_free h x). split_and!; [by eapply destroy_unnamed|done|].
    intros l. unfold owned. rewrite names_cons, Ef. simpl.
    rewrite lookup_delete. repeat case_decide; set_solver.
Qed.

(** The loop frees a run of nodes and continues after it. *)
Lemma destroy_run xs : forall h p q fuel,
  lseg h p xs q -> NoDup xs.*1 -> NoDup (names xs) ->
  (forall f, f ∈ names xs -> exists s, cells h !! f = Some (OStr s)) ->
  exists h', destroy_loop (length xs + fuel) p h = destroy_loop fuel q h' /\ structs h' = structs h /\
    forall l, cells h' !! l = if decide (l ∈ owned xs) then None else cells h !! l.
Proof.
  induction xs as [|[x a] xs IH]; intros h p q fuel Hl Hnd Hnm Hst.
  - simpl in Hl. subst. exists h. split_and!; [done|done|]. intros l. by rewrite decide_False by set_solver.
  - destruct Hl as (-> & n & Hx & Hl). apply NoDup_cons in Hnd as [Hx' Hnd].
    rewrite names_cons in Hnm. pose proof (NoDup_app_r _ _ Hnm) as Hnm'.
    destruct (destroy_ok h x a n Hx) as (h1 & E1 & T1 & H1).
    { intros f Hf. apply Hst. rewrite names_cons, Hf. set_solver. }
    assert (Hx2 : x ∉ names xs).
    { intros Hin. destruct (Hst x) as [s E]; [rewrite names_cons; set_solver|congruence]. }
    assert (Hf2 : forall f, name_of a = Some f -> (f ∉ xs.*1) /\ (f ∉ names xs)).
    { intros f Hf. rewrite Hf in Hnm. apply NoDup_cons in Hnm as [Hf1 _].
      split; [|done]. intros Hin. destruct (Hst f) as [s E]; [rewrite names_cons, Hf; set_solver|].
      destruct (lseg_live _ _ _ _ _ Hl Hin). congruence. }
    assert (Hkeep : forall l, l ∈ xs.*1 \/ l ∈ names xs -> cells h1 !! l = cells h !! l).
    { intros l Hin. rewrite H1. apply decide_False. unfold owned. rewrite names_cons. simpl.
      destruct (name_of a) as [f|]; [destruct (Hf2 f eq_refl)|]; set_solver. }
    destruct (IH h1 n q fuel) as (h' & E' & T' & H'); [|done|done| |].
    + eapply lseg_frame; [|done]. eauto.
    + intros f Hf. rewrite Hkeep by eauto. apply Hst. rewrite names_cons. set_solver.
    + exists h'. split_and!; [|congruence|].
      * simpl. step. rewrite (bind_Ok _ _ _ _ _ E1). done.
      * intros l. rewrite H', H1. unfold owned. rewrite !names_cons. simpl.
        destruct (name_of a); repeat case_decide; set_solver.
Qed.

Lemma destroy_loop_nil fuel h : destroy_loop fuel None h = Ok (tt, h).
Proof. by destruct fuel. Qed.

Lemma list_destroy_ok h bbl xs :
  bbl_ok h bbl xs ->
  exists h', backed_block_list_destroy bbl h = Ok (tt, h') /\ structs h' = structs h - 1 /\
    forall l, cells h' !! l = if decide (l ∈ owned xs) then None else cells h !! l.
Proof.
  intros [Hl Hnd Hnm Hst]. pose proof (lseg_length _ _ _ _ Hl Hnd) as Hlen.
  destruct (destroy_run xs h (data_blocks bbl) None (S (size (cells h)) - length xs))
    as (h' & E & T & H'); [done..|].
  eexists (Heap (cells h') (brk h') (structs h' - 1)). split_and!; [|simpl; lia|done].
  unfold backed_block_list_destroy, walk_fuel. step.
  replace (S (size (cells h))) with (length xs + (S (size (cells h)) - length xs))%nat by lia.
  erewrite bind_Ok by (by rewrite E, destroy_loop_nil). done.
Qed.

(** [backed_block_list_destroy] terminates and frees every node and every
    file name of the list exactly once, and the list itself; no other object of
    the heap changes. *)
Theorem backed_block_list_destroy_frees h bbl xs :
  bbl_ok h bbl xs ->
  exists h', backed_block_list_destroy bbl h = Ok (tt, h') /\ structs h' = structs h - 1 /\
    forall l, cells h' !! l = if decide (l ∈ owned xs) then None else cells h !! l.
Proof.
  apply list_destroy_ok.
Qed.

Lemma backed_block_list_destroy_frees_witness :
  exists h', backed_block_list_destroy ex_bbl ex_heap = Ok (tt, h') /\ cells h' !! 1%positive = None.
Proof.
  destruct (backed_block_list_destroy_frees ex_heap ex_bbl ex_xs ex_bbl_ok) as (h' & E & _ & H).
  exists h'. split; [exact E|]. rewrite H. reflexivity.
Defined.

(** ** Splitting a block *)

Definition split_fst (n : Z) a : ablock := ABlock (a_block a) n (a_type a).
Definition split_snd (bs n : Z) a : ablock :=
  ABlock (u32 (a_block a + n / bs)) (u32 (a_len a - n)) (type_advance (a_type a) n).

Section Split.
Context `{HA : Allocator}.

(** The nodes after a split of the block at [x]. *)
Lemma split_run h bbl p pre x a post max_len new :
  0 < bbl_block_size bbl -> lseg h p (pre ++ (x, a) :: post) None -> NoDup (pre ++ (x, a) :: post).*1 ->
  let n := ALIGN_DOWN u32 max_len (bbl_block_size bbl) in
  n < a_len a -> malloc h = Some new ->
  exists h', backed_block_split bbl (Some x) max_len h = Ok (0, h') /\
    lseg h' p (pre ++ (x, split_fst n a) :: (new, split_snd (bbl_block_size bbl) n a) :: post) None /\
    (forall l, l <> x -> l <> new -> cells h' !! l = cells h !! l).
Proof.
  intros Hpos Hl Hnd n Hn Hm. pose proof (malloc_fresh _ _ Hm) as Hnew.
  pose proof (fun l => lseg_live _ _ _ _ l Hl) as Hlive.
  apply lseg_app_cons in Hl as (nx & Hpre & Hx & Hpost).
  assert (Hne : new <> x) by congruence.
  unfold backed_block_split. do 2 step. fold n. simpl.
  destruct (Z.leb_spec (a_len a) n); [lia|].
  erewrite bind_Ok by (by apply malloc_some). cbn beta match.
  erewrite bind_Ok; last (eapply store_ok; simpl; by rewrite lookup_insert_eq).
  cbn beta. erewrite bind_Ok; last first.
  { eapply store_ok. simpl. by rewrite !lookup_insert_ne. }
  eexists. split; [done|].
  assert (Hfr : forall h', cells h' = <[x:=OBlock (node (split_fst n a) (Some new))]>
    (<[new:=OBlock (node (split_snd (bbl_block_size bbl) n a) nx)]> (cells h)) ->
    lseg h' p (pre ++ (x, split_fst n a) :: (new, split_snd (bbl_block_size bbl) n a) :: post) None /\
    (forall l, l <> x -> l <> new -> cells h' !! l = cells h !! l)).
  { intros h' E. assert (Hf : forall l, l <> x -> l <> new -> cells h' !! l = cells h !! l)
      by (intros; by rewrite E, !lookup_insert_ne).
    split; [|done]. rewrite fmap_app in Hnd, Hlive. simpl in *.
    assert (Hnin : new ∉ pre.*1 ++ x :: post.*1).
    { intros Hin. destruct (Hlive _ Hin). congruence. }
    apply nodup_mid in Hnd as [Hx1 _].
    apply lseg_app_cons. exists (Some new). split_and!.
    - eapply lseg_frame; [|done]. intros l Hin. apply Hf; set_solver.
    - by rewrite E, lookup_insert_eq.
    - split; [done|]. exists nx. split; [by rewrite E, lookup_insert_ne, lookup_insert_eq|].
      eapply lseg_frame; [|done]. intros l Hin. apply Hf; set_solver. }
  apply Hfr. simpl. by rewrite insert_insert_eq.
Qed.
End Split.

Section SplitImage.
Context (E : input) (bs : Z).
Hypothesis Hbs : block_size_ok bs.

Lemma type_advance_byte t len n i :
  type_wf t len -> 0 <= n <= len -> n mod 4 = 0 ->
  type_byte E (type_advance t n) i = type_byte E t (n + i) /\
  type_wf (type_advance t n) (len - n) /\ type_wf t n.
Proof.
  intros Ht Hn H4. destruct t; simpl in *; rewrite ?i64_small by lia.
  - split; [f_equal; lia|done].
  - split; [f_equal; lia|lia].
  - split; [f_equal; lia|lia].
  - split; [|done]. by rewrite fill_byte_shift.
Qed.

(** Cutting a block at a multiple of the block size keeps layout and image. *)
Lemma layout_cut pre a post n :
  layout_ok bs (pre ++ a :: post) -> 0 < n < a_len a -> n mod bs = 0 ->
  layout_ok bs (pre ++ split_fst n a :: split_snd bs n a :: post) /\
  forall pos, image E bs (pre ++ split_fst n a :: split_snd bs n a :: post) pos =
    image E bs (pre ++ a :: post) pos.
Proof using Hbs.
  intros [Hwf Hs] Hn Hmod. pose proof Hbs as [Hb H4].
  apply Forall_app in Hwf as [Hw1 [Ha Hw2]%Forall_cons].
  assert (Hk : n = n / bs * bs) by (pose proof (Z.div_mod n bs ltac:(lia)); lia).
  assert (Hn4 : n mod 4 = 0) by (rewrite Hk, Z.mul_mod, H4, Z.mul_0_r by lia; done).
  destruct (type_advance_byte (a_type a) (a_len a) n 0 (wf_type _ _ Ha)) as (_ & Ht2 & Ht1); [lia|done|].
  assert (Hbyte := fun i => proj1 (type_advance_byte (a_type a) (a_len a) n i (wf_type _ _ Ha)
    ltac:(lia) Hn4)).
  destruct Ha as [? La Hla ? ?].
  assert (0 < n / bs < blocks bs a) by nia.
  assert (B1 : blocks bs (split_fst n a) = n / bs) by done.
  assert (B2 : blocks bs (split_snd bs n a) = blocks bs a - n / bs).
  { unfold blocks at 1. simpl. rewrite u32_small by lia. rewrite Hla at 1. rewrite Hk at 1.
    rewrite <- Z.mul_sub_distr_r. apply Z.div_mul. lia. }
  assert (A2 : a_block (split_snd bs n a) = a_block a + n / bs) by (simpl; apply u32_small; lia).
  assert (L2 : a_len (split_snd bs n a) = a_len a - n) by (simpl; apply u32_small; lia).
  apply StronglySorted_app in Hs as (Hcross & Hs1 & Hs2).
  apply StronglySorted_cons in Hs2 as [Hap Hs2].
  split.
  - constructor.
    + apply Forall_app. split; [done|]. constructor; [|constructor; [|done]].
      * constructor; rewrite ?B1; simpl; try lia. done.
      * constructor; rewrite ?B2, ?A2, ?L2; try lia. done.
    + apply StronglySorted_app. split_and!; [|done|].
      * intros y z Hy [->|[->|Hz]%elem_of_cons]%elem_of_cons.
        -- apply (Hcross y a Hy). set_solver.
        -- specialize (Hcross y a Hy ltac:(set_solver)). unfold before in *. lia.
        -- apply Hcross; set_solver.
      * apply StronglySorted_cons. split.
        -- constructor; [unfold before; rewrite B1, A2; simpl; lia|].
           eapply Forall_impl; [exact Hap|]. unfold before. rewrite B1. simpl. lia.
        -- apply StronglySorted_cons. split; [|done].
           eapply Forall_impl; [exact Hap|]. unfold before. rewrite B2, A2. lia.
  - intros pos. rewrite !image_app. destruct (image E bs pre pos); [done|].
    cbn [image]. unfold covers. rewrite A2, L2. cbn [split_fst a_block a_len a_type].
    assert (Hst : (a_block a + n / bs) * bs = a_block a * bs + n) by nia. rewrite Hst.
    cbn [split_snd a_type]. rewrite Hbyte. clear - Hn.
    generalize (a_block a * bs). intros st.
    destruct (Z.leb_spec st pos), (Z.ltb_spec pos (st + n)), (Z.leb_spec (st + n) pos),
      (Z.ltb_spec pos (st + n + (a_len a - n))), (Z.ltb_spec pos (st + a_len a));
      simpl; try done; try lia.
    do 2 f_equal. lia.
Qed.
End SplitImage.

Lemma split_bbl_ok `{Allocator} h bbl pre x a post max_len new :
  0 < bbl_block_size bbl -> bbl_ok h bbl (pre ++ (x, a) :: post) -> name_of a = None ->
  let n := ALIGN_DOWN u32 max_len (bbl_block_size bbl) in
  n < a_len a -> malloc h = Some new ->
  exists h', backed_block_split bbl (Some x) max_len h = Ok (0, h') /\
    bbl_ok h' bbl (pre ++ (x, split_fst n a) :: (new, split_snd (bbl_block_size bbl) n a) :: post) /\
    (forall l, l <> x -> l <> new -> cells h' !! l = cells h !! l).
Proof.
  intros Hpos Hok Hname n Hn Hm. pose proof (malloc_fresh _ _ Hm) as Hnew.
  destruct (bbl_ok_not_free _ _ _ _ Hok Hnew) as [Hn1 Hn2]. destruct Hok as [Hl Hnd Hnm Hst].
  destruct (split_run h bbl _ pre x a post max_len new Hpos Hl Hnd Hn Hm) as (h' & Hrun & Hl' & Hfr).
  assert (En : names (pre ++ (x, split_fst n a) :: (new, split_snd (bbl_block_size bbl) n a) :: post)
    = names (pre ++ (x, a) :: post)).
  { rewrite !names_app, !names_cons. unfold name_of in *. simpl. destruct (a_type a); by simplify_eq/=. }
  assert (Hx : cells h !! x <> None).
  { apply lseg_app_cons in Hl as (? & _ & ? & _). congruence. }
  assert (Hxn : x ∉ names (pre ++ (x, a) :: post)).
  { intros Hin. destruct (Hst _ Hin). apply lseg_app_cons in Hl as (? & _ & ? & _). congruence. }
  exists h'. split; [done|]. split; [|done]. constructor; [done| |by rewrite En|].
  - rewrite fmap_app in *. simpl in *. by apply nodup_insert.
  - rewrite En. intros f Hf. rewrite Hfr; [by apply Hst|set_solver..].
Qed.

(** Splitting a block that is not backed by a named file fails with
    [-ENOMEM] and changes nothing, or leaves the image, the order and the rest
    of the list as they were, the first part being the largest whole number of
    blocks within [max_len]. *)
Theorem backed_block_split_preserves_image `{Allocator} E h bbl pre x a post max_len :
  let bs := bbl_block_size bbl in
  let n := ALIGN_DOWN u32 max_len bs in
  block_size_ok bs -> bs <= max_len < 2 ^ 32 ->
  bbl_ok h bbl (pre ++ (x, a) :: post) -> name_of a = None ->
  layout_ok bs (pre ++ (x, a) :: post).*2 ->
  (a_len a <= n /\ backed_block_split bbl (Some x) max_len h = Ok (0, h)) \/
  (n < a_len a /\ malloc h = None /\
     backed_block_split bbl (Some x) max_len h = Ok (- ENOMEM, h)) \/
  (n < a_len a /\ exists new h' xs',
     backed_block_split bbl (Some x) max_len h = Ok (0, h') /\
     xs' = pre ++ (x, split_fst n a) :: (new, split_snd bs n a) :: post /\
     bbl_ok h' bbl xs' /\ layout_ok bs xs'.*2 /\
     forall pos, image E bs xs'.*2 pos = image E bs (pre ++ (x, a) :: post).*2 pos).
Proof.
  intros bs n Hbs Hmax Hok Hname Hlay.
  destruct (ALIGN_DOWN_u32_spec max_len bs) as (N1 & N2 & N3); [destruct Hbs; lia..|].
  fold n in N1, N2, N3. assert (0 < n) by lia. assert (0 < bbl_block_size bbl) by (destruct Hbs; unfold bs in *; lia).
  pose proof Hok as [Hl _ _ _]. apply lseg_app_cons in Hl as (nx & _ & Hx & _).
  destruct (Z.leb_spec (a_len a) n).
  { left. split; [done|]. unfold backed_block_split. do 2 step. fold bs. fold n. simpl.
    by destruct (Z.leb_spec (a_len a) n); [|lia]. }
  right. destruct (malloc h) as [new|] eqn:Hm; [right|left].
  - split; [done|].
    destruct (split_bbl_ok h bbl pre x a post max_len new) as (h' & Hrun & Hok' & _); [done..|].
    exists new, h'. eexists. split_and!; [done|done|done|..];
      rewrite !fmap_app, !fmap_cons in *; simpl in *;
      by apply (layout_cut E bs Hbs).
  - split_and!; [done|done|]. unfold backed_block_split. do 2 step. fold bs. fold n. simpl.
    destruct (Z.leb_spec (a_len a) n); [lia|]. by erewrite bind_Ok by (by apply malloc_none).
Qed.

(** C39: [backed_block_split] copies the [filename] pointer of a file block into
    the new node, so the two halves own one string: destroying the list after
    such a split frees it twice. *)
Theorem split_file_block_double_free `{Allocator} h bbl pre x a post max_len new f :
  0 < bbl_block_size bbl -> bbl_ok h bbl (pre ++ (x, a) :: post) -> name_of a = Some f ->
  ALIGN_DOWN u32 max_len (bbl_block_size bbl) < a_len a -> malloc h = Some new ->
  exists h', backed_block_split bbl (Some x) max_len h = Ok (0, h') /\
    backed_block_list_destroy bbl h' = UB.
Proof.
  intros Hpos Hok Hname Hn Hm. pose proof (malloc_fresh _ _ Hm) as Hnew.
  destruct (bbl_ok_not_free _ _ _ _ Hok Hnew) as [Hn1 Hn2]. destruct Hok as [Hl Hnd Hnm Hst].
  destruct (split_run h bbl _ pre x a post max_len new Hpos Hl Hnd Hn Hm) as (h' & Hrun & Hl' & Hfr).
  exists h'. split; [done|].
  set (n := ALIGN_DOWN u32 max_len (bbl_block_size bbl)) in *.
  set (bs := bbl_block_size bbl) in *.
  rewrite (cons_middle (x, _)), app_assoc in Hl'. apply lseg_app_cons in Hl' as (nx & H1 & H2 & _).
  assert (Hnd' : NoDup ((pre ++ [(x, split_fst n a)]).*1 ++ [new])).
  { revert Hnd Hn1. rewrite !fmap_app. simpl. rewrite (cons_middle x), app_assoc. intros Hnd Hn1.
    rewrite <- Permutation_cons_append. apply NoDup_cons.
    split; [set_solver|by eapply NoDup_app_l]. }
  assert (Hf : forall k, k ∈ names (pre ++ [(x, split_fst n a)]) ->
    exists s, cells h' !! k = Some (OStr s)).
  { intros k Hk. assert (Hk' : k ∈ names (pre ++ (x, a) :: post)).
    { revert Hk. rewrite !names_app, !names_cons. unfold name_of. simpl. set_solver. }
    destruct (Hst k Hk') as [s Es]. exists s. rewrite Hfr; [done| |congruence].
    intros ->. apply lseg_app_cons in Hl as (? & _ & ? & _). congruence. }
  assert (Hlen := lseg_length _ _ _ _ H1 (NoDup_app_l _ _ Hnd')).
  destruct (destroy_run (pre ++ [(x, split_fst n a)]) h' (data_blocks bbl) (Some new)
    (S (size (cells h') - length (pre ++ [(x, split_fst n a)])))) as (h'' & Hd & _ & Hc);
    [done|by eapply NoDup_app_l| |done|].
  { rewrite names_app, names_cons in Hnm |- *. rewrite app_assoc in Hnm.
    apply NoDup_app_l in Hnm. change (names []) with (@nil loc). by rewrite app_nil_r. }
  unfold backed_block_list_destroy, walk_fuel. step.
  replace (S (size (cells h'))) with (length (pre ++ [(x, split_fst n a)]) +
    S (size (cells h') - length (pre ++ [(x, split_fst n a)])))%nat by lia.
  unfold bind at 1. rewrite Hd. cbn [destroy_loop].
  assert (Hnew' : cells h'' !! new = Some (OBlock (node (split_snd bs n a) nx))).
  { rewrite Hc, decide_False; [done|]. unfold owned. intros [Hin|Hin]%elem_of_app.
    - apply NoDup_app in Hnd' as (_ & Hd' & _). apply (Hd' new Hin). set_solver.
    - destruct (Hf _ Hin). congruence. }
  assert (Hfree : cells h'' !! f = None).
  { rewrite Hc, decide_True; [done|]. unfold owned. rewrite names_app, names_cons.
    unfold name_of in *. simpl. destruct (a_type a); simplify_eq. set_solver. }
  step. unfold backed_block_destroy, bind at 1. unfold bind at 1.
  rewrite (load_ok _ _ _ Hnew'). simpl. unfold name_of in Hname.
  destruct (a_type a); simplify_eq. simpl. unfold bind, free. by rewrite Hfree.
Qed.

(** ** Moving a run of nodes between lists *)

(** Where [move] links the run [seg], whose first block number is [k]: behind
    the first node, before the first later node with a larger number. *)
Fixpoint place (k : Z) (seg ys : list (loc * ablock)) : list (loc * ablock) :=
  match ys with
  | [] => seg
  | y :: ys' => if k <? a_block y.2 then seg ++ ys else y :: place k seg ys'
  end.

Definition move_into (k : Z) (seg ys : list (loc * ablock)) : list (loc * ablock) :=
  match ys with
  | [] => seg
  | y :: ys' => y :: place k seg ys'
  end.

Lemma place_split k seg ys :
  exists ys1 ys2, ys = ys1 ++ ys2 /\ place k seg ys = ys1 ++ seg ++ ys2 /\
    Forall (fun z => a_block z.2 <= k) ys1 /\
    (match ys2 with [] => True | z :: _ => k < a_block z.2 end).
Proof.
  induction ys as [|y ys (ys1 & ys2 & -> & E & H1 & H2)]; simpl.
  - exists [], []. simpl. rewrite app_nil_r. by split_and!.
  - destruct (Z.ltb_spec k (a_block y.2)).
    + by exists [], (y :: ys1 ++ ys2).
    + exists (y :: ys1), ys2. rewrite E. split_and!; [done..|by constructor|done].
Qed.

Lemma move_end_ok h e c xs : forall p fuel,
  lseg h p (xs ++ [(e, c)]) None -> (length xs < fuel)%nat ->
  move_end fuel p h = Ok (Some e, h).
Proof.
  induction xs as [|[x a] xs IH]; intros p fuel Hl Hf; destruct fuel as [|fuel];
    try (simpl in Hf; lia); destruct Hl as (-> & n & Hx & Hl); cbn [move_end]; step.
  - simpl in Hl. by subst.
  - cbn [bb_next node]. destruct n as [y|]; [by apply IH; [|simpl in *; lia]|].
    destruct xs as [|[??]?]; by destruct Hl.
Qed.

(** Unlinking the run that starts at [s] and is followed by [q]. *)
Lemma move_unlink_ok h y b s q : forall pre p fuel,
  lseg h p (pre ++ [(y, b)]) (Some s) -> (s ∉ pre.*1 ++ [y]) -> (length pre < fuel)%nat ->
  NoDup (pre ++ [(y, b)]).*1 ->
  move_unlink fuel p (Some s) q h = Ok (tt, heap_set h y (OBlock (node b q))).
Proof.
  induction pre as [|[x a] pre IH]; intros p fuel Hl Hs Hf Hnd; destruct fuel as [|fuel];
    try (simpl in Hf; lia); destruct Hl as (-> & n & Hx & Hl); cbn [move_unlink]; step.
  - simpl in Hl. subst. cbn [bb_next node]. rewrite decide_True by done.
    by eapply store_ok.
  - cbn [bb_next node]. rewrite decide_False; last first.
    { intros ->. destruct pre as [|[z d] pre]; destruct Hl as ([= ->] & _); set_solver. }
    apply IH; [done|set_solver|simpl in *; lia|]. by apply NoDup_cons in Hnd as [_ ?].
Qed.

(** Linking the run [s .. e] behind the node [y] of the target list. *)
Lemma move_link_ok h k y b ys2 s e c q : forall ys1 p fuel,
  lseg h p (ys1 ++ (y, b) :: ys2) None ->
  Forall (fun z => a_block z.2 <= k) (tail (ys1 ++ [(y, b)])) ->
  (match ys2 with [] => True | z :: _ => k < a_block z.2 end) ->
  cells h !! e = Some (OBlock (node c q)) -> e <> y -> (length ys1 < fuel)%nat ->
  exists h', move_link fuel p (Some s) (Some e) k h = Ok (tt, h') /\
    cells h' = <[y := OBlock (node b (Some s))]> (<[e := OBlock (node c (hd_loc ys2))]> (cells h)).
Proof.
  induction ys1 as [|[x a] ys1 IH]; intros p fuel Hl H1 H2 He Hey Hf; destruct fuel as [|fuel];
    try (simpl in Hf; lia); destruct Hl as (-> & n & Hx & Hl); cbn [move_link]; step.
  - erewrite (bind_Ok _ _ _ true); last first.
    { cbn [bb_next node]. destruct ys2 as [|[z d] ys2]; simpl in Hl; [by subst|].
      destruct Hl as (-> & n' & Hz & _). step. simpl in H2. simpl.
      by destruct (Z.ltb_spec k (a_block d)); [|lia]. }
    cbn beta match. step. step. erewrite bind_Ok; last first.
    { apply load_ok. simpl. by rewrite lookup_insert_ne. }
    eexists. split; [eapply store_ok; simpl; by rewrite lookup_insert_ne|].
    simpl. by rewrite (lseg_hd _ _ _ Hl).
  - simpl in H1.
    assert (exists z d r, ys1 ++ (y, b) :: ys2 = (z, d) :: r /\ a_block d <= k /\ n = Some z)
      as (z & d & r & E & Hd & ->).
    { destruct ys1 as [|[z d] ys1]; simpl in *; apply Forall_cons in H1 as [??];
        destruct Hl as (-> & _); eauto 10. }
    assert (exists n', cells h !! z = Some (OBlock (node d n'))) as [n' Hz].
    { rewrite E in Hl. destruct Hl as (_ & n' & ? & _). eauto. }
    erewrite (bind_Ok _ _ _ false); last first.
    { simpl. step. simpl. by destruct (Z.ltb_spec k (a_block d)); [lia|]. }
    cbn beta match. apply IH; try done; [|simpl in *; lia].
    destruct ys1; simpl in *; by apply Forall_cons in H1 as [_ ?].
Qed.

Lemma lseg_head_in h s xs q : lseg h (Some s) xs q -> xs <> [] -> s ∈ xs.*1.
Proof.
  destruct xs as [|[x a] xs]; [done|]. intros ([= ->] & _) _. rewrite fmap_cons.
  by apply elem_of_cons; left.
Qed.

Section Move.
Context (h : heap) (from to : backed_block_list).
Context (pre seg0 post ys : list (loc * ablock)) (e : loc) (c : ablock).
Notation seg := (seg0 ++ [(e, c)]).
Hypothesis Hfrom : bbl_ok h from (pre ++ seg ++ post).
Hypothesis Hto : bbl_ok h to ys.
Hypothesis Hdisj : forall l, l ∈ owned (pre ++ seg ++ post) -> l ∉ owned ys.

Lemma seg_cons : exists s a seg1, seg = (s, a) :: seg1.
Proof. destruct seg0 as [|[s a] ?]; eauto. Qed.

(** Taking the run out of [from]. *)
Lemma move_take s a seg1 :
  seg = (s, a) :: seg1 ->
  exists from1 h1,
    (if decide (data_blocks from = Some s)
     then ret (set_data_blocks (set_last_used from None) (hd_loc post))
     else move_unlink (S (size (cells h))) (data_blocks from) (Some s) (hd_loc post) ;;!
          ret (set_last_used from None)) h = Ok (from1, h1) /\
    lseg h1 (data_blocks from1) (pre ++ post) None /\ lseg h1 (Some s) seg (hd_loc post) /\
    last_used from1 = None /\ bbl_block_size from1 = bbl_block_size from /\
    (forall l, l ∉ pre.*1 -> cells h1 !! l = cells h !! l).
Proof using Hfrom.
  clear Hto Hdisj. intros Hseg. destruct Hfrom as [Hl Hnd _ _]. pose proof (lseg_length _ _ _ _ Hl Hnd) as Hlen.
  apply lseg_app in Hl as (m & Hpre & Hl). apply lseg_app in Hl as (q & Hs & Hpost).
  pose proof (lseg_hd _ _ _ Hpost) as Hq. subst q. rewrite !fmap_app in Hnd.
  assert (m = Some s) as -> by (rewrite Hseg in Hs; by destruct Hs as [-> _]).
  assert (Hs_in : s ∈ seg.*1) by (rewrite Hseg; set_solver).
  destruct pre as [|[y b] pre0 _] using rev_ind.
  - simpl in Hpre. rewrite decide_True by done. eexists _, h.
    split_and!; done.
  - rewrite decide_False; last first.
    { intros E. rewrite E in Hpre. apply NoDup_app in Hnd as (_ & Hd & _).
      apply (Hd s); [|by apply elem_of_app; left; rewrite <- fmap_app].
      eapply lseg_head_in; [done|]. by destruct pre0. }
    erewrite bind_Ok; last first.
    { apply (move_unlink_ok h y b s (hd_loc post) pre0); [done| | |by eapply NoDup_app_l].
      - apply NoDup_app in Hnd as (_ & Hd & _). intros Hin. apply (Hd s).
        + by rewrite fmap_app.
        + by apply elem_of_app; left; rewrite <- fmap_app.
      - rewrite !length_app in Hlen. simpl in Hlen. lia. }
    eexists _, _. split; [done|].
    assert (Hfr : forall l, l <> y -> cells (heap_set h y (OBlock (node b (hd_loc post)))) !! l = cells h !! l)
      by (intros; simpl; by rewrite lookup_insert_ne).
    apply NoDup_app in Hnd as (Hndp & Hd & Hnd2). rewrite !fmap_app in Hndp.
    assert (Hy : y ∉ pre0.*1) by (apply NoDup_app in Hndp as (_ & H1 & _); set_solver).
    assert (Hy2 : y ∉ seg.*1 ++ post.*1) by (rewrite (fmap_app _ seg0); apply Hd; rewrite fmap_app; apply elem_of_app; right; left).
    split_and!; [| |done|done|].
    + rewrite <- app_assoc. apply lseg_app in Hpre as (m & Hpre & -> & n & Hyc & ->).
      apply lseg_app_cons. exists (hd_loc post). simpl.
      split_and!; [|by rewrite lookup_insert_eq|]; (eapply lseg_frame; [|done]);
        intros l Hin; apply Hfr; set_solver.
    + eapply lseg_frame; [|done]. intros l Hin. apply Hfr. set_solver.
    + intros l Hin. apply Hfr. rewrite fmap_app in Hin. set_solver.
Qed.
End Move.

(** A run whose last link is redirected to [q']. *)
Lemma lseg_redirect h h' s seg0 e c q q' :
  lseg h s (seg0 ++ [(e, c)]) q -> (e ∉ seg0.*1) ->
  (forall l, l ∈ seg0.*1 -> cells h' !! l = cells h !! l) ->
  cells h' !! e = Some (OBlock (node c q')) ->
  lseg h' s (seg0 ++ [(e, c)]) q'.
Proof.
  intros Hl He Hf Hc. apply lseg_app in Hl as (m & H1 & -> & n & H2 & ->).
  apply lseg_app. exists (Some e). split; [by eapply lseg_frame|].
  split; [done|]. by exists q'.
Qed.

(** Linking the run into [to]. *)
Lemma move_put h fuel (from to : backed_block_list) seg0 e c q ys s a seg1 :
  lseg h (data_blocks to) ys None -> lseg h (Some s) (seg0 ++ [(e, c)]) q ->
  NoDup ((seg0 ++ [(e, c)]).*1 ++ ys.*1) -> seg0 ++ [(e, c)] = (s, a) :: seg1 ->
  (length ys < fuel)%nat ->
  exists to1 h2, (match data_blocks to with
    | None =>
      let! w := load (Some e) in
      store (Some e) (set_next w None) ;;! ret (from, set_data_blocks to (Some s))
    | Some _ =>
      let! w := load (Some s) in
      move_link fuel (data_blocks to) (Some s) (Some e) (bb_block w) ;;!
      ret (from, to)
    end) h = Ok ((from, to1), h2) /\
    lseg h2 (data_blocks to1) (move_into (a_block a) (seg0 ++ [(e, c)]) ys) None /\
    last_used to1 = last_used to /\ bbl_block_size to1 = bbl_block_size to /\
    (forall l, l ∉ (seg0 ++ [(e, c)]).*1 ++ ys.*1 -> cells h2 !! l = cells h !! l).
Proof.
  intros Hto Hs Hnd Hseg Hlen. rewrite fmap_app in Hnd. simpl in Hnd.
  assert (He : exists n, cells h !! e = Some (OBlock (node c n))).
  { apply lseg_app_cons in Hs as (n & _ & ? & _). eauto. }
  destruct He as [n He].
  assert (He0 : e ∉ seg0.*1).
  { apply NoDup_app_l, NoDup_app in Hnd as (_ & Hd & _). set_solver. }
  pose proof (lseg_hd _ _ _ Hto) as Ed. rewrite Ed.
  destruct ys as [|[t d] ts]; cbn [hd_loc move_into] in Ed |- *.
  - step. step. eexists _, _. split; [done|]. simpl. split_and!; [|done..|].
    + eapply lseg_redirect; [done|done| |by simpl; rewrite lookup_insert_eq].
      intros l Hl. simpl. rewrite lookup_insert_ne; [done|set_solver].
    + intros l Hl. rewrite lookup_insert_ne; [done|]. rewrite fmap_app in Hl. set_solver.
  - assert (Hsa : exists n', cells h !! s = Some (OBlock (node a n'))).
    { rewrite Hseg in Hs. destruct Hs as (_ & n' & ? & _). eauto. }
    destruct Hsa as [n' Hsa].
    destruct (place_split (a_block a) (seg0 ++ [(e, c)]) ts) as (ts1 & ts2 & -> & Ep & P1 & P2).
    rewrite Ep. clear Ep.
    assert (exists zs y b, (t, d) :: ts1 = zs ++ [(y, b)]) as (zs & y & b & Ez).
    { destruct ts1 as [|[y b] ts1 _] using rev_ind; [by exists [], t, d|].
      by exists ((t, d) :: ts1), y, b. }
    rewrite app_comm_cons in Hto, Hnd, Hlen |- *. rewrite Ez in *.
    rewrite <- !(app_assoc zs) in Hto, Hnd, Hlen |- *. cbn [app] in *.
    revert Hnd. rewrite !fmap_app, !fmap_cons. simpl. intros Hnd.
    assert (e <> y /\ (e ∉ zs.*1) /\ (e ∉ ts2.*1)) as (Hey & Hez & Het).
    { apply NoDup_app in Hnd as (_ & Hd & _). set_solver. }
    assert (Hy : (y ∉ seg0.*1) /\ (y ∉ zs.*1) /\ (y ∉ ts2.*1)).
    { rewrite app_assoc in Hnd. apply nodup_mid in Hnd as [Hy _]. set_solver. }
    step. cbn [bb_block node].
    destruct (move_link_ok h (a_block a) y b ts2 s e c n zs (Some t) fuel)
      as (h2 & Erun & C2); [by rewrite <- Ed|by rewrite <- Ez|done..| |].
    { rewrite length_app in Hlen. simpl in Hlen. lia. }
    rewrite (bind_Ok _ _ _ _ _ Erun). eexists _, _. split; [done|].
    assert (Hfr : forall l, l <> y -> l <> e -> cells h2 !! l = cells h !! l)
      by (intros; by rewrite C2, !lookup_insert_ne).
    apply lseg_app_cons in Hto as (m & Hz & Hyc & Ht2).
    pose proof (lseg_hd _ _ _ Ht2). subst m. split_and!; [|done..|].
    + apply lseg_app_cons. exists (Some s). split_and!.
      * eapply lseg_frame; [|done]. intros l Hl. apply Hfr; intros ->; tauto.
      * by rewrite C2, lookup_insert_eq.
      * apply lseg_app. exists (hd_loc ts2). split.
        -- eapply lseg_redirect; [done|done| |by rewrite C2, lookup_insert_ne, lookup_insert_eq].
           intros l Hl. apply Hfr; intros ->; tauto.
        -- eapply lseg_frame; [|done]. intros l Hl. apply Hfr; intros ->; tauto.
    + assert (Hyin : y ∈ ((t, d) :: ts1).*1)
        by (rewrite Ez, fmap_app; apply elem_of_app; right; left).
      rewrite fmap_cons, elem_of_cons in Hyin. simpl in Hyin.
      intros l Hl. apply Hfr; intros ->; apply Hl; revert Hyin; clear;
        rewrite ?elem_of_app, !elem_of_cons, ?fmap_app, ?elem_of_app; tauto.
Qed.

Lemma move_into_split k seg ys :
  exists ys1 ys2, ys = ys1 ++ ys2 /\ move_into k seg ys = ys1 ++ seg ++ ys2.
Proof.
  destruct ys as [|y ys]; [exists [], []; simpl; by rewrite app_nil_r|].
  destruct (place_split k seg ys) as (ys1 & ys2 & -> & E & _).
  exists (y :: ys1), ys2. simpl. by rewrite E.
Qed.

(** The start argument NULL stands for the head of [from], the end argument
    NULL for its last node. *)
Definition move_start (start : option loc) (s : loc) (pre : list (loc * ablock)) : Prop :=
  start = Some s \/ start = None /\ pre = [].
Definition move_stop (end_ : option loc) (e : loc) (post : list (loc * ablock)) : Prop :=
  end_ = Some e \/ end_ = None /\ post = [].

#[export] Instance names_Permutation : Proper ((≡ₚ) ==> (≡ₚ)) names.
Proof. intros xs xs' Hp. unfold names. by rewrite Hp. Qed.

(** The representation invariant of a list whose nodes are rearranged. *)
Lemma bbl_ok_intro h h' bbl xs xs1 xs2 :
  lseg h' (data_blocks bbl) xs None -> xs ≡ₚ xs1 ++ xs2 -> NoDup (xs1 ++ xs2).*1 ->
  NoDup (names (xs1 ++ xs2)) ->
  (forall f, f ∈ names (xs1 ++ xs2) -> exists s, cells h !! f = Some (OStr s)) ->
  (forall f, f ∈ names (xs1 ++ xs2) -> cells h' !! f = cells h !! f) ->
  bbl_ok h' bbl xs.
Proof.
  intros Hl Hp Hnd Hnm Hst Hfr.
  constructor; [done|by rewrite Hp|by rewrite Hp|].
  intros f. rewrite Hp. intros Hf. rewrite Hfr by done. auto.
Qed.

(** The arguments [move] works with after its defaults. *)
Lemma move_args h from pre seg0 e c post s a seg1 start end_ :
  lseg h (data_blocks from) (pre ++ (seg0 ++ [(e, c)]) ++ post) None ->
  (length seg0 <= size (cells h))%nat ->
  seg0 ++ [(e, c)] = (s, a) :: seg1 -> move_start start s pre -> move_stop end_ e post ->
  (match start with None => data_blocks from | Some _ => start end) = Some s /\
  (match end_ with None => move_end (S (size (cells h))) (Some s) | Some _ => ret end_ end) h =
    Ok (Some e, h) /\
  cells h !! e = Some (OBlock (node c (hd_loc post))).
Proof.
  intros Hl Hlen Hseg Hs He.
  apply lseg_app in Hl as (m & Hpre & Hl). apply lseg_app in Hl as (q & Hm & Hpost).
  pose proof (lseg_hd _ _ _ Hpost) as Hq. subst q.
  assert (m = Some s) as -> by (rewrite Hseg in Hm; by destruct Hm as [-> _]).
  split_and!.
  - destruct Hs as [->|[-> ->]]; done.
  - destruct He as [->|[-> ->]]; [done|]. apply (move_end_ok _ _ c seg0); [done|lia].
  - by apply lseg_app_cons in Hm as (n & _ & ? & <-).
Qed.

(** Two lists that own different objects, their nodes taken together. *)
Lemma move_regions h from to pre seg post ys :
  bbl_ok h from (pre ++ seg ++ post) -> bbl_ok h to ys ->
  (forall l, l ∈ owned (pre ++ seg ++ post) -> l ∉ owned ys) ->
  let all := (pre ++ post) ++ seg ++ ys in
  NoDup all.*1 /\ NoDup (names all) /\
  forall f, f ∈ names all -> (exists s, cells h !! f = Some (OStr s)) /\ f ∉ all.*1.
Proof.
  intros [L1 D1 N1 S1] [L2 D2 N2 S2] Hd all.
  assert (Hp : all ≡ₚ (pre ++ seg ++ post) ++ ys).
  { unfold all. rewrite !app_assoc, <- !(app_assoc pre). by rewrite (Permutation_app_comm post). }
  generalize dependent all. intros all Hp. unfold owned in Hd.
  split_and!.
  - rewrite Hp, fmap_app. apply NoDup_app. split_and!; [done| |done]. intros l H1 H2. apply (Hd l); apply elem_of_app; by left.
  - rewrite Hp, names_app. apply NoDup_app. split_and!; [done| |done]. intros l H1 H2. apply (Hd l); apply elem_of_app; by right.
  - intros f. rewrite Hp, names_app, fmap_app. intros Hf.
    assert (Hs : exists s, cells h !! f = Some (OStr s))
      by (apply elem_of_app in Hf as [?|?]; auto).
    split; [done|]. destruct Hs as [t Ht]. intros [Hin|Hin]%elem_of_app.
    + destruct (lseg_live _ _ _ _ _ L1 Hin). congruence.
    + destruct (lseg_live _ _ _ _ _ L2 Hin). congruence.
Qed.

(** [backed_block_list_move] takes the run from [start] to [end_] out of
    [from] and links it, in order, behind the first node of [to] and before the
    first later node with a larger block number; no node, name or byte is lost,
    and the [last_used] hints of both lists are reset. *)
Theorem backed_block_list_move_splices h from to pre seg0 e c post ys s a seg1 start end_ :
  let seg := seg0 ++ [(e, c)] in
  bbl_ok h from (pre ++ seg ++ post) -> bbl_ok h to ys ->
  (forall l, l ∈ owned (pre ++ seg ++ post) -> l ∉ owned ys) ->
  seg = (s, a) :: seg1 -> move_start start s pre -> move_stop end_ e post ->
  exists from' to' h', backed_block_list_move from to start end_ h = Ok ((from', to'), h') /\
    bbl_ok h' from' (pre ++ post) /\ bbl_ok h' to' (move_into (a_block a) seg ys) /\
    last_used from' = None /\ last_used to' = None /\
    bbl_block_size from' = bbl_block_size from /\ bbl_block_size to' = bbl_block_size to.
Proof.
  intros seg Hfrom Hto Hd Hseg Hs He.
  destruct (move_take h from pre seg0 post e c Hfrom s a seg1 Hseg)
    as (from1 & h1 & E1 & F1 & S1 & U1 & B1 & K1).
  pose proof Hfrom as [Hl Hnd Hnm Hst]. pose proof Hto as [Hl' Hnd' Hnm' Hst'].
  pose proof (lseg_length _ _ _ _ Hl Hnd) as Hlen. pose proof (lseg_length _ _ _ _ Hl' Hnd') as Hlen'.
  destruct (move_args h from pre seg0 e c post s a seg1 start end_ Hl) as (A1 & A2 & A3);
    [unfold seg in Hlen; rewrite !length_app in Hlen; lia|done..|].
  destruct (move_regions h from to pre seg post ys Hfrom Hto Hd) as (Nd & Nn & Hf).
  rewrite fmap_app in Nd. rewrite names_app in Nn.
  pose proof Nd as (Nd1 & Nd2 & Nd3)%NoDup_app. pose proof Nn as (Nn1 & _ & Nn3)%NoDup_app.
  assert (L1 : lseg h1 (data_blocks to) ys None).
  { eapply lseg_frame; [|done]. intros l Hin. apply K1. intros Hin'. apply (Nd2 l);
      rewrite !fmap_app; set_solver. }
  destruct (move_put h1 (S (size (cells h))) from1 (set_last_used to None) seg0 e c (hd_loc post) ys s a seg1)
    as (to1 & h2 & E2 & T2 & U2 & B2 & K2); [done|done|by rewrite <- fmap_app|done|lia|].
  assert (Kn : forall f, f ∈ names ((pre ++ post) ++ seg ++ ys) -> cells h2 !! f = cells h !! f).
  { intros f Hin. destruct (Hf f Hin) as [_ Hout]. rewrite !fmap_app in Hout.
    rewrite K2, K1; [done|set_solver|]. unfold seg in Hout. rewrite fmap_app in *. set_solver. }
  rewrite names_app in Kn, Hf.
  exists from1, to1, h2. split_and!; [| | |done|done|done|done].
  - unfold backed_block_list_move, walk_fuel. rewrite A1. step. rewrite (bind_Ok _ _ _ _ _ A2).
    cbn beta match. step. cbn [bb_next node]. by rewrite (bind_Ok _ _ _ _ _ E1).
  - eapply (bbl_ok_intro h); [|done|done|done| |].
    + eapply lseg_frame; [|done]. intros l Hin. apply K2. rewrite <- fmap_app. by apply Nd2.
    + intros f Hin. apply Hf. set_solver.
    + intros f Hin. apply Kn. set_solver.
  - eapply (bbl_ok_intro h _ _ _ seg ys); [done| |done|done| |].
    + destruct (move_into_split (a_block a) seg ys) as (ys1 & ys2 & -> & ->).
      rewrite !app_assoc. by rewrite (Permutation_app_comm ys1).
    + intros f Hin. apply Hf. set_solver.
    + intros f Hin. apply Kn. set_solver.
Qed.

(** ** Instances *)

(** Two lists of one block each: a fill block, and a block of a named file. *)
Definition ex_fill_block : ablock := ABlock 1 32 (BACKED_BLOCK_FILL 5).
Definition ex_file_block : ablock := ABlock 7 32 (BACKED_BLOCK_FILE (Some 3%positive) 0).
Definition ex_pair_heap : heap :=
  Heap {[ 1%positive := OBlock (node ex_fill_block None);
          2%positive := OBlock (node ex_file_block None);
          3%positive := OStr "system.img" ]} 4%positive 0.
Definition ex_fill_list : backed_block_list := BackedBlockList (Some 1%positive) None 16.
Definition ex_file_list : backed_block_list := BackedBlockList (Some 2%positive) None 16.

Lemma ex_fill_list_ok : bbl_ok ex_pair_heap ex_fill_list [(1%positive, ex_fill_block)].
Proof.
  constructor; simpl; [|repeat constructor; set_solver|constructor|intros f Hf; inversion Hf].
  split; [done|]. by exists None.
Qed.

Lemma ex_file_list_ok : bbl_ok ex_pair_heap ex_file_list [(2%positive, ex_file_block)].
Proof.
  constructor; simpl; [|repeat constructor; set_solver|repeat constructor; set_solver|].
  - split; [done|]. by exists None.
  - intros f ->%list_elem_of_singleton. by exists "system.img"%string.
Qed.

Lemma backed_block_split_preserves_image_witness :
  exists new h' xs',
    @backed_block_split bump_allocator ex_fill_list (Some 1%positive) 20 ex_pair_heap = Ok (0, h') /\
    xs' = [(1%positive, split_fst 16 ex_fill_block); (new, split_snd 16 16 ex_fill_block)] /\
    bbl_ok h' ex_fill_list xs'.
Proof.
  destruct (@backed_block_split_preserves_image bump_allocator ex_input ex_pair_heap ex_fill_list
    [] 1%positive ex_fill_block [] 20) as [[Hn _]|[(_ & Hm & _)|(_ & new & h' & xs' & E & X & B & _)]].
  - concrete.
  - concrete.
  - exact ex_fill_list_ok.
  - reflexivity.
  - constructor; simpl; repeat constructor; concrete.
  - vm_compute in Hn. by destruct Hn.
  - vm_compute in Hm. discriminate.
  - exists new, h', xs'. split_and!; assumption.
Defined.

Lemma split_file_block_double_free_witness :
  exists h', @backed_block_split bump_allocator ex_file_list (Some 2%positive) 16 ex_pair_heap = Ok (0, h') /\
    backed_block_list_destroy ex_file_list h' = UB.
Proof.
  apply (@split_file_block_double_free bump_allocator ex_pair_heap ex_file_list [] 2%positive
    ex_file_block [] 16 4%positive 3%positive).
  - reflexivity.
  - exact ex_file_list_ok.
  - reflexivity.
  - vm_compute. reflexivity.
  - reflexivity.
Defined.

Lemma backed_block_list_move_splices_witness :
  exists from' to' h',
    backed_block_list_move ex_file_list ex_fill_list None None ex_pair_heap = Ok ((from', to'), h') /\
    bbl_ok h' to' [(1%positive, ex_fill_block); (2%positive, ex_file_block)].
Proof.
  destruct (backed_block_list_move_splices ex_pair_heap ex_file_list ex_fill_list [] []
    2%positive ex_file_block [] [(1%positive, ex_fill_block)] 2%positive ex_file_block [] None None)
    as (from' & to' & h' & E & _ & B & _).
  - exact ex_file_list_ok.
  - exact ex_fill_list_ok.
  - unfold owned. simpl. set_solver.
  - reflexivity.
  - by right.
  - by right.
  - exists from', to', h'. split; assumption.
Defined.
