(* ===== verification/OutputFile.v ===== *)
(** * Output files (core/libsparse/output_file.c)

    An output file turns chunks into bytes and hands them to one of three
    back ends: a descriptor, a gzip stream, or a callback.  [P] is the private
    part of the back end together with the outside world it writes to; the
    kernel, zlib and the client's callback are parameters.  The [output_file]
    struct is threaded through the writers, the heap is needed only to open and
    close. *)

From S2P Require Import Prelude BackedBlock Crc32.

#[local] Open Scope Z_scope.
#[local] Open Scope c_scope.

(** What a [void *] points to: the byte at each offset. *)
Definition buffer : Type := Z -> byte.
Definition buf_of (l : list byte) : buffer := fun i => nth (Z.to_nat i) l Byte.x00.

(** ** The file format (sparse_format.h) *)

Definition SPARSE_HEADER_MAGIC : Z := 0xed26ff3a.
Definition SPARSE_HEADER_MAJOR_VER : Z := 1.
Definition SPARSE_HEADER_MINOR_VER : Z := 0.
Definition SPARSE_HEADER_LEN : Z := 28.
Definition CHUNK_HEADER_LEN : Z := 12.
Definition CHUNK_TYPE_RAW : Z := 0xCAC1.
Definition CHUNK_TYPE_FILL : Z := 0xCAC2.
Definition CHUNK_TYPE_DONT_CARE : Z := 0xCAC3.
Definition CHUNK_TYPE_CRC32 : Z := 0xCAC4.

Record sparse_header : Type := SparseHeader {
  magic : Z;
  major_version : Z;
  minor_version : Z;
  file_hdr_sz : Z;
  chunk_hdr_sz : Z;
  blk_sz : Z;
  total_blks : Z;
  total_chunks : Z;
  image_checksum : Z
}.

Record chunk_header : Type := ChunkHeader {
  chunk_type : Z;
  reserved1 : Z;
  chunk_sz : Z;
  total_sz : Z
}.

(** The structs as they lie in memory: packed, little-endian. *)
Definition sparse_header_bytes (h : sparse_header) : list byte :=
  le 4 (magic h) ++ le 2 (major_version h) ++ le 2 (minor_version h) ++
  le 2 (file_hdr_sz h) ++ le 2 (chunk_hdr_sz h) ++ le 4 (blk_sz h) ++
  le 4 (total_blks h) ++ le 4 (total_chunks h) ++ le 4 (image_checksum h).

Definition chunk_header_bytes (h : chunk_header) : list byte :=
  le 2 (chunk_type h) ++ le 2 (reserved1 h) ++ le 4 (chunk_sz h) ++ le 4 (total_sz h).

(** ** Back ends *)

Record output_file_ops (P : Type) : Type := OutputFileOps {
  ops_open : Z -> M P Z;
  ops_skip : Z -> M P Z;
  ops_pad : Z -> M P Z;
  ops_write : buffer -> Z -> M P Z;
  ops_close : M (heap * P) unit
}.
Arguments ops_open {P}.
Arguments ops_skip {P}.
Arguments ops_pad {P}.
Arguments ops_write {P}.
Arguments ops_close {P}.

(** The system calls on a descriptor: the returned value, and the new state. *)
Class Kernel (K : Type) : Type := {
  sys_write : Z -> list byte -> K -> Z * K;
  sys_lseek_cur : Z -> Z -> K -> Z * K;
  sys_ftruncate : Z -> Z -> K -> Z * K;
  sys_errno : K -> Z
}.

Section File.
Context {K : Type} `{Kernel K}.

Record output_file_normal : Type := OutputFileNormal { outn_fd : Z; outn_sys : K }.

(** A system call on the descriptor of the file. *)
Definition outn_call (f : Z -> K -> Z * K) : M output_file_normal Z := fun outn =>
  let '(r, k) := f (outn_fd outn) (outn_sys outn) in
  Ok (r, OutputFileNormal (outn_fd outn) k).

Definition file_open (fd : Z) : M output_file_normal Z := fun outn =>
  Ok (0, OutputFileNormal fd (outn_sys outn)).

Definition file_skip (cnt : Z) : M output_file_normal Z :=
  let! r := outn_call (fun fd => sys_lseek_cur fd cnt) in
  ret (if r <? 0 then -1 else 0).

Definition file_pad (len : Z) : M output_file_normal Z :=
  let! r := outn_call (fun fd => sys_ftruncate fd len) in
  let! e := gets (fun outn => sys_errno (outn_sys outn)) in
  ret (if i32 r <? 0 then - e else 0).

Definition file_write (data : buffer) (len : Z) : M output_file_normal Z :=
  let! r := outn_call (fun fd => sys_write fd (bytes_of data (u64 len))) in
  ret (if i32 r <? 0 then -1 else if i32 r <? len then -1 else 0).

Definition file_close : M (heap * output_file_normal) unit := on_fst free_struct.

Definition file_ops : output_file_ops output_file_normal :=
  OutputFileOps _ file_open file_skip file_pad file_write file_close.
End File.
Arguments output_file_normal : clear implicits.

Inductive whence : Set := SEEK_SET | SEEK_CUR | SEEK_END.

(** zlib's stream functions; a NULL [gzFile] may be passed to them. *)
Class Zlib (G K : Type) : Type := {
  gzdopen : Z -> K -> option G * K;
  gzseek : option G -> Z -> whence -> K -> Z * K;
  gztell : option G -> K -> Z * K;
  gzwrite : option G -> list byte -> K -> Z * K;
  gzclose : option G -> K -> K;
  gz_errno : K -> Z
}.

Section GzFile.
Context {G K : Type} `{Zlib G K}.

Record output_file_gz : Type := OutputFileGz { gz_fd : option G; gz_sys : K }.

Definition gz_call (f : option G -> K -> Z * K) : M output_file_gz Z := fun outgz =>
  let '(r, k) := f (gz_fd outgz) (gz_sys outgz) in
  Ok (r, OutputFileGz (gz_fd outgz) k).

Definition gz_file_open (fd : Z) : M output_file_gz Z := fun outgz =>
  let '(g, k) := gzdopen fd (gz_sys outgz) in
  Ok (match g with None => - gz_errno k | Some _ => 0 end, OutputFileGz g k).

Definition gz_file_skip (cnt : Z) : M output_file_gz Z :=
  let! r := gz_call (fun g => gzseek g cnt SEEK_CUR) in
  ret (if r <? 0 then -1 else 0).

Definition gz_file_pad (len : Z) : M output_file_gz Z :=
  let! r := gz_call gztell in
  if r <? 0 then ret (-1)
  else if len <=? r then ret 0
  else
    let! r := gz_call (fun g => gzseek g (i64 (len - 1)) SEEK_SET) in
    if r <? 0 then ret (-1)
    else gz_call (fun g => gzwrite g [Byte.x00]) ;;! ret 0.

Definition gz_file_write (data : buffer) (len : Z) : M output_file_gz Z :=
  let! r := gz_call (fun g => gzwrite g (bytes_of data (u32 len))) in
  ret (if r <? 0 then -1 else if r <? len then -1 else 0).

Definition gz_file_close : M (heap * output_file_gz) unit :=
  on_snd (fun outgz => Ok (tt, OutputFileGz (gz_fd outgz) (gzclose (gz_fd outgz) (gz_sys outgz)))) ;;!
  on_fst free_struct.

Definition gz_file_ops : output_file_ops output_file_gz :=
  OutputFileOps _ gz_file_open gz_file_skip gz_file_pad gz_file_write gz_file_close.
End GzFile.
Arguments output_file_gz : clear implicits.

Section CallbackFile.
Context {C : Type}.
(** The client's [write(priv, buf, len)]; the buffer is NULL in a skip. *)
Context (cb_write : option (list byte) -> Z -> C -> Z * C).

Definition cb_call (buf : option (list byte)) (len : Z) : M C Z := fun c => Ok (cb_write buf len c).

Definition callback_file_open (fd : Z) : M C Z := ret 0.

Fixpoint callback_skip_loop (fuel : nat) (off : Z) : M C Z :=
  if 0 <? off then
    match fuel with
    | O => no_fuel
    | S fuel =>
      let to_write := Z.min off INT_MAX in
      let! r := cb_call None to_write in
      if r <? 0 then ret r else callback_skip_loop fuel (off - to_write)
    end
  else ret 0.

Definition callback_file_skip (off : Z) : M C Z :=
  callback_skip_loop (S (Z.to_nat (off / INT_MAX))) off.

Definition callback_file_pad (len : Z) : M C Z := ret (-1).

Definition callback_file_write (data : buffer) (len : Z) : M C Z :=
  cb_call (Some (bytes_of data len)) len.

Definition callback_file_close : M (heap * C) unit := on_fst free_struct.

Definition callback_file_ops : output_file_ops C :=
  OutputFileOps _ callback_file_open callback_file_skip callback_file_pad
    callback_file_write callback_file_close.
End CallbackFile.

(** ** The output file *)

(** Which of the two [sparse_file_ops] tables is installed. *)
Inductive sparse_kind : Set := sparse_file_ops | normal_file_ops.

Record output_file : Type := OutputFile {
  cur_out_ptr : Z;
  chunk_cnt : Z;
  crc32 : Z;
  sparse_ops : sparse_kind;
  use_crc : bool;
  of_block_size : Z;
  of_len : Z;
  zero_buf : buffer;
  fill_buf : buffer
}.

Definition set_crc32 (o : output_file) (c : Z) : output_file :=
  OutputFile (cur_out_ptr o) (chunk_cnt o) c (sparse_ops o) (use_crc o)
    (of_block_size o) (of_len o) (zero_buf o) (fill_buf o).
Definition set_fill_buf (o : output_file) (b : buffer) : output_file :=
  OutputFile (cur_out_ptr o) (chunk_cnt o) (crc32 o) (sparse_ops o) (use_crc o)
    (of_block_size o) (of_len o) (zero_buf o) b.
Definition incr_chunk_cnt (o : output_file) : output_file :=
  OutputFile (cur_out_ptr o) (u32 (chunk_cnt o + 1)) (crc32 o) (sparse_ops o) (use_crc o)
    (of_block_size o) (of_len o) (zero_buf o) (fill_buf o).
(** [out->cur_out_ptr += n; out->chunk_cnt++] *)
Definition advance (o : output_file) (n : Z) : output_file :=
  OutputFile (i64 (cur_out_ptr o + n)) (u32 (chunk_cnt o + 1)) (crc32 o) (sparse_ops o)
    (use_crc o) (of_block_size o) (of_len o) (zero_buf o) (fill_buf o).

(** The inputs of the writers: the caller's memory, [mmap64] of a descriptor
    (an errno, or the mapped bytes) and [open] of a name (an errno, or a
    descriptor). *)
Class Env : Type := {
  env_mem : Z -> byte;
  env_mmap : Z -> Z -> Z -> Z + buffer;
  env_open : string -> Z + Z
}.

Section Writers.
Context {P : Type} (ops : output_file_ops P).

Notation ostate := (output_file * P)%type.

Definition out_ : M ostate output_file := gets fst.
Definition upd (f : output_file -> output_file) : M ostate unit := fun s => Ok (tt, (f s.1, s.2)).
Definition write_bytes (l : list byte) : M ostate Z :=
  on_snd (ops_write ops (buf_of l) (Z.of_nat (length l))).

(** *** Sparse format *)

Definition write_sparse_skip_chunk (skip_len : Z) : M ostate Z :=
  let! out := out_ in
  divisor (of_block_size out) ;;!
  if negb (Z.rem skip_len (of_block_size out) =? 0) then ret (-1)
  else
    let chunk_header := ChunkHeader CHUNK_TYPE_DONT_CARE 0
      (u32 (Z.quot skip_len (of_block_size out))) CHUNK_HEADER_LEN in
    let! r := write_bytes (chunk_header_bytes chunk_header) in
    if r <? 0 then ret (-1)
    else upd (fun out => advance out skip_len) ;;! ret 0.

(** [while (count--) out->crc32 = sparse_crc32(out->crc32, &fill_val, 4);] *)
Fixpoint fill_crc (count : nat) (fill_val : Z) (crc : Z) : Z :=
  match count with
  | O => crc
  | S count => fill_crc count fill_val (sparse_crc32 crc (le 4 fill_val))
  end.

Definition write_sparse_fill_chunk (len fill_val : Z) : M ostate Z :=
  let! out := out_ in
  divisor (of_block_size out) ;;!
  let rnd_up_len := i32 (ALIGN u32 len (of_block_size out)) in
  let chunk_header := ChunkHeader CHUNK_TYPE_FILL 0
    (u32 rnd_up_len / of_block_size out) (u32 (CHUNK_HEADER_LEN + 4)) in
  let! r := write_bytes (chunk_header_bytes chunk_header) in
  if r <? 0 then ret (-1)
  else
    let! r := write_bytes (le 4 fill_val) in
    if r <? 0 then ret (-1)
    else
      (if use_crc out
       then upd (fun out => set_crc32 out
              (fill_crc (Z.to_nat (of_block_size out / 4)) fill_val (crc32 out)))
       else ret tt) ;;!
      upd (fun out => advance out rnd_up_len) ;;!
      ret 0.

Definition write_sparse_data_chunk (len : Z) (data : buffer) : M ostate Z :=
  let! out := out_ in
  divisor (of_block_size out) ;;!
  let rnd_up_len := i32 (ALIGN u32 len (of_block_size out)) in
  let zero_len := i32 (u32 (rnd_up_len - len)) in
  let chunk_header := ChunkHeader CHUNK_TYPE_RAW 0
    (u32 rnd_up_len / of_block_size out) (u32 (CHUNK_HEADER_LEN + rnd_up_len)) in
  let! r := write_bytes (chunk_header_bytes chunk_header) in
  if r <? 0 then ret (-1)
  else
    let! r := on_snd (ops_write ops data (i32 len)) in
    if r <? 0 then ret (-1)
    else
      let! r := if zero_len =? 0 then ret 0
                else on_snd (ops_write ops (zero_buf out) zero_len) in
      if r <? 0 then ret (-1)
      else
        (if use_crc out
         then upd (fun out =>
                let crc := sparse_crc32 (crc32 out) (bytes_of data len) in
                set_crc32 out (if zero_len =? 0 then crc
                               else sparse_crc32 crc (bytes_of (zero_buf out) zero_len)))
         else ret tt) ;;!
        upd (fun out => advance out rnd_up_len) ;;!
        ret 0.

(** The result of the second write is not looked at. *)
Definition write_sparse_end_chunk : M ostate Z :=
  let! out := out_ in
  if use_crc out then
    let chunk_header := ChunkHeader CHUNK_TYPE_CRC32 0 0 (u32 (CHUNK_HEADER_LEN + 4)) in
    let! r := write_bytes (chunk_header_bytes chunk_header) in
    if r <? 0 then ret r
    else
      write_bytes (le 4 (crc32 out)) ;;!
      upd incr_chunk_cnt ;;!
      ret 0
  else ret 0.

(** *** Plain images *)

Definition write_normal_data_chunk (len : Z) (data : buffer) : M ostate Z :=
  let! out := out_ in
  divisor (of_block_size out) ;;!
  let rnd_up_len := ALIGN u32 len (of_block_size out) in
  let! r := on_snd (ops_write ops data (i32 len)) in
  if r <? 0 then ret r
  else if len <? rnd_up_len then on_snd (ops_skip ops (rnd_up_len - len))
  else ret r.

(** [for (i = 0; i < n; i++) fill_buf[i] = fill_val;] *)
Fixpoint fill_words (n : nat) (fill_val : Z) (b : buffer) : buffer :=
  match n with
  | O => b
  | S n => fun i => if i / 4 =? Z.of_nat n then nth (Z.to_nat (i mod 4)) (le 4 fill_val) Byte.x00
                    else fill_words n fill_val b i
  end.

Fixpoint normal_fill_loop (fuel : nat) (len : Z) : M ostate Z :=
  if len =? 0 then ret 0
  else
    match fuel with
    | O => no_fuel
    | S fuel =>
      let! out := out_ in
      let write_len := Z.min len (of_block_size out) in
      let! r := on_snd (ops_write ops (fill_buf out) (i32 write_len)) in
      if r <? 0 then ret r else normal_fill_loop fuel (u32 (len - write_len))
    end.

Definition write_normal_fill_chunk (len fill_val : Z) : M ostate Z :=
  upd (fun out => set_fill_buf out
    (fill_words (Z.to_nat (of_block_size out / 4)) fill_val (fill_buf out))) ;;!
  let! out := out_ in
  normal_fill_loop (S (Z.to_nat (len / of_block_size out))) len.

Definition write_normal_skip_chunk (len : Z) : M ostate Z := on_snd (ops_skip ops len).

Definition write_normal_end_chunk : M ostate Z :=
  let! out := out_ in on_snd (ops_pad ops (of_len out)).

(** *** Dispatch *)

Definition write_data_chunk (len : Z) (data : buffer) : M ostate Z :=
  let! out := out_ in
  match sparse_ops out with
  | sparse_file_ops => write_sparse_data_chunk len data
  | normal_file_ops => write_normal_data_chunk len data
  end.

Definition write_fill_chunk (len fill_val : Z) : M ostate Z :=
  let! out := out_ in
  match sparse_ops out with
  | sparse_file_ops => write_sparse_fill_chunk len fill_val
  | normal_file_ops => write_normal_fill_chunk len fill_val
  end.

Definition write_skip_chunk (len : Z) : M ostate Z :=
  let! out := out_ in
  match sparse_ops out with
  | sparse_file_ops => write_sparse_skip_chunk len
  | normal_file_ops => write_normal_skip_chunk len
  end.

Definition write_end_chunk : M ostate Z :=
  let! out := out_ in
  match sparse_ops out with
  | sparse_file_ops => write_sparse_end_chunk
  | normal_file_ops => write_normal_end_chunk
  end.

Definition write_fd_chunk `{Env} (len fd offset : Z) : M ostate Z :=
  let aligned_offset := Z.land offset (Z.lnot (4096 - 1)) in
  let aligned_diff := i32 (offset - aligned_offset) in
  let buffer_size := i32 (u32 (len + aligned_diff)) in
  match env_mmap (u64 buffer_size) fd aligned_offset with
  | inl errno => ret (- errno)
  | inr data => write_data_chunk len (fun i => data (aligned_diff + i))
  end.

Definition write_file_chunk `{Env} (len : Z) (file : string) (offset : Z) : M ostate Z :=
  match env_open file with
  | inl errno => ret (- errno)
  | inr file_fd => write_fd_chunk len file_fd offset
  end.

(** *** Opening and closing *)

Definition output_file_close : M (heap * ostate) unit :=
  on_snd write_end_chunk ;;!
  fun s => obind (ops_close ops (s.1, s.2.2)) (fun r => Ok (tt, (r.2.1, (s.2.1, r.2.2)))).

(** The header is written with the fields of the new [out]; on failure the
    buffers are released. *)
Definition output_file_init `{Allocator} (block_size len : Z) (sparse : bool) (chunks : Z) (crc : bool)
  : M (heap * P) (Z * output_file) :=
  let out := OutputFile 0 0 0 (if sparse then sparse_file_ops else normal_file_ops) crc
    (u32 block_size) len (fun _ => Byte.x00) (fun _ => Byte.x00) in
  let! zero := on_fst alloc_struct in
  if negb zero then ret (- ENOMEM, out)
  else
    let! fill := on_fst alloc_struct in
    if negb fill then on_fst free_struct ;;! ret (- ENOMEM, out)
    else if sparse then
      divisor (of_block_size out) ;;!
      let sparse_header := SparseHeader SPARSE_HEADER_MAGIC SPARSE_HEADER_MAJOR_VER
        SPARSE_HEADER_MINOR_VER SPARSE_HEADER_LEN CHUNK_HEADER_LEN (of_block_size out)
        (u32 (Z.quot (of_len out) (of_block_size out)))
        (if crc then u32 (u32 chunks + 1) else u32 chunks) 0 in
      let! r := on_snd (ops_write ops (buf_of (sparse_header_bytes sparse_header)) SPARSE_HEADER_LEN) in
      if r <? 0 then on_fst free_struct ;;! on_fst free_struct ;;! ret (r, out)
      else ret (0, out)
    else ret (0, out).

Definition output_file_open_callback `{Allocator} (block_size len : Z) (sparse : bool)
    (chunks : Z) (crc : bool) : M (heap * P) (option output_file) :=
  let! outc := on_fst alloc_struct in
  if negb outc then ret None
  else
    let! (r, out) := output_file_init block_size len sparse chunks crc in
    if r <? 0 then on_fst free_struct ;;! ret None else ret (Some out).

(** The result of [ops->open] is not looked at. *)
Definition output_file_open_fd `{Allocator} (fd block_size len : Z) (sparse : bool)
    (chunks : Z) (crc : bool) : M (heap * P) (option output_file) :=
  let! out := on_fst alloc_struct in
  if negb out then ret None
  else
    on_snd (ops_open ops fd) ;;!
    let! (r, out) := output_file_init block_size len sparse chunks crc in
    if r <? 0 then on_fst free_struct ;;! ret None else ret (Some out).

End Writers.
