(* ===== verification/Sparse.v ===== *)
(** * Sparse files (core/libsparse/sparse.c)

    A sparse file is a block size, a length and a backed block list.  It is
    written chunk by chunk through an output file, measured by writing it to a
    counter, and cut into pieces of a bounded size.  The functions run on the
    C heap and the output file's state together. *)

From S2P Require Import Prelude BackedBlock Crc32 OutputFile.

#[local] Open Scope Z_scope.
#[local] Open Scope c_scope.

Record sparse_file : Type := SparseFile {
  s_block_size : Z;
  s_len : Z;
  verbose : bool;
  s_list : backed_block_list
}.

Definition set_list (s : sparse_file) (l : backed_block_list) : sparse_file :=
  SparseFile (s_block_size s) (s_len s) (verbose s) l.

Definition sparse_file_verbose (s : sparse_file) : sparse_file :=
  SparseFile (s_block_size s) (s_len s) true (s_list s).

Section Sparse.
Context `{Allocator} `{Env}.

(** [backed_block_list_new] never returns NULL, so the check of its result is
    never taken. *)
Definition sparse_file_new (block_size len : Z) : M heap (option sparse_file) :=
  let! s := alloc_struct in
  if negb s then ret None
  else
    let! bbl := backed_block_list_new block_size in
    ret (Some (SparseFile block_size len false bbl)).

Definition sparse_file_destroy (s : sparse_file) : M heap unit :=
  backed_block_list_destroy (s_list s) ;;! free_struct.

Definition sparse_file_add_data (s : sparse_file) (data len block : Z) : M heap (Z * sparse_file) :=
  let! (r, l) := backed_block_add_data (s_list s) data len block in ret (r, set_list s l).
Definition sparse_file_add_fill (s : sparse_file) (fill_val len block : Z) : M heap (Z * sparse_file) :=
  let! (r, l) := backed_block_add_fill (s_list s) fill_val len block in ret (r, set_list s l).
Definition sparse_file_add_file (s : sparse_file) (filename : string) (file_offset len block : Z)
  : M heap (Z * sparse_file) :=
  let! (r, l) := backed_block_add_file (s_list s) filename file_offset len block in
  ret (r, set_list s l).
Definition sparse_file_add_fd (s : sparse_file) (fd file_offset len block : Z)
  : M heap (Z * sparse_file) :=
  let! (r, l) := backed_block_add_fd (s_list s) fd file_offset len block in
  ret (r, set_list s l).

(** ** Counting chunks *)

Fixpoint count_loop (s : sparse_file) (fuel : nat) (bb : option loc) (last_block chunks : Z)
  : M heap (Z * Z) :=
  match bb with
  | None => ret (last_block, chunks)
  | Some _ =>
    match fuel with
    | O => no_fuel
    | S fuel =>
      let! b := load bb in
      let chunks := if last_block <? backed_block_block b then u32 (chunks + 1) else chunks in
      let chunks := u32 (chunks + 1) in
      divisor (s_block_size s) ;;!
      let last_block :=
        u32 (backed_block_block b + DIV_ROUND_UP u32 (backed_block_len b) (s_block_size s)) in
      let! bb := backed_block_iter_next bb in
      count_loop s fuel bb last_block chunks
    end
  end.

Definition sparse_count_chunks (s : sparse_file) : M heap Z :=
  let! fuel := walk_fuel in
  let! (last_block, chunks) := count_loop s fuel (backed_block_iter_new (s_list s)) 0 0 in
  divisor (s_block_size s) ;;!
  ret (if last_block <? DIV_ROUND_UP i64 (s_len s) (s_block_size s) then u32 (chunks + 1)
       else chunks).

(** ** Writing *)

Section Write.
Context {P : Type} (ops : output_file_ops P).
Notation state := (heap * (output_file * P))%type.

Definition sparse_file_write_block (bb : option loc) : M state Z :=
  let! b := on_fst (load bb) in
  match bb_type b with
  | BACKED_BLOCK_DATA _ =>
    let! data := lift (backed_block_data b) in
    on_snd (write_data_chunk ops (backed_block_len b) (fun i => env_mem (data + i)))
  | BACKED_BLOCK_FILE _ _ =>
    let! filename := lift (backed_block_filename b) in
    let! offset := lift (backed_block_file_offset b) in
    let! name := on_fst (load_str filename) in
    on_snd (write_file_chunk ops (backed_block_len b) name offset)
  | BACKED_BLOCK_FD _ _ =>
    let! fd := lift (backed_block_fd b) in
    let! offset := lift (backed_block_file_offset b) in
    on_snd (write_fd_chunk ops (backed_block_len b) fd offset)
  | BACKED_BLOCK_FILL _ =>
    let! v := lift (backed_block_fill_val b) in
    on_snd (write_fill_chunk ops (backed_block_len b) v)
  end.

(** The skip chunks' results are not looked at; a block's nonzero result ends
    the loop. *)
Fixpoint write_loop (s : sparse_file) (fuel : nat) (bb : option loc) (last_block : Z)
  : M state (Z * Z) :=
  match bb with
  | None => ret (0, last_block)
  | Some _ =>
    match fuel with
    | O => no_fuel
    | S fuel =>
      let! b := on_fst (load bb) in
      (if last_block <? backed_block_block b
       then on_snd (write_skip_chunk ops
              (i64 (u32 (backed_block_block b - last_block) * s_block_size s)))
       else ret 0) ;;!
      let! r := sparse_file_write_block bb in
      if negb (r =? 0) then ret (r, last_block)
      else
        divisor (s_block_size s) ;;!
        let last_block :=
          u32 (backed_block_block b + DIV_ROUND_UP u32 (backed_block_len b) (s_block_size s)) in
        let! bb := on_fst (backed_block_iter_next bb) in
        write_loop s fuel bb last_block
    end
  end.

Definition write_all_blocks (s : sparse_file) : M state Z :=
  let! fuel := on_fst walk_fuel in
  let! (r, last_block) := write_loop s fuel (backed_block_iter_new (s_list s)) 0 in
  if negb (r =? 0) then ret r
  else
    let pad := i64 (s_len s - i64 (last_block * s_block_size s)) in
    assert (0 <=? pad) ;;!
    (if 0 <? pad then on_snd (write_skip_chunk ops pad) else ret 0) ;;!
    ret 0.

(** Writes the blocks to the open file [out] and closes it. *)
Definition write_and_close (s : sparse_file) (out : output_file) : M (heap * P) Z := fun st =>
  obind ((let! r := write_all_blocks s in output_file_close ops ;;! ret r) (st.1, (out, st.2)))
    (fun r => Ok (r.1, (r.2.1, r.2.2.2))).

(** [ops] is [gz_file_ops] when [gz] is set and [file_ops] otherwise. *)
Definition sparse_file_write (s : sparse_file) (fd : Z) (sparse crc : bool) : M (heap * P) Z :=
  let! chunks := on_fst (sparse_count_chunks s) in
  let! out := output_file_open_fd ops fd (s_block_size s) (s_len s) sparse (i32 chunks) crc in
  match out with
  | None => ret (- ENOMEM)
  | Some out => write_and_close s out
  end.
End Write.

Definition sparse_file_callback {C} (s : sparse_file) (sparse crc : bool)
    (write : option (list byte) -> Z -> C -> Z * C) : M (heap * C) Z :=
  let ops := callback_file_ops write in
  let! chunks := on_fst (sparse_count_chunks s) in
  let! out := output_file_open_callback ops (s_block_size s) (s_len s) sparse (i32 chunks) crc in
  match out with
  | None => ret (- ENOMEM)
  | Some out => write_and_close ops s out
  end.

(** ** Measuring *)

Definition out_counter_write (data : option (list byte)) (len : Z) (count : Z) : Z * Z :=
  (0, i64 (count + len)).

Definition counter_ops : output_file_ops Z := callback_file_ops out_counter_write.

Definition sparse_file_len (s : sparse_file) (sparse crc : bool) : M heap Z :=
  let! chunks := sparse_count_chunks s in
  fun h =>
    do! r := (let! out := output_file_open_callback counter_ops (s_block_size s) (s_len s)
                sparse (i32 chunks) crc in
              match out with
              | None => ret (-1)
              | Some out =>
                let! r := write_and_close counter_ops s out in
                if r <? 0 then ret (-1) else gets snd
              end) (h, 0) in
    Ok (r.1, r.2.1).

(** ** Resparsing *)

(** [sizeof(sparse_header_t) + 2 * sizeof(chunk_header_t) + sizeof(uint32_t)] *)
Definition resparse_overhead : Z := 28 + 2 * 12 + 4.

(** The loop of [move_chunks_up_to_len]: the first block of the next piece, or
    NULL, and the last node to move; [None] when writing a block failed. *)
Fixpoint fit_loop (from to : sparse_file) (len : Z) (fuel : nat) (bb last_bb : option loc)
    (last_block file_len : Z) : M (heap * (output_file * Z)) (option (option loc * option loc)) :=
  match bb with
  | None => ret (Some (None, last_bb))
  | Some _ =>
    match fuel with
    | O => no_fuel
    | S fuel =>
      let! b := on_fst (load bb) in
      (fun st => Ok (tt, (st.1, (st.2.1, if last_block <? backed_block_block b then 12 else 0)))) ;;!
      divisor (s_block_size to) ;;!
      let last_block :=
        u32 (backed_block_block b + DIV_ROUND_UP u32 (backed_block_len b) (s_block_size to)) in
      let! r := sparse_file_write_block counter_ops bb in
      if negb (r =? 0) then ret None
      else
        let! count := gets (fun st => st.2.2) in
        if len <? i64 (file_len + count) then
          let file_len := i64 (file_len + 12) in
          if negb (isSome last_bb) || (len / 8 <? i64 (len - file_len)) then
            on_fst (backed_block_split (s_list from) bb (u32 (len - file_len))) ;;!
            ret (Some (bb, bb))
          else ret (Some (bb, last_bb))
        else
          let! next := on_fst (backed_block_iter_next bb) in
          fit_loop from to len fuel next bb last_block (i64 (file_len + count))
    end
  end.

(** Moves the blocks that fit into [len] bytes from [from] to [to]; a block that
    does not fit is split when that is worth it.  Returns the block it stopped
    at. *)
Definition move_chunks_up_to_len (from to : sparse_file) (len : Z)
  : M heap (option loc * (sparse_file * sparse_file)) := fun h =>
  let len := u32 (len - resparse_overhead) in
  let start := backed_block_iter_new (s_list from) in
  do! r := output_file_open_callback counter_ops (s_block_size to) (s_len to) true 0 false (h, 0) in
  let '(out, (h, count)) := r in
  match out with
  | None => Ok ((None, (from, to)), h)
  | Some out =>
    do! r := (let! fuel := on_fst walk_fuel in
              let! fit := fit_loop from to len fuel start None 0 0 in
              let! res :=
                match fit with
                | None => ret (None, (from, to))
                | Some (bb, last_bb) =>
                  let! (lf, lt) := on_fst (backed_block_list_move (s_list from) (s_list to) start last_bb) in
                  ret (bb, (set_list from lf, set_list to lt))
                end in
              output_file_close counter_ops ;;!
              ret res) (h, (out, count)) in
    Ok (r.1, r.2.1)
  end.

(** The [do] loop: the pieces go to [out_s] while there is room, the rest is
    collected in [tmp]. *)
Fixpoint resparse_loop (fuel : nat) (in_s tmp : sparse_file) (max_len out_s_count c : Z)
    (out_s : list sparse_file) : M heap (Z * (list sparse_file * (sparse_file * sparse_file))) :=
  match fuel with
  | O => no_fuel
  | S fuel =>
    let! s := sparse_file_new (s_block_size in_s) (s_len in_s) in
    match s with
    | None => undef
    | Some s =>
      let! (bb, (in_s, s)) := move_chunks_up_to_len in_s s max_len in
      let! (out_s, tmp) :=
        if c <? out_s_count then ret (out_s ++ [s], tmp)
        else
          let! (ls, lt) := backed_block_list_move (s_list s) (s_list tmp) None None in
          sparse_file_destroy (set_list s ls) ;;!
          ret (out_s, set_list tmp lt) in
      let c := i32 (c + 1) in
      match bb with
      | None => ret (c, (out_s, (in_s, tmp)))
      | Some _ => resparse_loop fuel in_s tmp max_len out_s_count c out_s
      end
    end
  end.

(** Returns the number of pieces, the pieces stored in [out_s], and [in_s]. *)
Definition sparse_file_resparse (fuel : nat) (in_s : sparse_file) (max_len out_s_count : Z)
  : M heap (Z * (list sparse_file * sparse_file)) :=
  let! tmp := sparse_file_new (s_block_size in_s) (s_len in_s) in
  match tmp with
  | None => ret (- ENOMEM, ([], in_s))
  | Some tmp =>
    let! (c, (out_s, (in_s, tmp))) := resparse_loop fuel in_s tmp max_len out_s_count 0 [] in
    let! (lt, li) := backed_block_list_move (s_list tmp) (s_list in_s) None None in
    sparse_file_destroy (set_list tmp lt) ;;!
    ret (c, (out_s, set_list in_s li))
  end.

End Sparse.
