(* ===== verification/SparseFormat.v ===== *)
(** * The sparse image format

    A sparse image as a list of chunks: the chunks that a backed block list is
    written as, the bytes of each chunk, and the checksum the writer keeps.
    This is the contract between the writer (sparse.c, output_file.c) and the
    reader (sparse_read.c). *)

From S2P Require Import Prelude BackedBlock BackedBlockRefine BlockImage Crc32 OutputFile.

#[local] Open Scope Z_scope.

(** A chunk covers [n] blocks of the image. *)
Inductive chunk : Type :=
| Raw (n : Z) (data : list byte)
| Fill (n : Z) (v : Z)
| DontCare (n : Z)
| CrcChunk (v : Z).

Definition chunk_blocks (c : chunk) : Z :=
  match c with Raw n _ | Fill n _ | DontCare n => n | CrcChunk _ => 0 end.

Definition chunk_head (bs : Z) (c : chunk) : chunk_header :=
  match c with
  | Raw n _ => ChunkHeader CHUNK_TYPE_RAW 0 n (CHUNK_HEADER_LEN + n * bs)
  | Fill n _ => ChunkHeader CHUNK_TYPE_FILL 0 n (CHUNK_HEADER_LEN + 4)
  | DontCare n => ChunkHeader CHUNK_TYPE_DONT_CARE 0 n CHUNK_HEADER_LEN
  | CrcChunk _ => ChunkHeader CHUNK_TYPE_CRC32 0 0 (CHUNK_HEADER_LEN + 4)
  end.

Definition chunk_body (c : chunk) : list byte :=
  match c with
  | Raw _ data => data
  | Fill _ v | CrcChunk v => le 4 v
  | DontCare _ => []
  end.

Definition chunk_bytes (bs : Z) (c : chunk) : list byte :=
  chunk_header_bytes (chunk_head bs c) ++ chunk_body c.

Definition chunks_bytes (bs : Z) (cs : list chunk) : list byte :=
  concat (chunk_bytes bs <$> cs).

(** The header of an image of [len] bytes in [n] chunks. *)
Definition image_header (bs len n : Z) : sparse_header :=
  SparseHeader SPARSE_HEADER_MAGIC SPARSE_HEADER_MAJOR_VER SPARSE_HEADER_MINOR_VER
    SPARSE_HEADER_LEN CHUNK_HEADER_LEN bs (len / bs) n 0.

Definition image_bytes (bs len : Z) (cs : list chunk) : list byte :=
  sparse_header_bytes (image_header bs len (Z.of_nat (length cs))) ++ chunks_bytes bs cs.

(** The writer's running checksum: of a fill chunk it takes one block only, and
    of a don't-care chunk nothing. *)
Definition chunk_crc (bs : Z) (c : chunk) (crc : Z) : Z :=
  match c with
  | Raw _ data => sparse_crc32 crc data
  | Fill _ v => fill_crc (Z.to_nat (bs / 4)) v crc
  | DontCare _ | CrcChunk _ => crc
  end.

Definition chunks_crc (bs : Z) (cs : list chunk) (crc : Z) : Z :=
  foldl (fun crc c => chunk_crc bs c crc) crc cs.

(** ** The plain image *)

(** The bytes a chunk stands for; those of a don't-care chunk are zero. *)
Definition chunk_expand (bs : Z) (c : chunk) : list byte :=
  match c with
  | Raw _ data => data
  | Fill n v => bytes_of (fill_byte v) (n * bs)
  | DontCare n => bytes_of (fun _ => Byte.x00) (n * bs)
  | CrcChunk _ => []
  end.

(** What each kind of output file writes for a chunk, and how it updates the
    checksum. *)
Definition enc (k : sparse_kind) (bs : Z) (c : chunk) : list byte :=
  match k with sparse_file_ops => chunk_bytes bs c | normal_file_ops => chunk_expand bs c end.
Definition encs (k : sparse_kind) (bs : Z) (cs : list chunk) : list byte :=
  concat (enc k bs <$> cs).
Definition enc_crc (k : sparse_kind) (bs : Z) (c : chunk) (crc : Z) : Z :=
  match k with sparse_file_ops => chunk_crc bs c crc | normal_file_ops => crc end.
Definition encs_crc (k : sparse_kind) (bs : Z) (cs : list chunk) (crc : Z) : Z :=
  foldl (fun crc c => enc_crc k bs c crc) crc cs.

(** ** The chunks of a block list *)

(** The blocks [a] takes in an image: the last of them may be filled in part. *)
Definition extent (bs : Z) (a : ablock) : Z := (a_len a + bs - 1) / bs.

(** The first [len] bytes of [f], and zeros behind them. *)
Definition padded (f : Z -> byte) (len i : Z) : byte := if i <? len then f i else Byte.x00.

Section Plan.
Context (E : input) (bs : Z).

Definition block_chunk (a : ablock) : chunk :=
  match a_type a with
  | BACKED_BLOCK_FILL v => Fill (extent bs a) v
  | t => Raw (extent bs a) (bytes_of (padded (type_byte E t) (a_len a)) (extent bs a * bs))
  end.

(** The gap before block number [k] when the blocks written end at [last]. *)
Definition gap (last k : Z) : list chunk := if last <? k then [DontCare (k - last)] else [].

(** The chunks of [l], with the blocks before [last] already written, in an
    image of [total] blocks. *)
Fixpoint plan (last : Z) (l : list ablock) (total : Z) : list chunk :=
  match l with
  | [] => gap last total
  | a :: l => gap last (a_block a) ++ block_chunk a :: plan (a_block a + extent bs a) l total
  end.

(** Where the blocks of [l] end. *)
Fixpoint plan_end (last : Z) (l : list ablock) : Z :=
  match l with
  | [] => last
  | a :: l => plan_end (a_block a + extent bs a) l
  end.

Lemma gap_nil k : gap k k = [].
Proof. unfold gap. by rewrite Z.ltb_irrefl. Qed.

Lemma plan_split last l total :
  plan last l total = plan last l (plan_end last l) ++ gap (plan_end last l) total.
Proof.
  revert last. induction l as [|a l IH]; intros last; cbn [plan plan_end].
  - by rewrite gap_nil.
  - rewrite IH at 1. by rewrite <- app_assoc.
Qed.
End Plan.

(** All chunks of a file of [len] bytes, the checksum included. *)
Definition file_chunks (E : input) (bs len : Z) (l : list ablock) (crc : bool) : list chunk :=
  let cs := plan E bs 0 l (len / bs) in
  if crc then cs ++ [CrcChunk (chunks_crc bs cs 0)] else cs.

(** A raw chunk's length is passed as an [int]. *)
Definition writable (bs : Z) (a : ablock) : Prop :=
  match a_type a with
  | BACKED_BLOCK_FILL _ => a_len a + bs <= 2 ^ 32
  | _ => a_len a + bs + 4096 <= 2 ^ 31
  end.

(** A block of any length, whole or not. *)
Record placed (bs : Z) (a : ablock) : Prop := {
  pl_block : 0 <= a_block a;
  pl_len : 0 < a_len a < 2 ^ 32;
  pl_last : a_block a + extent bs a < 2 ^ 32;
  pl_type : type_wf (a_type a) (a_len a)
}.

Definition in_front (bs : Z) (a b : ablock) : Prop := a_block a + extent bs a <= a_block b.

(** A sparse file whose blocks are in order and fit an image of [len] bytes. *)
Record image_ok (bs len : Z) (l : list ablock) : Prop := {
  im_bs : block_size_ok bs;
  im_placed : Forall (placed bs) l;
  im_order : StronglySorted (in_front bs) l;
  im_writable : Forall (writable bs) l;
  im_align : len = len / bs * bs;
  im_total : 0 <= len / bs < 2 ^ 32 - 1;
  im_len : len + bs <= 2 ^ 63;
  im_inside : Forall (fun a => a_block a + extent bs a <= len / bs) l
}.

(** [a] has no partial block; only fills need not have one. *)
Definition whole (bs : Z) (a : ablock) : Prop := a_len a = extent bs a * bs.
Definition whole_fill (bs : Z) (a : ablock) : Prop :=
  match a_type a with BACKED_BLOCK_FILL _ => whole bs a | _ => True end.

Lemma extent_bounds bs a : 0 < bs -> extent bs a * bs - bs < a_len a <= extent bs a * bs.
Proof.
  intros Hbs. unfold extent. pose proof (Z.div_mod (a_len a + bs - 1) bs ltac:(lia)).
  pose proof (Z.mod_pos_bound (a_len a + bs - 1) bs Hbs). lia.
Qed.

Lemma extent_pos bs a : 0 < bs -> 0 < a_len a -> 0 < extent bs a.
Proof. intros Hbs Hl. pose proof (extent_bounds bs a Hbs). nia. Qed.

(** The lists that the functions of backed_block.c build have whole blocks. *)
Lemma extent_blocks bs a : 0 < bs -> ablock_wf bs a -> extent bs a = blocks bs a.
Proof.
  intros Hbs Ha. unfold extent. rewrite (wf_align _ _ Ha) at 1. rewrite Z.mul_comm. by apply div_round_up_mul.
Qed.

Lemma layout_image_ok bs len l :
  block_size_ok bs -> layout_ok bs l -> Forall (writable bs) l -> len = len / bs * bs ->
  0 <= len / bs < 2 ^ 32 - 1 -> len + bs <= 2 ^ 63 -> Forall (fun a => a_block a + blocks bs a <= len / bs) l ->
  image_ok bs len l /\ Forall (whole bs) l.
Proof.
  intros Hbs [Hw Hs] Hwr Hal Ht Hlen Hin. destruct Hbs as [Hb H4].
  assert (Hext : forall a, a ∈ l -> extent bs a = blocks bs a).
  { intros a Ha. rewrite Forall_forall in Hw. apply extent_blocks; [lia|by apply Hw]. }
  split; [constructor; try done|]; rewrite Forall_forall in *.
  - intros a Ha. destruct (Hw a Ha). constructor; [done..| |done]. by rewrite Hext.
  - clear - Hs Hext. induction Hs as [|a l Hs IH Ha]; constructor.
    + apply IH. intros b Hb. apply Hext. by right.
    + eapply Forall_impl; [exact Ha|]. intros b. unfold before, in_front. rewrite Hext; [done|by left].
  - intros a Ha. rewrite Hext by done. by apply Hin.
  - intros a Ha. unfold whole. rewrite Hext by done. apply (Hw a Ha).
Qed.

(** ** Sizes *)

Lemma length_chunk_header_bytes h : length (chunk_header_bytes h) = 12%nat.
Proof. unfold chunk_header_bytes. by rewrite !length_app, !length_le. Qed.

Lemma length_sparse_header_bytes h : length (sparse_header_bytes h) = 28%nat.
Proof. unfold sparse_header_bytes. by rewrite !length_app, !length_le. Qed.

#[export] Hint Rewrite length_chunk_header_bytes length_sparse_header_bytes : cdb.

Lemma chunks_bytes_app bs cs1 cs2 :
  chunks_bytes bs (cs1 ++ cs2) = chunks_bytes bs cs1 ++ chunks_bytes bs cs2.
Proof. unfold chunks_bytes. by rewrite fmap_app, concat_app. Qed.

Lemma chunks_bytes_cons bs c cs :
  chunks_bytes bs (c :: cs) = chunk_bytes bs c ++ chunks_bytes bs cs.
Proof. done. Qed.

Lemma encs_app k bs cs1 cs2 : encs k bs (cs1 ++ cs2) = encs k bs cs1 ++ encs k bs cs2.
Proof. unfold encs. by rewrite fmap_app, concat_app. Qed.

Lemma encs_crc_app k bs cs1 cs2 crc :
  encs_crc k bs (cs1 ++ cs2) crc = encs_crc k bs cs2 (encs_crc k bs cs1 crc).
Proof. unfold encs_crc. by rewrite foldl_app. Qed.

Lemma encs_sparse bs cs : encs sparse_file_ops bs cs = chunks_bytes bs cs.
Proof. done. Qed.

Lemma chunks_crc_app bs cs1 cs2 crc :
  chunks_crc bs (cs1 ++ cs2) crc = chunks_crc bs cs2 (chunks_crc bs cs1 crc).
Proof. unfold chunks_crc. by rewrite foldl_app. Qed.

(** Every chunk of a plan covers at least one block, and together they cover the
    image. *)
Lemma plan_blocks E bs l total : forall last,
  0 < bs -> Forall (placed bs) l -> StronglySorted (in_front bs) l ->
  Forall (fun a => a_block a + extent bs a <= total) l ->
  Forall (fun a => last <= a_block a) l -> last <= total ->
  Forall (fun c => 0 < chunk_blocks c) (plan E bs last l total) /\
  foldr (fun c n => chunk_blocks c + n) 0 (plan E bs last l total) = total - last.
Proof.
  induction l as [|a l IH]; intros last Hbs Hw Hs Hin Hlast Ht; cbn [plan].
  - unfold gap. destruct (Z.ltb_spec last total); simpl; [|split; [done|lia]].
    split; [by repeat constructor; simpl; lia|lia].
  - apply Forall_cons in Hw as [Ha Hw]. apply StronglySorted_cons in Hs as [Hb Hs].
    apply Forall_cons in Hin as [Hia Hin]. apply Forall_cons in Hlast as [Hla _].
    destruct (IH (a_block a + extent bs a)) as [H1 H2]; try done.
    pose proof (extent_pos bs a Hbs (proj1 (pl_len _ _ Ha))).
    assert (Hc : chunk_blocks (block_chunk E bs a) = extent bs a)
      by (unfold block_chunk; by destruct (a_type a)).
    rewrite foldr_app. cbn [foldr]. rewrite H2, Hc.
    unfold gap. destruct (Z.ltb_spec last (a_block a)); simpl; split; try lia.
    + constructor; [simpl; lia|]. constructor; [lia|done].
    + constructor; [lia|done].
Qed.

(** So there are no more chunks than blocks. *)
Lemma length_le_sum cs :
  Forall (fun c => 0 < chunk_blocks c) cs ->
  Z.of_nat (length cs) <= foldr (fun c n => chunk_blocks c + n) 0 cs.
Proof. induction 1 as [|c cs Hc _ IH]; cbn [length foldr]; lia. Qed.

Lemma plan_end_bound bs l total : forall last,
  Forall (placed bs) l -> 0 < bs -> 0 <= last <= total ->
  Forall (fun a => a_block a + extent bs a <= total) l ->
  0 <= plan_end bs last l <= total.
Proof.
  induction l as [|a l IH]; intros last Hw Hbs Hl Hin; cbn [plan_end]; [done|].
  apply Forall_cons in Hw as [Ha Hw]. apply Forall_cons in Hin as [? Hin].
  pose proof (extent_pos bs a Hbs (proj1 (pl_len _ _ Ha))). destruct Ha.
  apply IH; [done..| |done]. lia.
Qed.

(** What [image_ok] gives for the plan of a whole file. *)
Lemma image_plan E bs len l :
  image_ok bs len l ->
  Forall (fun c => 0 < chunk_blocks c) (plan E bs 0 l (len / bs)) /\
  foldr (fun c n => chunk_blocks c + n) 0 (plan E bs 0 l (len / bs)) = len / bs /\
  Z.of_nat (length (plan E bs 0 l (len / bs))) <= len / bs.
Proof.
  intros [[Hbs _] Hw Hs _ _ Ht _ Hin].
  destruct (plan_blocks E bs l (len / bs) 0) as [H1 H2]; [lia|done..| |lia|].
  { eapply Forall_impl; [exact Hw|]. by intros a []. }
  rewrite Z.sub_0_r in H2. split_and!; [done..|]. rewrite <- H2 at 2. by apply length_le_sum.
Qed.

(** ** The plan denotes the image *)

(** Byte [pos] of the image, zero where no block covers it. *)
Definition image_byte (E : input) (bs : Z) (l : list ablock) (pos : Z) : byte :=
  default Byte.x00 (image E bs l pos).

Lemma image_before E bs l pos :
  Forall (fun a => pos < a_block a * bs) l -> image E bs l pos = None.
Proof.
  induction 1 as [|a l Ha _ IH]; [done|]. cbn [image]. unfold covers.
  by destruct (Z.leb_spec (a_block a * bs) pos); [lia|].
Qed.

Lemma expand_gap bs last k :
  0 < bs -> last <= k ->
  encs normal_file_ops bs (gap last k) = bytes_of (fun _ => Byte.x00) ((k - last) * bs).
Proof.
  intros Hbs Hk. unfold gap, encs. destruct (Z.ltb_spec last k); cbn [fmap list_fmap concat enc chunk_expand].
  - by rewrite app_nil_r.
  - replace ((k - last) * bs) with 0 by nia. done.
Qed.

(** The bytes a block is written as, its last block filled up. *)
Definition block_byte (E : input) (a : ablock) : Z -> byte :=
  match a_type a with
  | BACKED_BLOCK_FILL v => fill_byte v
  | t => padded (type_byte E t) (a_len a)
  end.

Lemma expand_block E bs a :
  encs normal_file_ops bs [block_chunk E bs a] = bytes_of (block_byte E a) (extent bs a * bs).
Proof.
  unfold encs. cbn [fmap list_fmap concat enc]. rewrite app_nil_r. unfold block_chunk, block_byte.
  by destruct (a_type a).
Qed.

Lemma block_byte_in E a i : i < a_len a -> block_byte E a i = type_byte E (a_type a) i.
Proof.
  intros Hi. unfold block_byte, padded. destruct (a_type a); try done; by rewrite (proj2 (Z.ltb_lt _ _)).
Qed.

Lemma block_byte_out E bs a i :
  whole_fill bs a -> a_len a <= i < extent bs a * bs -> block_byte E a i = Byte.x00.
Proof.
  intros Hw Hi. unfold block_byte, padded, whole_fill, whole in *.
  destruct (a_type a); try lia; by rewrite (proj2 (Z.ltb_ge _ _)) by lia.
Qed.

(** Byte [i] of the blocks of [a], in an image whose other blocks are behind it. *)
Lemma image_block E bs a l i :
  0 < bs -> whole_fill bs a -> Forall (in_front bs a) l -> 0 <= i < extent bs a * bs ->
  image_byte E bs (a :: l) (a_block a * bs + i) = block_byte E a i.
Proof.
  intros Hbs Hw Hb Hi. unfold image_byte. cbn [image]. unfold covers.
  rewrite (proj2 (Z.leb_le _ _)) by lia. cbn [andb].
  destruct (Z.ltb_spec (a_block a * bs + i) (a_block a * bs + a_len a)) as [Hl|Hl].
  - rewrite block_byte_in by lia. cbn [default from_option id]. f_equal. lia.
  - rewrite (block_byte_out E bs) by (done || lia). rewrite image_before; [done|].
    eapply Forall_impl; [exact Hb|]. unfold in_front. intros b Hab. nia.
Qed.

(** Expanding the chunks of [l] gives the bytes of the image from block [last]
    to block [total]. *)
Lemma plan_expand E bs l total : forall last,
  0 < bs -> Forall (placed bs) l -> Forall (whole_fill bs) l -> StronglySorted (in_front bs) l ->
  Forall (fun a => a_block a + extent bs a <= total) l ->
  Forall (fun a => last <= a_block a) l -> last <= total ->
  encs normal_file_ops bs (plan E bs last l total) =
    bytes_of (fun i => image_byte E bs l (last * bs + i)) ((total - last) * bs).
Proof.
  induction l as [|a l IH]; intros last Hbs Hw Hf Hs Hin Hlast Ht; cbn [plan].
  - rewrite expand_gap by lia. done.
  - apply Forall_cons in Hw as [Ha Hw]. apply StronglySorted_cons in Hs as [Hb Hs].
    apply Forall_cons in Hf as [Hfa Hf].
    apply Forall_cons in Hin as [Hia Hin]. apply Forall_cons in Hlast as [Hla _].
    pose proof (extent_pos bs a Hbs (proj1 (pl_len _ _ Ha))) as Hbp. pose proof (extent_bounds bs a Hbs) as Hal.
    rewrite encs_app, (expand_gap bs last) by lia.
    change (block_chunk E bs a :: ?t) with ([block_chunk E bs a] ++ t).
    rewrite encs_app, expand_block, IH by done.
    replace ((total - last) * bs) with ((a_block a - last) * bs + (extent bs a * bs +
      (total - (a_block a + extent bs a)) * bs)) by lia.
    rewrite bytes_of_app, bytes_of_app by nia. f_equal; [|f_equal]; apply bytes_of_ext; intros i Hi.
    + unfold image_byte. rewrite image_before; [done|]. constructor; [nia|].
      eapply Forall_impl; [exact Hb|]. unfold in_front. nia.
    + rewrite <- (image_block E bs a l) by done. f_equal. lia.
    + unfold image_byte. cbn [image]. unfold covers.
      destruct (Z.ltb_spec (last * bs + ((a_block a - last) * bs + (extent bs a * bs + i)))
        (a_block a * bs + a_len a)); [lia|]. rewrite andb_false_r. do 2 f_equal. lia.
Qed.

(** A sparse file and the chunks it is written as denote the same image. *)
Lemma plan_image E bs len l :
  image_ok bs len l -> Forall (whole_fill bs) l ->
  encs normal_file_ops bs (plan E bs 0 l (len / bs)) = bytes_of (image_byte E bs l) len.
Proof.
  intros [[Hbs _] Hw Hs _ Hal Ht _ Hin] Hf.
  rewrite plan_expand; [|lia|done..| |lia].
  - rewrite Z.sub_0_r, <- Hal. done.
  - eapply Forall_impl; [exact Hw|]. by intros a [].
Qed.
