(* ===== verification/SparseWrite.v ===== *)
(** * Writing sparse images

    What a back end promises the writers is the class [Sink]; against it each
    chunk writer is shown to emit exactly the bytes of its chunk, and writing a
    sparse file to emit the image of SparseFormat.v. *)

From S2P Require Import Prelude BackedBlock BackedBlockRefine BlockImage Crc32 OutputFile.
From S2P Require Import Sparse SparseFormat.

#[local] Open Scope Z_scope.
#[local] Open Scope c_scope.

Implicit Types (h : heap) (xs : list (loc * ablock)) (a : ablock) (o : output_file).

(** The bytes a back end has received, or [None] after a failed write. *)
Class Sink {P : Type} (ops : output_file_ops P) : Type := {
  sink_state : option (list byte) -> P -> Prop;
  sink_write : forall st p data len, 0 <= len < 2 ^ 31 -> sink_state st p ->
    exists r p' st', ops_write ops data len p = Ok (r, p') /\ sink_state st' p' /\
      (st' = None \/ exists out, st = Some out /\ 0 <= r /\ st' = Some (out ++ bytes_of data len));
  sink_close : forall st p h, sink_state st p ->
    exists p', ops_close ops (h, p) = Ok (tt, (Heap (cells h) (brk h) (structs h - 1), p')) /\
      sink_state st p'
}.

(** A back end for plain images also skips, its writes return 0, and padding to
    the length it has reached completes it. *)
Class PlainSink {P : Type} (ops : output_file_ops P) `{!Sink ops} : Type := {
  plain_done : option (list byte) -> P -> Prop;
  plain_pad : forall st p n h, sink_state st p ->
    (forall out, st = Some out -> Z.of_nat (length out) = n) ->
    exists r p' p'' st', ops_pad ops n p = Ok (r, p') /\
      ops_close ops (h, p') = Ok (tt, (Heap (cells h) (brk h) (structs h - 1), p'')) /\
      plain_done st' p'' /\ (st' = None \/ st' = st);
  plain_write : forall st p data len r p', 0 <= len < 2 ^ 31 -> sink_state st p ->
    ops_write ops data len p = Ok (r, p') -> 0 <= r -> r = 0;
  plain_skip : forall st p n, 0 <= n < 2 ^ 63 -> sink_state st p ->
    exists r p' st', ops_skip ops n p = Ok (r, p') /\ sink_state st' p' /\
      (st' = None \/ exists out, st = Some out /\ r = 0 /\
         st' = Some (out ++ bytes_of (fun _ => Byte.x00) n))
}.

(** The fields a writer does not change. *)
Record same_config o o' : Prop := {
  sc_ops : sparse_ops o' = sparse_ops o;
  sc_crc : use_crc o' = use_crc o;
  sc_bs : of_block_size o' = of_block_size o;
  sc_len : of_len o' = of_len o;
  sc_zero : zero_buf o' = zero_buf o
}.

#[export] Instance same_config_refl : Reflexive same_config.
Proof. intros o. done. Qed.
#[export] Instance same_config_trans : Transitive same_config.
Proof. intros o1 o2 o3 [] []. constructor; congruence. Qed.

Lemma same_config_advance o n : same_config o (advance o n).
Proof. done. Qed.
Lemma same_config_crc o c : same_config o (set_crc32 o c).
Proof. done. Qed.
#[local] Hint Resolve same_config_advance same_config_crc same_config_refl : cdb.

Lemma bytes_of_buf l : bytes_of (buf_of l) (Z.of_nat (length l)) = l.
Proof.
  apply list_eq_same_length with (length l); [done|by rewrite length_bytes_of; lia|].
  intros i x y Hi. rewrite lookup_bytes_of by lia. intros [= <-] Hy.
  unfold buf_of. rewrite Nat2Z.id. by apply nth_lookup_Some.
Qed.

Section Emit.
Context {P : Type} {ops : output_file_ops P} `{HS : !Sink ops}.
Notation ostate := (output_file * P)%type.

(** [m], started with configuration [o], writes [bytes] and passes the running
    checksum through [f], or some write fails. *)
Definition emits (o : output_file) (bytes : list byte) (f : Z -> Z) (m : M ostate Z) : Prop :=
  forall st p, sink_state st p ->
  exists r o' p' st', m (o, p) = Ok (r, (o', p')) /\ same_config o o' /\ sink_state st' p' /\
    (st' = None \/ exists out, st = Some out /\ r = 0 /\ st' = Some (out ++ bytes) /\
       crc32 o' = if use_crc o then f (crc32 o) else crc32 o).

(** [m] writes [l] and changes nothing else of the output file. *)
Definition puts (o : output_file) (l : list byte) (m : M ostate Z) : Prop :=
  forall st p, sink_state st p ->
  exists r p' st', m (o, p) = Ok (r, (o, p')) /\ sink_state st' p' /\
    (st' = None \/ exists out, st = Some out /\ 0 <= r /\ st' = Some (out ++ l)).

Lemma write_puts o data len :
  0 <= len < 2 ^ 31 -> puts o (bytes_of data len) (on_snd (ops_write ops data len)).
Proof.
  intros Hl st p Hs. destruct (sink_write st p data len Hl Hs) as (r & p' & st' & E & H & D).
  exists r, p', st'. split; [by apply on_snd_ok|done].
Qed.

Lemma write_bytes_puts o l : Z.of_nat (length l) < 2 ^ 31 -> puts o l (write_bytes ops l).
Proof.
  intros Hl. rewrite <- (bytes_of_buf l) at 1. apply write_puts. lia.
Qed.

Lemma puts_nothing o : puts o [] (ret 0).
Proof.
  intros st p Hs. exists 0, p, st. split_and!; [done..|].
  destruct st as [out|]; [right|by left]. exists out. by rewrite app_nil_r.
Qed.

Lemma emits_out o b f (k : output_file -> M ostate Z) :
  emits o b f (k o) -> emits o b f (let! out := out_ in k out).
Proof. done. Qed.

Lemma emits_divisor o b f y (k : M ostate Z) :
  0 < y -> emits o b f k -> emits o b f (divisor y ;;! k).
Proof.
  intros Hy Hk st p Hs. erewrite bind_Ok by (by apply divisor_ok). by apply Hk.
Qed.

(** A write whose failure ends the function. *)
Lemma emits_put o l bytes b f (e : Z -> Z) (m k : M ostate Z) :
  puts o l m -> emits o bytes f k -> b = l ++ bytes ->
  emits o b f (let! r := m in if r <? 0 then ret (e r) else k).
Proof.
  intros Hm Hk -> st p Hs. destruct (Hm st p Hs) as (r & p' & st' & E & H & D).
  rewrite (bind_Ok _ _ _ _ _ E). cbn beta. destruct (Z.ltb_spec r 0) as [Hr|Hr].
  - eexists _, _, _, st'. split_and!; [done..|]. destruct D as [->|(?&?&?&?)]; [by left|lia].
  - destruct (Hk st' p' H) as (r2 & o2 & p2 & st2 & E2 & C2 & H2 & D2).
    exists r2, o2, p2, st2. split_and!; [done..|].
    destruct D2 as [->|(out2 & -> & -> & -> & Ec)]; [by left|].
    destruct D as [?|(out & -> & _ & [= ->])]; [done|right].
    exists out. by rewrite app_assoc.
Qed.

(** A write whose failure is ignored. *)
Lemma emits_ignore o l bytes b f (m k : M ostate Z) :
  puts o l m -> emits o bytes f k -> b = l ++ bytes -> emits o b f (m ;;! k).
Proof.
  intros Hm Hk -> st p Hs. destruct (Hm st p Hs) as (r & p' & st' & E & H & D).
  rewrite (bind_Ok _ _ _ _ _ E). cbn beta.
  destruct (Hk st' p' H) as (r2 & o2 & p2 & st2 & E2 & C2 & H2 & D2).
  exists r2, o2, p2, st2. split_and!; [done..|].
  destruct D2 as [->|(out2 & -> & -> & -> & Ec)]; [by left|].
  destruct D as [?|(out & -> & _ & [= ->])]; [done|right].
  exists out. by rewrite app_assoc.
Qed.

(** The bookkeeping at the end of a chunk. *)
Lemma emits_upd o f g :
  same_config o (g o) -> crc32 (g o) = (if use_crc o then f (crc32 o) else crc32 o) ->
  emits o [] f (upd g ;;! ret 0).
Proof.
  intros Hc Hf st p Hs. exists 0, (g o), p, st. split_and!; [done..|].
  destruct st as [out|]; [right|by left]. exists out. by rewrite app_nil_r.
Qed.

Lemma emits_crc o f c n :
  c o = f (crc32 o) ->
  emits o [] f ((if use_crc o then upd (fun o => set_crc32 o (c o)) else ret tt) ;;!
                upd (fun o => advance o n) ;;! ret 0).
Proof.
  intros Hc st p Hs. destruct (use_crc o) eqn:Eu; eexists 0, _, p, st;
    (split_and!; [done|done|done|]); (destruct st as [out|]; [right|by left]);
    exists out; rewrite app_nil_r; simpl; by rewrite ?Hc.
Qed.

Lemma skip_chunk_emits o n :
  0 < of_block_size o < 2 ^ 32 -> 0 <= n < 2 ^ 32 ->
  emits o (chunk_bytes (of_block_size o) (DontCare n)) id
    (write_sparse_skip_chunk ops (n * of_block_size o)).
Proof.
  intros Hbs Hn. apply emits_out, emits_divisor; [lia|]. cbn zeta.
  rewrite Z.rem_mul by lia. rewrite Z.eqb_refl. cbn [negb].
  rewrite Z.quot_mul, u32_small by lia.
  eapply (emits_put _ _ _ _ _ (fun _ => -1)); [by apply write_bytes_puts; rewrite length_chunk_header_bytes| |done].
  apply emits_upd; [done|by destruct (use_crc o)].
Qed.

(** A length is rounded up to the blocks it takes. *)
Lemma align_extent bs a :
  0 < bs -> 0 <= a_len a -> a_len a + bs <= 2 ^ 32 -> ALIGN u32 (a_len a) bs = extent bs a * bs.
Proof.
  intros Hbs Ha Hlen. pose proof (extent_bounds bs a Hbs). unfold ALIGN, DIV_ROUND_UP.
  rewrite (u32_small (a_len a + bs - 1)), quot_div by lia. fold (extent bs a).
  rewrite Z.mul_comm. apply u32_small. lia.
Qed.

Lemma fill_chunk_emits o a v :
  0 < of_block_size o -> 0 <= a_len a -> a_len a + of_block_size o <= 2 ^ 32 ->
  emits o (chunk_bytes (of_block_size o) (Fill (extent (of_block_size o) a) v))
    (chunk_crc (of_block_size o) (Fill (extent (of_block_size o) a) v))
    (write_sparse_fill_chunk ops (a_len a) v).
Proof.
  intros Hbs Ha Hlen. apply emits_out, emits_divisor; [lia|]. cbn zeta.
  rewrite (align_extent _ a) by done. pose proof (extent_bounds (of_block_size o) a Hbs).
  assert (Hu : u32 (i32 (extent (of_block_size o) a * of_block_size o)) = extent (of_block_size o) a * of_block_size o).
  { unfold u32, i32. rewrite Zminus_mod_idemp_l, Z.add_simpl_r. apply Z.mod_small. lia. }
  rewrite Hu, Z.div_mul by lia. unfold chunk_bytes. cbn [chunk_body chunk_head].
  eapply (emits_put _ _ _ _ _ (fun _ => -1)); [by apply write_bytes_puts; rewrite length_chunk_header_bytes| |done].
  eapply (emits_put _ _ _ _ _ (fun _ => -1)); [by apply write_bytes_puts; rewrite length_le| |by rewrite app_nil_r].
  by apply emits_crc.
Qed.

(** The data of a block and the zeros behind it. *)
Lemma bytes_of_padded f n m :
  0 <= n <= m -> bytes_of (padded f n) m = bytes_of f n ++ bytes_of (fun _ => Byte.x00) (m - n).
Proof.
  intros Hn. replace m with (n + (m - n)) at 1 by lia. rewrite bytes_of_app by lia.
  unfold padded. f_equal; apply bytes_of_ext; intros i Hi.
  - by rewrite (proj2 (Z.ltb_lt _ _)) by lia.
  - by rewrite (proj2 (Z.ltb_ge _ _)) by lia.
Qed.

Lemma padded_ext f g n m :
  (forall i, 0 <= i < n -> f i = g i) -> bytes_of (padded f n) m = bytes_of (padded g n) m.
Proof.
  intros H. apply bytes_of_ext. intros i Hi. unfold padded. destruct (Z.ltb_spec i n); [apply H; lia|done].
Qed.

(** The second write of a data chunk, left out when there is nothing to pad. *)
Lemma pad_puts o n :
  0 <= n < 2 ^ 31 -> puts o (bytes_of (zero_buf o) n)
    (if n =? 0 then ret 0 else on_snd (ops_write ops (zero_buf o) n)).
Proof.
  intros Hn. destruct (Z.eqb_spec n 0) as [->|_]; [apply puts_nothing|by apply write_puts].
Qed.

Lemma data_chunk_emits o a data :
  0 < of_block_size o -> 0 <= a_len a -> a_len a + of_block_size o <= 2 ^ 31 ->
  zero_buf o = (fun _ => Byte.x00) ->
  let n := extent (of_block_size o) a in
  let c := Raw n (bytes_of (padded data (a_len a)) (n * of_block_size o)) in
  emits o (chunk_bytes (of_block_size o) c) (chunk_crc (of_block_size o) c)
    (write_sparse_data_chunk ops (a_len a) data).
Proof.
  intros Hbs Ha Hlen Hz n. cbn zeta. apply emits_out, emits_divisor; [lia|]. cbn zeta.
  rewrite (align_extent _ a) by (done || lia). fold n.
  pose proof (extent_bounds (of_block_size o) a Hbs) as Hal. fold n in Hal.
  rewrite !(i32_small (n * _)), !(i32_small (a_len a)), (u32_small (n * _)), (u32_small (_ - a_len a)) by lia.
  rewrite (i32_small (_ - a_len a)), Z.div_mul by lia.
  rewrite (u32_small (CHUNK_HEADER_LEN + _)) by (unfold CHUNK_HEADER_LEN; lia).
  unfold chunk_bytes, chunk_crc. cbn [chunk_body chunk_head]. rewrite bytes_of_padded by lia.
  eapply (emits_put _ _ _ _ _ (fun _ => -1)); [by apply write_bytes_puts; rewrite length_chunk_header_bytes| |done].
  eapply (emits_put _ _ _ _ _ (fun _ => -1)); [apply write_puts; lia| |done].
  eapply (emits_put _ _ _ _ _ (fun _ => -1)); [apply pad_puts; lia| |by rewrite Hz, app_nil_r].
  apply emits_crc. rewrite Hz, sparse_crc32_app.
  destruct (Z.eqb_spec (n * of_block_size o - a_len a) 0) as [->|_]; [by rewrite sparse_crc32_nil|done].
Qed.

(** *** Plain images *)

Section Plain.
Context `{HP : !PlainSink ops}.

Lemma normal_skip_emits o n :
  0 < of_block_size o -> 0 <= n -> n * of_block_size o < 2 ^ 63 ->
  emits o (chunk_expand (of_block_size o) (DontCare n)) id
    (write_normal_skip_chunk ops (n * of_block_size o)).
Proof using HP.
  intros Hbs Hn Hb st p Hs. destruct (plain_skip st p (n * of_block_size o)) as (r & p' & st' & E & S' & D);
    [nia|done|].
  exists r, o, p', st'. split_and!; [by apply on_snd_ok|done|done|].
  destruct D as [->|(out & -> & -> & ->)]; [by left|right]. exists out. by destruct (use_crc o).
Qed.

(** A write whose result is returned, and a skip of [n] bytes behind it. *)
Lemma normal_write_emits o data len n :
  0 <= len < 2 ^ 31 -> 0 <= n < 2 ^ 63 ->
  emits o (bytes_of data len ++ bytes_of (fun _ => Byte.x00) n) id
    (let! r := on_snd (ops_write ops data len) in
     if r <? 0 then ret r else if 0 <? n then on_snd (ops_skip ops n) else ret r).
Proof using HP.
  intros Hl Hn st p Hs. destruct (sink_write st p data len Hl Hs) as (r & p' & st' & E & S' & D).
  erewrite bind_Ok by (by apply on_snd_ok). cbn beta. destruct (Z.ltb_spec r 0) as [Hr|Hr].
  { exists r, o, p', st'. split_and!; [done..|]. destruct D as [->|(? & _ & ? & _)]; [by left|lia]. }
  destruct (Z.ltb_spec 0 n) as [Hn0|Hn0].
  - destruct (plain_skip st' p' n Hn S') as (r2 & p2 & st2 & E2 & S2 & D2).
    exists r2, o, p2, st2. split_and!; [by apply on_snd_ok|done|done|].
    destruct D2 as [->|(out2 & -> & -> & ->)]; [by left|].
    destruct D as [?|(out & -> & _ & [= ->])]; [done|right]. exists out. rewrite app_assoc.
    by destruct (use_crc o).
  - exists r, o, p', st'. split_and!; [done..|].
    destruct D as [->|(out & -> & _ & ->)]; [by left|right]. exists out.
    rewrite (plain_write _ _ _ _ _ _ Hl Hs E Hr). replace n with 0 by lia. rewrite app_nil_r.
    by destruct (use_crc o).
Qed.

Lemma normal_data_emits o a data :
  0 < of_block_size o -> 0 <= a_len a -> a_len a + of_block_size o <= 2 ^ 31 ->
  let n := extent (of_block_size o) a in
  emits o (bytes_of (padded data (a_len a)) (n * of_block_size o)) id
    (write_normal_data_chunk ops (a_len a) data).
Proof using HP.
  intros Hbs Ha Hlen n. apply emits_out, emits_divisor; [lia|]. cbn zeta.
  rewrite align_extent by (done || lia). fold n.
  pose proof (extent_bounds (of_block_size o) a Hbs) as Hal. fold n in Hal.
  rewrite bytes_of_padded by lia. rewrite i32_small by lia.
  replace (a_len a <? n * of_block_size o) with (0 <? n * of_block_size o - a_len a)
    by (destruct (Z.ltb_spec 0 (n * of_block_size o - a_len a)), (Z.ltb_spec (a_len a) (n * of_block_size o)); lia).
  apply normal_write_emits; lia.
Qed.

(** The fill buffer after its initialisation. *)
Lemma fill_words_ok n v b i :
  0 <= i < 4 * Z.of_nat n -> fill_words n v b i = fill_byte v i.
Proof.
  induction n as [|n IH]; intros Hi; [lia|]. cbn [fill_words].
  destruct (Z.eqb_spec (i / 4) (Z.of_nat n)) as [E|E].
  - unfold fill_byte, le. pose proof (Z.mod_pos_bound i 4 ltac:(lia)).
    rewrite <- nth_default_eq, LittleEndianList.nth_default_le_split by lia. f_equal. f_equal. lia.
  - apply IH. pose proof (Z.div_mod i 4 ltac:(lia)). pose proof (Z.mod_pos_bound i 4 ltac:(lia)).
    assert (i / 4 < Z.of_nat n + 1) by (apply Z.div_lt_upper_bound; lia). lia.
Qed.

Lemma emits_set o b f g (k : M ostate Z) :
  same_config o (g o) -> crc32 (g o) = crc32 o -> emits (g o) b f k -> emits o b f (upd g ;;! k).
Proof using.
  intros Hc He Hk st p Hs. destruct (Hk st p Hs) as (r & o' & p' & st' & E & C & S' & D).
  exists r, o', p', st'. split_and!; [done|by etransitivity|done|].
  by rewrite He, (sc_crc _ _ Hc) in D.
Qed.

Lemma fill_loop_emits o v :
  0 < of_block_size o < 2 ^ 31 -> of_block_size o mod 4 = 0 ->
  (forall i, 0 <= i < of_block_size o -> fill_buf o i = fill_byte v i) ->
  forall k fuel, (k <= fuel)%nat -> Z.of_nat k * of_block_size o < 2 ^ 32 ->
  emits o (bytes_of (fill_byte v) (Z.of_nat k * of_block_size o)) id
    (normal_fill_loop ops fuel (Z.of_nat k * of_block_size o)).
Proof using HP.
  intros Hbs H4 Hb. induction k as [|k IH]; intros fuel Hf Hlen.
  - intros st p Hs. exists 0, o, p, st. split_and!; [by destruct fuel|done|done|].
    destruct st as [out|]; [right|by left]. exists out. rewrite app_nil_r. by destruct (use_crc o).
  - destruct fuel as [|fuel]; [lia|]. cbn [normal_fill_loop].
    destruct (Z.eqb_spec (Z.of_nat (S k) * of_block_size o) 0) as [?|_]; [nia|].
    apply emits_out. rewrite Z.min_r by nia. rewrite i32_small by lia.
    replace (u32 (Z.of_nat (S k) * of_block_size o - of_block_size o)) with (Z.of_nat k * of_block_size o)
      by (rewrite u32_small; nia).
    apply (emits_put _ (bytes_of (fill_buf o) (of_block_size o))
      (bytes_of (fill_byte v) (Z.of_nat k * of_block_size o)) _ _ id);
      [by apply write_puts; lia|apply IH; nia|].
    replace (Z.of_nat (S k) * of_block_size o) with (of_block_size o + Z.of_nat k * of_block_size o) by lia.
    rewrite bytes_of_app by nia. f_equal; apply bytes_of_ext; intros i Hi; [by rewrite Hb|].
    by rewrite fill_byte_shift.
Qed.

Lemma normal_fill_emits o a v :
  0 < of_block_size o < 2 ^ 31 -> of_block_size o mod 4 = 0 -> 0 <= a_len a < 2 ^ 32 ->
  whole (of_block_size o) a ->
  emits o (chunk_expand (of_block_size o) (Fill (extent (of_block_size o) a) v)) id
    (write_normal_fill_chunk ops (a_len a) v).
Proof using HP.
  intros Hbs H4 Hl Hal. unfold write_normal_fill_chunk, whole in *.
  set (g := fun out => set_fill_buf out _). apply emits_set; [done|done|]. apply emits_out.
  cbn [chunk_expand]. change (of_block_size (g o)) with (of_block_size o).
  set (k := Z.to_nat (extent (of_block_size o) a)).
  assert (Hk : a_len a = Z.of_nat k * of_block_size o) by (unfold k; rewrite Z2Nat.id; nia).
  rewrite <- Hal, Hk, Z.div_mul by lia.
  apply (fill_loop_emits (g o) v); [done|done| |lia|cbn [of_block_size g set_fill_buf]; lia].
  intros i Hi. apply fill_words_ok. cbn [g of_block_size set_fill_buf] in *.
  pose proof (Z.div_mod (of_block_size o) 4 ltac:(lia)). lia.
Qed.
End Plain.

Lemma end_chunk_emits o :
  0 < of_block_size o ->
  emits o (if use_crc o then chunk_bytes (of_block_size o) (CrcChunk (crc32 o)) else []) id
    (write_sparse_end_chunk ops).
Proof.
  intros Hbs. apply emits_out.
  destruct (use_crc o) eqn:Eu.
  - eapply (emits_put _ _ _ _ _ id); [by apply write_bytes_puts; rewrite length_chunk_header_bytes| |done].
    eapply emits_ignore; [by apply write_bytes_puts; rewrite length_le| |symmetry; apply app_nil_r].
    apply emits_upd; [done|by rewrite Eu].
  - intros st p Hs. exists 0, o, p, st. split_and!; [done..|]. destruct st as [out|]; [right|by left].
    exists out. by rewrite app_nil_r, Eu.
Qed.

(** ** Blocks *)

(** What each kind of output file needs of the back end, the block size and the
    buffer of zeros. *)
Definition mode_ok (o : output_file) : Prop :=
  match sparse_ops o with
  | sparse_file_ops => zero_buf o = (fun _ => Byte.x00)
  | normal_file_ops => inhabited (PlainSink ops) /\ of_block_size o < 2 ^ 31 /\
      of_block_size o mod 4 = 0
  end.

Lemma mode_ok_config o o' : same_config o o' -> mode_ok o -> mode_ok o'.
Proof. intros [H1 _ H2 _ H3]. unfold mode_ok. by rewrite H1, H2, H3. Qed.

(** [m] writes the chunk [c]. *)
Notation writes o c m :=
  (emits o (enc (sparse_ops o) (of_block_size o) c) (enc_crc (sparse_ops o) (of_block_size o) c) m).

Lemma write_data_writes o a data :
  mode_ok o -> 0 < of_block_size o -> 0 <= a_len a -> a_len a + of_block_size o <= 2 ^ 31 ->
  let n := extent (of_block_size o) a in
  writes o (Raw n (bytes_of (padded data (a_len a)) (n * of_block_size o)))
    (write_data_chunk ops (a_len a) data).
Proof.
  intros Hm Hbs Ha Hlen. apply emits_out. unfold mode_ok in Hm. destruct (sparse_ops o).
  - by apply data_chunk_emits.
  - destruct Hm as ([?] & _). by apply normal_data_emits.
Qed.

Lemma write_fill_writes o a v :
  mode_ok o -> 0 < of_block_size o -> 0 <= a_len a -> a_len a + of_block_size o <= 2 ^ 32 ->
  (sparse_ops o = normal_file_ops -> whole (of_block_size o) a) ->
  writes o (Fill (extent (of_block_size o) a) v) (write_fill_chunk ops (a_len a) v).
Proof.
  intros Hm Hbs Ha Hlen Hw. apply emits_out. unfold mode_ok in Hm. destruct (sparse_ops o).
  - by apply fill_chunk_emits.
  - destruct Hm as ([?] & ? & ?). apply normal_fill_emits; (lia || auto).
Qed.

Lemma write_skip_writes o n :
  mode_ok o -> 0 < of_block_size o < 2 ^ 32 -> 0 <= n < 2 ^ 32 -> n * of_block_size o < 2 ^ 63 ->
  writes o (DontCare n) (write_skip_chunk ops (n * of_block_size o)).
Proof.
  intros Hm Hbs Hn Hb. apply emits_out. unfold mode_ok in Hm. destruct (sparse_ops o).
  - by apply skip_chunk_emits.
  - destruct Hm as ([?] & ? & ?). apply normal_skip_emits; lia.
Qed.

Context `{HE : Env}.

(** The descriptor [fd] can be mapped and holds the bytes [f]. *)
Definition reads (fd : Z) (f : Z -> byte) : Prop :=
  forall size off, 0 < size < 2 ^ 31 -> 0 <= off -> off mod 4096 = 0 ->
  exists data, env_mmap size fd off = inr data /\ forall i, 0 <= i < size -> data i = f (off + i).

(** The bytes of block [a] can be read and are those of [E]. *)
Definition readable (E : input) (h : heap) (a : ablock) : Prop :=
  match a_type a with
  | BACKED_BLOCK_DATA d => forall i, 0 <= i < a_len a -> env_mem (d + i) = in_mem E (d + i)
  | BACKED_BLOCK_FD fd _ => reads fd (in_fd E fd)
  | BACKED_BLOCK_FILE f _ => exists l name fd, f = Some l /\ cells h !! l = Some (OStr name) /\
      env_open name = inr fd /\ reads fd (in_file E f)
  | BACKED_BLOCK_FILL _ => True
  end.

Lemma page_align off :
  0 <= off -> Z.land off (Z.lnot (4096 - 1)) = off - off mod 4096 /\
  (off - off mod 4096) mod 4096 = 0 /\ 0 <= off mod 4096 < 4096.
Proof.
  intros Ho. pose proof (Z.mod_pos_bound off 4096 ltac:(lia)).
  change (Z.lnot (4096 - 1)) with (Z.lnot (Z.ones 12)). rewrite <- Z.ldiff_land, Z.ldiff_ones_r by lia.
  rewrite Z.shiftl_mul_pow2, Z.shiftr_div_pow2 by lia. change (2 ^ 12) with 4096.
  pose proof (Z.div_mod off 4096 ltac:(lia)).
  split_and!; [lia| |lia..].
  replace (off - off mod 4096) with (off / 4096 * 4096) by lia. by apply Z.mod_mul.
Qed.

Lemma write_fd_writes o a fd off f :
  mode_ok o -> 0 < of_block_size o -> 0 < a_len a ->
  a_len a + of_block_size o + 4096 <= 2 ^ 31 -> reads fd f -> 0 <= off < 2 ^ 63 ->
  let n := extent (of_block_size o) a in
  let c := Raw n (bytes_of (padded (fun i => f (off + i)) (a_len a)) (n * of_block_size o)) in
  writes o c (write_fd_chunk ops (a_len a) fd off).
Proof.
  intros Ho Hbs Ha Hlen Hr Hoff n c. unfold write_fd_chunk.
  destruct (page_align off) as (Ea & Em & Hd); [lia|]. rewrite Ea.
  replace (off - (off - off mod 4096)) with (off mod 4096) by lia.
  pose proof (Z.mod_le off 4096 ltac:(lia) ltac:(lia)).
  rewrite (i32_small (off mod 4096)), (u32_small (a_len a + _)), (i32_small (a_len a + _)),
    (u64_small (a_len a + _)) by lia.
  destruct (Hr (a_len a + off mod 4096) (off - off mod 4096)) as (data & -> & Hdata); [lia..|done|].
  replace c with (Raw n (bytes_of (padded (fun i => data (off mod 4096 + i)) (a_len a)) (n * of_block_size o))).
  - apply write_data_writes; (done || lia).
  - unfold c. f_equal. apply padded_ext. intros i Hi. rewrite Hdata by lia. f_equal. lia.
Qed.

Lemma write_block_writes E h o x a nx :
  mode_ok o -> 0 < of_block_size o -> placed (of_block_size o) a ->
  (sparse_ops o = normal_file_ops -> whole_fill (of_block_size o) a) ->
  writable (of_block_size o) a -> readable E h a -> cells h !! x = Some (OBlock (node a nx)) ->
  exists n, (forall p, sparse_file_write_block ops (Some x) (h, (o, p)) = on_snd n (h, (o, p))) /\
    writes o (block_chunk E (of_block_size o) a) n.
Proof.
  intros Ho Hbs Ha Hf Hw Hr Hx. unfold writable, readable, whole_fill in *.
  assert (Hl := pl_type _ _ Ha). pose proof (pl_len _ _ Ha).
  assert (Hld : forall p, on_fst (T := output_file * P) (load (Some x)) (h, (o, p)) =
    Ok (node a nx, (h, (o, p)))) by (intros; by apply on_fst_ok, load_ok).
  unfold block_chunk. destruct (a_type a) as [d|fn off|fd off|v] eqn:Et.
  - exists (write_data_chunk ops (a_len a) (fun i => env_mem (d + i))). split.
    + intros p. unfold sparse_file_write_block. rewrite (bind_Ok _ _ _ _ _ (Hld p)). cbn [bb_type node].
      rewrite Et. unfold backed_block_data. cbn [bb_type node]. by rewrite Et.
    + rewrite (padded_ext (type_byte E (BACKED_BLOCK_DATA d)) (fun i => env_mem (d + i)));
        [|intros; symmetry; by apply Hr].
      apply write_data_writes; (done || lia).
  - destruct Hr as (l & name & fd & -> & Hname & Hopen & Hr).
    exists (write_fd_chunk ops (a_len a) fd off). split.
    + intros p. unfold sparse_file_write_block. rewrite (bind_Ok _ _ _ _ _ (Hld p)). cbn [bb_type node].
      rewrite Et. unfold backed_block_filename, backed_block_file_offset. cbn [bb_type node]. rewrite Et.
      unfold bind, lift, on_fst at 1, load_str. simpl. rewrite Hname. simpl.
      unfold write_file_chunk. by rewrite Hopen.
    + apply (write_fd_writes o a fd off (in_file E (Some l))); (done || simpl in Hl; lia).
  - exists (write_fd_chunk ops (a_len a) fd off). split.
    + intros p. unfold sparse_file_write_block. rewrite (bind_Ok _ _ _ _ _ (Hld p)). cbn [bb_type node].
      rewrite Et. unfold backed_block_fd, backed_block_file_offset. cbn [bb_type node]. by rewrite Et.
    + apply (write_fd_writes o a fd off (in_fd E fd)); (done || simpl in Hl; lia).
  - exists (write_fill_chunk ops (a_len a) v). split.
    + intros p. unfold sparse_file_write_block. rewrite (bind_Ok _ _ _ _ _ (Hld p)). cbn [bb_type node].
      rewrite Et. unfold backed_block_fill_val. cbn [bb_type node]. by rewrite Et.
    + apply write_fill_writes; (done || lia).
Qed.

(** ** The loop over the blocks *)

(** Writing [cs] takes the output file from [o] to [o'] and the sink from [st]
    to [st']; [r] is the last result. *)
Definition wrote (o : output_file) (st : option (list byte)) (cs : list chunk) (r : Z)
    (o' : output_file) (st' : option (list byte)) : Prop :=
  same_config o o' /\
  (st' = None \/ exists out, st = Some out /\ r = 0 /\
     st' = Some (out ++ encs (sparse_ops o) (of_block_size o) cs) /\
     crc32 o' = if use_crc o then encs_crc (sparse_ops o) (of_block_size o) cs (crc32 o) else crc32 o).

Lemma writes_wrote o c m st p :
  writes o c m -> sink_state st p ->
  exists r o' p' st', m (o, p) = Ok (r, (o', p')) /\ sink_state st' p' /\ wrote o st [c] r o' st'.
Proof.
  intros Hm Hs. destruct (Hm st p Hs) as (r & o' & p' & st' & E & C & S' & D).
  exists r, o', p', st'. split_and!; [done..|]. split; [done|].
  destruct D as [?|(out & ? & ? & ? & Hc)]; [by left|right].
  exists out. unfold encs, encs_crc. cbn [fmap list_fmap concat foldl]. by rewrite app_nil_r.
Qed.

Lemma wrote_nil o st : wrote o st [] 0 o st.
Proof.
  split; [done|]. destruct st as [out|]; [right|by left].
  exists out. unfold encs, encs_crc. cbn [fmap list_fmap concat foldl]. rewrite app_nil_r.
  by destruct (use_crc o).
Qed.

Lemma wrote_app o st cs1 r1 o1 st1 cs2 r2 o2 st2 :
  wrote o st cs1 r1 o1 st1 -> wrote o1 st1 cs2 r2 o2 st2 -> wrote o st (cs1 ++ cs2) r2 o2 st2.
Proof.
  intros [C1 D1] [C2 D2]. split; [by etransitivity|].
  destruct D2 as [?|(out2 & -> & -> & -> & E2)]; [by left|].
  destruct D1 as [?|(out & -> & _ & [= ->] & E1)]; [done|right]. exists out.
  rewrite encs_app, encs_crc_app, app_assoc, (sc_bs _ _ C1), (sc_ops _ _ C1).
  split_and!; [done..|]. rewrite E2, E1, (sc_crc _ _ C1), (sc_bs _ _ C1), (sc_ops _ _ C1).
  by destruct (use_crc o).
Qed.

(** After a failure the result does not matter. *)
Lemma wrote_failed o st cs1 r1 o1 cs2 r2 :
  wrote o st cs1 r1 o1 None -> wrote o st cs2 r2 o1 None.
Proof. intros [C _]. split; [done|by left]. Qed.

(** A gap is written as a skip chunk, whose result is ignored. *)
Lemma gap_wrote o st p last k v :
  mode_ok o -> 0 < of_block_size o < 2 ^ 32 -> 0 <= last -> k < 2 ^ 32 ->
  k * of_block_size o < 2 ^ 63 ->
  (last < k -> v = (k - last) * of_block_size o) -> sink_state st p ->
  exists r o' p' st',
    (if last <? k then write_skip_chunk ops v else ret 0) (o, p) = Ok (r, (o', p')) /\
    sink_state st' p' /\ wrote o st (gap last k) r o' st'.
Proof.
  intros Ho Hbs Hl Hk Hb Hv Hs. unfold gap. destruct (Z.ltb_spec last k); [rewrite Hv by done|].
  - apply writes_wrote; [apply write_skip_writes; try done; nia|done].
  - eexists 0, o, p, st. split_and!; [done..|]. apply wrote_nil.
Qed.

Lemma on_snd_if {S T A} (b : bool) (m : M T A) (v : A) (st : S * T) :
  (if b then on_snd m else ret v) st = on_snd (if b then m else ret v) st.
Proof. destruct b; [done|]. by destruct st. Qed.

Lemma next_last bs a :
  0 < bs -> placed bs a -> a_len a + bs <= 2 ^ 32 ->
  u32 (a_block a + DIV_ROUND_UP u32 (a_len a) bs) = a_block a + extent bs a.
Proof.
  intros Hbs Ha Hl. pose proof (extent_pos bs a Hbs (proj1 (pl_len _ _ Ha))). destruct Ha as [H1 H2 H3 _].
  unfold DIV_ROUND_UP. rewrite (u32_small (a_len a + bs - 1)), quot_div by lia.
  apply u32_small. unfold extent in *. lia.
Qed.

Lemma writable_len bs a : 0 < bs -> writable bs a -> a_len a + bs <= 2 ^ 32.
Proof. unfold writable. destruct (a_type a); lia. Qed.

Section Loop.
Context (E : input) (h : heap) (s : sparse_file).
Notation bs := (s_block_size s).
Hypothesis Hbs : 0 < bs < 2 ^ 32.

Lemma write_loop_ok xs : forall fuel bb last o st p,
  lseg h bb xs None -> (length xs <= fuel)%nat ->
  mode_ok o -> of_block_size o = bs -> (sparse_ops o = normal_file_ops -> Forall (whole_fill bs) xs.*2) ->
  Forall (placed bs) xs.*2 -> Forall (writable bs) xs.*2 -> Forall (readable E h) xs.*2 ->
  Forall (fun a => a_block a * bs < 2 ^ 63) xs.*2 ->
  0 <= last -> sink_state st p ->
  exists r lb o' p' st', write_loop ops s fuel bb last (h, (o, p)) = Ok ((r, lb), (h, (o', p'))) /\
    sink_state st' p' /\ wrote o st (plan E bs last xs.*2 (plan_end bs last xs.*2)) r o' st' /\
    (r = 0 -> lb = plan_end bs last xs.*2).
Proof using Hbs.
  induction xs as [|[x a] xs IH]; intros fuel bb last o st p Hl Hf Ho Eb Hwf Hw Hwr Hr H63 Hla Hs.
  - simpl in Hl. subst. destruct fuel; (eexists 0, last, o, p, st; split_and!; [done|done| |done]);
      simpl; rewrite gap_nil; apply wrote_nil.
  - destruct Hl as (-> & nx & Hx & Hl). destruct fuel as [|fuel]; [simpl in Hf; lia|].
    rewrite fmap_cons in Hwf, Hw, Hwr, Hr, H63. apply Forall_cons in H63 as [H63a H63].
    apply Forall_cons in Hw as [Ha Hw]. apply Forall_cons in Hwr as [Hwa Hwr].
    apply Forall_cons in Hr as [Hra Hr]. cbn [snd] in *. pose proof (writable_len bs a ltac:(lia) Hwa) as Hal.
    pose proof (pl_block _ _ Ha) as Hb0. pose proof (pl_last _ _ Ha) as Hb1.
    pose proof (extent_pos bs a ltac:(lia) (proj1 (pl_len _ _ Ha))) as Hbp.
    cbn [write_loop]. erewrite bind_Ok by (by apply on_fst_ok, load_ok).
    unfold backed_block_block, backed_block_len. cbn [bb_block bb_len node].
    destruct (gap_wrote o st p last (a_block a) (i64 (u32 (a_block a - last) * bs)))
      as (r1 & o1 & p1 & st1 & E1 & S1 & W1); [done|by rewrite Eb|done|lia|by rewrite Eb| |done|].
    { intros Hlt. rewrite Eb, u32_small by lia. apply i64_small. nia. }
    erewrite bind_Ok; last (rewrite on_snd_if; by apply on_snd_ok). cbn beta.
    assert (C1 := proj1 W1).
    destruct (write_block_writes E h o1 x a nx) as (n & En & Hn);
      [by eapply mode_ok_config|rewrite (sc_bs _ _ C1), Eb; (done || lia)..| |rewrite (sc_bs _ _ C1), Eb; done|done|done|].
    { rewrite (sc_ops _ _ C1), (sc_bs _ _ C1), Eb. intros Hn. by apply (Forall_inv (Hwf Hn)). }
    destruct (writes_wrote o1 _ _ st1 p1 Hn S1) as (r2 & o2 & p2 & st2 & E2 & S2 & W2).
    rewrite (sc_bs _ _ C1), Eb in W2.
    erewrite bind_Ok by (rewrite En; by apply on_snd_ok). cbn beta.
    pose proof (wrote_app _ _ _ _ _ _ _ _ _ _ W1 W2) as W. assert (C2 := proj1 W).
    destruct (Z.eqb_spec r2 0) as [->|Hr2]; cbn [negb].
    + erewrite bind_Ok by (apply divisor_ok; lia). cbn beta.
      erewrite bind_Ok by (apply on_fst_ok; unfold backed_block_iter_next; by step). cbn [bb_next node].
      rewrite next_last by (done || lia).
      destruct (IH fuel nx (a_block a + extent bs a) o2 st2 p2)
        as (r & lb & o' & p' & st' & E' & S' & W' & L');
        [done|simpl in Hf; lia|by eapply mode_ok_config|by rewrite (sc_bs _ _ C2)| |done..|lia|done|].
      { rewrite (sc_ops _ _ C2). intros Hn'. by apply (Forall_inv_tail (Hwf Hn')). }
      exists r, lb, o', p', st'. split_and!; [done|done| |done].
      pose proof (wrote_app _ _ _ _ _ _ _ _ _ _ W W') as W''. rewrite <- app_assoc in W''.
      exact W''.
    + eexists r2, last, o2, p2, st2. split_and!; [done|done| |done].
      destruct W2 as [_ [->|(? & _ & ? & _)]]; [|done]. by eapply wrote_failed.
Qed.

Lemma write_all_blocks_ok xs o st p :
  lseg h (data_blocks (s_list s)) xs None -> NoDup xs.*1 -> image_ok bs (s_len s) xs.*2 ->
  mode_ok o -> of_block_size o = bs -> (sparse_ops o = normal_file_ops -> Forall (whole_fill bs) xs.*2) ->
  Forall (readable E h) xs.*2 -> sink_state st p ->
  exists r o' p' st', write_all_blocks ops s (h, (o, p)) = Ok (r, (h, (o', p'))) /\
    sink_state st' p' /\ wrote o st (plan E bs 0 xs.*2 (s_len s / bs)) r o' st'.
Proof using Hbs.
  intros Hl Hnd Him Ho Eb Hf Hr Hs. destruct Him as [_ Hw _ Hwr Hal Ht Hlen Hin].
  pose proof (lseg_length _ _ _ _ Hl Hnd) as Hsz.
  pose proof (plan_end_bound bs xs.*2 (s_len s / bs) 0 Hw ltac:(lia) ltac:(lia) Hin) as Hend.
  assert (H63 : Forall (fun a => a_block a * bs < 2 ^ 63) xs.*2).
  { rewrite Forall_forall in Hw, Hin. apply Forall_forall. intros a Ha.
    specialize (Hin a Ha). pose proof (Hw a Ha) as Hpl.
    pose proof (extent_pos bs a ltac:(lia) (proj1 (pl_len _ _ Hpl))). destruct Hpl. nia. }
  destruct (write_loop_ok xs (S (size (cells h))) (data_blocks (s_list s)) 0 o st p)
    as (r & lb & o1 & p1 & st1 & E1 & S1 & W1 & L1); [done|lia|done..|].
  unfold write_all_blocks. erewrite bind_Ok by (by apply on_fst_ok). cbn beta.
  unfold backed_block_iter_new. rewrite (bind_Ok _ _ _ _ _ E1). cbn beta match.
  rewrite plan_split. destruct (Z.eqb_spec r 0) as [->|Hr0]; cbn [negb]; last first.
  { exists r, o1, p1, st1. split_and!; [done..|].
    destruct W1 as [C1 [->|(? & _ & ? & _)]]; [|done]. split; [done|by left]. }
  rewrite L1 by done. set (e := plan_end bs 0 xs.*2) in *.
  assert (Ep : i64 (s_len s - i64 (e * bs)) = (s_len s / bs - e) * bs).
  { rewrite (i64_small (e * bs)) by nia. rewrite Hal at 1. rewrite i64_small; nia. }
  rewrite Ep. erewrite bind_Ok by (apply assert_ok; apply Z.leb_le; nia). cbn beta.
  destruct (gap_wrote o1 st1 p1 e (s_len s / bs) ((s_len s / bs - e) * bs))
    as (r2 & o2 & p2 & st2 & E2 & S2 & W2);
    [eapply mode_ok_config; [apply W1|done]|rewrite (sc_bs _ _ (proj1 W1)), Eb; lia|lia|lia| | |done|].
  { rewrite (sc_bs _ _ (proj1 W1)), Eb. nia. }
  { by rewrite (sc_bs _ _ (proj1 W1)), Eb. }
  replace (0 <? (s_len s / bs - e) * bs) with (e <? s_len s / bs); last first.
  { destruct (Z.ltb_spec e (s_len s / bs)), (Z.ltb_spec 0 ((s_len s / bs - e) * bs)); try done; nia. }
  erewrite bind_Ok; last (rewrite on_snd_if; by apply on_snd_ok). cbn beta.
  exists 0, o2, p2, st2. split_and!; [done..|].
  pose proof (wrote_app _ _ _ _ _ _ _ _ _ _ W1 W2) as [C D]. split; [done|].
  destruct D as [?|(out & ? & _ & ? & ?)]; [by left|]. right. by exists out.
Qed.
End Loop.
End Emit.

(** ** Counting chunks *)

Section Count.
Context (E : input) (h : heap) (s : sparse_file).
Notation bs := (s_block_size s).
Hypothesis Hbs : 0 < bs < 2 ^ 32.

Lemma count_loop_ok xs : forall fuel bb last chunks,
  lseg h bb xs None -> (length xs <= fuel)%nat ->
  Forall (placed bs) xs.*2 -> Forall (writable bs) xs.*2 -> 0 <= chunks ->
  count_loop s fuel bb last (u32 chunks) h = Ok ((plan_end bs last xs.*2,
    u32 (chunks + Z.of_nat (length (plan E bs last xs.*2 (plan_end bs last xs.*2))))), h).
Proof using Hbs.
  induction xs as [|[x a] xs IH]; intros fuel bb last chunks Hl Hf Hw Hwr Hc.
  - simpl in Hl. subst. destruct fuel; simpl; rewrite gap_nil; simpl; by rewrite Z.add_0_r.
  - destruct Hl as (-> & nx & Hx & Hl). destruct fuel as [|fuel]; [simpl in Hf; lia|].
    rewrite fmap_cons in Hw, Hwr. apply Forall_cons in Hw as [Ha Hw].
    apply Forall_cons in Hwr as [Hwa Hwr]. cbn [snd] in *.
    pose proof (writable_len bs a ltac:(lia) Hwa) as Hal.
    cbn [count_loop]. step. unfold backed_block_block, backed_block_len. cbn [bb_block bb_len node].
    erewrite bind_Ok by (apply divisor_ok; lia). cbn beta zeta.
    unfold backed_block_iter_next. erewrite bind_Ok by (by step). cbn [bb_next node].
    rewrite next_last by (done || lia).
    replace (u32 ((if last <? a_block a then u32 (u32 chunks + 1) else u32 chunks) + 1))
      with (u32 (chunks + Z.of_nat (length (gap last (a_block a))) + 1)); last first.
    { unfold gap. destruct (last <? a_block a); cbn [length]; rewrite ?u32_add_l, <- ?Z.add_assoc, ?u32_add_l; f_equal; lia. }
    rewrite IH by (done || simpl in Hf; lia). cbn [plan plan_end fmap list_fmap].
    rewrite length_app. cbn [length]. rewrite Nat2Z.inj_add, Nat2Z.inj_succ. do 4 f_equal. cbn [snd]. lia.
Qed.

Lemma sparse_count_chunks_ok xs :
  lseg h (data_blocks (s_list s)) xs None -> NoDup xs.*1 -> image_ok bs (s_len s) xs.*2 ->
  sparse_count_chunks s h = Ok (Z.of_nat (length (plan E bs 0 xs.*2 (s_len s / bs))), h).
Proof using Hbs.
  intros Hl Hnd Him. pose proof (lseg_length _ _ _ _ Hl Hnd) as Hsz.
  destruct (image_plan E _ _ _ Him) as (_ & _ & Hlen).
  destruct Him as [_ Hw _ Hwr Hal Ht H63 Hin].
  unfold sparse_count_chunks, walk_fuel. step. unfold backed_block_iter_new.
  erewrite bind_Ok by (apply (count_loop_ok xs _ _ 0 0); [done|lia|done..]). cbn beta match.
  erewrite bind_Ok by (apply divisor_ok; lia). cbn beta. unfold ret. do 2 f_equal.
  assert (Ed : DIV_ROUND_UP i64 (s_len s) bs = s_len s / bs).
  { rewrite Hal at 1. rewrite Z.mul_comm. apply DIV_ROUND_UP_i64_mul; nia. }
  rewrite Ed. rewrite (plan_split E bs 0 xs.*2 (s_len s / bs)), length_app, Nat2Z.inj_add in Hlen |- *.
  unfold gap in *. destruct (plan_end bs 0 xs.*2 <? s_len s / bs); cbn [length] in *;
    rewrite ?u32_add_l, u32_small; lia.
Qed.
End Count.

(** ** Opening and closing *)

Section Top.
Context {P : Type} {ops : output_file_ops P} `{HS : !Sink ops} `{HA : Allocator}.

(** The heap after some structs were allocated and freed. *)
Definition structs_at (h : heap) (n : Z) (h' : heap) : Prop :=
  cells h' = cells h /\ structs h' = structs h + n.

Lemma alloc_struct_ok h :
  exists b h', alloc_struct h = Ok (b, h') /\ structs_at h (if b then 1 else 0) h' /\
    (b = false -> exists h0, calloc_struct h0 = false).
Proof.
  unfold alloc_struct. destruct (calloc_struct h) eqn:Eh.
  - exists true. eexists. split; [done|]. split; [|done]. split; [done|]. simpl. lia.
  - exists false, h. split; [done|]. split; [|by eauto]. split; [done|]. lia.
Qed.

(** Why an output file may not open: memory, or a failed write of the header. *)
Definition open_failed (p' : P) : Prop :=
  (exists h0, calloc_struct h0 = false) \/ sink_state None p'.

(** The sink after [out], when it did not fail, received [bytes]. *)
Definition received (st : option (list byte)) (bytes : list byte) (st' : option (list byte)) : Prop :=
  st' = None \/ exists out, st = Some out /\ st' = Some (out ++ bytes).

Lemma received_refl st : received st [] st.
Proof. destruct st as [out|]; [right; exists out; by rewrite app_nil_r|by left]. Qed.

Lemma received_app st b1 st1 b2 st2 :
  received st b1 st1 -> received st1 b2 st2 -> received st (b1 ++ b2) st2.
Proof.
  intros H1 [->|(out1 & -> & ->)]; [by left|].
  destruct H1 as [?|(out & -> & [= ->])]; [done|right]. exists out. by rewrite app_assoc.
Qed.

(** The fields of a freshly opened sparse output file. *)
Definition opened (bs len : Z) (crc : bool) (o : output_file) : Prop :=
  sparse_ops o = sparse_file_ops /\ of_block_size o = bs /\ of_len o = len /\ use_crc o = crc /\
  crc32 o = 0 /\ zero_buf o = (fun _ => Byte.x00).

Lemma init_ok bs len n (crc : bool) h st p :
  0 < bs < 2 ^ 32 -> 0 <= len -> len / bs < 2 ^ 32 ->
  0 <= n -> n + (if crc then 1 else 0) < 2 ^ 32 -> sink_state st p ->
  exists r o h' p' st', output_file_init ops bs len true (i32 n) crc (h, p) = Ok ((r, o), (h', p')) /\
    sink_state st' p' /\
    if r <? 0 then structs_at h 0 h' /\ open_failed p'
    else structs_at h 2 h' /\ opened bs len crc o /\
      received st (sparse_header_bytes (image_header bs len (n + (if crc then 1 else 0)))) st'.
Proof.
  intros Hbs Hlen Hb Hn Hnc Hs. unfold output_file_init. rewrite (u32_small bs) by lia.
  destruct (alloc_struct_ok h) as (b1 & h1 & E1 & [C1 N1] & F1).
  erewrite bind_Ok by (by apply on_fst_ok). cbn beta. destruct b1; cbn [negb]; last first.
  { eexists _, _, _, _, st. split_and!; [done..|]. split; [split; [done|simpl in *; lia]|left; auto]. }
  destruct (alloc_struct_ok h1) as (b2 & h2 & E2 & [C2 N2] & F2).
  erewrite bind_Ok by (by apply on_fst_ok). cbn beta. destruct b2; cbn [negb]; last first.
  { eexists _, _, _, _, st. split_and!; [done..|]. simpl in *.
    split; [split; simpl; [congruence|lia]|left; auto]. }
  cbn [of_block_size of_len]. erewrite bind_Ok by (apply divisor_ok; lia). cbn beta zeta.
  set (hd := SparseHeader _ _ _ _ _ _ _ _ _).
  assert (hd = image_header bs len (n + (if crc then 1 else 0))) as ->.
  { unfold hd, image_header. pose proof (Z.div_pos len bs ltac:(lia) ltac:(lia)).
    rewrite quot_div, (u32_small (len / bs)) by lia. f_equal.
    assert (u32 (i32 n) = n) as ->.
    { unfold u32, i32. rewrite Zminus_mod_idemp_l. rewrite Z.add_simpl_r. apply Z.mod_small. destruct crc; lia. }
    destruct crc; [apply u32_small; lia|lia]. }
  destruct (sink_write st p (buf_of (sparse_header_bytes (image_header bs len
    (n + (if crc then 1 else 0))))) SPARSE_HEADER_LEN) as (r & p' & st' & E & S' & D);
    [unfold SPARSE_HEADER_LEN; lia|done|].
  erewrite bind_Ok by (by apply on_snd_ok). cbn beta. destruct (Z.ltb_spec r 0) as [Hr|Hr].
  - eexists r, _, _, _, st'. split_and!; [done|done|].
    destruct (Z.ltb_spec r 0); [|lia]. simpl in *. split; [split; simpl; [congruence|lia]|right].
    destruct D as [->|(? & _ & ? & _)]; [done|lia].
  - eexists 0, _, _, _, st'. split_and!; [done|done|]. cbn [Z.ltb Z.compare].
    split_and!; [split; [congruence|simpl in *; lia]|by split_and!|].
    destruct D as [->|(out & -> & _ & ->)]; [by left|right]. exists out. split; [done|].
    by do 2 f_equal.
Qed.

(** Opening either kind of sparse output file, from a back end that satisfies
    [pre]. *)
Definition opens (pre : option (list byte) -> P -> Prop) (bs len n : Z) (crc : bool)
    (m : M (heap * P) (option output_file)) : Prop :=
  forall h st p, pre st p ->
  exists res h' p', m (h, p) = Ok (res, (h', p')) /\
    match res with
    | None => structs_at h 0 h' /\ open_failed p'
    | Some o => structs_at h 3 h' /\ opened bs len crc o /\ exists st', sink_state st' p' /\
        received st (sparse_header_bytes (image_header bs len (n + (if crc then 1 else 0)))) st'
    end.

Lemma open_callback_ok bs len n (crc : bool) :
  0 < bs < 2 ^ 32 -> 0 <= len -> len / bs < 2 ^ 32 ->
  0 <= n -> n + (if crc then 1 else 0) < 2 ^ 32 ->
  opens sink_state bs len n crc (output_file_open_callback ops bs len true (i32 n) crc).
Proof.
  intros Hbs Hlen Hb Hn Hnc h st p Hs. unfold output_file_open_callback.
  destruct (alloc_struct_ok h) as (b1 & h1 & E1 & [C1 N1] & F1).
  erewrite bind_Ok by (by apply on_fst_ok). cbn beta. destruct b1; cbn [negb]; last first.
  { eexists None, _, _. split; [done|]. split; [split; [done|simpl in *; lia]|left; auto]. }
  destruct (init_ok bs len n crc h1 st p) as (r & o & h2 & p2 & st2 & E2 & S2 & D); [done..|].
  rewrite (bind_Ok _ _ _ _ _ E2). cbn beta match. destruct (r <? 0).
  - destruct D as [[C2 N2] F2]. eexists None, _, _. split; [done|].
    split; [split; simpl; [congruence|lia]|done].
  - destruct D as ([C2 N2] & Ho & Hr). eexists (Some o), _, _. split; [done|].
    split_and!; [split; [congruence|lia]|done|by exists st2].
Qed.

Lemma open_fd_ok (pre : option (list byte) -> P -> Prop) fd bs len n (crc : bool) :
  0 < bs < 2 ^ 32 -> 0 <= len -> len / bs < 2 ^ 32 ->
  0 <= n -> n + (if crc then 1 else 0) < 2 ^ 32 ->
  (forall st p, pre st p -> exists r p', ops_open ops fd p = Ok (r, p') /\ sink_state st p') ->
  opens pre bs len n crc (output_file_open_fd ops fd bs len true (i32 n) crc).
Proof.
  intros Hbs Hlen Hb Hn Hnc Hopen h st p Hs. unfold output_file_open_fd.
  destruct (alloc_struct_ok h) as (b1 & h1 & E1 & [C1 N1] & F1).
  erewrite bind_Ok by (by apply on_fst_ok). cbn beta. destruct b1; cbn [negb]; last first.
  { eexists None, _, _. split; [done|]. split; [split; [done|simpl in *; lia]|left; auto]. }
  destruct (Hopen st p Hs) as (r0 & p0 & E0 & S0).
  erewrite bind_Ok by (by apply on_snd_ok). cbn beta.
  destruct (init_ok bs len n crc h1 st p0) as (r & o & h2 & p2 & st2 & E2 & S2 & D); [done..|].
  rewrite (bind_Ok _ _ _ _ _ E2). cbn beta match. destruct (r <? 0).
  - destruct D as [[C2 N2] F2]. eexists None, _, _. split; [done|].
    split; [split; simpl; [congruence|lia]|done].
  - destruct D as ([C2 N2] & Ho & Hr). eexists (Some o), _, _. split; [done|].
    split_and!; [split; [congruence|lia]|done|by exists st2].
Qed.

(** ** A whole file *)

Context `{HE : Env} (E : input) (s : sparse_file) (xs : list (loc * ablock)).
Notation bs := (s_block_size s).
Hypothesis Him : image_ok bs (s_len s) xs.*2.

Lemma write_and_close_ok h o st p crc :
  lseg h (data_blocks (s_list s)) xs None -> NoDup xs.*1 -> Forall (readable E h) xs.*2 ->
  opened bs (s_len s) crc o -> sink_state st p ->
  exists r h' p' st', write_and_close ops s o (h, p) = Ok (r, (h', p')) /\ sink_state st' p' /\
    structs_at h (-1) h' /\
    received st (chunks_bytes bs (file_chunks E bs (s_len s) xs.*2 crc)) st' /\
    (st' <> None -> r = 0).
Proof using Him HS.
  intros Hl Hnd Hr (Ho & Eb & _ & Ec & Ez & Ezb) Hs.
  assert (Hbs : 0 < bs < 2 ^ 32) by (destruct Him as [[? _] _ _ _ _ _ _ _]; lia).
  assert (Hm : mode_ok o) by (unfold mode_ok; by rewrite Ho).
  destruct (write_all_blocks_ok E h s Hbs xs o st p) as (r & o1 & p1 & st1 & E1 & S1 & W1);
    [done..|by rewrite Ho|done|done|].
  destruct W1 as [C1 D1]. rewrite Ho in D1.
  unfold write_and_close. cbn [fst snd]. rewrite (bind_Ok _ _ _ _ _ E1). cbn beta.
  unfold output_file_close.
  destruct (end_chunk_emits o1 ltac:(rewrite (sc_bs _ _ C1), Eb; lia) st1 p1 S1)
    as (r2 & o2 & p2 & st2 & E2 & C2 & S2 & D2).
  destruct (sink_close st2 p2 h S2) as (p3 & E3 & S3).
  eexists r, (Heap (cells h) (brk h) (structs h - 1)), p3, st2. split_and!; [|done| | |].
  - unfold bind at 1 2. unfold on_snd at 1, write_end_chunk, out_, bind at 1, gets. cbn [fst snd obind].
    rewrite (sc_ops _ _ C1), Ho, E2. cbn [fst snd obind]. by rewrite E3.
  - split; [done|]. simpl. lia.
  - rewrite (sc_crc _ _ C1), (sc_bs _ _ C1), Ec, Eb in D2. rewrite Eb, Ec in D1.
    destruct D2 as [->|(out2 & -> & _ & -> & _)]; [by left|].
    destruct D1 as [?|(out & -> & _ & [= ->] & E4)]; [done|right]. exists out. split; [done|].
    rewrite E4, Ez. unfold file_chunks. destruct crc.
    + rewrite chunks_bytes_app, <- app_assoc. by do 3 f_equal.
    + by rewrite app_nil_r.
  - intros Hne. destruct D2 as [->|(out2 & -> & _)]; [done|].
    destruct D1 as [?|(? & _ & -> & _)]; done.
Qed.

(** What writing a sparse file does: nothing is written when memory is short,
    and otherwise the sink receives the image, the result is 0 if no write
    failed, and the two buffers of the output file stay allocated. *)
Definition file_written (crc : bool) (h : heap) (st : option (list byte)) (r : Z) (h' : heap)
    (p' : P) : Prop :=
  (r = - ENOMEM /\ structs_at h 0 h' /\ open_failed p') \/
  (structs_at h 2 h' /\ exists st', sink_state st' p' /\
     received st (image_bytes bs (s_len s) (file_chunks E bs (s_len s) xs.*2 crc)) st' /\
     (st' <> None -> r = 0)).

Lemma write_file_ok pre (open : Z -> M (heap * P) (option output_file)) h st p crc :
  (forall n, 0 <= n <= s_len s / bs -> opens pre bs (s_len s) n crc (open (i32 n))) ->
  bbl_ok h (s_list s) xs -> Forall (readable E h) xs.*2 -> pre st p ->
  exists r h' p',
    (let! chunks := on_fst (sparse_count_chunks s) in
     let! out := open (i32 chunks) in
     match out with
     | None => ret (- ENOMEM)
     | Some out => write_and_close ops s out
     end) (h, p) = Ok (r, (h', p')) /\ file_written crc h st r h' p'.
Proof using Him HS.
  intros Hopen [Hl Hnd _ _] Hr Hs.
  assert (Hbs : 0 < bs < 2 ^ 32) by (destruct Him as [[? _] _ _ _ _ _ _ _]; lia).
  destruct (image_plan E _ _ _ Him) as (_ & _ & Hn).
  erewrite bind_Ok by (apply on_fst_ok; by apply (sparse_count_chunks_ok E h s Hbs xs)). cbn beta.
  destruct (Hopen (Z.of_nat (length (plan E bs 0 xs.*2 (s_len s / bs)))) (conj (Nat2Z.is_nonneg _) Hn) h st p Hs)
    as (res & h1 & p1 & E1 & D1).
  rewrite (bind_Ok _ _ _ _ _ E1). cbn beta. destruct res as [o|].
  - destruct D1 as ([C1 N1] & Ho & st1 & S1 & R1).
    destruct (write_and_close_ok h1 o st1 p1 crc) as (r & h2 & p2 & st2 & E2 & S2 & [C2 N2] & R2 & Z2);
      [| done | |done..|].
    { eapply lseg_frame; [|done]. intros x _. by rewrite C1. }
    { eapply Forall_impl; [exact Hr|]. intros a. unfold readable. by rewrite C1. }
    exists r, h2, p2. split; [done|]. right. split; [split; [congruence|lia]|].
    exists st2. split_and!; [done| |done].
    pose proof (received_app _ _ _ _ _ R1 R2) as R. unfold image_bytes.
    assert (Ef : Z.of_nat (length (file_chunks E bs (s_len s) xs.*2 crc)) =
      Z.of_nat (length (plan E bs 0 xs.*2 (s_len s / bs))) + (if crc then 1 else 0)).
    { unfold file_chunks. destruct crc; rewrite ?length_app; simpl; lia. }
    by rewrite Ef.
  - exists (- ENOMEM), h1, p1. split; [done|]. by left.
Qed.

(** *** Plain images *)

Context `{HP : !PlainSink ops}.

(** The fields of a freshly opened plain output file. *)
Definition plain_opened (o : output_file) : Prop :=
  sparse_ops o = normal_file_ops /\ of_block_size o = bs /\ of_len o = s_len s.

Lemma plain_write_and_close_ok h o p :
  lseg h (data_blocks (s_list s)) xs None -> NoDup xs.*1 -> Forall (readable E h) xs.*2 ->
  Forall (whole_fill bs) xs.*2 -> bs < 2 ^ 31 -> plain_opened o -> sink_state (Some []) p ->
  exists r h' p' st', write_and_close ops s o (h, p) = Ok (r, (h', p')) /\
    structs_at h (-1) h' /\ plain_done st' p' /\
    (st' = None \/ r = 0 /\ st' = Some (bytes_of (image_byte E bs xs.*2) (s_len s))).
Proof using Him HP.
  intros Hl Hnd Hr Hwf Hb31 (Ho & Eb & El) Hs. pose proof (im_bs _ _ _ Him) as [Hbs H4].
  assert (Hm : mode_ok o) by (unfold mode_ok; by rewrite Ho, Eb).
  destruct (write_all_blocks_ok E h s Hbs xs o (Some []) p) as (r & o1 & p1 & st1 & E1 & S1 & C1 & D1);
    [done..|]. rewrite Ho, Eb, plan_image in D1 by done.
  unfold write_and_close. cbn [fst snd]. rewrite (bind_Ok _ _ _ _ _ E1). cbn beta.
  destruct (plain_pad st1 p1 (s_len s) h S1) as (r2 & p2 & p3 & st2 & E2 & E3 & S3 & D2).
  { intros out ->. destruct D1 as [?|(? & [= <-] & _ & [= ->] & _)]; [done|].
    rewrite length_bytes_of. destruct Him as [_ _ _ _ ? ? _ _]. nia. }
  eexists r, (Heap (cells h) (brk h) (structs h - 1)), p3, st2. split_and!; [| |done|].
  - unfold output_file_close, bind at 1 2. unfold on_snd at 1, write_end_chunk, out_, bind at 1, gets.
    cbn [fst snd obind]. rewrite (sc_ops _ _ C1), Ho. unfold write_normal_end_chunk, bind at 1, out_, gets.
    cbn [fst snd obind]. unfold on_snd at 1. cbn [fst snd]. rewrite (sc_len _ _ C1), El, E2.
    cbn [fst snd obind]. by rewrite E3.
  - split; [done|]. simpl. lia.
  - destruct D2 as [?|?]; subst; [by left|].
    destruct D1 as [->|(out & [= <-] & -> & -> & _)]; [by left|by right].
Qed.
End Top.
