(* ===== verification/SparseWriteProps.v ===== *)
(** * Properties of writing sparse files

    The three back ends as sinks, and the theorems about
    [sparse_file_callback], [sparse_file_write], [sparse_file_len] and
    [sparse_count_chunks]. *)

From S2P Require Import Prelude BackedBlock BackedBlockRefine BlockImage BlockListProps Crc32.
From S2P Require Import OutputFile Sparse SparseFormat SparseWrite.

#[local] Open Scope Z_scope.
#[local] Open Scope c_scope.

(** ** Back ends *)

(** A client of [sparse_file_callback] that keeps the bytes it is given unless it
    reports a failure. *)
Class Client {C : Type} (write : option (list byte) -> Z -> C -> Z * C) : Type := {
  client_state : option (list byte) -> C -> Prop;
  client_write : forall st c data r c', client_state st c ->
    write (Some data) (Z.of_nat (length data)) c = (r, c') ->
    exists st', client_state st' c' /\
      (st' = None \/ exists out, st = Some out /\ 0 <= r /\ st' = Some (out ++ data))
}.

#[export, refine] Instance client_sink {C} (write : option (list byte) -> Z -> C -> Z * C)
    `{Client C write} : Sink (callback_file_ops write) := {|
  sink_state := client_state
|}.
Proof.
  - intros st p data len Hlen Hs. simpl. unfold callback_file_write, cb_call.
    destruct (write (Some (bytes_of data len)) len p) as [r p'] eqn:E.
    replace len with (Z.of_nat (length (bytes_of data len))) in E at 2
      by (rewrite length_bytes_of; lia).
    destruct (client_write st p _ r p' Hs E) as (st' & S' & D). by exists r, p', st'.
  - intros st p h Hs. exists p. split; [done|done].
Defined.

(** The counter that measures a file. *)
#[export, refine] Instance counter_client : Client out_counter_write := {|
  client_state st count :=
    match st with Some out => count = i64 (Z.of_nat (length out)) | None => False end
|}.
Proof.
  intros [out|] c data r c' Hc; [|done]. intros [= <- <-]. subst c.
  exists (Some (out ++ data)). split; [|by right; exists out].
  rewrite length_app, Nat2Z.inj_add. unfold i64.
  replace ((Z.of_nat (length out) + 2 ^ 63) mod 2 ^ 64 - 2 ^ 63 + Z.of_nat (length data) + 2 ^ 63)
    with ((Z.of_nat (length out) + 2 ^ 63) mod 2 ^ 64 + Z.of_nat (length data)) by lia.
  rewrite Zplus_mod_idemp_l. do 2 f_equal. lia.
Defined.

(** A descriptor on which writes append, and may fail or be cut short. *)
Class AppendFile (K : Type) `{Kernel K} : Type := {
  file_state : Z -> option (list byte) -> K -> Prop;
  file_write_law : forall fd st k data r k', file_state fd st k -> sys_write fd data k = (r, k') ->
    exists st', file_state fd st' k' /\
      (st' = None \/ exists out, st = Some out /\ r = Z.of_nat (length data) /\ st' = Some (out ++ data))
}.

#[export, refine] Instance file_sink {K} `{AppendFile K} : Sink (file_ops (K := K)) := {|
  sink_state st outn := file_state (outn_fd outn) st (outn_sys outn)
|}.
Proof.
  - intros st [fd k] data len Hlen Hs. simpl in *.
    unfold file_write, outn_call, bind. simpl. rewrite (u64_small len) by lia.
    destruct (sys_write fd (bytes_of data len) k) as [r k'] eqn:Ew. simpl.
    destruct (file_write_law _ _ _ _ _ _ Hs Ew) as (st' & S' & D).
    rewrite length_bytes_of, Z2Nat.id in D by lia.
    eexists _, _, st'. split_and!; [done|done|].
    destruct D as [->|(out & -> & -> & ->)]; [by left|right]. exists out.
    rewrite i32_small by lia. rewrite Z.ltb_irrefl.
    by destruct (Z.ltb_spec len 0); [lia|].
  - intros st [fd k] h Hs. simpl in *. by exists (OutputFileNormal fd k).
Defined.

(** ** Theorems *)

Section Props.
Context `{HA : Allocator} `{HE : Env} (E : input) (s : sparse_file) (xs : list (loc * ablock)).
Notation bs := (s_block_size s).

(** The open functions at the number of chunks of the file. *)
Lemma open_bounds (crc : bool) n :
  image_ok bs (s_len s) xs.*2 -> 0 <= n <= s_len s / bs ->
  0 < bs < 2 ^ 32 /\ 0 <= s_len s /\ s_len s / bs < 2 ^ 32 /\ 0 <= n /\
  n + (if crc then 1 else 0) < 2 ^ 32.
Proof.
  intros [[Hbs _] _ _ _ Hal Ht _ _] Hn. split_and!; try lia. destruct crc; lia.
Qed.


(** [sparse_file_write] in sparse mode writes exactly the sparse image to the
    descriptor, however the kernel cuts or refuses writes: it returns 0 only
    when nothing failed before the trailing chunks. *)
Theorem sparse_file_write_emits_image {K} `{AppendFile K} h st fd0 fd k crc :
  image_ok bs (s_len s) xs.*2 -> bbl_ok h (s_list s) xs -> Forall (readable E h) xs.*2 ->
  file_state fd st k ->
  exists r h' p', sparse_file_write (file_ops (K := K)) s fd true crc (h, OutputFileNormal fd0 k) =
      Ok (r, (h', p')) /\
    file_written (ops := file_ops) E s xs crc h st r h' p'.
Proof.
  intros Him Hok Hr Hs.
  apply (write_file_ok (ops := file_ops) E s xs Him (fun st outn => file_state fd st (outn_sys outn))
    (fun n => output_file_open_fd file_ops fd bs (s_len s) true n crc)); [|done..].
  intros n Hn. destruct (open_bounds crc n Him Hn) as (? & ? & ? & ? & ?).
  apply open_fd_ok; try done. intros st' [fd' k'] Hs'. by eexists 0, _.
Qed.

(** [sparse_count_chunks] is the number of chunks that writing the file
    emits. *)
Theorem sparse_count_chunks_exact h :
  image_ok bs (s_len s) xs.*2 -> bbl_ok h (s_list s) xs ->
  sparse_count_chunks s h = Ok (Z.of_nat (length (file_chunks E bs (s_len s) xs.*2 false)), h).
Proof.
  intros Him [Hl Hnd _ _]. pose proof (im_bs _ _ _ Him) as [Hbs _].
  by apply (sparse_count_chunks_ok E h s Hbs xs).
Qed.

(** [sparse_file_len] is the size of the sparse image in bytes (as an
    [int64_t]), or -1 when memory is short; the file is not changed. *)
Theorem sparse_file_len_exact h crc :
  image_ok bs (s_len s) xs.*2 -> bbl_ok h (s_list s) xs -> Forall (readable E h) xs.*2 ->
  exists r h', sparse_file_len s true crc h = Ok (r, h') /\ cells h' = cells h /\
    ((r = -1 /\ exists h0, calloc_struct h0 = false) \/ r = i64 (Z.of_nat (length
       (image_bytes bs (s_len s) (file_chunks E bs (s_len s) xs.*2 crc))))).
Proof.
  intros Him Hok Hr. destruct (image_plan E _ _ _ Him) as (_ & _ & Hn).
  set (n := Z.of_nat (length (plan E bs 0 xs.*2 (s_len s / bs)))) in *.
  destruct (open_bounds crc n Him) as (Hbs & H1 & H2 & H3 & H4); [split; [apply Nat2Z.is_nonneg|done]|].
  destruct Hok as [Hl Hnd _ _]. unfold sparse_file_len.
  erewrite bind_Ok by (by apply (sparse_count_chunks_ok E h s Hbs xs)). cbn beta. fold n.
  destruct (open_callback_ok (ops := counter_ops) bs (s_len s) n crc Hbs H1 H2 H3 H4 h (Some []) 0)
    as (res & h1 & c1 & E1 & D1); [done|]. rewrite (bind_Ok _ _ _ _ _ E1). cbn beta.
  destruct res as [o|]; [|destruct D1 as [[? _] [?|[]]]; exists (-1), h1; split_and!; [done|done|by left]].
  destruct D1 as ([C1 N1] & Ho & st1 & S1 & R1).
  destruct (write_and_close_ok E s xs Him h1 o st1 c1 crc) as (r & h2 & c2 & st2 & E2 & S2 & [C2 _] & R2 & Z2);
    [|done| |done..|].
  { eapply lseg_frame; [|done]. intros x _. by rewrite C1. }
  { eapply Forall_impl; [exact Hr|]. intros a. unfold readable. by rewrite C1. }
  rewrite (bind_Ok _ _ _ _ _ E2). cbn beta.
  pose proof (received_app _ _ _ _ _ R1 R2) as [->|(out & [= <-] & ->)]; [done|].
  rewrite Z2 by done. eexists _, h2. split_and!; [done|congruence|right].
  cbn [snd Z.ltb Z.compare] in S2 |- *. by rewrite S2.
Qed.
End Props.

(** ** Instances *)

(** A file of four blocks: a gap, two filled blocks, and one of ten bytes. *)
Definition ex_env : Env := {|
  env_mem _ := Byte.x41;
  env_mmap _ _ _ := inr (fun _ => Byte.x00);
  env_open _ := inr 3
|}.
Definition ex_sparse_input : input :=
  Input (fun _ => Byte.x41) (fun _ _ => Byte.x00) (fun _ _ => Byte.x00).
Definition ex_sparse : sparse_file := SparseFile 16 64 false ex_bbl.
Definition ex_sparse_xs : list (loc * ablock) :=
  [(1%positive, ABlock 1 32 (BACKED_BLOCK_FILL 5)); (2%positive, ABlock 3 10 (BACKED_BLOCK_DATA 1000))].
Definition ex_sparse_heap : heap :=
  Heap {[ 1%positive := OBlock (BackedBlock 1 32 (BACKED_BLOCK_FILL 5) (Some 2%positive));
          2%positive := OBlock (BackedBlock 3 10 (BACKED_BLOCK_DATA 1000) None) ]} 3%positive 2.

Lemma ex_sparse_ok : bbl_ok ex_sparse_heap (s_list ex_sparse) ex_sparse_xs.
Proof.
  constructor; simpl; [|repeat constructor; set_solver|constructor|intros f Hf; inversion Hf].
  split; [done|]. exists (Some 2%positive). split; [done|]. split; [done|]. by exists None.
Qed.

Lemma ex_sparse_image : image_ok (s_block_size ex_sparse) (s_len ex_sparse) ex_sparse_xs.*2.
Proof.
  constructor; simpl; repeat constructor; concrete.
Qed.

Lemma ex_sparse_readable : Forall (@readable ex_env ex_sparse_input ex_sparse_heap) ex_sparse_xs.*2.
Proof. by repeat constructor. Qed.

(** A client that collects the bytes. *)
Definition collect (data : option (list byte)) (len : Z) (c : list byte) : Z * list byte :=
  (0, match data with Some d => c ++ d | None => c end).

#[export, refine] Instance collect_client : Client collect := {|
  client_state st c := st = Some c
|}.
Proof. intros st c data r c' -> [= <- <-]. exists (Some (c ++ data)). split; [done|right; by exists c]. Defined.

(** A kernel with one file, held in memory. *)
#[export] Instance memory_kernel : Kernel (list byte) := {|
  sys_write _ data k := (Z.of_nat (length data), k ++ data);
  sys_lseek_cur _ off k := (Z.of_nat (length k) + off, k ++ replicate (Z.to_nat off) Byte.x00);
  sys_ftruncate _ len k := (0, take (Z.to_nat len) k);
  sys_errno _ := 0
|}.

#[export, refine] Instance memory_file : AppendFile (list byte) := {|
  file_state _ st k := st = Some k
|}.
Proof. intros fd st k data r k' -> [= <- <-]. exists (Some (k ++ data)). split; [done|right; by exists k]. Defined.


Lemma sparse_file_write_emits_image_witness :
  exists r h' p', @sparse_file_write bump_allocator ex_env _ file_ops ex_sparse 7 true true
      (ex_sparse_heap, OutputFileNormal 0 []) = Ok (r, (h', p')) /\
    @file_written _ (file_ops (K := list byte)) _ bump_allocator ex_sparse_input ex_sparse ex_sparse_xs true
      ex_sparse_heap (Some []) r h' p'.
Proof.
  apply (@sparse_file_write_emits_image bump_allocator ex_env ex_sparse_input ex_sparse ex_sparse_xs
    (list byte) _ _).
  - exact ex_sparse_image.
  - exact ex_sparse_ok.
  - exact ex_sparse_readable.
  - reflexivity.
Defined.

Lemma sparse_count_chunks_exact_witness : sparse_count_chunks ex_sparse ex_sparse_heap = Ok (3, ex_sparse_heap).
Proof.
  rewrite (sparse_count_chunks_exact ex_sparse_input ex_sparse ex_sparse_xs ex_sparse_heap
    ex_sparse_image ex_sparse_ok). reflexivity.
Defined.

Lemma sparse_file_len_exact_witness :
  exists h', @sparse_file_len bump_allocator ex_env ex_sparse true true ex_sparse_heap = Ok (100, h').
Proof.
  destruct (@sparse_file_len_exact bump_allocator ex_env ex_sparse_input ex_sparse ex_sparse_xs ex_sparse_heap true
    ex_sparse_image ex_sparse_ok ex_sparse_readable) as (r & h' & E & _ & [[_ [h0 H0]]|Hr]).
  - discriminate H0.
  - exists h'. rewrite E, Hr. do 2 f_equal.
Defined.
