(* ===== verification/PlainWrite.v ===== *)
(** * Writing plain images

    [sparse_file_write] without the sparse format, to a regular file: gaps are
    skipped with [lseek64] and the file is extended to its length with
    [ftruncate64].  The file ends up holding the image, zeros in the gaps. *)

From S2P Require Import Prelude BackedBlock BackedBlockRefine BlockImage BlockListProps Crc32.
From S2P Require Import OutputFile Sparse SparseFormat SparseWrite SparseWriteProps.

#[local] Open Scope Z_scope.
#[local] Open Scope c_scope.

Definition zeros (n : nat) : list byte := replicate n Byte.x00.

(** [data] written over [c] at offset [pos]; a hole before it reads as zeros. *)
Definition overwrite (c : list byte) (pos : nat) (data : list byte) : list byte :=
  take pos (c ++ zeros (pos - length c)) ++ data ++ drop (pos + length data) c.

Definition resize (c : list byte) (n : nat) : list byte := take n (c ++ zeros (n - length c)).

(** POSIX semantics of a regular file open on a descriptor.  Writes may fail or
    be cut short, truncation may fail; [pf_failed] records that this happened. *)
Class PosixFile (K : Type) `{Kernel K} : Type := {
  pf_content : Z -> K -> list byte;
  pf_pos : Z -> K -> nat;
  pf_failed : K -> Prop;
  pf_write : forall fd data k r k', sys_write fd data k = (r, k') ->
    (pf_failed k -> pf_failed k') /\ r <= Z.of_nat (length data) /\
    (r < Z.of_nat (length data) -> pf_failed k') /\
    (0 <= r -> pf_content fd k' = overwrite (pf_content fd k) (pf_pos fd k) (take (Z.to_nat r) data) /\
               pf_pos fd k' = (pf_pos fd k + Z.to_nat r)%nat);
  pf_seek : forall fd off k r k', 0 <= off -> sys_lseek_cur fd off k = (r, k') ->
    (pf_failed k -> pf_failed k') /\ (r < 0 -> pf_failed k') /\
    (0 <= r -> pf_content fd k' = pf_content fd k /\ pf_pos fd k' = (pf_pos fd k + Z.to_nat off)%nat);
  pf_trunc : forall fd n k r k', sys_ftruncate fd n k = (r, k') ->
    (pf_failed k -> pf_failed k') /\ (r < 0 -> pf_failed k') /\
    (0 <= r -> pf_content fd k' = resize (pf_content fd k) (Z.to_nat n))
}.

Lemma overwrite_end c n d :
  overwrite c (length (c ++ zeros n)) d = c ++ zeros n ++ d.
Proof.
  unfold overwrite. rewrite length_app.
  replace (length c + length (zeros n) - length c)%nat with n by (unfold zeros; rewrite length_replicate; lia).
  rewrite <- length_app, firstn_all, drop_ge, app_nil_r, <- app_assoc; [done|].
  rewrite length_app. lia.
Qed.

Lemma resize_zeros c n : resize c (length (c ++ zeros n)) = c ++ zeros n.
Proof.
  unfold resize. rewrite length_app at 2.
  replace (length c + length (zeros n) - length c)%nat with n by (unfold zeros; rewrite length_replicate; lia).
  by rewrite firstn_all.
Qed.

Lemma zeros_app n m : zeros n ++ zeros m = zeros (n + m).
Proof. unfold zeros. by rewrite replicate_add. Qed.

Lemma bytes_of_zeros n : bytes_of (fun _ => Byte.x00) n = zeros (Z.to_nat n).
Proof.
  unfold zeros. apply list_eq_same_length with (Z.to_nat n);
    [by rewrite length_replicate|by rewrite length_bytes_of|].
  intros i x y Hi. rewrite lookup_bytes_of, lookup_replicate_2 by done. congruence.
Qed.

Section Posix.
Context {K : Type} `{HK : PosixFile K}.

(** The stream [out] has been written: the file holds it up to trailing zeros
    that were only skipped. *)
Definition posix_state (st : option (list byte)) (outn : output_file_normal K) : Prop :=
  match st with
  | None => pf_failed (outn_sys outn)
  | Some out => pf_pos (outn_fd outn) (outn_sys outn) = length out /\
      exists n, out = pf_content (outn_fd outn) (outn_sys outn) ++ zeros n
  end.

#[export, refine] Instance posix_sink : Sink (file_ops (K := K)) := {| sink_state := posix_state |}.
Proof.
  - intros st [fd k] data len Hlen Hs. simpl. unfold file_write, outn_call, bind. simpl.
    rewrite (u64_small len) by lia.
    destruct (sys_write fd (bytes_of data len) k) as [r k'] eqn:Ew. simpl.
    destruct (pf_write _ _ _ _ _ Ew) as (F1 & R & F2 & W).
    rewrite length_bytes_of, Z2Nat.id in R, F2 by lia.
    destruct (Z.ltb_spec r len) as [Hr|Hr].
    { eexists _, _, None. split_and!; [done|simpl; auto|by left]. }
    assert (r = len) as -> by lia. rewrite i32_small, Z.ltb_irrefl by lia.
    destruct (Z.ltb_spec len 0); [lia|].
    destruct st as [out|]; [|by eexists _, _, None; split_and!; [done|simpl in *; auto|left]].
    destruct Hs as (Hp & n & Hc). simpl in Hp, Hc. destruct W as [W1 W2]; [lia|].
    rewrite take_ge in W1 by (rewrite length_bytes_of; lia).
    eexists _, _, (Some (out ++ bytes_of data len)). split_and!; [done| |right; exists out; split_and!; done].
    split; simpl.
    + rewrite W2, Hp, length_app, length_bytes_of. done.
    + exists 0%nat. rewrite W1, Hp, Hc, overwrite_end. unfold zeros. simpl. by rewrite app_nil_r, app_assoc.
  - intros st [fd k] h Hs. by exists (OutputFileNormal fd k).
Defined.

#[export, refine] Instance posix_plain : PlainSink (file_ops (K := K)) := {|
  plain_done st outn :=
    match st with
    | None => pf_failed (outn_sys outn)
    | Some out => pf_content (outn_fd outn) (outn_sys outn) = out
    end
|}.
Proof.
  - intros st [fd k] n h Hs Hn. simpl. unfold file_pad, outn_call, bind. simpl.
    destruct (sys_ftruncate fd n k) as [r k'] eqn:Et. simpl.
    destruct (pf_trunc _ _ _ _ _ Et) as (F1 & F2 & W).
    destruct (Z.ltb_spec r 0) as [Hr|Hr].
    { eexists _, _, _, None. split_and!; [done|done|simpl; auto|by left]. }
    destruct st as [out|].
    + eexists _, _, _, (Some out). split_and!; [done|done| |by right].
      simpl. destruct Hs as (_ & m & Hc). rewrite W, <- (Hn out eq_refl), Nat2Z.id by done.
      simpl in Hc. rewrite Hc. apply resize_zeros.
    + eexists _, _, _, None. split_and!; [done|done|simpl in *; auto|by left].
  - intros st [fd k] data len r p' Hl Hs. simpl. unfold file_write, outn_call, bind. simpl.
    destruct (sys_write _ _ _) as [r0 k']. simpl. intros [= <- <-].
    repeat case_match; lia.
  - intros st [fd k] n Hn Hs. simpl. unfold file_skip, outn_call, bind. simpl.
    destruct (sys_lseek_cur fd n k) as [r k'] eqn:Es. simpl.
    destruct (pf_seek fd n k r k' (proj1 Hn) Es) as (F1 & F2 & W).
    destruct (Z.ltb_spec r 0) as [Hr|Hr].
    { eexists _, _, None. split_and!; [done|simpl; auto|by left]. }
    destruct st as [out|]; [|by eexists _, _, None; split_and!; [done|simpl in *; auto|left]].
    destruct W as [W1 W2]; [done|]. destruct Hs as (Hp & m & Hc). simpl in Hp, Hc.
    eexists _, _, (Some (out ++ bytes_of (fun _ => Byte.x00) n)).
    split_and!; [done| |right; by exists out]. rewrite bytes_of_zeros. split; simpl.
    + rewrite W2, Hp, length_app. unfold zeros. by rewrite length_replicate.
    + exists (m + Z.to_nat n)%nat. by rewrite W1, Hc, <- app_assoc, zeros_app.
Defined.
End Posix.

(** ** The theorem *)

Section Plain.
Context {K : Type} `{HK : PosixFile K} `{HA : Allocator} `{HE : Env}.
Context (E : input) (s : sparse_file) (xs : list (loc * ablock)).
Notation bs := (s_block_size s).

(** Opening without the sparse format writes nothing. *)
Lemma plain_open_ok fd fd0 (k : K) h n crc :
  0 < bs < 2 ^ 32 ->
  exists res h' p', output_file_open_fd file_ops fd bs (s_len s) false n crc
      (h, OutputFileNormal fd0 k) = Ok (res, (h', p')) /\
    match res with
    | None => structs_at h 0 h' /\ exists h0, calloc_struct h0 = false
    | Some o => structs_at h 3 h' /\ plain_opened s o /\ p' = OutputFileNormal fd k
    end.
Proof using.
  intros Hbs. unfold output_file_open_fd.
  destruct (alloc_struct_ok h) as (b1 & h1 & E1 & [C1 N1] & F1).
  erewrite bind_Ok by (by apply on_fst_ok). cbn beta. destruct b1; cbn [negb]; last first.
  { eexists None, _, _. split; [done|]. split; [|auto]. split; [done|simpl in *; lia]. }
  erewrite bind_Ok by (by apply on_snd_ok). cbn beta. unfold output_file_init.
  destruct (alloc_struct_ok h1) as (b2 & h2 & E2 & [C2 N2] & F2).
  rewrite (u32_small bs) by lia. unfold bind at 1.
  erewrite bind_Ok by (by apply on_fst_ok). cbn beta. destruct b2; cbn [negb]; last first.
  { eexists None, _, _. split; [done|]. split; [|auto]. split; simpl in *; [congruence|lia]. }
  destruct (alloc_struct_ok h2) as (b3 & h3 & E3 & [C3 N3] & F3).
  erewrite bind_Ok by (by apply on_fst_ok). cbn beta. destruct b3; cbn [negb]; last first.
  { eexists None, _, _. split; [done|]. split; [|auto]. split; simpl in *; [congruence|lia]. }
  eexists (Some _), _, _. split; [done|]. split_and!; [split; simpl in *; [congruence|lia]|done..].
Qed.

(** C8: [sparse_file_write] without the sparse format, on an empty regular file,
    leaves in it exactly the image, the gaps and what partial data blocks leave
    free reading as zeros, and returns 0; unless memory was short ([-ENOMEM],
    nothing written) or a system call failed.  Fills are of whole blocks: the
    code does not fill up a partial one. *)
Theorem sparse_file_write_plain_image h fd0 fd (k : K) crc :
  image_ok bs (s_len s) xs.*2 -> Forall (whole_fill bs) xs.*2 -> bs < 2 ^ 31 -> bbl_ok h (s_list s) xs ->
  Forall (readable E h) xs.*2 -> pf_content fd k = [] -> pf_pos fd k = 0%nat ->
  exists r h' p', sparse_file_write file_ops s fd false crc (h, OutputFileNormal fd0 k) =
      Ok (r, (h', p')) /\ cells h' = cells h /\
    ((r = - ENOMEM /\ exists h0, calloc_struct h0 = false) \/ pf_failed (outn_sys p') \/
     (r = 0 /\ pf_content (outn_fd p') (outn_sys p') = bytes_of (image_byte E bs xs.*2) (s_len s))).
Proof.
  intros Him Hwf H31 [Hl Hnd _ _] Hr Hc Hp. pose proof (im_bs _ _ _ Him) as [Hbs _].
  unfold sparse_file_write.
  erewrite bind_Ok by (apply on_fst_ok; by apply (sparse_count_chunks_ok E h s Hbs xs)). cbn beta.
  set (n := i32 _). destruct (plain_open_ok fd fd0 k h n crc Hbs) as (res & h1 & p1 & E1 & D1).
  rewrite (bind_Ok _ _ _ _ _ E1). cbn beta. destruct res as [o|].
  - destruct D1 as ([C1 N1] & Ho & ->).
    destruct (plain_write_and_close_ok E s xs Him h1 o (OutputFileNormal fd k))
      as (r & h2 & p2 & st2 & E2 & [C2 _] & S2 & D2); [|done| |done|done|done| |].
    { eapply lseg_frame; [|done]. intros x _. by rewrite C1. }
    { eapply Forall_impl; [exact Hr|]. intros a. unfold readable. by rewrite C1. }
    { split; [done|]. exists 0%nat. simpl. by rewrite Hc. }
    exists r, h2, p2. split_and!; [done|congruence|right].
    destruct D2 as [->|[-> ->]]; [by left|by right].
  - destruct D1 as [[C1 _] Hf]. exists (- ENOMEM), h1, p1. split_and!; [done..|]. by left.
Qed.
End Plain.

(** A file in memory: its bytes, its offset, and whether a call failed. *)
Record ram_file : Type := RamFile { ram_data : list byte; ram_pos : nat; ram_err : bool }.

#[export] Instance ram_kernel : Kernel ram_file := {|
  sys_write _ data k := (Z.of_nat (length data),
    RamFile (overwrite (ram_data k) (ram_pos k) data) (ram_pos k + length data) (ram_err k));
  sys_lseek_cur _ off k :=
    if Z.of_nat (ram_pos k) + off <? 0 then (-1, RamFile (ram_data k) (ram_pos k) true)
    else (Z.of_nat (ram_pos k) + off,
          RamFile (ram_data k) (Z.to_nat (Z.of_nat (ram_pos k) + off)) (ram_err k));
  sys_ftruncate _ n k :=
    if n <? 0 then (-1, RamFile (ram_data k) (ram_pos k) true)
    else (0, RamFile (resize (ram_data k) (Z.to_nat n)) (ram_pos k) (ram_err k));
  sys_errno _ := EINVAL
|}.

#[export, refine] Instance ram_posix : PosixFile ram_file := {|
  pf_content _ k := ram_data k;
  pf_pos _ k := ram_pos k;
  pf_failed k := ram_err k = true
|}.
Proof.
  - intros fd data k r k' [= <- <-]. split_and!; [done|lia|lia|]. intros _. simpl.
    rewrite Nat2Z.id, take_ge by lia. done.
  - intros fd off k r k' Ho. simpl. case_match; [lia|]. intros [= <- <-]. split_and!; [done|lia|].
    intros _. simpl. split; [done|]. lia.
  - intros fd n k r k'. simpl. case_match; intros [= <- <-]; split_and!; try done; lia.
Defined.

Lemma sparse_file_write_plain_image_witness :
  exists r h' p', @sparse_file_write bump_allocator ex_env _ file_ops ex_sparse 7 false false
      (ex_sparse_heap, OutputFileNormal 0 (RamFile [] 0 false)) = Ok (r, (h', p')) /\
    (pf_failed (outn_sys p') \/
     (r = 0 /\ ram_data (outn_sys p') = bytes_of (image_byte ex_sparse_input 16 ex_sparse_xs.*2) 64)).
Proof.
  destruct (@sparse_file_write_plain_image ram_file _ _ bump_allocator ex_env ex_sparse_input ex_sparse
    ex_sparse_xs ex_sparse_heap 0 7 (RamFile [] 0 false) false) as (r & h' & p' & E & _ & [[_ [h0 H0]]|D]).
  - exact ex_sparse_image.
  - repeat constructor.
  - reflexivity.
  - exact ex_sparse_ok.
  - exact ex_sparse_readable.
  - reflexivity.
  - reflexivity.
  - discriminate H0.
  - exists r, h', p'. split; assumption.
Defined.
