(* ===== verification/SparseRead.v ===== *)
(** * Reading sparse images (core/libsparse/sparse_read.c)

    The reader parses the header and the chunks of a sparse image from a
    descriptor and rebuilds the backed block list, or turns a plain image into
    one; with a checksum it recomputes the CRC of the image.  The descriptor is
    read through the class [ReadKernel]. *)

From S2P Require Import Prelude BackedBlock Crc32 OutputFile Sparse.

#[local] Open Scope Z_scope.
#[local] Open Scope c_scope.

(** [read]: the returned value and the bytes; [lseek64]. *)
Class ReadKernel (R : Type) : Type := {
  sys_read : Z -> Z -> R -> (Z * list byte) * R;
  sys_lseek : Z -> Z -> whence -> R -> Z * R;
  rd_errno : R -> Z
}.

(** The static [copybuf], once allocated, and the kernel. *)
Record reader (R : Type) : Type := Reader { copybuf : bool; rd_sys : R }.
Arguments Reader {R}.
Arguments copybuf {R}.
Arguments rd_sys {R}.

Definition COPY_BUF_SIZE : Z := 1024 * 1024.

Definition parse_sparse_header (l : list byte) : sparse_header :=
  SparseHeader (field l 0 4) (field l 4 2) (field l 6 2) (field l 8 2) (field l 10 2)
    (field l 12 4) (field l 16 4) (field l 20 4) (field l 24 4).

Definition parse_chunk_header (l : list byte) : chunk_header :=
  ChunkHeader (field l 0 2) (field l 2 2) (field l 4 4) (field l 8 4).

Section Read.
Context {R : Type} `{ReadKernel R} `{Allocator}.
Notation rstate := (heap * reader R)%type.

Definition rd_call {A} (f : R -> A * R) : M rstate A := fun st =>
  let '(a, k) := f (rd_sys st.2) in Ok (a, (st.1, Reader (copybuf st.2) k)).

Definition lseek64 (fd off : Z) (w : whence) : M rstate Z := rd_call (sys_lseek fd off w).

(** The loop of [read_all] (output_file.c); the bytes read so far are [acc]. *)
Fixpoint read_loop (fuel : nat) (fd len : Z) (acc : list byte) : M rstate (Z * list byte) :=
  if Z.of_nat (length acc) <? len then
    match fuel with
    | O => no_fuel
    | S fuel =>
      let! (r, data) := rd_call (sys_read fd (len - Z.of_nat (length acc))) in
      if i32 r <? 0 then let! e := gets (fun st => rd_errno (rd_sys st.2)) in ret (- e, acc)
      else if i32 r =? 0 then ret (- EINVAL, acc)
      else read_loop fuel fd len (acc ++ data)
    end
  else ret (0, acc).

Definition read_all (fd len : Z) : M rstate (Z * list byte) :=
  read_loop (Z.to_nat len) fd len [].

(** ** Checksums *)

(** Reads [len] bytes through [copybuf] into the checksum. *)
Fixpoint raw_crc_loop (fuel : nat) (fd len crc : Z) : M rstate (Z * Z) :=
  if len =? 0 then ret (0, crc)
  else
    match fuel with
    | O => no_fuel
    | S fuel =>
      let chunk := Z.min len COPY_BUF_SIZE in
      let! (r, data) := read_all fd chunk in
      if r <? 0 then ret (r, crc)
      else raw_crc_loop fuel fd (u32 (len - chunk)) (sparse_crc32 crc data)
    end.

(** Checksums [len] bytes of a buffer that repeats. *)
Fixpoint buf_crc_loop (fuel : nat) (buf : buffer) (len crc : Z) : outcome Z :=
  if len =? 0 then Ok crc
  else
    match fuel with
    | O => NoFuel
    | S fuel =>
      let chunk := Z.min len COPY_BUF_SIZE in
      buf_crc_loop fuel buf (len - chunk) (sparse_crc32 crc (bytes_of buf chunk))
    end.

(** [copybuf] with [fill_val] in every word. *)
Definition fill_copybuf (fill_val : Z) : buffer :=
  fun i => nth (Z.to_nat (i mod 4)) (le 4 fill_val) Byte.x00.

(** A length is negative only after an overflow, and is then taken as the
    size of a buffer that is not there. *)
Definition buf_crc (buf : buffer) (len : Z) (crc : Z) : outcome Z :=
  if len <? 0 then UB else
  buf_crc_loop (S (Z.to_nat (len / COPY_BUF_SIZE))) buf len crc.

(** ** Chunks

    [crc] is [*crc32], or [None] for a null pointer; the updated file and
    checksum are returned with the result. *)

Definition process_raw_chunk (s : sparse_file) (chunk_size fd offset blocks block : Z) (crc : option Z)
  : M rstate (Z * (sparse_file * option Z)) :=
  let len := u32 (blocks * s_block_size s) in
  divisor (s_block_size s) ;;!
  if negb (chunk_size mod s_block_size s =? 0) then ret (- EINVAL, (s, crc))
  else if negb (chunk_size / s_block_size s =? blocks) then ret (- EINVAL, (s, crc))
  else
    let! (r, s) := on_fst (sparse_file_add_fd s fd offset len block) in
    if r <? 0 then ret (r, (s, crc))
    else
      match crc with
      | Some c =>
        let! (r, c) := raw_crc_loop (S (Z.to_nat (len / COPY_BUF_SIZE))) fd len c in
        ret (if r <? 0 then r else 0, (s, Some c))
      | None => lseek64 fd len SEEK_CUR ;;! ret (0, (s, None))
      end.

(** The length of the fill is cut to an [unsigned int] by the call. *)
Definition process_fill_chunk (s : sparse_file) (chunk_size fd blocks block : Z) (crc : option Z)
  : M rstate (Z * (sparse_file * option Z)) :=
  let len := i64 (blocks * s_block_size s) in
  if negb (chunk_size =? 4) then ret (- EINVAL, (s, crc))
  else
    let! (r, data) := read_all fd 4 in
    if r <? 0 then ret (r, (s, crc))
    else
      let fill_val := le_combine data in
      let! (r, s) := on_fst (sparse_file_add_fill s fill_val (u32 len) block) in
      if r <? 0 then ret (r, (s, crc))
      else
        match crc with
        | Some c => let! c := lift (buf_crc (fill_copybuf fill_val) len c) in ret (0, (s, Some c))
        | None => ret (0, (s, None))
        end.

Definition process_skip_chunk (s : sparse_file) (chunk_size blocks : Z) (crc : option Z)
  : M rstate (Z * option Z) :=
  if negb (chunk_size =? 0) then ret (- EINVAL, crc)
  else
    match crc with
    | Some c =>
      let! c := lift (buf_crc (fun _ => Byte.x00) (i64 (blocks * s_block_size s)) c) in
      ret (0, Some c)
    | None => ret (0, None)
    end.

Definition process_crc32_chunk (fd chunk_size crc : Z) : M rstate Z :=
  if negb (chunk_size =? 4) then ret (- EINVAL)
  else
    let! (r, data) := read_all fd 4 in
    if r <? 0 then ret r
    else ret (if le_combine data =? crc then 0 else - EINVAL).

(** An unknown chunk type is reported and accepted as a chunk of no blocks. *)
Definition process_chunk (s : sparse_file) (fd offset chunk_hdr_sz : Z) (ch : chunk_header)
    (cur_block : Z) (crc : option Z) : M rstate (Z * (sparse_file * option Z)) :=
  let chunk_data_size := u32 (total_sz ch - chunk_hdr_sz) in
  if chunk_type ch =? CHUNK_TYPE_RAW then
    let! (r, (s, crc)) :=
      process_raw_chunk s chunk_data_size fd offset (chunk_sz ch) cur_block crc in
    ret (if r <? 0 then r else i32 (chunk_sz ch), (s, crc))
  else if chunk_type ch =? CHUNK_TYPE_FILL then
    let! (r, (s, crc)) := process_fill_chunk s chunk_data_size fd (chunk_sz ch) cur_block crc in
    ret (if r <? 0 then r else i32 (chunk_sz ch), (s, crc))
  else if chunk_type ch =? CHUNK_TYPE_DONT_CARE then
    let! (r, crc) := process_skip_chunk s chunk_data_size (chunk_sz ch) crc in
    ret (if negb (chunk_data_size =? 0) && (r <? 0) then r else i32 (chunk_sz ch), (s, crc))
  else if chunk_type ch =? CHUNK_TYPE_CRC32 then
    match crc with
    | None => undef
    | Some c =>
      let! r := process_crc32_chunk fd chunk_data_size c in
      ret (if r <? 0 then r else 0, (s, crc))
    end
  else ret (0, (s, crc)).

(** ** Sparse images *)

Fixpoint chunk_loop (n : nat) (s : sparse_file) (fd : Z) (sh : sparse_header) (cur_block : Z)
    (crc : option Z) : M rstate (Z * (sparse_file * Z)) :=
  match n with
  | O => ret (0, (s, cur_block))
  | S n =>
    let! (r, data) := read_all fd CHUNK_HEADER_LEN in
    if r <? 0 then ret (r, (s, cur_block))
    else
      (if CHUNK_HEADER_LEN <? chunk_hdr_sz sh
       then lseek64 fd (chunk_hdr_sz sh - CHUNK_HEADER_LEN) SEEK_CUR else ret 0) ;;!
      let! offset := lseek64 fd 0 SEEK_CUR in
      let! (r, (s, crc)) :=
        process_chunk s fd offset (chunk_hdr_sz sh) (parse_chunk_header data) cur_block crc in
      if r <? 0 then ret (r, (s, cur_block))
      else chunk_loop n s fd sh (u32 (cur_block + r)) crc
  end.

(** The checks both the importer and the reader make on a header. *)
Definition header_ok (sh : sparse_header) : bool :=
  (magic sh =? SPARSE_HEADER_MAGIC) && (major_version sh =? SPARSE_HEADER_MAJOR_VER) &&
  negb (file_hdr_sz sh <? SPARSE_HEADER_LEN) && negb (chunk_hdr_sz sh <? CHUNK_HEADER_LEN).

Definition alloc_copybuf : M rstate bool :=
  let! have := gets (fun st => copybuf st.2) in
  if (have : bool) then ret true
  else
    let! ok := on_fst alloc_struct in
    (if (ok : bool) then fun st => Ok (tt, (st.1, Reader true (rd_sys st.2))) else ret tt) ;;!
    ret ok.

Definition sparse_file_read_sparse (s : sparse_file) (fd : Z) (crc : bool)
  : M rstate (Z * sparse_file) :=
  let! ok := alloc_copybuf in
  if negb ok then ret (- ENOMEM, s)
  else
    let! (r, data) := read_all fd SPARSE_HEADER_LEN in
    if r <? 0 then ret (r, s)
    else
      let sh := parse_sparse_header data in
      if negb (header_ok sh) then ret (- EINVAL, s)
      else
        (if SPARSE_HEADER_LEN <? file_hdr_sz sh
         then lseek64 fd (file_hdr_sz sh - SPARSE_HEADER_LEN) SEEK_CUR else ret 0) ;;!
        let! (r, (s, cur_block)) := chunk_loop (Z.to_nat (total_chunks sh)) s fd sh 0
          (if crc then Some 0 else None) in
        if r <? 0 then ret (r, s)
        else ret (if total_blks sh =? cur_block then 0 else - EINVAL, s).

(** ** Plain images *)

Definition word (l : list byte) (i : nat) : Z := field l (4 * i) 4.

(** Whether all words of the block are equal. *)
Definition uniform (l : list byte) (block_size : Z) : bool :=
  forallb (fun i => word l 0 =? word l i) (seq 1 (Z.to_nat (block_size / 4) - 1)).

(** The results of the two [sparse_file_add] calls are not looked at. *)
Fixpoint normal_loop (fuel : nat) (s : sparse_file) (fd block remain offset : Z)
  : M rstate (Z * sparse_file) :=
  if remain <=? 0 then ret (0, s)
  else
    match fuel with
    | O => no_fuel
    | S fuel =>
      let to_read := Z.min remain (s_block_size s) in
      let! (r, buf) := read_all fd to_read in
      if r <? 0 then ret (r, s)
      else
        let! (_, s) :=
          if (to_read =? s_block_size s) && uniform buf (s_block_size s) then
            if s_block_size s <? 4 then undef
            else on_fst (sparse_file_add_fill s (word buf 0) to_read block)
          else on_fst (sparse_file_add_fd s fd offset to_read block) in
        normal_loop fuel s fd (u32 (block + 1)) (remain - to_read) (i64 (offset + to_read))
    end.

(** The buffer is never freed. *)
Definition sparse_file_read_normal (s : sparse_file) (fd : Z) : M rstate (Z * sparse_file) :=
  let! ok := on_fst alloc_struct in
  if negb ok then ret (- ENOMEM, s)
  else normal_loop (S (Z.to_nat (s_len s / s_block_size s))) s fd 0 (s_len s) 0.

Definition sparse_file_read (s : sparse_file) (fd : Z) (sparse crc : bool)
  : M rstate (Z * sparse_file) :=
  if crc && negb sparse then ret (- EINVAL, s)
  else if sparse then sparse_file_read_sparse s fd crc
  else sparse_file_read_normal s fd.

(** ** Importing *)

Definition sparse_file_import (fd : Z) (verb crc : bool) : M rstate (option sparse_file) :=
  let! (r, data) := read_all fd SPARSE_HEADER_LEN in
  if r <? 0 then ret None
  else
    let sh := parse_sparse_header data in
    if negb (header_ok sh) then ret None
    else
      let len := i64 (total_blks sh * blk_sz sh) in
      let! s := on_fst (sparse_file_new (blk_sz sh) len) in
      match s with
      | None => ret None
      | Some s =>
        let! r := lseek64 fd 0 SEEK_SET in
        if i32 r <? 0 then on_fst (sparse_file_destroy s) ;;! ret None
        else
          let s := SparseFile (s_block_size s) (s_len s) verb (s_list s) in
          let! (r, s) := sparse_file_read s fd true crc in
          if r <? 0 then on_fst (sparse_file_destroy s) ;;! ret None
          else ret (Some s)
      end.

Definition sparse_file_import_auto (fd : Z) (crc verb : bool) : M rstate (option sparse_file) :=
  let! s := sparse_file_import fd verb crc in
  match s with
  | Some s => ret (Some s)
  | None =>
    let! len := lseek64 fd 0 SEEK_END in
    if len <? 0 then ret None
    else
      lseek64 fd 0 SEEK_SET ;;!
      let! s := on_fst (sparse_file_new 4096 len) in
      match s with
      | None => ret None
      | Some s =>
        let! (r, s) := sparse_file_read_normal s fd in
        if r <? 0 then on_fst (sparse_file_destroy s) ;;! ret None
        else ret (Some s)
      end
  end.

End Read.
