(* ===== verification/ReadProps.v ===== *)
(** * Properties of the reader

    Against a descriptor on a regular file ([ReadFile]: reads may be cut short,
    but return bytes of the file) [read_all] is exact, every chunk is parsed
    back, and importing a written image gives the file it was written from. *)

From S2P Require Import Prelude BackedBlock BackedBlockRefine BlockImage BlockListProps.
From S2P Require Import BlockListMove Crc32 OutputFile Sparse SparseFormat SparseRead.

#[local] Open Scope Z_scope.
#[local] Open Scope c_scope.

(** A regular file that is read from an offset.  Reads may return fewer bytes
    than asked for, and none only at the end of the file. *)
Class ReadFile (R : Type) `{ReadKernel R} : Type := {
  rf_content : Z -> R -> list byte;
  rf_pos : Z -> R -> nat;
  rf_read : forall fd count k r data k', 0 < count < 2 ^ 31 -> sys_read fd count k = ((r, data), k') ->
    r = Z.of_nat (length data) /\ r <= count /\
    data = take (length data) (drop (rf_pos fd k) (rf_content fd k)) /\
    (data = [] -> drop (rf_pos fd k) (rf_content fd k) = []) /\
    rf_content fd k' = rf_content fd k /\ rf_pos fd k' = (rf_pos fd k + length data)%nat;
  rf_seek : forall fd off w k r k', sys_lseek fd off w k = (r, k') ->
    let target := off + match w with
      | SEEK_SET => 0 | SEEK_CUR => Z.of_nat (rf_pos fd k)
      | SEEK_END => Z.of_nat (length (rf_content fd k)) end in
    0 <= target < 2 ^ 63 ->
    r = target /\ rf_content fd k' = rf_content fd k /\ rf_pos fd k' = Z.to_nat target
}.

(** ** Headers *)

Record chunk_header_wf (h : chunk_header) : Prop := {
  ch_type : 0 <= chunk_type h < 2 ^ 16;
  ch_res : 0 <= reserved1 h < 2 ^ 16;
  ch_sz : 0 <= chunk_sz h < 2 ^ 32;
  ch_total : 0 <= total_sz h < 2 ^ 32
}.

Lemma parse_chunk_header_bytes h :
  chunk_header_wf h -> parse_chunk_header (chunk_header_bytes h) = h.
Proof.
  intros [H1 H2 H3 H4]. destruct h as [ty res sz tot]. unfold parse_chunk_header, chunk_header_bytes.
  cbn [chunk_type reserved1 chunk_sz total_sz] in *. f_equal.
  - by apply (field_le [] ty).
  - by apply (field_le (le 2 ty) res); [|rewrite length_le].
  - rewrite (app_assoc (le 2 ty)). apply (field_le _ sz); [done|]. by rewrite length_app, !length_le.
  - rewrite (app_assoc (le 2 ty)), (app_assoc (le 2 ty ++ _)), <- (app_nil_r (le 4 tot)).
    apply (field_le _ tot []); [done|]. by rewrite !length_app, !length_le.
Qed.

Record sparse_header_wf (h : sparse_header) : Prop := {
  sh_magic : 0 <= magic h < 2 ^ 32;
  sh_major : 0 <= major_version h < 2 ^ 16;
  sh_minor : 0 <= minor_version h < 2 ^ 16;
  sh_fhs : 0 <= file_hdr_sz h < 2 ^ 16;
  sh_chs : 0 <= chunk_hdr_sz h < 2 ^ 16;
  sh_blk : 0 <= blk_sz h < 2 ^ 32;
  sh_total : 0 <= total_blks h < 2 ^ 32;
  sh_chunks : 0 <= total_chunks h < 2 ^ 32;
  sh_crc : 0 <= image_checksum h < 2 ^ 32
}.

Lemma parse_sparse_header_bytes h :
  sparse_header_wf h -> parse_sparse_header (sparse_header_bytes h) = h.
Proof.
  intros [H1 H2 H3 H4 H5 H6 H7 H8 H9]. destruct h as [m ma mi fh ch bk tb tc ic].
  unfold parse_sparse_header, sparse_header_bytes.
  cbn [magic major_version minor_version file_hdr_sz chunk_hdr_sz blk_sz total_blks total_chunks
    image_checksum] in *.
  f_equal.
  - by apply (field_le [] m).
  - by apply (field_le (le 4 m) ma).
  - by apply (field_le (le 4 m ++ le 2 ma) mi).
  - by apply (field_le (le 4 m ++ le 2 ma ++ le 2 mi) fh).
  - by apply (field_le (le 4 m ++ le 2 ma ++ le 2 mi ++ le 2 fh) ch).
  - by apply (field_le (le 4 m ++ le 2 ma ++ le 2 mi ++ le 2 fh ++ le 2 ch) bk).
  - by apply (field_le (le 4 m ++ le 2 ma ++ le 2 mi ++ le 2 fh ++ le 2 ch ++ le 4 bk) tb).
  - by apply (field_le (le 4 m ++ le 2 ma ++ le 2 mi ++ le 2 fh ++ le 2 ch ++ le 4 bk ++ le 4 tb) tc).
  - by apply (field_le (le 4 m ++ le 2 ma ++ le 2 mi ++ le 2 fh ++ le 2 ch ++ le 4 bk ++ le 4 tb ++ le 4 tc)
      ic []).
Qed.

(** ** Appending blocks *)

Lemma queue_spec_append bs (l : list ablock) a :
  Forall (fun b => a_block b < a_block a) l ->
  (forall b, last l = Some b -> try_merge bs b a = None) ->
  queue_spec bs l a = l ++ [a] /\ queue_absorbed bs l a = false.
Proof.
  intros Hl Hm. destruct (filter_halves (a_block a) l []) as [E1 E2]; [done..|].
  rewrite app_nil_r in E1, E2. unfold queue_spec, queue_absorbed. rewrite E1, E2. cbn [merge_next fst].
  destruct (last l) as [b|] eqn:El.
  - by rewrite (Hm b eq_refl).
  - apply last_None in El as ->. done.
Qed.

(** Adding a block without a name behind all others, next to nothing it would
    merge with. *)
Lemma add_append `{Allocator} h bbl xs r :
  let a := request_block r in
  (match r with AddFile _ _ _ _ => False | _ => True end) ->
  0 < bbl_block_size bbl -> bbl_ok h bbl xs -> last_used_ok bbl xs -> sorted xs.*2 ->
  Forall (fun b => a_block b < a_block a) xs.*2 ->
  (forall b, last xs.*2 = Some b -> try_merge (bbl_block_size bbl) b a = None) ->
  (malloc h = None /\ backed_block_add bbl r h = Ok ((- ENOMEM, bbl), h)) \/
  exists bbl' h' xs', backed_block_add bbl r h = Ok ((0, bbl'), h') /\
    bbl_ok h' bbl' xs' /\ last_used_ok bbl' xs' /\ xs'.*2 = xs.*2 ++ [a] /\
    bbl_block_size bbl' = bbl_block_size bbl.
Proof.
  intros a Hr Hbs Hok Hlu Hs Hlt Hm.
  destruct (add_prepare h bbl xs r Hok) as [?|(new & h1 & a' & -> & Hok1 & Hq & Hreq & _ & _)]; [by left|right].
  assert (a' = a) as -> by (by destruct r).
  destruct (queue_spec_append _ _ _ Hlt Hm) as [Eq Ea].
  destruct (queue_bb_ok bbl h1 xs new a) as (bbl' & h' & xs' & E & Q); try done.
  { rewrite list_elem_of_fmap. intros (b & Hb & Hin). rewrite Forall_forall in Hlt.
    specialize (Hlt b Hin). lia. }
  destruct Q. exists bbl', h', xs'. split_and!; [done|done|by apply q_last|congruence|done].
Qed.

Section Reader.
Context {R : Type} `{HR : ReadFile R}.
Notation rstate := (heap * reader R)%type.

(** The reader's view: the file [c] at offset [p]. *)
Definition at_pos (fd : Z) (c : list byte) (p : nat) (rd : reader R) : Prop :=
  rf_content fd (rd_sys rd) = c /\ rf_pos fd (rd_sys rd) = p.

Lemma read_loop_ok fd c p len h : forall fuel rd acc,
  at_pos fd c (p + length acc) rd -> acc = take (length acc) (drop p c) -> (p <= length c)%nat ->
  (length acc <= len)%nat -> (len - length acc <= fuel)%nat -> Z.of_nat len < 2 ^ 31 ->
  exists r acc' rd', read_loop fuel fd (Z.of_nat len) acc (h, rd) = Ok ((r, acc'), (h, rd')) /\
    copybuf rd' = copybuf rd /\
    if (p + len <=? length c)%nat
    then r = 0 /\ acc' = take len (drop p c) /\ at_pos fd c (p + len) rd'
    else r = - EINVAL.
Proof.
  induction fuel as [|fuel IH]; intros rd acc [Hc Hp] Hacc Hpc Hle Hf Hlen; cbn [read_loop];
    assert (Hal : (length acc <= length c - p)%nat)
      by (rewrite Hacc, length_take, length_drop; lia);
    (destruct (Z.ltb_spec (Z.of_nat (length acc)) (Z.of_nat len)) as [Hlt|Hge]; last first).
  1, 3: assert (length acc = len) as El by lia; subst len; exists 0, acc, rd; split_and!; [done..|];
    by destruct (Nat.leb_spec (p + length acc) (length c)); [|lia].
  { lia. }
  unfold rd_call, bind at 1. cbn [fst snd].
  destruct (sys_read fd (Z.of_nat len - Z.of_nat (length acc)) (rd_sys rd)) as [[r data] k'] eqn:Er.
  destruct (rf_read fd (Z.of_nat len - Z.of_nat (length acc)) (rd_sys rd) r data k' ltac:(lia) Er) as (Hr & Hcount & Hdata & Heof & Hc' & Hp').
  cbn [obind fst snd]. rewrite i32_small by lia. destruct (Z.ltb_spec r 0); [lia|].
  rewrite Hc, Hp in Hdata, Heof. rewrite Hc in Hc'. rewrite Hp in Hp'.
  rewrite <- drop_drop in Hdata, Heof.
  destruct (Z.eqb_spec r 0) as [->|Hr0].
  - assert (data = []) as -> by (destruct data; [done|simpl in Hr; lia]).
    exists (- EINVAL), acc, (Reader (copybuf rd) k'). split_and!; [done..|].
    specialize (Heof eq_refl). apply (f_equal length) in Heof. rewrite !length_drop in Heof.
    simpl in Heof. destruct (Nat.leb_spec (p + len) (length c)); [lia|done].
  - apply (IH (Reader (copybuf rd) k') (acc ++ data)); try done.
    + split; [done|]. rewrite length_app. simpl. rewrite Hp'. lia.
    + rewrite length_app, <- take_take_drop, <- Hacc. by rewrite <- Hdata.
    + rewrite length_app. lia.
    + rewrite length_app. destruct data; simpl in *; lia.
Qed.

Lemma read_all_ok fd c p len h rd :
  at_pos fd c p rd -> (p <= length c)%nat -> Z.of_nat len < 2 ^ 31 ->
  exists r data rd', read_all fd (Z.of_nat len) (h, rd) = Ok ((r, data), (h, rd')) /\
    copybuf rd' = copybuf rd /\
    if (p + len <=? length c)%nat
    then r = 0 /\ data = take len (drop p c) /\ at_pos fd c (p + len) rd'
    else r = - EINVAL.
Proof.
  intros Hat Hp Hl. unfold read_all.
  apply (read_loop_ok fd c p len h _ rd []); simpl; try done; [by rewrite Nat.add_0_r|lia|lia].
Qed.

(** whatever the kernel's short reads, [read_all] terminates and either
    delivers exactly the next [len] bytes of the file and leaves the offset
    behind them, or returns -EINVAL because the file ends before that. *)
Theorem read_all_exact fd c p len h rd :
  at_pos fd c p rd -> (p <= length c)%nat -> Z.of_nat len < 2 ^ 31 ->
  exists r data rd', read_all fd (Z.of_nat len) (h, rd) = Ok ((r, data), (h, rd')) /\
    if (p + len <=? length c)%nat
    then r = 0 /\ data = take len (drop p c) /\ at_pos fd c (p + len) rd'
    else r = - EINVAL.
Proof.
  intros Hat Hp Hl. destruct (read_all_ok fd c p len h rd Hat Hp Hl) as (r & data & rd' & E & _ & D).
  by exists r, data, rd'.
Qed.

(** The next bytes of the file are [l]. *)
Lemma read_next fd c p l rest h rd :
  at_pos fd c p rd -> drop p c = l ++ rest -> (p <= length c)%nat -> Z.of_nat (length l) < 2 ^ 31 ->
  exists rd', read_all fd (Z.of_nat (length l)) (h, rd) = Ok ((0, l), (h, rd')) /\
    copybuf rd' = copybuf rd /\ at_pos fd c (p + length l) rd'.
Proof.
  intros Hat Hd Hp Hl. destruct (read_all_ok fd c p (length l) h rd Hat Hp Hl) as (r & data & rd' & E & Hb & D).
  assert (Hlen := f_equal length Hd). rewrite length_drop, length_app in Hlen.
  destruct (Nat.leb_spec (p + length l) (length c)) as [_|?]; [|lia].
  destruct D as (-> & -> & Hat'). rewrite Hd, take_app_length in E. by exists rd'.
Qed.

Lemma seek_cur fd c p off h rd :
  at_pos fd c p rd -> 0 <= Z.of_nat p + off < 2 ^ 63 ->
  exists rd', lseek64 fd off SEEK_CUR (h, rd) = Ok (Z.of_nat p + off, (h, rd')) /\
    copybuf rd' = copybuf rd /\ at_pos fd c (Z.to_nat (Z.of_nat p + off)) rd'.
Proof.
  intros [Hc Hp] Ho. unfold lseek64, rd_call. cbn [fst snd].
  destruct (sys_lseek fd off SEEK_CUR (rd_sys rd)) as [r k'] eqn:Es.
  destruct (rf_seek _ _ _ _ _ _ Es) as (-> & Hc' & Hp'); [rewrite Hp; lia|].
  exists (Reader (copybuf rd) k'). rewrite Hp in *. split_and!; [by rewrite Z.add_comm|done|].
  split; [simpl; congruence|]. simpl. rewrite Hp'. f_equal. lia.
Qed.

(** ** Chunks *)

Context `{HA : Allocator}.

(** A chunk of an image whose raw chunks fit an [int]. *)
Definition chunk_ok (bs : Z) (c : chunk) : Prop :=
  0 <= chunk_blocks c < 2 ^ 31 /\
  match c with
  | Raw n data => n * bs + 4096 < 2 ^ 31 /\ Z.of_nat (length data) = n * bs
  | Fill n v => 0 <= v < 2 ^ 32 /\ n * bs < 2 ^ 32
  | DontCare _ => True
  | CrcChunk v => 0 <= v < 2 ^ 32
  end.

Lemma chunk_head_wf bs c : 0 < bs -> chunk_ok bs c -> chunk_header_wf (chunk_head bs c).
Proof.
  intros Hbs [Hn Hc]. destruct c; simpl in *; constructor; simpl;
    unfold CHUNK_TYPE_RAW, CHUNK_TYPE_FILL, CHUNK_TYPE_DONT_CARE, CHUNK_TYPE_CRC32, CHUNK_HEADER_LEN;
    lia || nia.
Qed.

(** One round of the chunk loop: the header of [ch] is read and parsed. *)
Lemma chunk_loop_step fd c p ch rest bs n s sh cur crc h rd :
  0 < bs -> chunk_ok bs ch -> chunk_hdr_sz sh = 12 -> (p <= length c)%nat ->
  Z.of_nat (length c) < 2 ^ 62 ->
  at_pos fd c p rd -> drop p c = chunk_bytes bs ch ++ rest ->
  exists rd1, at_pos fd c (p + 12) rd1 /\ drop (p + 12) c = chunk_body ch ++ rest /\
    chunk_loop (S n) s fd sh cur crc (h, rd) =
    (let! (r, (s, crc)) := process_chunk s fd (Z.of_nat p + 12) 12 (chunk_head bs ch) cur crc in
     if r <? 0 then ret (r, (s, cur))
     else chunk_loop n s fd sh (u32 (cur + r)) crc) (h, rd1).
Proof.
  intros Hbs Hc Hsz Hp Hlen Hat Hd. unfold chunk_bytes in Hd. rewrite <- app_assoc in Hd.
  destruct (read_next fd c p (chunk_header_bytes (chunk_head bs ch)) (chunk_body ch ++ rest) h rd)
    as (rd1 & E1 & _ & Hat1); [done..|by rewrite length_chunk_header_bytes|].
  rewrite length_chunk_header_bytes in E1, Hat1.
  assert (Hp' := f_equal length Hd). rewrite length_drop, !length_app, length_chunk_header_bytes in Hp'.
  destruct (seek_cur fd c (p + 12) 0 h rd1) as (rd2 & E2 & _ & Hat2); [done|lia|].
  exists rd2. split_and!.
  - by replace (Z.to_nat (Z.of_nat (p + 12) + 0)) with (p + 12)%nat in Hat2 by lia.
  - rewrite <- drop_drop, Hd. by rewrite <- (length_chunk_header_bytes (chunk_head bs ch)) at 1; rewrite drop_app_length.
  - cbn [chunk_loop]. change CHUNK_HEADER_LEN with (Z.of_nat 12). rewrite (bind_Ok _ _ _ _ _ E1).
    cbn beta match. rewrite Hsz. cbn [Z.ltb Z.compare Z.of_nat Pos.compare Pos.of_succ_nat Pos.succ Pos.compare_cont].
    erewrite bind_Ok by done. rewrite (bind_Ok _ _ _ _ _ E2). cbn beta.
    rewrite parse_chunk_header_bytes by (by apply chunk_head_wf).
    by replace (Z.of_nat (p + 12) + 0) with (Z.of_nat p + 12) by lia.
Qed.

(** The state of a file that is being read. *)
Record reading (h : heap) (s : sparse_file) (xs : list (loc * ablock)) : Prop := {
  rg_ok : bbl_ok h (s_list s) xs;
  rg_last : last_used_ok (s_list s) xs;
  rg_bs : bbl_block_size (s_list s) = s_block_size s;
  rg_sorted : sorted xs.*2
}.

(** A block was added to [s], or memory was short. *)
Definition added_block (h : heap) (s : sparse_file) (xs : list (loc * ablock)) (a : ablock)
    (r : Z) (h' : heap) (s' : sparse_file) : Prop :=
  s_block_size s' = s_block_size s /\ s_len s' = s_len s /\
  ((r = - ENOMEM /\ (exists h0, malloc h0 = None) /\ reading h' s' xs) \/
   (r = 0 /\ exists xs', reading h' s' xs' /\ xs'.*2 = xs.*2 ++ [a])).

Lemma sorted_snoc (l : list ablock) a :
  sorted l -> Forall (fun b => a_block b < a_block a) l -> sorted (l ++ [a]).
Proof.
  unfold sorted. intros Hs Hl. rewrite fmap_app. apply StronglySorted_app. split_and!; [|done|].
  - intros x y (b & -> & Hb)%list_elem_of_fmap ->%list_elem_of_singleton.
    rewrite Forall_forall in Hl. by apply Hl.
  - by repeat constructor.
Qed.

Lemma sparse_add_ok h s xs r a :
  a = request_block r -> (match r with AddFile _ _ _ _ => False | _ => True end) ->
  0 < s_block_size s -> reading h s xs -> Forall (fun b => a_block b < a_block a) xs.*2 ->
  (forall b, last xs.*2 = Some b -> try_merge (s_block_size s) b a = None) ->
  exists res s' h', (let! (res, l) := backed_block_add (s_list s) r in ret (res, set_list s l)) h =
      Ok ((res, s'), h') /\ added_block h s xs a res h' s'.
Proof.
  intros -> Hr Hbs [Hok Hlu Eb Hs] Hlt Hm. rewrite <- Eb in Hbs, Hm.
  destruct (add_append h (s_list s) xs r) as [[Em E]|(l' & h' & xs' & E & Hok' & Hlu' & Ex & Eb')]; try done.
  - eexists _, _, _. rewrite (bind_Ok _ _ _ _ _ E). split; [done|]. split_and!; [done..|]. left.
    split_and!; [done|by exists h|by destruct s].
  - eexists _, _, _. rewrite (bind_Ok _ _ _ _ _ E). split; [done|]. split_and!; [done..|]. right.
    split; [done|]. exists xs'. split; [|done]. constructor; simpl; [done..|congruence|].
    rewrite Ex. by apply sorted_snoc.
Qed.

(** *** The reader's checksum *)

Lemma crc_fuel len : 0 <= len -> len <= Z.of_nat (S (Z.to_nat (len / COPY_BUF_SIZE))) * COPY_BUF_SIZE.
Proof using.
  intros Hl. assert (Hc : 0 < COPY_BUF_SIZE) by done. generalize dependent COPY_BUF_SIZE. intros B HB.
  pose proof (Z.div_pos len B Hl HB). rewrite Nat2Z.inj_succ, Z2Nat.id by done.
  pose proof (Z.div_mod len B ltac:(lia)). pose proof (Z.mod_pos_bound len B HB). lia.
Qed.

Lemma buf_crc_loop_ok buf : (forall i, buf (COPY_BUF_SIZE + i) = buf i) -> forall fuel len crc,
  0 <= len <= Z.of_nat fuel * COPY_BUF_SIZE ->
  buf_crc_loop fuel buf len crc = Ok (sparse_crc32 crc (bytes_of buf len)).
Proof using.
  intros Hper. assert (Hc : 0 < COPY_BUF_SIZE) by done.
  induction fuel as [|fuel IH]; intros len crc Hlen; cbn [buf_crc_loop];
    (destruct (Z.eqb_spec len 0) as [->|Hne]; [by rewrite sparse_crc32_nil|]); [lia|].
  rewrite IH by lia. rewrite <- sparse_crc32_app. do 2 f_equal.
  destruct (Z.le_gt_cases len COPY_BUF_SIZE) as [Hle|Hgt].
  - rewrite Z.min_l, Z.sub_diag by done. by rewrite app_nil_r.
  - rewrite Z.min_r by lia.
    replace len with (COPY_BUF_SIZE + (len - COPY_BUF_SIZE)) at 2 by lia.
    rewrite bytes_of_app by lia.
    rewrite (bytes_of_ext (fun i => buf (COPY_BUF_SIZE + i)) buf) by (intros; apply Hper).
    reflexivity.
Qed.

Lemma fill_copybuf_byte v i : 0 <= v < 2 ^ 32 -> fill_copybuf v i = fill_byte v i.
Proof using.
  intros Hv. unfold fill_copybuf, fill_byte, le. pose proof (Z.mod_pos_bound i 4 ltac:(lia)).
  rewrite <- nth_default_eq, LittleEndianList.nth_default_le_split by lia. f_equal. f_equal. lia.
Qed.

Lemma raw_crc_loop_ok fd c h : forall fuel data p rest rd crc,
  at_pos fd c p rd -> drop p c = data ++ rest -> (p <= length c)%nat ->
  Z.of_nat (length data) < 2 ^ 31 ->
  Z.of_nat (length data) <= Z.of_nat fuel * COPY_BUF_SIZE ->
  exists rd', raw_crc_loop fuel fd (Z.of_nat (length data)) crc (h, rd) =
      Ok ((0, sparse_crc32 crc data), (h, rd')) /\
    copybuf rd' = copybuf rd /\ at_pos fd c (p + length data) rd'.
Proof using.
  induction fuel as [|fuel IH]; intros data p rest rd crc Hat Hd Hp Hl Hf; cbn [raw_crc_loop];
    (destruct (Z.eqb_spec (Z.of_nat (length data)) 0) as [H0|Hne];
      [assert (data = []) as -> by (destruct data; [done|simpl in H0; lia]);
       exists rd; by rewrite sparse_crc32_nil, Nat.add_0_r|]); [lia|].
  assert (Hc : 0 < COPY_BUF_SIZE < 2 ^ 31) by done.
  set (d1 := take (Z.to_nat COPY_BUF_SIZE) data). set (d2 := drop (Z.to_nat COPY_BUF_SIZE) data).
  assert (Ed : data = d1 ++ d2) by (symmetry; apply take_drop).
  assert (El : Z.min (Z.of_nat (length data)) COPY_BUF_SIZE = Z.of_nat (length d1)).
  { unfold d1. rewrite length_take. lia. }
  assert (El2 : length d2 = (length data - Z.to_nat COPY_BUF_SIZE)%nat) by (unfold d2; by rewrite length_drop).
  clearbody d1 d2. subst data. rewrite El. rewrite <- app_assoc in Hd. rewrite length_app in *.
  destruct (read_next fd c p d1 (d2 ++ rest) h rd) as (rd1 & E1 & B1 & Hat1); [done..|lia|].
  rewrite (bind_Ok _ _ _ _ _ E1). cbn beta match. cbn [Z.ltb Z.compare].
  rewrite u32_small by lia.
  replace (Z.of_nat (length d1 + length d2) - Z.of_nat (length d1)) with (Z.of_nat (length d2)) by lia.
  assert (Hlen := f_equal length Hd). rewrite length_drop, !length_app in Hlen.
  destruct (IH d2 (p + length d1)%nat rest rd1 (sparse_crc32 crc d1)) as (rd2 & E2 & B2 & Hat2);
    [done|by rewrite <- drop_drop, Hd, drop_app_length|lia..|].
  exists rd2. split_and!; [|congruence|by rewrite Nat.add_assoc]. by rewrite E2, sparse_crc32_app.
Qed.

(** The reader's checksum of a chunk is that of the bytes it stands for. *)
Definition read_crc (bs : Z) (ch : chunk) (crc : option Z) : option Z :=
  (fun v => sparse_crc32 v (chunk_expand bs ch)) <$> crc.

Lemma buf_crc_ok v len crc :
  0 <= v < 2 ^ 32 -> 0 <= len ->
  buf_crc (fill_copybuf v) len crc = Ok (sparse_crc32 crc (bytes_of (fill_byte v) len)).
Proof using.
  intros Hv Hl. unfold buf_crc. rewrite (proj2 (Z.ltb_ge len 0)) by lia. rewrite buf_crc_loop_ok; [|intros i|split; [done|by apply crc_fuel]].
  - do 2 f_equal. apply bytes_of_ext. intros i _. by apply fill_copybuf_byte.
  - by rewrite !fill_copybuf_byte, fill_byte_shift by done.
Qed.

Lemma process_skip_ok s fd off cur k crc (st : rstate) :
  0 <= k < 2 ^ 31 -> 0 < s_block_size s < 2 ^ 32 ->
  process_chunk s fd off 12 (chunk_head (s_block_size s) (DontCare k)) cur crc st =
    Ok ((k, (s, read_crc (s_block_size s) (DontCare k) crc)), st).
Proof using.
  intros Hk Hbs. unfold process_chunk. cbn [chunk_head chunk_type total_sz chunk_sz CHUNK_HEADER_LEN].
  change (u32 (CHUNK_HEADER_LEN - 12)) with 0. cbn [Z.eqb Pos.eqb CHUNK_TYPE_DONT_CARE CHUNK_TYPE_RAW CHUNK_TYPE_FILL].
  unfold process_skip_chunk. cbn [Z.eqb negb]. rewrite i32_small by lia.
  destruct crc as [v|]; [|done]. rewrite i64_small by nia.
  unfold bind, lift, buf_crc. rewrite (proj2 (Z.ltb_ge (k * s_block_size s) 0)) by nia.
  rewrite buf_crc_loop_ok; [done|done|]. split; [nia|]. apply crc_fuel. nia.
Qed.

(** What processing a block chunk does: [a] is the block it adds. *)
Definition processed (fd : Z) (c : list byte) (p : nat) (bs : Z) (ch : chunk) (crc : option Z)
    (h : heap) (s : sparse_file) (xs : list (loc * ablock)) (a : ablock) (ok : Z)
    (r : Z) (s' : sparse_file) (crc' : option Z) (h' : heap) (rd' : reader R) : Prop :=
  exists r0, added_block h s xs a r0 h' s' /\
    (r0 <> 0 -> r = r0) /\
    (r0 = 0 -> r = ok /\ crc' = read_crc bs ch crc /\
       at_pos fd c (p + length (chunk_body ch)) rd').

(** A result that is an error or the number of blocks. *)
Lemma processed_result fd c p bs ch crc h s xs a r s' crc' h' rd' :
  0 <= chunk_blocks ch < 2 ^ 31 ->
  processed fd c p bs ch crc h s xs a 0 r s' crc' h' rd' ->
  processed fd c p bs ch crc h s xs a (chunk_blocks ch) (if r <? 0 then r else i32 (chunk_blocks ch))
    s' crc' h' rd'.
Proof using.
  intros Hb (r0 & Ha & H1 & H2). exists r0. split; [done|]. rewrite i32_small by lia. split.
  - intros Hne. rewrite (H1 Hne). destruct Ha as (_ & _ & [[-> _]|[-> _]]); done.
  - intros H0. destruct (H2 H0) as (-> & ? & ?). done.
Qed.

Lemma process_raw_chunk_ok fd c p s cur n data rest crc h rd xs :
  let bs := s_block_size s in
  let a := ABlock cur (n * bs) (BACKED_BLOCK_FD fd (Z.of_nat p)) in
  0 < bs -> chunk_ok bs (Raw n data) -> (p <= length c)%nat -> Z.of_nat (length c) < 2 ^ 62 ->
  at_pos fd c p rd -> drop p c = data ++ rest -> reading h s xs ->
  Forall (fun b => a_block b < cur) xs.*2 ->
  (forall b, last xs.*2 = Some b -> try_merge bs b a = None) ->
  exists r s' crc' h' rd', process_raw_chunk s (n * bs) fd (Z.of_nat p) n cur crc (h, rd) =
      Ok ((r, (s', crc')), (h', rd')) /\
    processed fd c p bs (Raw n data) crc h s xs a 0 r s' crc' h' rd'.
Proof using.
  intros bs a Hbs [Hn [Hnb Hdl]] Hp Hlen Hat Hd Hrd Hlt Hm. cbn [chunk_blocks] in Hn.
  unfold process_raw_chunk. fold bs. rewrite u32_small by nia.
  erewrite bind_Ok by (by apply divisor_ok). cbn beta.
  rewrite Z.mod_mul, Z.div_mul, !Z.eqb_refl by lia. cbn [negb].
  destruct (sparse_add_ok h s xs (AddFd fd (Z.of_nat p) (n * bs) cur) a) as (r0 & s' & h' & E & Ha); try done.
  erewrite bind_Ok by (by apply on_fst_ok). cbn beta match.
  destruct (Z.ltb_spec r0 0) as [Hr0|Hr0].
  { eexists r0, s', crc, h', rd. split; [done|]. exists r0. split_and!; [done|done|lia]. }
  assert (Hlen' := f_equal length Hd). rewrite length_drop, length_app in Hlen'.
  destruct crc as [v|].
  - destruct (raw_crc_loop_ok fd c h' (S (Z.to_nat (n * bs / COPY_BUF_SIZE))) data p rest rd v)
      as (rd' & E' & _ & Hat'); [done..|lia|rewrite Hdl; apply crc_fuel; lia|].
    rewrite Hdl in E'. rewrite (bind_Ok _ _ _ _ _ E'). cbn beta match.
    eexists 0, s', _, h', rd'. split; [done|]. exists r0. split_and!; [done| |done].
    intros Hne. destruct Ha as (_ & _ & [[-> _]|[-> _]]); [unfold ENOMEM in Hr0; lia|done].
  - destruct (seek_cur fd c p (n * bs) h' rd) as (rd' & E' & _ & Hat'); [done|lia|].
    rewrite (bind_Ok _ _ _ _ _ E'). cbn beta.
    eexists 0, s', _, h', rd'. split; [done|]. exists r0. split_and!; [done| |].
    + intros Hne. destruct Ha as (_ & _ & [[-> _]|[-> _]]); [unfold ENOMEM in Hr0; lia|done].
    + intros _. split_and!; [done..|]. cbn [chunk_body].
      by replace (Z.to_nat (Z.of_nat p + n * bs)) with (p + length data)%nat in Hat' by lia.
Qed.

Lemma process_fill_chunk_ok fd c p s cur n v rest crc h rd xs :
  let bs := s_block_size s in
  let a := ABlock cur (n * bs) (BACKED_BLOCK_FILL v) in
  0 < bs -> chunk_ok bs (Fill n v) -> (p <= length c)%nat ->
  at_pos fd c p rd -> drop p c = le 4 v ++ rest -> reading h s xs ->
  Forall (fun b => a_block b < cur) xs.*2 ->
  (forall b, last xs.*2 = Some b -> try_merge bs b a = None) ->
  exists r s' crc' h' rd', process_fill_chunk s 4 fd n cur crc (h, rd) =
      Ok ((r, (s', crc')), (h', rd')) /\
    processed fd c p bs (Fill n v) crc h s xs a 0 r s' crc' h' rd'.
Proof using.
  intros bs a Hbs [Hn [Hv Hnb]] Hp Hat Hd Hrd Hlt Hm. cbn [chunk_blocks] in Hn.
  unfold process_fill_chunk. fold bs. rewrite i64_small by nia. cbn [Z.eqb Pos.eqb negb].
  destruct (read_next fd c p (le 4 v) rest h rd) as (rd1 & E1 & _ & Hat1); [done..|by rewrite length_le|].
  rewrite length_le in E1. change (Z.of_nat 4) with 4 in E1. rewrite (bind_Ok _ _ _ _ _ E1).
  cbn beta match. cbn [Z.ltb Z.compare]. rewrite le_combine_le, (u32_small (n * bs)) by nia.
  destruct (sparse_add_ok h s xs (AddFill v (n * bs) cur) a) as (r0 & s' & h' & E & Ha); try done.
  erewrite bind_Ok by (by apply on_fst_ok). cbn beta match.
  destruct (Z.ltb_spec r0 0) as [Hr0|Hr0].
  { eexists r0, s', crc, h', rd1. split; [done|]. exists r0. split_and!; [done|done|lia]. }
  exists 0, s', (read_crc bs (Fill n v) crc), h', rd1. split.
  - destruct crc as [w|]; [|done]. unfold bind, lift. rewrite buf_crc_ok by nia. done.
  - exists r0. split_and!; [done| |done].
    intros Hne. destruct Ha as (_ & _ & [[-> _]|[-> _]]); [unfold ENOMEM in Hr0; lia|done].
Qed.

(** ** The blocks a list of chunks is read as *)

Definition read_block (fd : Z) (p : nat) (cur bs : Z) (ch : chunk) : list ablock :=
  match ch with
  | Raw n _ => [ABlock cur (n * bs) (BACKED_BLOCK_FD fd (Z.of_nat p))]
  | Fill n v => [ABlock cur (n * bs) (BACKED_BLOCK_FILL v)]
  | DontCare _ | CrcChunk _ => []
  end.

(** The chunks start at offset [p] of the file and at block [cur]. *)
Fixpoint read_blocks (fd bs : Z) (p : nat) (cur : Z) (cs : list chunk) : list ablock :=
  match cs with
  | [] => []
  | ch :: cs => read_block fd (p + 12) cur bs ch ++
      read_blocks fd bs (p + length (chunk_bytes bs ch)) (cur + chunk_blocks ch) cs
  end.

(** No two neighbours merge. *)
Definition unmerged (bs : Z) (l : list ablock) : Prop :=
  forall pre a b post, l = pre ++ a :: b :: post -> try_merge bs a b = None.

(** A chunk that covers blocks. *)
Definition covering (ch : chunk) : Prop :=
  0 < chunk_blocks ch /\ match ch with CrcChunk _ => False | _ => True end.

Lemma process_block_ok fd c p s cur ch a rest crc h rd xs :
  let bs := s_block_size s in
  read_block fd p cur bs ch = [a] ->
  0 < bs -> chunk_ok bs ch -> (p <= length c)%nat -> Z.of_nat (length c) < 2 ^ 62 ->
  at_pos fd c p rd -> drop p c = chunk_body ch ++ rest -> reading h s xs ->
  Forall (fun b => a_block b < cur) xs.*2 ->
  (forall b, last xs.*2 = Some b -> try_merge bs b a = None) ->
  exists r s' crc' h' rd', process_chunk s fd (Z.of_nat p) 12 (chunk_head bs ch) cur crc (h, rd) =
      Ok ((r, (s', crc')), (h', rd')) /\
    processed fd c p bs ch crc h s xs a (chunk_blocks ch) r s' crc' h' rd'.
Proof using.
  intros bs Hrb Hbs Hok Hp Hlen Hat Hd Hrd Hlt Hm. unfold process_chunk.
  destruct ch as [n data|n v| |]; simpl in Hrb; simplify_eq; pose proof Hok as [Hn Hc];
    cbn [chunk_head chunk_type total_sz chunk_sz chunk_body chunk_blocks] in *.
  - cbn [Z.eqb Pos.eqb CHUNK_TYPE_RAW].
    replace (CHUNK_HEADER_LEN + n * bs - 12) with (n * bs) by (unfold CHUNK_HEADER_LEN; lia).
    rewrite u32_small by (destruct Hc; nia).
    destruct (process_raw_chunk_ok fd c p s cur n data rest crc h rd xs)
      as (r & s' & crc' & h' & rd' & E & Hpr); [done..|].
    fold bs in E. rewrite (bind_Ok _ _ _ _ _ E). cbn beta match.
    eexists _, s', crc', h', rd'. split; [done|]. by apply (processed_result _ _ _ _ (Raw n data)).
  - cbn [Z.eqb Pos.eqb CHUNK_TYPE_RAW CHUNK_TYPE_FILL]. change (u32 (CHUNK_HEADER_LEN + 4 - 12)) with 4.
    destruct (process_fill_chunk_ok fd c p s cur n v rest crc h rd xs)
      as (r & s' & crc' & h' & rd' & E & Hpr); [done..|].
    rewrite (bind_Ok _ _ _ _ _ E). cbn beta match.
    eexists _, s', crc', h', rd'. split; [done|]. by apply (processed_result _ _ _ _ (Fill n v)).
Qed.

(** Any covering chunk: its blocks are added, or memory is short. *)
Lemma process_any_ok fd c p s cur ch rest crc h rd xs post :
  let bs := s_block_size s in
  covering ch -> 0 < bs < 2 ^ 32 -> chunk_ok bs ch -> (p <= length c)%nat -> Z.of_nat (length c) < 2 ^ 62 ->
  at_pos fd c p rd -> drop p c = chunk_body ch ++ rest -> reading h s xs ->
  Forall (fun b => a_block b < cur) xs.*2 ->
  unmerged bs (xs.*2 ++ read_block fd p cur bs ch ++ post) ->
  exists r s' crc' h' rd' xs', process_chunk s fd (Z.of_nat p) 12 (chunk_head bs ch) cur crc (h, rd) =
      Ok ((r, (s', crc')), (h', rd')) /\ s_block_size s' = bs /\ s_len s' = s_len s /\
    reading h' s' xs' /\
    ((r = - ENOMEM /\ exists h0, malloc h0 = None) \/
     (r = chunk_blocks ch /\ crc' = read_crc bs ch crc /\
      at_pos fd c (p + length (chunk_body ch)) rd' /\ xs'.*2 = xs.*2 ++ read_block fd p cur bs ch)).
Proof using.
  intros bs [Hb0 Hcv] Hbs Hok Hp Hlen Hat Hd Hrd Hlt Hum.
  destruct (read_block fd p cur bs ch) as [|a []] eqn:Erb; [| |by destruct ch].
  - destruct ch as [| |k|]; try done. destruct Hok as [Hk _].
    exists k, s, (read_crc bs (DontCare k) crc), h, rd, xs. split_and!; [|done..|].
    + apply process_skip_ok; [simpl in Hk; lia|done].
    + right. split_and!; [done|done|by rewrite Nat.add_0_r|by rewrite app_nil_r].
  - destruct (process_block_ok fd c p s cur ch a rest crc h rd xs)
      as (r & s' & crc' & h' & rd' & E & r0 & (B & L & D) & H1 & H2); try done; [lia| |].
    { intros b Hb. apply last_Some in Hb as [pre Epre]. apply (Hum pre _ _ post).
      rewrite Epre, <- app_assoc. done. }
    destruct D as [(-> & Hmem & Hrd')|(-> & xs' & Hrd' & Ex)].
    + exists r, s', crc', h', rd', xs. split_and!; [done..|]. left. by rewrite H1.
    + destruct (H2 eq_refl) as (-> & -> & Hat'). eexists _, s', _, h', rd', xs'. split_and!; [done..|].
      by right.
Qed.

(** The result of the chunk loop after the chunks [cs]: an allocation failed, or
    it goes on behind them. *)
Definition chunks_read (fd : Z) (c : list byte) (sh : sparse_header) (cs : list chunk) (m : nat)
    (p : nat) (cur : Z) (crc : option Z) (s : sparse_file) (xs : list (loc * ablock))
    (res : outcome ((Z * (sparse_file * Z)) * rstate)) : Prop :=
  exists s' h' rd' xs', s_block_size s' = s_block_size s /\ s_len s' = s_len s /\ reading h' s' xs' /\
    ((exists cur', res = Ok ((- ENOMEM, (s', cur')), (h', rd')) /\ exists h0, malloc h0 = None) \/
     (res = chunk_loop m s' fd sh (cur + foldr (fun ch n => chunk_blocks ch + n) 0 cs)
        (foldl (fun crc ch => read_crc (s_block_size s) ch crc) crc cs) (h', rd') /\
      at_pos fd c (p + length (chunks_bytes (s_block_size s) cs)) rd' /\
      xs'.*2 = xs.*2 ++ read_blocks fd (s_block_size s) p cur cs)).

Lemma chunk_loop_ok fd c sh rest m : chunk_hdr_sz sh = 12 -> Z.of_nat (length c) < 2 ^ 62 ->
  forall cs p cur crc s xs h rd,
  0 < s_block_size s < 2 ^ 32 -> Forall (chunk_ok (s_block_size s)) cs -> Forall covering cs ->
  0 <= cur -> cur + foldr (fun ch n => chunk_blocks ch + n) 0 cs < 2 ^ 32 ->
  (p <= length c)%nat -> at_pos fd c p rd -> drop p c = chunks_bytes (s_block_size s) cs ++ rest ->
  reading h s xs -> Forall (fun b => a_block b < cur) xs.*2 ->
  unmerged (s_block_size s) (xs.*2 ++ read_blocks fd (s_block_size s) p cur cs) ->
  chunks_read fd c sh cs m p cur crc s xs (chunk_loop (length cs + m) s fd sh cur crc (h, rd)).
Proof using.
  intros Hsz Hlen. induction cs as [|ch cs IH]; intros p cur crc s xs h rd Hbs Hok Hcov Hcur Htot Hp Hat Hd Hrd Hlt Hum.
  - exists s, h, rd, xs. split_and!; [done..|]. right. simpl. rewrite Z.add_0_r, Nat.add_0_r, app_nil_r. done.
  - apply Forall_cons in Hok as [Hch Hok]. apply Forall_cons in Hcov as [[Hb0 Hcv] Hcov].
    rewrite chunks_bytes_cons, <- app_assoc in Hd. cbn [foldr] in Htot.
    assert (Hsum : 0 <= foldr (fun ch n => chunk_blocks ch + n) 0 cs).
    { clear - Hcov. induction Hcov as [|? ? [? _] _ IH]; simpl; lia. }
    destruct (chunk_loop_step fd c p ch (chunks_bytes (s_block_size s) cs ++ rest) (s_block_size s)
      (length cs + m) s sh cur crc h rd) as (rd1 & Hat1 & Hd1 & E1); [lia|done..|].
    cbn [length Nat.add]. rewrite E1. clear E1. cbn [read_blocks] in Hum.
    assert (Hlen' := f_equal length Hd). rewrite length_drop, !length_app in Hlen'.
    assert (Hcb : length (chunk_bytes (s_block_size s) ch) = (12 + length (chunk_body ch))%nat)
      by (unfold chunk_bytes; by rewrite length_app, length_chunk_header_bytes).
    destruct (process_any_ok fd c (p + 12) s cur ch (chunks_bytes (s_block_size s) cs ++ rest) crc h rd1 xs
      (read_blocks fd (s_block_size s) (p + length (chunk_bytes (s_block_size s) ch)) (cur + chunk_blocks ch) cs))
      as (r & s1 & crc1 & h1 & rd2 & xs1 & E1 & B1 & L1 & Hrd1 & D);
      [split; done|done|done|lia|done..|].
    replace (Z.of_nat (p + 12)) with (Z.of_nat p + 12) in E1 by lia.
    rewrite (bind_Ok _ _ _ _ _ E1). cbn beta match.
    destruct D as [(-> & Hmem)|(-> & -> & Hat2 & Ex)].
    { exists s1, h1, rd2, xs1. split_and!; [done..|]. left. by eexists. }
    destruct (Z.ltb_spec (chunk_blocks ch) 0); [lia|]. rewrite u32_small by lia.
    assert (Hblk : Forall (fun b => a_block b < cur + chunk_blocks ch) xs1.*2).
    { rewrite Ex. apply Forall_app. split; [eapply Forall_impl; [exact Hlt|]; simpl; lia|].
      destruct ch; simpl; repeat constructor; simpl in *; lia. }
    replace (p + 12 + length (chunk_body ch))%nat with (p + length (chunk_bytes (s_block_size s) ch))%nat in Hat2 by lia.
    rewrite app_assoc, <- Ex in Hum.
    destruct (IH (p + length (chunk_bytes (s_block_size s) ch))%nat (cur + chunk_blocks ch)
      (read_crc (s_block_size s) ch crc) s1 xs1 h1 rd2) as (s2 & h2 & rd3 & xs2 & B2 & L2 & Hrd2 & D2);
      rewrite ?B1; try done; try lia.
    { by rewrite <- drop_drop, Hd, drop_app_length. }
    exists s2, h2, rd3, xs2. rewrite B1 in *. split_and!; [congruence..|done|].
    destruct D2 as [D2|(E2 & Hat3 & Ex2)]; [by left|right]. split_and!.
    + cbn [foldr foldl]. by rewrite Z.add_assoc.
    + by rewrite chunks_bytes_cons, length_app, Nat.add_assoc.
    + cbn [read_blocks]. by rewrite Ex2, Ex, <- app_assoc.
Qed.
End Reader.
