(* ===== verification/RoundTrip.v ===== *)
(** * Import of a written image

    Reading back the sparse image of a file gives blocks with the same place
    and bytes, each filled up to whole blocks: raw chunks become blocks of the
    image file itself. *)

From S2P Require Import Prelude BackedBlock BackedBlockRefine BlockImage BlockListProps.
From S2P Require Import BlockListMove Crc32 OutputFile Sparse SparseFormat SparseRead.
From S2P Require Import ReadProps.

#[local] Open Scope Z_scope.
#[local] Open Scope c_scope.

(** The block that [a]'s chunk, with its data at [off], is read as. *)
Definition read_back (fd bs : Z) (off : nat) (a : ablock) : ablock :=
  ABlock (a_block a) (extent bs a * bs)
    (match a_type a with BACKED_BLOCK_FILL v => BACKED_BLOCK_FILL v
     | _ => BACKED_BLOCK_FD fd (Z.of_nat off) end).

(** Two fills with one value do not touch: they would have been one block. *)
Definition no_fill_runs (bs : Z) (l : list ablock) : Prop :=
  Sorted (fun a b => forall v, a_type a = BACKED_BLOCK_FILL v -> a_type b = BACKED_BLOCK_FILL v ->
    a_block a + extent bs a <> a_block b) l.

Section Plan.
Context (E : input) (fd bs : Z).
Hypothesis Hbs : 0 < bs.

Lemma read_blocks_gap p last k cs :
  last <= k ->
  read_blocks fd bs p last (gap last k ++ cs) =
  read_blocks fd bs (p + length (chunks_bytes bs (gap last k))) k cs.
Proof using.
  intros Hk. unfold gap. destruct (Z.ltb_spec last k); simpl.
  - f_equal. lia.
  - rewrite Nat.add_0_r. f_equal. lia.
Qed.

Lemma read_blocks_block p a cs :
  read_blocks fd bs p (a_block a) (block_chunk E bs a :: cs) =
  read_back fd bs (p + 12) a ::
    read_blocks fd bs (p + length (chunk_bytes bs (block_chunk E bs a))) (a_block a + extent bs a) cs.
Proof using.
  unfold block_chunk, read_back. by destruct (a_type a).
Qed.

Lemma block_body_length a :
  length (chunk_body (block_chunk E bs a)) =
    match a_type a with BACKED_BLOCK_FILL _ => 4%nat | _ => Z.to_nat (extent bs a * bs) end.
Proof using.
  unfold block_chunk. destruct (a_type a); cbn [chunk_body]; rewrite ?length_bytes_of, ?length_le; done.
Qed.

(** ** The blocks denote the same image *)

(** [a'] covers the blocks that [a] takes, with the bytes [a] is written as. *)
Definition same_block (E' : input) (a a' : ablock) : Prop :=
  a_block a' = a_block a /\ a_len a' = extent bs a * bs /\
  forall i, 0 <= i < extent bs a * bs -> type_byte E' (a_type a') i = block_byte E a i.

Lemma image_same E' l l' pos :
  Forall2 (same_block E') l l' -> Forall (whole_fill bs) l -> StronglySorted (in_front bs) l ->
  image_byte E' bs l' pos = image_byte E bs l pos.
Proof using Hbs.
  induction 1 as [|a a' l l' (H1 & H2 & H3) _ IH]; intros Hf Hs; [done|].
  apply Forall_cons in Hf as [Ha Hf]. apply StronglySorted_cons in Hs as [Hb Hs].
  specialize (IH Hf Hs). pose proof (extent_bounds bs a Hbs).
  destruct (decide (a_block a * bs <= pos < a_block a * bs + extent bs a * bs)) as [Hi|Hi].
  - replace pos with (a_block a * bs + (pos - a_block a * bs)) at 2 by lia.
    rewrite image_block, <- H3 by (done || lia). unfold image_byte. cbn [image]. unfold covers.
    rewrite H1, H2, (proj2 (Z.leb_le _ _)), (proj2 (Z.ltb_lt _ _)) by lia. done.
  - unfold image_byte in *. cbn [image]. unfold covers. rewrite H1, H2.
    destruct (Z.leb_spec (a_block a * bs) pos), (Z.ltb_spec pos (a_block a * bs + extent bs a * bs)),
      (Z.ltb_spec pos (a_block a * bs + a_len a)); cbn [andb]; try done; lia.
Qed.

(** The file behind [fd] holds [c]. *)
Definition holds (E' : input) (c : list byte) : Prop :=
  forall i x, c !! i = Some x -> in_fd E' fd (Z.of_nat i) = x.

Lemma read_back_same E' c off rest a :
  holds E' c -> drop off c = chunk_body (block_chunk E bs a) ++ rest ->
  same_block E' a (read_back fd bs off a).
Proof using.
  intros Hc Hd. split_and!; [done..|]. intros i Hi. unfold block_chunk, block_byte, read_back in *.
  assert (Hraw : forall f, drop off c = bytes_of f (extent bs a * bs) ++ rest ->
    in_fd E' fd (Z.of_nat off + i) = f i).
  { intros f Ht. replace (Z.of_nat off + i) with (Z.of_nat (off + Z.to_nat i)) by lia. apply Hc.
    rewrite <- lookup_drop, Ht, lookup_app_l by (rewrite length_bytes_of; lia).
    rewrite lookup_bytes_of by lia. do 2 f_equal. lia. }
  destruct (a_type a) as [d|f o|f o|v]; cbn [a_type type_byte]; try done; by apply Hraw.
Qed.

Lemma plan_read_same E' c l total rest : holds E' c -> forall last p,
  Forall (placed bs) l -> StronglySorted (in_front bs) l ->
  Forall (fun a => last <= a_block a) l -> last <= total ->
  Forall (fun a => a_block a + extent bs a <= total) l ->
  drop p c = chunks_bytes bs (plan E bs last l total) ++ rest ->
  Forall2 (same_block E') l (read_blocks fd bs p last (plan E bs last l total)).
Proof using Hbs.
  intros Hc. induction l as [|a l IH]; intros last p Hw Hs Hlast Ht Hin Hd; cbn [plan] in *.
  - rewrite <- (app_nil_r (gap last total)), read_blocks_gap by done. constructor.
  - apply Forall_cons in Hw as [Ha Hw]. apply StronglySorted_cons in Hs as [Hb Hs].
    apply Forall_cons in Hlast as [Hla _]. apply Forall_cons in Hin as [Hia Hin].
    rewrite read_blocks_gap, read_blocks_block by done.
    rewrite chunks_bytes_app, chunks_bytes_cons, <- !app_assoc in Hd.
    set (q := (p + length (chunks_bytes bs (gap last (a_block a))))%nat).
    assert (Hd1 : drop q c = chunk_bytes bs (block_chunk E bs a) ++
      chunks_bytes bs (plan E bs (a_block a + extent bs a) l total) ++ rest)
      by (unfold q; by rewrite <- drop_drop, Hd, drop_app_length).
    constructor.
    + eapply read_back_same; [done|].
      rewrite <- drop_drop, Hd1. unfold chunk_bytes. rewrite <- !app_assoc.
      by rewrite <- (length_chunk_header_bytes (chunk_head bs (block_chunk E bs a))) at 1; rewrite drop_app_length.
    + apply IH; [done..|]. by rewrite <- drop_drop, Hd1, drop_app_length.
Qed.

(** ** The reader does not merge them *)

Definition merge_free (a b : ablock) : Prop := try_merge bs a b = None.

(** A block in front of which offset [p] of the file has been reached. *)
Definition read_before (p : nat) (l : list ablock) (b : ablock) : Prop :=
  match a_type b with
  | BACKED_BLOCK_FD f o => 0 <= o /\ 0 <= a_len b /\ o + a_len b <= Z.of_nat p
  | BACKED_BLOCK_FILL v => match l with
      | a :: _ => a_type a = BACKED_BLOCK_FILL v -> u32 (a_block b + a_len b / bs) <> a_block a
      | [] => True end
  | _ => False
  end.

Lemma read_before_merge_free p l a b :
  Z.of_nat p + 12 < 2 ^ 63 -> read_before p (a :: l) b -> merge_free b (read_back fd bs (p + 12) a).
Proof using.
  intros Hp Hb. unfold merge_free, try_merge, read_back, read_before in *.
  cbn [a_block a_len a_type node merge_compatible bb_type bb_len] in *.
  destruct (a_type b) as [| |f o|v] eqn:Eb; [done|done| |].
  - destruct Hb as (? & ? & ?).
    assert (Hne : (i64 (o + a_len b) =? Z.of_nat (p + 12)) = false).
    { rewrite i64_small by lia. apply Z.eqb_neq. lia. }
    unfold merge_compatible. cbn [bb_type node a_type bb_len a_len]. rewrite Eb.
    destruct (a_type a); rewrite ?Hne, ?andb_false_r; done.
  - unfold merge_compatible. cbn [bb_type node a_type]. rewrite Eb.
    destruct (a_type a) as [| | |w]; rewrite ?andb_false_r; try done.
    destruct (Z.eqb_spec v w) as [->|]; [|by rewrite andb_false_r].
    destruct (Z.eqb_spec (u32 (a_block b + a_len b / bs)) (a_block a)) as [Eq|]; [|done].
    by destruct (Hb eq_refl).
Qed.

Lemma plan_merge_free l total : forall last p,
  Forall (placed bs) l -> StronglySorted (in_front bs) l ->
  Forall (fun a => last <= a_block a) l -> last <= total ->
  Forall (fun a => a_block a + extent bs a <= total) l -> no_fill_runs bs l ->
  Z.of_nat (p + length (chunks_bytes bs (plan E bs last l total))) < 2 ^ 62 ->
  Sorted merge_free (read_blocks fd bs p last (plan E bs last l total)) /\
  forall b, read_before p l b -> HdRel merge_free b (read_blocks fd bs p last (plan E bs last l total)).
Proof using Hbs.
  induction l as [|a l IH]; intros last p Hw Hs Hlast Ht Hin Hr Hp; cbn [plan] in *.
  - rewrite <- (app_nil_r (gap last total)), read_blocks_gap by done. by split; [|constructor].
  - apply Forall_cons in Hw as [Ha Hw]. apply StronglySorted_cons in Hs as [Hb Hs].
    apply Forall_cons in Hlast as [Hla _]. apply Forall_cons in Hin as [Hia Hin].
    apply Sorted_inv in Hr as [Hr Hhd].
    rewrite read_blocks_gap, read_blocks_block by done.
    rewrite chunks_bytes_app, chunks_bytes_cons, !length_app in Hp.
    set (q := (p + length (chunks_bytes bs (gap last (a_block a))))%nat) in *.
    assert (Hcb : length (chunk_bytes bs (block_chunk E bs a)) =
      (12 + length (chunk_body (block_chunk E bs a)))%nat)
      by (unfold chunk_bytes; by rewrite length_app, length_chunk_header_bytes).
    destruct (IH (a_block a + extent bs a) (q + length (chunk_bytes bs (block_chunk E bs a)))%nat)
      as [IH1 IH2]; [done..|lia|].
    split; [constructor; [done|]|].
    + apply IH2. pose proof (extent_pos bs a Hbs (proj1 (pl_len _ _ Ha))). destruct Ha as [? ? ? ?].
      rewrite block_body_length in Hcb.
      unfold read_before, read_back. cbn [a_type a_len a_block].
      destruct (a_type a) as [| | |v] eqn:Et; try lia.
      destruct l as [|a2 l]; [done|]. intros Et2. inversion Hhd as [|? ? Hne]; subst.
      specialize (Hne v Et Et2). by rewrite Z.div_mul, u32_small by lia.
    + intros b Hrb. constructor. apply (read_before_merge_free q l); [lia|].
      unfold read_before in *. destruct (a_type b); try done. lia.
Qed.
End Plan.

(** ** The chunks of a plan are readable *)

Lemma plan_chunks_ok E bs l total : forall last,
  0 < bs -> Forall (placed bs) l -> Forall (writable bs) l -> 0 <= last <= total -> total < 2 ^ 31 ->
  Forall (fun a => a_block a + extent bs a <= total) l ->
  Forall (chunk_ok bs) (plan E bs last l total) /\
  Forall (fun ch => match ch with CrcChunk _ => False | _ => True end) (plan E bs last l total).
Proof.
  assert (Hgap : forall last k, 0 <= last -> k < 2 ^ 31 ->
    Forall (chunk_ok bs) (gap last k) /\
    Forall (fun ch => match ch with CrcChunk _ => False | _ => True end) (gap last k)).
  { intros last k ? ?. unfold gap. destruct (Z.ltb_spec last k); [|done].
    split; repeat constructor; simpl; lia. }
  induction l as [|a l IH]; intros last Hbs Hw Hwr Hl Ht Hin; cbn [plan]; [apply Hgap; lia|].
  apply Forall_cons in Hw as [Ha Hw]. apply Forall_cons in Hwr as [Hwa Hwr].
  apply Forall_cons in Hin as [Hia Hin]. pose proof Ha as [H0 Hlen Hlst Hty].
  pose proof (extent_pos bs a Hbs (proj1 Hlen)). pose proof (extent_bounds bs a Hbs) as Hal.
  destruct (Hgap last (a_block a)) as [G1 G2]; [lia..|].
  destruct (IH (a_block a + extent bs a)) as [I1 I2]; [done..|nia|done|done|].
  split; apply Forall_app; (split; [done|]); (constructor; [|done]).
  - unfold block_chunk, writable in *. destruct (a_type a); simpl in Hty; split; simpl; try lia;
      (split; [lia|]); rewrite ?length_bytes_of; nia.
  - unfold block_chunk. by destruct (a_type a).
Qed.

Lemma unmerged_sorted bs l : Sorted (merge_free bs) l -> unmerged bs l.
Proof.
  intros Hs pre a b post ->. induction pre as [|x pre IH]; apply Sorted_inv in Hs as [Hs Hh]; [|auto].
  by apply HdRel_inv in Hh.
Qed.

Section Importing.
Context {R : Type} `{HR : ReadFile R} `{HA : Allocator} (E : input) (fd : Z).
(** [backed_block_list_new] does not check the result of its [calloc]. *)
Hypothesis Hstruct : forall h, calloc_struct h = true.

Lemma header_image bs len n :
  0 <= bs < 2 ^ 32 -> 0 <= len / bs < 2 ^ 32 -> 0 <= n < 2 ^ 32 -> sparse_header_wf (image_header bs len n).
Proof using.
  intros. by constructor; simpl;
    unfold SPARSE_HEADER_MAGIC, SPARSE_HEADER_MAJOR_VER, SPARSE_HEADER_MINOR_VER, SPARSE_HEADER_LEN, CHUNK_HEADER_LEN.
Qed.

(** The header of [c] is read and accepted. *)
Lemma read_header bs len n rest c h rd :
  0 <= bs < 2 ^ 32 -> 0 <= len / bs < 2 ^ 32 -> 0 <= n < 2 ^ 32 ->
  c = sparse_header_bytes (image_header bs len n) ++ rest -> at_pos fd c 0 rd ->
  exists data rd', read_all fd SPARSE_HEADER_LEN (h, rd) = Ok ((0, data), (h, rd')) /\
    parse_sparse_header data = image_header bs len n /\ header_ok (image_header bs len n) = true /\
    copybuf rd' = copybuf rd /\ at_pos fd c 28 rd'.
Proof using.
  intros Hbs Hl Hn Hc Hat. eexists (sparse_header_bytes (image_header bs len n)).
  destruct (read_next fd c 0 (sparse_header_bytes (image_header bs len n)) rest h rd)
    as (rd' & E1 & B & Hat'); [done|by rewrite Hc|lia|by rewrite length_sparse_header_bytes|].
  rewrite length_sparse_header_bytes in E1, Hat'. exists rd'. split_and!; [done| |done|done|done].
  apply parse_sparse_header_bytes. by apply header_image.
Qed.

(** Opening a new file for the reader. *)
Lemma sparse_file_new_ok bs len h :
  exists h', sparse_file_new bs len h =
      Ok (Some (SparseFile bs len false (BackedBlockList None None bs)), h') /\
    bbl_ok h' (BackedBlockList None None bs) [].
Proof using Hstruct.
  unfold sparse_file_new, backed_block_list_new, alloc_struct, bind. rewrite Hstruct. simpl.
  rewrite Hstruct. simpl. eexists. split; [done|]. constructor; simpl; [done|constructor|constructor|].
  intros f Hf. by inversion Hf.
Qed.

Lemma alloc_copybuf_ok h (rd : reader R) :
  exists h', alloc_copybuf (h, rd) = Ok (true, (h', Reader true (rd_sys rd))) /\ cells h' = cells h.
Proof using Hstruct.
  unfold alloc_copybuf, bind, gets. simpl. destruct (copybuf rd) eqn:Ec.
  - exists h. destruct rd. simpl in *. by rewrite Ec.
  - unfold on_fst, alloc_struct. simpl. rewrite Hstruct. eexists. by split.
Qed.

Definition same_image (E' : input) (bs len : Z) (l : list ablock) (h' : heap) (s : sparse_file) : Prop :=
  s_block_size s = bs /\ s_len s = len /\ exists xs, bbl_ok h' (s_list s) xs /\
    last_used_ok (s_list s) xs /\ bbl_block_size (s_list s) = bs /\
    Forall2 (same_block E bs E') l xs.*2 /\ forall pos, image_byte E' bs xs.*2 pos = image_byte E bs l pos.

Lemma foldl_read_crc bs cs v :
  foldl (fun crc ch => read_crc bs ch crc) (Some v) cs = Some (sparse_crc32 v (encs normal_file_ops bs cs)).
Proof using.
  revert v. induction cs as [|ch cs IH]; intros v; cbn [foldl]; [by rewrite sparse_crc32_nil|].
  unfold read_crc at 2. cbn [fmap option_fmap option_map]. rewrite IH.
  change (ch :: cs) with ([ch] ++ cs). rewrite encs_app, sparse_crc32_app.
  assert (encs normal_file_ops bs [ch] = chunk_expand bs ch) as -> by apply app_nil_r. done.
Qed.

Lemma foldl_read_crc_none bs cs : foldl (fun crc ch => read_crc bs ch crc) None cs = None.
Proof using. induction cs as [|ch cs IH]; [done|]. apply IH. Qed.

(** An image file [c]: the chunks of [l] and then [tl], which may be a checksum. *)
Section Image.
Context (E' : input) (bs len : Z) (l : list ablock) (tl : list chunk) (c trail : list byte) (crc : bool).
Notation cs := (plan E bs 0 l (len / bs)).
Notation n := (Z.of_nat (length (cs ++ tl))).
Hypothesis Him : image_ok bs len l.
Hypothesis Hfills : Forall (whole_fill bs) l.
Hypothesis Hruns : no_fill_runs bs l.
Hypothesis H31 : len / bs < 2 ^ 31.
Hypothesis Htl : (length tl <= 1)%nat.
Hypothesis Hc : c = image_bytes bs len (cs ++ tl) ++ trail.
Hypothesis Hclen : Z.of_nat (length c) < 2 ^ 62.
Hypothesis Hholds : holds fd E' c.

Lemma image_chunks_length : 0 <= n < 2 ^ 32.
Proof using Him H31 Htl.
  clear Hclen Hc Hholds. destruct (image_plan E _ _ _ Him) as (_ & _ & Hn). rewrite length_app. lia.
Qed.

(** The checksum the reader has after all blocks. *)
Definition final_crc : option Z :=
  if crc then Some (sparse_crc32 0 (bytes_of (image_byte E bs l) len)) else None.

(** Reading the chunks into an empty file. *)
Lemma read_chunks_ok s h rd :
  at_pos fd c 28 rd -> s_block_size s = bs -> s_len s = len -> reading h s [] ->
  exists s' h' rd', 
    let res := chunk_loop (length (cs ++ tl)) s fd (image_header bs len n) 0 (if crc then Some 0 else None) (h, rd) in
    ((exists cur, res = Ok ((- ENOMEM, (s', cur)), (h', rd'))) /\ (exists h0, malloc h0 = None) /\
       exists xs, bbl_ok h' (s_list s') xs) \/
    (res = chunk_loop (length tl) s' fd (image_header bs len n) (len / bs) final_crc (h', rd') /\
     (exists p, at_pos fd c p rd' /\ drop p c = chunks_bytes bs tl ++ trail /\ (p <= length c)%nat) /\
     same_image E' bs len l h' s').
Proof using Him Hfills Hruns H31 Htl Hc Hclen Hholds.
  intros Hat Eb El Hrd. pose proof (im_bs _ _ _ Him) as [Hbs _].
  pose proof Him as [_ Hw Hs Hwr Hal Ht Hlen Hin].
  assert (Hlast : Forall (fun a => 0 <= a_block a) l) by (eapply Forall_impl; [exact Hw|]; by intros a []).
  destruct (image_plan E _ _ _ Him) as (Hpos & Hsum & _).
  destruct (plan_chunks_ok E bs l (len / bs) 0) as [Hok Hnc]; [lia|done|done|lia|done|done|].
  assert (Hd : drop 28 c = chunks_bytes bs cs ++ chunks_bytes bs tl ++ trail).
  { rewrite Hc. unfold image_bytes. rewrite <- app_assoc, chunks_bytes_app, <- app_assoc.
    by rewrite <- (length_sparse_header_bytes (image_header bs len n)) at 1; rewrite drop_app_length. }
  assert (Hlc := f_equal length Hd). rewrite length_drop, length_app in Hlc.
  assert (H28 : (28 <= length c)%nat).
  { rewrite Hc. unfold image_bytes. rewrite !length_app, length_sparse_header_bytes. lia. }
  destruct (plan_merge_free E fd bs ltac:(lia) l (len / bs) 0 28) as [Hmf _]; [done..|lia|done|done|lia|].
  pose proof (plan_read_same E fd bs ltac:(lia) E' c l (len / bs) _ Hholds 0 28 Hw Hs Hlast
    ltac:(lia) Hin Hd) as Hsame.
  destruct (chunk_loop_ok fd c (image_header bs len n) (chunks_bytes bs tl ++ trail) (length tl) eq_refl Hclen
    cs 28 0 (if crc then Some 0 else None) s [] h rd)
    as (s' & h' & rd' & xs' & B & L & Hrd' & D); rewrite ?Eb; try done; try lia.
  { apply Forall_and. done. }
  { by apply unmerged_sorted. }
  exists s', h', rd'. cbn zeta. rewrite <- length_app in D. rewrite Eb in *.
  destruct D as [(cur' & -> & Hm)|(-> & Hat' & Ex)].
  - left. split_and!; [by eexists|done|]. exists xs'. apply Hrd'.
  - right. split_and!.
    + rewrite Hsum, Z.add_0_l. f_equal. unfold final_crc. destruct crc.
      * by rewrite foldl_read_crc, plan_image.
      * apply foldl_read_crc_none.
    + eexists. split_and!; [done| |rewrite length_app in Hlc; lia].
      by rewrite <- drop_drop, Hd, drop_app_length.
    + unfold same_image. rewrite B, L, El. split_and!; [done..|]. exists xs'. simpl in Ex.
      rewrite Ex. destruct Hrd' as [? ? Ebl _]. split_and!; [done|done|congruence|done|].
      intros pos. apply image_same; (done || lia).
Qed.

Lemma seek_start h rd p :
  at_pos fd c p rd ->
  exists rd', lseek64 fd 0 SEEK_SET (h, rd) = Ok (0, (h, rd')) /\ at_pos fd c 0 rd'.
Proof using.
  intros [Hat Hp]. unfold lseek64, rd_call. cbn [fst snd].
  destruct (sys_lseek fd 0 SEEK_SET (rd_sys rd)) as [r k'] eqn:Es.
  destruct (rf_seek _ _ _ _ _ _ Es) as (-> & Hc' & Hp'); [done|].
  exists (Reader (copybuf rd) k'). split; [done|]. split; [simpl; congruence|done].
Qed.

(** The checksum chunk at the end of the image. *)
Lemma crc_chunk_ok v p s cur h rd crc0 :
  0 <= v < 2 ^ 32 -> 0 <= cur < 2 ^ 32 -> at_pos fd c p rd -> (p <= length c)%nat ->
  drop p c = chunks_bytes bs [CrcChunk v] ++ trail ->
  exists rd', chunk_loop 1 s fd (image_header bs len n) cur crc0 (h, rd) =
    match crc0 with
    | None => UB
    | Some w => Ok ((if v =? w then 0 else - EINVAL, (s, cur)), (h, rd'))
    end.
Proof using Him Hclen.
  clear Htl Hc Hholds H31 Hruns.
  intros Hv Hcur Hat Hp Hd. pose proof (im_bs _ _ _ Him) as [Hbs _].
  rewrite chunks_bytes_cons, <- app_assoc in Hd.
  destruct (chunk_loop_step fd c p (CrcChunk v) (chunks_bytes bs [] ++ trail) bs 0 s
    (image_header bs len n) cur crc0 h rd) as (rd1 & Hat1 & Hd1 & ->); [lia|by split|done..|].
  unfold process_chunk. cbn [chunk_head chunk_type total_sz chunk_sz].
  change (u32 (CHUNK_HEADER_LEN + 4 - 12)) with 4.
  cbn [Z.eqb Pos.eqb CHUNK_TYPE_RAW CHUNK_TYPE_FILL CHUNK_TYPE_DONT_CARE CHUNK_TYPE_CRC32].
  destruct crc0 as [w|]; [|by exists rd1].
  assert (Hlc := f_equal length Hd). rewrite length_drop, !length_app in Hlc.
  unfold chunk_bytes in Hlc. rewrite length_app, length_chunk_header_bytes in Hlc.
  destruct (read_next fd c (p + 12) (le 4 v) (chunks_bytes bs [] ++ trail) h rd1)
    as (rd2 & E2 & _ & _); [done|done|lia|by rewrite length_le|].
  rewrite length_le in E2. change (Z.of_nat 4) with 4 in E2. exists rd2.
  unfold process_crc32_chunk. cbn [Z.eqb Pos.eqb negb]. unfold bind. rewrite E2. cbn [obind fst snd Z.ltb Z.compare].
  rewrite le_combine_le by (simpl; lia). unfold ret. cbn [obind fst snd].
  destruct (Z.eqb_spec v w); cbn [Z.ltb Z.compare]; [|done]. simpl. by rewrite Z.add_0_r, u32_small by lia.
Qed.

(** The reader up to the chunks of [tl]. *)
Lemma read_sparse_ok s h rd :
  at_pos fd c 0 rd -> s_block_size s = bs -> s_len s = len -> reading h s [] ->
  exists s' h' rd', let res := sparse_file_read s fd true crc (h, rd) in
    (res = Ok ((- ENOMEM, s'), (h', rd')) /\ (exists h0, malloc h0 = None) /\
       exists xs, bbl_ok h' (s_list s') xs) \/
    (res = (let! (r, (s, cur)) := chunk_loop (length tl) s' fd (image_header bs len n) (len / bs) final_crc in
            if r <? 0 then ret (r, s) else ret (if len / bs =? cur then 0 else - EINVAL, s)) (h', rd') /\
     (exists p, at_pos fd c p rd' /\ drop p c = chunks_bytes bs tl ++ trail /\ (p <= length c)%nat) /\
     same_image E' bs len l h' s').
Proof using Him Hfills Hruns H31 Htl Hc Hclen Hholds Hstruct.
  intros Hat Eb El Hrd. pose proof (im_bs _ _ _ Him) as [Hbs _]. pose proof image_chunks_length as Hn.
  pose proof (im_total _ _ _ Him) as Ht.
  unfold sparse_file_read. rewrite andb_false_r. unfold sparse_file_read_sparse.
  destruct (alloc_copybuf_ok h rd) as (h1 & E1 & C1). rewrite (bind_Ok _ _ _ _ _ E1). cbn beta. cbn [negb].
  destruct (read_header bs len n (chunks_bytes bs (cs ++ tl) ++ trail) c h1 (Reader true (rd_sys rd)))
    as (data & rd2 & E2 & Ep & Hok & _ & Hat2);
    [lia|lia|done|by rewrite Hc; unfold image_bytes; rewrite <- app_assoc|exact Hat|].
  rewrite (bind_Ok _ _ _ _ _ E2). cbn beta match. cbn [Z.ltb Z.compare]. rewrite Ep, Hok. cbn [negb].
  erewrite bind_Ok by done. cbn beta. cbn [total_chunks total_blks image_header]. rewrite Nat2Z.id.
  destruct (read_chunks_ok s h1 rd2) as (s' & h' & rd' & D); [done..| |].
  { destruct Hrd as [[? ? ? _] ? ? ?]. constructor; [|done..]. constructor; [done..|].
    intros f Hf. inversion Hf. }
  exists s', h', rd'. cbn zeta in *. destruct D as [([cur E3] & Hm & Hxs)|(E3 & Hp & Hs)].
  - left. split_and!; [|done..]. by rewrite (bind_Ok _ _ _ _ _ E3).
  - right. split_and!; [|done..]. unfold bind at 1. rewrite E3. done.
Qed.

(** The importer up to the chunks of [tl]. *)
Lemma import_ok h rd verb :
  at_pos fd c 0 rd ->
  exists s' h' rd', let res := sparse_file_import fd verb crc (h, rd) in
    ((exists h1 rd1, res = Ok (None, (h1, rd1))) /\ exists h0, malloc h0 = None) \/
    (res = (let! (r, s) :=
              let! (r, (s, cur)) := chunk_loop (length tl) s' fd (image_header bs len n) (len / bs) final_crc in
              if r <? 0 then ret (r, s) else ret (if len / bs =? cur then 0 else - EINVAL, s) in
            if r <? 0 then on_fst (sparse_file_destroy s) ;;! ret None else ret (Some s)) (h', rd') /\
     (exists p, at_pos fd c p rd' /\ drop p c = chunks_bytes bs tl ++ trail /\ (p <= length c)%nat) /\
     same_image E' bs len l h' s').
Proof using Him Hfills Hruns H31 Htl Hc Hclen Hholds Hstruct.
  intros Hat. pose proof (im_bs _ _ _ Him) as [Hbs _]. pose proof image_chunks_length as Hn.
  pose proof (im_total _ _ _ Him) as Ht. pose proof (im_align _ _ _ Him) as Hal.
  unfold sparse_file_import.
  destruct (read_header bs len n (chunks_bytes bs (cs ++ tl) ++ trail) c h rd)
    as (data & rd2 & E2 & Ep & Hok & _ & Hat2); [lia|lia|done|by rewrite Hc; unfold image_bytes; rewrite <- app_assoc|done|].
  rewrite (bind_Ok _ _ _ _ _ E2). cbn beta match. cbn [Z.ltb Z.compare]. rewrite Ep, Hok. cbn [negb].
  cbn [total_blks blk_sz image_header]. rewrite <- Hal, i64_small by (pose proof (im_len _ _ _ Him); lia).
  destruct (sparse_file_new_ok bs len h) as (h1 & E1 & Hnew).
  erewrite bind_Ok by (by apply on_fst_ok). cbn beta match.
  destruct (seek_start h1 rd2 _ Hat2) as (rd3 & E3 & Hat3). rewrite (bind_Ok _ _ _ _ _ E3). cbn beta.
  change (i32 0 <? 0) with false. cbn match. cbn [s_block_size s_len s_list].
  destruct (read_sparse_ok (SparseFile bs len verb (BackedBlockList None None bs)) h1 rd3)
    as (s' & h' & rd' & D); [done..| |].
  { constructor; simpl; [done|done|done|constructor]. }
  exists s', h', rd'. cbn zeta in *. destruct D as [(E4 & Hm & xs & Hxs)|(E4 & Hp & Hs)].
  - left. split; [|done]. rewrite (bind_Ok _ _ _ _ _ E4). cbn beta match.
    destruct (list_destroy_ok h' (s_list s') xs Hxs) as (h'' & Ed & _).
    change (- ENOMEM <? 0) with true. cbn match. eexists _, _.
    erewrite bind_Ok; [done|]. apply on_fst_ok. unfold sparse_file_destroy. by rewrite (bind_Ok _ _ _ _ _ Ed).
  - right. split_and!; [|done..]. unfold bind at 1. rewrite E4. done.
Qed.
End Image.

(** ** Theorems *)

Section Theorems.
Context (E' : input) (bs len : Z) (l : list ablock) (c trail : list byte).
Hypothesis Him : image_ok bs len l.
Hypothesis Hfills : Forall (whole_fill bs) l.
Hypothesis Hruns : no_fill_runs bs l.
Hypothesis H31 : len / bs < 2 ^ 31.
Hypothesis Hclen : Z.of_nat (length c) < 2 ^ 62.
Hypothesis Hholds : holds fd E' c.

(** C3: importing the sparse image that a file was written as, without a checksum
    chunk, gives back a file of the same block size and length, the same image
    and a block for each block, at the same place and with the bytes it was
    written as, a partial data block filled up with zeros; however the reads are
    cut, and unless memory for a block is short.  The fills of the file are of
    whole blocks and no two with one value touch; the allocations of the structs
    do not fail. *)
Theorem sparse_file_import_roundtrip h rd verb crc :
  c = image_bytes bs len (file_chunks E bs len l false) ++ trail -> at_pos fd c 0 rd ->
  exists res h' rd', sparse_file_import fd verb crc (h, rd) = Ok (res, (h', rd')) /\
    match res with
    | None => exists h0, malloc h0 = None
    | Some s => same_image E' bs len l h' s
    end.
Proof using Him Hfills Hruns H31 Hclen Hholds Hstruct.
  intros Hc Hat.
  destruct (import_ok E' bs len l [] c trail crc Him Hfills Hruns H31 ltac:(simpl; lia)
    ltac:(by rewrite app_nil_r) Hclen Hholds h rd verb Hat) as (s' & h' & rd' & D). cbn zeta in D.
  destruct D as [[(h1 & rd1 & ->) Hm]|(-> & _ & Hs)]; [by eexists None, _, _|].
  eexists (Some s'), h', rd'. split; [|done]. simpl. unfold bind, ret. simpl. by rewrite Z.eqb_refl.
Qed.

(** With the checksum requested, an image that carries one is accepted exactly
    when the stored value is the CRC-32 of the plain image, gaps counted as
    zeros; otherwise it is refused. *)
Theorem sparse_file_import_checks_crc v h rd verb :
  c = image_bytes bs len (plan E bs 0 l (len / bs) ++ [CrcChunk v]) ++ trail -> 0 <= v < 2 ^ 32 ->
  at_pos fd c 0 rd -> 
  exists res h' rd', sparse_file_import fd verb true (h, rd) = Ok (res, (h', rd')) /\
    ((res = None /\ exists h0, malloc h0 = None) \/
     (if v =? sparse_crc32 0 (bytes_of (image_byte E bs l) len)
      then exists s, res = Some s /\ same_image E' bs len l h' s
      else res = None)).
Proof using Him Hfills Hruns H31 Hclen Hholds Hstruct.
  intros Hc Hv Hat.
  destruct (import_ok E' bs len l [CrcChunk v] c trail true Him Hfills Hruns H31 ltac:(simpl; lia)
    Hc Hclen Hholds h rd verb Hat) as (s' & h' & rd' & D). cbn zeta in D.
  destruct D as [[(h1 & rd1 & ->) Hm]|(-> & (p & Hp & Hd & Hpl) & Hs)]; [eexists None, _, _; eauto|].
  destruct (crc_chunk_ok bs len l [CrcChunk v] c trail Him Hclen v p s' (len / bs) h' rd'
    (final_crc bs len l true)) as (rd2 & Ec); [done|pose proof (im_total _ _ _ Him); lia|done..|].
  cbn [length]. unfold bind at 1. unfold bind at 1. rewrite Ec. cbn [final_crc obind fst snd].
  destruct (v =? _).
  - exists (Some s'), h', rd2. rewrite Z.eqb_refl. split; [done|]. right. by exists s'.
  - destruct Hs as (_ & _ & xs & Hok & _). destruct (list_destroy_ok h' (s_list s') xs Hok) as (h'' & Ed & _).
    eexists None, _, rd2. split; [|by right]. unfold ret. change (- EINVAL <? 0) with true.
    cbn [obind fst snd]. change (- EINVAL <? 0) with true. cbn match.
    erewrite bind_Ok; [done|]. apply on_fst_ok. unfold sparse_file_destroy. by rewrite (bind_Ok _ _ _ _ _ Ed).
Qed.

(** an image with a checksum chunk that is imported without asking for the
    checksum dereferences the null [crc_ptr]. *)
Theorem sparse_file_import_null_crc v h rd verb :
  c = image_bytes bs len (plan E bs 0 l (len / bs) ++ [CrcChunk v]) ++ trail -> 0 <= v < 2 ^ 32 ->
  at_pos fd c 0 rd -> (forall h0, malloc h0 <> None) ->
  sparse_file_import fd verb false (h, rd) = UB.
Proof using Him Hfills Hruns H31 Hclen Hholds Hstruct.
  intros Hc Hv Hat Hmem.
  destruct (import_ok E' bs len l [CrcChunk v] c trail false Him Hfills Hruns H31 ltac:(simpl; lia)
    Hc Hclen Hholds h rd verb Hat) as (s' & h' & rd' & D). cbn zeta in D.
  destruct D as [[_ [h0 Hm]]|(-> & (p & Hp & Hd & Hpl) & Hs)]; [by destruct (Hmem h0)|].
  destruct (crc_chunk_ok bs len l [CrcChunk v] c trail Him Hclen v p s' (len / bs) h' rd'
    (final_crc bs len l false)) as (rd2 & Ec); [done|pose proof (im_total _ _ _ Him); lia|done..|].
  cbn [length]. unfold bind at 1. unfold bind at 1. by rewrite Ec.
Qed.
End Theorems.
End Importing.
