(* ===== verification/SparseExamples.v ===== *)
(** * Concrete images

    A descriptor on a file in memory, instances of the theorems of the reader
    and the writer on it, and runs of the code on inputs it mishandles. *)

From S2P Require Import Prelude BackedBlock BackedBlockRefine BlockImage BlockListProps.
From S2P Require Import BlockListMove Crc32 OutputFile Sparse SparseFormat SparseWrite.
From S2P Require Import SparseWriteProps PlainWrite SparseRead ReadProps RoundTrip.

#[local] Open Scope Z_scope.
#[local] Open Scope c_scope.

(** ** A file in memory *)

#[export] Instance ram_reader : ReadKernel ram_file := {|
  sys_read _ count k :=
    let data := take (Z.to_nat count) (drop (ram_pos k) (ram_data k)) in
    ((Z.of_nat (length data), data), RamFile (ram_data k) (ram_pos k + length data) (ram_err k));
  sys_lseek _ off w k :=
    let target := off + match w with
      | SEEK_SET => 0 | SEEK_CUR => Z.of_nat (ram_pos k)
      | SEEK_END => Z.of_nat (length (ram_data k)) end in
    if target <? 0 then (-1, k) else (target, RamFile (ram_data k) (Z.to_nat target) (ram_err k));
  rd_errno _ := EINVAL
|}.

#[export, refine] Instance ram_read_file : ReadFile ram_file := {|
  rf_content _ k := ram_data k;
  rf_pos _ k := ram_pos k
|}.
Proof.
  - intros fd count k r data k' Hc [= <- <- <-]. cbn [ram_data ram_pos].
    set (d := drop (ram_pos k) (ram_data k)). split_and!; try done.
    + rewrite length_take. lia.
    + rewrite length_take. destruct (Nat.le_ge_cases (Z.to_nat count) (length d)) as [Hl|Hl].
      * by rewrite Nat.min_l.
      * rewrite Nat.min_r by done. by rewrite !take_ge by lia.
    + intros Ht. apply (f_equal length) in Ht. rewrite length_take in Ht. simpl in Ht.
      destruct d; [done|simpl in Ht; lia].
  - intros fd off w k r k'. simpl. case_match; [lia|]. by intros [= <- <-].
Defined.

Definition ram (data : list byte) : reader ram_file := Reader false (RamFile data 0 false).

Lemma ram_start data : at_pos 3 data 0 (ram data).
Proof. by split. Qed.

(** ** Instances of the theorems *)

Lemma read_all_exact_witness :
  exists r data rd', @read_all _ ram_reader 3 4 (ex_sparse_heap, ram (le 4 77 ++ le 4 5)) =
    Ok ((r, data), (ex_sparse_heap, rd')) /\ r = 0 /\ data = le 4 77.
Proof.
  destruct (read_all_exact 3 (le 4 77 ++ le 4 5) 0 4 ex_sparse_heap (ram (le 4 77 ++ le 4 5)))
    as (r & data & rd' & E & D); [done|apply Nat.le_0_l|reflexivity|].
  exists r, data, rd'. split; [exact E|]. destruct D as (Hr & Hd & _). by split.
Defined.

(** The file of SparseWriteProps.v: a gap, two filled blocks and a partial one. *)
Definition ex_blocks : list ablock := ex_sparse_xs.*2.
Definition ex_image (crc : bool) : list byte :=
  image_bytes 16 64 (file_chunks ex_sparse_input 16 64 ex_blocks crc).
Definition ex_file_input (c : list byte) : input :=
  Input (fun _ => Byte.x00) (fun _ i => nth (Z.to_nat i) c Byte.x00) (fun _ _ => Byte.x00).

Lemma ex_holds fd c : holds fd (ex_file_input c) c.
Proof. intros i x Hx. simpl. rewrite Nat2Z.id. by apply nth_lookup_Some. Qed.

Lemma ex_fills : Forall (whole_fill 16) ex_blocks.
Proof. repeat constructor. Qed.

Lemma ex_runs : no_fill_runs 16 ex_blocks.
Proof. repeat constructor. intros v _ H. discriminate H. Qed.

Lemma sparse_file_import_roundtrip_witness :
  exists res h' rd', @sparse_file_import _ ram_reader bump_allocator 3 false false
      (ex_sparse_heap, ram (ex_image false)) = Ok (res, (h', rd')) /\
    match res with
    | None => exists h0, @malloc bump_allocator h0 = None
    | Some s => same_image ex_sparse_input (ex_file_input (ex_image false)) 16 64 ex_blocks h' s
    end.
Proof.
  apply (@sparse_file_import_roundtrip _ ram_reader _ bump_allocator ex_sparse_input 3 (fun _ => eq_refl)
    (ex_file_input (ex_image false)) 16 64 ex_blocks (ex_image false) []).
  - exact ex_sparse_image.
  - exact ex_fills.
  - exact ex_runs.
  - reflexivity.
  - reflexivity.
  - apply ex_holds.
  - by rewrite app_nil_r.
  - by split.
Defined.

(** The checksum the writer keeps for the file, and the reader's. *)
Definition ex_crc : Z := chunks_crc 16 (plan ex_sparse_input 16 0 ex_blocks (64 / 16)) 0.

Lemma ex_crc_range : 0 <= ex_crc < 2 ^ 32.
Proof. vm_compute. split; [discriminate|reflexivity]. Qed.

Lemma ex_crc_differs :
  (ex_crc =? sparse_crc32 0 (bytes_of (image_byte ex_sparse_input 16 ex_blocks) 64)) = false.
Proof. vm_compute. reflexivity. Qed.

Lemma ex_image_small crc : Z.of_nat (length (ex_image crc)) < 2 ^ 62.
Proof. destruct crc; vm_compute; reflexivity. Qed.

Lemma ex_image_crc :
  ex_image true = image_bytes 16 64
    (plan ex_sparse_input 16 0 ex_blocks (64 / 16) ++ [CrcChunk ex_crc]) ++ [].
Proof. symmetry. apply app_nil_r. Qed.

Lemma sparse_file_import_checks_crc_witness :
  exists res h' rd', @sparse_file_import _ ram_reader bump_allocator 3 false true
      (ex_sparse_heap, ram (ex_image true)) = Ok (res, (h', rd')) /\
    ((res = None /\ exists h0, @malloc bump_allocator h0 = None) \/ res = None).
Proof.
  destruct (@sparse_file_import_checks_crc _ ram_reader _ bump_allocator ex_sparse_input 3 (fun _ => eq_refl)
    (ex_file_input (ex_image true)) 16 64 ex_blocks (ex_image true) [] ex_sparse_image ex_fills ex_runs
    eq_refl (ex_image_small true) (ex_holds _ _) ex_crc ex_sparse_heap (ram (ex_image true)) false
    ex_image_crc ex_crc_range (ram_start _)) as (res & h' & rd' & E & D).
  exists res, h', rd'. split; [exact E|]. rewrite ex_crc_differs in D. exact D.
Defined.

(** An allocator that never fails. *)
Program Definition total_allocator : Allocator := {|
  malloc h := Some (fresh (dom (cells h)));
  calloc_struct _ := true
|}.
Next Obligation. intros h l [= <-]. apply not_elem_of_dom. apply is_fresh. Qed.

Lemma sparse_file_import_null_crc_witness :
  @sparse_file_import _ ram_reader total_allocator 3 false false (ex_sparse_heap, ram (ex_image true)) = UB.
Proof.
  apply (@sparse_file_import_null_crc _ ram_reader _ total_allocator ex_sparse_input 3 (fun _ => eq_refl)
    (ex_file_input (ex_image true)) 16 64 ex_blocks (ex_image true) [] ex_sparse_image ex_fills ex_runs
    eq_refl (ex_image_small true) (ex_holds _ _) ex_crc ex_sparse_heap (ram (ex_image true)) false
    ex_image_crc ex_crc_range (ram_start _)).
  discriminate.
Defined.

(** ** Inputs the code mishandles *)

(** The state of a reader run, if it returned a file. *)
Definition imported {A} (m : outcome (option sparse_file * A)) : bool :=
  match m with Ok (Some _, _) => true | _ => false end.

(** The bytes [sparse_file_callback] hands to the client. *)
Definition written (s : sparse_file) (crc : bool) (h : heap) : outcome (Z * list byte) :=
  do! r := @sparse_file_callback bump_allocator ex_env _ s true crc collect (h, []) in
  Ok (r.1, r.2.2).

(** Writing a file and importing the bytes: the writer's result, and whether the
    reader accepts them. *)
Definition write_then_import (s : sparse_file) (crc : bool) (h : heap) : outcome (Z * bool) :=
  do! w := written s crc h in
  Ok (w.1, imported (@sparse_file_import _ ram_reader bump_allocator 3 false true (h, ram w.2))).

(** the writer checksums a fill chunk as one block and a don't-care chunk as
    nothing, the reader counts all their blocks: writing a file of a gap, two
    filled blocks and a data block with a checksum succeeds, and importing the bytes
    written with the checksum refuses them; without the checksum chunk they are
    accepted. *)
Theorem written_crc_refused :
  write_then_import ex_sparse true ex_sparse_heap = Ok (0, false) /\
  write_then_import ex_sparse false ex_sparse_heap = Ok (0, true).
Proof. split; vm_compute; reflexivity. Qed.

(** A plain file of [n] zero bytes. *)
Definition zero_file (n : nat) : reader ram_file := ram (zeros n).

(** a plain file whose size is not a multiple of the block size is imported,
    its last block shorter than the others, but writing the result fails the
    assertion [pad >= 0] in [write_all_blocks]: [img2simg] aborts on it. *)
Theorem unaligned_image_aborts :
  (do! r := @sparse_file_import_auto _ ram_reader bump_allocator 3 false false
     (Heap ∅ 1%positive 0, zero_file 5) in
   match r with
   | (Some s, (h, _)) => written s false h
   | (None, _) => Ok (0, [])
   end) = Abort.
Proof. vm_compute. reflexivity. Qed.

(** A sparse image with three fill chunks of one block each. *)
Definition fill_image (u v w : Z) : list byte :=
  image_bytes 16 48 [Fill 1 u; Fill 1 v; Fill 1 w].

(** two fill chunks with the same value in a row make the reader use a freed
    block when it adds the chunk after them; with other values the same image
    is imported. *)
Theorem import_adjacent_fills_use_after_free :
  @sparse_file_import _ ram_reader bump_allocator 3 false false (Heap ∅ 1%positive 0, ram (fill_image 7 7 8)) = UB /\
  imported (@sparse_file_import _ ram_reader bump_allocator 3 false false
    (Heap ∅ 1%positive 0, ram (fill_image 7 9 8))) = true.
Proof. split; vm_compute; reflexivity. Qed.

(** The block size of the header is not checked: an image with block size 0
    and a raw chunk divides by zero. *)
Theorem import_zero_block_size_divides_by_zero :
  @sparse_file_import _ ram_reader bump_allocator 3 false false
    (Heap ∅ 1%positive 0, ram (sparse_header_bytes (SparseHeader SPARSE_HEADER_MAGIC 1 0 28 12 0 0 1 0) ++
      chunk_header_bytes (ChunkHeader CHUNK_TYPE_RAW 0 0 12))) = UB.
Proof. vm_compute. reflexivity. Qed.
