(* ===== verification/Words.v ===== *)
(** * Multi-precision integers

    Arrays of 32-bit digits, least significant digit first, as the RSA and P-256
    code of libmincrypt holds its integers, and the big-endian byte order of the
    hashes, signatures and keys it reads and writes. *)

From S2P Require Import Prelude.

#[local] Open Scope Z_scope.

(** ** Digits *)

(** The value of an array of digits. *)
Fixpoint val (l : list Z) : Z :=
  match l with
  | [] => 0
  | x :: l => x + 2 ^ 32 * val l
  end.

(** Every digit fits [uint32_t]. *)
Definition words (l : list Z) : Prop := Forall (fun x => 0 <= x < 2 ^ 32) l.

(** The radix of an array of [n] digits. *)
Definition radix (n : nat) : Z := 2 ^ (32 * Z.of_nat n).

Lemma radix_0 : radix 0 = 1.
Proof. done. Qed.

Lemma radix_S n : radix (S n) = 2 ^ 32 * radix n.
Proof. unfold radix. rewrite <- Z.pow_add_r by lia. f_equal. lia. Qed.

Lemma radix_pos n : 0 < radix n.
Proof. unfold radix. apply Z.pow_pos_nonneg; lia. Qed.

Lemma radix_add n m : radix (n + m) = radix n * radix m.
Proof. unfold radix. rewrite <- Z.pow_add_r by lia. f_equal. lia. Qed.

Lemma words_cons x l : words (x :: l) <-> 0 <= x < 2 ^ 32 /\ words l.
Proof. unfold words. by rewrite Forall_cons. Qed.

Lemma words_app l k : words (l ++ k) <-> words l /\ words k.
Proof. unfold words. by rewrite Forall_app. Qed.

Lemma words_nil : words [].
Proof. constructor. Qed.

#[export] Hint Resolve words_nil radix_pos : cdb.

Lemma val_range l : words l -> 0 <= val l < radix (length l).
Proof.
  induction l as [|x l IH]; intros H; [done|].
  apply words_cons in H as [Hx Hl]. specialize (IH Hl). simpl length. rewrite radix_S. simpl. nia.
Qed.

Lemma val_app l k : val (l ++ k) = val l + radix (length l) * val k.
Proof.
  induction l as [|x l IH]; simpl; [rewrite radix_0; lia|].
  rewrite IH, radix_S. ring.
Qed.

Lemma val_zeros n : val (replicate n 0) = 0.
Proof. induction n; simpl; lia. Qed.

Lemma words_zeros n : words (replicate n 0).
Proof. apply Forall_replicate. lia. Qed.

(** Two arrays of the same size with the same value are equal. *)
Lemma val_inj l k : words l -> words k -> length l = length k -> val l = val k -> l = k.
Proof.
  revert k. induction l as [|x l IH]; intros [|y k] Hl Hk Hn E; try done.
  apply words_cons in Hl as [Hx Hl]. apply words_cons in Hk as [Hy Hk]. simpl in *.
  assert (x = y) as -> by lia. f_equal. apply IH; try done; lia.
Qed.

Lemma val_zero_iff l : words l -> val l = 0 <-> Forall (fun x => x = 0) l.
Proof.
  induction l as [|x l IH]; intros H; [done|].
  apply words_cons in H as [Hx Hl]. pose proof (val_range l Hl). simpl. rewrite Forall_cons, <- IH by done. lia.
Qed.

Lemma words_nth l i : words l -> 0 <= nth i l 0 < 2 ^ 32.
Proof.
  intros H. destruct (decide (i < length l)%nat) as [Hi|Hi].
  - unfold words in H. rewrite List.Forall_forall in H. by apply H, nth_In.
  - rewrite nth_overflow by lia. lia.
Qed.

Lemma words_take i l : words l -> words (take i l).
Proof. apply Forall_take. Qed.

Lemma words_drop i l : words l -> words (drop i l).
Proof. apply Forall_drop. Qed.

#[export] Hint Resolve words_take words_drop words_zeros : cdb.

Lemma val_take_range i l : words l -> (i <= length l)%nat -> 0 <= val (take i l) < radix i.
Proof. intros W Hi. pose proof (val_range (take i l) (words_take i l W)) as H. by rewrite length_take_le in H. Qed.

Lemma val_take_S i l : (i < length l)%nat -> val (take (S i) l) = val (take i l) + radix i * nth i l 0.
Proof.
  intros Hi. destruct (nth_lookup_or_length l i 0) as [E|]; [|lia].
  rewrite (take_S_r _ _ _ E), val_app, length_take_le by lia. simpl. lia.
Qed.

(** A number as [k] digits. *)
Fixpoint to_digits (k : nat) (z : Z) : list Z :=
  match k with O => [] | S k => u32 z :: to_digits k (Z.shiftr z 32) end.

Lemma words_to_digits k : forall z, words (to_digits k z).
Proof. induction k as [|k IH]; intros z; constructor; [apply u32_range|apply IH]. Qed.

Lemma length_to_digits k : forall z, length (to_digits k z) = k.
Proof. induction k as [|k IH]; intros z; simpl; [done|]. by rewrite IH. Qed.

(** Adding a digit pair to a carry: the digit stored and the carry kept. *)
Lemma digit_carry z : z = u32 z + 2 ^ 32 * Z.shiftr z 32.
Proof. unfold u32. rewrite Z.shiftr_div_pow2 by lia. pose proof (Z.div_mod z (2 ^ 32)). lia. Qed.

Lemma shiftr32_range z n : 0 <= z < 2 ^ 32 * n -> 0 <= Z.shiftr z 32 < n.
Proof.
  intros H. rewrite Z.shiftr_div_pow2 by lia.
  split; [apply Z.div_pos; lia|apply Z.div_lt_upper_bound; lia].
Qed.

(** ** Big-endian bytes *)

(** The number a big-endian byte string stands for. *)
Definition be_val (l : list byte) : Z := le_combine (rev l).

(** Four bytes read as a word: [p[0] << 24 | p[1] << 16 | p[2] << 8 | p[3]]. *)
Definition be_word (b0 b1 b2 b3 : byte) : Z :=
  Z.lor (Z.lor (Z.lor (u32 (Z.shiftl (byte.unsigned b0) 24)) (Z.shiftl (byte.unsigned b1) 16))
    (Z.shiftl (byte.unsigned b2) 8)) (byte.unsigned b3).

(** A word stored as four bytes: [*p++ = tmp >> 24; ...]. *)
Definition word_be (tmp : Z) : list byte :=
  [byte.of_Z (Z.shiftr tmp 24); byte.of_Z (Z.shiftr tmp 16); byte.of_Z (Z.shiftr tmp 8); byte.of_Z tmp].

(** An or of disjoint bits is a sum. *)
Lemma lor_low a b n : 0 <= n -> a mod 2 ^ n = 0 -> 0 <= b < 2 ^ n -> Z.lor a b = a + b.
Proof.
  intros Hn Ha Hb. assert (Z.land a b = 0) as E.
  - apply Z.bits_inj'. intros i Hi. rewrite Z.land_spec, Z.bits_0.
    destruct (decide (i < n)).
    + replace (Z.testbit a i) with false; [done|].
      rewrite <- (Z.mod_pow2_bits_low a n i), Ha by lia. symmetry. apply Z.bits_0.
    + rewrite <- (Z.mod_small b (2 ^ n)), Z.mod_pow2_bits_high by lia. apply andb_false_r.
  - rewrite Z.add_nocarry_lxor by done. symmetry. by apply Z.lxor_lor.
Qed.

Lemma lor_shiftl a b n : 0 <= n -> 0 <= b < 2 ^ n -> Z.lor (Z.shiftl a n) b = a * 2 ^ n + b.
Proof.
  intros Hn Hb. rewrite Z.shiftl_mul_pow2 by done. rewrite (lor_low _ _ n); try done.
  apply Z.mod_mul. lia.
Qed.

Lemma le_combine_cons b l : le_combine (b :: l) = byte.unsigned b + 256 * le_combine l.
Proof.
  pose proof (byte.unsigned_range b). change (le_combine (b :: l)) with (Z.lor (byte.unsigned b) (Z.shiftl (le_combine l) 8)).
  rewrite Z.lor_comm, lor_shiftl by lia. lia.
Qed.

Lemma le_combine_app l k : le_combine (l ++ k) = le_combine l + 2 ^ (8 * Z.of_nat (length l)) * le_combine k.
Proof.
  induction l as [|b l IH]; simpl app; [rewrite le_combine_nil; simpl; lia|].
  rewrite !le_combine_cons, IH. simpl length. replace (8 * Z.of_nat (S (length l))) with (8 + 8 * Z.of_nat (length l)) by lia.
  rewrite Z.pow_add_r by lia. ring.
Qed.

Lemma be_val_app l k : be_val (l ++ k) = be_val l * 2 ^ (8 * Z.of_nat (length k)) + be_val k.
Proof. unfold be_val. rewrite rev_app_distr, le_combine_app, length_rev. ring. Qed.

Lemma be_val_cons x l : be_val (x :: l) = byte.unsigned x * 2 ^ (8 * Z.of_nat (length l)) + be_val l.
Proof.
  change (x :: l) with ([x] ++ l). rewrite be_val_app. do 2 f_equal.
  unfold be_val. cbn [rev app]. rewrite le_combine_cons, le_combine_nil. lia.
Qed.

Lemma be_val_range l : 0 <= be_val l < 2 ^ (8 * Z.of_nat (length l)).
Proof. unfold be_val. rewrite <- (length_rev l). apply le_combine_bound. Qed.

Lemma be_val_inj l k : length l = length k -> be_val l = be_val k -> l = k.
Proof.
  unfold be_val. intros Hn E. apply le_combine_inj in E; [|by rewrite !length_rev].
  by rewrite <- (rev_involutive l), E, rev_involutive.
Qed.

Lemma be_word_val b0 b1 b2 b3 : be_word b0 b1 b2 b3 = be_val [b0; b1; b2; b3].
Proof.
  pose proof (byte.unsigned_range b0). pose proof (byte.unsigned_range b1).
  pose proof (byte.unsigned_range b2). pose proof (byte.unsigned_range b3).
  unfold be_word. rewrite !Z.shiftl_mul_pow2 by lia. rewrite u32_small by lia.
  rewrite (lor_low (byte.unsigned b0 * 2 ^ 24) _ 24), (lor_low _ (byte.unsigned b2 * 2 ^ 8) 16),
    (lor_low _ _ 8) by (Z.div_mod_to_equations; lia).
  unfold be_val. simpl rev. rewrite !le_combine_cons, le_combine_nil. lia.
Qed.

Lemma be_word_range b0 b1 b2 b3 : 0 <= be_word b0 b1 b2 b3 < 2 ^ 32.
Proof. rewrite be_word_val. apply be_val_range. Qed.

Lemma word_be_rev tmp : word_be tmp = rev (le 4 tmp).
Proof. unfold le. simpl. by rewrite !Z.shiftr_shiftr by lia. Qed.

Lemma be_val_word_be tmp : 0 <= tmp < 2 ^ 32 -> be_val (word_be tmp) = tmp.
Proof. intros H. unfold be_val. rewrite word_be_rev, rev_involutive. by apply le_combine_le. Qed.

(** The words of a byte string, in the order of the string. *)
Fixpoint be_words (l : list byte) : list Z :=
  match l with
  | b0 :: b1 :: b2 :: b3 :: l => be_word b0 b1 b2 b3 :: be_words l
  | _ => []
  end.

(** ** Congruence *)

Definition cong (N x y : Z) : Prop := (N | x - y).

#[export] Instance cong_equiv N : Equivalence (cong N).
Proof.
  split; unfold cong.
  - intros x. exists 0. lia.
  - intros x y [q E]. exists (- q). lia.
  - intros x y z [q E] [r F]. exists (q + r). lia.
Qed.

#[export] Instance cong_add N : Proper (cong N ==> cong N ==> cong N) Z.add.
Proof. intros x x' [q E] y y' [r F]. exists (q + r). lia. Qed.

#[export] Instance cong_sub N : Proper (cong N ==> cong N ==> cong N) Z.sub.
Proof. intros x x' [q E] y y' [r F]. exists (q - r). lia. Qed.

#[export] Instance cong_mul N : Proper (cong N ==> cong N ==> cong N) Z.mul.
Proof. intros x x' [q E] y y' [r F]. exists (q * y + x' * r). replace (x * y - x' * y') with ((x - x') * y + x' * (y - y')) by ring. rewrite E, F. ring. Qed.

Lemma cong_mod N x y : N <> 0 -> cong N x y <-> x mod N = y mod N.
Proof.
  intros HN. split.
  - intros [q E]. replace x with (y + q * N) by lia. by apply Z_mod_plus_full.
  - intros E. exists (x / N - y / N). pose proof (Z.div_mod x N HN). pose proof (Z.div_mod y N HN). nia.
Qed.

Lemma cong_mod_l N x : N <> 0 -> cong N (x mod N) x.
Proof. intros HN. apply cong_mod; [done|]. by apply Z.mod_mod. Qed.

Lemma cong_mult N x q : cong N (x + q * N) x.
Proof. exists q. ring. Qed.

(** A factor prime to the modulus cancels. *)
Lemma cong_cancel N r x y : Z.gcd N r = 1 -> cong N (r * x) (r * y) -> cong N x y.
Proof.
  intros Hg E. unfold cong in *. replace (r * x - r * y) with (r * (x - y)) in E by ring.
  by apply Z.gauss in E.
Qed.

(** Bezout's equation with coefficients that are not negative. *)
Lemma bezout_nonneg m n : 0 < m -> 0 < n -> Z.gcd m n = 1 -> exists u w, 0 <= u /\ 0 <= w /\ u * m = w * n + 1.
Proof.
  intros Hm Hn Hg. destruct (Z.gcd_bezout m n 1 Hg) as (u & v & E).
  pose proof (Z.mod_pos_bound u n Hn). pose proof (Z.div_mod u n). exists (u mod n + n), (m * (1 - u / n) - v).
  assert (Eq : (u mod n + n) * m = (m * (1 - u / n) - v) * n + 1) by nia. split_and!; [lia| |done].
  assert (0 < (u mod n + n) * m) by nia. nia.
Qed.
