(* ===== verification/Sha.v ===== *)
(** * The hashes of libmincrypt

    Model of include/mincrypt/hash-internal.h, core/libmincrypt/sha.c and
    core/libmincrypt/sha256.c: a context with a 64-byte buffer, updated one byte
    at a time, and the two compression functions over it. The text of [_update]
    and [_final] is the same in both files, up to the compression function and
    the number of words of the digest; [Section Engine] has it once. *)

From S2P Require Import Prelude Words.

#[local] Open Scope Z_scope.
#[local] Open Scope c_scope.

(** ** Contexts *)

(** The function table a context points to: one per hash. *)
Inductive HASH_VTAB : Set := SHA_VTAB | SHA256_VTAB.

Record HASH_CTX : Type := HashCtx {
  f : HASH_VTAB;
  count : Z;             (* uint64_t *)
  buf : list byte;       (* uint8_t[64] *)
  state : list Z         (* uint32_t[8] *)
}.

Definition set_count (ctx : HASH_CTX) (n : Z) : HASH_CTX := HashCtx (f ctx) n (buf ctx) (state ctx).
Definition set_buf (ctx : HASH_CTX) (b : list byte) : HASH_CTX := HashCtx (f ctx) (count ctx) b (state ctx).
Definition set_state (ctx : HASH_CTX) (s : list Z) : HASH_CTX := HashCtx (f ctx) (count ctx) (buf ctx) s.

Definition SHA_DIGEST_SIZE : nat := 20.
Definition SHA256_DIGEST_SIZE : nat := 32.

(** The message schedule [W]: the 16 words of the buffer, then [n] words, each
    computed from those before it. *)
Fixpoint schedule (next : list Z -> nat -> Z) (n : nat) (W : list Z) : list Z :=
  match n with
  | O => W
  | S n => schedule next n (W ++ [next W (length W)])
  end.

(** ** sha.c *)

Definition rol (bits value : Z) : Z := u32 (Z.lor (Z.shiftl value bits) (Z.shiftr value (32 - bits))).

Definition sha1_next (W : list Z) (t : nat) : Z :=
  rol 1 (Z.lxor (Z.lxor (Z.lxor (nth (t - 3) W 0) (nth (t - 8) W 0)) (nth (t - 14) W 0)) (nth (t - 16) W 0)).

(** One iteration of the loop over [t] of [SHA1_Transform]. *)
Definition sha1_round (W : list Z) (s : Z * Z * Z * Z * Z) (t : nat) : Z * Z * Z * Z * Z :=
  let '(A, B, C, D, E) := s in
  let tmp := u32 (rol 5 A + E + nth t W 0) in
  let tmp := u32 (tmp +
    if (t <? 20)%nat then Z.lxor D (Z.land B (Z.lxor C D)) + 0x5A827999
    else if (t <? 40)%nat then Z.lxor (Z.lxor B C) D + 0x6ED9EBA1
    else if (t <? 60)%nat then Z.lor (Z.land B C) (Z.land D (Z.lor B C)) + 0x8F1BBCDC
    else Z.lxor (Z.lxor B C) D + 0xCA62C1D6) in
  (tmp, A, rol 30 B, C, D).

Definition SHA1_Transform (ctx : HASH_CTX) : HASH_CTX :=
  let W := schedule sha1_next 64 (be_words (buf ctx)) in
  match state ctx with
  | s0 :: s1 :: s2 :: s3 :: s4 :: rest =>
      let '(A, B, C, D, E) := fold_left (sha1_round W) (seq 0 80) (s0, s1, s2, s3, s4) in
      set_state ctx (u32 (s0 + A) :: u32 (s1 + B) :: u32 (s2 + C) :: u32 (s3 + D) :: u32 (s4 + E) :: rest)
  | _ => ctx
  end.

(** ** sha256.c *)

Definition ror (value bits : Z) : Z := u32 (Z.lor (Z.shiftr value bits) (Z.shiftl value (32 - bits))).
Definition shr (value bits : Z) : Z := Z.shiftr value bits.

Definition K : list Z :=
  [0x428a2f98; 0x71374491; 0xb5c0fbcf; 0xe9b5dba5; 0x3956c25b; 0x59f111f1; 0x923f82a4; 0xab1c5ed5] ++
  [0xd807aa98; 0x12835b01; 0x243185be; 0x550c7dc3; 0x72be5d74; 0x80deb1fe; 0x9bdc06a7; 0xc19bf174] ++
  [0xe49b69c1; 0xefbe4786; 0x0fc19dc6; 0x240ca1cc; 0x2de92c6f; 0x4a7484aa; 0x5cb0a9dc; 0x76f988da] ++
  [0x983e5152; 0xa831c66d; 0xb00327c8; 0xbf597fc7; 0xc6e00bf3; 0xd5a79147; 0x06ca6351; 0x14292967] ++
  [0x27b70a85; 0x2e1b2138; 0x4d2c6dfc; 0x53380d13; 0x650a7354; 0x766a0abb; 0x81c2c92e; 0x92722c85] ++
  [0xa2bfe8a1; 0xa81a664b; 0xc24b8b70; 0xc76c51a3; 0xd192e819; 0xd6990624; 0xf40e3585; 0x106aa070] ++
  [0x19a4c116; 0x1e376c08; 0x2748774c; 0x34b0bcb5; 0x391c0cb3; 0x4ed8aa4a; 0x5b9cca4f; 0x682e6ff3] ++
  [0x748f82ee; 0x78a5636f; 0x84c87814; 0x8cc70208; 0x90befffa; 0xa4506ceb; 0xbef9a3f7; 0xc67178f2].

Definition sha256_next (W : list Z) (t : nat) : Z :=
  let w15 := nth (t - 15) W 0 in
  let w2 := nth (t - 2) W 0 in
  let s0 := Z.lxor (Z.lxor (ror w15 7) (ror w15 18)) (shr w15 3) in
  let s1 := Z.lxor (Z.lxor (ror w2 17) (ror w2 19)) (shr w2 10) in
  u32 (nth (t - 16) W 0 + s0 + nth (t - 7) W 0 + s1).

(** One iteration of the loop over [t] of [SHA256_Transform]. *)
Definition sha256_round (W : list Z) (s : Z * Z * Z * Z * Z * Z * Z * Z) (t : nat)
    : Z * Z * Z * Z * Z * Z * Z * Z :=
  let '(A, B, C, D, E, F, G, H) := s in
  let s0 := Z.lxor (Z.lxor (ror A 2) (ror A 13)) (ror A 22) in
  let maj := Z.lxor (Z.lxor (Z.land A B) (Z.land A C)) (Z.land B C) in
  let t2 := u32 (s0 + maj) in
  let s1 := Z.lxor (Z.lxor (ror E 6) (ror E 11)) (ror E 25) in
  let ch := Z.lxor (Z.land E F) (Z.land (u32 (Z.lnot E)) G) in
  let t1 := u32 (H + s1 + ch + nth t K 0 + nth t W 0) in
  (u32 (t1 + t2), A, B, C, u32 (D + t1), E, F, G).

Definition SHA256_Transform (ctx : HASH_CTX) : HASH_CTX :=
  let W := schedule sha256_next 48 (be_words (buf ctx)) in
  match state ctx with
  | [s0; s1; s2; s3; s4; s5; s6; s7] =>
      let '(A, B, C, D, E, F, G, H) :=
        fold_left (sha256_round W) (seq 0 64) (s0, s1, s2, s3, s4, s5, s6, s7) in
      set_state ctx [u32 (s0 + A); u32 (s1 + B); u32 (s2 + C); u32 (s3 + D);
                     u32 (s4 + E); u32 (s5 + F); u32 (s6 + G); u32 (s7 + H)]
  | _ => ctx
  end.

(** ** Updating and finishing *)

Section Engine.

Variable transform : HASH_CTX -> HASH_CTX.

(** The loop of [_update]: [i] is the next free byte of the buffer. *)
Fixpoint update_loop (i : nat) (data : list byte) (ctx : HASH_CTX) : HASH_CTX :=
  match data with
  | [] => ctx
  | b :: data =>
      let ctx := set_buf ctx (<[i := b]> (buf ctx)) in
      if (S i =? 64)%nat then update_loop 0 data (transform ctx) else update_loop (S i) data ctx
  end.

Definition hash_update (ctx : HASH_CTX) (data : list byte) : HASH_CTX :=
  let i := Z.to_nat (Z.land (count ctx) 63) in
  update_loop i data (set_count ctx (u64 (count ctx + Z.of_nat (length data)))).

(** The loop of [_final] that adds zero bytes until 56 are left over; at most 63
    are needed, and 64 iterations are allowed. *)
Fixpoint zero_loop (fuel : nat) (ctx : HASH_CTX) : outcome HASH_CTX :=
  if Z.land (count ctx) 63 =? 56 then Ok ctx
  else match fuel with
       | O => NoFuel
       | S fuel => zero_loop fuel (hash_update ctx [Byte.x00])
       end.

Definition length_byte (cnt : Z) (i : Z) : byte := byte.of_Z (Z.shiftr cnt ((7 - i) * 8)).

(** [_final]: the digest has [n] words and is left at the start of the buffer. *)
Definition hash_final (n : nat) (ctx : HASH_CTX) : outcome HASH_CTX :=
  let cnt := u64 (count ctx * 8) in
  let ctx := hash_update ctx [Byte.x80] in
  do! ctx := zero_loop 64 ctx in
  let ctx := fold_left (fun ctx i => hash_update ctx [length_byte cnt i]) (seqZ 0 8) ctx in
  Ok (set_buf ctx (concat (word_be <$> take n (state ctx)) ++ drop (4 * n) (buf ctx))).

End Engine.

Definition SHA_init (ctx : HASH_CTX) : HASH_CTX :=
  HashCtx SHA_VTAB 0 (buf ctx)
    ([0x67452301; 0xEFCDAB89; 0x98BADCFE; 0x10325476; 0xC3D2E1F0] ++ drop 5 (state ctx)).

Definition SHA_update : HASH_CTX -> list byte -> HASH_CTX := hash_update SHA1_Transform.

Definition SHA_final : HASH_CTX -> outcome HASH_CTX := hash_final SHA1_Transform 5.

(** [ctx] is the uninitialised context on the stack. *)
Definition SHA_hash (ctx : HASH_CTX) (data : list byte) : outcome (list byte) :=
  do! ctx := SHA_final (SHA_update (SHA_init ctx) data) in
  Ok (take SHA_DIGEST_SIZE (buf ctx)).

Definition SHA256_init (ctx : HASH_CTX) : HASH_CTX :=
  HashCtx SHA256_VTAB 0 (buf ctx)
    [0x6a09e667; 0xbb67ae85; 0x3c6ef372; 0xa54ff53a; 0x510e527f; 0x9b05688c; 0x1f83d9ab; 0x5be0cd19].

Definition SHA256_update : HASH_CTX -> list byte -> HASH_CTX := hash_update SHA256_Transform.

Definition SHA256_final : HASH_CTX -> outcome HASH_CTX := hash_final SHA256_Transform 8.

Definition SHA256_hash (ctx : HASH_CTX) (data : list byte) : outcome (list byte) :=
  do! ctx := SHA256_final (SHA256_update (SHA256_init ctx) data) in
  Ok (take SHA256_DIGEST_SIZE (buf ctx)).

(** The macros that call through the table. *)
Definition HASH_init (ctx : HASH_CTX) : HASH_CTX :=
  match f ctx with SHA_VTAB => SHA_init ctx | SHA256_VTAB => SHA256_init ctx end.
Definition HASH_update (ctx : HASH_CTX) (data : list byte) : HASH_CTX :=
  match f ctx with SHA_VTAB => SHA_update ctx data | SHA256_VTAB => SHA256_update ctx data end.
Definition HASH_final (ctx : HASH_CTX) : outcome HASH_CTX :=
  match f ctx with SHA_VTAB => SHA_final ctx | SHA256_VTAB => SHA256_final ctx end.
Definition HASH_size (ctx : HASH_CTX) : nat :=
  match f ctx with SHA_VTAB => SHA_DIGEST_SIZE | SHA256_VTAB => SHA256_DIGEST_SIZE end.
