(* ===== verification/ShaProps.v ===== *)
(** * The hashes compute SHA-1 and SHA-256

    The hashes as FIPS 180-4 defines them, of a whole message: padding, blocks of
    64 bytes, one compression per block. The code sees the message in pieces of
    any size and keeps at most 63 bytes of it; the theorems say that whatever the
    pieces, the digest is the one of the message. *)

From S2P Require Import Prelude Words Sha.

#[local] Open Scope Z_scope.
#[local] Open Scope c_scope.

(** ** Hashing a whole message *)

Section Spec.

Variable compress : list Z -> list byte -> list Z.

(** [n] blocks of [m] compressed into the chaining value [H]. *)
Fixpoint absorb (n : nat) (H : list Z) (m : list byte) : list Z :=
  match n with
  | O => H
  | S n => absorb n (compress H (take 64 m)) (drop 64 m)
  end.

Lemma absorb_last n H m :
  absorb (S n) H m = compress (absorb n H m) (take 64 (drop (64 * n) m)).
Proof.
  revert H m. induction n as [|n IH]; intros H m; [done|].
  change (absorb (S n) (compress H (take 64 m)) (drop 64 m) =
    compress (absorb n (compress H (take 64 m)) (drop 64 m)) (take 64 (drop (64 * S n) m))).
  rewrite IH, drop_drop. do 3 f_equal. lia.
Qed.

Lemma absorb_app n H m k : (64 * n <= length m)%nat -> absorb n H (m ++ k) = absorb n H m.
Proof.
  revert H m. induction n as [|n IH]; intros H m Hn; [done|]. simpl.
  rewrite take_app_le, drop_app_le by lia. apply IH. rewrite length_drop. lia.
Qed.

End Spec.

(** The message, a one bit, zeros, and the length in bits as 64 bits. *)
Definition sha_pad (m : list byte) : list byte :=
  let len := Z.of_nat (length m) in
  m ++ [Byte.x80] ++ replicate (Z.to_nat ((55 - len) mod 64)) Byte.x00 ++ rev (le 8 (8 * len)).

Definition sha_digest (compress : list Z -> list byte -> list Z) (H0 : list Z) (m : list byte) : list byte :=
  let p := sha_pad m in concat (word_be <$> absorb compress (length p / 64) H0 p).

(** Rotations and shifts of a 32-bit word, by multiplication and division. *)
Definition ROTL (n x : Z) : Z := (x * 2 ^ n) mod 2 ^ 32 + x / 2 ^ (32 - n).
Definition ROTR (n x : Z) : Z := x / 2 ^ n + (x mod 2 ^ n) * 2 ^ (32 - n).
Definition SHR (n x : Z) : Z := x / 2 ^ n.

(** [n] words of the message schedule whose next 16 words are [w], as a shift
    register: [next] gives the word after them. *)
Fixpoint message_schedule (next : list Z -> Z) (n : nat) (w : list Z) : list Z :=
  match n with
  | O => []
  | S n => hd 0 w :: message_schedule next n (tl w ++ [next w])
  end.

(** *** SHA-1 *)

Definition Ch (x y z : Z) : Z := Z.lxor (Z.land x y) (Z.ldiff z x).
Definition Parity (x y z : Z) : Z := Z.lxor (Z.lxor x y) z.
Definition Maj (x y z : Z) : Z := Z.lxor (Z.lxor (Z.land x y) (Z.land x z)) (Z.land y z).

(** The function and the constant of step [t]. *)
Definition sha1_f (t : nat) : Z -> Z -> Z -> Z :=
  if (t <? 20)%nat then Ch else if (t <? 40)%nat then Parity else if (t <? 60)%nat then Maj else Parity.

(** Square roots of 2, 3, 5 and 10, scaled by 2^30. *)
Definition sha1_k (t : nat) : Z :=
  Z.sqrt (2 ^ 60 * if (t <? 20)%nat then 2 else if (t <? 40)%nat then 3 else if (t <? 60)%nat then 5 else 10).

(** W(t) from W(t-16), ..., W(t-1). *)
Definition sha1_w (w : list Z) : Z :=
  ROTL 1 (Z.lxor (Z.lxor (nth 13 w 0) (nth 8 w 0)) (Z.lxor (nth 2 w 0) (nth 0 w 0))).

Definition fips_sha1_round (W : list Z) (s : Z * Z * Z * Z * Z) (t : nat) : Z * Z * Z * Z * Z :=
  let '(a, b, c, d, e) := s in
  (u32 (ROTL 5 a + sha1_f t b c d + e + sha1_k t + nth t W 0), a, ROTL 30 b, c, d).

Definition fips_sha1_compress (H : list Z) (block : list byte) : list Z :=
  match H with
  | [h0; h1; h2; h3; h4] =>
      let W := message_schedule sha1_w 80 (be_words block) in
      let '(a, b, c, d, e) := fold_left (fips_sha1_round W) (seq 0 80) (h0, h1, h2, h3, h4) in
      [u32 (h0 + a); u32 (h1 + b); u32 (h2 + c); u32 (h3 + d); u32 (h4 + e)]
  | _ => H
  end.

Definition sha1 : list byte -> list byte :=
  sha_digest fips_sha1_compress [0x67452301; 0xEFCDAB89; 0x98BADCFE; 0x10325476; 0xC3D2E1F0].

(** *** SHA-256 *)

Definition is_prime (n : Z) : bool := forallb (fun d => negb (n mod d =? 0)) (seqZ 2 (n - 2)).
Definition first_primes : list Z := filter is_prime (seqZ 2 310).

(** The integer cube root, bit by bit from bit [n]. *)
Fixpoint cbrt (n : nat) (r x : Z) : Z :=
  let r' := r + 2 ^ Z.of_nat n in
  let r := if r' * r' * r' <=? x then r' else r in
  match n with O => r | S n => cbrt n r x end.

(** The first 32 bits of the fractional part of the cube root of a prime. *)
Definition sha256_k (t : nat) : Z := u32 (cbrt 40 0 (nth t first_primes 0 * 2 ^ 96)).
(** The same of the square root. *)
Definition sha256_h (i : nat) : Z := u32 (Z.sqrt (nth i first_primes 0 * 2 ^ 64)).

Definition Sigma0 (x : Z) : Z := Parity (ROTR 2 x) (ROTR 13 x) (ROTR 22 x).
Definition Sigma1 (x : Z) : Z := Parity (ROTR 6 x) (ROTR 11 x) (ROTR 25 x).
Definition sigma0 (x : Z) : Z := Parity (ROTR 7 x) (ROTR 18 x) (SHR 3 x).
Definition sigma1 (x : Z) : Z := Parity (ROTR 17 x) (ROTR 19 x) (SHR 10 x).

Definition sha256_w (w : list Z) : Z :=
  u32 (sigma1 (nth 14 w 0) + nth 9 w 0 + sigma0 (nth 1 w 0) + nth 0 w 0).

Definition fips_sha256_round (ks W : list Z) (s : Z * Z * Z * Z * Z * Z * Z * Z) (t : nat)
    : Z * Z * Z * Z * Z * Z * Z * Z :=
  let '(a, b, c, d, e, f, g, h) := s in
  let t1 := h + Sigma1 e + Ch e f g + nth t ks 0 + nth t W 0 in
  let t2 := Sigma0 a + Maj a b c in
  (u32 (t1 + t2), a, b, c, u32 (d + t1), e, f, g).

Definition fips_sha256_compress (H : list Z) (block : list byte) : list Z :=
  match H with
  | [h0; h1; h2; h3; h4; h5; h6; h7] =>
      let W := message_schedule sha256_w 64 (be_words block) in
      let '(a, b, c, d, e, f, g, h) :=
        fold_left (fips_sha256_round (sha256_k <$> seq 0 64) W) (seq 0 64) (h0, h1, h2, h3, h4, h5, h6, h7) in
      [u32 (h0 + a); u32 (h1 + b); u32 (h2 + c); u32 (h3 + d);
       u32 (h4 + e); u32 (h5 + f); u32 (h6 + g); u32 (h7 + h)]
  | _ => H
  end.

Definition sha256 : list byte -> list byte := sha_digest fips_sha256_compress (sha256_h <$> seq 0 8).

(** ** The engine *)

Section Engine.

Variable transform : HASH_CTX -> HASH_CTX.

(** What the code needs of a compression function: it changes the chaining
    value only, and looks at nothing but it and the buffer. *)
Variable comp : list Z -> list byte -> list Z.
Hypothesis Hcomp : forall ctx, transform ctx = set_state ctx (comp (state ctx) (buf ctx)).

Variable H0 : list Z.

(** The context has taken in the message [m]: whole blocks are compressed, the
    rest is at the start of the buffer. *)
Record held (m : list byte) (ctx : HASH_CTX) : Prop := {
  held_buf : length (buf ctx) = 64%nat;
  held_state : state ctx = absorb comp (length m / 64) H0 m;
  held_rest : take (length m mod 64) (buf ctx) = drop (64 * (length m / 64)) m
}.

Definition absorbed (m : list byte) (ctx : HASH_CTX) : Prop :=
  count ctx = u64 (Z.of_nat (length m)) /\ held m ctx.

(** The body of the loop of [_update]. *)
Lemma held_byte m b ctx :
  let i := (length m mod 64)%nat in
  let ctx1 := set_buf ctx (<[i := b]> (buf ctx)) in
  let full := (S i =? 64)%nat in
  held m ctx ->
  held (m ++ [b]) (if full then transform ctx1 else ctx1) /\
  (length (m ++ [b]) mod 64)%nat = if full then 0%nat else S i.
Proof.
  intros i ctx1 full [Hb Hs Hr]. fold i in Hr. set (q := (length m / 64)%nat) in *.
  assert (length m = 64 * q + i)%nat as Hm by (apply Nat.div_mod; lia).
  assert (i < 64)%nat as Hi by (apply Nat.mod_upper_bound; lia).
  clearbody q i.
  assert (take (S i) (<[i:=b]> (buf ctx)) = drop (64 * q) (m ++ [b])) as E.
  { rewrite drop_app_le, <- Hr by lia. rewrite (take_S_r _ _ b).
    - by rewrite take_insert_ge by lia.
    - apply list_lookup_insert_eq. lia. }
  assert (length (m ++ [b]) = 64 * q + S i)%nat as Hl by (rewrite length_app; simpl; lia).
  subst full. destruct (Nat.eqb_spec (S i) 64) as [H64|H64].
  - replace (64 * q + S i)%nat with (S q * 64)%nat in Hl by lia.
    split; [|rewrite Hl; apply Nat.Div0.mod_mul]. rewrite Hcomp.
    split; cbn [buf state set_state set_buf ctx1]; [by rewrite length_insert| |];
      rewrite Hl, ?Nat.Div0.mod_mul, ?Nat.div_mul by lia.
    + rewrite absorb_last, absorb_app, <- Hs, <- E, H64 by lia.
      by rewrite !take_ge by (rewrite ?length_take, ?length_insert; lia).
    + by rewrite drop_ge by lia.
  - assert (length (m ++ [b]) / 64 = q)%nat as Hq
      by (rewrite Hl; symmetry; apply Nat.div_unique with (S i); lia).
    assert (length (m ++ [b]) mod 64 = S i)%nat as Hmod
      by (rewrite Hl; symmetry; apply Nat.mod_unique with q; lia).
    split; [|done]. split; cbn [buf state set_buf ctx1]; rewrite ?Hq, ?Hmod; [by rewrite length_insert| |done].
    by rewrite absorb_app by lia.
Qed.

Lemma held_loop data : forall m ctx,
  held m ctx -> held (m ++ data) (update_loop transform (length m mod 64) data ctx) /\
    count (update_loop transform (length m mod 64) data ctx) = count ctx.
Proof.
  induction data as [|b data IH]; intros m ctx H; [by rewrite app_nil_r|].
  destruct (held_byte m b ctx H) as [H' Hl].
  destruct (IH _ _ H') as [IH1 IH2]. rewrite Hl, <- app_assoc in IH1. rewrite Hl in IH2.
  cbn [update_loop]. cbv zeta. destruct (S (length m mod 64) =? 64)%nat; [|done].
  split; [done|]. by rewrite IH2, Hcomp.
Qed.

Lemma count_low (n : nat) : Z.land (u64 (Z.of_nat n)) 63 = Z.of_nat n mod 64.
Proof.
  change 63 with (Z.ones 6). rewrite Z.land_ones by lia. unfold u64.
  by rewrite <- Znumtheory.Zmod_div_mod by (try lia; exists (2 ^ 58); lia).
Qed.

Lemma hash_update_ok m data ctx :
  absorbed m ctx -> absorbed (m ++ data) (hash_update transform ctx data).
Proof.
  intros [Hc H]. unfold hash_update. rewrite Hc, count_low.
  change 64 with (Z.of_nat 64). rewrite <- Nat2Z.inj_mod, Nat2Z.id.
  set (ctx1 := set_count ctx _). assert (held m ctx1) as H1 by by destruct H; split.
  destruct (held_loop data m ctx1 H1) as [E1 E2]. split; [|done]. rewrite E2. simpl.
  unfold u64. rewrite Zplus_mod_idemp_l, length_app. f_equal. lia.
Qed.

Lemma updates_ok pieces : forall m ctx,
  absorbed m ctx -> absorbed (m ++ concat pieces) (fold_left (hash_update transform) pieces ctx).
Proof.
  induction pieces as [|d ds IH]; intros m ctx H; simpl; [by rewrite app_nil_r|].
  rewrite app_assoc. by apply IH, hash_update_ok.
Qed.

Lemma zero_loop_ok k : forall fuel m ctx,
  absorbed m ctx -> (k <= fuel)%nat -> (56 - Z.of_nat (length m)) mod 64 = Z.of_nat k ->
  exists ctx', zero_loop transform fuel ctx = Ok ctx' /\ absorbed (m ++ replicate k Byte.x00) ctx'.
Proof.
  induction k as [|k IH]; intros fuel m ctx H Hf Hk.
  - exists ctx. rewrite app_nil_r. split; [|done]. destruct H as [Hc _].
    unfold zero_loop. destruct fuel; rewrite Hc, count_low;
      (destruct (Z.eqb_spec (Z.of_nat (length m) mod 64) 56); [done|Z.div_mod_to_equations; lia]).
  - destruct fuel as [|fuel]; [lia|]. cbn [zero_loop].
    assert ((Z.land (count ctx) 63 =? 56) = false) as ->.
    { destruct H as [-> _]. rewrite count_low. apply Z.eqb_neq. Z.div_mod_to_equations; lia. }
    destruct (IH fuel (m ++ [Byte.x00]) (hash_update transform ctx [Byte.x00])) as (ctx' & E & H').
    + by apply hash_update_ok.
    + lia.
    + rewrite length_app. simpl. Z.div_mod_to_equations; lia.
    + exists ctx'. split; [done|]. by rewrite <- app_assoc in H'.
Qed.

Lemma length_bytes_ok len :
  (length_byte (u64 (u64 len * 8)) <$> seqZ 0 8) = rev (le 8 (8 * len)).
Proof.
  replace (le 8 (8 * len)) with (le 8 (u64 (u64 len * 8))).
  - unfold le. simpl. unfold length_byte. rewrite !Z.shiftr_shiftr by lia. reflexivity.
  - apply le_combine_inj; [by rewrite !length_le|]. unfold le. rewrite !le_combine_split.
    unfold u64. rewrite Zmult_mod_idemp_l, Zmod_mod. f_equal. lia.
Qed.

Lemma fold_update_ok (g : Z -> byte) l : forall m ctx,
  absorbed m ctx ->
  absorbed (m ++ (g <$> l)) (fold_left (fun ctx i => hash_update transform ctx [g i]) l ctx).
Proof.
  induction l as [|i l IH]; intros m ctx H; simpl; [by rewrite app_nil_r|].
  specialize (IH (m ++ [g i]) _ (hash_update_ok _ [g i] _ H)). by rewrite <- app_assoc in IH.
Qed.

Lemma length_sha_pad m : (length (sha_pad m) mod 64 = 0)%nat.
Proof.
  unfold sha_pad. rewrite !length_app, length_replicate, length_rev, length_le. simpl length.
  apply Nat2Z.inj. rewrite Nat2Z.inj_mod.
  pose proof (Z.mod_pos_bound (55 - Z.of_nat (length m)) 64 ltac:(lia)).
  rewrite !Nat2Z.inj_add, Z2Nat.id by lia. Z.div_mod_to_equations; lia.
Qed.

(** [_final] leaves the first [n] words of the chaining value of the padded
    message at the start of the buffer. *)
Lemma hash_final_ok n m ctx :
  absorbed m ctx ->
  exists ctx' rest, hash_final transform n ctx = Ok ctx' /\
    buf ctx' = concat (word_be <$> take n (absorb comp (length (sha_pad m) / 64) H0 (sha_pad m))) ++ rest.
Proof.
  intros H. unfold hash_final.
  pose proof (hash_update_ok _ [Byte.x80] _ H) as H1.
  set (k := Z.to_nat ((55 - Z.of_nat (length m)) mod 64)).
  pose proof (Z.mod_pos_bound (55 - Z.of_nat (length m)) 64 ltac:(lia)) as Hk.
  destruct (zero_loop_ok k 64 _ _ H1) as (ctx2 & E & H2); [unfold k; lia| |].
  { rewrite length_app, Nat2Z.inj_add. unfold k. rewrite Z2Nat.id by lia. f_equal. simpl. lia. }
  pose proof (fold_update_ok (length_byte (u64 (count ctx * 8))) (seqZ 0 8) _ _ H2) as H3.
  rewrite E. cbn [obind].
  eexists _, _. split; [reflexivity|]. cbn [buf set_buf].
  destruct H as [Hc _]. rewrite Hc, length_bytes_ok, <- !app_assoc in H3.
  change (m ++ _) with (sha_pad m) in H3. rewrite Hc.
  destruct H3 as [_ [_ Hs _]]. by rewrite <- Hs.
Qed.

End Engine.

(** ** The compression functions *)

Lemma Ch_select b c d : Z.lxor d (Z.land b (Z.lxor c d)) = Ch b c d.
Proof.
  apply Z.bits_inj'. intros i _. unfold Ch. rewrite ?Z.lxor_spec, ?Z.land_spec, ?Z.ldiff_spec, ?Z.lxor_spec.
  by destruct (Z.testbit b i), (Z.testbit c i), (Z.testbit d i).
Qed.

Lemma Maj_or b c d : Z.lor (Z.land b c) (Z.land d (Z.lor b c)) = Maj b c d.
Proof.
  apply Z.bits_inj'. intros i _. unfold Maj. rewrite ?Z.lor_spec, ?Z.lxor_spec, ?Z.land_spec, ?Z.lor_spec.
  by destruct (Z.testbit b i), (Z.testbit c i), (Z.testbit d i).
Qed.

Lemma u32_add_idem_r x y : u32 (x + u32 y) = u32 (x + y).
Proof. unfold u32. apply Zplus_mod_idemp_r. Qed.

Lemma rol_ROTL n x : 0 < n < 32 -> 0 <= x < 2 ^ 32 -> rol n x = ROTL n x.
Proof.
  intros Hn Hx. unfold rol, ROTL. rewrite Z.shiftl_mul_pow2, Z.shiftr_div_pow2 by lia.
  assert (E32 : 2 ^ 32 = 2 ^ n * 2 ^ (32 - n)) by (rewrite <- Z.pow_add_r by lia; f_equal; lia).
  assert (0 < 2 ^ n) by (apply Z.pow_pos_nonneg; lia).
  assert (0 < 2 ^ (32 - n)) by (apply Z.pow_pos_nonneg; lia).
  assert (Hd : 0 <= x / 2 ^ (32 - n) < 2 ^ n).
  { split; [apply Z.div_pos; lia|apply Z.div_lt_upper_bound; lia]. }
  rewrite (lor_low _ _ n) by (lia || by apply Z.mod_mul; lia). unfold u32.
  replace (x * 2 ^ n) with ((x mod 2 ^ (32 - n)) * 2 ^ n + x / 2 ^ (32 - n) * 2 ^ 32)
    by (rewrite E32; pose proof (Z.div_mod x (2 ^ (32 - n)) ltac:(lia)); nia).
  pose proof (Z.mod_pos_bound x (2 ^ (32 - n)) ltac:(lia)).
  rewrite <- Z.add_assoc, (Z.add_comm (_ * 2 ^ 32)), Z.add_assoc, !Z_mod_plus_full.
  assert (0 <= x mod 2 ^ (32 - n) * 2 ^ n /\ x mod 2 ^ (32 - n) * 2 ^ n + 2 ^ n <= 2 ^ 32) by (rewrite E32; nia).
  rewrite (Z.mod_small (_ + _)), (Z.mod_small (_ * _)) by lia. done.
Qed.

Lemma ror_ROTR n x : 0 < n < 32 -> 0 <= x < 2 ^ 32 -> ror x n = ROTR n x.
Proof.
  intros Hn Hx. transitivity (rol (32 - n) x).
  - unfold ror, rol. rewrite Z.lor_comm. do 3 f_equal. lia.
  - rewrite rol_ROTL by lia. unfold ROTL, ROTR. replace (32 - (32 - n)) with n by lia.
    rewrite Z.add_comm. f_equal. 
    assert (E32 : 2 ^ 32 = 2 ^ n * 2 ^ (32 - n)) by (rewrite <- Z.pow_add_r by lia; f_equal; lia).
    rewrite E32, Z.mul_mod_distr_r by (apply Z.pow_nonzero; lia). done.
Qed.

Lemma lxor_word x y : 0 <= x < 2 ^ 32 -> 0 <= y < 2 ^ 32 -> 0 <= Z.lxor x y < 2 ^ 32.
Proof.
  intros Hx Hy. replace (Z.lxor x y) with (Z.lxor x y mod 2 ^ 32); [by apply Z.mod_pos_bound|].
  apply Z.bits_inj'. intros i Hi. destruct (decide (i < 32)); [by rewrite Z.mod_pow2_bits_low by lia|].
  rewrite Z.mod_pow2_bits_high, Z.lxor_spec by lia.
  by rewrite <- (Z.mod_small x (2 ^ 32)), <- (Z.mod_small y (2 ^ 32)), !Z.mod_pow2_bits_high by lia.
Qed.

Lemma be_words_words l : words (be_words l).
Proof.
  remember (length l) as n eqn:E. assert (Hn : (length l <= n)%nat) by lia. clear E.
  revert l Hn. induction n as [|n IH]; intros l Hn; [destruct l; [constructor|simpl in Hn; lia]|].
  destruct l as [|b0 [|b1 [|b2 [|b3 l]]]]; try constructor; [apply be_word_range|].
  apply IH. simpl in Hn. lia.
Qed.

Lemma length_be_words k : forall l, length l = (4 * k)%nat -> length (be_words l) = k.
Proof.
  induction k as [|k IH]; intros l Hl; [by apply nil_length_inv in Hl as ->|].
  destruct l as [|b0 [|b1 [|b2 [|b3 l]]]]; simpl in Hl; try lia. cbn [be_words length]. rewrite IH; lia.
Qed.

(** The schedule that grows at its end is the shift register's. *)
Section Schedule.
Context (next : list Z -> nat -> Z) (next' : list Z -> Z).
Hypothesis Hnext : forall j W, words W -> length W = (j + 16)%nat -> next W (length W) = next' (drop j W).
Hypothesis Hword : forall W t, 0 <= next W t < 2 ^ 32.

Lemma message_schedule_take k : forall w, (k <= length w)%nat -> message_schedule next' k w = take k w.
Proof using.
  induction k as [|k IH]; intros w Hk; [done|]. destruct w as [|x w]; simpl in Hk; [lia|].
  cbn [message_schedule hd tl take]. rewrite IH by (rewrite length_app; lia). by rewrite take_app_le by lia.
Qed.

Lemma schedule_shift n : forall j W, words W -> length W = (j + 16)%nat ->
  schedule next n W = take j W ++ message_schedule next' (n + 16) (drop j W).
Proof using Hnext Hword.
  induction n as [|n IH]; intros j W Hw Hl; cbn [schedule].
  - rewrite message_schedule_take by (rewrite length_drop; lia).
    rewrite (take_ge (drop j W)) by (rewrite length_drop; lia). by rewrite take_drop.
  - rewrite (IH (S j)); [|apply words_app; split; [done|apply words_cons; split; [apply Hword|apply words_nil]]|rewrite length_app; simpl; lia].
    destruct (lookup_lt_is_Some_2 W j ltac:(lia)) as [x Hx].
    rewrite take_app_le, drop_app_le, (take_S_r _ _ _ Hx), <- app_assoc by lia.
    rewrite (Hnext j) by done. rewrite (drop_S W x j Hx). done.
Qed.

Lemma schedule_be_words n block : length block = 64%nat ->
  schedule next n (be_words block) = message_schedule next' (n + 16) (be_words block).
Proof using Hnext Hword.
  intros Hb. rewrite (schedule_shift n 0); [done|apply be_words_words|by apply length_be_words].
Qed.
End Schedule.

Lemma nth_shift (W : list Z) j k i : i = (j + k)%nat -> nth i W 0 = nth k (drop j W) 0.
Proof. intros ->. symmetry. apply nth_skipn. Qed.

Lemma sha1_next_w j W : words W -> length W = (j + 16)%nat -> sha1_next W (length W) = sha1_w (drop j W).
Proof.
  intros Hw Hl. unfold sha1_next, sha1_w.
  rewrite (nth_shift W j 13 (length W - 3)), (nth_shift W j 8 (length W - 8)),
    (nth_shift W j 2 (length W - 14)), (nth_shift W j 0 (length W - 16)) by lia.
  pose proof (fun k => words_nth (drop j W) k (words_drop j W Hw)).
  rewrite rol_ROTL by first [lia|by repeat apply lxor_word]. f_equal. by rewrite !Z.lxor_assoc.
Qed.

Lemma sha256_next_w j W : words W -> length W = (j + 16)%nat -> sha256_next W (length W) = sha256_w (drop j W).
Proof.
  intros Hw Hl. unfold sha256_next, sha256_w, sigma0, sigma1, Parity, SHR, shr.
  rewrite (nth_shift W j 14 (length W - 2)), (nth_shift W j 9 (length W - 7)),
    (nth_shift W j 1 (length W - 15)), (nth_shift W j 0 (length W - 16)) by lia.
  pose proof (fun k => words_nth (drop j W) k (words_drop j W Hw)).
  rewrite !ror_ROTR, !Z.shiftr_div_pow2 by (lia || done). f_equal. lia.
Qed.

Definition regs5 (s : Z * Z * Z * Z * Z) : list Z := let '(a, b, c, d, e) := s in [a; b; c; d; e].

Lemma sha1_round_ok W s t : words (regs5 s) ->
  sha1_round W s t = fips_sha1_round W s t /\ words (regs5 (sha1_round W s t)).
Proof.
  destruct s as [[[[a b] c] d] e]. cbn [regs5]. unfold words. rewrite !Forall_cons. intros H. split.
  - unfold sha1_round, fips_sha1_round, sha1_f, sha1_k.
    rewrite u32_add_l, Ch_select, Maj_or, !rol_ROTL by (lia || tauto). do 4 f_equal.
    destruct (t <? 20)%nat; [|destruct (t <? 40)%nat; [|destruct (t <? 60)%nat]]; f_equal;
      match goal with |- context [Z.sqrt ?x] => let r := eval vm_compute in (Z.sqrt x) in change (Z.sqrt x) with r end;
      unfold Parity; lia.
  - unfold sha1_round. cbn [regs5]. rewrite !Forall_cons. pose proof u32_range. unfold rol. naive_solver.
Qed.

Lemma sha1_rounds_ok W l : forall s, words (regs5 s) ->
  fold_left (sha1_round W) l s = fold_left (fips_sha1_round W) l s.
Proof.
  induction l as [|t l IH]; intros s H; [done|]. cbn [fold_left].
  destruct (sha1_round_ok W s t H) as [<- Hs]. by apply IH.
Qed.

Definition sha1_comp (s : list Z) (b : list byte) : list Z := state (SHA1_Transform (HashCtx SHA_VTAB 0 b s)).

Lemma SHA1_Transform_comp ctx : SHA1_Transform ctx = set_state ctx (sha1_comp (state ctx) (buf ctx)).
Proof.
  destruct ctx as [fn n b s]. unfold sha1_comp, SHA1_Transform. cbn [state buf].
  destruct s as [|s0 [|s1 [|s2 [|s3 [|s4 rest]]]]]; [done..|].
  by destruct (fold_left _ _ _) as [[[[? ?] ?] ?] ?].
Qed.

Lemma sha1_comp_ok H b rest : length H = 5%nat -> words H -> length b = 64%nat ->
  sha1_comp (H ++ rest) b = fips_sha1_compress H b ++ rest /\
  length (fips_sha1_compress H b) = 5%nat /\ words (fips_sha1_compress H b).
Proof.
  destruct H as [|h0 [|h1 [|h2 [|h3 [|h4 [|]]]]]]; intros E Hw Hb; try discriminate E.
  unfold sha1_comp, SHA1_Transform, fips_sha1_compress. cbn [state buf app].
  rewrite (schedule_be_words _ _ sha1_next_w) by (done || intros; apply u32_range).
  rewrite sha1_rounds_ok by done. destruct (fold_left _ _ _) as [[[[? ?] ?] ?] ?].
  split_and!; [done..|]. unfold words. rewrite !Forall_cons. pose proof u32_range. naive_solver.
Qed.

Lemma sha1_absorb n rest : forall H m, length H = 5%nat -> words H -> (64 * n <= length m)%nat ->
  absorb sha1_comp n (H ++ rest) m = absorb fips_sha1_compress n H m ++ rest /\
  length (absorb fips_sha1_compress n H m) = 5%nat.
Proof.
  induction n as [|n IH]; intros H m E Hw Hm; [done|]. cbn [absorb].
  destruct (sha1_comp_ok H (take 64 m) rest E Hw) as (-> & E' & Hw'); [rewrite length_take; lia|].
  apply IH; [done..|]. rewrite length_drop. lia.
Qed.

Lemma K_cube_roots : K = sha256_k <$> seq 0 64.
Proof. vm_compute. reflexivity. Qed.

Lemma Ch_lnot e f g : 0 <= g < 2 ^ 32 -> Z.lxor (Z.land e f) (Z.land (u32 (Z.lnot e)) g) = Ch e f g.
Proof.
  intros Hg. unfold Ch. f_equal. apply Z.bits_inj'. intros i Hi.
  rewrite Z.land_spec, Z.ldiff_spec. unfold u32. destruct (decide (i < 32)).
  - rewrite Z.mod_pow2_bits_low, Z.lnot_spec by lia. apply andb_comm.
  - rewrite Z.mod_pow2_bits_high by lia. rewrite <- (Z.mod_small g (2 ^ 32)), Z.mod_pow2_bits_high by lia. done.
Qed.

Definition regs8 (s : Z * Z * Z * Z * Z * Z * Z * Z) : list Z :=
  let '(a, b, c, d, e, f, g, h) := s in [a; b; c; d; e; f; g; h].

Lemma sha256_round_ok W s t : words (regs8 s) ->
  sha256_round W s t = fips_sha256_round K W s t /\ words (regs8 (sha256_round W s t)).
Proof.
  destruct s as [[[[[[[a b] c] d] e] f] g] h]. cbn [regs8]. unfold words. rewrite !Forall_cons. intros H.
  unfold sha256_round, fips_sha256_round. rewrite Ch_lnot by tauto. split.
  - fold (Maj a b c). rewrite !ror_ROTR by (lia || tauto). fold (Sigma0 a) (Sigma1 e).
    by rewrite u32_add_l, !u32_add_idem_r.
  - cbn [regs8]. rewrite !Forall_cons. pose proof u32_range. naive_solver.
Qed.

Lemma sha256_rounds_ok W l : forall s, words (regs8 s) ->
  fold_left (sha256_round W) l s = fold_left (fips_sha256_round (sha256_k <$> seq 0 64) W) l s /\
  words (regs8 (fold_left (sha256_round W) l s)).
Proof.
  induction l as [|t l IH]; intros s H; [done|]. cbn [fold_left].
  destruct (sha256_round_ok W s t H) as [E Hs]. rewrite <- K_cube_roots, <- E, K_cube_roots. by apply IH.
Qed.

Definition sha256_comp (s : list Z) (b : list byte) : list Z := state (SHA256_Transform (HashCtx SHA_VTAB 0 b s)).

Lemma SHA256_Transform_comp ctx : SHA256_Transform ctx = set_state ctx (sha256_comp (state ctx) (buf ctx)).
Proof.
  destruct ctx as [fn n b s]. unfold sha256_comp, SHA256_Transform. cbn [state buf].
  destruct s as [|s0 [|s1 [|s2 [|s3 [|s4 [|s5 [|s6 [|s7 [|]]]]]]]]]; [done..| |done].
  by destruct (fold_left _ _ _) as [[[[[[[? ?] ?] ?] ?] ?] ?] ?].
Qed.

Lemma sha256_comp_ok H b : length H = 8%nat -> words H -> length b = 64%nat ->
  sha256_comp H b = fips_sha256_compress H b /\
  length (fips_sha256_compress H b) = 8%nat /\ words (fips_sha256_compress H b).
Proof.
  destruct H as [|h0 [|h1 [|h2 [|h3 [|h4 [|h5 [|h6 [|h7 [|]]]]]]]]]; intros E Hw Hb; try discriminate E.
  unfold sha256_comp, SHA256_Transform, fips_sha256_compress. cbn [state buf].
  rewrite (schedule_be_words _ _ sha256_next_w) by (done || intros; apply u32_range).
  destruct (sha256_rounds_ok (message_schedule sha256_w 64 (be_words b)) (seq 0 64)
    (h0, h1, h2, h3, h4, h5, h6, h7) Hw) as [<- _].
  destruct (fold_left _ _ _) as [[[[[[[? ?] ?] ?] ?] ?] ?] ?].
  split_and!; [done..|]. unfold words. rewrite !Forall_cons. pose proof u32_range. naive_solver.
Qed.

Lemma sha256_absorb n : forall H m, length H = 8%nat -> words H -> (64 * n <= length m)%nat ->
  absorb sha256_comp n H m = absorb fips_sha256_compress n H m /\
  length (absorb fips_sha256_compress n H m) = 8%nat.
Proof.
  induction n as [|n IH]; intros H m E Hw Hm; [done|]. cbn [absorb].
  destruct (sha256_comp_ok H (take 64 m) E Hw) as (-> & E' & Hw'); [rewrite length_take; lia|].
  apply IH; [done..|]. rewrite length_drop. lia.
Qed.

(** ** Digests *)

Lemma whole_blocks_le (m : list byte) : (64 * (length m / 64) <= length m)%nat.
Proof. apply Nat.mul_div_le. lia. Qed.

Lemma length_digest l : length (concat (word_be <$> l)) = (4 * length l)%nat.
Proof. induction l as [|x l IH]; [done|]. rewrite fmap_cons. cbn [concat]. rewrite length_app, IH. simpl. lia. Qed.

Lemma sha256_h_words l : words (sha256_h <$> l).
Proof. apply Forall_fmap, Forall_true. intros i. apply u32_range. Qed.

Lemma SHA_stream_ok ctx pieces : length (buf ctx) = 64%nat ->
  exists ctx', SHA_final (fold_left SHA_update pieces (SHA_init ctx)) = Ok ctx' /\
    take SHA_DIGEST_SIZE (buf ctx') = sha1 (concat pieces).
Proof.
  intros Hb. set (H := [0x67452301; 0xEFCDAB89; 0x98BADCFE; 0x10325476; 0xC3D2E1F0]).
  assert (absorbed sha1_comp (H ++ drop 5 (state ctx)) [] (SHA_init ctx)) as H1 by by split.
  apply (updates_ok _ _ SHA1_Transform_comp _ pieces) in H1. rewrite app_nil_l in H1.
  destruct (hash_final_ok _ _ SHA1_Transform_comp _ 5 _ _ H1) as (ctx' & rest & E & Eb).
  exists ctx'. split; [exact E|]. rewrite Eb.
  destruct (sha1_absorb (length (sha_pad (concat pieces)) / 64) (drop 5 (state ctx)) H
    (sha_pad (concat pieces)) eq_refl) as [-> Hl]; [repeat constructor; lia|apply whole_blocks_le|].
  rewrite (take_app_length' (absorb _ _ H _)) by (symmetry; exact Hl).
  by rewrite take_app_length' by (by rewrite length_digest, Hl).
Qed.

Lemma SHA256_stream_ok ctx pieces : length (buf ctx) = 64%nat ->
  exists ctx', SHA256_final (fold_left SHA256_update pieces (SHA256_init ctx)) = Ok ctx' /\
    take SHA256_DIGEST_SIZE (buf ctx') = sha256 (concat pieces).
Proof.
  intros Hb. set (H := state (SHA256_init ctx)).
  assert (absorbed sha256_comp H [] (SHA256_init ctx)) as H1 by by split.
  apply (updates_ok _ _ SHA256_Transform_comp _ pieces) in H1. rewrite app_nil_l in H1.
  destruct (hash_final_ok _ _ SHA256_Transform_comp _ 8 _ _ H1) as (ctx' & rest & E & Eb).
  exists ctx'. split; [exact E|]. rewrite Eb.
  destruct (sha256_absorb (length (sha_pad (concat pieces)) / 64) H
    (sha_pad (concat pieces)) eq_refl) as [-> Hl]; [repeat constructor; lia|apply whole_blocks_le|].
  rewrite (take_ge (absorb _ _ H _)) by (rewrite Hl; lia). unfold sha256, sha_digest.
  replace (sha256_h <$> seq 0 8) with H by (vm_compute; reflexivity).
  by rewrite take_app_length' by (by rewrite length_digest, Hl).
Qed.

Lemma length_sha1 m : length (sha1 m) = SHA_DIGEST_SIZE.
Proof.
  unfold sha1, sha_digest. rewrite length_digest.
  edestruct (sha1_absorb (length (sha_pad m) / 64) []) as [_ E]; [..|by rewrite E];
    [done|repeat constructor; lia|apply whole_blocks_le].
Qed.

Lemma length_sha256 m : length (sha256 m) = SHA256_DIGEST_SIZE.
Proof.
  unfold sha256, sha_digest. rewrite length_digest.
  edestruct (sha256_absorb (length (sha_pad m) / 64)) as [_ E]; [..|by rewrite E];
    [done|apply sha256_h_words|apply whole_blocks_le].
Qed.

Lemma SHA_hash_ok ctx data : length (buf ctx) = 64%nat -> SHA_hash ctx data = Ok (sha1 data).
Proof.
  intros Hb. destruct (SHA_stream_ok ctx [data] Hb) as (ctx' & E & D). unfold SHA_hash.
  cbn [fold_left] in E. rewrite E. cbn [obind]. rewrite D. simpl. by rewrite app_nil_r.
Qed.

Lemma SHA256_hash_ok ctx data : length (buf ctx) = 64%nat -> SHA256_hash ctx data = Ok (sha256 data).
Proof.
  intros Hb. destruct (SHA256_stream_ok ctx [data] Hb) as (ctx' & E & D). unfold SHA256_hash.
  cbn [fold_left] in E. rewrite E. cbn [obind]. rewrite D. simpl. by rewrite app_nil_r.
Qed.

(** C16: whatever the pieces a message is handed to [SHA_update] in, and whatever
    the context held before [SHA_init], [SHA_final] terminates and leaves the
    SHA-1 digest of the message at the start of the buffer. *)
Theorem SHA_digest ctx pieces : length (buf ctx) = 64%nat ->
  exists ctx', SHA_final (fold_left SHA_update pieces (SHA_init ctx)) = Ok ctx' /\
    take SHA_DIGEST_SIZE (buf ctx') = sha1 (concat pieces).
Proof. apply SHA_stream_ok. Qed.

(** C17: the same of [SHA256_update] and [SHA256_final], with the constants of the
    tables in the code the fractional parts of cube and square roots of primes
    that FIPS 180-4 defines them by. *)
Theorem SHA256_digest ctx pieces : length (buf ctx) = 64%nat ->
  exists ctx', SHA256_final (fold_left SHA256_update pieces (SHA256_init ctx)) = Ok ctx' /\
    take SHA256_DIGEST_SIZE (buf ctx') = sha256 (concat pieces).
Proof. apply SHA256_stream_ok. Qed.

(** A context with leftovers of an earlier use. *)
Definition used_ctx : HASH_CTX := HashCtx SHA_VTAB 9 (replicate 64 Byte.x11) (replicate 8 7).

(** The digest of "abc" that the standard's examples give. *)
Lemma SHA_digest_witness :
  exists ctx', SHA_final (fold_left SHA_update [[Byte.x61]; [Byte.x62; Byte.x63]] (SHA_init used_ctx)) = Ok ctx' /\
    be_val (take SHA_DIGEST_SIZE (buf ctx')) = 0xa9993e364706816aba3e25717850c26c9cd0d89d.
Proof.
  destruct (SHA_digest used_ctx [[Byte.x61]; [Byte.x62; Byte.x63]] eq_refl) as (ctx' & E & D).
  exists ctx'. split; [exact E|]. rewrite D. vm_compute. reflexivity.
Defined.

Lemma SHA256_digest_witness :
  exists ctx', SHA256_final (fold_left SHA256_update [[Byte.x61]; [Byte.x62; Byte.x63]] (SHA256_init used_ctx)) = Ok ctx' /\
    be_val (take SHA256_DIGEST_SIZE (buf ctx')) =
      0xba7816bf8f01cfea414140de5dae2223b00361a396177a9cb410ff61f20015ad.
Proof.
  destruct (SHA256_digest used_ctx [[Byte.x61]; [Byte.x62; Byte.x63]] eq_refl) as (ctx' & E & D).
  exists ctx'. split; [exact E|]. rewrite D. vm_compute. reflexivity.
Defined.
