(* ===== verification/Rsa.v ===== *)
(** * RSA signature verification

    Model of core/libmincrypt/rsa.c: Montgomery multiplication on arrays of
    32-bit digits, public exponentiation, and the check of a PKCS#1 v1.5
    signature against a SHA-1 or SHA-256 hash. *)

From S2P Require Import Prelude Words Sha.

#[local] Open Scope Z_scope.
#[local] Open Scope c_scope.

Definition RSANUMBYTES : Z := 256.
Definition RSANUMWORDS : Z := RSANUMBYTES / 4.

Record RSAPublicKey : Type := RsaPublicKey {
  len : Z;             (* int: number of digits of [n] *)
  n0inv : Z;           (* uint32_t: -1 / n[0] mod 2^32 *)
  n : list Z;          (* uint32_t[RSANUMWORDS] *)
  rr : list Z;         (* uint32_t[RSANUMWORDS] *)
  exponent : Z         (* int: 3 or 65537 *)
}.

Definition key_len (key : RSAPublicKey) : nat := Z.to_nat (len key).

(** ** Arithmetic modulo the key *)

(** The loop of [subM]; [A] is an [int64_t], the difference of two digits is
    taken in [uint64_t]. *)
Fixpoint subM_loop (k : nat) (A : Z) (a m : list Z) : list Z :=
  match k, a, m with
  | S k, x :: a, y :: m =>
      let A := i64 (u64 A + u64 (x - y)) in
      u32 A :: subM_loop k (Z.shiftr A 32) a m
  | _, _, _ => a
  end.

Definition subM (key : RSAPublicKey) (a : list Z) : list Z := subM_loop (key_len key) 0 a (n key).

(** The loop of [geM], from digit [i - 1] down. *)
Fixpoint geM_loop (i : nat) (a m : list Z) : bool :=
  match i with
  | O => true
  | S i =>
      if nth i a 0 <? nth i m 0 then false
      else if nth i m 0 <? nth i a 0 then true
      else geM_loop i a m
  end.

Definition geM (key : RSAPublicKey) (a : list Z) : bool := geM_loop (key_len key) a (n key).

(** The loop of [montMulAdd] over the digits from the second: the digits stored,
    and the last [A] and [B]. *)
Fixpoint mont_loop (k : nat) (a d0 A B : Z) (b m c : list Z) : list Z * Z * Z :=
  match k, b, m, c with
  | S k, bi :: b, ni :: m, ci :: c =>
      let A := u64 (Z.shiftr A 32 + a * bi + ci) in
      let B := u64 (Z.shiftr B 32 + d0 * ni + u32 A) in
      let '(out, A', B') := mont_loop k a d0 A B b m c in
      (u32 B :: out, A', B')
  | _, _, _, _ => ([], A, B)
  end.

Definition montMulAdd (key : RSAPublicKey) (c : list Z) (a : Z) (b : list Z) : list Z :=
  match b, n key, c with
  | b0 :: bs, n0 :: ns, c0 :: cs =>
      let A := u64 (a * b0 + c0) in
      let d0 := u32 (u32 A * n0inv key) in
      let B := u64 (d0 * n0 + u32 A) in
      let '(out, A, B) := mont_loop (key_len key - 1) a d0 A B bs ns cs in
      let A := u64 (Z.shiftr A 32 + Z.shiftr B 32) in
      let c := out ++ u32 A :: drop (length out + 1) c in
      if Z.shiftr A 32 =? 0 then c else subM key c
  | _, _, _ => c
  end.

Definition montMul (key : RSAPublicKey) (c a b : list Z) : list Z :=
  let c := replicate (key_len key) 0 ++ drop (key_len key) c in
  fold_left (fun c ai => montMulAdd key c ai b) (take (key_len key) a) c.

(** ** Exponentiation *)

(** The byte array as digits: digit [i] is at [(key->len - 1 - i) * 4]. *)
Definition load_digits (k : nat) (inout : list byte) : list Z :=
  (fun i => let p := drop ((k - 1 - i) * 4) inout in
     be_word (nth 0 p Byte.x00) (nth 1 p Byte.x00) (nth 2 p Byte.x00) (nth 3 p Byte.x00)) <$> seq 0 k.

(** The digits back as bytes, from the most significant. *)
Definition store_digits (k : nat) (aaa : list Z) (inout : list byte) : list byte :=
  concat ((fun i => word_be (nth i aaa 0)) <$> rev (seq 0 k)) ++ drop (4 * k) inout.

(** The pairs of squarings of the loop for 65537. *)
Fixpoint square_loop (i : nat) (key : RSAPublicKey) (aR aaR : list Z) : list Z * list Z :=
  match i with
  | O => (aR, aaR)
  | S i =>
      let aaR := montMul key aaR aR aR in
      let aR := montMul key aR aaR aaR in
      square_loop i key aR aaR
  end.

(** The power in Montgomery form; [junk] is the uninitialised content of the
    arrays on the stack. For an exponent that is neither 3 nor 65537, [aaa]
    stays a null pointer, which [modpow] then reads through. *)
Definition mont_pow (key : RSAPublicKey) (junk a : list Z) : outcome (list Z) :=
  if exponent key =? 65537 then
    let aR := montMul key junk a (rr key) in
    let '(aR, aaR) := square_loop 8 key aR junk in
    Ok (montMul key aaR aR a)
  else if exponent key =? 3 then
    let aR := montMul key junk a (rr key) in
    let aaR := montMul key junk aR aR in
    Ok (montMul key aR aaR a)
  else UB.

Definition modpow (key : RSAPublicKey) (junk : list Z) (inout : list byte) : outcome (list byte) :=
  do! aaa := mont_pow key junk (load_digits (key_len key) inout) in
  let aaa := if geM key aaa then subM key aaa else aaa in
  Ok (store_digits (key_len key) aaa inout).

(** ** Verification *)

Definition kExpectedPadShaRsa2048 : list byte := byte.of_Z <$> [
  0xdc; 0xbd; 0xbe; 0x42; 0xd5; 0xf5; 0xa7; 0x2e;
  0x6e; 0xfc; 0xf5; 0x5d; 0xaf; 0x9d; 0xea; 0x68;
  0x7c; 0xfb; 0xf1; 0x67 ].

Definition kExpectedPadSha256Rsa2048 : list byte := byte.of_Z <$> [
  0xab; 0x28; 0x8d; 0x8a; 0xd7; 0xd9; 0x59; 0x92;
  0xba; 0xcc; 0xf8; 0x67; 0x20; 0xe1; 0x15; 0x2e;
  0x39; 0x8d; 0x80; 0x36; 0xd6; 0x6f; 0xf0; 0xfd;
  0x90; 0xe8; 0x7d; 0x8b; 0xe1; 0x7c; 0x87; 0x59 ].

(** The loop that compares [buf] with the expected hash. *)
Definition same_prefix (k : nat) (buf expected : list byte) : bool :=
  forallb (fun i => byte.unsigned (nth i buf Byte.x00) =? byte.unsigned (nth i expected Byte.x00)) (seq 0 k).

(** [buf[i] ^= *hash++] from [from] on. *)
Definition xor_tail (from : nat) (buf hash : list byte) : list byte :=
  take from buf ++ zip_with byte.xor (drop from buf) hash.

(** The [switch] over [hash_len]: the hash of [buf], and the one expected. *)
Definition hash_buf (ctx : HASH_CTX) (hash_len : Z) (buf : list byte) : outcome (list byte * list byte) :=
  if hash_len =? Z.of_nat SHA_DIGEST_SIZE then
    do! d := SHA_hash ctx buf in Ok (d, kExpectedPadShaRsa2048)
  else
    do! d := SHA256_hash ctx buf in Ok (d, kExpectedPadSha256Rsa2048).

Definition RSA_verify (key : RSAPublicKey) (junk : list Z) (ctx : HASH_CTX)
    (signature : list byte) (len_ : Z) (hash : list byte) (hash_len : Z) : outcome Z :=
  if negb (len key =? RSANUMWORDS) then Ok 0
  else if negb (len_ =? RSANUMBYTES) then Ok 0
  else if negb (hash_len =? Z.of_nat SHA_DIGEST_SIZE) && negb (hash_len =? Z.of_nat SHA256_DIGEST_SIZE) then Ok 0
  else if negb (exponent key =? 3) && negb (exponent key =? 65537) then Ok 0
  else
    let buf := take (Z.to_nat len_) signature in
    do! buf := modpow key junk buf in
    let buf := xor_tail (Z.to_nat (len_ - hash_len)) buf (take (Z.to_nat hash_len) hash) in
    do! (digest, padding_hash) := hash_buf ctx hash_len buf in
    let buf := digest ++ drop (length digest) buf in
    Ok (if same_prefix (Z.to_nat hash_len) buf padding_hash then 1 else 0).
