(* ===== verification/RsaProps.v ===== *)
(** * RSA verification accepts the signatures of the key

    Montgomery multiplication computes products modulo the key, exponentiation
    the power of the signature, and the verification accepts exactly the
    signatures whose power is the padded hash, up to collisions of the hash. *)

From Stdlib Require Import Znumtheory Zpow_facts.
From S2P Require Import Prelude Words Sha ShaProps Rsa.

#[local] Open Scope Z_scope.
#[local] Open Scope c_scope.

(** ** Digits *)

Lemma i64_u64_add x y : i64 (u64 x + u64 y) = i64 (x + y).
Proof.
  unfold i64, u64. rewrite (Z.mod_eq x), (Z.mod_eq y) by lia.
  replace (_ + _ + 2 ^ 63) with (x + y + 2 ^ 63 + (- (x / 2 ^ 64) - y / 2 ^ 64) * 2 ^ 64) by ring.
  by rewrite Z_mod_plus_full.
Qed.

Lemma subM_loop_ok k : forall A a m,
  length a = k -> length m = k -> words a -> words m -> -1 <= A <= 0 ->
  let r := subM_loop k A a m in
  words r /\ length r = k /\ exists B, -1 <= B <= 0 /\ val r + radix k * B = val a - val m + A.
Proof.
  induction k as [|k IH]; intros A [|x a] [|y m] Ha Hm Wa Wm HA r; try done.
  - split_and!; try done. exists A. subst r. rewrite radix_0. simpl. lia.
  - apply words_cons in Wa as [Hx Wa], Wm as [Hy Wm]. subst r. cbn [subM_loop]. cbv zeta.
    assert (i64 (u64 A + u64 (x - y)) = A + (x - y)) as ->.
    { rewrite i64_u64_add, i64_small; lia. }
    assert (-1 <= Z.shiftr (A + (x - y)) 32 <= 0) as HB.
    { rewrite Z.shiftr_div_pow2 by lia. Z.div_mod_to_equations; lia. }
    destruct (IH _ a m ltac:(by injection Ha) ltac:(by injection Hm) Wa Wm HB) as (W & L & B & HB' & E).
    split_and!; [apply words_cons; split; [apply u32_range|done]|simpl; lia|].
    exists B. split; [done|]. rewrite radix_S. cbn [val].
    pose proof (digit_carry (A + (x - y))). lia.
Qed.

Lemma geM_loop_ok i a m : words a -> words m -> (i <= length a)%nat -> (i <= length m)%nat ->
  geM_loop i a m = (val (take i m) <=? val (take i a)).
Proof.
  intros Wa Wm. induction i as [|i IH]; intros Ha Hm; [done|]. cbn [geM_loop].
  rewrite !val_take_S by lia. specialize (IH ltac:(lia) ltac:(lia)).
  pose proof (val_take_range i a Wa ltac:(lia)). pose proof (val_take_range i m Wm ltac:(lia)).
  destruct (Z.ltb_spec (nth i a 0) (nth i m 0)); [symmetry; apply Z.leb_gt; nia|].
  destruct (Z.ltb_spec (nth i m 0) (nth i a 0)); [symmetry; apply Z.leb_le; nia|].
  rewrite IH. assert (nth i a 0 = nth i m 0) as -> by lia.
  destruct (Z.leb_spec (val (take i m)) (val (take i a))); symmetry; [apply Z.leb_le|apply Z.leb_gt]; lia.
Qed.

(** The loop of [montMulAdd] adds two products to [c], shifted by what [A] and
    [B] carry; nothing overflows 64 bits. *)
Lemma mont_loop_ok k a d0 : 0 <= a < 2 ^ 32 -> 0 <= d0 < 2 ^ 32 -> forall A B b m c,
  length b = k -> length m = k -> length c = k -> words b -> words m -> words c ->
  0 <= A < 2 ^ 64 -> 0 <= B < 2 ^ 64 ->
  exists out A' B', mont_loop k a d0 A B b m c = (out, A', B') /\ words out /\ length out = k /\
    0 <= A' < 2 ^ 64 /\ 0 <= B' < 2 ^ 64 /\
    val out + radix k * (Z.shiftr A' 32 + Z.shiftr B' 32) =
      Z.shiftr A 32 + Z.shiftr B 32 + a * val b + d0 * val m + val c.
Proof.
  intros Ha Hd. induction k as [|k IH];
    intros A B [|bi b] [|ni m] [|ci c] Lb Lm Lc Wb Wm Wc HA HB; try done.
  - exists [], A, B. rewrite radix_0. simpl. split_and!; try done; lia.
  - apply words_cons in Wb as [Hb Wb], Wm as [Hn Wm], Wc as [Hc Wc].
    cbn [mont_loop]. cbv zeta.
    pose proof (shiftr32_range A (2 ^ 32) ltac:(lia)). pose proof (shiftr32_range B (2 ^ 32) ltac:(lia)).
    set (A1 := Z.shiftr A 32 + a * bi + ci). assert (0 <= A1 < 2 ^ 64) as HA1 by (subst A1; nia).
    rewrite (u64_small A1) by done. pose proof (u32_range A1) as HA1'.
    set (B1 := Z.shiftr B 32 + d0 * ni + u32 A1). assert (0 <= B1 < 2 ^ 64) as HB1 by (subst B1; nia).
    rewrite (u64_small B1) by done.
    destruct (IH A1 B1 b m c) as (out & A' & B' & -> & W & L & HA' & HB' & E); simpl in *; try done; try lia.
    exists (u32 B1 :: out), A', B'.
    split_and!; [done|apply words_cons; split; [apply u32_range|done]|simpl; lia|lia..|].
    rewrite radix_S. cbn [val]. pose proof (digit_carry A1). pose proof (digit_carry B1). nia.
Qed.

(** ** Bytes and digits *)

Lemma load_digits_cons k b0 b1 b2 b3 l :
  load_digits (S k) (b0 :: b1 :: b2 :: b3 :: l) = load_digits k l ++ [be_word b0 b1 b2 b3].
Proof.
  unfold load_digits. rewrite seq_S, fmap_app. f_equal.
  - apply list_fmap_ext. intros i j Hj. apply lookup_seq in Hj as [-> Hi].
    replace ((S k - 1 - (0 + i)) * 4)%nat with (4 + (k - 1 - (0 + i)) * 4)%nat by lia. done.
  - simpl. by replace ((k - 0 - k) * 4)%nat with 0%nat by lia.
Qed.

Lemma load_digits_ok k l : length l = (4 * k)%nat ->
  words (load_digits k l) /\ length (load_digits k l) = k /\ val (load_digits k l) = be_val l.
Proof.
  revert l. induction k as [|k IH]; intros l Hl.
  - apply nil_length_inv in Hl as ->. split_and!; [constructor|done..].
  - destruct l as [|b0 [|b1 [|b2 [|b3 l]]]]; simpl in Hl; try lia.
    destruct (IH l ltac:(lia)) as (W & L & E). rewrite load_digits_cons. split_and!.
    + apply words_app. split; [done|]. apply words_cons. split; [apply be_word_range|constructor].
    + rewrite length_app, L. simpl. lia.
    + rewrite val_app, L, E. change (b0 :: b1 :: b2 :: b3 :: l) with ([b0; b1; b2; b3] ++ l).
      rewrite be_val_app, be_word_val. cbn [val]. unfold radix.
      replace (8 * Z.of_nat (length l)) with (32 * Z.of_nat k) by lia. ring.
Qed.

Lemma fmap_rev {A B} (g : A -> B) l : (g <$> rev l) = rev (g <$> l).
Proof. induction l as [|x l IH]; [done|]. simpl. by rewrite fmap_app, IH. Qed.

Lemma fmap_nth_seq (l : list Z) : ((fun i => nth i l 0) <$> seq 0 (length l)) = l.
Proof.
  apply list_eq. intros i. rewrite list_lookup_fmap. destruct (decide (i < length l)%nat) as [Hi|Hi].
  - rewrite lookup_seq_lt by done. simpl. destruct (nth_lookup_or_length l i 0); [done|lia].
  - rewrite lookup_seq_ge, lookup_ge_None_2 by lia. done.
Qed.

Lemma be_val_digits l : words l -> be_val (concat (word_be <$> rev l)) = val l.
Proof.
  induction l as [|x l IH]; intros W; [done|]. apply words_cons in W as [Hx W]. simpl rev.
  rewrite fmap_app, concat_app, be_val_app, IH by done. cbn [fmap list_fmap concat app].
  rewrite app_nil_r, be_val_word_be by done. cbn [val]. change (2 ^ (8 * Z.of_nat (length (word_be x)))) with (2 ^ 32). lia.
Qed.

Lemma store_digits_ok k a inout : words a -> length a = k -> length inout = (4 * k)%nat ->
  length (store_digits k a inout) = (4 * k)%nat /\ be_val (store_digits k a inout) = val a.
Proof.
  intros W L Hl. unfold store_digits. rewrite drop_ge, app_nil_r by lia.
  change (fun i => word_be (nth i a 0)) with (word_be ∘ (fun i => nth i a 0)).
  rewrite list_fmap_compose, fmap_rev. subst k. rewrite fmap_nth_seq. split; [|by apply be_val_digits].
  rewrite length_digest, length_rev. done.
Qed.

(** ** Arithmetic modulo the key *)

(** A key as its fields describe it: [n] has [len] digits, is odd through
    [n0inv], and [rr] is the square of the radix. *)
Record key_ok (key : RSAPublicKey) : Prop := {
  ko_len : length (n key) = key_len key;
  ko_rr_len : length (rr key) = key_len key;
  ko_words : words (n key);
  ko_rr_words : words (rr key);
  ko_n0inv : (n0inv key * val (n key) + 1) mod 2 ^ 32 = 0;
  ko_rr : val (rr key) mod val (n key) = radix (key_len key) ^ 2 mod val (n key);
  ko_one : 1 < val (n key)
}.

Section Key.

Variable key : RSAPublicKey.
Hypothesis Hkey : key_ok key.

Notation k := (key_len key).
Notation N := (val (n key)).
Notation R := (radix k).
Notation "x == y" := (cong N x y) (at level 70).

(** An array of the key's size. *)
Definition fits (a : list Z) : Prop := words a /\ length a = k.

Lemma fits_range a : fits a -> 0 <= val a < R.
Proof. intros [W L]. rewrite <- L. by apply val_range. Qed.

Lemma N_range : 1 < N < R.
Proof. split; [apply Hkey|]. apply fits_range. split; apply Hkey. Qed.

Lemma subM_ok a : fits a -> fits (subM key a) /\ val (subM key a) = (val a - N) mod R.
Proof.
  intros Ha. pose proof (fits_range a Ha) as Ra. pose proof N_range. destruct Ha as [W L].
  destruct (subM_loop_ok k 0 a (n key) L (ko_len _ Hkey) W (ko_words _ Hkey) ltac:(lia))
    as (W' & L' & B & HB & E). fold (subM key a) in *.
  split; [by split|]. pose proof (fits_range _ (conj W' L')).
  apply Z.mod_unique with (q := B); lia.
Qed.

Lemma geM_ok a : fits a -> geM key a = (N <=? val a).
Proof.
  intros [W L]. unfold geM. rewrite geM_loop_ok; [|done|apply Hkey|by rewrite L|by rewrite (ko_len _ Hkey)].
  by rewrite <- L at 2; rewrite <- (ko_len _ Hkey) at 1; rewrite !take_ge.
Qed.

(** The digit [d0] makes the lowest digit of the sum vanish. *)
Lemma d0_cancels A n0 ns : n key = n0 :: ns -> u32 (u32 (u32 A * n0inv key) * n0 + u32 A) = 0.
Proof.
  intros En. pose proof (ko_n0inv _ Hkey) as H. rewrite En in H. cbn [val] in H. unfold u32.
  rewrite <- Zplus_mod_idemp_l, Zmult_mod_idemp_l, Zplus_mod_idemp_l.
  replace (A mod 2 ^ 32 * n0inv key * n0 + A mod 2 ^ 32) with
    (A mod 2 ^ 32 * (n0inv key * (n0 + 2 ^ 32 * val ns) + 1) + (- (A mod 2 ^ 32 * n0inv key * val ns)) * 2 ^ 32) by ring.
  rewrite Z_mod_plus_full, <- Zmult_mod_idemp_r, H, Z.mul_0_r. done.
Qed.

(** What [montMulAdd] computes before the last subtraction: a number of [k]
    digits and a carry. *)
Lemma montMulAdd_sum c a b : fits c -> fits b -> 0 <= a < 2 ^ 32 ->
  exists c1 carry d0, fits c1 /\ 0 <= carry <= 1 /\ 0 <= d0 < 2 ^ 32 /\
    montMulAdd key c a b = (if carry =? 0 then c1 else subM key c1) /\
    2 ^ 32 * (val c1 + R * carry) = a * val b + val c + d0 * N.
Proof.
  intros [Wc Lc] [Wb Lb] Ha. pose proof N_range as RN. unfold montMulAdd.
  pose proof (ko_len _ Hkey) as Ln. pose proof (ko_words _ Hkey) as Wn.
  destruct (n key) as [|n0 ns] eqn:En; [simpl in RN; lia|]. simpl in Ln.
  destruct b as [|b0 bs], c as [|c0 cs]; simpl in Lb, Lc; try lia.
  apply words_cons in Wb as [Hb Wb], Wn as [Hn Wn], Wc as [Hc Wc].
  rewrite (u64_small (a * b0 + c0)) by nia. set (A := a * b0 + c0).
  set (d0 := u32 (u32 A * n0inv key)). pose proof (u32_range (u32 A * n0inv key)) as Hd. fold d0 in Hd.
  pose proof (u32_range A). rewrite (u64_small (d0 * n0 + u32 A)) by nia.
  pose proof (d0_cancels A n0 ns En) as H0. fold d0 in H0. set (B := d0 * n0 + u32 A) in *.
  assert (0 <= A < 2 ^ 64) as HA0 by (clear - Ha Hb Hc; subst A; nia).
  assert (0 <= B < 2 ^ 64) as HB0 by (clear - Hd Hn H; subst B; nia).
  destruct (mont_loop_ok (k - 1) a d0 Ha Hd A B bs ns cs)
    as (out & A' & B' & -> & W & L & HA & HB & E); [lia..|done|done|done|done|done|].
  pose proof (shiftr32_range A' (2 ^ 32) ltac:(lia)). pose proof (shiftr32_range B' (2 ^ 32) ltac:(lia)).
  rewrite u64_small by lia. set (s := Z.shiftr A' 32 + Z.shiftr B' 32) in *.
  pose proof (shiftr32_range s 2 ltac:(lia)).
  exists (out ++ [u32 s]), (Z.shiftr s 32), d0. split_and!; try lia.
  - split; [|rewrite length_app; simpl; lia].
    apply words_app. split; [done|]. apply words_cons. split; [apply u32_range|constructor].
  - rewrite drop_ge by (simpl; lia). done.
  - transitivity (2 ^ 32 * (val out + radix (k - 1) * s)).
    + rewrite val_app, L. cbn [val]. rewrite (digit_carry s) at 3.
      replace k with (S (k - 1)) at 2 by lia. rewrite radix_S. ring.
    + rewrite E. pose proof (digit_carry A) as HA1. pose proof (digit_carry B) as HB1. rewrite H0 in HB1.
      subst A B. cbn [val]. clear - HA1 HB1. lia.
Qed.

(** One step: [c] times the base is the sum of the old [c] and [a * b], modulo
    [N], and [c] stays below [b + N]. *)
Lemma montMulAdd_ok c a b : fits c -> fits b -> 0 <= a < 2 ^ 32 -> val c < val b + N ->
  let r := montMulAdd key c a b in
  fits r /\ val r < val b + N /\ 2 ^ 32 * val r == val c + a * val b.
Proof.
  intros Fc Fb Ha Hcb r. pose proof (fits_range _ Fc). pose proof (fits_range _ Fb). pose proof N_range as RN.
  destruct (montMulAdd_sum c a b Fc Fb Ha) as (c1 & carry & d0 & F1 & Hcarry & Hd & E & Ev). subst r. rewrite E.
  set (v := val c1 + R * carry) in *. pose proof (fits_range _ F1).
  assert (a * val b <= (2 ^ 32 - 1) * val b) by nia.
  assert (d0 * N <= (2 ^ 32 - 1) * N) by nia.
  assert (v < val b + N /\ v < R + N) as [Hv1 Hv2] by lia.
  assert (forall q, 2 ^ 32 * (v + q * N) == val c + a * val b) as Hq.
  { intros q. replace (2 ^ 32 * (v + q * N)) with
      (val c + a * val b + (d0 + 2 ^ 32 * q) * N) by (rewrite Z.mul_add_distr_l, Ev; ring).
    apply cong_mult. }
  destruct (Z.eqb_spec carry 0) as [->|].
  - split_and!; [done|lia|]. replace (val c1) with (v + 0 * N) by (subst v; lia). apply Hq.
  - assert (carry = 1) as -> by lia. destruct (subM_ok _ F1) as [F2 E2].
    assert (val (subM key c1) = v - N) as ->.
    { rewrite E2. symmetry. apply Z.mod_unique with (q := -1); subst v; lia. }
    split_and!; [done|lia|]. replace (v - N) with (v + -1 * N) by lia. apply Hq.
Qed.

Lemma montMul_fold b a : fits b -> words a -> forall c, fits c -> val c < val b + N ->
  let r := fold_left (fun c ai => montMulAdd key c ai b) a c in
  fits r /\ val r < val b + N /\ radix (length a) * val r == val c + val a * val b.
Proof.
  intros Fb. induction a as [|x a IH]; intros Wa c Fc Hc.
  - simpl. split_and!; try done. rewrite radix_0. by replace (1 * val c) with (val c + 0 * val b) by ring.
  - apply words_cons in Wa as [Hx Wa]. destruct (montMulAdd_ok c x b Fc Fb Hx Hc) as (F1 & H1 & E1).
    destruct (IH Wa _ F1 H1) as (F2 & H2 & E2). cbn [fold_left length val] in *. split_and!; try done.
    rewrite radix_S, <- Z.mul_assoc, E2.
    replace (2 ^ 32 * (val (montMulAdd key c x b) + val a * val b)) with
      (2 ^ 32 * val (montMulAdd key c x b) + 2 ^ 32 * val a * val b) by ring.
    rewrite E1. replace (val c + x * val b + 2 ^ 32 * val a * val b) with (val c + (x + 2 ^ 32 * val a) * val b) by ring.
    done.
Qed.

(** The product of Montgomery: times the radix it is the product modulo [N]. *)
Lemma montMul_ok c a b : length c = k -> fits a -> fits b ->
  let r := montMul key c a b in
  fits r /\ val r < val b + N /\ R * val r == val a * val b.
Proof.
  intros Lc [Wa La] Fb r. subst r. unfold montMul. rewrite drop_ge, app_nil_r, take_ge by lia.
  pose proof (fits_range _ Fb). pose proof N_range.
  destruct (montMul_fold b a Fb Wa (replicate k 0)) as (F & Hr & E).
  - split; [apply words_zeros|apply length_replicate].
  - rewrite val_zeros. lia.
  - rewrite La, val_zeros in E. done.
Qed.

(** The radix is invertible: [n0inv] makes [N] odd. *)
Lemma gcd_R : Z.gcd N R = 1.
Proof.
  assert (Z.gcd N 2 = 1) as H2.
  { apply Z.bezout_1_gcd. pose proof (ko_n0inv _ Hkey) as H.
    exists (- n0inv key), ((n0inv key * N + 1) / 2 ^ 32 * 2 ^ 31).
    pose proof (Z.div_mod (n0inv key * N + 1) (2 ^ 32)). lia. }
  unfold radix. apply Zgcd_1_rel_prime, rel_prime_Zpower_r; [lia|]. by apply Zgcd_1_rel_prime.
Qed.
Lemma cancel_R x y : R * x == R * y -> x == y.
Proof. apply cong_cancel, gcd_R. Qed.

(** Operands in Montgomery form, [x * R], have their product in that form. *)
Lemma montMul_form c a b x y : length c = k -> fits a -> fits b ->
  val a == x * R -> val b == y * R ->
  fits (montMul key c a b) /\ val (montMul key c a b) == x * y * R.
Proof.
  intros Lc Fa Fb Ea Eb. destruct (montMul_ok c a b Lc Fa Fb) as (F & _ & E). split; [done|].
  apply cancel_R. rewrite E, Ea, Eb. by replace (x * R * (y * R)) with (R * (x * y * R)) by ring.
Qed.

Lemma montMul_rr c a : length c = k -> fits a ->
  fits (montMul key c a (rr key)) /\ val (montMul key c a (rr key)) == val a * R.
Proof.
  intros Lc Fa. assert (fits (rr key)) as Fr by (split; apply Hkey).
  destruct (montMul_ok c a (rr key) Lc Fa Fr) as (F & _ & E). split; [done|].
  assert (val (rr key) == R * R) as Er.
  { apply cong_mod; [pose proof N_range; lia|]. rewrite (ko_rr _ Hkey). by rewrite Z.pow_2_r. }
  apply cancel_R. rewrite E, Er. by replace (val a * (R * R)) with (R * (val a * R)) by ring.
Qed.

(** Out of Montgomery form again: one operand is not in it. *)
Lemma montMul_out c a b x : length c = k -> fits a -> fits b -> val a == x * R ->
  fits (montMul key c a b) /\ val (montMul key c a b) == x * val b.
Proof.
  intros Lc Fa Fb Ea. destruct (montMul_ok c a b Lc Fa Fb) as (F & _ & E). split; [done|].
  apply cancel_R. rewrite E, Ea. by replace (x * R * val b) with (R * (x * val b)) by ring.
Qed.

Lemma square_loop_ok i : forall aR aaR x, fits aR -> length aaR = k -> val aR == x * R ->
  exists aR' aaR', square_loop i key aR aaR = (aR', aaR') /\ fits aR' /\ length aaR' = k /\
    val aR' == x ^ (4 ^ Z.of_nat i) * R.
Proof.
  induction i as [|i IH]; intros aR aaR x F L E.
  - exists aR, aaR. split_and!; try done. by rewrite Z.pow_1_r.
  - cbn [square_loop]. destruct (montMul_form aaR aR aR x x L F F E E) as [F1 E1].
    destruct (montMul_form aR _ _ (x * x) (x * x) (proj2 F) F1 F1 E1 E1) as [F2 E2].
    destruct (IH _ _ _ F2 (proj2 F1) E2) as (aR' & aaR' & H & F' & L' & E'). exists aR', aaR'.
    split_and!; try done. rewrite E'. replace (x * x * (x * x)) with (x ^ 4) by ring.
    rewrite <- Z.pow_mul_r by (try apply Z.pow_nonneg; lia).
    replace (Z.of_nat (S i)) with (1 + Z.of_nat i) by lia. by rewrite Z.pow_add_r, Z.pow_1_r by lia.
Qed.

(** The last step of [modpow]: one subtraction reduces. *)
Lemma reduce_ok a : fits a -> R <= 2 * N ->
  let r := if geM key a then subM key a else a in fits r /\ val r = val a mod N.
Proof.
  intros F H2 r. subst r. pose proof (fits_range a F). pose proof N_range. rewrite geM_ok by done.
  destruct (Z.leb_spec N (val a)).
  - destruct (subM_ok a F) as [F' E]. split; [done|]. rewrite E, Z.mod_small by lia.
    apply Z.mod_unique with (q := 1); lia.
  - split; [done|]. by rewrite Z.mod_small by lia.
Qed.

Lemma mont_pow_ok junk a : length junk = k -> fits a -> exponent key = 3 \/ exponent key = 65537 ->
  exists aaa, mont_pow key junk a = Ok aaa /\ fits aaa /\ val aaa == val a ^ exponent key.
Proof.
  intros Lj Fa He. destruct (montMul_rr junk a Lj Fa) as [F1 E1]. unfold mont_pow.
  destruct He as [-> | ->]; cbn [Z.eqb Pos.eqb]; cbv zeta.
  - destruct (montMul_form junk _ _ _ _ Lj F1 F1 E1 E1) as [F2 E2].
    destruct (montMul_out _ _ a _ (proj2 F1) F2 Fa E2) as [F3 E3].
    eexists. split_and!; [done|done|]. rewrite E3. by replace (val a ^ 3) with (val a * val a * val a) by ring.
  - destruct (square_loop_ok 8 _ junk _ F1 Lj E1) as (aR & aaR & -> & F2 & L2 & E2).
    destruct (montMul_out aaR aR a _ L2 F2 Fa E2) as [F3 E3].
    eexists. split_and!; [done|done|]. rewrite E3. change (4 ^ Z.of_nat 8) with 65536.
    replace 65537 with (65536 + 1) by lia. by rewrite Z.pow_add_r, Z.pow_1_r by lia.
Qed.

Lemma modpow_ok junk inout : length junk = k -> length inout = (4 * k)%nat -> R <= 2 * N ->
  exponent key = 3 \/ exponent key = 65537 ->
  exists out, modpow key junk inout = Ok out /\ length out = length inout /\
    be_val out = be_val inout ^ exponent key mod N.
Proof.
  intros Lj Li H2 He. destruct (load_digits_ok k inout Li) as (W & L & Ea).
  destruct (mont_pow_ok junk _ Lj (conj W L) He) as (aaa & E & F & Ev).
  unfold modpow. rewrite E. cbn [obind]. destruct (reduce_ok aaa F H2) as [Fr Er].
  destruct (store_digits_ok k _ inout (proj1 Fr) (proj2 Fr) Li) as [Ls Es].
  eexists. split; [done|]. split; [by rewrite Ls, Li|]. rewrite Es, Er, <- Ea.
  apply cong_mod; [pose proof N_range; lia|done].
Qed.

End Key.

(** ** Verification *)

Lemma byte_xor_self x : byte.xor x x = Byte.x00.
Proof. unfold byte.xor. by rewrite Z.lxor_nilpotent. Qed.

Lemma byte_xor_zero x y : byte.xor x y = Byte.x00 -> x = y.
Proof.
  unfold byte.xor. intros E. apply (f_equal byte.unsigned) in E. rewrite byte.unsigned_of_Z in E.
  unfold byte.wrap in E. pose proof (byte.unsigned_range x). pose proof (byte.unsigned_range y).
  apply byte.unsigned_inj, Z.bits_inj'. intros i Hi. destruct (decide (i < 8)).
  - apply (f_equal (fun z => Z.testbit z i)) in E. rewrite Z.mod_pow2_bits_low, Z.lxor_spec, Z.bits_0 in E by lia.
    by apply xorb_eq.
  - by rewrite <- (Z.mod_small (byte.unsigned x) (2 ^ 8)), <- (Z.mod_small (byte.unsigned y) (2 ^ 8)),
      !Z.mod_pow2_bits_high by lia.
Qed.

Lemma zip_xor_zero d hash : length d = length hash ->
  zip_with byte.xor d hash = replicate (length hash) Byte.x00 <-> d = hash.
Proof.
  revert hash. induction d as [|x d IH]; intros [|y hash] Hl; simpl in *; try done.
  split.
  - intros [= Hx Hd]. f_equal; [by apply byte_xor_zero|]. apply IH; [lia|done].
  - intros [= -> ->]. f_equal; [apply byte_xor_self|]. by apply IH.
Qed.

(** A hash with the DER prefix of its name in PKCS#1. *)
Record hash_alg : Type := HashAlg {
  alg_hash : list byte -> list byte;
  alg_info : list byte;
  alg_size : nat
}.

Definition sha1_alg : hash_alg := HashAlg sha1 (byte.of_Z <$>
  [0x30; 0x21; 0x30; 0x09; 0x06; 0x05; 0x2b; 0x0e; 0x03; 0x02; 0x1a; 0x05; 0x00; 0x04; 0x14]) 20.
Definition sha256_alg : hash_alg := HashAlg sha256 (byte.of_Z <$>
  [0x30; 0x31; 0x30; 0x0d; 0x06; 0x09; 0x60; 0x86; 0x48; 0x01; 0x65; 0x03; 0x04; 0x02; 0x01; 0x05; 0x00; 0x04; 0x20]) 32.

(** EMSA-PKCS1-v1_5 for a key of 256 bytes. *)
Definition pkcs1_head (alg : hash_alg) : list byte :=
  [Byte.x00; Byte.x01] ++ replicate (253 - length (alg_info alg) - alg_size alg) Byte.xff ++ [Byte.x00] ++ alg_info alg.
Definition pkcs1 (alg : hash_alg) (hash : list byte) : list byte := pkcs1_head alg ++ hash.

(** The padding with a zero hash, whose hash the code compares with. *)
Definition zero_pad (alg : hash_alg) : list byte := pkcs1 alg (replicate (alg_size alg) Byte.x00).

(** The constants of the code are the hashes of the padding. *)
Lemma expected_sha1 : sha1 (zero_pad sha1_alg) = kExpectedPadShaRsa2048.
Proof. vm_compute. reflexivity. Qed.

Lemma expected_sha256 : sha256 (zero_pad sha256_alg) = kExpectedPadSha256Rsa2048.
Proof. vm_compute. reflexivity. Qed.

Lemma same_prefix_ok k a b : length b = k -> (k <= length a)%nat -> same_prefix k a b = true <-> take k a = b.
Proof.
  intros Lb La. unfold same_prefix. rewrite forallb_forall. split.
  - intros H. apply list_eq_same_length with k; [done|rewrite length_take; lia|]. intros i x y Hi Hx Hy.
    apply lookup_take_Some in Hx as [Hx _].
    specialize (H i ltac:(apply in_seq; lia)). apply Z.eqb_eq, byte.unsigned_inj in H.
    by rewrite (nth_lookup_Some _ _ _ _ Hx), (nth_lookup_Some _ _ _ _ Hy) in H.
  - intros <- i Hi%in_seq. apply Z.eqb_eq. f_equal. rewrite !nth_lookup, lookup_take_lt by lia. done.
Qed.

Lemma length_pkcs1 alg hash : (alg = sha1_alg \/ alg = sha256_alg) -> length hash = alg_size alg ->
  length (pkcs1 alg hash) = 256%nat /\ length (pkcs1_head alg) = (256 - alg_size alg)%nat.
Proof. intros [-> | ->] H; unfold pkcs1; rewrite length_app, H; done. Qed.

(** The xor turns exactly the padded hash into the padding of the zero hash. *)
Lemma xor_tail_pad alg m hash : (alg = sha1_alg \/ alg = sha256_alg) -> length hash = alg_size alg ->
  length m = 256%nat ->
  length (xor_tail (256 - alg_size alg) m hash) = 256%nat /\
  (xor_tail (256 - alg_size alg) m hash = zero_pad alg <-> m = pkcs1 alg hash).
Proof.
  intros Ha Hh Hm. destruct (length_pkcs1 alg hash Ha Hh) as [_ Hp].
  assert (alg_size alg <= 256)%nat as Hs by by destruct Ha as [-> | ->]; simpl; lia.
  set (i := (256 - alg_size alg)%nat) in *. unfold xor_tail.
  assert (length (take i m) = i) as Ht by (rewrite length_take; lia).
  assert (length (drop i m) = length hash) as Hd by (rewrite length_drop; lia).
  split; [rewrite length_app, length_zip_with, Ht, Hd; lia|].
  unfold zero_pad, pkcs1. rewrite <- Hh. split.
  - intros E. apply app_inj_1 in E as [E1 E2]; [|by rewrite Ht, Hp].
    rewrite <- (take_drop i m), E1. f_equal. by apply zip_xor_zero.
  - intros ->. rewrite take_app_length', drop_app_length' by done. f_equal. by apply zip_xor_zero.
Qed.

Lemma hash_buf_ok alg ctx x : (alg = sha1_alg \/ alg = sha256_alg) -> length (buf ctx) = 64%nat ->
  hash_buf ctx (Z.of_nat (alg_size alg)) x = Ok (alg_hash alg x, alg_hash alg (zero_pad alg)) /\
  forall y, length (alg_hash alg y) = alg_size alg.
Proof.
  intros [-> | ->] Hc; cbn [alg_hash alg_size sha1_alg sha256_alg].
  - change (alg_size sha1_alg) with 20%nat. unfold hash_buf. cbn [Z.eqb Pos.eqb Z.of_nat SHA_DIGEST_SIZE].
    rewrite SHA_hash_ok, expected_sha1 by done. split; [done|apply length_sha1].
  - unfold hash_buf. rewrite SHA256_hash_ok, expected_sha256 by done. split; [done|apply length_sha256].
Qed.

(** The code compares the hash of the xored buffer with that of the padding. *)
Lemma RSA_verify_hash alg key junk ctx sig hash m :
  (alg = sha1_alg \/ alg = sha256_alg) -> length (buf ctx) = 64%nat -> length hash = alg_size alg ->
  len key = RSANUMWORDS -> exponent key = 3 \/ exponent key = 65537 -> length sig = 256%nat ->
  modpow key junk sig = Ok m ->
  let x := xor_tail (256 - alg_size alg) m hash in
  exists r, RSA_verify key junk ctx sig RSANUMBYTES hash (Z.of_nat (alg_size alg)) = Ok r /\
    (r = 0 \/ r = 1) /\ (r = 1 <-> alg_hash alg x = alg_hash alg (zero_pad alg)).
Proof.
  intros Ha Hc Hh Hl He Hs Hm x. unfold RSA_verify. rewrite Hl. cbn [negb Z.eqb Pos.eqb RSANUMWORDS RSANUMBYTES].
  replace (negb (exponent key =? 3) && negb (exponent key =? 65537)) with false by (destruct He as [-> | ->]; done).
  replace (negb _ && negb _) with false by (destruct Ha as [-> | ->]; done).
  rewrite take_ge, Hm by (rewrite Hs; done). cbn [obind].
  replace (Z.to_nat (RSANUMBYTES - Z.of_nat (alg_size alg))) with (256 - alg_size alg)%nat
    by (destruct Ha as [-> | ->]; done).
  rewrite Nat2Z.id, (take_ge hash) by lia. fold x.
  destruct (hash_buf_ok alg ctx x Ha Hc) as [-> Hlen]. cbn [obind].
  eexists. split; [reflexivity|].
  pose proof (same_prefix_ok (alg_size alg) (alg_hash alg x ++ drop (length (alg_hash alg x)) x)
    (alg_hash alg (zero_pad alg)) (Hlen _) ltac:(rewrite length_app, Hlen; lia)) as E.
  rewrite take_app_length' in E by (by rewrite Hlen).
  destruct (same_prefix _ _ _); split; try lia; rewrite <- E; done.
Qed.

(** ** Theorems *)

(** C5: for a key as its header describes it, with a modulus of full length,
    [modpow] replaces the big-endian number in its buffer by its [exponent]-th
    power modulo the key, reduced, whatever the arrays on the stack held. *)
Theorem modpow_exponentiates key junk inout : key_ok key ->
  length junk = key_len key -> length inout = (4 * key_len key)%nat ->
  radix (key_len key) <= 2 * val (n key) -> exponent key = 3 \/ exponent key = 65537 ->
  exists out, modpow key junk inout = Ok out /\ length out = length inout /\
    be_val out = be_val inout ^ exponent key mod val (n key).
Proof. intros Hkey. by apply modpow_ok. Qed.

(** C4: with a 2048-bit key, [RSA_verify] returns 0 or 1; it returns 1 for a
    signature whose power is the PKCS#1 v1.5 padding of the hash, and when it
    returns 1 and the power is something else, a second preimage of the padding
    under the hash has been found: comparing hashes of the xored buffer, as the
    code does to save memory, loses nothing else. *)
Theorem RSA_verify_correct alg key junk ctx sig hash : key_ok key -> len key = RSANUMWORDS ->
  radix 64 <= 2 * val (n key) -> exponent key = 3 \/ exponent key = 65537 ->
  alg = sha1_alg \/ alg = sha256_alg -> length junk = 64%nat -> length (buf ctx) = 64%nat ->
  length sig = 256%nat -> length hash = alg_size alg ->
  let m := be_val sig ^ exponent key mod val (n key) in
  exists r, RSA_verify key junk ctx sig RSANUMBYTES hash (Z.of_nat (alg_size alg)) = Ok r /\
    (r = 0 \/ r = 1) /\
    (m = be_val (pkcs1 alg hash) -> r = 1) /\
    (r = 1 -> m = be_val (pkcs1 alg hash) \/
      exists x, length x = 256%nat /\ x <> zero_pad alg /\ alg_hash alg x = alg_hash alg (zero_pad alg)).
Proof.
  intros Hkey Hl H2 He Ha Hj Hc Hs Hh m. assert (key_len key = 64%nat) as Hk by (unfold key_len; by rewrite Hl).
  destruct (modpow_ok key Hkey junk sig) as (out & E & Lo & Ev); [by rewrite Hk..|done|].
  destruct (RSA_verify_hash alg key junk ctx sig hash out) as (r & Er & Hr & Hiff); try done.
  rewrite Hs in Lo. destruct (xor_tail_pad alg out hash Ha Hh Lo) as [Lx Hx].
  destruct (length_pkcs1 alg hash Ha Hh) as [Lp _].
  exists r. split_and!; [done|done| |].
  - intros Em. apply Hiff. f_equal. apply Hx, be_val_inj; [by rewrite Lp|]. by rewrite Ev.
  - intros Hr1%Hiff. destruct (Z.eq_dec (be_val out) (be_val (pkcs1 alg hash))) as [Eo|Eo].
    + left. unfold m. by rewrite <- Ev.
    + right. eexists. split_and!; [exact Lx| |exact Hr1]. intros Hz%Hx. by rewrite Hz in Eo.
Qed.

(** *** Concrete keys *)

Definition make_key (k : nat) (inv N e : Z) : RSAPublicKey :=
  RsaPublicKey (Z.of_nat k) inv (to_digits k N) (to_digits k (radix k ^ 2 mod N)) e.

(** A two-digit key. *)
Definition small_key : RSAPublicKey := make_key 2 2592493669 0xd23095f0a0641e93 65537.

Lemma small_key_ok : key_ok small_key.
Proof. split; first [apply words_to_digits | apply length_to_digits | vm_compute; reflexivity]. Qed.

Lemma modpow_exponentiates_witness :
  exists out, modpow small_key [7; 7] (rev (le 8 12345678901234567)) = Ok out /\ length out = 8%nat /\
    be_val out = be_val (rev (le 8 12345678901234567)) ^ 65537 mod val (n small_key).
Proof.
  apply (modpow_exponentiates small_key [7; 7] (rev (le 8 12345678901234567)) small_key_ok);
    [reflexivity|reflexivity|discriminate|right; reflexivity].
Defined.

(** A 2048-bit key with exponent 3, and its signature of the SHA-1 hash of
    the bytes of abc. *)
Definition ex_key : RSAPublicKey := make_key 64 0xd94af573
  0xd23095f0a0641e93fded94d15fb3e3a6cefbe74c3b130ef9a44464539bf05f73609415e9893cd7413296949742b59e62a2c1d3d7bb2174b5961d511111febdf0729efcf3364d11899f4a24eb9013452a843ae6d5b2967c3fe5f2d3d12b0ad30ef8032e0ca4d44087961c5d3ae6e9c188d4cf7dc878c36e5fda20a97cdc595a0aec27af512e0e96ce0b3f80807f6dbfcfe797921af2bf5bb553d72ef25307258473fd18bb01bbb42b05121a3256a971377e83675aa0078d4d1e35e8931652fa91a57e3546a97e70c2da62150fed33c54eb0a5f13e65ea2995ce9f51dd04fda16b284929fb71655aae409c259f6dc4b61c3fbcd32c8619cb73058fcabe124ec845 3.
Definition ex_sig : list byte := rev (le 256
  0x3827de86e2b028a0a58d857f106d04be0276618550cf2ff8e440cf0e3a037531758cb8a4f5990ac9f35bc9766097a01cc5b730af2f7d181963bede311cb2fc0e9a30ef0adde191e23ffccd250a910b258021839f71b6e339715a3a4b0f931e4b0868245fe078e8cf82ec33e4b59c3103e82f71e86ff67fbafbecba38408c468e24745b227e7e2d60ed024735831f86e39802b03d1a5cb937645976fec46698fc1d8c8c2e9a1b364e1fb8ffbde54cb6b751c1465ad3299e9579dce21bf4fc01cf686ac11ccb5511b7947893c330685c82ebab39862e3ac6be8c47d1794127a97ae347663a7c7c0df9835cdb9efb2d7f81d84584846a36f40f257de6de7c3f0703).
Definition ex_hash : list byte := sha1 [Byte.x61; Byte.x62; Byte.x63].

Lemma ex_key_ok : key_ok ex_key.
Proof. split; first [apply words_to_digits | apply length_to_digits | vm_compute; reflexivity]. Qed.

Lemma ex_sig_power : be_val ex_sig ^ exponent ex_key mod val (n ex_key) = be_val (pkcs1 sha1_alg ex_hash).
Proof. vm_compute. reflexivity. Qed.

Lemma ex_hash_length : length ex_hash = 20%nat.
Proof. apply length_sha1. Qed.

Lemma ex_key_full : radix 64 <= 2 * val (n ex_key).
Proof. vm_compute. discriminate. Qed.

Lemma RSA_verify_correct_witness :
  RSA_verify ex_key (replicate 64 7) used_ctx ex_sig RSANUMBYTES ex_hash 20 = Ok 1.
Proof.
  destruct (RSA_verify_correct sha1_alg ex_key (replicate 64 7) used_ctx ex_sig ex_hash ex_key_ok eq_refl ex_key_full
    (or_introl eq_refl) (or_introl eq_refl) (length_replicate _ _) eq_refl
    (eq_trans (length_rev _) (length_le _ _)) ex_hash_length) as (r & E & _ & H & _).
  rewrite (H ex_sig_power) in E. exact E.
Defined.
