(* ===== verification/P256.v ===== *)
(** * 256-bit integers of libmincrypt

    Model of include/mincrypt/p256.h and core/libmincrypt/p256.c: integers of
    eight 32-bit digits, least significant first, and arithmetic modulo the
    order and the field prime of the curve P-256. *)

From S2P Require Import Prelude Words.

#[local] Open Scope Z_scope.
#[local] Open Scope c_scope.

(** A [p256_int] is its array of [P256_NDIGITS] digits. *)
Definition P256_NDIGITS : nat := 8.
Definition P256_NBYTES : nat := 32.
Definition p256_int : Type := list Z.

Definition SECP256r1_n : p256_int :=
  [0xfc632551; 0xf3b9cac2; 0xa7179e84; 0xbce6faad; u32 (-1); u32 (-1); 0; u32 (-1)].
Definition SECP256r1_p : p256_int :=
  [u32 (-1); u32 (-1); u32 (-1); 0; 0; 0; 1; u32 (-1)].
Definition SECP256r1_b : p256_int :=
  [0x27d2604b; 0x3bce3c3e; 0xcc53b0f6; 0x651d06b0; 0x769886bc; 0xb3ebbd55; 0xaa3a93e7; 0x5ac635d8].

Definition P256_ZERO : p256_int := replicate P256_NDIGITS 0.
Definition P256_ONE : p256_int := 1 :: replicate (P256_NDIGITS - 1) 0.

Definition p256_init : p256_int := P256_ZERO.
Definition p256_clear : p256_int := p256_init.

Definition p256_get_bit (scalar : p256_int) (bit : Z) : Z :=
  Z.land (Z.shiftr (nth (Z.to_nat (Z.quot bit 32)) scalar 0) (Z.land bit 31)) 1.

Definition p256_is_zero (a : p256_int) : bool :=
  fold_left (fun result d => i32 (Z.lor result d)) a 0 =? 0.

(** ** Loops over digits

    The loops of the file that add or subtract digit arrays have one shape: an
    accumulator of 64 bits, unsigned ([wrap] is [u64]) or signed ([i64]), takes
    the terms of digit [i], its low half is stored as digit [i], and it is
    shifted right by the width of a digit. [terms] has the sum of the terms per
    digit; the result is the digits stored and the accumulator left. *)
Fixpoint digit_loop (wrap : Z -> Z) (terms : list Z) (acc : Z) : list Z * Z :=
  match terms with
  | [] => ([], acc)
  | x :: terms =>
      let acc := wrap (acc + x) in
      let '(out, last) := digit_loop wrap terms (Z.shiftr acc 32) in
      (u32 acc :: out, last)
  end.

(** [c] points into a longer array: the loop writes its first digits. *)
Definition at_front (out c : list Z) : list Z := out ++ drop (length out) c.

(** The new top, and the array [c]. *)
Definition mulAdd (a : p256_int) (b top : Z) (c : list Z) : Z * list Z :=
  let '(out, carry) := digit_loop u64 (zip_with (fun ci ai => ci + ai * b) c a) 0 in
  (u32 (top + u32 carry), at_front out c).

Definition subTop (top_a : Z) (a : list Z) (top_c : Z) (c : list Z) : outcome (Z * list Z) :=
  let '(out, borrow) := digit_loop i64 (zip_with (fun ci ai => ci - ai) c a) 0 in
  let borrow := i64 (borrow + top_c - top_a) in
  if Z.shiftr borrow 32 =? 0 then Ok (u32 borrow, at_front out c) else Abort.

Definition subM (MOD : p256_int) (top : Z) (c : list Z) (mask : Z) : Z * list Z :=
  let '(out, borrow) := digit_loop i64 (zip_with (fun ci mi => ci - Z.land mi mask) c MOD) 0 in
  (u32 (top + u32 borrow), at_front out c).

Definition addM (MOD : p256_int) (top : Z) (c : list Z) (mask : Z) : Z * list Z :=
  let '(out, carry) := digit_loop u64 (zip_with (fun ci mi => ci + Z.land mi mask) c MOD) 0 in
  (u32 (top + u32 carry), at_front out c).

(** ** Multiplication modulo [MOD] *)

(** An operation on [tmp + i]. *)
Definition on_tail {A} (i : nat) (f : list Z -> A * list Z) (tmp : list Z) : A * list Z :=
  let '(r, tail) := f (drop i tmp) in (r, take i tmp ++ tail).

(** The multiplication loop, for the digits [bs] of [b] from digit [i] on. *)
Fixpoint mul_loop (a : p256_int) (bs : list Z) (i : nat) (top : Z) (tmp : list Z) : Z * list Z :=
  match bs with
  | [] => (top, tmp)
  | bi :: bs =>
      let tmp := if (i =? 0)%nat then tmp else <[(i + P256_NDIGITS - 1)%nat := top]> tmp in
      let '(top, tmp) := on_tail i (mulAdd a bi 0) tmp in
      mul_loop a bs (S i) top tmp
  end.

(** The body of the reduction loop at [i], on the digits of [tmp] from [i]. *)
Definition reduce_step (MOD : p256_int) (top : Z) (c : list Z) : outcome (list Z) :=
  let '(top_reducer, reducer) := mulAdd MOD top 0 (replicate P256_NDIGITS 0) in
  do! (top, c) := subTop top_reducer reducer top c in
  if negb (top <=? 1) then Abort else
  let '(top, c) := subM MOD top c (u32 (Z.lnot (u32 (top - 1)))) in
  if negb (top =? 0) then Abort else Ok c.

(** The reduction loop: [i] counts the iterations left after this one. *)
Fixpoint reduce_loop (MOD : p256_int) (i : nat) (top : Z) (tmp : list Z) : outcome (list Z) :=
  do! c := reduce_step MOD top (drop i tmp) in
  let tmp := take i tmp ++ c in
  match i with
  | O => Ok tmp
  | S i' => reduce_loop MOD i' (nth (i + P256_NDIGITS - 1) tmp 0) tmp
  end.

Definition p256_modmul (MOD a : p256_int) (top_b : Z) (b : p256_int) : outcome p256_int :=
  let tmp := replicate (P256_NDIGITS * 2 + 1) 0 in
  let '(top, tmp) := mul_loop a b 0 0 tmp in
  let tmp := <[(P256_NDIGITS * 2 - 1)%nat := top]> tmp in
  let '(top, tmp) := on_tail P256_NDIGITS (mulAdd a top_b 0) tmp in
  do! tmp := reduce_loop MOD P256_NDIGITS top tmp in
  let '(mask, tmp) := subM MOD 0 tmp (u32 (-1)) in
  let '(_, tmp) := addM MOD 0 tmp mask in
  Ok (take P256_NDIGITS tmp).

Definition p256_is_odd (a : p256_int) : bool := negb (Z.land (nth 0 a 0) 1 =? 0).
Definition p256_is_even (a : p256_int) : bool := Z.land (nth 0 a 0) 1 =? 0.

(** ** Shifts *)

(** [(a[i] >> n) | (a[i + 1] << (32 - n))] for each digit, the digit above the
    last being [high]. *)
Fixpoint shr_digits (n : Z) (a : list Z) (high : Z) : list Z :=
  match a with
  | [] => []
  | x :: a =>
      let above := match a with [] => high | y :: _ => y end in
      u32 (Z.lor (Z.shiftr x n) (Z.shiftl above (32 - n))) :: shr_digits n a high
  end.

(** [(a[i] << n) | (a[i - 1] >> (32 - n))], the digit below the first being
    [low]. *)
Fixpoint shl_digits (n : Z) (low : Z) (a : list Z) : list Z :=
  match a with
  | [] => []
  | x :: a => u32 (Z.lor (u32 (Z.shiftl x n)) (Z.shiftr low (32 - n))) :: shl_digits n x a
  end.

(** A shift of a 32-bit digit by [32 - n] is undefined for [n] 0 and a shift
    by a negative [n] is undefined. *)
Definition shift_ok (n : Z) : bool := (0 <? n) && (n <? 32).

Definition p256_shl (a : p256_int) (n : Z) : outcome (Z * p256_int) :=
  let n := Z.rem n 32 in
  if shift_ok n then
    let top := nth (P256_NDIGITS - 1) a 0 in
    Ok (u32 (Z.shiftr (u64 (Z.shiftl top n)) 32), shl_digits n 0 a)
  else UB.

Definition p256_shr (a : p256_int) (n : Z) : outcome p256_int :=
  let n := Z.rem n 32 in
  if shift_ok n then Ok (shr_digits n a 0) else UB.

Definition p256_shr1 (a : p256_int) (highbit : Z) : p256_int := shr_digits 1 a highbit.

(** ** Comparison, addition, subtraction *)

(** [notzero] is whether a digit of the difference is not zero. *)
Definition p256_cmp (a b : p256_int) : Z :=
  let '(out, borrow) := digit_loop i64 (zip_with Z.sub a b) 0 in
  let notzero := if forallb (Z.eqb 0) out then 0 else 1 in
  i32 (Z.lor (i32 borrow) notzero).

Definition p256_sub (a b : p256_int) : Z * p256_int :=
  let '(c, borrow) := digit_loop i64 (zip_with Z.sub a b) 0 in (i32 borrow, c).

Definition p256_add (a b : p256_int) : Z * p256_int :=
  let '(c, carry) := digit_loop u64 (zip_with Z.add a b) 0 in (i32 carry, c).

Definition p256_add_d (a : p256_int) (d : Z) : Z * p256_int :=
  let '(b, carry) := digit_loop u64 a d in (i32 carry, b).

Definition p256_mod (MOD in_ : p256_int) : p256_int :=
  let '(mask, out) := subM MOD 0 in_ (u32 (-1)) in
  let '(_, out) := addM MOD 0 out mask in
  out.

(** ** Inversion *)

(** [(R + MOD) / 2] or [R / 2]: the halving of a coefficient. *)
Definition halve (MOD R : p256_int) : p256_int :=
  if p256_is_even R then p256_shr1 R 0
  else let '(carry, R) := p256_add R MOD in p256_shr1 R carry.

(** [x - y], plus [MOD] on borrow. *)
Definition sub_mod (MOD x y : p256_int) : p256_int :=
  let '(borrow, d) := p256_sub x y in
  if borrow =? 0 then d else (p256_add d MOD).2.

Fixpoint modinv_loop (fuel : nat) (MOD R S U V : p256_int) : outcome p256_int :=
  match fuel with
  | O => NoFuel
  | Datatypes.S fuel =>
      if p256_is_even U then
        modinv_loop fuel MOD (halve MOD R) S (p256_shr1 U 0) V
      else if p256_is_even V then
        modinv_loop fuel MOD R (halve MOD S) U (p256_shr1 V 0)
      else
        let '(borrow, D) := p256_sub V U in
        if borrow =? 0 then
          let S := sub_mod MOD S R in
          if p256_is_zero D then Ok R
          else modinv_loop fuel MOD R S U D
        else
          let '(_, U') := p256_sub U V in
          modinv_loop fuel MOD (sub_mod MOD R S) S U' V
  end.

(** Every second iteration at least halves [U] or [V], which have 256 bits each:
    1026 iterations are enough when [a] is not zero. *)
Definition modinv_fuel : nat := 1026.

Definition p256_modinv_vartime (MOD a : p256_int) : outcome p256_int :=
  do! R := modinv_loop modinv_fuel MOD P256_ZERO P256_ONE MOD a in
  Ok (p256_mod MOD R).

(** ** Points *)

Definition p256_is_valid_point (x y : p256_int) : outcome bool :=
  if (p256_cmp SECP256r1_p x <=? 0) || (p256_cmp SECP256r1_p y <=? 0) || p256_is_zero x || p256_is_zero y
  then Ok false
  else
    do! y2 := p256_modmul SECP256r1_p y 0 y in
    do! x3 := p256_modmul SECP256r1_p x 0 x in
    do! x3 := p256_modmul SECP256r1_p x 0 x3 in
    let x3 := sub_mod SECP256r1_p x3 x in
    let x3 := sub_mod SECP256r1_p x3 x in
    let x3 := sub_mod SECP256r1_p x3 x in
    let '(carry, x3) := p256_add x3 SECP256r1_b in
    let x3 := if carry =? 0 then x3 else (p256_sub x3 SECP256r1_p).2 in
    Ok (p256_cmp y2 x3 =? 0).

(** The big-endian bytes as digits, the first four being the highest. *)
Definition p256_from_bin (src : list byte) : p256_int := rev (be_words (take P256_NBYTES src)).
