(* ===== verification/P256Props.v ===== *)
(** * Arithmetic modulo the constants of P-256

    Each routine of p256.c computes the integer operation its comment names, on
    the value of its digits. *)

From Stdlib Require Import Znumtheory.
From S2P Require Import Prelude Words P256.

#[local] Open Scope Z_scope.
#[local] Open Scope c_scope.

(** A [p256_int]: eight digits. *)
Definition p256 (a : p256_int) : Prop := words a /\ length a = 8%nat.

Lemma p256_range a : p256 a -> 0 <= val a < 2 ^ 256.
Proof. intros [W L]. pose proof (val_range a W) as H. by rewrite L in H. Qed.

Lemma p256_ext a b : p256 a -> p256 b -> val a = val b -> a = b.
Proof. intros [Wa La] [Wb Lb]. apply val_inj; congruence. Qed.

(** ** Loops over digits *)

Lemma digit_loop_u64 terms : forall acc,
  Forall (fun x => 0 <= x <= 2 ^ 64 - 2 ^ 32) terms -> 0 <= acc < 2 ^ 32 ->
  let '(out, last) := digit_loop u64 terms acc in
  words out /\ length out = length terms /\ 0 <= last < 2 ^ 32 /\
  val out + radix (length terms) * last = acc + val terms.
Proof.
  induction terms as [|x terms IH]; intros acc Ht Ha; cbn [digit_loop].
  - split_and!; [constructor|done|lia|lia|]. cbn [val length]. rewrite radix_0. lia.
  - apply Forall_cons in Ht as [Hx Ht]. rewrite u64_small by lia.
    specialize (IH (Z.shiftr (acc + x) 32) Ht (shiftr32_range (acc + x) (2 ^ 32) ltac:(lia))).
    destruct (digit_loop u64 terms _) as [out last]. destruct IH as (W & L & Hl & E).
    split_and!; [apply words_cons; split; [apply u32_range|done]|simpl; lia|lia|lia|].
    cbn [val length]. rewrite radix_S. pose proof (digit_carry (acc + x)). lia.
Qed.

Lemma digit_loop_i64 terms : forall acc,
  Forall (fun x => - 2 ^ 32 < x < 2 ^ 32) terms -> -1 <= acc <= 0 ->
  let '(out, last) := digit_loop i64 terms acc in
  words out /\ length out = length terms /\ -1 <= last <= 0 /\
  val out + radix (length terms) * last = acc + val terms.
Proof.
  induction terms as [|x terms IH]; intros acc Ht Ha; cbn [digit_loop].
  - split_and!; [constructor|done|lia|lia|]. cbn [val length]. rewrite radix_0. lia.
  - apply Forall_cons in Ht as [Hx Ht]. rewrite i64_small by lia.
    assert (-1 <= Z.shiftr (acc + x) 32 <= 0) as Hs.
    { rewrite Z.shiftr_div_pow2 by lia. Z.div_mod_to_equations; lia. }
    specialize (IH _ Ht Hs).
    destruct (digit_loop i64 terms _) as [out last]. destruct IH as (W & L & Hl & E).
    split_and!; [apply words_cons; split; [apply u32_range|done]|simpl; lia|lia|lia|].
    cbn [val length]. rewrite radix_S. pose proof (digit_carry (acc + x)). lia.
Qed.

(** A sum of digit terms that is linear in two arrays. *)
Definition linear (g : Z -> Z -> Z) (u v : Z) : Prop :=
  forall x y, 0 <= y < 2 ^ 32 -> g x y = u * x + v * y.

Lemma val_zip_with g u v a b : linear g u v -> words b ->
  length a = length b -> val (zip_with g a b) = u * val a + v * val b.
Proof.
  intros Hg. revert b. induction a as [|x a IH]; intros [|y b] Wb Hl; simpl in Hl; try lia; cbn [zip_with val]; [lia|].
  apply words_cons in Wb as [Hy Wb]. rewrite Hg, IH by (done || lia). ring.
Qed.

Lemma words_zip_with (P : Z -> Prop) (g : Z -> Z -> Z) a b :
  (forall x y, 0 <= x < 2 ^ 32 -> 0 <= y < 2 ^ 32 -> P (g x y)) -> words a -> words b ->
  Forall P (zip_with g a b).
Proof.
  intros Hg. revert b. induction a as [|x a IH]; intros [|y b] Wa Wb; cbn [zip_with]; try constructor.
  - apply words_cons in Wa as [? _], Wb as [? _]. by apply Hg.
  - apply words_cons in Wa as [_ ?], Wb as [_ ?]. by apply IH.
Qed.

(** The loops of this file, on arrays of eight digits followed by others. *)
Lemma at_front_app out c1 c2 : length out = length c1 -> at_front out (c1 ++ c2) = out ++ c2.
Proof. intros E. unfold at_front. by rewrite drop_app_length'. Qed.

Lemma zip_with_front (g : Z -> Z -> Z) c1 c2 a : length c1 = length a -> zip_with g (c1 ++ c2) a = zip_with g c1 a.
Proof.
  revert a. induction c1 as [|x c1 IH]; intros [|y a] E; simpl in E; try lia; cbn [app zip_with]; [by destruct c2|].
  f_equal. apply IH. lia.
Qed.

(** The two kinds of loops, on two integers of eight digits. *)
Definition ranged (lo hi : Z) (g : Z -> Z -> Z) : Prop :=
  forall x y, 0 <= x < 2 ^ 32 -> 0 <= y < 2 ^ 32 -> lo <= g x y <= hi.

Lemma add_loop g u v c a : linear g u v -> ranged 0 (2 ^ 64 - 2 ^ 32) g -> p256 c -> p256 a ->
  exists out carry, digit_loop u64 (zip_with g c a) 0 = (out, carry) /\
  p256 out /\ 0 <= carry < 2 ^ 32 /\ val out + 2 ^ 256 * carry = u * val c + v * val a.
Proof.
  intros Hg Hr [Wc Lc] [Wa La].
  pose proof (digit_loop_u64 (zip_with g c a) 0 (words_zip_with _ g c a Hr Wc Wa) ltac:(lia)) as H.
  destruct (digit_loop u64 _ _) as [out carry]. destruct H as (W & L & Hl & E). exists out, carry.
  rewrite length_zip_with, Lc, La in L, E. rewrite (val_zip_with g u v) in E by (done || congruence).
  split_and!; try done; lia.
Qed.

Lemma sub_loop g u v c a : linear g u v -> ranged (1 - 2 ^ 32) (2 ^ 32 - 1) g -> p256 c -> p256 a ->
  exists out borrow, digit_loop i64 (zip_with g c a) 0 = (out, borrow) /\
  p256 out /\ -1 <= borrow <= 0 /\ val out + 2 ^ 256 * borrow = u * val c + v * val a.
Proof.
  intros Hg Hr [Wc Lc] [Wa La].
  assert (Forall (fun x => - 2 ^ 32 < x < 2 ^ 32) (zip_with g c a)) as Hf.
  { apply words_zip_with; [|done..]. intros x y Hx Hy. specialize (Hr x y Hx Hy). lia. }
  pose proof (digit_loop_i64 (zip_with g c a) 0 Hf ltac:(lia)) as H.
  destruct (digit_loop i64 _ _) as [out borrow]. destruct H as (W & L & Hl & E). exists out, borrow.
  rewrite length_zip_with, Lc, La in L, E. rewrite (val_zip_with g u v) in E by (done || congruence).
  split_and!; try done; lia.
Qed.

(** ** The operations *)

Lemma p256_add_ok a b : p256 a -> p256 b ->
  exists carry c, p256_add a b = (carry, c) /\ p256 c /\ 0 <= carry <= 1 /\ val c + 2 ^ 256 * carry = val a + val b.
Proof.
  intros Pa Pb. unfold p256_add. pose proof (p256_range a Pa). pose proof (p256_range b Pb).
  destruct (add_loop Z.add 1 1 a b) as (c & carry & -> & Pc & Hc & E); [intros x y; lia|intros x y; lia|done..|].
  pose proof (p256_range c Pc). exists carry, c. rewrite i32_small by lia. split_and!; try done; lia.
Qed.

Lemma p256_sub_ok a b : p256 a -> p256 b ->
  exists borrow c, p256_sub a b = (borrow, c) /\ p256 c /\ -1 <= borrow <= 0 /\
    val c + 2 ^ 256 * borrow = val a - val b.
Proof.
  intros Pa Pb. unfold p256_sub.
  destruct (sub_loop Z.sub 1 (-1) a b) as (c & borrow & -> & Pc & Hc & E); [intros x y; lia|intros x y; lia|done..|].
  exists borrow, c. rewrite i32_small by lia. split_and!; try done; lia.
Qed.

Lemma forallb_zero l : words l -> forallb (Z.eqb 0) l = (val l =? 0).
Proof.
  intros W. apply eq_true_iff_eq. rewrite forallb_forall, Z.eqb_eq, val_zero_iff, List.Forall_forall by done.
  split; intros H x Hx; specialize (H x Hx); lia.
Qed.

Lemma p256_cmp_ok a b : p256 a -> p256 b ->
  p256_cmp a b = if val a <? val b then -1 else if val a =? val b then 0 else 1.
Proof.
  intros Pa Pb. unfold p256_cmp.
  destruct (sub_loop Z.sub 1 (-1) a b) as (c & borrow & -> & Pc & Hc & E); [intros x y; lia|intros x y; lia|done..|].
  pose proof (p256_range c Pc). rewrite forallb_zero by apply Pc.
  assert (borrow = -1 \/ borrow = 0) as [-> | ->] by lia.
  - rewrite (proj2 (Z.ltb_lt (val a) (val b))) by lia. by destruct (val c =? 0).
  - rewrite (proj2 (Z.ltb_ge (val a) (val b))) by lia.
    destruct (Z.eqb_spec (val c) 0), (Z.eqb_spec (val a) (val b)); try lia; done.
Qed.

Lemma lor_zero_low r d : - 2 ^ 31 <= r < 2 ^ 31 -> 0 <= d < 2 ^ 32 -> i32 (Z.lor r d) = 0 <-> r = 0 /\ d = 0.
Proof.
  intros Hr Hd. assert (forall z, i32 z = 0 <-> u32 z = 0) as E.
  { intros z. unfold i32, u32. Z.div_mod_to_equations; lia. }
  assert (u32 (Z.lor r d) = Z.lor (u32 r) (u32 d)) as E2.
  { unfold u32. rewrite <- !Z.land_ones by lia. apply Z.land_lor_distr_l. }
  rewrite E, E2, Z.lor_eq_0_iff, <- E, i32_small, u32_small by done. done.
Qed.

Lemma p256_is_zero_ok a : words a -> p256_is_zero a = (val a =? 0).
Proof.
  intros W. unfold p256_is_zero.
  assert (forall r, - 2 ^ 31 <= r < 2 ^ 31 ->
    fold_left (fun result d => i32 (Z.lor result d)) a r = 0 <-> r = 0 /\ val a = 0) as E.
  { induction a as [|x a IH]; intros r Hr; cbn [fold_left val]; [lia|].
    apply words_cons in W as [Hx W]. rewrite IH by (done || (unfold i32; Z.div_mod_to_equations; lia)).
    rewrite lor_zero_low by done. pose proof (val_range a W). lia. }
  specialize (E 0 ltac:(lia)). apply eq_true_iff_eq. rewrite !Z.eqb_eq, E. tauto.
Qed.

Lemma p256_is_even_ok a : p256 a -> p256_is_even a = Z.even (val a).
Proof.
  intros [W L]. destruct a as [|x a]; [done|]. unfold p256_is_even. cbn [nth val].
  change 1 with (Z.ones 1). rewrite Z.land_ones by lia. rewrite Z.even_add, Z.even_mul. cbn [Z.even Z.pow Z.pow_pos Pos.iter].
  rewrite Zmod_even. destruct (Z.even x); done.
Qed.

(** ** Shifts *)

Lemma shr_digits_ok n a high : 0 < n < 32 -> words a -> 0 <= high < 2 ^ n ->
  words (shr_digits n a high) /\ length (shr_digits n a high) = length a /\
  2 ^ n * val (shr_digits n a high) + (match a with [] => high | x :: _ => x mod 2 ^ n end) =
    val a + radix (length a) * high.
Proof.
  intros Hn W Hh. assert (2 ^ 32 = 2 ^ n * 2 ^ (32 - n)) as Hp by (rewrite <- Z.pow_add_r by lia; f_equal; lia).
  induction a as [|x a IH]; [split_and!; [constructor|done|cbn [shr_digits val length]; rewrite radix_0; lia]|].
  apply words_cons in W as [Hx W]. destruct (IH W) as (W' & L & E). cbn [shr_digits].
  set (above := match a with [] => high | y :: _ => y end) in *.
  assert (0 < 2 ^ n) by lia. assert (0 < 2 ^ (32 - n)) by (apply Z.pow_pos_nonneg; lia).
  assert (u32 (Z.lor (Z.shiftr x n) (Z.shiftl above (32 - n))) = x / 2 ^ n + 2 ^ (32 - n) * (above mod 2 ^ n)) as Ed.
  { rewrite Z.shiftr_div_pow2, Z.lor_comm, lor_shiftl 
      by first [lia | split; [apply Z.div_pos; lia|apply Z.div_lt_upper_bound; lia]].
    unfold u32. pose proof (Z.div_mod above (2 ^ n) ltac:(lia)). pose proof (Z.mod_pos_bound above (2 ^ n) ltac:(lia)).
    pose proof (Z.div_lt_upper_bound x (2 ^ n) (2 ^ (32 - n)) ltac:(lia) ltac:(lia)). pose proof (Z.div_pos x (2 ^ n)).
    pose proof (Z.mul_le_mono_nonneg_l (above mod 2 ^ n) (2 ^ n - 1) (2 ^ (32 - n)) ltac:(lia) ltac:(lia)).
    assert (0 <= 2 ^ (32 - n) * (above mod 2 ^ n)) by (apply Z.mul_nonneg_nonneg; lia).
    symmetry. apply Z.mod_unique with (q := above / 2 ^ n); [lia|]. rewrite Hp.
    replace above with (2 ^ n * (above / 2 ^ n) + above mod 2 ^ n) at 1 by lia. ring. }
  split_and!; [apply words_cons; split; [apply u32_range|done]|simpl; lia|].
  rewrite Ed. cbn [val length]. rewrite radix_S.
  pose proof (Z.div_mod x (2 ^ n) ltac:(lia)).
  assert ((match a with [] => high | y :: _ => y mod 2 ^ n end) = above mod 2 ^ n) as Ea.
  { subst above. destruct a; [|done]. by rewrite Z.mod_small by lia. }
  rewrite Ea in E. rewrite Hp. transitivity (2 ^ n * (x / 2 ^ n) + x mod 2 ^ n +
    2 ^ n * 2 ^ (32 - n) * (2 ^ n * val (shr_digits n a high) + above mod 2 ^ n)); [ring|].
  rewrite E. replace (2 ^ n * (x / 2 ^ n) + x mod 2 ^ n) with x by lia. ring.
Qed.

Lemma shl_digits_ok n a : 0 < n < 32 -> forall low, words a -> 0 <= low < 2 ^ 32 ->
  words (shl_digits n low a) /\ length (shl_digits n low a) = length a /\
  val (shl_digits n low a) + radix (length a) * (List.last a low / 2 ^ (32 - n)) =
    2 ^ n * val a + low / 2 ^ (32 - n).
Proof.
  intros Hn. assert (2 ^ 32 = 2 ^ n * 2 ^ (32 - n)) as Hp by (rewrite <- Z.pow_add_r by lia; f_equal; lia).
  assert (0 < 2 ^ n) by lia. assert (0 < 2 ^ (32 - n)) by (apply Z.pow_pos_nonneg; lia).
  induction a as [|x a IH]; intros low W Hl;
    [split_and!; [constructor|done|cbn [shl_digits val length List.last]; rewrite radix_0; lia]|].
  apply words_cons in W as [Hx W]. destruct (IH x W Hx) as (W' & L & E). cbn [shl_digits].
  assert (0 <= low / 2 ^ (32 - n) < 2 ^ n) as Hlow by (split; [apply Z.div_pos; lia|apply Z.div_lt_upper_bound; lia]).
  assert (u32 (Z.shiftl x n) = 2 ^ n * (x mod 2 ^ (32 - n))) as Es.
  { unfold u32. rewrite Z.shiftl_mul_pow2, Hp, (Z.mul_comm x) by lia. rewrite Zmult_mod_distr_l. done. }
  pose proof (Z.mod_pos_bound x (2 ^ (32 - n)) ltac:(lia)).
  assert (u32 (Z.lor (u32 (Z.shiftl x n)) (Z.shiftr low (32 - n))) = 2 ^ n * (x mod 2 ^ (32 - n)) + low / 2 ^ (32 - n)) as Ed.
  { rewrite Es, Z.shiftr_div_pow2 by lia. rewrite (lor_low _ _ n); [|lia|by rewrite Z.mul_comm, Z.mod_mul by lia|done].
    apply u32_small. nia. }
  split_and!; [apply words_cons; split; [apply u32_range|done]|simpl; lia|].
  rewrite Ed. cbn [val length]. rewrite radix_S. pose proof (Z.div_mod x (2 ^ (32 - n)) ltac:(lia)).
  replace (List.last (x :: a) low) with (List.last a x).
  - nia.
  - clear. revert x low. induction a as [|y a IH]; intros x low; [done|].
    change (List.last (y :: a) x = List.last (y :: a) low). by rewrite <- !IH.
Qed.

Lemma p256_shr1_ok a h : p256 a -> 0 <= h <= 1 -> Z.even (val a) = true ->
  p256 (p256_shr1 a h) /\ 2 * val (p256_shr1 a h) = val a + 2 ^ 256 * h.
Proof.
  intros Pa Hh He. pose proof Pa as [W L]. destruct (shr_digits_ok 1 a h) as (W' & L' & E); [lia|done|lia|].
  unfold p256_shr1. split; [split; [done|lia]|].
  rewrite <- p256_is_even_ok in He by done. unfold p256_is_even in He.
  rewrite L in E. change (radix 8) with (2 ^ 256) in E. destruct a as [|x a]; [done|]. cbn [nth] in He.
  change 1 with (Z.ones 1) in He. rewrite Z.land_ones in He by lia. apply Z.eqb_eq in He. rewrite He in E. lia.
Qed.

Lemma last_nth (a : list Z) d : a <> [] -> List.last a d = nth (length a - 1) a d.
Proof.
  induction a as [|x [|y a] IH]; intros H; [done|done|]. change (List.last (y :: a) d = nth (length a) (y :: a) d).
  rewrite IH by done. simpl. by rewrite Nat.sub_0_r.
Qed.

Lemma shr_ok a n : p256 a -> 0 < n < 32 -> exists c, p256_shr a n = Ok c /\ p256 c /\ val c = val a / 2 ^ n.
Proof.
  intros [W L] Hn. unfold p256_shr. rewrite Z.rem_small by lia.
  replace (shift_ok n) with true by (unfold shift_ok; lia).
  destruct (shr_digits_ok n a 0 Hn W ltac:(lia)) as (W' & L' & E). eexists. split; [done|].
  split; [split; [done|lia]|]. destruct a as [|x a]; [done|].
  apply Z.div_unique with (r := x mod 2 ^ n); [left; apply Z.mod_pos_bound; lia|lia].
Qed.

Lemma shl_ok a n : p256 a -> 0 < n < 32 ->
  exists top c, p256_shl a n = Ok (top, c) /\ p256 c /\ val c + 2 ^ 256 * top = val a * 2 ^ n.
Proof.
  intros [W L] Hn. unfold p256_shl. rewrite Z.rem_small by lia.
  replace (shift_ok n) with true by (unfold shift_ok; lia).
  destruct (shl_digits_ok n a Hn 0 W ltac:(lia)) as (W' & L' & E). eexists _, _. split; [done|].
  split; [split; [done|lia]|]. rewrite L, Z.div_0_l in E by (apply Z.pow_nonzero; lia).
  rewrite last_nth, L in E by (intros ->; done). change (P256_NDIGITS - 1)%nat with (8 - 1)%nat.
  pose proof (words_nth a (8 - 1) W) as Hz. set (z := nth (8 - 1) a 0) in *.
  assert (0 < 2 ^ n <= 2 ^ 32) as Hpn by (split; [lia|apply Z.pow_le_mono_r; lia]).
  assert (Z.shiftr (u64 (Z.shiftl z n)) 32 = z / 2 ^ (32 - n)) as ->.
  { rewrite Z.shiftl_mul_pow2, u64_small, Z.shiftr_div_pow2 by nia.
    replace 32 with (32 - n + n) at 1 by lia. rewrite Z.pow_add_r, Z.div_mul_cancel_r by lia. done. }
  rewrite u32_small; [change (2 ^ 256) with (radix 8); lia|].
  split; [apply Z.div_pos; lia|]. apply Z.div_lt_upper_bound; [lia|].
  assert (0 < 2 ^ (32 - n)) by (apply Z.pow_pos_nonneg; lia). nia.
Qed.

(** ** The steps of the multiplication *)

Lemma land_mask x m : m = 0 \/ m = 1 -> 0 <= x < 2 ^ 32 -> Z.land x (u32 (- m)) = m * x.
Proof.
  intros [-> | ->] Hx; [apply Z.land_0_r|]. change (u32 (- (1))) with (Z.ones 32). rewrite Z.land_ones by lia.
  rewrite Z.mod_small by done. lia.
Qed.

Lemma mulAdd_ok a b c1 c2 : p256 a -> 0 <= b < 2 ^ 32 -> p256 c1 ->
  exists top c1', mulAdd a b 0 (c1 ++ c2) = (top, c1' ++ c2) /\ p256 c1' /\ 0 <= top < 2 ^ 32 /\
    val c1' + 2 ^ 256 * top = val c1 + val a * b.
Proof.
  intros Pa Hb Pc. unfold mulAdd. rewrite zip_with_front by (destruct Pa, Pc; congruence).
  destruct (add_loop (fun ci ai => ci + ai * b) 1 b c1 a) as (out & carry & -> & Po & Hr & E);
    [intros x y _; ring|intros x y; nia|done..|].
  exists carry, out. rewrite at_front_app by (destruct Po, Pc; congruence).
  rewrite Z.add_0_l, (u32_small (u32 _)), u32_small by auto with cdb. split_and!; try done; lia.
Qed.

Lemma subTop_ok top_a a top_c c1 c2 : p256 a -> p256 c1 -> 0 <= top_a < 2 ^ 32 -> 0 <= top_c < 2 ^ 32 ->
  val a + 2 ^ 256 * top_a <= val c1 + 2 ^ 256 * top_c ->
  exists top c1', subTop top_a a top_c (c1 ++ c2) = Ok (top, c1' ++ c2) /\ p256 c1' /\
    val c1' + 2 ^ 256 * top = val c1 + 2 ^ 256 * top_c - (val a + 2 ^ 256 * top_a).
Proof.
  intros Pa Pc Ha Hc Hle. unfold subTop. rewrite zip_with_front by (destruct Pa, Pc; congruence).
  destruct (sub_loop (fun ci ai => ci - ai) 1 (-1) c1 a) as (out & borrow & -> & Po & Hr & E);
    [intros x y _; ring|intros x y; lia|done..|].
  pose proof (p256_range _ Po). rewrite i64_small by lia. set (t := borrow + top_c - top_a).
  assert (0 <= t < 2 ^ 32) as Ht by lia. pose proof (shiftr32_range t 1 ltac:(lia)).
  replace (Z.shiftr t 32) with 0 by lia. rewrite Z.eqb_refl. exists t, out. rewrite u32_small by done.
  rewrite at_front_app by (destruct Po, Pc; congruence). split_and!; try done. lia.
Qed.

(** [mask] is 0 or all ones: [m] is 0 or 1. *)
Lemma p256_subM_ok MOD top c1 c2 m : p256 MOD -> p256 c1 -> m = 0 \/ m = 1 ->
  exists borrow c1', subM MOD top (c1 ++ c2) (u32 (- m)) = (u32 (top + borrow), c1' ++ c2) /\ p256 c1' /\
    -1 <= borrow <= 0 /\ val c1' + 2 ^ 256 * borrow = val c1 - m * val MOD.
Proof.
  intros Pm Pc Hm. unfold subM. rewrite zip_with_front by (destruct Pm, Pc; congruence).
  destruct (sub_loop (fun ci mi => ci - Z.land mi (u32 (- m))) 1 (- m) c1 MOD) as (out & borrow & -> & Po & Hr & E);
    [intros x y Hy; rewrite land_mask by done; ring|intros x y Hx Hy; rewrite land_mask by done; nia|done..|].
  exists borrow, out. rewrite at_front_app by (destruct Po, Pc; congruence).
  unfold u32 at 1 2. rewrite Zplus_mod_idemp_r. split_and!; try done; lia.
Qed.

Lemma p256_addM_ok MOD top c1 c2 m : p256 MOD -> p256 c1 -> m = 0 \/ m = 1 ->
  exists carry c1', addM MOD top (c1 ++ c2) (u32 (- m)) = (u32 (top + carry), c1' ++ c2) /\ p256 c1' /\
    0 <= carry < 2 ^ 32 /\ val c1' + 2 ^ 256 * carry = val c1 + m * val MOD.
Proof.
  intros Pm Pc Hm. unfold addM. rewrite zip_with_front by (destruct Pm, Pc; congruence).
  destruct (add_loop (fun ci mi => ci + Z.land mi (u32 (- m))) 1 m c1 MOD) as (out & carry & -> & Po & Hr & E);
    [intros x y Hy; rewrite land_mask by done; ring|intros x y Hx Hy; rewrite land_mask by done; nia|done..|].
  exists carry, out. rewrite at_front_app by (destruct Po, Pc; congruence).
  unfold u32 at 1 2. rewrite Zplus_mod_idemp_r. split_and!; try done; lia.
Qed.

(** Subtracting [MOD], and adding it back on borrow, reduces a number below
    twice [MOD]. *)
Lemma reduce_once MOD c1 c2 : p256 MOD -> p256 c1 -> val c1 < 2 * val MOD ->
  exists r, (let '(mask, tmp) := subM MOD 0 (c1 ++ c2) (u32 (-1)) in addM MOD 0 tmp mask).2 = r ++ c2 /\
    p256 r /\ val r = val c1 mod val MOD.
Proof.
  intros Pm Pc H2. pose proof (p256_range _ Pc). pose proof (p256_range _ Pm).
  destruct (p256_subM_ok MOD 0 c1 c2 1 Pm Pc ltac:(lia)) as (borrow & d & Ed & Pd & Hb & E).
  change (- (1)) with (-1) in Ed. rewrite Ed. pose proof (p256_range _ Pd).
  replace (0 + borrow) with (- (- borrow)) by lia.
  destruct (p256_addM_ok MOD 0 d c2 (- borrow) Pm Pd ltac:(lia)) as (carry & r & Er & Pr & Hc & E').
  rewrite Er. exists r. split_and!; [done|done|]. pose proof (p256_range _ Pr).
  assert (borrow = -1 \/ borrow = 0) as [-> | ->] by lia.
  - rewrite Z.mod_small by lia. lia.
  - apply Z.mod_unique with (q := 1); lia.
Qed.

Lemma p256_mod_ok MOD a : p256 MOD -> p256 a -> val a < 2 * val MOD ->
  p256 (p256_mod MOD a) /\ val (p256_mod MOD a) = val a mod val MOD.
Proof.
  intros Pm Pa H2. destruct (reduce_once MOD a [] Pm Pa H2) as (r & E & Pr & Ev). unfold p256_mod.
  rewrite !app_nil_r in E. destruct (subM MOD 0 a (u32 (-1))) as [mask tmp].
  destruct (addM MOD 0 tmp mask) as [t out]. simpl in E. by subst.
Qed.

(** ** Multiplication *)

(** The moduli the reduction is written for: the highest digit is all ones. *)
Definition modulus (MOD : p256_int) : Prop := p256 MOD /\ 2 ^ 256 - 2 ^ 224 <= val MOD.

Lemma modulus_range MOD : modulus MOD -> 2 ^ 256 - 2 ^ 224 <= val MOD < 2 ^ 256.
Proof. intros [P H]. pose proof (p256_range _ P). lia. Qed.

(** One digit off the top: the assertions hold, and the value keeps its class
    modulo [MOD]. *)
Lemma reduce_step_ok MOD top c1 c2 : modulus MOD -> p256 c1 -> 0 <= top < 2 ^ 32 ->
  exists c1', reduce_step MOD top (c1 ++ c2) = Ok (c1' ++ c2) /\ p256 c1' /\
    cong (val MOD) (val c1') (val c1 + 2 ^ 256 * top).
Proof.
  intros Hm Pc Ht. pose proof (modulus_range _ Hm) as Rm. destruct Hm as [Pm _]. pose proof (p256_range _ Pc).
  unfold reduce_step. assert (p256 (replicate P256_NDIGITS 0)) as P0 by (split; [apply words_zeros|done]).
  destruct (mulAdd_ok MOD top (replicate P256_NDIGITS 0) [] Pm Ht P0) as (tr & red & E1 & Pr & Htr & V1).
  rewrite !app_nil_r in E1. rewrite E1. rewrite val_zeros in V1. pose proof (p256_range _ Pr).
  assert (0 <= (2 ^ 256 - val MOD) * top <= 2 ^ 224 * (2 ^ 32 - 1)) as Hd.
  { split; [apply Z.mul_nonneg_nonneg; lia|apply Z.mul_le_mono_nonneg; lia]. }
  destruct (subTop_ok tr red top c1 c2 Pr Pc Htr Ht) as (t & c & E2 & P2 & V2); [lia|].
  rewrite E2. cbn [obind]. pose proof (p256_range _ P2).
  assert (t = 0 \/ t = 1) as Ht1 by lia.
  replace (t <=? 1) with true by (symmetry; apply Z.leb_le; lia). cbn [negb].
  replace (u32 (Z.lnot (u32 (t - 1)))) with (u32 (- t)) by by destruct Ht1 as [-> | ->].
  destruct (p256_subM_ok MOD t c c2 t Pm P2 Ht1) as (borrow & c' & E3 & P3 & Hb & V3). rewrite E3.
  pose proof (p256_range _ P3).
  assert (t + borrow = 0) as -> by (destruct Ht1 as [-> | ->]; lia).
  exists c'. split_and!; [done|done|]. exists (- (top + t)).
  assert (borrow = - t) as -> by (destruct Ht1 as [-> | ->]; lia). nia.
Qed.

Lemma app_split_at {A} (l : list A) i : (i <= length l)%nat -> exists l1 l2, l = l1 ++ l2 /\ length l1 = i.
Proof. intros H. exists (take i l), (drop i l). by rewrite take_drop, length_take_le. Qed.

Lemma reduce_loop_ok MOD i : modulus MOD -> forall top X rest, words X -> length X = (i + 8)%nat ->
  0 <= top < 2 ^ 32 ->
  exists c rest', reduce_loop MOD i top (X ++ rest) = Ok (c ++ rest') /\ p256 c /\
    cong (val MOD) (val c) (val X + radix (i + 8) * top).
Proof.
  intros Hm. induction i as [|i IH]; intros top X rest W L Ht.
  - cbn [reduce_loop]. rewrite drop_0, take_0. destruct (reduce_step_ok MOD top X rest Hm (conj W L) Ht) as (c & E & P & V).
    rewrite E. cbn [obind app]. exists c, rest. done.
  - destruct (app_split_at X (S i)) as (pre & c1 & -> & Lp); [lia|]. rewrite length_app in L.
    apply words_app in W as [Wp Wc]. assert (p256 c1) as Pc by (split; [done|lia]).
    cbn [reduce_loop]. rewrite <- app_assoc, drop_app_length', take_app_length' by done.
    destruct (reduce_step_ok MOD top c1 rest Hm Pc Ht) as (c & E & P & V). rewrite E. cbn [obind].
    destruct P as [W L']. rewrite app_assoc.
    assert (length (pre ++ c) = i + 9)%nat as Lpc by (rewrite length_app; lia).
    destruct (app_split_at (pre ++ c) (i + 8)) as (X & ds & EX & LX); [lia|].
    assert (length ds = 1%nat) as Ld by (rewrite EX, length_app in Lpc; lia).
    destruct ds as [|d [|]]; try discriminate Ld.
    rewrite EX. assert (words (X ++ [d])) as WX by (rewrite <- EX; by apply words_app).
    apply words_app in WX as [WX Wd]. apply words_cons in Wd as [Hd _].
    replace (nth _ ((X ++ [d]) ++ rest) 0) with d.
    2:{ replace (S i + P256_NDIGITS - 1)%nat with (length X) by (rewrite LX; unfold P256_NDIGITS; lia).
        rewrite <- app_assoc. symmetry. apply nth_middle. }
    rewrite <- app_assoc. destruct (IH d X ([d] ++ rest) WX LX Hd) as (c' & rest' & E' & P' & V').
    exists c', rest'. split_and!; [exact E'|done|]. rewrite V'.
    replace (val X + radix (i + 8) * d) with (val (pre ++ c)) by (rewrite EX, val_app, LX; cbn [val]; lia).
    rewrite !val_app, Lp, V. replace (radix (S i + 8)) with (radix (S i) * 2 ^ 256) by (by rewrite radix_add).
    by replace (val pre + radix (S i) * (val c1 + 2 ^ 256 * top)) with
      (val pre + radix (S i) * val c1 + radix (S i) * 2 ^ 256 * top) by ring.
Qed.

(** [mulAdd] on the window of [tmp] at [i]: the digits before [i] stay, those
    after the window too. *)
Lemma on_tail_mulAdd a b i D rest : p256 a -> 0 <= b < 2 ^ 32 -> words D -> length D = (i + 8)%nat ->
  exists top D', on_tail i (mulAdd a b 0) (D ++ rest) = (top, D' ++ rest) /\ words D' /\
    length D' = (i + 8)%nat /\ 0 <= top < 2 ^ 32 /\
    val D' + radix (i + 8) * top = val D + radix i * (val a * b).
Proof.
  intros Pa Hb W L. destruct (app_split_at D i) as (pre & w & -> & Lp); [lia|]. rewrite length_app in L.
  apply words_app in W as [Wp Ww]. unfold on_tail. rewrite <- app_assoc, drop_app_length', take_app_length' by done.
  assert (p256 w) as Pw by (split; [done|lia]).
  destruct (mulAdd_ok a b w rest Pa Hb Pw) as (top & w' & -> & [Ww' Lw'] & Ht & V).
  exists top, (pre ++ w'). rewrite <- app_assoc. split_and!; try done; try lia.
  - by apply words_app.
  - rewrite length_app. lia.
  - rewrite !val_app, Lp, radix_add. change (radix 8) with (2 ^ 256).
    transitivity (val pre + radix i * (val w' + 2 ^ 256 * top)); [ring|]. rewrite V. ring.
Qed.

Lemma words_snoc D x : words D -> 0 <= x < 2 ^ 32 -> words (D ++ [x]).
Proof. intros W H. apply words_app. split; [done|]. apply words_cons. split; [done|constructor]. Qed.

(** Storing the top digit behind the digits computed. *)
Lemma insert_next D top m : length D = m -> forall k, (<[m := top]> (D ++ replicate (S k) 0)) = (D ++ [top]) ++ replicate k 0.
Proof. intros <- k. rewrite insert_app_r_alt, Nat.sub_diag by lia. simpl. by rewrite <- app_assoc. Qed.

Lemma mul_loop_ok a bs : p256 a -> forall i top D k, words bs -> words D -> length D = (i + 7)%nat ->
  0 <= top < 2 ^ 32 -> (i = 0%nat -> top = 0) ->
  exists top' D', mul_loop a bs i top (D ++ replicate (length bs + k) 0) = (top', D' ++ replicate k 0) /\
    words D' /\ length D' = (i + 7 + length bs)%nat /\ 0 <= top' < 2 ^ 32 /\
    val D' + radix (i + 7 + length bs) * top' = val D + radix (i + 7) * top + radix i * (val a * val bs).
Proof.
  intros Pa. induction bs as [|b bs IH]; intros i top D k Wb WD LD Ht H0.
  - exists top, D. cbn [mul_loop length val]. rewrite Nat.add_0_l, !Nat.add_0_r. split_and!; try done; lia.
  - apply words_cons in Wb as [Hb Wb]. cbn [mul_loop length]. cbv zeta.
    assert ((if (i =? 0)%nat then D ++ replicate (S (length bs) + k) 0
      else <[(i + P256_NDIGITS - 1)%nat := top]> (D ++ replicate (S (length bs) + k) 0)) =
      (D ++ [top]) ++ replicate (length bs + k) 0) as ->.
    { destruct (Nat.eqb_spec i 0) as [->|].
      - rewrite H0 by done. cbn [replicate Nat.add]. by rewrite <- app_assoc.
      - apply insert_next. unfold P256_NDIGITS. lia. }
    destruct (on_tail_mulAdd a b i (D ++ [top]) (replicate (length bs + k) 0) Pa Hb)
      as (t & D1 & -> & W1 & L1 & Ht1 & V1).
    { by apply words_snoc. }
    { rewrite length_app. simpl. lia. }
    destruct (IH (S i) t D1 k Wb W1) as (t' & D' & -> & W' & L' & Ht' & V'); [lia|done|done|].
    exists t', D'. replace (i + 7 + S (length bs))%nat with (S i + 7 + length bs)%nat by lia.
    split_and!; [done|done|done|lia|lia|]. rewrite V'. replace (S i + 7)%nat with (i + 8)%nat by lia. rewrite V1.
    rewrite val_app, LD, radix_S. cbn [val]. ring.
Qed.

Lemma modmul_ok MOD a top_b b : modulus MOD -> p256 a -> p256 b -> 0 <= top_b < 2 ^ 32 ->
  exists c, p256_modmul MOD a top_b b = Ok c /\ p256 c /\
    val c = val a * (val b + 2 ^ 256 * top_b) mod val MOD.
Proof.
  intros Hm Pa [Wb Lb] Ht. pose proof (modulus_range _ Hm) as Rm. unfold p256_modmul.
  destruct (mul_loop_ok a b Pa 0 0 (replicate 7 0) 2 Wb (words_zeros 7) eq_refl ltac:(lia) (fun _ => eq_refl))
    as (top & D & E & WD & LD & Htop & V).
  rewrite Lb in E, LD, V. change (replicate 7 0 ++ replicate (8 + 2) 0) with (replicate (P256_NDIGITS * 2 + 1) 0) in E.
  rewrite E. change (P256_NDIGITS * 2 - 1)%nat with 15%nat. rewrite insert_next by done.
  destruct (on_tail_mulAdd a top_b 8 (D ++ [top]) (replicate 1 0) Pa Ht) as (t & D1 & E1 & W1 & L1 & Ht1 & V1).
  { by apply words_snoc. }
  { rewrite length_app, LD. done. }
  change P256_NDIGITS with 8%nat. rewrite E1.
  destruct (reduce_loop_ok MOD 8 Hm t D1 (replicate 1 0) W1 L1 Ht1) as (c & rest & -> & Pc & Vc). cbn [obind].
  pose proof (p256_range _ Pc). destruct Hm as [Pm _].
  destruct (reduce_once MOD c rest Pm Pc ltac:(lia)) as (r & Er & Pr & Vr).
  destruct (subM MOD 0 (c ++ rest) (u32 (-1))) as [mask tmp]. destruct (addM MOD 0 tmp mask) as [t' out].
  cbn [snd] in Er. subst out. exists r. rewrite take_app_length' by (symmetry; apply Pr).
  split_and!; [done|done|]. rewrite Vr. apply cong_mod; [lia|]. rewrite Vc, V1, val_app, LD.
  rewrite val_zeros in V. cbn [val].
  replace (val D + radix (0 + 7 + 8) * (top + 2 ^ 32 * 0)) with (val a * val b) by (rewrite radix_0 in V; lia).
  change (radix 8) with (2 ^ 256). by replace (val a * val b + 2 ^ 256 * (val a * top_b)) with
    (val a * (val b + 2 ^ 256 * top_b)) by ring.
Qed.

(** ** Inversion *)

Section Inverse.

Variable MOD : p256_int.
Hypothesis Hmod : p256 MOD.
Hypothesis Hodd : Z.even (val MOD) = false.
Notation N := (val MOD).
Notation "x == y" := (cong N x y) (at level 70).

(** A coefficient: a number below the modulus. *)
Definition coeff (x : p256_int) : Prop := p256 x /\ val x < N.

Lemma sub_mod_ok x y : coeff x -> coeff y -> coeff (sub_mod MOD x y) /\ val (sub_mod MOD x y) = (val x - val y) mod N.
Proof.
  intros [Px Hx] [Py Hy]. unfold sub_mod. pose proof (p256_range _ Px). pose proof (p256_range _ Py).
  destruct (p256_sub_ok x y Px Py) as (borrow & d & -> & Pd & Hb & E). pose proof (p256_range _ Pd).
  assert (borrow = -1 \/ borrow = 0) as [-> | ->] by lia; cbn [Z.eqb].
  - destruct (p256_add_ok d MOD Pd Hmod) as (carry & c & -> & Pc & Hc & E'). cbn [snd].
    pose proof (p256_range _ Pc). assert (val c = val x - val y + N) as Ec by lia.
    split; [split; [done|lia]|]. apply Z.mod_unique with (q := -1); lia.
  - split; [split; [done|lia]|]. rewrite Z.mod_small by lia. lia.
Qed.

Lemma halve_ok R : coeff R -> coeff (halve MOD R) /\ 2 * val (halve MOD R) == val R.
Proof.
  intros [PR HR]. unfold halve. rewrite p256_is_even_ok by done. pose proof (p256_range _ PR).
  destruct (Z.even (val R)) eqn:He.
  - destruct (p256_shr1_ok R 0 PR ltac:(lia) He) as [P E]. split; [split; [done|lia]|].
    exists 0. lia.
  - destruct (p256_add_ok R MOD PR Hmod) as (carry & s & -> & Ps & Hc & E).
    assert (Z.even (val s) = true) as Hs.
    { replace (val s) with (val R + N - 2 ^ 256 * carry) by lia.
      rewrite Z.even_sub, Z.even_add, He, Hodd, Z.even_mul. done. }
    destruct (p256_shr1_ok s carry Ps ltac:(lia) Hs) as [P E2]. split; [split; [done|lia]|].
    exists 1. lia.
Qed.

Lemma cancel_2 x y : 2 * x == 2 * y -> x == y.
Proof.
  apply cong_cancel. apply Zgcd_1_rel_prime, rel_prime_sym, prime_rel_prime; [apply prime_2|].
  intros [q E]. rewrite E, Z.even_mul, orb_comm in Hodd. done.
Qed.

(** The state of the loop: [R] and [S] are quotients of [U] and [V] by [a], and
    [U] and [V] have no common divisor. *)
Record bezout (a : Z) (R S U V : p256_int) : Prop := {
  bz_R : coeff R; bz_S : coeff S; bz_U : p256 U; bz_V : p256 V;
  bz_posU : 0 < val U; bz_posV : 0 < val V;
  bz_eqU : val R * a == val U; bz_eqV : val S * a == val V;
  bz_gcd : Z.gcd (val U) (val V) = 1
}.

Definition both_odd (U V : Z) : bool := negb (Z.even U) && negb (Z.even V).

(** Iterations left: two per bit, one more before a subtraction. *)
Definition steps_left (U V : Z) : Z := 2 * (Z.log2 U + Z.log2 V) + if both_odd U V then 2 else 1.

Lemma half_pos U : 0 < U -> Z.even U = true -> exists h, U = 2 * h /\ 0 < h /\ Z.log2 U = Z.log2 h + 1.
Proof.
  intros HU He. apply Z.even_spec in He as [h ->]. exists h. split; [done|]. split; [lia|].
  rewrite Z.log2_double by lia. lia.
Qed.

Lemma gcd_half h V : Z.gcd (2 * h) V = 1 -> Z.gcd h V = 1.
Proof.
  intros E. apply Z.gcd_unique; [lia|apply Z.divide_1_l..|]. intros q Hq1 Hq2. rewrite <- E.
  apply Z.gcd_greatest; [by apply Z.divide_mul_r|done].
Qed.

Lemma bezout_sym a R S U V : bezout a R S U V -> bezout a S R V U.
Proof. intros []. split; try done. by rewrite Z.gcd_comm. Qed.

Lemma bezout_halve a R S U V : bezout a R S U V -> Z.even (val U) = true ->
  bezout a (halve MOD R) S (p256_shr1 U 0) V /\ 2 * val (p256_shr1 U 0) = val U.
Proof.
  intros [HR HS PU PV pU pV eU eV g] EU. destruct (half_pos _ pU EU) as (h & Eh & Hh & _).
  destruct (p256_shr1_ok U 0 PU ltac:(lia) EU) as [P1 E1]. assert (val (p256_shr1 U 0) = h) as E1' by lia.
  destruct (halve_ok R HR) as [HR' ER]. split; [|lia].
  split; try done; rewrite ?E1'; [lia| |rewrite Eh in g; by apply gcd_half].
  apply cancel_2. by rewrite Z.mul_assoc, ER, eU, Eh.
Qed.

Lemma bezout_sub a R S U V : bezout a R S U V -> val U < val V ->
  exists D, p256_sub V U = (0, D) /\ val D = val V - val U /\ bezout a R (sub_mod MOD S R) U D.
Proof.
  intros [HR HS PU PV pU pV eU eV g] Hlt. pose proof (p256_range _ PU). pose proof (p256_range _ PV).
  destruct (p256_sub_ok V U PV PU) as (borrow & D & -> & PD & Hb & E). pose proof (p256_range _ PD).
  assert (borrow = 0) as -> by lia. destruct (sub_mod_ok S R HS HR) as [HS' ES]. pose proof (p256_range _ Hmod).
  exists D. split_and!; [done|lia|]. split; try done; [lia| |].
  - rewrite ES, cong_mod_l by (destruct HR as [PR ?]; pose proof (p256_range _ PR); lia).
    rewrite Z.mul_sub_distr_r, eU, eV. by replace (val D) with (val V - val U) by lia.
  - replace (val D) with (val V + -1 * val U) by lia. by rewrite Z.gcd_add_mult_diag_r.
Qed.

Lemma both_odd_bound U V : 1 <= (if both_odd U V then 2 else 1) <= 2.
Proof. destruct (both_odd U V); lia. Qed.

(** A step that halves [U], and one that subtracts an odd number from an odd
    one, make the bound smaller. *)
Lemma steps_half U V h : 0 < h -> U = 2 * h -> steps_left h V < steps_left U V.
Proof.
  intros Hh ->. unfold steps_left. rewrite Z.log2_double by lia.
  pose proof (both_odd_bound h V). pose proof (both_odd_bound (2 * h) V). lia.
Qed.

Lemma steps_sub U V : both_odd U V = true -> U < V -> 0 < U -> steps_left U (V - U) < steps_left U V.
Proof.
  intros Ho Hlt HU. unfold steps_left. rewrite Ho.
  assert (both_odd U (V - U) = false) as ->.
  { unfold both_odd in *. apply andb_true_iff in Ho as [H1 H2]. rewrite Z.even_sub.
    by destruct (Z.even U), (Z.even V). }
  pose proof (Z.log2_le_mono (V - U) V ltac:(lia)). lia.
Qed.

Lemma steps_sym U V : steps_left U V = steps_left V U.
Proof. unfold steps_left, both_odd. rewrite andb_comm. destruct (_ && _); lia. Qed.

Lemma modinv_loop_ok a fuel : forall R S U V, bezout a R S U V -> steps_left (val U) (val V) <= Z.of_nat fuel ->
  exists r, modinv_loop fuel MOD R S U V = Ok r /\ coeff r /\ val r * a == 1.
Proof.
  induction fuel as [|fuel IH]; intros R S U V B Hf; pose proof B as [HR HS PU PV pU pV eU eV g].
  { unfold steps_left in Hf. pose proof (Z.log2_nonneg (val U)). pose proof (Z.log2_nonneg (val V)).
    pose proof (both_odd_bound (val U) (val V)). lia. }
  cbn [modinv_loop]. rewrite !p256_is_even_ok by done.
  destruct (Z.even (val U)) eqn:EU; [|destruct (Z.even (val V)) eqn:EV].
  - destruct (bezout_halve _ _ _ _ _ B EU) as [B' E]. apply IH; [done|].
    pose proof (steps_half (val U) (val V) _ (bz_posU _ _ _ _ _ B') ltac:(lia)). lia.
  - destruct (bezout_halve _ _ _ _ _ (bezout_sym _ _ _ _ _ B) EV) as [B' E]. apply IH; [by apply bezout_sym|].
    rewrite steps_sym in Hf |- *.
    pose proof (steps_half (val V) (val U) _ (bz_posU _ _ _ _ _ B') ltac:(lia)). lia.
  - assert (both_odd (val U) (val V) = true) as Ho by (unfold both_odd; by rewrite EU, EV).
    destruct (Z.lt_trichotomy (val U) (val V)) as [Hlt|[Heq|Hlt]].
    + destruct (bezout_sub _ _ _ _ _ B Hlt) as (D & -> & ED & B'). cbn [Z.eqb].
      rewrite p256_is_zero_ok, ED by apply B'. replace (val V - val U =? 0) with false by lia.
      apply IH; [done|]. rewrite ED. pose proof (steps_sub _ _ Ho Hlt pU). lia.
    + destruct (p256_sub_ok V U PV PU) as (borrow & D & -> & PD & Hb & E). pose proof (p256_range _ PD).
      assert (borrow = 0 /\ val D = 0) as [-> ED] by lia. cbn [Z.eqb]. rewrite p256_is_zero_ok, ED by apply PD.
      exists R. split_and!; [done|done|]. rewrite eU. rewrite <- Heq, Z.gcd_diag in g.
      by replace (val U) with 1 by lia.
    + destruct (bezout_sub _ _ _ _ _ (bezout_sym _ _ _ _ _ B) Hlt) as (D & E & ED & B').
      destruct (p256_sub_ok V U PV PU) as (borrow & D' & -> & PD & Hb & Eb). pose proof (p256_range _ PD).
      assert (borrow = -1) as -> by (pose proof (p256_range _ PV); lia). cbn [Z.eqb]. rewrite E.
      apply IH; [by apply bezout_sym|]. rewrite steps_sym, ED. rewrite steps_sym in Hf.
      assert (both_odd (val V) (val U) = true) as Ho' by (unfold both_odd; by rewrite EU, EV).
      pose proof (steps_sub _ _ Ho' Hlt pV). lia.
Qed.

Lemma modinv_ok a : p256 a -> 0 < val a -> Z.gcd (val a) N = 1 -> 1 < N ->
  exists b, p256_modinv_vartime MOD a = Ok b /\ p256 b /\ val b < N /\ val a * val b mod N = 1.
Proof.
  intros Pa Ha g HN. unfold p256_modinv_vartime.
  pose proof (p256_range _ Pa). pose proof (p256_range _ Hmod).
  assert (bezout (val a) P256_ZERO P256_ONE MOD a) as B.
  { split; try done; try lia.
    - split; [split; [apply words_zeros|done]|]. unfold P256_ZERO. rewrite val_zeros. lia.
    - split; [split; [repeat constructor; lia|done]|]. done.
    - exists (-1). unfold P256_ZERO. rewrite val_zeros. ring.
    - exists 0. change (val P256_ONE) with 1. ring.
    - by rewrite Z.gcd_comm. }
  destruct (modinv_loop_ok _ modinv_fuel _ _ _ _ B) as (r & -> & [Pr Hr] & E).
  { unfold steps_left. pose proof (both_odd_bound N (val a)).
    pose proof (Z.log2_lt_pow2 N 256 ltac:(lia)). pose proof (Z.log2_lt_pow2 (val a) 256 ltac:(lia)).
    unfold modinv_fuel. lia. }
  cbn [obind]. destruct (p256_mod_ok MOD r Hmod Pr ltac:(lia)) as [Pb Eb]. pose proof (p256_range _ Pr).
  rewrite Z.mod_small in Eb by lia. eexists. split_and!; [done|done|lia|]. rewrite Eb, Z.mul_comm.
  rewrite <- (Z.mod_small 1 N) by lia. apply cong_mod; [lia|done].
Qed.

End Inverse.

(** ** Points *)

Lemma SECP256r1_p_modulus : modulus SECP256r1_p.
Proof. split; [split; [repeat constructor; vm_compute; done|done]|vm_compute; discriminate]. Qed.

Lemma SECP256r1_n_modulus : modulus SECP256r1_n.
Proof. split; [split; [repeat constructor; vm_compute; done|done]|vm_compute; discriminate]. Qed.

Lemma SECP256r1_b_p256 : p256 SECP256r1_b.
Proof. split; [repeat constructor; vm_compute; done|done]. Qed.

(** The field prime and the coefficient of the curve. *)
Definition prime_p : Z := 2 ^ 256 - 2 ^ 224 + 2 ^ 192 + 2 ^ 96 - 1.
Definition curve_b : Z := 0x5ac635d8aa3a93e7b3ebbd55769886bc651d06b0cc53b0f63bce3c3e27d2604b.

Lemma val_p : val SECP256r1_p = prime_p.
Proof. vm_compute. reflexivity. Qed.

Lemma val_b : val SECP256r1_b = curve_b.
Proof. vm_compute. reflexivity. Qed.

Definition on_curve (x y : Z) : Prop :=
  0 < x < prime_p /\ 0 < y < prime_p /\ y ^ 2 mod prime_p = (x ^ 3 - 3 * x + curve_b) mod prime_p.

(** [x^3 - 3x] modulo the prime, as the code computes it. *)
Lemma cubic_ok x : coeff SECP256r1_p x ->
  exists x2 x3, p256_modmul SECP256r1_p x 0 x = Ok x2 /\ p256_modmul SECP256r1_p x 0 x2 = Ok x3 /\
    let x3 := sub_mod SECP256r1_p x3 x in
    let x3 := sub_mod SECP256r1_p x3 x in
    let x3 := sub_mod SECP256r1_p x3 x in
    coeff SECP256r1_p x3 /\ val x3 = (val x ^ 3 - 3 * val x) mod prime_p.
Proof.
  intros Hx. pose proof Hx as [Px _]. pose proof SECP256r1_p_modulus as Hm. pose proof (modulus_range _ Hm) as Hp.
  destruct (modmul_ok _ x 0 x Hm Px Px ltac:(lia)) as (x2 & E2 & P2 & V2).
  destruct (modmul_ok _ x 0 x2 Hm Px P2 ltac:(lia)) as (x3 & E3 & P3 & V3). exists x2, x3.
  split; [done|]. split; [done|].
  assert (coeff SECP256r1_p x3) as C3 by (split; [done|]; rewrite V3; apply Z.mod_pos_bound; lia).
  pose proof (proj1 Hm) as Pm.
  destruct (sub_mod_ok _ Pm x3 x C3 Hx) as [C4 V4].
  destruct (sub_mod_ok _ Pm _ x C4 Hx) as [C5 V5].
  destruct (sub_mod_ok _ Pm _ x C5 Hx) as [C6 V6]. cbv zeta. split; [done|].
  rewrite V6, V5, V4, V3, V2, val_p. rewrite val_p in Hp. apply cong_mod; [lia|].
  rewrite !cong_mod_l by lia. rewrite !Z.mul_0_r, !Z.add_0_r.
  by replace (val x ^ 3 - 3 * val x) with (val x * (val x * val x) - val x - val x - val x) by ring.
Qed.

(** The code does not reduce [x^3 - 3x + b] when it is not below [p] but fits
    256 bits: it then differs from any reduced number. *)
Lemma curve_sum t y2 : 0 <= t < prime_p -> 0 <= y2 < prime_p ->
  (t + curve_b < 2 ^ 256 ->
    (y2 = t + curve_b <-> y2 = (t + curve_b) mod prime_p /\ 2 ^ 256 - prime_p <= y2)) /\
  (2 ^ 256 <= t + curve_b ->
    (y2 = t + curve_b - prime_p <-> y2 = (t + curve_b) mod prime_p /\ 2 ^ 256 - prime_p <= y2)).
Proof.
  intros Ht Hy. assert (2 ^ 256 - prime_p <= curve_b < prime_p) as Hb by (vm_compute; split; [discriminate|reflexivity]).
  assert (prime_p < 2 ^ 256) as Hp by (vm_compute; reflexivity).
  destruct (Z.lt_ge_cases (t + curve_b) prime_p) as [Hs|Hs].
  - rewrite Z.mod_small by lia. lia.
  - assert ((t + curve_b) mod prime_p = t + curve_b - prime_p) as ->
      by (symmetry; apply Z.mod_unique with (q := 1); lia). lia.
Qed.

Lemma valid_point_ok x y : p256 x -> p256 y ->
  exists r, p256_is_valid_point x y = Ok r /\
    (r = true <-> on_curve (val x) (val y) /\ 2 ^ 256 - prime_p <= val y ^ 2 mod prime_p).
Proof.
  intros Px Py. pose proof SECP256r1_p_modulus as Hm. pose proof (proj1 Hm) as Pm.
  pose proof (modulus_range _ Hm) as Hp. rewrite val_p in Hp.
  unfold p256_is_valid_point. rewrite !p256_cmp_ok, !p256_is_zero_ok, val_p by (done || apply Px || apply Py).
  pose proof (p256_range _ Px). pose proof (p256_range _ Py).
  destruct (decide (0 < val x < prime_p /\ 0 < val y < prime_p)) as [[Hx Hy]|Hn].
  2:{ exists false. split; [|unfold on_curve; split; [done|tauto]].
      destruct (Z.ltb_spec prime_p (val x)), (Z.eqb_spec prime_p (val x)), (Z.ltb_spec prime_p (val y)),
        (Z.eqb_spec prime_p (val y)), (Z.eqb_spec (val x) 0), (Z.eqb_spec (val y) 0); try done; lia. }
  rewrite !(proj2 (Z.ltb_ge prime_p _)), !(proj2 (Z.eqb_neq prime_p _)), !(proj2 (Z.eqb_neq _ 0)) by lia.
  cbn [Z.leb Z.compare orb].
  destruct (modmul_ok _ y 0 y Hm Py Py ltac:(lia)) as (y2 & -> & P2 & V2). cbn [obind].
  destruct (cubic_ok x) as (x2 & x3 & -> & E3 & [[P6 H6] V6]); [split; [done|rewrite val_p; lia]|].
  cbn [obind]. rewrite E3. cbn [obind]. cbv zeta in *. set (t := sub_mod _ (sub_mod _ (sub_mod _ x3 x) x) x) in *.
  rewrite Z.mul_0_r, Z.add_0_r, val_p, <- Z.pow_2_r in V2. rewrite val_p in H6.
  destruct (p256_add_ok t SECP256r1_b P6 SECP256r1_b_p256) as (carry & s & -> & Ps & Hc & Es).
  rewrite val_b in Es. pose proof (p256_range _ P6). pose proof (p256_range _ Ps).
  assert (0 <= val y ^ 2 mod prime_p < prime_p) as Hy2 by (apply Z.mod_pos_bound; lia).
  assert ((val x ^ 3 - 3 * val x + curve_b) mod prime_p = (val t + curve_b) mod prime_p) as Ef
    by (rewrite V6; symmetry; apply Zplus_mod_idemp_l).
  destruct (curve_sum (val t) (val y ^ 2 mod prime_p)) as [Hlo Hhi]; [lia|done|].
  eexists. split; [reflexivity|]. unfold on_curve. rewrite Ef.
  assert (forall c, p256 c -> (p256_cmp y2 c =? 0) = true <-> val y ^ 2 mod prime_p = val c) as Hcmp.
  { intros c Pc. rewrite p256_cmp_ok, V2 by done.
    destruct (Z.ltb_spec (val y ^ 2 mod prime_p) (val c)), (Z.eqb_spec (val y ^ 2 mod prime_p) (val c));
      split; intros; try done; try lia. }
  assert (carry = 0 \/ carry = 1) as [-> | ->] by lia; cbn [Z.eqb Pos.eqb].
  - rewrite Hcmp by done. replace (val s) with (val t + curve_b) by lia. rewrite Hlo by lia. tauto.
  - destruct (p256_sub_ok s SECP256r1_p Ps Pm) as (borrow & d & -> & Pd & Hb & Ed). cbn [snd].
    rewrite val_p in Ed. pose proof (p256_range _ Pd). rewrite Hcmp by done.
    assert (curve_b < prime_p) by (vm_compute; reflexivity).
    assert (borrow = -1) as -> by lia. replace (val d) with (val t + curve_b - prime_p) by lia.
    rewrite Hhi by lia. tauto.
Qed.

(** ** Theorems *)

(** C6: for a modulus whose highest digit is all ones, as both constants of the
    curve, [p256_modmul] fails none of its assertions and returns
    [a * (top_b | b)] modulo it, reduced, whatever [a], [b] and [top_b]. *)
Theorem p256_modmul_correct MOD a top_b b : modulus MOD -> p256 a -> p256 b -> 0 <= top_b < 2 ^ 32 ->
  exists c, p256_modmul MOD a top_b b = Ok c /\ p256 c /\
    val c = val a * (val b + 2 ^ 256 * top_b) mod val MOD.
Proof. apply modmul_ok. Qed.

(** C7: for an odd modulus and a number prime to it, the binary gcd of
    [p256_modinv_vartime] ends, within two iterations per bit of its operands,
    and returns the inverse below the modulus. *)
Theorem p256_modinv_vartime_inverts MOD a : p256 MOD -> Z.even (val MOD) = false -> 1 < val MOD ->
  p256 a -> 0 < val a -> Z.gcd (val a) (val MOD) = 1 ->
  exists b, p256_modinv_vartime MOD a = Ok b /\ p256 b /\ val b < val MOD /\ val a * val b mod val MOD = 1.
Proof. intros Pm Ho HN Pa Ha g. by apply modinv_ok. Qed.

(** C37: [p256_is_valid_point] accepts exactly the points of the curve whose
    [y^2] modulo [p] is at least [2^256 - p]: the sum with [b] is reduced only
    when it overflows 256 bits, so that the points with a smaller square are
    refused. *)
Theorem p256_is_valid_point_exact x y : p256 x -> p256 y ->
  exists r, p256_is_valid_point x y = Ok r /\
    (r = true <-> on_curve (val x) (val y) /\ 2 ^ 256 - prime_p <= val y ^ 2 mod prime_p).
Proof. apply valid_point_ok. Qed.

(** the single-pass routines compute what their comments say: the sum and
    the difference with the carry or borrow, the comparison, the test for zero,
    and the shifts by less than a digit with the bits shifted out. *)
Theorem p256_digit_routines a b n : p256 a -> p256 b -> 0 < n < 32 ->
  let '(carry, s) := p256_add a b in
  let '(borrow, d) := p256_sub a b in
  (p256 s /\ 0 <= carry <= 1 /\ val s + 2 ^ 256 * carry = val a + val b) /\
  (p256 d /\ -1 <= borrow <= 0 /\ val d + 2 ^ 256 * borrow = val a - val b) /\
  p256_cmp a b = (if val a <? val b then -1 else if val a =? val b then 0 else 1) /\
  p256_is_zero a = (val a =? 0) /\
  (exists c, p256_shr a n = Ok c /\ p256 c /\ val c = val a / 2 ^ n) /\
  (exists top c, p256_shl a n = Ok (top, c) /\ p256 c /\ val c + 2 ^ 256 * top = val a * 2 ^ n).
Proof.
  intros Pa Pb Hn.
  destruct (p256_add_ok a b Pa Pb) as (carry & s & -> & Ps & Hc & Es).
  destruct (p256_sub_ok a b Pa Pb) as (borrow & d & -> & Pd & Hb & Ed).
  split_and!; try done; try lia; [by apply p256_cmp_ok|apply p256_is_zero_ok, Pa|by apply shr_ok|by apply shl_ok].
Qed.

(** *** Instances *)

Lemma p256_to_digits z : p256 (to_digits 8 z).
Proof. split; [apply words_to_digits|apply length_to_digits]. Qed.

Lemma p256_modmul_correct_witness :
  exists c, p256_modmul SECP256r1_p (to_digits 8 (2 ^ 255 + 7)) 5 (to_digits 8 (3 ^ 150)) = Ok c /\ p256 c /\
    val c = (2 ^ 255 + 7) * (3 ^ 150 + 2 ^ 256 * 5) mod prime_p.
Proof.
  destruct (p256_modmul_correct SECP256r1_p (to_digits 8 (2 ^ 255 + 7)) 5 (to_digits 8 (3 ^ 150))
    SECP256r1_p_modulus (p256_to_digits _) (p256_to_digits _)) as (c & E & P & V); [done|].
  exists c. split; [exact E|]. split; [exact P|]. rewrite V. vm_compute. reflexivity.
Defined.

Lemma SECP256r1_n_odd : Z.even (val SECP256r1_n) = false.
Proof. reflexivity. Qed.

Lemma SECP256r1_n_big : 1 < val SECP256r1_n.
Proof. reflexivity. Qed.

Lemma gcd_12345 : Z.gcd (val (to_digits 8 12345)) (val SECP256r1_n) = 1.
Proof. vm_compute. reflexivity. Qed.

Lemma p256_modinv_vartime_inverts_witness :
  exists b, p256_modinv_vartime SECP256r1_n (to_digits 8 12345) = Ok b /\ p256 b /\ val b < val SECP256r1_n /\
    val (to_digits 8 12345) * val b mod val SECP256r1_n = 1.
Proof.
  exact (p256_modinv_vartime_inverts SECP256r1_n (to_digits 8 12345) (proj1 SECP256r1_n_modulus)
    SECP256r1_n_odd SECP256r1_n_big (p256_to_digits _) eq_refl gcd_12345).
Defined.

(** A point of the curve with [y] 1. *)
Definition low_point : Z := 0x8d0177ebab9c6e9e10db6dd095dbac0d6375e8a97b70f611875d877f0069d2c7.

Lemma p256_is_valid_point_exact_witness :
  p256_is_valid_point (to_digits 8 low_point) (to_digits 8 1) = Ok false /\ on_curve low_point 1.
Proof.
  assert (on_curve low_point 1) as Hc by (vm_compute; auto).
  split; [|exact Hc].
  destruct (p256_is_valid_point_exact (to_digits 8 low_point) (to_digits 8 1)
    (p256_to_digits _) (p256_to_digits _)) as (r & E & H).
  destruct r; [|exact E]. destruct (proj1 H eq_refl) as [_ Hlow]. by vm_compute in Hlow.
Defined.

Lemma p256_digit_routines_witness :
  p256_cmp (to_digits 8 (2 ^ 200)) (to_digits 8 (2 ^ 201)) = -1.
Proof.
  pose proof (p256_digit_routines (to_digits 8 (2 ^ 200)) (to_digits 8 (2 ^ 201)) 7
    (p256_to_digits _) (p256_to_digits _) ltac:(lia)) as H.
  destruct (p256_add _ _), (p256_sub _ _). destruct H as (_ & _ & H & _). rewrite H. vm_compute. reflexivity.
Defined.

(** The base point of the curve is accepted; a point of the curve whose [y]
    is 1 is refused; and a shift by a multiple of the digit width, which the
    header allows, shifts a digit by its width, which C leaves undefined. *)
Theorem p256_corner_cases :
  p256_is_valid_point
    (to_digits 8 0x6b17d1f2e12c4247f8bce6e563a440f277037d812deb33a0f4a13945d898c296)
    (to_digits 8 0x4fe342e2fe1a7f9b8ee7eb4a7c0f9e162bce33576b315ececbb6406837bf51f5) = Ok true /\
  p256_is_valid_point (to_digits 8 low_point) (to_digits 8 1) = Ok false /\
  1 ^ 2 mod prime_p = (low_point ^ 3 - 3 * low_point + curve_b) mod prime_p /\
  p256_shl (to_digits 8 1) 32 = UB /\ p256_shr (to_digits 8 1) 0 = UB.
Proof. split_and!; vm_compute; reflexivity. Qed.
