(* ===== verification/DsaSig.v ===== *)
(** * Unpacking DSA signatures

    Model of core/libmincrypt/dsa_sig.c: the DER sequence of the two integers of
    an ECDSA signature, read from a buffer of [sig_len] bytes. A read past the
    buffer is undefined behaviour. *)

From S2P Require Import Prelude Words P256.

#[local] Open Scope Z_scope.
#[local] Open Scope c_scope.

(** ** The code *)

(** [sig[i]]. *)
Definition byte_at (sig : list byte) (i : Z) : outcome Z :=
  match sig !! Z.to_nat i with Some b => Ok (byte.unsigned b) | None => UB end.

(** The loop of [trim_to_p256_bytes]; [src] is the buffer from the pointer on.
    The byte is read before the length is tested. *)
Fixpoint trim_loop (src : list byte) (src_len : Z) : outcome (list byte * Z) :=
  match src with
  | [] => UB
  | b :: src' =>
      if (byte.unsigned b =? 0) && (0 <? src_len) then trim_loop src' (src_len - 1)
      else Ok (src, src_len)
  end.

(** The 32 bytes, or nothing for the result 0. *)
Definition trim_to_p256_bytes (src : list byte) (src_len : Z) : outcome (option (list byte)) :=
  do! (src, src_len) := trim_loop src src_len in
  if (Z.of_nat P256_NBYTES <? src_len) || (src_len <? 1) then Ok None
  else
    let dst_offset := Z.of_nat P256_NBYTES - src_len in
    Ok (Some (replicate (Z.to_nat dst_offset) Byte.x00 ++ take (Z.to_nat src_len) src)).

(** The two integers, or nothing for the result 0. *)
Definition dsa_sig_unpack (sig : list byte) (sig_len : Z) : outcome (option (p256_int * p256_int)) :=
  if sig_len <? 8 then Ok None else
  do! sig0 := byte_at sig 0 in
  if negb (sig0 =? 0x30) then Ok None else
  do! sig2 := byte_at sig 2 in
  if negb (sig2 =? 0x02) then Ok None else
  do! seq_len := byte_at sig 1 in
  if (seq_len <=? 0) || negb (seq_len + 2 =? sig_len) then Ok None else
  do! r_len := byte_at sig 3 in
  if (r_len <? 1) || (seq_len - 5 <? r_len) then Ok None else
  do! sig_r := byte_at sig (4 + r_len) in
  if negb (sig_r =? 0x02) then Ok None else
  do! s_len := byte_at sig (5 + r_len) in
  if (s_len <? 1) || negb (s_len =? seq_len - 4 - r_len) then Ok None else
  do! r_bytes := trim_to_p256_bytes (drop 4 sig) r_len in
  match r_bytes with
  | None => Ok None
  | Some r_bytes =>
      do! s_bytes := trim_to_p256_bytes (drop (Z.to_nat (6 + r_len)) sig) s_len in
      match s_bytes with
      | None => Ok None
      | Some s_bytes => Ok (Some (p256_from_bin r_bytes, p256_from_bin s_bytes))
      end
  end.

(** ** Integers *)

Lemma be_words_ok k l : length l = (4 * k)%nat ->
  words (rev (be_words l)) /\ length (rev (be_words l)) = k /\ val (rev (be_words l)) = be_val l.
Proof.
  revert l. induction k as [|k IH]; intros l Hl.
  - apply nil_length_inv in Hl as ->. split_and!; [constructor|done..].
  - destruct l as [|b0 [|b1 [|b2 [|b3 l]]]]; simpl in Hl; try lia.
    destruct (IH l ltac:(lia)) as (W & L & E). cbn [be_words rev]. split_and!.
    + apply words_app. split; [done|]. apply words_cons. split; [apply be_word_range|constructor].
    + rewrite length_app, L. simpl. lia.
    + rewrite val_app, L, E. change (b0 :: b1 :: b2 :: b3 :: l) with ([b0; b1; b2; b3] ++ l).
      rewrite be_val_app, be_word_val. cbn [val]. unfold radix.
      replace (8 * Z.of_nat (length l)) with (32 * Z.of_nat k) by lia. ring.
Qed.

Lemma p256_from_bin_ok l : length l = 32%nat ->
  words (p256_from_bin l) /\ length (p256_from_bin l) = 8%nat /\ val (p256_from_bin l) = be_val l.
Proof. intros Hl. unfold p256_from_bin. rewrite take_ge by (rewrite Hl; done). by apply be_words_ok. Qed.

(** The leading zeros of [bs] are skipped; when there is nothing else, the loop
    goes on to read the byte behind. *)
Lemma trim_loop_ok bs rest :
  (be_val bs = 0 /\ trim_loop (bs ++ rest) (Z.of_nat (length bs)) = match rest with [] => UB | _ => Ok (rest, 0) end) \/
  (exists b bs', trim_loop (bs ++ rest) (Z.of_nat (length bs)) = Ok (b :: bs' ++ rest, Z.of_nat (length (b :: bs'))) /\
    be_val bs = be_val (b :: bs') /\ 0 < byte.unsigned b).
Proof.
  induction bs as [|b bs IH].
  - left. split; [done|]. destruct rest as [|c rest]; [done|]. cbn [app trim_loop length].
    rewrite andb_false_r. done.
  - pose proof (byte.unsigned_range b). cbn [app trim_loop length].
    rewrite (proj2 (Z.ltb_lt 0 (Z.of_nat (S (length bs))))) by lia. rewrite andb_true_r.
    destruct (Z.eqb_spec (byte.unsigned b) 0) as [E|E].
    + replace (Z.of_nat (S (length bs)) - 1) with (Z.of_nat (length bs)) by lia.
      rewrite be_val_cons, E, Z.mul_0_l, Z.add_0_l. exact IH.
    + right. exists b, bs. split_and!; [done|done|lia].
Qed.

Lemma be_val_zeros n l : be_val (replicate n Byte.x00 ++ l) = be_val l.
Proof. induction n as [|n IH]; [done|]. cbn [replicate app]. by rewrite be_val_cons, IH. Qed.

Lemma trim_ok bs rest :
  let t := trim_to_p256_bytes (bs ++ rest) (Z.of_nat (length bs)) in
  match t with
  | Ok (Some l) => length l = 32%nat /\ be_val l = be_val bs /\ 0 < be_val bs < 2 ^ 256
  | Ok None => be_val bs = 0 /\ rest <> [] \/ 2 ^ 256 <= be_val bs
  | UB => be_val bs = 0 /\ rest = []
  | _ => False
  end.
Proof.
  cbv zeta. unfold trim_to_p256_bytes.
  destruct (trim_loop_ok bs rest) as [[H0 ->]|(b & bs' & -> & Hv & Hb)].
  - destruct rest; cbn [obind]; [done|]. by left.
  - cbn [obind]. pose proof (be_val_range bs') as Hr. rewrite be_val_cons in Hv. rewrite Hv.
    assert (2 ^ (8 * Z.of_nat (length bs')) <= be_val bs) as Hge by nia. rewrite Hv in Hge.
    change (Z.of_nat P256_NBYTES) with 32. set (m := Z.of_nat (length (b :: bs'))) in *.
    assert (m = Z.of_nat (length bs') + 1) as Hm by (subst m; simpl; lia).
    rewrite (proj2 (Z.ltb_ge m 1)) by lia. rewrite orb_false_r. destruct (Z.ltb_spec 32 m) as [Hl|Hl].
    + right. etransitivity; [|exact Hge]. apply Z.pow_le_mono_r; lia.
    + replace (take _ _) with (b :: bs')
        by (subst m; rewrite Nat2Z.id; change (b :: bs' ++ rest) with ((b :: bs') ++ rest); by rewrite take_app_length).
      split_and!; [rewrite length_app, length_replicate; simpl length; lia|by rewrite be_val_zeros, be_val_cons|..].
      * lia.
      * pose proof (be_val_range (b :: bs')) as Hx. rewrite be_val_cons in Hx.
        eapply Z.lt_le_trans; [apply Hx|]. apply (Z.pow_le_mono_r 2 _ 256); [lia|]. simpl length. lia.
Qed.

(** ** The sequence *)

(** A sequence of two integers with the contents [rb] and [sb]. *)
Definition der_sig (rb sb : list byte) : list byte :=
  [Byte.x30; byte.of_Z (Z.of_nat (4 + length rb + length sb)); Byte.x02; byte.of_Z (Z.of_nat (length rb))] ++ rb ++
  [Byte.x02; byte.of_Z (Z.of_nat (length sb))] ++ sb.

(** Its lengths have the short form. *)
Definition der_ok (rb sb : list byte) : Prop :=
  (1 <= length rb)%nat /\ (1 <= length sb)%nat /\ (4 + length rb + length sb < 256)%nat.

Lemma unsigned_of_nat n : (n < 256)%nat -> byte.unsigned (byte.of_Z (Z.of_nat n)) = Z.of_nat n.
Proof. intros H. rewrite byte.unsigned_of_Z. apply Z.mod_small. lia. Qed.

Lemma byte_at_app sig l b r i : sig = l ++ b :: r -> i = Z.of_nat (length l) -> byte_at sig i = Ok (byte.unsigned b).
Proof. intros -> ->. unfold byte_at. rewrite Nat2Z.id. by rewrite list_lookup_middle. Qed.

Lemma byte_is b z : byte.unsigned b = z -> b = byte.of_Z z.
Proof. intros <-. by rewrite byte.of_Z_unsigned. Qed.

(** On a sequence, the code comes down to its two integers. *)
Lemma unpack_der rb sb : der_ok rb sb ->
  dsa_sig_unpack (der_sig rb sb) (Z.of_nat (length (der_sig rb sb))) =
  (do! r := trim_to_p256_bytes (rb ++ [Byte.x02; byte.of_Z (Z.of_nat (length sb))] ++ sb) (Z.of_nat (length rb)) in
   match r with
   | None => Ok None
   | Some r =>
       do! s := trim_to_p256_bytes (sb ++ []) (Z.of_nat (length sb)) in
       match s with None => Ok None | Some s => Ok (Some (p256_from_bin r, p256_from_bin s)) end
   end).
Proof.
  intros (Hr & Hs & Hl). rewrite app_nil_r. unfold dsa_sig_unpack.
  assert (Z.of_nat (length (der_sig rb sb)) = Z.of_nat (length rb) + Z.of_nat (length sb) + 6) as ->
    by (unfold der_sig; rewrite !length_app; simpl length; lia).
  set (n := Z.of_nat (length rb)). set (m := Z.of_nat (length sb)).
  rewrite (proj2 (Z.ltb_ge (n + m + 6) 8)) by lia.
  change (byte_at (der_sig rb sb) 0) with (@Ok Z 0x30). change (byte_at (der_sig rb sb) 2) with (@Ok Z 0x02).
  change (byte_at (der_sig rb sb) 1) with (Ok (byte.unsigned (byte.of_Z (Z.of_nat (4 + length rb + length sb))))).
  change (byte_at (der_sig rb sb) 3) with (Ok (byte.unsigned (byte.of_Z (Z.of_nat (length rb))))).
  rewrite !unsigned_of_nat by lia. cbn [obind Z.eqb Pos.eqb negb]. fold n.
  rewrite (proj2 (Z.leb_gt _ 0)), (proj2 (Z.eqb_eq _ (n + m + 6))) by lia. cbn [negb orb].
  rewrite (proj2 (Z.ltb_ge n 1)), (proj2 (Z.ltb_ge _ n)) by lia. cbn [orb].
  set (h := [Byte.x30; byte.of_Z (Z.of_nat (4 + length rb + length sb)); Byte.x02; byte.of_Z n]).
  rewrite (byte_at_app _ (h ++ rb) Byte.x02 (byte.of_Z m :: sb) (4 + n))
    by (first [by rewrite <- app_assoc | rewrite length_app; subst h; simpl length; lia]).
  rewrite (byte_at_app _ (h ++ rb ++ [Byte.x02]) (byte.of_Z m) sb (5 + n))
    by (first [by rewrite <- !app_assoc | rewrite !length_app; subst h; simpl length; lia]).
  assert (byte.unsigned (byte.of_Z m) = m) as -> by (apply unsigned_of_nat; lia).
  cbn [obind Z.eqb Pos.eqb negb].
  rewrite (proj2 (Z.ltb_ge m 1)), (proj2 (Z.eqb_eq m _)) by lia. cbn [negb orb].
  replace (drop 4 (der_sig rb sb)) with (rb ++ [Byte.x02; byte.of_Z m] ++ sb) by done.
  replace (drop (Z.to_nat (6 + n)) (der_sig rb sb)) with sb; [done|].
  replace (Z.to_nat (6 + n)) with (4 + (length rb + 2))%nat by lia. rewrite <- drop_drop.
  change (drop 4 (der_sig rb sb)) with (rb ++ [Byte.x02; byte.of_Z m] ++ sb). rewrite <- drop_drop.
  by rewrite drop_app_length.
Qed.

(** Whatever is not a sequence of this form is refused. *)
Lemma unpack_other sig : (exists rb sb, der_ok rb sb /\ sig = der_sig rb sb) \/
  dsa_sig_unpack sig (Z.of_nat (length sig)) = Ok None.
Proof.
  destruct (decide (length sig < 8)%nat) as [Hn|Hn].
  { right. unfold dsa_sig_unpack. by rewrite (proj2 (Z.ltb_lt _ 8)) by lia. }
  destruct sig as [|b0 [|b1 [|b2 [|b3 t]]]]; simpl in Hn; try lia.
  set (sig := b0 :: b1 :: b2 :: b3 :: t). set (r := Z.to_nat (byte.unsigned b3)).
  pose proof (byte.unsigned_range b1). pose proof (byte.unsigned_range b3).
  unfold dsa_sig_unpack. rewrite (proj2 (Z.ltb_ge _ 8)) by (simpl; lia).
  change (byte_at sig 0) with (Ok (byte.unsigned b0)). change (byte_at sig 1) with (Ok (byte.unsigned b1)).
  change (byte_at sig 2) with (Ok (byte.unsigned b2)). change (byte_at sig 3) with (Ok (byte.unsigned b3)).
  cbn [obind].
  destruct (Z.eqb_spec (byte.unsigned b0) 0x30) as [E0|]; [|by right]. cbn [negb].
  destruct (Z.eqb_spec (byte.unsigned b2) 0x02) as [E2|]; [|by right]. cbn [negb].
  destruct (Z.leb_spec (byte.unsigned b1) 0) as [|E1]; [by right|]. cbn [orb].
  destruct (Z.eqb_spec (byte.unsigned b1 + 2) (Z.of_nat (length sig))) as [El|]; [|by right]. cbn [negb].
  destruct (Z.ltb_spec (byte.unsigned b3) 1) as [|E3]; [by right|]. cbn [orb].
  destruct (Z.ltb_spec (byte.unsigned b1 - 5) (byte.unsigned b3)) as [|E3']; [by right|].
  assert (length t + 2 = Z.to_nat (byte.unsigned b1))%nat as Lt by (subst sig; simpl in El; lia).
  destruct (drop r t) as [|c0 [|c1 sb]] eqn:Ed;
    try (apply (f_equal length) in Ed; rewrite length_drop in Ed; simpl in Ed; lia).
  pose proof (take_drop r t) as Et. rewrite Ed in Et. set (rb := take r t) in *.
  assert (length rb = r) as Lr by (unfold rb; rewrite length_take; lia).
  assert (length t = r + 2 + length sb)%nat as Lt' by (rewrite <- Et, length_app, Lr; simpl; lia).
  rewrite (byte_at_app sig ([b0; b1; b2; b3] ++ rb) c0 (c1 :: sb) (4 + byte.unsigned b3))
    by (first [subst sig; by rewrite <- Et, <- app_assoc | rewrite length_app, Lr; simpl length; lia]).
  rewrite (byte_at_app sig ([b0; b1; b2; b3] ++ rb ++ [c0]) c1 sb (5 + byte.unsigned b3))
    by (first [subst sig; by rewrite <- Et, <- !app_assoc | rewrite !length_app, Lr; simpl length; lia]).
  cbn [obind]. destruct (Z.eqb_spec (byte.unsigned c0) 0x02) as [Ec|]; [|by right]. cbn [negb].
  destruct (Z.ltb_spec (byte.unsigned c1) 1) as [|Es]; [by right|]. cbn [orb].
  destruct (Z.eqb_spec (byte.unsigned c1) (byte.unsigned b1 - 4 - byte.unsigned b3)) as [Es'|]; [|by right].
  left. exists rb, sb. split; [split_and!; lia|]. unfold der_sig. subst sig. rewrite <- Et. cbn [app].
  rewrite (byte_is b0 0x30), (byte_is b2 0x02), (byte_is c0 0x02) by done.
  rewrite (byte_is b1 (Z.of_nat (4 + length rb + length sb))), (byte_is b3 (Z.of_nat (length rb))),
    (byte_is c1 (Z.of_nat (length sb))) by lia.
  done.
Qed.

(** ** Theorems *)

Definition in_range (l : list byte) : Prop := 0 < be_val l < 2 ^ 256.

(** C36: what [dsa_sig_unpack] does with every buffer: it returns the integers of
    the sequence when it is one of two integers from 1 to [2^256 - 1], however
    many zeros lead them; it reads the byte behind the buffer exactly when the
    first integer is in that range and the second is zero; and it refuses
    everything else, the first integer out of range or the second too large. *)
Theorem dsa_sig_unpack_exact sig :
  match dsa_sig_unpack sig (Z.of_nat (length sig)) with
  | Ok (Some (r, s)) => exists rb sb, der_ok rb sb /\ sig = der_sig rb sb /\ in_range rb /\ in_range sb /\
      (words r /\ length r = 8%nat /\ val r = be_val rb) /\ (words s /\ length s = 8%nat /\ val s = be_val sb)
  | Ok None => forall rb sb, der_ok rb sb -> sig = der_sig rb sb -> ~ (in_range rb /\ be_val sb < 2 ^ 256)
  | UB => exists rb sb, der_ok rb sb /\ sig = der_sig rb sb /\ in_range rb /\ be_val sb = 0
  | _ => False
  end.
Proof.
  assert (forall rb sb, der_ok rb sb -> sig = der_sig rb sb ->
    match dsa_sig_unpack sig (Z.of_nat (length sig)) with
    | Ok (Some (r, s)) => in_range rb /\ in_range sb /\
        (words r /\ length r = 8%nat /\ val r = be_val rb) /\ (words s /\ length s = 8%nat /\ val s = be_val sb)
    | Ok None => ~ (in_range rb /\ be_val sb < 2 ^ 256)
    | UB => in_range rb /\ be_val sb = 0
    | _ => False
    end) as H.
  { intros rb sb Hok ->. rewrite unpack_der by done. unfold in_range.
    pose proof (trim_ok rb ([Byte.x02; byte.of_Z (Z.of_nat (length sb))] ++ sb)) as Hr.
    pose proof (trim_ok sb []) as Hs. cbv zeta in Hr, Hs.
    destruct (trim_to_p256_bytes (rb ++ _) _) as [[l|]| | |]; cbn [obind]; [|naive_solver lia|by destruct Hr..].
    destruct (trim_to_p256_bytes (sb ++ []) _) as [[k|]| | |]; cbn [obind]; [|naive_solver lia|tauto|by destruct Hs..].
    destruct Hr as (Ll & El & Rl), Hs as (Lk & Ek & Rk). rewrite <- El, <- Ek.
    split_and!; try lia; by apply p256_from_bin_ok. }
  destruct (unpack_other sig) as [(rb & sb & Hok & E)|E].
  - pose proof (H rb sb Hok E) as H1.
    destruct (dsa_sig_unpack sig _) as [[[r s]|]| | |] eqn:Eu; [by eauto 10| |by eauto 10|done|done].
    intros rb' sb' Hok' E'. by apply (H rb' sb').
  - rewrite E in H |- *. exact H.
Qed.

(** a signature with [r] 1 and [s] 0 makes the code read past the buffer,
    though the same signature with [s] 1 is unpacked. *)
Theorem dsa_sig_unpack_over_read :
  dsa_sig_unpack (der_sig [Byte.x01] [Byte.x00]) 8 = UB /\
  dsa_sig_unpack (der_sig [Byte.x01] [Byte.x01]) 8 = Ok (Some (P256_ONE, P256_ONE)).
Proof. split; reflexivity. Qed.
