(* ===== verification/Hashmap.v ===== *)
(** * Hash maps (core/libcutils/hashmap.c)

    A chained hash table on an explicit C heap.  An address is an integer, NULL
    is 0, a [void*] key or value is any integer.  The table struct, its array of
    buckets and its entries are heap objects; the objects of the client, among
    them what keys point to, are of a type [X] the map never looks into.  The
    two function pointers of a map are the instance of [KeyFns].  Locking is
    left out: the model runs one thread. *)

From S2P Require Import Prelude.

#[local] Open Scope Z_scope.
#[local] Open Scope c_scope.

(** ** The heap *)

Record Entry : Type := MkEntry { e_key : Z; e_hash : Z; e_value : Z; e_next : Z }.
Record Hashmap : Type := MkHashmap { buckets : Z; bucketCount : Z; map_size : Z }.

Inductive obj (X : Type) : Type :=
| OEntry (e : Entry)
| OBuckets (ps : list Z)
| OMap (m : Hashmap)
| OClient (x : X).
Arguments OEntry {X} e.
Arguments OBuckets {X} ps.
Arguments OMap {X} m.
Arguments OClient {X} x.

(** [ticks] counts the allocations tried, so that an allocator may answer
    differently each time. *)
Record heap (X : Type) : Type := Heap { cells : gmap Z (obj X); ticks : Z; errno : Z }.
Arguments Heap {X} cells ticks errno.
Arguments cells {X} h.
Arguments ticks {X} h.
Arguments errno {X} h.

(** [malloc h n]: the address of [n] new bytes, or NULL. *)
Class Allocator (X : Type) : Type := {
  malloc : heap X -> Z -> Z;
  malloc_range : forall h n, 0 <= malloc h n < 2 ^ 64;
  malloc_fresh : forall h n, malloc h n <> 0 -> cells h !! malloc h n = None
}.

(** The [hash] and [equals] pointers of a map. *)
Class KeyFns (X : Type) : Type := {
  hash : Z -> M (heap X) Z;
  equals : Z -> Z -> M (heap X) bool
}.

Definition set_cells {X} (h : heap X) (c : gmap Z (obj X)) : heap X := Heap c (ticks h) (errno h).
Definition set_errno {X} (e : Z) : M (heap X) unit := fun h => Ok (tt, Heap (cells h) (ticks h) e).

Definition load {X} (a : Z) : M (heap X) (obj X) := fun h =>
  match cells h !! a with Some o => Ok (o, h) | None => UB end.
Definition store {X} (a : Z) (o : obj X) : M (heap X) unit := fun h =>
  match cells h !! a with Some _ => Ok (tt, set_cells h (<[a := o]> (cells h))) | None => UB end.
Definition free {X} (a : Z) : M (heap X) unit := fun h =>
  if a =? 0 then Ok (tt, h)
  else match cells h !! a with
       | Some _ => Ok (tt, set_cells h (delete a (cells h)))
       | None => UB
       end.

(** An allocation of [n] bytes for the object [o]; a failure sets [errno]. *)
Definition alloc {X} `{Allocator X} (n : Z) (o : obj X) : M (heap X) Z := fun h =>
  let a := malloc h n in
  if a =? 0 then Ok (0, Heap (cells h) (ticks h + 1) ENOMEM)
  else Ok (a, Heap (<[a := o]> (cells h)) (ticks h + 1) (errno h)).

Definition load_entry {X} (a : Z) : M (heap X) Entry :=
  let! o := load a in match o with OEntry e => ret e | _ => undef end.
Definition load_map {X} (a : Z) : M (heap X) Hashmap :=
  let! o := load a in match o with OMap m => ret m | _ => undef end.
Definition load_buckets {X} (a : Z) : M (heap X) (list Z) :=
  let! o := load a in match o with OBuckets ps => ret ps | _ => undef end.

(** The object an [Entry**] points to: an element of an array of buckets, or the
    [next] field of an entry. *)
Inductive slot : Type :=
| Bucket (a : Z) (i : Z)
| Next (e : Z).

Definition read_slot {X} (p : slot) : M (heap X) Z :=
  match p with
  | Bucket a i =>
    let! ps := load_buckets a in
    match ps !! Z.to_nat i with Some q => ret q | None => undef end
  | Next e => let! c := load_entry e in ret (e_next c)
  end.

Definition set_next (c : Entry) (q : Z) : Entry := MkEntry (e_key c) (e_hash c) (e_value c) q.
Definition set_value (c : Entry) (v : Z) : Entry := MkEntry (e_key c) (e_hash c) v (e_next c).
Definition set_size (m : Hashmap) (n : Z) : Hashmap := MkHashmap (buckets m) (bucketCount m) n.

Definition write_slot {X} (p : slot) (q : Z) : M (heap X) unit :=
  match p with
  | Bucket a i =>
    let! ps := load_buckets a in
    if (Z.to_nat i <? length ps)%nat then store a (OBuckets (<[Z.to_nat i := q]> ps)) else undef
  | Next e => let! c := load_entry e in store e (OEntry (set_next c q))
  end.

(** Fuel for a walk along a chain: no acyclic chain is longer than the heap. *)
Definition walk_fuel {X} : M (heap X) nat := gets (fun h => S (size (cells h))).

(** [for (i = ...; n times; i++) body] *)
Fixpoint for_loop {S : Type} (n : nat) (i : Z) (body : Z -> M S unit) : M S unit :=
  match n with
  | O => ret tt
  | Datatypes.S n => body i ;;! for_loop n (i + 1) body
  end.

(** Sizes of the structs on a 64-bit host. *)
Definition sizeof_Entry : Z := 32.
Definition sizeof_Hashmap : Z := 80.
Definition sizeof_ptr : Z := 8.

(** [calloc(n, sizeof(Entry* ))]: fails when the product overflows. *)
Definition calloc_buckets {X} `{Allocator X} (n : Z) : M (heap X) Z :=
  if 2 ^ 64 <=? n * sizeof_ptr then fun h => Ok (0, Heap (cells h) (ticks h + 1) ENOMEM)
  else alloc (n * sizeof_ptr) (OBuckets (replicate (Z.to_nat n) 0)).

(** ** Operations *)

Section Ops.
Context {X : Type} `{Allocator X} `{KeyFns X}.
Notation MH := (M (heap X)).

(** [while (map->bucketCount <= minimumBucketCount) map->bucketCount <<= 1;] *)
Fixpoint create_loop (fuel : nat) (minimumBucketCount count : Z) : outcome Z :=
  match fuel with
  | O => NoFuel
  | S fuel =>
    if count <=? minimumBucketCount
    then create_loop fuel minimumBucketCount (u64 (Z.shiftl count 1))
    else Ok count
  end.

Definition hashmapCreate (initialCapacity : Z) : MH Z :=
  let! map := alloc sizeof_Hashmap (OMap (MkHashmap 0 0 0)) in
  if map =? 0 then ret 0
  else
    let minimumBucketCount := u64 (initialCapacity * 4) / 3 in
    let! count := lift (create_loop 65 minimumBucketCount 1) in
    let! bs := calloc_buckets count in
    if bs =? 0 then free map ;;! ret 0
    else store map (OMap (MkHashmap bs count 0)) ;;! ret map.

(** The secondary hash of [hashKey]; signed arithmetic wraps. *)
Definition spread (h : Z) : Z :=
  let h := i32 (h + Z.lnot (i32 (Z.shiftl h 9))) in
  let h := i32 (Z.lxor (u32 h) (Z.shiftr (u32 h) 14)) in
  let h := i32 (h + i32 (Z.shiftl h 4)) in
  i32 (Z.lxor (u32 h) (Z.shiftr (u32 h) 10)).

Definition hashKey (key : Z) : MH Z := let! h := hash key in ret (spread h).

Definition hashmapSize (map : Z) : MH Z := let! m := load_map map in ret (map_size m).

Definition calculateIndex (bucketCount hash : Z) : Z := Z.land (u64 hash) (u64 (bucketCount - 1)).

(** The chain that starts at [entry] goes to the new buckets, entry by entry. *)
Fixpoint move_chain (fuel : nat) (newBuckets newBucketCount entry : Z) : MH unit :=
  if entry =? 0 then ret tt
  else match fuel with
  | O => no_fuel
  | S fuel =>
    let! e := load_entry entry in
    let next := e_next e in
    let index := calculateIndex newBucketCount (e_hash e) in
    let! q := read_slot (Bucket newBuckets index) in
    write_slot (Next entry) q ;;!
    write_slot (Bucket newBuckets index) entry ;;!
    move_chain fuel newBuckets newBucketCount next
  end.

Definition expandIfNecessary (map : Z) : MH unit :=
  let! m := load_map map in
  if map_size m >? u64 (bucketCount m * 3) / 4 then
    let newBucketCount := u64 (Z.shiftl (bucketCount m) 1) in
    let! newBuckets := calloc_buckets newBucketCount in
    if newBuckets =? 0 then ret tt
    else
      for_loop (Z.to_nat (bucketCount m)) 0 (fun i =>
        let! entry := read_slot (Bucket (buckets m) i) in
        let! fuel := walk_fuel in
        move_chain fuel newBuckets newBucketCount entry) ;;!
      free (buckets m) ;;!
      store map (OMap (MkHashmap newBuckets newBucketCount (map_size m)))
  else ret tt.

Fixpoint free_chain (fuel : nat) (entry : Z) : MH unit :=
  if entry =? 0 then ret tt
  else match fuel with
  | O => no_fuel
  | S fuel =>
    let! e := load_entry entry in
    let next := e_next e in
    free entry ;;!
    free_chain fuel next
  end.

Definition hashmapFree (map : Z) : MH unit :=
  let! m := load_map map in
  for_loop (Z.to_nat (bucketCount m)) 0 (fun i =>
    let! entry := read_slot (Bucket (buckets m) i) in
    let! fuel := walk_fuel in
    free_chain fuel entry) ;;!
  free (buckets m) ;;!
  free map.

Definition createEntry (key hash value : Z) : MH Z :=
  alloc sizeof_Entry (OEntry (MkEntry key hash value 0)).

Definition equalKeys (keyA hashA keyB hashB : Z) : MH bool :=
  if keyA =? keyB then ret true
  else if negb (hashA =? hashB) then ret false
  else equals keyA keyB.

(** [map->size++] and [map->size--] *)
Definition add_size (map : Z) (d : Z) : MH unit :=
  let! m := load_map map in store map (OMap (set_size m (u64 (map_size m + d)))).

Fixpoint put_loop (fuel : nat) (map key hash value : Z) (p : slot) : MH Z :=
  let! current := read_slot p in
  if current =? 0 then
    let! e := createEntry key hash value in
    write_slot p e ;;!
    if e =? 0 then set_errno ENOMEM ;;! ret 0
    else add_size map 1 ;;! expandIfNecessary map ;;! ret 0
  else
    let! c := load_entry current in
    let! same := equalKeys (e_key c) (e_hash c) key hash in
    if (same : bool) then
      let oldValue := e_value c in
      store current (OEntry (set_value c value)) ;;!
      ret oldValue
    else match fuel with
    | O => no_fuel
    | S fuel => put_loop fuel map key hash value (Next current)
    end.

Definition hashmapPut (map key value : Z) : MH Z :=
  let! hash := hashKey key in
  let! m := load_map map in
  let index := calculateIndex (bucketCount m) hash in
  let! fuel := walk_fuel in
  put_loop fuel map key hash value (Bucket (buckets m) index).

(** The loop that [hashmapGet] and [hashmapContainsKey] share: the entry found. *)
Fixpoint find_loop (fuel : nat) (key hash entry : Z) : MH (option Entry) :=
  if entry =? 0 then ret None
  else match fuel with
  | O => no_fuel
  | S fuel =>
    let! e := load_entry entry in
    let! same := equalKeys (e_key e) (e_hash e) key hash in
    if (same : bool) then ret (Some e) else find_loop fuel key hash (e_next e)
  end.

Definition find_entry (map key : Z) : MH (option Entry) :=
  let! hash := hashKey key in
  let! m := load_map map in
  let index := calculateIndex (bucketCount m) hash in
  let! entry := read_slot (Bucket (buckets m) index) in
  let! fuel := walk_fuel in
  find_loop fuel key hash entry.

Definition hashmapGet (map key : Z) : MH Z :=
  let! e := find_entry map key in
  ret match e with Some e => e_value e | None => 0 end.

Definition hashmapContainsKey (map key : Z) : MH bool :=
  let! e := find_entry map key in ret (isSome e).

Fixpoint memoize_loop (fuel : nat) (map key hash : Z) (initialValue : Z -> MH Z) (p : slot) : MH Z :=
  let! current := read_slot p in
  if current =? 0 then
    let! e := createEntry key hash 0 in
    write_slot p e ;;!
    if e =? 0 then set_errno ENOMEM ;;! ret 0
    else
      let! value := initialValue key in
      let! q := read_slot p in
      let! c := load_entry q in
      store q (OEntry (set_value c value)) ;;!
      add_size map 1 ;;! expandIfNecessary map ;;! ret value
  else
    let! c := load_entry current in
    let! same := equalKeys (e_key c) (e_hash c) key hash in
    if (same : bool) then ret (e_value c)
    else match fuel with
    | O => no_fuel
    | S fuel => memoize_loop fuel map key hash initialValue (Next current)
    end.

Definition hashmapMemoize (map key : Z) (initialValue : Z -> MH Z) : MH Z :=
  let! hash := hashKey key in
  let! m := load_map map in
  let index := calculateIndex (bucketCount m) hash in
  let! fuel := walk_fuel in
  memoize_loop fuel map key hash initialValue (Bucket (buckets m) index).

Fixpoint remove_loop (fuel : nat) (map key hash : Z) (p : slot) : MH Z :=
  let! current := read_slot p in
  if current =? 0 then ret 0
  else
    let! c := load_entry current in
    let! same := equalKeys (e_key c) (e_hash c) key hash in
    if (same : bool) then
      let value := e_value c in
      write_slot p (e_next c) ;;!
      free current ;;!
      add_size map (-1) ;;!
      ret value
    else match fuel with
    | O => no_fuel
    | S fuel => remove_loop fuel map key hash (Next current)
    end.

Definition hashmapRemove (map key : Z) : MH Z :=
  let! hash := hashKey key in
  let! m := load_map map in
  let index := calculateIndex (bucketCount m) hash in
  let! fuel := walk_fuel in
  remove_loop fuel map key hash (Bucket (buckets m) index).

(** The object behind the [context] of a callback has type [A] and is threaded
    through the calls.  The loop along one chain: whether to go on. *)
Fixpoint each_entry {A} (fuel : nat) (callback : Z -> Z -> A -> MH (bool * A)) (entry : Z) (context : A)
    : MH (bool * A) :=
  if entry =? 0 then ret (true, context)
  else match fuel with
  | O => no_fuel
  | S fuel =>
    let! e := load_entry entry in
    let next := e_next e in
    let! (go, context) := callback (e_key e) (e_value e) context in
    if (go : bool) then each_entry fuel callback next context else ret (false, context)
  end.

Fixpoint each_bucket {A} (fuel : nat) (map : Z) (callback : Z -> Z -> A -> MH (bool * A)) (i : Z)
    (context : A) : MH A :=
  let! m := load_map map in
  if i <? bucketCount m then
    match fuel with
    | O => no_fuel
    | S fuel =>
      let! entry := read_slot (Bucket (buckets m) i) in
      let! n := walk_fuel in
      let! (go, context) := each_entry n callback entry context in
      if (go : bool) then each_bucket fuel map callback (i + 1) context else ret context
    end
  else ret context.

Definition hashmapForEach {A} (map : Z) (callback : Z -> Z -> A -> MH (bool * A)) (context : A) : MH A :=
  let! m := load_map map in
  each_bucket (Z.to_nat (bucketCount m)) map callback 0 context.

Definition hashmapCurrentCapacity (map : Z) : MH Z :=
  let! m := load_map map in ret (u64 (bucketCount m * 3) / 4).

Fixpoint count_chain (fuel : nat) (entry collisions : Z) : MH Z :=
  if entry =? 0 then ret collisions
  else match fuel with
  | O => no_fuel
  | S fuel =>
    let! e := load_entry entry in
    count_chain fuel (e_next e) (if e_next e =? 0 then collisions else u64 (collisions + 1))
  end.

Fixpoint count_buckets (n : nat) (bs i collisions : Z) : MH Z :=
  match n with
  | O => ret collisions
  | S n =>
    let! entry := read_slot (Bucket bs i) in
    let! fuel := walk_fuel in
    let! collisions := count_chain fuel entry collisions in
    count_buckets n bs (i + 1) collisions
  end.

Definition hashmapCountCollisions (map : Z) : MH Z :=
  let! m := load_map map in
  count_buckets (Z.to_nat (bucketCount m)) (buckets m) 0 0.
End Ops.

#[global] Arguments spread : simpl never.
#[global] Arguments calculateIndex : simpl never.

(** ** Key utilities *)

(** [h = h * 31 + *data] over the bytes of the key; whether [char] is signed is
    the platform's choice. *)
Definition char_val (char_signed : bool) (b : byte) : Z :=
  let z := byte.unsigned b in if char_signed && (128 <=? z) then z - 256 else z.

Definition hashmapHash (char_signed : bool) (data : list byte) (keySize : Z) : outcome Z :=
  if (Z.to_nat keySize <=? length data)%nat then
    Ok (foldl (fun h b => i32 (h * 31 + char_val char_signed b)) (i32 keySize) (take (Z.to_nat keySize) data))
  else UB.

(** Keys that point to integers. *)
Definition load_int (a : Z) : M (heap Z) Z :=
  let! o := load a in match o with OClient z => ret z | _ => undef end.
Definition hashmapIntHash (key : Z) : M (heap Z) Z := load_int key.
Definition hashmapIntEquals (keyA keyB : Z) : M (heap Z) bool :=
  let! a := load_int keyA in
  let! b := load_int keyB in
  ret (a =? b).

#[export] Instance int_keys : KeyFns Z := {| hash := hashmapIntHash; equals := hashmapIntEquals |}.
