(* ===== verification/HashmapProps.v ===== *)
(** * Hash maps refine finite maps

    What the client's functions promise about keys ([KeySpec]), what it means
    for a heap to hold a map ([table], [hashmap]), and that the operations of
    Hashmap.v act on it as the operations of a finite map do, touching nothing
    else on the heap. *)

From S2P Require Import Prelude Hashmap.

#[local] Open Scope Z_scope.
#[local] Open Scope c_scope.

(** ** The promise of [hash] and [equals]

    Keys are compared by what they point to: [key_of] is the content of a key
    object, [equals] decides equality of contents and [hash] depends on the
    content only. *)
Class KeySpec (X C : Type) `{KeyFns X} `{EqDecision C} : Type := {
  key_of : X -> option C;
  hash_of : C -> Z;
  hash_ok : forall h k x c,
    k <> 0 -> cells h !! k = Some (OClient x) -> key_of x = Some c -> hash k h = Ok (hash_of c, h);
  equals_ok : forall h k1 x1 c1 k2 x2 c2,
    cells h !! k1 = Some (OClient x1) -> key_of x1 = Some c1 ->
    cells h !! k2 = Some (OClient x2) -> key_of x2 = Some c2 ->
    equals k1 k2 h = Ok (bool_decide (c1 = c2), h)
}.

(** ** Lists of buckets *)

Lemma concat_perm {A} (l k : list (list A)) : l ≡ₚ k -> concat l ≡ₚ concat k.
Proof.
  induction 1; simpl; [done|by f_equiv| |by etrans].
  by rewrite !app_assoc, (Permutation_app_comm x y).
Qed.

Lemma concat_lookup {A} (bss : list (list A)) i xs :
  bss !! i = Some xs -> concat bss ≡ₚ xs ++ concat (delete i bss).
Proof. intros H. apply (concat_perm _ (xs :: delete i bss)). by apply delete_Permutation. Qed.

Lemma concat_insert {A} (bss : list (list A)) i xs :
  (i < length bss)%nat -> concat (<[i := xs]> bss) ≡ₚ xs ++ concat (delete i bss).
Proof.
  intros H. rewrite (concat_lookup _ i xs) by by apply list_lookup_insert_eq.
  f_equiv. by rewrite !delete_take_drop, take_insert_ge, drop_insert_lt by lia.
Qed.

Lemma concat_alter_cons {A} (bss : list (list A)) i x :
  (i < length bss)%nat -> concat (alter (cons x) i bss) ≡ₚ x :: concat bss.
Proof.
  intros [xs Hx]%lookup_lt_is_Some.
  rewrite (concat_lookup (alter _ _ _) i (x :: xs)) by by rewrite list_lookup_alter_eq, Hx.
  rewrite (concat_lookup bss i xs) by done. simpl. f_equiv. f_equiv. by rewrite !delete_take_drop, take_alter_ge, drop_alter_lt by lia.
Qed.

Lemma concat_replicate_nil {A} n : concat (replicate n ([] : list A)) = [].
Proof. induction n; simpl; auto. Qed.

Lemma elem_of_concat {A} (bss : list (list A)) x :
  x ∈ concat bss <-> exists ys, x ∈ ys /\ ys ∈ bss.
Proof.
  rewrite list_elem_of_In, in_concat. split; intros (ys & ? & ?); exists ys; by rewrite !list_elem_of_In in *.
Qed.

(** The number of distinct addresses. *)
Lemma addresses_bounded (l : list Z) n :
  0 < n -> NoDup l -> Forall (fun a => 0 < a < n) l -> Z.of_nat (length l) < n.
Proof.
  intros Hn Hd Hr. apply (Z.le_lt_trans _ (Z.of_nat (length (seqZ 1 (n - 1))))); [|rewrite length_seqZ; lia].
  apply inj_le, NoDup_incl_length; [by apply NoDup_ListNoDup|].
  intros a Ha%list_elem_of_In. apply list_elem_of_In. rewrite Forall_forall in Hr.
  apply elem_of_seqZ. specialize (Hr a Ha). lia.
Qed.

(** ** Indices *)

Lemma calculateIndex_pow2 k h :
  0 <= k -> 2 ^ k <= 2 ^ 61 -> calculateIndex (2 ^ k) h = u64 h mod 2 ^ k.
Proof.
  intros Hk Hb. unfold calculateIndex. pose proof (Z.pow_pos_nonneg 2 k ltac:(lia) Hk).
  rewrite (u64_small (2 ^ k - 1)) by lia.
  rewrite Z.sub_1_r, <- Z.ones_equiv. by apply Z.land_ones.
Qed.

#[local] Opaque spread calculateIndex.

(** ** Frames

    What is outside the footprint [F] of a structure before is outside its
    footprint [F'] after, and the same: nothing else is changed, and nothing is
    leaked. *)
Definition framed {X} (h : heap X) (F : list Z) (h' : heap X) (F' : list Z) : Prop :=
  forall a o, (cells h' !! a = Some o /\ a ∉ F') <-> (cells h !! a = Some o /\ a ∉ F).

Section Frames.
Context {X : Type}.
Implicit Types h : heap X.

Lemma framed_refl h F : framed h F h F.
Proof. done. Qed.

Lemma framed_trans h F h1 F1 h2 F2 :
  framed h F h1 F1 -> framed h1 F1 h2 F2 -> framed h F h2 F2.
Proof. intros A B a o. by rewrite (B a o), (A a o). Qed.

Lemma framed_perm h F h1 F1 F' F1' :
  F ≡ₚ F' -> F1 ≡ₚ F1' -> framed h F h1 F1 -> framed h F' h1 F1'.
Proof. intros P Q A a o. by rewrite <- P, <- Q. Qed.

Lemma framed_iff h F h1 F1 F1' :
  (forall a, a ∈ F1 <-> a ∈ F1') -> framed h F h1 F1 -> framed h F h1 F1'.
Proof. intros Q A a o. rewrite <- (A a o). by rewrite (Q a). Qed.

Lemma framed_cells h F h1 F1 h' :
  cells h1 = cells h' -> framed h F h1 F1 -> framed h F h' F1.
Proof. intros E A a o. by rewrite <- E. Qed.

Lemma framed_store h F a o :
  a ∈ F -> framed h F (set_cells h (<[a := o]> (cells h))) F.
Proof.
  intros Ha b o'. simpl. destruct (decide (a = b)) as [->|].
  - by split; intros [_ ?].
  - by rewrite lookup_insert_ne.
Qed.

Lemma framed_insert h F a o t e :
  cells h !! a = None -> framed h F (Heap (<[a := o]> (cells h)) t e) (a :: F).
Proof.
  intros Ha b o'. simpl. rewrite not_elem_of_cons. destruct (decide (a = b)) as [->|].
  - rewrite Ha. split; [by intros (_ & ? & _)|by intros [? _]].
  - rewrite lookup_insert_ne by done. naive_solver.
Qed.

Lemma framed_delete h F a :
  a ∉ F -> framed h (a :: F) (set_cells h (delete a (cells h))) F.
Proof.
  intros Ha b o'. simpl. rewrite not_elem_of_cons. destruct (decide (a = b)) as [->|].
  - rewrite lookup_delete_eq. naive_solver.
  - rewrite lookup_delete_ne by done. naive_solver.
Qed.

Lemma framed_within h h' F :
  (forall a, a ∉ F -> cells h' !! a = cells h !! a) -> framed h F h' F.
Proof. intros E a o. split; intros [Ho Ha]; split; try done; [by rewrite <- E|by rewrite E]. Qed.

Lemma framed_extend h F h' F' R : framed h F h' F' -> framed h (F ++ R) h' (F' ++ R).
Proof. intros A a o. specialize (A a o). rewrite !not_elem_of_app. tauto. Qed.

(** Objects outside the footprint stay. *)
Lemma framed_keeps h F h' F' a o :
  framed h F h' F' -> a ∉ F -> cells h !! a = Some o -> cells h' !! a = Some o.
Proof. intros A Ha Ho. by apply (A a o). Qed.

Lemma size_list_to_set_le (l : list Z) : (size (list_to_set l : gset Z) <= length l)%nat.
Proof.
  induction l as [|a l IH]; cbn [list_to_set length]; [by rewrite size_empty|].
  rewrite size_union_alt, size_singleton.
  assert ((size (list_to_set l ∖ {[a]} : gset Z) <= size (list_to_set l : gset Z))%nat) by (apply subseteq_size; set_solver).
  lia.
Qed.

(** Objects are counted by the footprints. *)
Lemma framed_size h F h' F' :
  framed h F h' F' -> NoDup F -> (forall a, a ∈ F -> is_Some (cells h !! a)) ->
  (size (cells h') + length F <= size (cells h) + length F')%nat.
Proof.
  intros A Hn HF. rewrite <- !size_dom.
  assert (Hin : list_to_set F ⊆ (dom (cells h) : gset Z)).
  { intros a Ha%elem_of_list_to_set. apply elem_of_dom. auto. }
  assert (Hout : (dom (cells h') : gset Z) ⊆ (dom (cells h) ∖ list_to_set F) ∪ list_to_set F').
  { intros a [o Ho]%elem_of_dom. destruct (decide (a ∈ F')) as [|Ha].
    - apply elem_of_union_r. by apply elem_of_list_to_set.
    - apply elem_of_union_l, elem_of_difference. rewrite elem_of_list_to_set.
      destruct (proj1 (A a o) (conj Ho Ha)) as [Ho' ?]. split; [|done]. apply elem_of_dom. by exists o. }
  apply subseteq_size in Hout. pose proof (subseteq_size _ _ Hin) as Hin'.
  rewrite size_union_alt, size_difference in Hout by done. rewrite (size_list_to_set F) in * by done.
  assert (Hs : (size (list_to_set F' ∖ (dom (cells h) ∖ list_to_set F) : gset Z) <= length F')%nat).
  { etrans; [apply subseteq_size, subseteq_difference_l; done|apply size_list_to_set_le]. }
  lia.
Qed.
End Frames.

(** ** Memory shortage

    [malloc] refuses in a heap with at most [k] objects more than [h]. *)
Definition short `{Allocator X} (h : heap X) (k : nat) : Prop :=
  exists h0 n, malloc h0 n = 0 /\ (size (cells h0) <= size (cells h) + k)%nat.

Lemma short_here `{Allocator X} (h h0 : heap X) n k :
  malloc h0 n = 0 -> (size (cells h0) <= size (cells h) + k)%nat -> short h k.
Proof. intros. by exists h0, n. Qed.

Lemma short_le `{Allocator X} (h h1 : heap X) k k1 :
  short h1 k1 -> (size (cells h1) + k1 <= size (cells h) + k)%nat -> short h k.
Proof. intros (h0 & n & Hm & Hs) Hk. exists h0, n. split; [done|lia]. Qed.

(** Membership in lists of addresses. *)
Ltac members := rewrite ?elem_of_cons, ?elem_of_app, ?elem_of_cons, ?elem_of_app, ?elem_of_cons, ?elem_of_nil; tauto.

(** ** Steps of the code *)

Section Steps.
Context {X : Type}.
Implicit Types h : heap X.

Lemma load_entry_ok h a e : cells h !! a = Some (OEntry e) -> load_entry a h = Ok (e, h).
Proof. intros E. unfold load_entry, bind, load. by rewrite E. Qed.

Lemma load_map_ok h a m : cells h !! a = Some (OMap m) -> load_map a h = Ok (m, h).
Proof. intros E. unfold load_map, bind, load. by rewrite E. Qed.

Lemma load_buckets_ok h a ps : cells h !! a = Some (OBuckets ps) -> load_buckets a h = Ok (ps, h).
Proof. intros E. unfold load_buckets, bind, load. by rewrite E. Qed.

Lemma read_next_ok h a e : cells h !! a = Some (OEntry e) -> read_slot (Next a) h = Ok (e_next e, h).
Proof. intros E. simpl. unfold bind. by rewrite (load_entry_ok _ _ _ E). Qed.

Lemma read_bucket_ok h a ps i q :
  cells h !! a = Some (OBuckets ps) -> ps !! Z.to_nat i = Some q -> read_slot (Bucket a i) h = Ok (q, h).
Proof. intros E Hq. simpl. unfold bind. rewrite (load_buckets_ok _ _ _ E). cbn [obind fst snd]. by rewrite Hq. Qed.

Lemma stored_ok h a o o' : cells h !! a = Some o' -> store a o h = Ok (tt, set_cells h (<[a := o]> (cells h))).
Proof. intros E. unfold store. by rewrite E. Qed.

Lemma freed_ok h a o : a <> 0 -> cells h !! a = Some o -> free a h = Ok (tt, set_cells h (delete a (cells h))).
Proof. intros Ha E. unfold free. rewrite (proj2 (Z.eqb_neq a 0) Ha). by rewrite E. Qed.

Lemma write_next_ok h a e q :
  cells h !! a = Some (OEntry e) ->
  write_slot (Next a) q h = Ok (tt, set_cells h (<[a := OEntry (Hashmap.set_next e q)]> (cells h))).
Proof.
  intros E. simpl. unfold bind. rewrite (load_entry_ok _ _ _ E). cbn [obind fst snd]. by eapply stored_ok.
Qed.

Lemma write_bucket_ok h a ps i q :
  cells h !! a = Some (OBuckets ps) -> (Z.to_nat i < length ps)%nat ->
  write_slot (Bucket a i) q h =
    Ok (tt, set_cells h (<[a := OBuckets (<[Z.to_nat i := q]> ps)]> (cells h))).
Proof.
  intros E Hi. simpl. unfold bind. rewrite (load_buckets_ok _ _ _ E). cbn [obind fst snd].
  rewrite (proj2 (Nat.ltb_lt _ _) Hi). by eapply stored_ok.
Qed.
End Steps.

(** One step of a sequence whose result [E] gives. *)
Ltac step E := rewrite (bind_Ok _ _ _ _ _ E); cbn beta.

(** ** Chains and tables *)

Section Tables.
Context {X C : Type} `{Allocator X} `{KeySpec X C} `{!Countable C}.
Implicit Types h : heap X.

(** What one entry holds, with the content of its key. *)
Record node : Type := Node { n_key : Z; n_content : C; n_value : Z }.

Definition n_hash (n : node) : Z := spread (hash_of (n_content n)).
Definition entry_of (n : node) (q : Z) : Entry := MkEntry (n_key n) (n_hash n) (n_value n) q.

Definition key_at h (k : Z) (c : C) : Prop :=
  exists x, (k <> 0 /\ cells h !! k = Some (OClient x)) /\ key_of x = Some c.

Fixpoint chain h (p : Z) (xs : list (Z * node)) : Prop :=
  match xs with
  | [] => p = 0
  | (a, n) :: xs =>
    p = a /\ a <> 0 /\ exists q, cells h !! a = Some (OEntry (entry_of n q)) /\ chain h q xs
  end.

Definition index_of (count : nat) (c : C) : nat :=
  Z.to_nat (calculateIndex (Z.of_nat count) (spread (hash_of c))).

(** The buckets [bss] of a table: which entries are in which chain, at which
    addresses. *)
Record table h (map bs : Z) (bss : list (list (Z * node))) : Prop := {
  t_map : cells h !! map =
    Some (OMap (MkHashmap bs (Z.of_nat (length bss)) (Z.of_nat (length (concat bss)))));
  t_null : map <> 0 /\ bs <> 0;
  t_chains : exists ps, cells h !! bs = Some (OBuckets ps) /\ Forall2 (chain h) ps bss;
  t_nodup : NoDup (concat bss).*1;
  t_range : Forall (fun a => 0 < a < 2 ^ 64) (concat bss).*1;
  t_count : (exists k, 0 <= k /\ Z.of_nat (length bss) = 2 ^ k) /\ Z.of_nat (length bss) * 8 < 2 ^ 64;
  t_index : forall i xs x, bss !! i = Some xs -> x ∈ xs -> index_of (length bss) (n_content x.2) = i;
  t_keys : forall x, x ∈ concat bss -> key_at h (n_key x.2) (n_content x.2);
  t_distinct : NoDup ((fun x => n_content x.2) <$> concat bss)
}.

(** The finite map a table stands for: from the content of a key to the pointer
    to the key that the table holds, and the value. *)
Definition pair_of (x : Z * node) : C * (Z * Z) := (n_content x.2, (n_key x.2, n_value x.2)).
Definition map_of (bss : list (list (Z * node))) : gmap C (Z * Z) :=
  list_to_map (pair_of <$> concat bss).

Definition footprint (map bs : Z) (bss : list (list (Z * node))) : list Z :=
  map :: bs :: (concat bss).*1.

(** [h] holds at [map] a hash map with the pairs of [m], in the cells [F]. *)
Definition hashmap h (map : Z) (m : gmap C (Z * Z)) (F : list Z) : Prop :=
  exists bs bss, table h map bs bss /\ m = map_of bss /\ F = footprint map bs bss.

(** *** Chains *)

Lemma chain_cells h p xs a n :
  chain h p xs -> (a, n) ∈ xs -> exists q, cells h !! a = Some (OEntry (entry_of n q)).
Proof.
  revert p. induction xs as [|[b n'] xs IH]; intros p Hc Hx; [by apply elem_of_nil in Hx|].
  destruct Hc as (-> & _ & q & Hb & Hc). apply elem_of_cons in Hx as [[= -> ->]|Hx]; eauto.
Qed.

Lemma chain_frame h h' p xs :
  (forall a, a ∈ xs.*1 -> cells h' !! a = cells h !! a) -> chain h p xs -> chain h' p xs.
Proof.
  revert p. induction xs as [|[a n] xs IH]; intros p Hf; simpl; [done|].
  intros (-> & Ha & q & Hq & Hc). split_and!; [done|done|]. exists q. split.
  - rewrite Hf; [done|]. simpl. by left.
  - apply IH; [|done]. intros b Hb. apply Hf. simpl. by right.
Qed.

Lemma chains_frame h h' ps bss :
  (forall a, a ∈ (concat bss).*1 -> cells h' !! a = cells h !! a) ->
  Forall2 (chain h) ps bss -> Forall2 (chain h') ps bss.
Proof.
  intros Hf Hc. induction Hc as [|p xs ps bss Hx Hc IH]; constructor.
  - eapply chain_frame; [|exact Hx]. intros a Ha. apply Hf. cbn [concat]. rewrite fmap_app, elem_of_app. by left.
  - apply IH. intros a Ha. apply Hf. cbn [concat]. rewrite fmap_app, elem_of_app. by right.
Qed.

Lemma chains_cells h ps bss a :
  Forall2 (chain h) ps bss -> a ∈ (concat bss).*1 -> exists e, cells h !! a = Some (OEntry e).
Proof.
  intros Hc ([b n] & -> & (xs & Hx & [i Hi]%list_elem_of_lookup)%elem_of_concat)%list_elem_of_fmap.
  destruct (Forall2_lookup_r _ _ _ _ _ Hc Hi) as (q & _ & Hq).
  destruct (chain_cells _ _ _ _ _ Hq Hx) as [r E]. eauto.
Qed.

Lemma chain_length h p xs : chain h p xs -> NoDup xs.*1 -> (length xs <= size (cells h))%nat.
Proof.
  intros Hc Hn. rewrite <- (length_fmap fst). rewrite <- size_dom.
  rewrite <- (size_list_to_set (C := gset Z)) by done.
  apply subseteq_size. intros a [ [b n] [-> Hx] ]%elem_of_list_to_set%list_elem_of_fmap.
  apply elem_of_dom. simpl. destruct (chain_cells _ _ _ _ _ Hc Hx) as [q E]. by rewrite E.
Qed.

(** Looking for a key in a chain. *)
Definition has (c : C) (x : Z * node) : Prop := n_content x.2 = c.
#[local] Instance has_dec c x : Decision (has c x).
Proof. unfold has. apply _. Defined.

Lemma equalKeys_ok h k c n q :
  key_at h k c -> key_at h (n_key n) (n_content n) ->
  equalKeys (e_key (entry_of n q)) (e_hash (entry_of n q)) k (spread (hash_of c)) h =
    Ok (bool_decide (n_content n = c), h).
Proof.
  intros (x & [_ Hk] & Hx) (y & [_ Hn] & Hy). unfold equalKeys, entry_of, n_hash. cbn [e_key e_hash].
  destruct (Z.eqb_spec (n_key n) k) as [E|].
  - rewrite E, Hk in Hn. injection Hn as <-. rewrite Hx in Hy. injection Hy as ->.
    by rewrite bool_decide_true.
  - destruct (Z.eqb_spec (spread (hash_of (n_content n))) (spread (hash_of c))) as [|Hh]; cbn [negb].
    + by eapply equals_ok.
    + rewrite bool_decide_false; [done|]. congruence.
Qed.

(** The code that walks a chain, from a slot to the entry with the key or to the
    end: [slot_of p pre] is where the walk along [pre] from the slot [p] ends. *)
Definition slot_of (p : slot) (pre : list (Z * node)) : slot :=
  match last pre with Some (a, _) => Next a | None => p end.
Definition head_of (xs : list (Z * node)) : Z := match xs with (a, _) :: _ => a | [] => 0 end.

Lemma chain_head h p xs : chain h p xs -> p = head_of xs.
Proof. destruct xs as [|[a n] xs]; simpl; [done|by intros [-> _]]. Qed.

Lemma slot_of_cons p a n pre : slot_of p ((a, n) :: pre) = slot_of (Next a) pre.
Proof.
  unfold slot_of. destruct pre as [|y pre]; [done|]. rewrite last_cons_cons.
  destruct (last (y :: pre)) eqn:E; [done|]. by apply last_None in E.
Qed.

Lemma read_slot_of h p q pre post :
  read_slot p h = Ok (q, h) -> chain h q (pre ++ post) ->
  read_slot (slot_of p pre) h = Ok (head_of post, h).
Proof.
  revert p q. induction pre as [|[a n] pre IH]; intros p q Hp Hc.
  - change (slot_of p []) with p. rewrite Hp. f_equal. f_equal. by eapply chain_head.
  - rewrite slot_of_cons. destruct Hc as (-> & Ha & q' & Hq & Hc). apply (IH _ q'); [|done].
    by rewrite (read_next_ok _ _ _ Hq).
Qed.

(** The first entry with content [c], if any. *)
Lemma chain_split c (xs : list (Z * node)) :
  (exists pre a n post, xs = pre ++ (a, n) :: post /\ Forall (fun x => n_content x.2 <> c) pre /\
     n_content n = c) \/
  Forall (fun x => n_content x.2 <> c) xs.
Proof.
  induction xs as [|[a n] xs IH]; [right; constructor|].
  destruct (decide (n_content n = c)) as [E|E].
  - left. exists [], a, n, xs. by split_and!; [|constructor|].
  - destruct IH as [(pre & b & n' & post & -> & Hp & Hn)|IH]; [left|right; by constructor].
    exists ((a, n) :: pre), b, n', post. by split_and!; [|constructor|].
Qed.

Section Walks.
Context (h : heap X) (map k v : Z) (c : C) (Hk : key_at h k c).
Let hash := spread (hash_of c).

(** The keys of a chain are readable. *)
Definition readable_keys (xs : list (Z * node)) : Prop :=
  Forall (fun x => key_at h (n_key x.2) (n_content x.2)) xs.

Lemma walk_step {A} (f : Entry -> M (heap X) A) (g : Entry -> M (heap X) A) a n q :
  cells h !! a = Some (OEntry (entry_of n q)) -> key_at h (n_key n) (n_content n) ->
  (let! e := load_entry a in
   let! same := equalKeys (e_key e) (e_hash e) k hash in
   if (same : bool) then f e else g e) h =
  (if decide (n_content n = c) then f (entry_of n q) h else g (entry_of n q) h).
Proof.
  intros Ha Hn. step (load_entry_ok _ _ _ Ha). step (equalKeys_ok h k c n q Hk Hn).
  by destruct (decide _) as [E|E]; [rewrite bool_decide_true|rewrite bool_decide_false].
Qed.

Lemma find_loop_ok fuel p xs :
  chain h p xs -> readable_keys xs -> (length xs < fuel)%nat ->
  (exists a n q, (a, n) ∈ xs /\ n_content n = c /\
     find_loop fuel k hash p h = Ok (Some (entry_of n q), h)) \/
  (Forall (fun x => n_content x.2 <> c) xs /\ find_loop fuel k hash p h = Ok (None, h)).
Proof.
  revert p fuel. induction xs as [|[a n] xs IH]; intros p fuel Hc Hr Hf.
  - right. split; [constructor|]. simpl in Hc. subst p. by destruct fuel.
  - destruct Hc as (-> & Ha & q & Hq & Hc). apply Forall_cons in Hr as [Hn Hr].
    destruct fuel as [|fuel]; [simpl in Hf; lia|]. cbn [find_loop].
    rewrite (proj2 (Z.eqb_neq a 0) Ha). rewrite (walk_step _ _ a n q Hq Hn).
    destruct (decide _) as [E|E]; [left; exists a, n, q; split_and!; [by left|done|done]|].
    destruct (IH q fuel Hc Hr ltac:(simpl in Hf; lia)) as [(b & n' & q' & Hb & Hn' & E')|[Hx E']].
    + left. exists b, n', q'. split_and!; [by right|done|done].
    + right. split; [by constructor|done].
Qed.

(** A loop that goes on to the next slot when the keys differ. *)
Lemma loop_walk {A} (loop : nat -> slot -> M (heap X) A) fuel p q pre post :
  (forall fuel p a n q', read_slot p h = Ok (a, h) -> a <> 0 ->
     cells h !! a = Some (OEntry (entry_of n q')) -> key_at h (n_key n) (n_content n) ->
     n_content n <> c -> loop (S fuel) p h = loop fuel (Next a) h) ->
  read_slot p h = Ok (q, h) -> chain h q (pre ++ post) -> readable_keys pre ->
  Forall (fun x => n_content x.2 <> c) pre ->
  loop (length pre + fuel)%nat p h = loop fuel (slot_of p pre) h.
Proof.
  intros Hs. revert p q. induction pre as [|[a n] pre IH]; intros p q Hp Hc Hr Hx; [done|].
  destruct Hc as (-> & Ha & q' & Hq & Hc). apply Forall_cons in Hr as [Hn Hr].
  apply Forall_cons in Hx as [Hx1 Hx]. rewrite slot_of_cons. cbn [length Nat.add].
  rewrite (Hs _ p a n q') by done. apply (IH (Next a) q'); [|done..].
  apply (read_next_ok _ _ _ Hq).
Qed.

Ltac walk_on := intros ? ? a n q' Hp Ha Hq Hn Hx; cbn [put_loop memoize_loop remove_loop];
  step Hp; rewrite (proj2 (Z.eqb_neq a 0) Ha), (walk_step _ _ a n q' Hq Hn); by rewrite decide_False.

Lemma put_loop_walk fuel p q pre post :
  read_slot p h = Ok (q, h) -> chain h q (pre ++ post) -> readable_keys pre ->
  Forall (fun x => n_content x.2 <> c) pre ->
  put_loop (length pre + fuel) map k hash v p h = put_loop fuel map k hash v (slot_of p pre) h.
Proof. apply (loop_walk (fun fuel => put_loop fuel map k hash v)). walk_on. Qed.

Lemma memoize_loop_walk fuel init p q pre post :
  read_slot p h = Ok (q, h) -> chain h q (pre ++ post) -> readable_keys pre ->
  Forall (fun x => n_content x.2 <> c) pre ->
  memoize_loop (length pre + fuel) map k hash init p h = memoize_loop fuel map k hash init (slot_of p pre) h.
Proof. apply (loop_walk (fun fuel => memoize_loop fuel map k hash init)). walk_on. Qed.

Lemma remove_loop_walk fuel p q pre post :
  read_slot p h = Ok (q, h) -> chain h q (pre ++ post) -> readable_keys pre ->
  Forall (fun x => n_content x.2 <> c) pre ->
  remove_loop (length pre + fuel) map k hash p h = remove_loop fuel map k hash (slot_of p pre) h.
Proof. apply (loop_walk (fun fuel => remove_loop fuel map k hash)). walk_on. Qed.
End Walks.

(** *** Relinking *)

Lemma chain_mid h q pre a n post :
  chain h q (pre ++ (a, n) :: post) ->
  a <> 0 /\ exists r, cells h !! a = Some (OEntry (entry_of n r)) /\ chain h r post.
Proof.
  revert q. induction pre as [|[b n'] pre IH]; intros q Hc; simpl in Hc.
  - by destruct Hc as (-> & Ha & Hr).
  - destruct Hc as (_ & _ & q' & _ & Hc). by eapply IH.
Qed.

Lemma chain_replace h h' q pre a n post n' r post' :
  chain h q (pre ++ (a, n) :: post) ->
  (forall b, b ∈ pre.*1 -> cells h' !! b = cells h !! b) ->
  cells h' !! a = Some (OEntry (entry_of n' r)) -> chain h' r post' ->
  chain h' q (pre ++ (a, n') :: post').
Proof.
  revert q. induction pre as [|[b m] pre IH]; intros q Hc Hf Ha Hp; simpl in *.
  - destruct Hc as (-> & Ha0 & _). split_and!; [done|done|by exists r].
  - destruct Hc as (-> & Hb & q' & Hq & Hc). split_and!; [done|done|]. exists q'. split.
    + rewrite Hf; [done|by left].
    + apply IH; [done| |done|done]. intros x Hx. apply Hf. by right.
Qed.

(** Writing [r] into the slot after [pre] makes the chain go on at [r]. *)
Lemma relink h bs i ps q pre post r :
  cells h !! bs = Some (OBuckets ps) -> ps !! i = Some q -> chain h q (pre ++ post) -> NoDup pre.*1 ->
  exists c' q', write_slot (slot_of (Bucket bs (Z.of_nat i)) pre) r h = Ok (tt, set_cells h c') /\
    c' !! bs = Some (OBuckets (<[i := q']> ps)) /\
    (forall a, a ≠ bs -> a ∉ pre.*1 -> c' !! a = cells h !! a) /\
    (forall post', chain (set_cells h c') r post' -> chain (set_cells h c') q' (pre ++ post')).
Proof.
  intros Hbs Hi Hc Hn. destruct pre as [|[a n] pre _] using rev_ind.
  - exists (<[bs := OBuckets (<[i := r]> ps)]> (cells h)), r. split_and!.
    + rewrite <- (Nat2Z.id i) at 2. apply (write_bucket_ok _ _ _ _ _ Hbs).
      rewrite Nat2Z.id. by eapply lookup_lt_Some.
    + apply lookup_insert_eq.
    + intros a Ha _. by rewrite lookup_insert_ne.
    + done.
  - rewrite <- app_assoc in Hc. destruct (chain_mid _ _ _ _ _ _ Hc) as (Ha & r0 & Hr & _).
    assert (Hne : a <> bs) by (intros ->; congruence).
    rewrite fmap_app, NoDup_app in Hn. destruct Hn as (_ & Hd & _).
    exists (<[a := OEntry (entry_of n r)]> (cells h)), q. split_and!.
    + unfold slot_of. rewrite last_snoc. by rewrite (write_next_ok _ _ _ _ Hr).
    + rewrite lookup_insert_ne by done. by rewrite list_insert_id.
    + intros b Hb Hx. apply lookup_insert_ne. intros <-. apply Hx. rewrite fmap_app.
      apply elem_of_app. right. by left.
    + intros post' Hp. rewrite <- app_assoc.
      eapply chain_replace; [exact Hc| |apply lookup_insert_eq|done].
      intros b Hb. apply lookup_insert_ne. intros <-. eapply (Hd a); [done|by left].
Qed.

(** *** Tables *)

Lemma map_of_perm bss bss' :
  concat bss ≡ₚ concat bss' -> NoDup ((fun x => n_content x.2) <$> concat bss) -> map_of bss = map_of bss'.
Proof.
  intros P Hn. apply list_to_map_proper; [|by apply fmap_Permutation].
  by rewrite <- list_fmap_compose.
Qed.

Lemma map_of_lookup bss x :
  NoDup ((fun x => n_content x.2) <$> concat bss) -> x ∈ concat bss ->
  map_of bss !! n_content x.2 = Some (n_key x.2, n_value x.2).
Proof.
  intros Hn Hx. apply elem_of_list_to_map_1; [by rewrite <- list_fmap_compose|].
  by apply (list_elem_of_fmap_2 pair_of).
Qed.

Lemma map_of_none bss c :
  (forall x, x ∈ concat bss -> n_content x.2 <> c) -> map_of bss !! c = None.
Proof.
  intros Hx. apply not_elem_of_list_to_map_1. rewrite <- list_fmap_compose.
  intros (x & -> & Hin)%list_elem_of_fmap. by apply (Hx x).
Qed.

Lemma index_of_lt bss c :
  (exists k, 0 <= k /\ Z.of_nat (length bss) = 2 ^ k) -> Z.of_nat (length (A := list (Z * node)) bss) * 8 < 2 ^ 64 ->
  (index_of (length bss) c < length bss)%nat /\
  Z.of_nat (index_of (length bss) c) = calculateIndex (Z.of_nat (length bss)) (spread (hash_of c)).
Proof.
  intros (k & Hk & E) Hb. unfold index_of. rewrite E in *.
  rewrite calculateIndex_pow2 by lia.
  pose proof (Z.mod_pos_bound (u64 (spread (hash_of c))) (2 ^ k) ltac:(lia)). lia.
Qed.

Lemma elem_of_concat_delete {A} (bss : list (list A)) i x :
  x ∈ concat (delete i bss) -> exists j ys, j <> i /\ bss !! j = Some ys /\ x ∈ ys.
Proof.
  rewrite delete_take_drop, concat_app, elem_of_app, !elem_of_concat.
  intros [(ys & Hx & [j Hj]%list_elem_of_lookup)|(ys & Hx & [j Hj]%list_elem_of_lookup)].
  - exists j, ys. apply lookup_take_Some in Hj as [Hj ?]. split_and!; [lia|done..].
  - exists (S i + j)%nat, ys. rewrite lookup_drop in Hj. split_and!; [lia|done..].
Qed.

(** The bucket of a key: every entry with its content is in it. *)
Record bucket_of h (bs : Z) (bss : list (list (Z * node))) (c : C) (i : nat) (xs : list (Z * node))
    (ps : list Z) (q : Z) : Prop := {
  b_index : Z.of_nat i = calculateIndex (Z.of_nat (length bss)) (spread (hash_of c));
  b_index_of : i = index_of (length bss) c;
  b_bucket : bss !! i = Some xs;
  b_array : cells h !! bs = Some (OBuckets ps);
  b_head : ps !! i = Some q;
  b_chain : chain h q xs;
  b_rest : forall x, x ∈ concat (delete i bss) -> n_content x.2 <> c;
  b_keys : readable_keys h xs;
  b_nodup : NoDup (xs.*1 ++ (concat (delete i bss)).*1);
  b_fuel : (length xs <= size (cells h))%nat
}.

Lemma table_bucket h map bs bss c :
  table h map bs bss -> exists i xs ps q, bucket_of h bs bss c i xs ps q.
Proof.
  intros T. destruct (t_count _ _ _ _ T) as [Hk Hb].
  destruct (index_of_lt bss c Hk Hb) as [Hi E]. set (i := index_of (length bss) c) in *.
  destruct (lookup_lt_is_Some_2 _ _ Hi) as [xs Hx].
  destruct (t_chains _ _ _ _ T) as (ps & Hp & Hc).
  destruct (Forall2_lookup_r _ _ _ _ _ Hc Hx) as (q & Hq & Hc').
  pose proof (concat_lookup _ _ _ Hx) as P.
  assert (Hn : NoDup (xs.*1 ++ (concat (delete i bss)).*1)).
  { rewrite <- fmap_app. rewrite <- (fmap_Permutation _ _ _ P). apply (t_nodup _ _ _ _ T). }
  exists i, xs, ps, q. constructor; try done.
  - intros x (j & ys & Hne & Hj & Hy)%elem_of_concat_delete Hc0.
    apply Hne. rewrite <- (t_index _ _ _ _ T _ _ _ Hj Hy). by rewrite Hc0.
  - apply Forall_forall. intros x Hxx. apply (t_keys _ _ _ _ T). rewrite P. apply elem_of_app. by left.
  - apply NoDup_app_l in Hn. by eapply chain_length.
Qed.

(** Replacing one bucket. *)
Lemma table_update h map bs bss i xs xs' h' ps q' :
  table h map bs bss -> bss !! i = Some xs -> cells h !! bs = Some (OBuckets ps) ->
  Forall2 (chain h) ps bss ->
  cells h' !! bs = Some (OBuckets (<[i := q']> ps)) -> chain h' q' xs' ->
  cells h' !! map = Some (OMap (MkHashmap bs (Z.of_nat (length bss))
    (Z.of_nat (length (xs' ++ concat (delete i bss)))))) ->
  (forall a, a ∈ (concat (delete i bss)).*1 -> cells h' !! a = cells h !! a) ->
  (forall a x, cells h !! a = Some (OClient x) -> cells h' !! a = Some (OClient x)) ->
  NoDup (xs'.*1 ++ (concat (delete i bss)).*1) -> Forall (fun a => 0 < a < 2 ^ 64) xs'.*1 ->
  (forall x, x ∈ xs' -> index_of (length bss) (n_content x.2) = i) ->
  (forall x, x ∈ xs' -> key_at h (n_key x.2) (n_content x.2)) ->
  NoDup ((fun x => n_content x.2) <$> xs' ++ concat (delete i bss)) ->
  table h' map bs (<[i := xs']> bss).
Proof.
  intros T Hi Hbs Hch Hbs' Hc Hm Hf Hcl Hn Hr Hix Hks Hd.
  pose proof (lookup_lt_Some _ _ _ Hi) as Hlt.
  pose proof (concat_insert bss i xs' Hlt) as P. pose proof (concat_lookup _ _ _ Hi) as P0.
  assert (Hk : forall k c, key_at h k c -> key_at h' k c) by (intros k c (x & [? ?] & ?); exists x; auto).
  constructor.
  - rewrite length_insert. by rewrite P.
  - apply (t_null _ _ _ _ T).
  - exists (<[i := q']> ps). split; [done|]. apply Forall2_same_length_lookup_2.
    { rewrite !length_insert. by eapply Forall2_length. }
    intros j p ys Hp Hy. destruct (decide (i = j)) as [<-|Hne].
    + rewrite list_lookup_insert_eq in Hy by done. rewrite list_lookup_insert_eq in Hp.
      2: { rewrite (Forall2_length _ _ _ Hch). done. }
      by simplify_eq.
    + rewrite list_lookup_insert_ne in Hp by done. rewrite list_lookup_insert_ne in Hy by done. eapply chain_frame; [|by eapply Forall2_lookup_lr].
      intros a Ha. apply Hf. rewrite delete_take_drop, concat_app, fmap_app, elem_of_app.
      apply list_elem_of_fmap in Ha as (x & -> & Hx).
      destruct (decide (j < i)%nat); [left|right]; apply list_elem_of_fmap_2, elem_of_concat;
        exists ys; (split; [done|]); apply list_elem_of_lookup.
      * exists j. by rewrite lookup_take_lt.
      * exists (j - S i)%nat. rewrite lookup_drop. rewrite <- Hy. f_equal. lia.
  - rewrite (fmap_Permutation _ _ _ P), fmap_app. done.
  - rewrite (fmap_Permutation _ _ _ P), fmap_app. apply Forall_app. split; [done|].
    pose proof (t_range _ _ _ _ T) as Ht. rewrite (fmap_Permutation _ _ _ P0), fmap_app, Forall_app in Ht. apply Ht.
  - rewrite length_insert. apply (t_count _ _ _ _ T).
  - intros j ys x Hj Hx. rewrite length_insert. apply list_lookup_insert_Some in Hj as [(<- & <- & _)|[_ Hj]]; [by apply Hix|].
    by eapply (t_index _ _ _ _ T).
  - intros x Hx. rewrite P, elem_of_app in Hx. apply Hk. destruct Hx as [Hx|Hx]; [by apply Hks|].
    apply (t_keys _ _ _ _ T). rewrite P0. apply elem_of_app. by right.
  - by rewrite (fmap_Permutation _ _ _ P).
Qed.

(** *** Looking up *)

Lemma hashKey_ok h k c : key_at h k c -> hashKey k h = Ok (spread (hash_of c), h).
Proof. intros (x & [H0k Hk] & Hx). unfold hashKey. by rewrite (bind_Ok _ _ _ _ _ (hash_ok _ _ _ _ H0k Hk Hx)). Qed.

(** The way into the bucket of a key that the operations share. *)
Lemma enter_bucket {A} (f : Z -> nat -> slot -> M (heap X) A) h map bs bss k c i xs ps q :
  table h map bs bss -> key_at h k c -> bucket_of h bs bss c i xs ps q ->
  (let! hash := hashKey k in
   let! m := load_map map in
   let index := calculateIndex (bucketCount m) hash in
   let! fuel := walk_fuel in
   f hash fuel (Bucket (buckets m) index)) h =
  f (spread (hash_of c)) (S (size (cells h))) (Bucket bs (Z.of_nat i)) h.
Proof.
  intros T Hk B. step (hashKey_ok _ _ _ Hk). step (load_map_ok _ _ _ (t_map _ _ _ _ T)).
  by rewrite (b_index _ _ _ _ _ _ _ _ B).
Qed.

Lemma read_bucket_of h bs bss c i xs ps q :
  bucket_of h bs bss c i xs ps q -> read_slot (Bucket bs (Z.of_nat i)) h = Ok (q, h).
Proof.
  intros B. apply (read_bucket_ok _ _ _ _ _ (b_array _ _ _ _ _ _ _ _ B)).
  rewrite Nat2Z.id. apply (b_head _ _ _ _ _ _ _ _ B).
Qed.

Lemma find_entry_ok h map m F k c :
  hashmap h map m F -> key_at h k c ->
  exists r, find_entry map k h = Ok (r, h) /\
    (fun e => (e_key e, e_value e)) <$> r = m !! c.
Proof.
  intros (bs & bss & T & -> & _) Hk. destruct (table_bucket _ _ _ _ c T) as (i & xs & ps & q & B).
  pose proof (concat_lookup _ _ _ (b_bucket _ _ _ _ _ _ _ _ B)) as P.
  assert (E : find_entry map k h = find_loop (S (size (cells h))) k (spread (hash_of c)) q h).
  { unfold find_entry. step (hashKey_ok _ _ _ Hk). step (load_map_ok _ _ _ (t_map _ _ _ _ T)).
    cbn [bucketCount buckets]. rewrite <- (b_index _ _ _ _ _ _ _ _ B). by step (read_bucket_of _ _ _ _ _ _ _ _ B). }
  rewrite E. pose proof (b_fuel _ _ _ _ _ _ _ _ B).
  destruct (find_loop_ok h k c Hk (S (size (cells h))) q xs (b_chain _ _ _ _ _ _ _ _ B)
    (b_keys _ _ _ _ _ _ _ _ B)) as [(a & n & q' & Hx & <- & ->)|[Hx ->]]; [lia| |].
  - exists (Some (entry_of n q')). split; [done|]. symmetry.
    apply (map_of_lookup bss (a, n)); [apply (t_distinct _ _ _ _ T)|].
    rewrite P. apply elem_of_app. by left.
  - exists None. split; [done|]. symmetry. apply map_of_none. intros x Hin.
    rewrite P, elem_of_app in Hin. destruct Hin as [Hin|Hin].
    + rewrite Forall_forall in Hx. by apply Hx.
    + by apply (b_rest _ _ _ _ _ _ _ _ B).
Qed.

(** *** Growing the array of buckets *)

(** Where the entries go: each to the front of its bucket. *)
Definition push (count : nat) (b : list (list (Z * node))) (x : Z * node) : list (list (Z * node)) :=
  alter (cons x) (index_of count (n_content x.2)) b.
Definition rehash (count : nat) (xs : list (Z * node)) : list (list (Z * node)) -> list (list (Z * node)) :=
  fun b => foldl (push count) b xs.

Lemma length_push count b x : length (push count b x) = length b.
Proof. apply length_alter. Qed.

Lemma length_rehash count xs b : length (rehash count xs b) = length b.
Proof. revert b. induction xs as [|x xs IH]; intros b; [done|]. simpl. rewrite IH. apply length_push. Qed.

(** [b] has [count] buckets, and every entry is in the bucket of its key. *)
Definition placed (count : nat) (b : list (list (Z * node))) : Prop :=
  length b = count /\
  forall i xs x, b !! i = Some xs -> x ∈ xs -> index_of count (n_content x.2) = i.

Lemma placed_empty count : placed count (replicate count []).
Proof.
  split; [apply length_replicate|]. intros i xs x Hi Hx.
  apply lookup_replicate in Hi as [-> _]. by apply elem_of_nil in Hx.
Qed.

Lemma placed_push count b x : placed count b -> placed count (push count b x).
Proof.
  intros [Hl Hp]. split; [by rewrite length_push|]. intros i xs y Hi Hy. unfold push in Hi.
  destruct (decide (index_of count (n_content x.2) = i)) as [<-|Hne].
  - rewrite list_lookup_alter_eq in Hi. destruct (b !! _) as [ys|] eqn:Hb; [|done]. injection Hi as <-.
    apply elem_of_cons in Hy as [->|Hy]; [done|by eapply Hp].
  - rewrite list_lookup_alter_ne in Hi by done. by eapply Hp.
Qed.

Lemma concat_push count b x :
  (index_of count (n_content x.2) < length b)%nat -> concat (push count b x) ≡ₚ x :: concat b.
Proof. apply concat_alter_cons. Qed.

(** During the move: the new buckets hold the chains [b], the entries [rest] are
    still to come. *)
Record moving h (nb : Z) (count : nat) (b : list (list (Z * node))) (rest : list (Z * node)) : Prop := {
  v_array : exists nps, cells h !! nb = Some (OBuckets nps) /\ Forall2 (chain h) nps b;
  v_placed : placed count b;
  v_nodup : NoDup ((concat b).*1 ++ rest.*1)
}.

Lemma chain_not_array h p xs a ps : chain h p xs -> cells h !! a = Some (OBuckets ps) -> a ∉ xs.*1.
Proof.
  intros Hc Ha ([b n] & E & Hx)%list_elem_of_fmap. simpl in E. subst b.
  destruct (chain_cells _ _ _ _ _ Hc Hx) as [q Hq]. congruence.
Qed.

Section Moving.
Context (nb : Z) (count : nat).
Context (Hcount : forall c, (index_of count c < count)%nat /\
  Z.of_nat (index_of count c) = calculateIndex (Z.of_nat count) (spread (hash_of c))).

(** One entry: its [next] and one element of the array change. *)
Lemma move_step h b a n r rest :
  moving h nb count b ((a, n) :: rest) -> a <> 0 -> cells h !! a = Some (OEntry (entry_of n r)) ->
  exists q0 h', (forall K : M (heap X) unit,
      (let! q := read_slot (Bucket nb (Z.of_nat (index_of count (n_content n)))) in
       write_slot (Next a) q ;;!
       write_slot (Bucket nb (Z.of_nat (index_of count (n_content n)))) a ;;! K) h = K h') /\
    h' = set_cells h (cells h') /\ moving h' nb count (push count b (a, n)) rest /\
    cells h' !! a = Some (OEntry (entry_of n q0)) /\
    (forall d, d <> nb -> d <> a -> cells h' !! d = cells h !! d).
Proof.
  intros [ (nps & Hnb & Hf) Hp Hn ] Ha Hr. set (i := index_of count (n_content n)).
  assert (Hi : (i < length b)%nat) by (destruct Hp as [-> _]; apply Hcount).
  destruct (lookup_lt_is_Some_2 _ _ Hi) as [old Hold].
  destruct (Forall2_lookup_r _ _ _ _ _ Hf Hold) as (q0 & Hq & Hc).
  assert (Hne : nb <> a) by congruence.
  exists q0, (set_cells h (<[nb := OBuckets (<[i := a]> nps)]> (<[a := OEntry (entry_of n q0)]> (cells h)))).
  split_and!.
  - intros K. assert (Hq' : nps !! Z.to_nat (Z.of_nat i) = Some q0) by by rewrite Nat2Z.id.
    step (read_bucket_ok _ _ _ (Z.of_nat i) q0 Hnb Hq'). step (write_next_ok _ _ _ q0 Hr).
    set (h1 := set_cells h _). assert (Hnb1 : cells h1 !! nb = Some (OBuckets nps)).
    { unfold h1. cbn [cells set_cells]. by rewrite lookup_insert_ne. }
    step (write_bucket_ok _ _ _ (Z.of_nat i) a Hnb1 (lookup_lt_Some _ _ _ Hq')). by rewrite Nat2Z.id.
  - done.
  - assert (Hx : forall p xs, chain h p xs -> a ∉ xs.*1 ->
      chain (set_cells h (<[nb := OBuckets (<[i := a]> nps)]> (<[a := OEntry (entry_of n q0)]> (cells h)))) p xs).
    { intros p xs Hxs Hin. eapply chain_frame; [|exact Hxs]. intros d Hd. cbn [cells set_cells].
      rewrite !lookup_insert_ne; [done|by intros ->|].
      intros <-. by eapply chain_not_array. }
    assert (Hnin : forall j xs, b !! j = Some xs -> a ∉ xs.*1).
    { intros j xs Hj Hin. apply NoDup_app in Hn as (_ & Hd & _). apply (Hd a); [|by left].
      apply list_elem_of_fmap in Hin as (x & -> & Hx'). apply list_elem_of_fmap_2, elem_of_concat.
      exists xs. split; [done|]. by eapply list_elem_of_lookup_2. }
    constructor; [|by apply placed_push|].
    + exists (<[i := a]> nps). split; [apply lookup_insert_eq|].
      unfold push. cbn [snd]. fold i. apply Forall2_same_length_lookup_2.
      { rewrite length_insert, length_alter. by eapply Forall2_length. }
      intros j p ys Hp' Hy. destruct (decide (i = j)) as [<-|Hij].
      * rewrite list_lookup_insert_eq in Hp' by by eapply lookup_lt_Some. injection Hp' as <-.
        rewrite list_lookup_alter_eq, Hold in Hy. injection Hy as <-.
        split_and!; [done|done|]. exists q0. split; [|by eauto].
        cbn [cells set_cells]. rewrite lookup_insert_ne by done. apply lookup_insert_eq.
      * rewrite list_lookup_insert_ne in Hp' by done. rewrite list_lookup_alter_ne in Hy by done.
        apply Hx; [by eapply Forall2_lookup_lr|by eauto].
    + rewrite (fmap_Permutation _ _ _ (concat_push count b (a, n) Hi)).
      cbn [fmap list_fmap fst] in *. rewrite <- app_comm_cons, Permutation_middle. done.
  - cbn [cells set_cells]. rewrite lookup_insert_ne by done. apply lookup_insert_eq.
  - intros d Hd1 Hd2. cbn [cells set_cells]. by rewrite !lookup_insert_ne.
Qed.

Lemma move_chain_ok xs fuel p h b rest :
  moving h nb count b (xs ++ rest) -> chain h p xs -> (length xs <= fuel)%nat ->
  exists h', move_chain fuel nb (Z.of_nat count) p h = Ok (tt, h') /\ h' = set_cells h (cells h') /\
    moving h' nb count (rehash count xs b) rest /\
    (forall d, d <> nb -> d ∉ xs.*1 -> cells h' !! d = cells h !! d).
Proof.
  revert fuel p h b. induction xs as [|[a n] xs IH]; intros fuel p h b Hm Hc Hf.
  - simpl in Hc. subst p. exists h. split_and!; [by destruct fuel|by destruct h|done|done].
  - destruct Hc as (-> & Ha & q & Hq & Hc). destruct fuel as [|fuel]; [simpl in Hf; lia|].
    assert (Hn : a ∉ xs.*1).
    { pose proof (v_nodup _ _ _ _ _ Hm) as Hn. apply NoDup_app_r in Hn. 
      apply NoDup_cons in Hn as [Hn _]. change (a ∉ (xs ++ rest).*1) in Hn. rewrite fmap_app, not_elem_of_app in Hn. apply Hn. }
    destruct (move_step h b a n q (xs ++ rest) Hm Ha Hq) as (q0 & h1 & E1 & S1 & M1 & Hq1 & F1).
    destruct (v_array _ _ _ _ _ Hm) as (nps & Hnb & _).
    assert (Hc1 : chain h1 q xs).
    { eapply chain_frame; [|exact Hc]. intros d Hd. apply F1; [|by intros ->].
      intros ->. by eapply (chain_not_array _ _ _ nb). }
    destruct (IH fuel q h1 _ M1 Hc1 ltac:(simpl in Hf; lia)) as (h2 & E2 & S2 & M2 & F2).
    exists h2. split_and!; [|by rewrite S2, S1|done|].
    + cbn [move_chain]. rewrite (proj2 (Z.eqb_neq a 0) Ha). step (load_entry_ok _ _ _ Hq).
      cbn [e_next e_hash entry_of]. unfold n_hash. rewrite <- (proj2 (Hcount (n_content n))).
      rewrite E1. exact E2.
    + intros d Hd Hx. apply not_elem_of_cons in Hx as [Hx1 Hx2]. by rewrite F2, F1.
Qed.

Lemma rehash_app xs ys b : rehash count (xs ++ ys) b = rehash count ys (rehash count xs b).
Proof. apply foldl_app. Qed.

Lemma move_all bs ps todo i h b :
  cells h !! bs = Some (OBuckets ps) -> bs <> nb ->
  Forall2 (chain h) (drop i ps) todo -> moving h nb count b (concat todo) ->
  exists h', for_loop (length todo) (Z.of_nat i) (fun i =>
      let! entry := read_slot (Bucket bs i) in
      let! fuel := walk_fuel in
      move_chain fuel nb (Z.of_nat count) entry) h = Ok (tt, h') /\ h' = set_cells h (cells h') /\
    moving h' nb count (rehash count (concat todo) b) [] /\
    (forall d, d <> nb -> d ∉ (concat todo).*1 -> cells h' !! d = cells h !! d).
Proof.
  revert i h b. induction todo as [|xs todo IH]; intros i h b Hbs Hne Hf Hm.
  - exists h. split_and!; [done|by destruct h|done|done].
  - inversion Hf as [|p ? ps' ? Hc Hf' Hp]; subst. symmetry in Hp.
    assert (Hi : ps !! i = Some p) by by rewrite <- (Nat.add_0_r i), <- lookup_drop, Hp.
    assert (Hd : drop (S i) ps = ps') by by rewrite <- Nat.add_1_r, <- drop_drop, Hp.
    cbn [concat] in *. pose proof (v_nodup _ _ _ _ _ Hm) as Hn.
    rewrite fmap_app, NoDup_app in Hn. destruct Hn as (_ & _ & (Hnx & Hx & _)%NoDup_app).
    destruct (move_chain_ok xs (S (size (cells h))) p h b (concat todo) Hm Hc) as (h1 & E1 & S1 & M1 & F1).
    { pose proof (chain_length _ _ _ Hc Hnx). lia. }
    assert (Hbx : bs ∉ xs.*1) by by eapply chain_not_array.
    destruct (IH (S i) h1 (rehash count xs b)) as (h2 & E2 & S2 & M2 & F2); [by rewrite F1|done| |done|].
    { rewrite Hd. eapply chains_frame; [|exact Hf']. intros a Ha. apply F1; [|by intros Hax; eapply Hx].
      destruct (chains_cells _ _ _ _ Hf' Ha), (v_array _ _ _ _ _ Hm) as (nps & ? & _). congruence. }
    exists h2. split_and!; [|by rewrite S2, S1|by rewrite rehash_app|].
    + cbn [length for_loop]. rewrite (bind_Ok _ _ h tt h1).
      * replace (Z.of_nat i + 1) with (Z.of_nat (S i)) by lia. exact E2.
      * rewrite (bind_Ok _ _ h p h); [done|]. apply (read_bucket_ok _ _ _ _ _ Hbs). by rewrite Nat2Z.id.
    + intros d Hd1 Hd2. rewrite fmap_app, not_elem_of_app in Hd2. destruct Hd2. by rewrite F2, F1.
Qed.
End Moving.

Lemma rehash_perm count xs b :
  (forall c, (index_of count c < count)%nat) -> length b = count ->
  concat (rehash count xs b) ≡ₚ xs ++ concat b.
Proof.
  intros Hc. revert b. induction xs as [|x xs IH]; intros b Hb; [done|].
  unfold rehash. cbn [foldl]. fold (rehash count xs (push count b x)).
  rewrite IH by by rewrite length_push. rewrite concat_push by (rewrite Hb; apply Hc).
  by rewrite <- Permutation_middle.
Qed.

Lemma rehash_placed count xs b : placed count b -> placed count (rehash count xs b).
Proof. revert b. induction xs as [|x xs IH]; intros b Hb; [done|]. by apply IH, placed_push. Qed.

(** Nothing in the footprint is an object of the client. *)
Lemma table_no_client h map bs bss a x :
  table h map bs bss -> cells h !! a = Some (OClient x) -> a ∉ footprint map bs bss.
Proof.
  intros T Ha. pose proof (t_map _ _ _ _ T). destruct (t_chains _ _ _ _ T) as (ps & Hb & Hc).
  unfold footprint. rewrite !not_elem_of_cons. split_and!; [congruence|congruence|].
  intros Hx. destruct (chains_cells _ _ _ _ Hc Hx). congruence.
Qed.

(** The footprint is a list of different addresses. *)
Lemma table_footprint h map bs bss : table h map bs bss -> NoDup (footprint map bs bss).
Proof.
  intros T. pose proof (t_map _ _ _ _ T). destruct (t_chains _ _ _ _ T) as (ps & Hb & Hc).
  unfold footprint. apply NoDup_cons. split.
  - rewrite not_elem_of_cons. split; [congruence|]. intros Hx. destruct (chains_cells _ _ _ _ Hc Hx). congruence.
  - apply NoDup_cons. split; [|apply (t_nodup _ _ _ _ T)].
    intros Hx. destruct (chains_cells _ _ _ _ Hc Hx). congruence.
Qed.

Lemma table_cells h map bs bss a : table h map bs bss -> a ∈ footprint map bs bss -> is_Some (cells h !! a).
Proof.
  intros T. destruct (t_chains _ _ _ _ T) as (ps & Hb & Hcs). unfold footprint. rewrite !elem_of_cons.
  intros [->|[->|Ha]]; [by rewrite (t_map _ _ _ _ T)|by rewrite Hb|].
  destruct (chains_cells _ _ _ _ Hcs Ha) as [e ->]. done.
Qed.

Lemma size_map_of h map bs bss : table h map bs bss -> size (map_of bss) = length (concat bss).
Proof.
  intros T. unfold map_of. rewrite map_size_list_to_map; [by rewrite length_fmap|].
  rewrite <- list_fmap_compose. apply (t_distinct _ _ _ _ T).
Qed.

Lemma length_footprint h map bs bss :
  table h map bs bss -> length (footprint map bs bss) = (2 + size (map_of bss))%nat.
Proof. intros T. unfold footprint. cbn [length]. by rewrite length_fmap, (size_map_of _ _ _ _ T). Qed.

(** An operation changes the number of objects as it changes that of entries. *)
Lemma table_size h map bs bss h' bs' bss' :
  table h map bs bss -> table h' map bs' bss' -> framed h (footprint map bs bss) h' (footprint map bs' bss') ->
  (size (cells h') + size (map_of bss) <= size (cells h) + size (map_of bss'))%nat.
Proof.
  intros T T' Hf. pose proof (framed_size _ _ _ _ Hf (table_footprint _ _ _ _ T)) as Hs.
  rewrite (length_footprint _ _ _ _ T), (length_footprint _ _ _ _ T') in Hs.
  specialize (Hs (fun a => table_cells _ _ _ _ a T)). lia.
Qed.

Lemma framed_key h map bs bss h' F' k c :
  table h map bs bss -> framed h (footprint map bs bss) h' F' -> key_at h k c -> key_at h' k c.
Proof.
  intros T Hf (x & [? Hk] & Hx). exists x. split; [split; [done|]|done]. eapply framed_keeps; [exact Hf| |exact Hk].
  by eapply table_no_client.
Qed.

Lemma table_same_cells h h' map bs bss : cells h' = cells h -> table h map bs bss -> table h' map bs bss.
Proof.
  intros E [Hm Hn (ps & Hb & Hc) ? ? ? ? Hk ?]. constructor; try done; [by rewrite E| |].
  - exists ps. split; [by rewrite E|]. eapply chains_frame; [|exact Hc]. by rewrite E.
  - intros x Hx. destruct (Hk x Hx) as (y & ? & ?). exists y. by rewrite E.
Qed.

Lemma calloc_buckets_ok h n :
  0 < n ->
  (exists h', calloc_buckets n h = Ok (0, h') /\ cells h' = cells h /\ errno h' = ENOMEM /\
     (malloc h (n * 8) = 0 \/ 2 ^ 64 <= n * 8)) \/
  (exists a h', calloc_buckets n h = Ok (a, h') /\ a <> 0 /\ n * 8 < 2 ^ 64 /\ cells h !! a = None /\
     cells h' = <[a := OBuckets (replicate (Z.to_nat n) 0)]> (cells h) /\ errno h' = errno h).
Proof.
  intros Hn. unfold calloc_buckets, sizeof_ptr. destruct (Z.leb_spec (2 ^ 64) (n * 8)); [left; eauto 6|].
  unfold alloc. destruct (Z.eqb_spec (malloc h (n * 8)) 0) as [E|E]; [left; eauto 6|].
  right. eexists _, _. split_and!; [done|done|lia|by apply malloc_fresh|done|done].
Qed.

Lemma table_room h map bs bss a :
  table h map bs bss -> 0 < a < 2 ^ 64 -> a ∉ (concat bss).*1 -> Z.of_nat (S (length (concat bss))) < 2 ^ 64.
Proof.
  intros T Ha Hx. pose proof (addresses_bounded (a :: (concat bss).*1) (2 ^ 64)) as B.
  cbn [length] in B. rewrite length_fmap in B. apply B; [done| |].
  - constructor; [done|apply (t_nodup _ _ _ _ T)].
  - constructor; [done|apply (t_range _ _ _ _ T)].
Qed.

(** The state in which the move starts. *)
Lemma moving_start h h1 map bs bss nb count :
  table h map bs bss -> cells h !! nb = None ->
  cells h1 = <[nb := OBuckets (replicate count 0)]> (cells h) ->
  moving h1 nb count (replicate count []) (concat bss).
Proof.
  intros T Hnb E. constructor; [|apply placed_empty|].
  - exists (replicate count 0). split; [rewrite E; apply lookup_insert_eq|].
    apply Forall2_replicate. done.
  - rewrite concat_replicate_nil. apply (t_nodup _ _ _ _ T).
Qed.

(** A table made of the entries of another one. *)
Lemma table_rebuild h map bs bss h' bs' bss' ps' :
  table h map bs bss -> concat bss' ≡ₚ concat bss -> placed (length bss') bss' ->
  (exists k, 0 <= k /\ Z.of_nat (length bss') = 2 ^ k) -> Z.of_nat (length bss') * 8 < 2 ^ 64 ->
  cells h' !! map = Some (OMap (MkHashmap bs' (Z.of_nat (length bss')) (Z.of_nat (length (concat bss))))) ->
  bs' <> 0 -> cells h' !! bs' = Some (OBuckets ps') -> Forall2 (chain h') ps' bss' ->
  framed h (footprint map bs bss) h' (footprint map bs' bss') -> table h' map bs' bss'.
Proof.
  intros T P [_ Hp] Hk Hb Hm Hbs Hps Hc Hf. constructor; try done.
  - by rewrite P.
  - split; [apply (t_null _ _ _ _ T)|done].
  - by exists ps'.
  - rewrite (fmap_Permutation _ _ _ P). apply (t_nodup _ _ _ _ T).
  - rewrite (fmap_Permutation _ _ _ P). apply (t_range _ _ _ _ T).
  - intros x Hx. rewrite P in Hx. eapply framed_key; [exact T|exact Hf|]. by apply (t_keys _ _ _ _ T).
  - rewrite (fmap_Permutation _ _ _ P). apply (t_distinct _ _ _ _ T).
Qed.

(** Twice as many buckets. *)
Lemma doubled h map bs bss :
  table h map bs bss -> Z.of_nat (length bss) * 2 * 8 < 2 ^ 64 ->
  let count := (length bss * 2)%nat in
  (exists k, 0 <= k /\ Z.of_nat count = 2 ^ k) /\
  forall c, (index_of count c < count)%nat /\
    Z.of_nat (index_of count c) = calculateIndex (Z.of_nat count) (spread (hash_of c)).
Proof.
  intros T Hb count. destruct (t_count _ _ _ _ T) as [(k & Hk & Ek) _].
  assert (E : Z.of_nat count = 2 ^ (k + 1)) by (rewrite Z.pow_add_r by lia; lia).
  split; [exists (k + 1); split; [lia|done]|]. intros c.
  pose proof (index_of_lt (replicate count []) c) as Hi. rewrite length_replicate in Hi.
  apply Hi; [exists (k + 1); split; [lia|done]|lia].
Qed.

(** The cells touched by moving the entries, freeing the old buckets and
    setting the fields of the map. *)
Lemma expand_framed h h1 h2 map bs bss nb o o' :
  table h map bs bss -> cells h !! nb = None -> cells h1 = <[nb := o]> (cells h) ->
  (forall d, d <> nb -> d ∉ (concat bss).*1 -> cells h2 !! d = cells h1 !! d) ->
  framed h (footprint map bs bss)
    (set_cells h2 (<[map := o']> (delete bs (cells h2)))) (map :: nb :: (concat bss).*1).
Proof.
  intros T Hnb E1 F2. pose proof (table_footprint _ _ _ _ T) as Hfp.
  apply NoDup_cons in Hfp as [Hf1 [Hf2 _]%NoDup_cons]. apply not_elem_of_cons in Hf1 as [Hf1 Hf1'].
  destruct (t_chains _ _ _ _ T) as (ps & Hbs & _).
  apply (framed_trans _ _ h1 (nb :: footprint map bs bss)).
  { intros a o1. rewrite E1. apply (framed_insert h (footprint map bs bss) nb _ 0 0 Hnb a o1). }
  apply (framed_trans _ _ h2 (nb :: footprint map bs bss)).
  { apply framed_within. intros a Ha. unfold footprint in Ha. rewrite !not_elem_of_cons in Ha.
    destruct Ha as (? & _ & _ & ?). by apply F2. }
  set (h3 := set_cells h2 (delete bs (cells h2))).
  apply (framed_trans _ _ h3 (map :: nb :: (concat bss).*1)).
  { apply (framed_perm _ (bs :: map :: nb :: (concat bss).*1) _ (map :: nb :: (concat bss).*1)); [|done|].
    - unfold footprint. by rewrite (Permutation_swap map bs), (Permutation_swap nb bs), (Permutation_swap map nb).
    - apply framed_delete. rewrite !not_elem_of_cons. split_and!; [done|congruence|done]. }
  apply (framed_store h3). by left.
Qed.

(** Doubling: the entries move to a new array of buckets, and the old one is
    freed. *)
Lemma expand_moves h h1 map bs bss nb :
  table h map bs bss -> nb <> 0 -> cells h !! nb = None -> Z.of_nat (length bss) * 2 * 8 < 2 ^ 64 ->
  cells h1 = <[nb := OBuckets (replicate (length bss * 2) 0)]> (cells h) ->
  exists h' bss', (for_loop (length bss) 0 (fun i =>
        let! entry := read_slot (Bucket bs i) in
        let! fuel := walk_fuel in
        move_chain fuel nb (Z.of_nat (length bss * 2)) entry) ;;!
      free bs ;;!
      store map (OMap (MkHashmap nb (Z.of_nat (length bss * 2)) (Z.of_nat (length (concat bss)))))) h1 =
      Ok (tt, h') /\ errno h' = errno h1 /\ table h' map nb bss' /\ concat bss' ≡ₚ concat bss /\
    framed h (footprint map bs bss) h' (footprint map nb bss').
Proof.
  intros T Hnb0 Hnb Hb E1. destruct (doubled _ _ _ _ T Hb) as [Hk Hix].
  set (count := (length bss * 2)%nat) in *. destruct (t_null _ _ _ _ T) as [Hm0 Hb0].
  destruct (t_chains _ _ _ _ T) as (ps & Hbs & Hc). pose proof (t_map _ _ _ _ T) as Hmap.
  pose proof (moving_start _ h1 _ _ _ nb count T Hnb E1) as Hm.
  assert (Hold : forall a o, cells h !! a = Some o -> cells h1 !! a = Some o).
  { intros a o Ha. rewrite E1, lookup_insert_ne by congruence. done. }
  destruct (move_all nb count Hix bs ps bss 0 h1 (replicate count [])) as (h2 & E2 & S2 & M2 & F2);
    [auto|congruence| |done|].
  { eapply chains_frame; [|exact Hc]. intros a Ha. destruct (chains_cells _ _ _ _ Hc Ha) as [e He].
    rewrite He. auto. }
  set (bss' := rehash count (concat bss) (replicate count [])) in *.
  pose proof (table_footprint _ _ _ _ T) as Hfp.
  apply NoDup_cons in Hfp as [Hf1 [Hf2 _]%NoDup_cons]. apply not_elem_of_cons in Hf1 as [Hf1 Hf1'].
  assert (P : concat bss' ≡ₚ concat bss).
  { unfold bss'. rewrite rehash_perm by (try apply length_replicate; intros c; apply Hix).
    by rewrite concat_replicate_nil, app_nil_r. }
  assert (Hl : length bss' = count) by (unfold bss'; rewrite length_rehash; apply length_replicate).
  assert (Hbs2 : cells h2 !! bs = Some (OBuckets ps)) by (rewrite F2; [auto|congruence|done]).
  set (m' := OMap (MkHashmap nb (Z.of_nat count) (Z.of_nat (length (concat bss)))) : obj X).
  set (h4 := set_cells h2 (<[map := m']> (delete bs (cells h2)))).
  assert (Hf : framed h (footprint map bs bss) h4 (footprint map nb bss')).
  { eapply (framed_perm _ (footprint map bs bss) _ (map :: nb :: (concat bss).*1)); [done| |by eapply expand_framed].
    unfold footprint. by rewrite (fmap_Permutation _ _ _ P). }
  destruct (v_array _ _ _ _ _ M2) as (nps & Hnps & Hcs).
  assert (Hkeep : forall a, a <> map -> a <> bs -> cells h4 !! a = cells h2 !! a).
  { intros a ? ?. unfold h4. cbn [cells set_cells]. by rewrite lookup_insert_ne, lookup_delete_ne. }
  exists h4, bss'. split_and!; [|unfold h4; cbn; by rewrite S2|eapply (table_rebuild h map bs bss)|done|done]; try done.
  - step E2. step (freed_ok _ _ _ Hb0 Hbs2). eapply (stored_ok (set_cells h2 _)). cbn [cells set_cells].
    rewrite lookup_delete_ne, F2 by congruence. eauto.
  - rewrite Hl. apply rehash_placed, placed_empty.
  - by rewrite Hl.
  - rewrite Hl. lia.
  - rewrite Hl. unfold h4. cbn [cells set_cells]. apply lookup_insert_eq.
  - rewrite Hkeep; [exact Hnps|congruence|congruence].
  - eapply chains_frame; [|exact Hcs]. intros a Ha. rewrite (fmap_Permutation _ _ _ P) in Ha.
    apply Hkeep; [by intros ->|by intros ->].
Qed.

Lemma expandIfNecessary_ok h map bs bss :
  table h map bs bss ->
  exists h' bs' bss', expandIfNecessary map h = Ok (tt, h') /\ table h' map bs' bss' /\
    concat bss' ≡ₚ concat bss /\ framed h (footprint map bs bss) h' (footprint map bs' bss') /\
    (errno h' = errno h \/ (errno h' = ENOMEM /\
      ((exists n, malloc h n = 0) \/ 2 ^ 59 <= Z.of_nat (length (concat bss))))).
Proof.
  intros T. unfold expandIfNecessary. step (load_map_ok _ _ _ (t_map _ _ _ _ T)). cbn [map_size bucketCount buckets].
  destruct (t_count _ _ _ _ T) as [(k & Hk & Ek) Hb]. pose proof (Z.pow_pos_nonneg 2 k ltac:(lia) Hk).
  rewrite (u64_small (_ * 3)), Z.gtb_ltb by lia.
  destruct (Z.ltb_spec (Z.of_nat (length bss) * 3 / 4) (Z.of_nat (length (concat bss)))) as [Hfull|];
    [|by exists h, bs, bss; split_and!; [| | | |left]].
  rewrite Z.shiftl_mul_pow2 by lia. change (2 ^ 1) with 2. rewrite u64_small by lia.
  destruct (calloc_buckets_ok h (Z.of_nat (length bss) * 2) ltac:(lia))
    as [(h1 & E1 & Hc & He & Hz)|(nb & h1 & E1 & Hnb & Hn & Hfr & Hc & He)].
  - step E1. cbn [Z.eqb]. exists h1, bs, bss. split_and!; [done|by eapply table_same_cells|done| |right; split; [done|]].
    + eapply framed_cells; [symmetry; exact Hc|apply framed_refl].
    + destruct Hz as [Hz|Hz]; [by eauto|right]. Z.to_euclidean_division_equations. lia.
  - step E1. rewrite (proj2 (Z.eqb_neq nb 0) Hnb).
    replace (Z.to_nat (Z.of_nat (length bss) * 2)) with (length bss * 2)%nat in Hc by lia.
    destruct (expand_moves _ _ _ _ _ _ T Hnb Hfr Hn Hc) as (h' & bss' & E & Hee & T' & P & F).
    rewrite Nat2Z.inj_mul in E. rewrite Nat2Z.id. cbn [Z.of_nat Pos.of_succ_nat] in E.
    exists h', nb, bss'. split_and!; [exact E|done|done|done|left; congruence].
Qed.
End Tables.

#[global] Arguments node C : clear implicits.
