(* ===== verification/HashmapRefine.v ===== *)
(** * Hash maps: the operations

    Putting, removing, memoizing, creating, freeing and walking a hash map, on
    top of the tables of HashmapProps.v. *)

From S2P Require Import Prelude Hashmap HashmapProps.

#[local] Open Scope Z_scope.
#[local] Open Scope c_scope.
#[local] Opaque spread calculateIndex.

Section Refine.
Context {X C : Type} `{Allocator X} `{KeySpec X C} `{!Countable C}.
Implicit Types h : heap X.
#[local] Notation node := (node C).

(** *** Contents *)

Definition contents (xs : list (Z * node)) : list C := (fun x => n_content x.2) <$> xs.
Definition pairs (xs : list (Z * node)) : gmap C (Z * Z) := list_to_map (pair_of <$> xs).

Lemma pairs_perm xs ys : xs ≡ₚ ys -> NoDup (contents xs) -> pairs xs = pairs ys.
Proof.
  intros P Hn. apply list_to_map_proper; [|by apply fmap_Permutation]. by rewrite <- list_fmap_compose.
Qed.

Lemma pairs_cons x xs : pairs (x :: xs) = <[n_content x.2 := (n_key x.2, n_value x.2)]> (pairs xs).
Proof. done. Qed.

Lemma pairs_none xs c : c ∉ contents xs -> pairs xs !! c = None.
Proof. intros Hx. apply not_elem_of_list_to_map_1. by rewrite <- list_fmap_compose. Qed.

(** The entry of a key in its bucket, or that there is none. *)
Lemma bucket_split h map bs bss c i xs ps q :
  table h map bs bss -> bucket_of h bs bss c i xs ps q ->
  (exists pre a n post, xs = pre ++ (a, n) :: post /\ Forall (fun x => n_content x.2 <> c) pre /\
     n_content n = c /\ concat bss ≡ₚ (a, n) :: (pre ++ post) ++ concat (delete i bss) /\
     c ∉ contents ((pre ++ post) ++ concat (delete i bss)) /\
     map_of bss !! c = Some (n_key n, n_value n)) \/
  (Forall (fun x => n_content x.2 <> c) xs /\ c ∉ contents (concat bss) /\ map_of bss !! c = None).
Proof.
  intros T B. pose proof (concat_lookup _ _ _ (b_bucket _ _ _ _ _ _ _ _ B)) as P.
  pose proof (t_distinct _ _ _ _ T) as Hd.
  destruct (chain_split c xs) as [(pre & a & n & post & -> & Hp & Hn)|Hx]; [left|right].
  - assert (P' : concat bss ≡ₚ (a, n) :: (pre ++ post) ++ concat (delete i bss)).
    { by rewrite P, <- Permutation_middle. }
    exists pre, a, n, post. split_and!; try done.
    + rewrite (fmap_Permutation _ _ _ P'), fmap_cons in Hd. apply NoDup_cons in Hd as [Hd _].
      subst c. exact Hd.
    + rewrite <- Hn. apply (map_of_lookup bss (a, n) Hd). rewrite P'. by left.
  - assert (Hc : forall x, x ∈ concat bss -> n_content x.2 <> c).
    { intros x Hin. rewrite P, elem_of_app in Hin. destruct Hin as [Hin|Hin].
      - rewrite Forall_forall in Hx. by apply Hx.
      - by apply (b_rest _ _ _ _ _ _ _ _ B). }
    split_and!; [done| |by apply map_of_none].
    intros (x & -> & Hin)%list_elem_of_fmap. by apply (Hc x).
Qed.

Lemma pairs_without olds common c :
  Forall (fun x => n_content x.2 = c) olds -> c ∉ contents common ->
  pairs common = delete c (pairs (olds ++ common)).
Proof.
  intros Ho Hc. induction Ho as [|x olds Hx Ho IH]; cbn [app].
  - symmetry. by apply delete_id, pairs_none.
  - by rewrite pairs_cons, Hx, delete_insert_eq.
Qed.

(** A new entry for the key with content [c], next to the entries [common]. *)
Definition new_entry h (c : C) (common : list (Z * node)) (x : Z * node) : Prop :=
  n_content x.2 = c /\ 0 < x.1 < 2 ^ 64 /\ x.1 ∉ common.*1 /\ key_at h (n_key x.2) c.

(** What an operation that changes the bucket of [c] makes of the map: [olds]
    are the entries that go, [news] the ones that come, at most one each. *)
Lemma hashmap_update h map bs bss c i xs ps q xs' h' q' olds common new :
  table h map bs bss -> bucket_of h bs bss c i xs ps q ->
  concat bss ≡ₚ olds ++ common -> Forall (fun x => n_content x.2 = c) olds -> c ∉ contents common ->
  xs' ++ concat (delete i bss) ≡ₚ option_list new ++ common ->
  (forall x, x ∈ xs' -> new = Some x \/ x ∈ xs) ->
  (forall x, new = Some x -> new_entry h c common x) ->
  cells h' !! bs = Some (OBuckets (<[i := q']> ps)) -> chain h' q' xs' ->
  (forall a, a ∈ (concat (delete i bss)).*1 -> cells h' !! a = cells h !! a) ->
  cells h' !! map = Some (OMap (MkHashmap bs (Z.of_nat (length bss)) (Z.of_nat (length (option_list new ++ common))))) ->
  framed h (footprint map bs bss) h' (map :: bs :: (option_list new ++ common).*1) ->
  let bss' := <[i := xs']> bss in
  table h' map bs bss' /\
  map_of bss' = match new with
                | Some x => <[c := (n_key x.2, n_value x.2)]> (map_of bss)
                | None => delete c (map_of bss)
                end /\
  framed h (footprint map bs bss) h' (footprint map bs bss').
Proof.
  intros T B P Ho Hco Q Hsub Hnew Hbs Hc Hre Hm Hf bss'.
  assert (Hi := b_bucket _ _ _ _ _ _ _ _ B). assert (Hlt := lookup_lt_Some _ _ _ Hi).
  assert (P' : concat bss' ≡ₚ option_list new ++ common) by by unfold bss'; rewrite concat_insert.
  destruct (t_chains _ _ _ _ T) as (ps0 & Hps0 & Hch).
  assert (ps0 = ps) as -> by (pose proof (b_array _ _ _ _ _ _ _ _ B); congruence).
  assert (Hxs : forall x, x ∈ xs -> x ∈ concat bss).
  { intros x Hx. rewrite (concat_lookup _ _ _ Hi). apply elem_of_app. by left. }
  assert (Hd : NoDup (contents (option_list new ++ common))).
  { pose proof (t_distinct _ _ _ _ T) as Hd. rewrite (fmap_Permutation _ _ _ P), fmap_app in Hd.
    apply NoDup_app_r in Hd. destruct new as [x|]; [|done]. constructor; [|done].
    by rewrite (proj1 (Hnew x eq_refl)). }
  assert (Hn : NoDup (option_list new ++ common).*1).
  { pose proof (t_nodup _ _ _ _ T) as Hn. rewrite (fmap_Permutation _ _ _ P), fmap_app in Hn.
    apply NoDup_app_r in Hn. destruct new as [x|]; [|done]. constructor; [|done]. apply (Hnew x eq_refl). }
  split_and!.
  - eapply (table_update h map bs bss i xs); try done.
    + rewrite Q. done.
    + intros a x Ha. eapply framed_keeps; [exact Hf| |exact Ha]. by eapply table_no_client.
    + by rewrite <- fmap_app, (fmap_Permutation _ _ _ Q).
    + apply Forall_forall. intros a (x & -> & Hx)%list_elem_of_fmap.
      destruct (Hsub x Hx) as [E|Hx']; [apply (Hnew x E)|]. pose proof (t_range _ _ _ _ T) as Hr.
      rewrite Forall_forall in Hr. apply Hr, list_elem_of_fmap_2, Hxs, Hx'.
    + intros x Hx. destruct (Hsub x Hx) as [E|Hx'].
      * rewrite (proj1 (Hnew x E)). symmetry. apply (b_index_of _ _ _ _ _ _ _ _ B).
      * exact (t_index _ _ _ _ T i xs x Hi Hx').
    + intros x Hx. destruct (Hsub x Hx) as [E|Hx'].
      * destruct (Hnew x E) as (-> & _ & _ & Hk). exact Hk.
      * apply (t_keys _ _ _ _ T), Hxs, Hx'.
    + unfold contents in Hd. by rewrite (fmap_Permutation _ _ _ Q).
  - change (map_of bss') with (pairs (concat bss')). change (map_of bss) with (pairs (concat bss)).
    rewrite (pairs_perm (concat bss) _ P) by apply (t_distinct _ _ _ _ T).
    rewrite (pairs_perm (concat bss') _ P') by (unfold contents; rewrite (fmap_Permutation _ _ _ P'); exact Hd).
    destruct new as [x|]; cbn [option_list option_rect app]; [|by apply pairs_without].
    rewrite pairs_cons, (pairs_without olds common c) by done. rewrite (proj1 (Hnew x eq_refl)).
    by rewrite insert_delete_eq.
  - eapply framed_perm; [done| |exact Hf]. unfold footprint. by rewrite (fmap_Permutation _ _ _ P').
Qed.

(** *** Putting *)

(** Addresses of the entries around one entry of a bucket. *)
Lemma bucket_apart h bs bss c i pre a n post ps q d :
  bucket_of h bs bss c i (pre ++ (a, n) :: post) ps q ->
  d ∈ pre.*1 \/ d ∈ post.*1 \/ d ∈ (concat (delete i bss)).*1 -> a <> d.
Proof.
  intros B Hin ->. pose proof (b_nodup _ _ _ _ _ _ _ _ B) as Hn. rewrite fmap_app in Hn.
  apply NoDup_app in Hn as (Hn1 & Hn2 & _). apply NoDup_app in Hn1 as (_ & Hx & Hy).
  apply NoDup_cons in Hy as [Hy _]. destruct Hin as [Hin|[Hin|Hin]]; [by eapply Hx; [|left]|done|].
  eapply Hn2; [|exact Hin]. apply elem_of_app. right. by left.
Qed.

(** Replacing the value of an entry. *)
Lemma set_value_ok h map bs bss c i pre a n post ps q r v :
  table h map bs bss -> bucket_of h bs bss c i (pre ++ (a, n) :: post) ps q ->
  concat bss ≡ₚ (a, n) :: (pre ++ post) ++ concat (delete i bss) ->
  c ∉ contents ((pre ++ post) ++ concat (delete i bss)) -> n_content n = c ->
  cells h !! a = Some (OEntry (entry_of n r)) -> chain h r post ->
  let n' := Node (n_key n) c v in
  let h' := set_cells h (<[a := OEntry (entry_of n' r)]> (cells h)) in
  let bss' := <[i := pre ++ (a, n') :: post]> bss in
  table h' map bs bss' /\ map_of bss' = <[c := (n_key n, v)]> (map_of bss) /\
  framed h (footprint map bs bss) h' (footprint map bs bss').
Proof.
  intros T B P Hc En Ha Hpost n' h' bss'. pose proof (fun d => bucket_apart _ _ _ _ _ _ _ _ _ _ _ d B) as Hdis.
  assert (Hne : forall d o, cells h !! d = Some o -> (forall e, o <> OEntry e) -> cells h' !! d = Some o).
  { intros d o Hd' Ho. unfold h'. cbn [cells set_cells]. rewrite lookup_insert_ne; [done|]. intros ->. naive_solver. }
  assert (Hin : a ∈ (concat bss).*1) by (rewrite (fmap_Permutation _ _ _ P); by left).
  apply (hashmap_update h map bs bss c i (pre ++ (a, n) :: post) ps q (pre ++ (a, n') :: post) h' q
    [(a, n)] ((pre ++ post) ++ concat (delete i bss)) (Some (a, n'))); try done.
  - by repeat constructor.
  - cbn [option_list option_rect app]. by rewrite <- Permutation_middle.
  - intros x [Hx|[->|Hx]%elem_of_cons]%elem_of_app; [right|by left|right]; apply elem_of_app; [by left|].
    right. by right.
  - intros x [= <-]. refine (conj eq_refl (conj _ (conj _ _))).
    + pose proof (t_range _ _ _ _ T) as Hr. rewrite Forall_forall in Hr. by apply Hr.
    + rewrite !fmap_app, !elem_of_app. intros Hx. eapply Hdis; [|reflexivity]. tauto.
    + cbn. rewrite <- En. apply (t_keys _ _ _ _ T (a, n)). rewrite P. by left.
  - rewrite list_insert_id by apply (b_head _ _ _ _ _ _ _ _ B).
    eapply Hne; [apply (b_array _ _ _ _ _ _ _ _ B)|done].
  - eapply chain_replace; [apply (b_chain _ _ _ _ _ _ _ _ B)| |apply lookup_insert_eq|].
    + intros d Hd'. apply lookup_insert_ne. apply Hdis. by left.
    + eapply chain_frame; [|exact Hpost]. intros d Hd'. apply lookup_insert_ne. apply Hdis. right. by left.
  - intros d Hd'. apply lookup_insert_ne. apply Hdis. right. by right.
  - rewrite (Hne _ _ (t_map _ _ _ _ T)) by done. by rewrite P.
  - apply (framed_perm _ (footprint map bs bss) _ (footprint map bs bss)); [done| |].
    + unfold footprint. by rewrite (fmap_Permutation _ _ _ P).
    + apply framed_store. unfold footprint. by do 2 right.
Qed.

(** Linking a new entry [e] at the end of the chain of its key, and counting it. *)
Lemma link_ok h map bs bss c i xs ps q k v e h1 :
  table h map bs bss -> bucket_of h bs bss c i xs ps q -> c ∉ contents (concat bss) -> key_at h k c ->
  0 < e < 2 ^ 64 -> cells h !! e = None -> cells h1 = <[e := OEntry (entry_of (Node k c v) 0)]> (cells h) ->
  exists c2, write_slot (slot_of (Bucket bs (Z.of_nat i)) xs) e h1 = Ok (tt, set_cells h1 c2) /\
    c2 !! map = cells h !! map /\ c2 !! e = Some (OEntry (entry_of (Node k c v) 0)) /\
    read_slot (slot_of (Bucket bs (Z.of_nat i)) xs) (set_cells h1 c2) = Ok (e, set_cells h1 c2) /\
    let h3 := set_cells h1 (<[map := OMap (MkHashmap bs (Z.of_nat (length bss))
      (Z.of_nat (S (length (concat bss)))))]> c2) in
    let bss' := <[i := xs ++ [(e, Node k c v)]]> bss in
    table h3 map bs bss' /\ map_of bss' = <[c := (k, v)]> (map_of bss) /\
    framed h (footprint map bs bss) h3 (footprint map bs bss').
Proof.
  intros T B Hc Hk He0 He E1. pose proof (concat_lookup _ _ _ (b_bucket _ _ _ _ _ _ _ _ B)) as P.
  pose proof (t_map _ _ _ _ T) as Hmap. pose proof (b_array _ _ _ _ _ _ _ _ B) as Hbs.
  pose proof (b_nodup _ _ _ _ _ _ _ _ B) as Hn. apply NoDup_app in Hn as (Hn1 & Hn2 & _).
  destruct (t_chains _ _ _ _ T) as (ps0 & _ & Hch).
  assert (Hold : forall a, a <> e -> cells h1 !! a = cells h !! a) by (intros; by rewrite E1, lookup_insert_ne).
  assert (Hxs : forall a, a ∈ (concat bss).*1 -> a <> e /\ a <> map /\ a <> bs).
  { intros a Ha. destruct (chains_cells _ _ _ _ Hch Ha). split_and!; congruence. }
  assert (Hx : forall a, a ∈ xs.*1 \/ a ∈ (concat (delete i bss)).*1 -> a ∈ (concat bss).*1).
  { intros a Ha. by rewrite (fmap_Permutation _ _ _ P), fmap_app, elem_of_app. }
  assert (Hc1 : chain h1 q (xs ++ [])).
  { rewrite app_nil_r. eapply chain_frame; [|apply (b_chain _ _ _ _ _ _ _ _ B)].
    intros a Ha. apply Hold. apply Hxs. auto. }
  destruct (relink h1 bs i ps q xs [] e) as (c2 & q' & E2 & Hbs2 & F2 & L2);
    [rewrite Hold by congruence; done|apply (b_head _ _ _ _ _ _ _ _ B)|done|done|].
  assert (Hne : e ∉ xs.*1) by (intros Hin; destruct (Hxs e); auto).
  assert (He2 : c2 !! e = Some (OEntry (entry_of (Node k c v) 0))).
  { rewrite F2, E1 by (congruence || done). apply lookup_insert_eq. }
  assert (Hm2 : c2 !! map = cells h !! map).
  { rewrite F2, Hold; [done|congruence|congruence|]. intros Hin. destruct (Hxs map) as (_ & ? & _); auto. }
  assert (L3 : chain (set_cells h1 c2) q' (xs ++ [(e, Node k c v)])) by (apply L2; cbn; split_and!; [done|lia|eauto]).
  exists c2. split_and!; [done..| |].
  { apply (read_slot_of _ _ q' xs [(e, Node k c v)]); [|done].
    apply (read_bucket_ok (set_cells h1 c2) _ _ _ _ Hbs2). rewrite Nat2Z.id. apply list_lookup_insert_eq.
    apply (lookup_lt_Some _ _ _ (b_head _ _ _ _ _ _ _ _ B)). }
  apply (hashmap_update h map bs bss c i xs ps q (xs ++ [(e, Node k c v)]) _ q' [] (concat bss) (Some (e, Node k c v)));
    try done; cbn [cells set_cells].
  - rewrite P, <- app_assoc. symmetry. apply (Permutation_middle xs (concat (delete i bss)) (e, Node k c v)).
  - intros x [?|Hs%list_elem_of_singleton]%elem_of_app; [by right|left; by rewrite Hs].
  - intros x [= <-]. refine (conj eq_refl (conj He0 (conj _ Hk))). intros Hin. destruct (Hxs e); auto.
  - rewrite lookup_insert_ne by congruence. done.
  - eapply chain_frame; [|exact L3]. intros a Ha. apply lookup_insert_ne. rewrite fmap_app in Ha.
    intros <-. apply elem_of_app in Ha as [Ha|Ha%list_elem_of_singleton]; [destruct (Hxs map) as (_ & ? & _); auto|cbn in Ha; congruence].
  - intros a Ha. destruct (Hxs a) as (? & ? & ?); [auto|]. rewrite lookup_insert_ne by done.
    rewrite F2, Hold; [done..|]. intros Hin. by eapply Hn2.
  - apply lookup_insert_eq.
  - apply (framed_trans _ _ h1 (e :: footprint map bs bss)).
    { intros a o. rewrite E1. apply (framed_insert h (footprint map bs bss) e _ 0 0 He a o). }
    apply (framed_perm _ (e :: footprint map bs bss) _ (e :: footprint map bs bss)); [done| |].
    { unfold footprint. etrans; [apply Permutation_swap|]. apply perm_skip, Permutation_swap. }
    apply framed_within. intros a Ha. unfold footprint in Ha. rewrite !not_elem_of_cons in Ha.
    destruct Ha as (? & ? & ? & Ha). cbn [cells set_cells]. rewrite lookup_insert_ne by done. apply F2; [done|].
    intros Hin. apply Ha, Hx. by left.
Qed.

Lemma add_size_ok h map m d :
  cells h !! map = Some (OMap m) ->
  add_size map d h = Ok (tt, set_cells h (<[map := OMap (set_size m (u64 (map_size m + d)))]> (cells h))).
Proof. intros Hm. unfold add_size. step (load_map_ok _ _ _ Hm). by eapply stored_ok. Qed.

Lemma createEntry_ok h k c v :
  (malloc h sizeof_Entry = 0 /\
   createEntry k (spread (hash_of c)) v h = Ok (0, Heap (cells h) (ticks h + 1) ENOMEM)) \/
  (exists e h1, 0 < e < 2 ^ 64 /\ cells h !! e = None /\
   createEntry k (spread (hash_of c)) v h = Ok (e, h1) /\
   cells h1 = <[e := OEntry (entry_of (Node k c v) 0)]> (cells h) /\ errno h1 = errno h).
Proof.
  unfold createEntry, alloc. pose proof (malloc_range h sizeof_Entry).
  destruct (Z.eqb_spec (malloc h sizeof_Entry) 0) as [E|E]; [by left|right].
  eexists (malloc h sizeof_Entry), _. split_and!; [lia|lia|by apply malloc_fresh|done|done|done].
Qed.

(** Writing back the null pointer that a slot holds. *)
Lemma write_null h bs bss c i xs ps q :
  bucket_of h bs bss c i xs ps q ->
  forall h0, cells h0 = cells h -> exists c2,
    write_slot (slot_of (Bucket bs (Z.of_nat i)) xs) 0 h0 = Ok (tt, set_cells h0 c2) /\ c2 = cells h.
Proof.
  intros B h0 E. pose proof (b_array _ _ _ _ _ _ _ _ B) as Hb. pose proof (b_chain _ _ _ _ _ _ _ _ B) as Hc.
  pose proof (b_head _ _ _ _ _ _ _ _ B) as Hh. destruct xs as [|[a n] xs _] using rev_ind.
  - cbn in Hc. subst q. eexists. split.
    + apply (write_bucket_ok _ _ ps); [by rewrite E|]. rewrite Nat2Z.id. by eapply lookup_lt_Some.
    + rewrite Nat2Z.id, list_insert_id by done. rewrite E. by apply insert_id.
  - destruct (chain_mid _ _ _ _ _ _ Hc) as (_ & r & Ha & Hr). cbn in Hr. subst r.
    unfold slot_of. rewrite last_snoc. eexists. split.
    + eapply write_next_ok. by rewrite E.
    + rewrite E. by apply insert_id.
Qed.

Definition held (m : gmap C (Z * Z)) (c : C) (k : Z) : Z :=
  match m !! c with Some (k0, _) => k0 | None => k end.
Definition value_of (m : gmap C (Z * Z)) (c : C) : Z :=
  match m !! c with Some (_, v) => v | None => 0 end.

(** Either the entry could not be allocated and nothing changed, or the pair is
    in the map.  The map keeps its own key when it had one. *)
Definition put_ok h (map : Z) m F (k : Z) (c : C) (v r : Z) h' : Prop :=
  (r = 0 /\ m !! c = None /\ cells h' = cells h /\ errno h' = ENOMEM /\ malloc h sizeof_Entry = 0) \/
  (r = value_of m c /\ exists F', hashmap h' map (<[c := (held m c k, v)]> m) F' /\ framed h F h' F' /\
   (errno h' = errno h \/
    (m !! c = None /\ errno h' = ENOMEM /\ (short h 1 \/ 2 ^ 59 <= Z.of_nat (S (size m)))))).

Section Putting.
Context (h : heap X) (map bs : Z) (bss : list (list (Z * node))) (T : table h map bs bss).
Context (k : Z) (c : C) (Hk : key_at h k c) (i : nat) (xs : list (Z * node)) (ps : list Z) (q : Z).
Context (B : bucket_of h bs bss c i xs ps q).

(** The walk from the bucket to an entry of the key. *)
Lemma fuel_split (pre : list (Z * node)) :
  (length pre <= length xs)%nat -> exists fuel, S (size (cells h)) = (length pre + S fuel)%nat.
Proof. intros Hl. pose proof (b_fuel _ _ _ _ _ _ _ _ B). exists (size (cells h) - length pre)%nat. lia. Qed.

Lemma read_end : read_slot (slot_of (Bucket bs (Z.of_nat i)) xs) h = Ok (0, h).
Proof.
  apply (read_slot_of _ _ q xs []); [apply (read_bucket_of _ _ _ _ _ _ _ _ B)|].
  rewrite app_nil_r. apply (b_chain _ _ _ _ _ _ _ _ B).
Qed.

Lemma chain_end : chain h q (xs ++ []).
Proof. rewrite app_nil_r. apply (b_chain _ _ _ _ _ _ _ _ B). Qed.

(** Counting a new entry, and growing. *)
Lemma count_ok h1 c2 e xs' :
  0 < e < 2 ^ 64 -> cells h !! e = None -> c2 !! map = cells h !! map ->
  table (set_cells h1 (<[map := OMap (MkHashmap bs (Z.of_nat (length bss)) (Z.of_nat (S (length (concat bss)))))]> c2))
    map bs xs' ->
  exists h' bs' bss', (forall A (K : M (heap X) A),
    (add_size map 1 ;;! expandIfNecessary map ;;! K) (set_cells h1 c2) = K h') /\
    table h' map bs' bss' /\ map_of bss' = map_of xs' /\
    framed (set_cells h1 (<[map := OMap (MkHashmap bs (Z.of_nat (length bss)) (Z.of_nat (S (length (concat bss)))))]> c2))
      (footprint map bs xs') h' (footprint map bs' bss') /\
    (errno h' = errno h1 \/ (errno h' = ENOMEM /\
      ((exists n, malloc (set_cells h1 (<[map := OMap (MkHashmap bs (Z.of_nat (length bss))
          (Z.of_nat (S (length (concat bss)))))]> c2)) n = 0) \/
       2 ^ 59 <= Z.of_nat (length (concat xs'))))).
Proof.
  intros He0 He Hm2 T3. rewrite (t_map _ _ _ _ T) in Hm2.
  destruct (expandIfNecessary_ok _ _ _ _ T3) as (h' & bs' & bss' & E4 & T4 & P4 & F4 & Ee).
  exists h', bs', bss'. split_and!; [|done| |done|done].
  - intros A K. rewrite (bind_Ok _ _ _ _ _ (add_size_ok (set_cells h1 c2) _ _ 1 Hm2)).
    cbn [map_size set_size buckets bucketCount]. rewrite u64_small, Z.add_1_r, <- Nat2Z.inj_succ; [by step E4|].
    pose proof (table_room _ _ _ _ e T He0) as Hroom.
    assert (e ∉ (concat bss).*1); [|specialize (Hroom ltac:(done)); lia].
    destruct (t_chains _ _ _ _ T) as (ps0 & _ & Hch). intros Hin.
    destruct (chains_cells _ _ _ _ Hch Hin). congruence.
  - apply map_of_perm; [done|apply (t_distinct _ _ _ _ T4)].
Qed.

Lemma put_hit v pre a n post :
  xs = pre ++ (a, n) :: post -> Forall (fun x => n_content x.2 <> c) pre -> n_content n = c ->
  concat bss ≡ₚ (a, n) :: (pre ++ post) ++ concat (delete i bss) ->
  c ∉ contents ((pre ++ post) ++ concat (delete i bss)) ->
  exists h' bss', put_loop (S (size (cells h))) map k (spread (hash_of c)) v (Bucket bs (Z.of_nat i)) h = Ok (n_value n, h') /\
    errno h' = errno h /\ table h' map bs bss' /\ map_of bss' = <[c := (n_key n, v)]> (map_of bss) /\
    framed h (footprint map bs bss) h' (footprint map bs bss').
Proof.
  intros Ex Hp En P Hc0. destruct (fuel_split pre) as [fuel Ef]; [rewrite Ex, length_app; lia|].
  pose proof (read_bucket_of _ _ _ _ _ _ _ _ B) as Hr. pose proof (b_chain _ _ _ _ _ _ _ _ B) as Hc.
  pose proof (b_keys _ _ _ _ _ _ _ _ B) as Hks. rewrite Ex in Hc, Hks. apply Forall_app in Hks as [Hk1 [Hk2 _]%Forall_cons].
  rewrite Ef, (put_loop_walk h map k v c Hk _ _ q pre ((a, n) :: post)) by done.
  destruct (chain_mid _ _ _ _ _ _ Hc) as (Ha & r & Hra & Hpost). cbn [put_loop].
  step (read_slot_of _ _ _ _ _ Hr Hc). cbn [head_of]. rewrite (proj2 (Z.eqb_neq a 0) Ha).
  rewrite (walk_step h k c Hk _ _ a n r Hra Hk2), decide_True by done.
  step (stored_ok _ _ (OEntry (set_value (entry_of n r) v)) _ Hra).
  assert (Ee : set_value (entry_of n r) v = entry_of (Node (n_key n) c v) r)
    by (unfold entry_of, n_hash; cbn; by rewrite En).
  rewrite Ee. rewrite Ex in B. eexists _, _. split_and!; [done|done|..]; by eapply set_value_ok.
Qed.

Lemma put_miss v :
  Forall (fun x => n_content x.2 <> c) xs -> c ∉ contents (concat bss) ->
  exists h', put_loop (S (size (cells h))) map k (spread (hash_of c)) v (Bucket bs (Z.of_nat i)) h = Ok (0, h') /\
    ((cells h' = cells h /\ errno h' = ENOMEM /\ malloc h sizeof_Entry = 0) \/
     exists bs' bss', (errno h' = errno h \/
         (errno h' = ENOMEM /\ (short h 1 \/ 2 ^ 59 <= Z.of_nat (S (size (map_of bss)))))) /\
       table h' map bs' bss' /\
       map_of bss' = <[c := (k, v)]> (map_of bss) /\
       framed h (footprint map bs bss) h' (footprint map bs' bss')).
Proof.
  intros Hx Hc0. destruct (fuel_split xs) as [fuel Ef]; [done|].
  rewrite Ef, (put_loop_walk h map k v c Hk _ _ q xs []); [|apply (read_bucket_of _ _ _ _ _ _ _ _ B)|apply chain_end|
    apply (b_keys _ _ _ _ _ _ _ _ B)|done].
  cbn [put_loop]. step read_end. cbn [Z.eqb].
  destruct (createEntry_ok h k c v) as [[Hm0 Ec]|(e & h1 & He0 & He & Ec & E1 & Ee1)]; step Ec.
  - destruct (write_null _ _ _ _ _ _ _ _ B (Heap (cells h) (ticks h + 1) ENOMEM) eq_refl) as (c2 & E2 & ->).
    step E2. eexists. split; [reflexivity|]. left. by split_and!.
  - destruct (link_ok h map bs bss c i xs ps q k v e h1 T B Hc0 Hk He0 He E1)
      as (c2 & E2 & Hm2 & _ & _ & T3 & M3 & F3).
    step E2. rewrite (proj2 (Z.eqb_neq e 0) ltac:(lia)).
    destruct (count_ok h1 c2 e _ He0 He Hm2 T3) as (h' & bs' & bss' & E4 & T4 & M4 & F4 & Ee).
    exists h'. split; [by rewrite E4|]. right. exists bs', bss'.
    split_and!; [rewrite <- Ee1|done|by rewrite M4|by eapply framed_trans].
    destruct Ee as [Ee|[Ee Hz]]; [by left|right]. split; [done|].
    assert (Hsz : size (map_of (<[i := xs ++ [(e, Node k c v)]]> bss)) = S (size (map_of bss))).
    { rewrite M3. apply map_size_insert_None, map_of_none. intros x Hx' E. apply Hc0. rewrite <- E.
      by apply (list_elem_of_fmap_2 (fun x => n_content x.2)). }
    destruct Hz as [[n Hz]|Hz].
    + left. eapply short_here; [exact Hz|]. pose proof (table_size _ _ _ _ _ _ _ T T3 F3). lia.
    + right. by rewrite <- (size_map_of _ _ _ _ T3), Hsz in Hz.
Qed.
End Putting.

Lemma hashmapPut_ok h map m F k c v :
  hashmap h map m F -> key_at h k c ->
  exists r h', hashmapPut map k v h = Ok (r, h') /\ put_ok h map m F k c v r h'.
Proof.
  intros (bs & bss & T & -> & ->) Hk. destruct (table_bucket _ _ _ _ c T) as (i & xs & ps & q & B).
  unfold hashmapPut.
  rewrite (enter_bucket (fun hash fuel => put_loop fuel map k hash v) h map bs bss k c i xs ps q T Hk B).
  unfold put_ok, value_of, held.
  destruct (bucket_split _ _ _ _ _ _ _ _ _ T B) as [(pre & a & n & post & Ex & Hp & En & P & Hc0 & ->)|(Hx & Hc0 & ->)].
  - destruct (put_hit h map bs bss T k c Hk i xs ps q B v pre a n post Ex Hp En P Hc0) as (h' & bss' & E & Ee & T' & M' & F').
    exists (n_value n), h'. split; [done|]. right. split; [done|]. eexists. split_and!; [|exact F'|by left].
    exists bs, bss'. by split_and!.
  - destruct (put_miss h map bs bss T k c Hk i xs ps q B v Hx Hc0) as (h' & E & [(? & ? & ?)|(bs' & bss' & Ee & T' & M' & F')]);
      exists 0, h'; (split; [done|]); [by left|right]. split; [done|]. eexists. split_and!; [|exact F'|naive_solver].
    exists bs', bss'. by split_and!.
Qed.

(** *** Removing *)

Lemma table_count h map bs bss : table h map bs bss -> Z.of_nat (length (concat bss)) < 2 ^ 64.
Proof.
  intros T. rewrite <- (length_fmap fst). apply addresses_bounded; [done|apply (t_nodup _ _ _ _ T)|apply (t_range _ _ _ _ T)].
Qed.

Lemma unlink_framed h map bs bss a n common c2 o :
  table h map bs bss -> concat bss ≡ₚ (a, n) :: common ->
  (forall d, d <> bs -> d ∉ common.*1 -> c2 !! d = cells h !! d) ->
  framed h (footprint map bs bss) (set_cells h (<[map := o]> (delete a c2))) (map :: bs :: common.*1).
Proof.
  intros T P F2. pose proof (table_footprint _ _ _ _ T) as Hfp. unfold footprint in Hfp.
  assert (Q : footprint map bs bss ≡ₚ a :: map :: bs :: common.*1).
  { unfold footprint. rewrite (fmap_Permutation _ _ _ P). symmetry.
    etrans; [apply Permutation_swap|]. apply perm_skip, Permutation_swap. }
  fold (footprint map bs bss) in Hfp. rewrite Q in Hfp. apply NoDup_cons in Hfp as [Hfp _].
  apply (framed_trans _ _ (set_cells h c2) (footprint map bs bss)).
  { apply framed_within. intros d Hd. rewrite Q, !not_elem_of_cons in Hd. destruct Hd as (? & ? & ? & Hd).
    by apply F2. }
  apply (framed_trans _ _ (set_cells h (delete a c2)) (map :: bs :: common.*1)).
  - apply (framed_perm _ (a :: map :: bs :: common.*1) _ (map :: bs :: common.*1)); [by symmetry|done|].
    by apply (framed_delete (set_cells h c2)).
  - refine (framed_store (set_cells h (delete a c2)) (map :: bs :: common.*1) map o _). by left.
Qed.

(** Unlinking an entry, freeing it and counting it off. *)
Lemma unlink_ok h map bs bss c i pre a n post ps q r :
  table h map bs bss -> bucket_of h bs bss c i (pre ++ (a, n) :: post) ps q ->
  concat bss ≡ₚ (a, n) :: (pre ++ post) ++ concat (delete i bss) ->
  c ∉ contents ((pre ++ post) ++ concat (delete i bss)) -> n_content n = c ->
  cells h !! a = Some (OEntry (entry_of n r)) -> chain h r post ->
  exists h', (forall A (K : M (heap X) A),
      (write_slot (slot_of (Bucket bs (Z.of_nat i)) pre) r ;;! free a ;;! add_size map (-1) ;;! K) h = K h') /\
    errno h' = errno h /\
    let bss' := <[i := pre ++ post]> bss in
    table h' map bs bss' /\ map_of bss' = delete c (map_of bss) /\
    framed h (footprint map bs bss) h' (footprint map bs bss').
Proof.
  intros T B P Hc En Ha Hpost. pose proof (fun d => bucket_apart _ _ _ _ _ _ _ _ _ _ _ d B) as Hdis.
  pose proof (t_map _ _ _ _ T) as Hmap. pose proof (b_array _ _ _ _ _ _ _ _ B) as Hbs.
  pose proof (b_nodup _ _ _ _ _ _ _ _ B) as Hn. pose proof (table_footprint _ _ _ _ T) as Hfp.
  apply NoDup_cons in Hfp as [Hf1 [Hf2 _]%NoDup_cons]. apply not_elem_of_cons in Hf1 as [Hf1 Hf1'].
  rewrite (fmap_Permutation _ _ _ P) in Hf1', Hf2. apply not_elem_of_cons in Hf1' as [Hma Hmc], Hf2 as [Hba Hbc].
  cbn [fst] in Hma, Hba. rewrite fmap_app in Hn. apply NoDup_app in Hn as (Hn1 & Hn2 & _).
  apply NoDup_app in Hn1 as (Hnp & Hn1 & _).
  destruct (relink h bs i ps q pre ((a, n) :: post) r) as (c2 & q' & E2 & Hbs2 & F2 & L2);
    [done|apply (b_head _ _ _ _ _ _ _ _ B)|apply (b_chain _ _ _ _ _ _ _ _ B)|done|].
  assert (Hcom : forall d, d ∈ pre.*1 \/ d ∈ post.*1 \/ d ∈ (concat (delete i bss)).*1 ->
    d ∈ ((pre ++ post) ++ concat (delete i bss)).*1) by (intros d; rewrite !fmap_app, !elem_of_app; tauto).
  assert (Ha2 : c2 !! a = cells h !! a) by (apply F2; [done|intros Hin; eapply Hdis; eauto]).
  assert (Hm2 : c2 !! map = cells h !! map) by (apply F2; [done|]; intros Hin; apply Hmc, Hcom; auto).
  assert (Hpost2 : chain (set_cells h c2) r post).
  { eapply chain_frame; [|exact Hpost]. intros d Hd. apply F2; [intros ->; apply Hbc, Hcom; auto|].
    intros Hin. eapply Hn1; [exact Hin|]. by right. }
  set (m' := OMap (MkHashmap bs (Z.of_nat (length bss)) (Z.of_nat (length ((pre ++ post) ++ concat (delete i bss))))) : obj X).
  exists (set_cells h (<[map := m']> (delete a c2))). split; [|split; [done|]].
  - intros A K. step E2. step (freed_ok (set_cells h c2) a _ (proj1 (chain_mid _ _ _ _ _ _ (b_chain _ _ _ _ _ _ _ _ B))) (eq_trans Ha2 Ha)).
    cbn [cells set_cells].
    assert (Hm3 : delete a c2 !! map = cells h !! map) by by rewrite lookup_delete_ne.
    rewrite (bind_Ok _ _ _ _ _ (add_size_ok (set_cells (set_cells h c2) (delete a c2)) map _ (-1) (eq_trans Hm3 Hmap))).
    cbn [map_size set_size buckets bucketCount]. unfold m'. do 6 f_equal.
    pose proof (table_count _ _ _ _ T) as Hl. rewrite P in *. cbn [length] in *. rewrite u64_small by lia. lia.
  - apply (hashmap_update h map bs bss c i (pre ++ (a, n) :: post) ps q (pre ++ post) _ q'
      [(a, n)] ((pre ++ post) ++ concat (delete i bss)) None); try done; cbn [cells set_cells].
    + by repeat constructor.
    + intros x Hx. right. rewrite elem_of_app in *. destruct Hx; [by left|]. right. by right.
    + rewrite lookup_insert_ne, lookup_delete_ne by done. done.
    + eapply chain_frame; [|by apply L2]. intros d Hd. rewrite fmap_app, elem_of_app in Hd.
      cbn [cells set_cells]. rewrite lookup_insert_ne, lookup_delete_ne; [done|by apply Hdis; tauto|].
      intros <-. apply Hmc, Hcom. tauto.
    + intros d Hd. rewrite lookup_insert_ne, lookup_delete_ne; [|by apply Hdis; tauto|intros <-; apply Hmc, Hcom; tauto].
      apply F2; [intros ->; apply Hbc, Hcom; auto|]. intros Hin. eapply Hn2; [|exact Hd].
      apply elem_of_app. by left.
    + rewrite lookup_insert_eq. done.
    + eapply unlink_framed; [exact T|exact P|]. intros d Hd1 Hd2. apply F2; [done|].
      intros Hin. apply Hd2, Hcom. by left.
Qed.

(** Removing a key that is in the map, with the place of its entry. *)
Lemma remove_hit h map bs bss c i pre a n post k :
  table h map bs bss -> bss !! i = Some (pre ++ (a, n) :: post) -> n_content n = c -> key_at h k c ->
  exists h', hashmapRemove map k h = Ok (n_value n, h') /\ errno h' = errno h /\
    let bss' := <[i := pre ++ post]> bss in
    table h' map bs bss' /\ map_of bss' = delete c (map_of bss) /\
    framed h (footprint map bs bss) h' (footprint map bs bss').
Proof.
  intros T Hi En Hk. destruct (table_bucket _ _ _ _ c T) as (i' & xs & ps & q & B).
  assert (Hx : (a, n) ∈ pre ++ (a, n) :: post) by (apply elem_of_app; right; by left).
  assert (i' = i) as ->.
  { rewrite (b_index_of _ _ _ _ _ _ _ _ B), <- En. exact (t_index _ _ _ _ T i _ (a, n) Hi Hx). }
  pose proof (b_bucket _ _ _ _ _ _ _ _ B) as Hi'. rewrite Hi in Hi'. injection Hi' as <-.
  assert (P : concat bss ≡ₚ (a, n) :: (pre ++ post) ++ concat (delete i bss)).
  { rewrite (concat_lookup _ _ _ Hi). by rewrite <- Permutation_middle. }
  assert (Hc0 : c ∉ contents ((pre ++ post) ++ concat (delete i bss))).
  { pose proof (t_distinct _ _ _ _ T) as Hd. rewrite (fmap_Permutation _ _ _ P), fmap_cons in Hd.
    apply NoDup_cons in Hd as [Hd _]. by rewrite <- En. }
  assert (Hp : Forall (fun x => n_content x.2 <> c) pre).
  { apply Forall_forall. intros x Hin E. apply Hc0. rewrite <- E.
    apply (list_elem_of_fmap_2 (fun x => n_content x.2)). rewrite !elem_of_app. by do 2 left. }
  destruct (fuel_split h bs bss c i _ ps q B pre) as [fuel Ef]; [rewrite length_app; lia|].
  pose proof (read_bucket_of _ _ _ _ _ _ _ _ B) as Hr. pose proof (b_chain _ _ _ _ _ _ _ _ B) as Hc.
  pose proof (b_keys _ _ _ _ _ _ _ _ B) as [Hk1 [Hk2 _]%Forall_cons]%Forall_app.
  destruct (chain_mid _ _ _ _ _ _ Hc) as (Ha & r & Hra & Hpost).
  destruct (unlink_ok h map bs bss c i pre a n post ps q r T B P Hc0 En Hra Hpost) as (h' & E & Ee & T').
  exists h'. split_and!; [|done|apply T'..]. unfold hashmapRemove.
  rewrite (enter_bucket (fun hash fuel => remove_loop fuel map k hash) h map bs bss k c i _ ps q T Hk B).
  rewrite Ef, (remove_loop_walk h map k c Hk _ _ q pre ((a, n) :: post)) by done. cbn [remove_loop].
  step (read_slot_of _ _ _ _ _ Hr Hc). cbn [head_of]. rewrite (proj2 (Z.eqb_neq a 0) Ha).
  rewrite (walk_step h k c Hk _ _ a n r Hra Hk2), decide_True by done. exact (E _ (ret (n_value n))).
Qed.

Lemma hashmapRemove_ok h map m F k c :
  hashmap h map m F -> key_at h k c ->
  exists h' F', hashmapRemove map k h = Ok (value_of m c, h') /\ errno h' = errno h /\
    hashmap h' map (delete c m) F' /\ framed h F h' F'.
Proof.
  intros (bs & bss & T & -> & ->) Hk. destruct (table_bucket _ _ _ _ c T) as (i & xs & ps & q & B).
  unfold value_of.
  destruct (bucket_split _ _ _ _ _ _ _ _ _ T B) as [(pre & a & n & post & -> & Hp & En & P & Hc0 & ->)|(Hx & Hc0 & Hno)].
  - destruct (remove_hit h map bs bss c i pre a n post k T (b_bucket _ _ _ _ _ _ _ _ B) En Hk) as (h' & E & Ee & T' & M' & F').
    exists h', (footprint map bs (<[i := pre ++ post]> bss)). split_and!; [done|done| |done].
    eexists bs, _. by split_and!; [exact T'|symmetry|].
  - unfold hashmapRemove.
    rewrite (enter_bucket (fun hash fuel => remove_loop fuel map k hash) h map bs bss k c i xs ps q T Hk B).
    destruct (fuel_split h bs bss c i _ ps q B xs) as [fuel ->]; [done|].
    rewrite (remove_loop_walk h map k c Hk _ _ q xs []); [|apply (read_bucket_of _ _ _ _ _ _ _ _ B)|
      by eapply chain_end|apply (b_keys _ _ _ _ _ _ _ _ B)|done].
    cbn [remove_loop]. step (read_end h bs bss c i xs ps q B). rewrite Hno.
    exists h, (footprint map bs bss). split_and!; [done|done| |done].
    exists bs, bss. split_and!; [done|by apply delete_id|done].
Qed.

(** *** Creating *)

(** The number of buckets is the smallest power of 2 above [min]. *)
Lemma create_loop_ok fuel min k :
  0 <= k <= 63 -> (63 < Z.of_nat fuel + k) -> 0 <= min < 2 ^ 63 -> (k = 0 \/ 2 ^ (k - 1) <= min) ->
  exists j, 0 <= j <= 63 /\ create_loop fuel min (2 ^ k) = Ok (2 ^ j) /\ min < 2 ^ j /\ (j = 0 \/ 2 ^ (j - 1) <= min).
Proof.
  revert k. induction fuel as [|fuel IH]; intros k Hk Hf Hm Hl; [lia|]. cbn [create_loop].
  destruct (Z.leb_spec (2 ^ k) min).
  - assert (k < 63).
    { destruct (decide (k = 63)) as [->|]; lia. }
    rewrite Z.shiftl_mul_pow2 by lia. change (2 ^ 1) with 2.
    pose proof (Z.pow_le_mono_r 2 k 62 ltac:(lia) ltac:(lia)).
    rewrite u64_small by lia. rewrite Z.mul_comm, <- Z.pow_succ_r by lia.
    apply IH; [lia|lia|done|]. right. by replace (Z.succ k - 1) with k by lia.
  - exists k. by split_and!; [lia|lia| | |].
Qed.

Lemma create_small cap k :
  0 <= k -> 0 <= cap <= 2 ^ 59 -> k = 0 \/ 2 ^ (k - 1) <= u64 (cap * 4) / 3 -> 2 ^ k <= 2 ^ 60.
Proof.
  intros Hk Hc [->|Hm]; [done|]. rewrite u64_small in Hm by lia. destruct (decide (k <= 60)) as [|Hgt]; [apply Z.pow_le_mono_r; lia|].
  pose proof (Z.pow_le_mono_r 2 60 (k - 1) ltac:(lia) ltac:(lia)).
  pose proof (Z.div_lt_upper_bound (cap * 4) 3 (2 ^ 60) ltac:(lia) ltac:(lia)). lia.
Qed.

Lemma table_empty h map bs k :
  0 <= k -> 2 ^ k * 8 < 2 ^ 64 -> map <> 0 -> bs <> 0 ->
  cells h !! map = Some (OMap (MkHashmap bs (2 ^ k) 0)) ->
  cells h !! bs = Some (OBuckets (replicate (Z.to_nat (2 ^ k)) 0)) ->
  table h map bs (replicate (Z.to_nat (2 ^ k)) []).
Proof.
  intros Hk Hb Hm0 Hb0 Hm Hbs.
  assert (E : Z.of_nat (Z.to_nat (2 ^ k)) = 2 ^ k) by lia.
  constructor; rewrite ?concat_replicate_nil, ?length_replicate, ?E; try done.
  - exists (replicate (Z.to_nat (2 ^ k)) 0). split; [done|]. apply Forall2_replicate. done.
  - constructor.
  - split; [by exists k|done].
  - intros i xs x Hi Hx. apply lookup_replicate in Hi as [-> _]. by apply elem_of_nil in Hx.
  - intros x Hx. by apply elem_of_nil in Hx.
  - constructor.
Qed.

Lemma hashmapCreate_ok h cap :
  exists r h', hashmapCreate cap h = Ok (r, h') /\
    ((r = 0 /\ cells h' = cells h /\ errno h' = ENOMEM /\
      (0 <= cap <= 2 ^ 59 -> short h 1)) \/
     (r <> 0 /\ errno h' = errno h /\ exists F', hashmap h' r (∅ : gmap C (Z * Z)) F' /\ framed h [] h' F')).
Proof.
  unfold hashmapCreate, alloc. pose proof (malloc_range h sizeof_Hashmap) as Hr. unfold bind at 1.
  destruct (Z.eqb_spec (malloc h sizeof_Hashmap) 0) as [E|E]; cbn [obind fst snd].
  { eexists _, _. split; [done|]. left. split_and!; [done|done|done|intros _; eapply short_here; [exact E|lia]]. }
  set (a := malloc h sizeof_Hashmap) in *. rewrite (proj2 (Z.eqb_neq a 0) E).
  assert (Hfa : cells h !! a = None) by by apply malloc_fresh.
  set (h1 := Heap _ _ _).
  destruct (create_loop_ok 65 (u64 (cap * 4) / 3) 0) as (k & Hk & Ek & _ & Hmin); [lia|lia| |by left|].
  { pose proof (Z.mod_pos_bound (cap * 4) (2 ^ 64) ltac:(lia)). unfold u64.
    split; [apply Z.div_pos; lia|]. apply Z.div_lt_upper_bound; lia. }
  change (2 ^ 0) with 1 in Ek. unfold bind at 1, lift. rewrite Ek. cbn [obind fst snd].
  pose proof (Z.pow_pos_nonneg 2 k ltac:(lia) ltac:(lia)) as Hp.
  destruct (calloc_buckets_ok h1 (2 ^ k) Hp) as [(h2 & E2 & Hc & He & Hz)|(nb & h2 & E2 & Hnb & Hn & Hfr & Hc & He)]; step E2.
  - cbn [Z.eqb]. assert (Ha2 : cells h2 !! a = Some (OMap (MkHashmap 0 0 0))) by (rewrite Hc; apply lookup_insert_eq).
    step (freed_ok _ _ _ E Ha2). eexists _, _. split; [done|]. left. split_and!; [done| |done|].
    + cbn [cells set_cells]. rewrite Hc. by apply delete_insert_id.
    + intros Hcap. destruct Hz as [Hz|Hz]; [|exfalso].
      { eapply short_here; [exact Hz|]. cbn [cells h1]. rewrite map_size_insert_None by done. lia. }
      apply (create_small cap k) in Hmin; [|lia|done]. lia.
  - rewrite (proj2 (Z.eqb_neq nb 0) Hnb).
    assert (Hna : nb <> a) by (intros ->; cbn in Hfr; by rewrite lookup_insert_eq in Hfr).
    assert (Ha2 : cells h2 !! a = Some (OMap (MkHashmap 0 0 0))).
    { rewrite Hc, lookup_insert_ne by done. apply lookup_insert_eq. }
    step (stored_ok _ _ (OMap (MkHashmap nb (2 ^ k) 0)) _ Ha2).
    eexists a, _. split; [done|]. right. split_and!; [done|done|].
    exists [a; nb]. split.
    + exists nb, (replicate (Z.to_nat (2 ^ k)) []). split_and!.
      * apply (table_empty _ a nb k); cbn [cells set_cells]; try done; [lia|apply lookup_insert_eq|].
        rewrite lookup_insert_ne, Hc by done. apply lookup_insert_eq.
      * unfold map_of. by rewrite concat_replicate_nil.
      * unfold footprint. by rewrite concat_replicate_nil.
    + apply (framed_trans _ _ h1 [a]).
      { apply framed_insert. done. }
      apply (framed_trans _ _ h2 [nb; a]).
      { intros d o. rewrite Hc. apply (framed_insert h1 [a] nb _ 0 0 Hfr d o). }
      apply (framed_perm _ [nb; a] _ [nb; a]); [done|apply Permutation_swap|]. apply framed_store. right. by left.
Qed.

(** *** Freeing *)

(** [h'] is [h] without the cells of [l]. *)
Definition without h (l : list Z) h' : Prop :=
  forall d, (d ∈ l -> cells h' !! d = None) /\ (d ∉ l -> cells h' !! d = cells h !! d).

Lemma without_app h l h1 k h2 : without h l h1 -> without h1 k h2 -> without h (l ++ k) h2.
Proof.
  intros A B d. destruct (A d) as [A1 A2], (B d) as [B1 B2].
  rewrite elem_of_app. split.
  - intros Hd. destruct (decide (d ∈ k)) as [Hk|Hk]; [auto|]. rewrite B2 by done. apply A1. tauto.
  - intros Hd. rewrite B2, A2; tauto.
Qed.

Lemma without_framed h l h' : without h l h' -> framed h l h' [].
Proof.
  intros A d o. destruct (A d) as [A1 A2]. split.
  - intros [Ho _]. destruct (decide (d ∈ l)) as [Hl|Hl]; [rewrite A1 in Ho by done; done|].
    by rewrite <- A2.
  - intros [Ho Hl]. rewrite A2 by done. split; [done|apply not_elem_of_nil].
Qed.

Lemma free_chain_ok xs fuel p h :
  chain h p xs -> NoDup xs.*1 -> (length xs <= fuel)%nat ->
  exists h', free_chain fuel p h = Ok (tt, h') /\ without h xs.*1 h'.
Proof.
  revert fuel p h. induction xs as [|[a n] xs IH]; intros fuel p h Hc Hn Hf.
  - cbn in Hc. subst p. exists h. split; [by destruct fuel|]. intros d. by split; [intros Hd%elem_of_nil|].
  - destruct Hc as (-> & Ha & q & Hq & Hc). destruct fuel as [|fuel]; [cbn in Hf; lia|].
    apply NoDup_cons in Hn as [Hna Hn].
    destruct (IH fuel q (set_cells h (delete a (cells h)))) as (h' & E & Hw).
    + eapply chain_frame; [|exact Hc]. intros d Hd. cbn [cells set_cells]. apply lookup_delete_ne. by intros ->.
    + done.
    + cbn in Hf. lia.
    + exists h'. split.
      * cbn [free_chain]. rewrite (proj2 (Z.eqb_neq a 0) Ha). step (load_entry_ok _ _ _ Hq).
        by step (freed_ok _ _ _ Ha Hq).
      * apply (without_app _ [a] (set_cells h (delete a (cells h)))); [|done].
        intros d. rewrite list_elem_of_singleton. cbn [cells set_cells].
        split; [intros ->; apply lookup_delete_eq|intros Hd; by apply lookup_delete_ne].
Qed.

Lemma free_all bs ps todo i h :
  cells h !! bs = Some (OBuckets ps) -> Forall2 (chain h) (drop i ps) todo -> NoDup (concat todo).*1 ->
  exists h', for_loop (length todo) (Z.of_nat i) (fun i =>
      let! entry := read_slot (Bucket bs i) in
      let! fuel := walk_fuel in
      free_chain fuel entry) h = Ok (tt, h') /\ without h (concat todo).*1 h'.
Proof.
  revert i h. induction todo as [|xs todo IH]; intros i h Hbs Hf Hn.
  - exists h. split; [done|]. intros d. by split; [intros Hd%elem_of_nil|].
  - inversion Hf as [|p ? ps' ? Hc Hf' Hp]; subst. symmetry in Hp.
    assert (Hi : ps !! i = Some p) by by rewrite <- (Nat.add_0_r i), <- lookup_drop, Hp.
    assert (Hd : drop (S i) ps = ps') by by rewrite <- Nat.add_1_r, <- drop_drop, Hp.
    cbn [concat] in *. rewrite fmap_app in *. apply NoDup_app in Hn as (Hn1 & Hn2 & Hn3).
    destruct (free_chain_ok xs (S (size (cells h))) p h Hc Hn1) as (h1 & E1 & W1).
    { pose proof (chain_length _ _ _ Hc Hn1). lia. }
    assert (Hbx : bs ∉ xs.*1) by by eapply chain_not_array.
    destruct (IH (S i) h1) as (h2 & E2 & W2); [by rewrite (proj2 (W1 bs))| |done|].
    { rewrite Hd. eapply chains_frame; [|exact Hf']. intros a Ha. apply W1. intros Hx. by eapply Hn2. }
    exists h2. split; [|by eapply without_app].
    cbn [length for_loop]. rewrite (bind_Ok _ _ h tt h1).
    + replace (Z.of_nat i + 1) with (Z.of_nat (S i)) by lia. exact E2.
    + rewrite (bind_Ok _ _ h p h); [done|]. apply (read_bucket_ok _ _ _ _ _ Hbs). by rewrite Nat2Z.id.
Qed.

Lemma hashmapFree_ok h map (m : gmap C (Z * Z)) F :
  hashmap h map m F -> exists h', hashmapFree map h = Ok (tt, h') /\ framed h F h' [].
Proof.
  intros (bs & bss & T & -> & ->). destruct (t_chains _ _ _ _ T) as (ps & Hbs & Hc).
  pose proof (t_map _ _ _ _ T) as Hm. destruct (t_null _ _ _ _ T) as [Hm0 Hb0].
  pose proof (table_footprint _ _ _ _ T) as Hfp. apply NoDup_cons in Hfp as [Hf1 [Hf2 Hn]%NoDup_cons].
  apply not_elem_of_cons in Hf1 as [Hf1 Hf1'].
  destruct (free_all bs ps bss 0 h Hbs Hc Hn) as (h1 & E1 & W1).
  assert (Hb1 : cells h1 !! bs = Some (OBuckets ps)) by by rewrite (proj2 (W1 bs)).
  assert (Hm1 : delete bs (cells h1) !! map = cells h !! map).
  { rewrite lookup_delete_ne by done. by apply W1. }
  eexists. unfold hashmapFree. step (load_map_ok _ _ _ Hm). cbn [bucketCount buckets]. rewrite Nat2Z.id.
  step E1. step (freed_ok _ _ _ Hb0 Hb1). split; [exact (freed_ok (set_cells h1 _) map _ Hm0 (eq_trans Hm1 Hm))|].
  apply (framed_trans _ _ h1 [map; bs]).
  - intros d o. pose proof (without_framed _ _ _ W1 d o) as Hw. unfold footprint. rewrite !not_elem_of_cons in *.
    pose proof (not_elem_of_nil (A := Z) d). tauto.
  - apply (framed_trans _ _ (set_cells h1 (delete bs (cells h1))) [map]).
    + apply (framed_perm _ [bs; map] _ [map]); [apply Permutation_swap|done|].
      apply framed_delete. rewrite list_elem_of_singleton. congruence.
    + apply (framed_delete (set_cells h1 (delete bs (cells h1)))). apply not_elem_of_nil.
Qed.

(** Freeing does not change [errno]. *)
Definition quiet {A} (m : M (heap X) A) : Prop := forall h r h', m h = Ok (r, h') -> errno h' = errno h.

Lemma quiet_bind {A B} (m : M (heap X) A) (k : A -> M (heap X) B) :
  quiet m -> (forall a, quiet (k a)) -> quiet (bind m k).
Proof.
  intros Hm Hk h r h' E. unfold bind in E. destruct (m h) as [[a h1]| | |] eqn:E1; try done.
  rewrite (Hk _ _ _ _ E). by eapply Hm.
Qed.

Lemma quiet_keeps {A} (m : M (heap X) A) : (forall h r h', m h = Ok (r, h') -> h' = h) -> quiet m.
Proof. intros Hm h r h' E. by rewrite (Hm _ _ _ E). Qed.

Lemma quiet_load a : quiet (load a).
Proof. apply quiet_keeps. intros h r h'. unfold load. by destruct (cells h !! a); intros [= _ <-]. Qed.

Lemma quiet_free a : quiet (free a).
Proof.
  intros h r h'. unfold free. destruct (a =? 0); [by intros [= _ <-]|]. by destruct (cells h !! a); intros [= _ <-].
Qed.

Lemma quiet_ret {A} (a : A) : quiet (ret a).
Proof. by intros h r h' [= _ <-]. Qed.

Lemma quiet_read_bucket a i : quiet (read_slot (Bucket a i)).
Proof.
  apply quiet_bind; [apply quiet_bind; [apply quiet_load|by intros []; try apply quiet_ret]|].
  intros ps. by destruct (ps !! _); [apply quiet_ret|].
Qed.

Lemma quiet_for n : forall i body, (forall i, quiet (body i)) -> quiet (for_loop n i body).
Proof. induction n; intros; [apply quiet_ret|]. apply quiet_bind; auto. Qed.

Lemma quiet_free_chain fuel : forall a, quiet (free_chain fuel a).
Proof.
  induction fuel as [|fuel IH]; intros a; cbn [free_chain]; destruct (a =? 0); try apply quiet_ret; [done|].
  apply quiet_bind; [apply quiet_bind; [apply quiet_load|by intros []; try apply quiet_ret]|].
  intros e. apply quiet_bind; [apply quiet_free|intros _; apply IH].
Qed.

Lemma hashmapFree_errno map h r h' : hashmapFree map h = Ok (r, h') -> errno h' = errno h.
Proof.
  revert h r h'. apply quiet_bind; [apply quiet_bind; [apply quiet_load|by intros []; try apply quiet_ret]|].
  intros m. apply quiet_bind; [|intros _; apply quiet_bind; [apply quiet_free|intros _; apply quiet_free]].
  apply quiet_for. intros i. apply quiet_bind; [apply quiet_read_bucket|]. intros q.
  apply quiet_bind; [by apply quiet_keeps; intros ? ? ? [= _ <-]|]. intros fuel. apply quiet_free_chain.
Qed.

(** *** Walking over all entries

    A callback may keep or remove the entry it is called with; [I] is what holds
    between the calls, of the entries visited and kept and of those to come,
    and [Q] what a callback that stops the walk establishes. *)
Section ForEach.
Context {A : Type} (map bs : Z) (callback : Z -> Z -> A -> M (heap X) (bool * A)).
Context (I : A -> heap X -> list (Z * node) -> list (Z * node) -> Prop) (Q : A -> heap X -> Prop).
Context (Hcallback : forall h bss i pre a n post ctx,
  table h map bs bss -> bss !! i = Some (pre ++ (a, n) :: post) ->
  I ctx h (concat (take i bss) ++ pre) ((a, n) :: post ++ concat (drop (S i) bss)) ->
  exists go ctx' h' (keep : bool), callback (n_key n) (n_value n) ctx h = Ok ((go, ctx'), h') /\
    let pre' := if keep then pre ++ [(a, n)] else pre in
    if go then
      table h' map bs (<[i := pre' ++ post]> bss) /\
      I ctx' h' (concat (take i bss) ++ pre') (post ++ concat (drop (S i) bss))
    else Q ctx' h').

Lemma table_chain h bss i xs :
  table h map bs bss -> bss !! i = Some xs -> exists ps q, cells h !! bs = Some (OBuckets ps) /\ ps !! i = Some q /\ chain h q xs.
Proof.
  intros T Hi. destruct (t_chains _ _ _ _ T) as (ps & Hb & Hc).
  destruct (Forall2_lookup_r _ _ _ _ _ Hc Hi) as (q & Hq & Hx). eauto.
Qed.

Lemma table_bucket_nodup h bss i xs : table h map bs bss -> bss !! i = Some xs -> NoDup xs.*1.
Proof.
  intros T Hi. pose proof (t_nodup _ _ _ _ T) as Hn.
  rewrite (fmap_Permutation _ _ _ (concat_lookup _ _ _ Hi)), fmap_app in Hn. by apply NoDup_app_l in Hn.
Qed.

Lemma each_entry_ok post : forall fuel h bss i pre ctx,
  table h map bs bss -> bss !! i = Some (pre ++ post) ->
  I ctx h (concat (take i bss) ++ pre) (post ++ concat (drop (S i) bss)) -> (length post <= fuel)%nat ->
  exists go ctx' h', each_entry fuel callback (head_of post) ctx h = Ok ((go, ctx'), h') /\
    if (go : bool) then
      exists bss', table h' map bs bss' /\ length bss' = length bss /\
        I ctx' h' (concat (take (S i) bss')) (concat (drop (S i) bss'))
    else Q ctx' h'.
Proof.
  induction post as [|[a n] post IH]; intros fuel h bss i pre ctx T Hi HI Hf.
  - exists true, ctx, h. split; [by destruct fuel|]. exists bss. split_and!; [done|done|].
    rewrite app_nil_r in Hi. rewrite (take_S_r _ _ _ Hi), concat_app. cbn [concat]. by rewrite app_nil_r.
  - destruct fuel as [|fuel]; [cbn in Hf; lia|].
    destruct (table_chain _ _ _ _ T Hi) as (ps & q & _ & _ & Hc). destruct (chain_mid _ _ _ _ _ _ Hc) as (Ha & r & Hr & Hpost).
    destruct (Hcallback h bss i pre a n post ctx T Hi HI) as (go & ctx' & h' & keep & E & Hgo).
    cbn [each_entry head_of]. rewrite (proj2 (Z.eqb_neq a 0) Ha). step (load_entry_ok _ _ _ Hr).
    cbn [e_key e_value e_next entry_of]. step E. destruct go; [|by exists false, ctx', h']. destruct Hgo as [T' HI'].
    set (pre' := if keep then pre ++ [(a, n)] else pre) in *. pose proof (lookup_lt_Some _ _ _ Hi) as Hlt.
    rewrite (chain_head _ _ _ Hpost).
    destruct (IH fuel h' (<[i := pre' ++ post]> bss) i pre' ctx' T') as (go2 & ctx2 & h2 & E2 & H2);
      [by apply list_lookup_insert_eq| |cbn in Hf; lia|].
    { by rewrite take_insert_ge, drop_insert_lt by lia. }
    exists go2, ctx2, h2. split; [done|]. destruct go2; [|done].
    by rewrite length_insert in H2.
Qed.

Lemma each_bucket_ok fuel : forall h bss i ctx,
  table h map bs bss -> (length bss <= fuel + i)%nat ->
  I ctx h (concat (take i bss)) (concat (drop i bss)) ->
  exists ctx' h', each_bucket fuel map callback (Z.of_nat i) ctx h = Ok (ctx', h') /\
    ((exists bss', table h' map bs bss' /\ I ctx' h' (concat bss') []) \/ Q ctx' h').
Proof.
  induction fuel as [|fuel IH]; intros h bss i ctx T Hf HI;
    cbn [each_bucket]; step (load_map_ok _ _ _ (t_map _ _ _ _ T)); cbn [bucketCount buckets].
  - rewrite (proj2 (Z.ltb_ge _ _)) by lia. eexists _, _. split; [done|]. left. exists bss. split; [done|].
    by rewrite take_ge, drop_ge in HI by lia.
  - destruct (Z.ltb_spec (Z.of_nat i) (Z.of_nat (length bss))) as [Hlt|Hge].
    + destruct (lookup_lt_is_Some_2 bss i) as [xs Hx]; [lia|].
      destruct (table_chain _ _ _ _ T Hx) as (ps & q & Hb & Hq & Hc).
      assert (Hrd : read_slot (Bucket bs (Z.of_nat i)) h = Ok (q, h)).
      { apply (read_bucket_ok _ _ _ _ _ Hb). by rewrite Nat2Z.id. }
      step Hrd. rewrite (chain_head _ _ _ Hc).
      destruct (each_entry_ok xs (S (size (cells h))) h bss i [] ctx T Hx) as (go & ctx' & h' & E & Hgo).
      { rewrite app_nil_r. by rewrite (drop_S _ _ _ Hx) in HI. }
      { pose proof (chain_length _ _ _ Hc (table_bucket_nodup _ _ _ _ T Hx)). lia. }
      rewrite (bind_Ok _ _ h (S (size (cells h))) h) by done. step E. destruct go.
      * destruct Hgo as (bss' & T' & Hl & HI'). replace (Z.of_nat i + 1) with (Z.of_nat (S i)) by lia.
        apply (IH h' bss'); [done|lia|done].
      * eexists _, _. split; [done|]. by right.
    + eexists _, _. split; [done|]. left. exists bss. split; [done|].
      by rewrite take_ge, drop_ge in HI by lia.
Qed.

Lemma hashmapForEach_ok h bss ctx :
  table h map bs bss -> I ctx h [] (concat bss) ->
  exists ctx' h', hashmapForEach map callback ctx h = Ok (ctx', h') /\
    ((exists bss', table h' map bs bss' /\ I ctx' h' (concat bss') []) \/ Q ctx' h').
Proof.
  intros T HI. unfold hashmapForEach. step (load_map_ok _ _ _ (t_map _ _ _ _ T)). cbn [bucketCount].
  apply (each_bucket_ok _ h bss 0); [done|lia|done].
Qed.
End ForEach.

(** *** Reading *)

Lemma hashmapGet_ok h map m F k c :
  hashmap h map m F -> key_at h k c -> hashmapGet map k h = Ok (value_of m c, h).
Proof.
  intros Hm Hk. destruct (find_entry_ok _ _ _ _ _ _ Hm Hk) as (r & E & Er). unfold hashmapGet.
  step E. unfold value_of. rewrite <- Er. by destruct r.
Qed.

Lemma hashmapContainsKey_ok h map m F k c :
  hashmap h map m F -> key_at h k c -> hashmapContainsKey map k h = Ok (isSome (m !! c), h).
Proof.
  intros Hm Hk. destruct (find_entry_ok _ _ _ _ _ _ Hm Hk) as (r & E & Er). unfold hashmapContainsKey.
  step E. rewrite <- Er. by destruct r.
Qed.

Lemma hashmapSize_ok h map (m : gmap C (Z * Z)) F :
  hashmap h map m F -> hashmapSize map h = Ok (Z.of_nat (size m), h).
Proof.
  intros (bs & bss & T & -> & _). unfold hashmapSize. step (load_map_ok _ _ _ (t_map _ _ _ _ T)).
  unfold map_of. rewrite map_size_list_to_map.
  - by rewrite length_fmap.
  - rewrite <- list_fmap_compose. apply (t_distinct _ _ _ _ T).
Qed.

Definition collisions (bss : list (list (Z * node))) : Z :=
  Z.of_nat (sum_list_with (fun xs : list (Z * node) => length xs - 1)%nat bss).

Lemma count_chain_ok xs fuel p n h :
  chain h p xs -> (length xs <= fuel)%nat -> 0 <= n -> n + Z.of_nat (length xs) < 2 ^ 64 ->
  count_chain fuel p n h = Ok (n + Z.of_nat (length xs - 1), h).
Proof.
  revert fuel p n. induction xs as [|[a x] xs IH]; intros fuel p n Hc Hf Hn Hb.
  - cbn in Hc. subst p. destruct fuel; cbn; by rewrite Z.add_0_r.
  - destruct Hc as (-> & Ha & q & Hq & Hc). destruct fuel as [|fuel]; [cbn in Hf; lia|]. cbn [length] in *.
    cbn [count_chain]. rewrite (proj2 (Z.eqb_neq a 0) Ha). step (load_entry_ok _ _ _ Hq). cbn [e_next entry_of].
    rewrite (chain_head _ _ _ Hc) in *. destruct xs as [|[b y] xs].
    + cbn [head_of Z.eqb]. rewrite IH; [done|done|lia|lia|cbn; lia].
    + destruct Hc as (_ & Hb0 & Hc). cbn [head_of] in *. rewrite (proj2 (Z.eqb_neq b 0) Hb0). cbn [length] in *.
      rewrite u64_small by lia. rewrite IH; [|by split_and!|lia|lia|lia]. do 2 f_equal. lia.
Qed.

Lemma count_buckets_ok bs ps todo i n h :
  cells h !! bs = Some (OBuckets ps) -> Forall2 (chain h) (drop i ps) todo -> NoDup (concat todo).*1 ->
  0 <= n -> n + Z.of_nat (length (concat todo)) < 2 ^ 64 ->
  count_buckets (length todo) bs (Z.of_nat i) n h = Ok (n + collisions todo, h).
Proof.
  revert i n. induction todo as [|xs todo IH]; intros i n Hbs Hf Hn Hn0 Hb; [cbn; by rewrite Z.add_0_r|].
  inversion Hf as [|p ? ps' ? Hc Hf' Hp]; subst. symmetry in Hp.
  assert (Hi : ps !! Z.to_nat (Z.of_nat i) = Some p) by (rewrite Nat2Z.id; by rewrite <- (Nat.add_0_r i), <- lookup_drop, Hp).
  assert (Hd : drop (S i) ps = ps') by by rewrite <- Nat.add_1_r, <- drop_drop, Hp.
  cbn [concat] in *. rewrite fmap_app in Hn. apply NoDup_app in Hn as (Hn1 & _ & Hn3). rewrite length_app in Hb.
  cbn [length count_buckets]. step (read_bucket_ok _ _ _ _ _ Hbs Hi).
  rewrite (bind_Ok _ _ h (S (size (cells h))) h) by done.
  pose proof (chain_length _ _ _ Hc Hn1).
  step (count_chain_ok xs (S (size (cells h))) p n h Hc ltac:(lia) Hn0 ltac:(lia)).
  replace (Z.of_nat i + 1) with (Z.of_nat (S i)) by lia.
  rewrite IH; [|done|by rewrite Hd|done|lia|lia]. unfold collisions. cbn [sum_list_with]. do 2 f_equal. lia.
Qed.

Lemma hashmapCountCollisions_ok h map bs bss :
  table h map bs bss -> hashmapCountCollisions map h = Ok (collisions bss, h).
Proof.
  intros T. unfold hashmapCountCollisions. step (load_map_ok _ _ _ (t_map _ _ _ _ T)). cbn [bucketCount buckets].
  destruct (t_chains _ _ _ _ T) as (ps & Hb & Hc). rewrite Nat2Z.id.
  pose proof (table_count _ _ _ _ T). apply (count_buckets_ok bs ps bss 0 0); [done|done|apply (t_nodup _ _ _ _ T)|lia|lia].
Qed.

(** *** Memoizing

    The callback may allocate objects of its own, and changes nothing else. *)

Lemma chain_mono h h' p xs : cells h ⊆ cells h' -> chain h p xs -> chain h' p xs.
Proof.
  intros Hs. revert p. induction xs as [|[a n] xs IH]; intros p; cbn [chain]; [done|].
  intros (-> & Ha & q & Hq & Hc). split_and!; [done|done|]. exists q. split; [|by apply IH].
  by eapply lookup_weaken.
Qed.

Lemma key_at_mono h h' k c : cells h ⊆ cells h' -> key_at h k c -> key_at h' k c.
Proof. intros Hs (x & [? Hk] & Hx). exists x. split; [split; [done|by eapply lookup_weaken]|done]. Qed.

Lemma table_mono h h' map bs bss : cells h ⊆ cells h' -> table h map bs bss -> table h' map bs bss.
Proof.
  intros Hs [Hm Hn (ps & Hb & Hc) ? ? ? ? Hk ?]. constructor; try done; [by eapply lookup_weaken| |].
  - exists ps. split; [by eapply lookup_weaken|]. eapply Forall2_impl; [exact Hc|]. intros p xs. by apply chain_mono.
  - intros x Hx. by eapply key_at_mono, Hk.
Qed.

Lemma read_slot_mono h h' p q : cells h ⊆ cells h' -> read_slot p h = Ok (q, h) -> read_slot p h' = Ok (q, h').
Proof.
  intros Hs. destruct p as [a i|a]; unfold read_slot, load_buckets, load_entry, load, bind; cbn [obind fst snd].
  - destruct (cells h !! a) as [o|] eqn:E; [|done]. rewrite (lookup_weaken _ _ _ _ E Hs).
    destruct o as [|ps| |]; try done. cbn [obind fst snd ret]. destruct (ps !! Z.to_nat i); [|done].
    unfold ret. by intros [= ->].
  - destruct (cells h !! a) as [o|] eqn:E; [|done]. rewrite (lookup_weaken _ _ _ _ E Hs).
    destruct o; try done. cbn [obind fst snd ret]. unfold ret. by intros [= ->].
Qed.

(** A callback that returns, and only adds to the heap. *)
Definition adds (init : Z -> M (heap X) Z) : Prop :=
  forall k h, exists v h', init k h = Ok (v, h') /\ cells h ⊆ cells h' /\ errno h' = errno h.

(** The value of the last entry of a bucket. *)
Lemma set_last_value h map bs bss c i xs e k w v :
  table h map bs bss -> bss !! i = Some (xs ++ [(e, Node k c w)]) -> i = index_of (length bss) c ->
  cells h !! e = Some (OEntry (entry_of (Node k c w) 0)) ->
  let h' := set_cells h (<[e := OEntry (entry_of (Node k c v) 0)]> (cells h)) in
  exists bss', table h' map bs bss' /\ map_of bss' = <[c := (k, v)]> (map_of bss) /\
    framed h (footprint map bs bss) h' (footprint map bs bss').
Proof.
  intros T Hi Ei He h'. destruct (table_bucket _ _ _ _ c T) as (i' & xs' & ps & q & B).
  pose proof (b_index_of _ _ _ _ _ _ _ _ B) as Ei'. rewrite <- Ei in Ei'. subst i'.
  pose proof (b_bucket _ _ _ _ _ _ _ _ B) as Hi'. rewrite Hi in Hi'. injection Hi' as <-.
  assert (P : concat bss ≡ₚ (e, Node k c w) :: (xs ++ []) ++ concat (delete i bss)).
  { rewrite (concat_lookup _ _ _ Hi), app_nil_r, <- app_assoc. symmetry.
    apply (Permutation_middle xs (concat (delete i bss))). }
  eexists. eapply (set_value_ok h map bs bss c i xs e (Node k c w) [] ps q 0 v); try done.
  pose proof (t_distinct _ _ _ _ T) as Hd. rewrite (fmap_Permutation _ _ _ P), fmap_cons in Hd.
  by apply NoDup_cons in Hd as [Hd _].
Qed.

Section Memoizing.
Context (h : heap X) (map bs : Z) (bss : list (list (Z * node))) (T : table h map bs bss).
Context (k : Z) (c : C) (Hk : key_at h k c) (i : nat) (xs : list (Z * node)) (ps : list Z) (q : Z).
Context (B : bucket_of h bs bss c i xs ps q) (init : Z -> M (heap X) Z).

Lemma memoize_hit pre a n post :
  xs = pre ++ (a, n) :: post -> Forall (fun x => n_content x.2 <> c) pre -> n_content n = c ->
  memoize_loop (S (size (cells h))) map k (spread (hash_of c)) init (Bucket bs (Z.of_nat i)) h = Ok (n_value n, h).
Proof.
  intros Ex Hp En. destruct (fuel_split h bs bss c i _ ps q B pre) as [fuel ->]; [rewrite Ex, length_app; lia|].
  pose proof (read_bucket_of _ _ _ _ _ _ _ _ B) as Hr. pose proof (b_keys _ _ _ _ _ _ _ _ B) as Hks.
  pose proof (b_chain _ _ _ _ _ _ _ _ B) as Hc. rewrite Ex in Hc, Hks. apply Forall_app in Hks as [Hk1 [Hk2 _]%Forall_cons].
  rewrite (memoize_loop_walk h map k c Hk _ _ _ q pre ((a, n) :: post)) by done.
  destruct (chain_mid _ _ _ _ _ _ Hc) as (Ha & r & Hra & Hpost). cbn [memoize_loop].
  step (read_slot_of _ _ _ _ _ Hr Hc). cbn [head_of]. rewrite (proj2 (Z.eqb_neq a 0) Ha).
  by rewrite (walk_step h k c Hk _ _ a n r Hra Hk2), decide_True by done.
Qed.

(** The new entry after [initialValue] has run in the heap [h3]. *)
Lemma memoize_fill h1 c2 e h3 v :
  let sz := OMap (MkHashmap bs (Z.of_nat (length bss)) (Z.of_nat (S (length (concat bss))))) : obj X in
  let bss1 := <[i := xs ++ [(e, Node k c 0)]]> bss in
  0 < e < 2 ^ 64 -> cells h !! e = None -> c2 !! map = cells h !! map -> c2 ⊆ cells h3 ->
  cells h3 !! e = Some (OEntry (entry_of (Node k c 0) 0)) ->
  table (set_cells h1 (<[map := sz]> c2)) map bs bss1 ->
  framed h (footprint map bs bss) (set_cells h1 (<[map := sz]> c2)) (footprint map bs bss1) ->
  exists h' bs' bss', (forall A (K : M (heap X) A), (add_size map 1 ;;! expandIfNecessary map ;;! K)
      (set_cells h3 (<[e := OEntry (entry_of (Node k c v) 0)]> (cells h3))) = K h') /\
    table h' map bs' bss' /\ map_of bss' = <[c := (k, v)]> (map_of bss1) /\
    forall a o, a ∉ footprint map bs bss -> cells h !! a = Some o -> cells h' !! a = Some o /\ a ∉ footprint map bs' bss'.
Proof.
  intros sz bss1 He0 He Hm2 Hs He3 T3 F3. set (c4 := <[e := OEntry (entry_of (Node k c v) 0)]> (cells h3)) in *.
  pose proof (t_map _ _ _ _ T) as Hmap. assert (Hem : e <> map) by congruence.
  pose proof (lookup_lt_Some _ _ _ (b_bucket _ _ _ _ _ _ _ _ B)) as Hlt.
  assert (T4 : table (set_cells h3 (<[map := sz]> (cells h3))) map bs bss1).
  { eapply table_mono; [|exact T3]. cbn [cells set_cells]. by apply insert_mono. }
  destruct (set_last_value _ map bs bss1 c i xs e k 0 v T4) as (bss2 & T5 & M5 & F5).
  { by apply list_lookup_insert_eq. }
  { unfold bss1. rewrite length_insert. apply (b_index_of _ _ _ _ _ _ _ _ B). }
  { cbn [cells set_cells]. by rewrite lookup_insert_ne. }
  cbn [cells set_cells] in T5, F5. rewrite insert_insert_ne in T5, F5 by done. fold c4 in T5, F5.
  destruct (count_ok h map bs bss T h3 c4 e bss2 He0 He) as (h' & bs' & bss' & E6 & T6 & M6 & F6 & _).
  { unfold c4. rewrite lookup_insert_ne by done. rewrite <- Hm2. rewrite <- Hm2 in Hmap.
    rewrite Hmap. by eapply lookup_weaken. }
  { exact T5. }
  exists h', bs', bss'. split_and!; [done|done|by rewrite M6, M5|].
  intros a o Ha Ho. destruct (proj2 (F3 a o) (conj Ho Ha)) as [Ho3 Ha3].
  assert (Ho4 : cells (set_cells h3 (<[map := sz]> (cells h3))) !! a = Some o).
  { eapply lookup_weaken; [exact Ho3|]. cbn [cells set_cells]. by apply insert_mono. }
  apply F6, F5. by split.
Qed.

Lemma memoize_miss :
  Forall (fun x => n_content x.2 <> c) xs -> c ∉ contents (concat bss) -> adds init ->
  exists r h', memoize_loop (S (size (cells h))) map k (spread (hash_of c)) init (Bucket bs (Z.of_nat i)) h = Ok (r, h') /\
    ((r = 0 /\ cells h' = cells h /\ errno h' = ENOMEM) \/
     exists bs' bss', table h' map bs' bss' /\ map_of bss' = <[c := (k, r)]> (map_of bss) /\
       forall a o, a ∉ footprint map bs bss -> cells h !! a = Some o -> cells h' !! a = Some o /\ a ∉ footprint map bs' bss').
Proof.
  intros Hx Hc0 Hinit. destruct (fuel_split h bs bss c i _ ps q B xs) as [fuel ->]; [done|].
  rewrite (memoize_loop_walk h map k c Hk _ _ _ q xs []);
    [|apply (read_bucket_of _ _ _ _ _ _ _ _ B)|by eapply chain_end|apply (b_keys _ _ _ _ _ _ _ _ B)|done].
  cbn [memoize_loop]. step (read_end h bs bss c i xs ps q B). cbn [Z.eqb].
  destruct (createEntry_ok h k c 0) as [[Hm0 Ec]|(e & h1 & He0 & He & Ec & E1 & Ee1)]; step Ec.
  - destruct (write_null _ _ _ _ _ _ _ _ B (Heap (cells h) (ticks h + 1) ENOMEM) eq_refl) as (c2 & E2 & ->).
    step E2. eexists _, _. split; [reflexivity|]. left. by split_and!.
  - destruct (link_ok h map bs bss c i xs ps q k 0 e h1 T B Hc0 Hk He0 He E1)
      as (c2 & E2 & Hm2 & He2 & Hr2 & T3 & M3 & F3).
    step E2. rewrite (proj2 (Z.eqb_neq e 0) ltac:(lia)).
    destruct (Hinit k (set_cells h1 c2)) as (v & h3 & E3 & Hs & Ee3). step E3. step (read_slot_mono _ _ _ _ Hs Hr2).
    assert (He3 : cells h3 !! e = Some (OEntry (entry_of (Node k c 0) 0))) by by eapply lookup_weaken.
    step (load_entry_ok _ _ _ He3). step (stored_ok _ _ (OEntry (set_value (entry_of (Node k c 0) 0) v)) _ He3).
    destruct (memoize_fill h1 c2 e h3 v He0 He Hm2 Hs He3 T3 F3) as (h' & bs' & bss' & E6 & T6 & M6 & Hkeep).
    exists v, h'. split; [exact (E6 _ (ret v))|]. right. exists bs', bss'. split_and!; [done| |done].
    rewrite M6, M3. by rewrite insert_insert_eq.
Qed.
End Memoizing.

Lemma hashmapMemoize_ok h map m F k c init :
  hashmap h map m F -> key_at h k c -> adds init ->
  exists r h', hashmapMemoize map k init h = Ok (r, h') /\
    ((r = 0 /\ m !! c = None /\ cells h' = cells h /\ errno h' = ENOMEM) \/
     (r = value_of m c /\ is_Some (m !! c) /\ h' = h) \/
     (m !! c = None /\ exists F', hashmap h' map (<[c := (k, r)]> m) F' /\
      forall a o, a ∉ F -> cells h !! a = Some o -> cells h' !! a = Some o /\ a ∉ F')).
Proof.
  intros (bs & bss & T & -> & ->) Hk Hinit. destruct (table_bucket _ _ _ _ c T) as (i & xs & ps & q & B).
  unfold hashmapMemoize, value_of.
  rewrite (enter_bucket (fun hash fuel => memoize_loop fuel map k hash init) h map bs bss k c i xs ps q T Hk B).
  destruct (bucket_split _ _ _ _ _ _ _ _ _ T B) as [(pre & a & n & post & Ex & Hp & En & P & Hc0 & ->)|(Hx & Hc0 & Hno)].
  - rewrite (memoize_hit h map bs bss k c Hk i xs ps q B init pre a n post) by done.
    eexists _, _. split; [done|]. right. left. by split_and!.
  - destruct (memoize_miss h map bs bss T k c Hk i xs ps q B init Hx Hc0 Hinit)
      as (r & h' & E & [(-> & Hcs & He)|(bs' & bss' & T' & M' & Hkeep)]); exists r, h' || exists 0, h'; (split; [done|]).
    + left. by split_and!.
    + right. right. split; [done|]. exists (footprint map bs' bss'). split; [|done]. exists bs', bss'. by split_and!.
Qed.

(** ** Whole runs

    A program that creates a map, uses it and frees it, and the finite map it
    could have used instead. *)

Inductive hop : Type :=
| HPut (k v : Z)
| HGet (k : Z)
| HContainsKey (k : Z)
| HRemove (k : Z)
| HSize.

Definition hop_key (o : hop) : option Z :=
  match o with HPut k _ | HGet k | HContainsKey k | HRemove k => Some k | HSize => None end.

Definition run_hop (map : Z) (o : hop) : M (heap X) Z :=
  match o with
  | HPut k v => hashmapPut map k v
  | HGet k => hashmapGet map k
  | HContainsKey k => let! b := hashmapContainsKey map k in ret (Z.b2z b)
  | HRemove k => hashmapRemove map k
  | HSize => hashmapSize map
  end.

Fixpoint run_hops (map : Z) (os : list hop) : M (heap X) (list Z) :=
  match os with
  | [] => ret []
  | o :: os => let! r := run_hop map o in let! rs := run_hops map os in ret (r :: rs)
  end.

Definition lifecycle (cap : Z) (os : list hop) : M (heap X) (option (list Z)) :=
  let! map := hashmapCreate cap in
  if map =? 0 then ret None
  else let! rs := run_hops map os in hashmapFree map ;;! ret (Some rs).

(** The content of the key [k] points to. *)
Definition content h (k : Z) : option C :=
  if k =? 0 then None else match cells h !! k with Some (OClient x) => key_of x | _ => None end.

(** The operations on finite maps, for keys with readable contents. *)
Definition spec_hop h (m : gmap C (Z * Z)) (o : hop) : Z * gmap C (Z * Z) :=
  match o with
  | HPut k v => from_option (fun c => (value_of m c, <[c := (held m c k, v)]> m)) (0, m) (content h k)
  | HGet k => (from_option (value_of m) 0 (content h k), m)
  | HContainsKey k => (from_option (fun c => Z.b2z (isSome (m !! c))) 0 (content h k), m)
  | HRemove k => from_option (fun c => (value_of m c, delete c m)) (0, m) (content h k)
  | HSize => (Z.of_nat (size m), m)
  end.

Fixpoint spec_hops h (m : gmap C (Z * Z)) (os : list hop) : list Z :=
  match os with
  | [] => []
  | o :: os => let r := spec_hop h m o in r.1 :: spec_hops h r.2 os
  end.

Lemma content_key h k c : content h k = Some c -> key_at h k c.
Proof.
  unfold content. destruct (Z.eqb_spec k 0); [done|].
  destruct (cells h !! k) as [[]|] eqn:E; try done. intros Hc. by exists x.
Qed.

Lemma hashmap_length h map (m : gmap C (Z * Z)) F : hashmap h map m F -> length F = (2 + size m)%nat.
Proof. intros (bs & bss & T & -> & ->). by eapply length_footprint. Qed.

Lemma hashmap_framed_size h map (m m' : gmap C (Z * Z)) F h' F' :
  hashmap h map m F -> hashmap h' map m' F' -> framed h F h' F' ->
  (size (cells h') + size m <= size (cells h) + size m')%nat.
Proof.
  intros (bs & bss & T & -> & ->) (bs' & bss' & T' & -> & ->) Hf. by eapply table_size.
Qed.

(** One operation: the finite map's result, unless memory is short. *)
Definition hop_ok h m o r h' m' : Prop :=
  (errno h' = ENOMEM /\ (short h 1 \/ 2 ^ 59 <= Z.of_nat (S (size m)))) \/
  (errno h' = errno h /\ (r, m') = spec_hop h m o).

Lemma run_hop_ok h map m F o :
  hashmap h map m F -> (forall k, hop_key o = Some k -> is_Some (content h k)) ->
  exists r h' m' F', run_hop map o h = Ok (r, h') /\ hashmap h' map m' F' /\ framed h F h' F' /\
    (size m' <= S (size m))%nat /\ hop_ok h m o r h' m'.
Proof.
  intros Hm Hk. unfold hop_ok. destruct o as [k v|k|k|k|]; cbn [run_hop spec_hop hop_key] in *;
    try (destruct (Hk k eq_refl) as [c Hc]; rewrite Hc; pose proof (content_key _ _ _ Hc) as Hkc; cbn [from_option]).
  - destruct (hashmapPut_ok _ _ _ _ _ _ v Hm Hkc) as (r & h' & E & [(-> & Hno & Hcs & He & Hz)|(-> & F' & Hm' & Hf & He)]).
    + exists 0, h', m, F. split_and!; [done| | |lia|].
      * destruct Hm as (bs & bss & T & ? & ?). exists bs, bss. by split_and!; [eapply table_same_cells| |].
      * eapply framed_cells; [symmetry; exact Hcs|done].
      * left. split; [done|left]. eapply short_here; [exact Hz|lia].
    + eexists _, h', _, F'. split_and!; [done|exact Hm'|done|rewrite map_size_insert; destruct (_ !! _); cbn; lia|].
      destruct He as [He|(_ & He & Hz)]; [by right|by left].
  - eexists _, h, m, F. split_and!; [by eapply hashmapGet_ok|done|done|lia|by right].
  - eexists _, h, m, F. split_and!; [|done|done|lia|by right]. by step (hashmapContainsKey_ok _ _ _ _ _ _ Hm Hkc).
  - destruct (hashmapRemove_ok _ _ _ _ _ _ Hm Hkc) as (h' & F' & E & He & Hm' & Hf).
    eexists _, h', _, F'. split_and!; [done|done|done| |by right]. rewrite map_size_delete. destruct (_ !! _); cbn; lia.
  - eexists _, h, m, F. split_and!; [by eapply hashmapSize_ok|done|done|lia|by right].
Qed.

(** Contents of keys do not change during a run. *)
Lemma framed_content h map m F h' F' k :
  hashmap h map m F -> framed h F h' F' -> is_Some (content h k) -> content h' k = content h k.
Proof.
  intros (bs & bss & T & _ & ->) Hf [c Hc]. unfold content in *.
  destruct (k =? 0); [done|]. destruct (cells h !! k) as [[]|] eqn:E; try done.
  rewrite (framed_keeps _ _ _ _ _ _ Hf (table_no_client _ _ _ _ _ _ T E) E). done.
Qed.

Lemma spec_hop_content h h' m o :
  (forall k, hop_key o = Some k -> content h' k = content h k) -> spec_hop h' m o = spec_hop h m o.
Proof. intros Hc. destruct o; cbn in *; rewrite ?Hc by done; done. Qed.

Definition readable_ops h (os : list hop) : Prop :=
  Forall (fun o => forall k, hop_key o = Some k -> is_Some (content h k)) os.

Lemma spec_hops_content h h' m os :
  Forall (fun o => forall k, hop_key o = Some k -> content h' k = content h k) os ->
  spec_hops h' m os = spec_hops h m os.
Proof.
  intros Hc. revert m. induction Hc as [|o os Ho Hc IH]; intros m; cbn [spec_hops]; [done|].
  by rewrite (spec_hop_content h h' m o Ho), IH.
Qed.

Lemma run_hops_ok os : forall h map m F,
  hashmap h map m F -> readable_ops h os -> Z.of_nat (size m + length os) < 2 ^ 59 ->
  exists rs h' m' F', run_hops map os h = Ok (rs, h') /\ hashmap h' map m' F' /\ framed h F h' F' /\
    ((errno h' = ENOMEM /\ short h (S (length os))) \/ (errno h' = errno h /\ rs = spec_hops h m os)).
Proof.
  induction os as [|o os IH]; intros h map m F Hm Hk Hl.
  - exists [], h, m, F. split_and!; [done|done|done|by right].
  - apply Forall_cons in Hk as [Ho Hk]. cbn [length] in Hl.
    destruct (run_hop_ok _ _ _ _ o Hm Ho) as (r & h1 & m1 & F1 & E1 & Hm1 & Hf1 & Hs1 & D1).
    assert (Hsame : Forall (fun o => forall k, hop_key o = Some k -> content h1 k = content h k) os).
    { eapply Forall_impl; [exact Hk|]. intros o' Ho' k Hk'. by eapply framed_content; [exact Hm|exact Hf1|apply Ho']. }
    destruct (IH h1 map m1 F1 Hm1) as (rs & h2 & m2 & F2 & E2 & Hm2 & Hf2 & D2); [|lia|].
    { apply Forall_forall. intros o' Hin k Hk'. rewrite !Forall_forall in *. rewrite (Hsame o') by done. by eapply Hk. }
    exists (r :: rs), h2, m2, F2. split_and!; [cbn [run_hops]; step E1; by step E2|done|by eapply framed_trans|].
    destruct D2 as [[He2 Hz2]|[He2 ->]].
    { left. split; [done|]. pose proof (hashmap_framed_size _ _ _ _ _ _ _ Hm Hm1 Hf1). eapply short_le; [exact Hz2|].
      cbn [length]. lia. }
    rewrite He2. destruct D1 as [[He1 [Hz1|Hz1]]|[He1 D1]]; [left; split; [done|]|lia|right; split; [done|]].
    + eapply short_le; [exact Hz1|]. lia.
    + cbn [spec_hops]. rewrite <- D1. cbn [fst snd]. f_equal. by apply spec_hops_content.
Qed.

(** C18: a program that creates a hash map, puts, gets, tests, removes and counts
    entries in any order, and frees it gets the results of a finite map from
    the contents of keys, unless [errno] tells that memory was short, which is
    so only if [malloc] refuses in a heap with not many more objects; in either
    case the heap is left as it was: nothing leaks, and nothing of the client is
    touched. *)
Theorem hashmap_lifecycle cap os h :
  0 <= cap <= 2 ^ 59 -> readable_ops h os -> Z.of_nat (length os) < 2 ^ 59 ->
  exists r h', lifecycle cap os h = Ok (r, h') /\ cells h' = cells h /\
    ((errno h' = ENOMEM /\ short h (length os + 3)) \/
     (errno h' = errno h /\ r = Some (spec_hops h ∅ os))).
Proof.
  intros Hcap Hk Hl. unfold lifecycle.
  destruct (hashmapCreate_ok h cap) as (map & h1 & E1 & [(-> & Hc & He & Hz)|(Hm0 & He1 & F1 & Hm1 & Hf1)]); step E1.
  - exists None, h1. split_and!; [done|done|left; split; [done|]]. eapply short_le; [by apply Hz|lia].
  - rewrite (proj2 (Z.eqb_neq map 0) Hm0).
    assert (Hsame : forall k, is_Some (content h k) -> content h1 k = content h k).
    { intros k [c Hc]. unfold content in *. destruct (k =? 0); [done|].
      destruct (cells h !! k) as [[]|] eqn:E; try done. by rewrite (framed_keeps _ _ _ _ _ _ Hf1 (not_elem_of_nil _) E). }
    destruct (run_hops_ok os h1 map ∅ F1 Hm1) as (rs & h2 & m2 & F2 & E2 & Hm2 & Hf2 & D2); [|by rewrite map_size_empty|].
    { eapply Forall_impl; [exact Hk|]. intros o Ho k Hk'. rewrite Hsame by auto. auto. }
    destruct (hashmapFree_ok _ _ _ _ Hm2) as (h3 & E3 & Hf3).
    exists (Some rs), h3. split_and!; [step E2; by step E3| |].
    + apply map_eq. intros a. apply option_eq. intros o.
      pose proof (framed_trans _ _ _ _ _ _ Hf1 (framed_trans _ _ _ _ _ _ Hf2 Hf3) a o) as Hx.
      pose proof (not_elem_of_nil (A := Z) a). tauto.
    + rewrite (hashmapFree_errno _ _ _ _ E3), <- He1. destruct D2 as [[He2 Hz]|[He2 ->]]; [left|right]; (split; [done|]).
      * eapply short_le; [exact Hz|].
        pose proof (framed_size _ _ _ _ Hf1 (NoDup_nil_2) (fun a Ha => match not_elem_of_nil _ Ha with end)) as Hs.
        rewrite (hashmap_length _ _ _ _ Hm1), map_size_empty in Hs. cbn [length] in Hs. lia.
      * f_equal. apply spec_hops_content. eapply Forall_impl; [exact Hk|]. intros o Ho k Hk'. apply Hsame. auto.
Qed.
End Refine.

(** ** Integer keys *)

#[export, refine] Instance int_key_spec : KeySpec Z Z := {|
  key_of z := Some z;
  hash_of z := z
|}.
Proof.
  - intros h k x c _ Hk [= ->]. cbn. unfold hashmapIntHash, load_int, bind, load. by rewrite Hk.
  - intros h k1 x1 c1 k2 x2 c2 H1 [= ->] H2 [= ->]. cbn.
    unfold hashmapIntEquals, load_int, bind, load. rewrite H1. cbn [obind fst snd ret]. rewrite H2. cbn.
    unfold ret. do 2 f_equal. destruct (Z.eqb_spec c1 c2); [by rewrite bool_decide_true|by rewrite bool_decide_false].
Defined.

(** An allocator that hands out the first free address. *)
Definition first_fit {X} (h : heap X) : Z :=
  match list_find (fun a => cells h !! a = None) (seqZ 1 (Z.of_nat (size (cells h)) + 1)) with
  | Some (_, a) => if a <? 2 ^ 64 then a else 0
  | None => 0
  end.

Lemma first_fit_free {X} (h : heap X) :
  first_fit h <> 0 -> 0 < first_fit h < 2 ^ 64 /\ cells h !! first_fit h = None.
Proof.
  unfold first_fit. destruct (list_find _ _) as [[i a]|] eqn:E; [|done]. destruct (Z.ltb_spec a (2 ^ 64)); [|done].
  apply list_find_Some in E as (Ha%list_elem_of_lookup_2%elem_of_seqZ & Hno & _). split; [lia|done].
Qed.

#[export, refine] Instance first_fit_allocator {X} : Allocator X := {| malloc h _ := first_fit h |}.
Proof.
  - intros h _. destruct (decide (first_fit h = 0)) as [->|Hf]; [lia|]. apply first_fit_free in Hf. lia.
  - intros h _ Hf. by apply first_fit_free.
Defined.

(** It refuses only when the address space is full. *)
Lemma first_fit_room {X} (h : heap X) k : Z.of_nat (size (cells h) + k) < 2 ^ 63 -> ~ short h k.
Proof.
  intros Hk (h0 & n & Hz & Hs). cbn in Hz. unfold first_fit in Hz.
  destruct (list_find _ _) as [[i a]|] eqn:E.
  - apply list_find_Some in E as (Ha%list_elem_of_lookup_2%elem_of_seqZ & _).
    destruct (Z.ltb_spec a (2 ^ 64)); lia.
  - apply list_find_None in E. assert (Hin : list_to_set (seqZ 1 (Z.of_nat (size (cells h0)) + 1)) ⊆ (dom (cells h0) : gset Z)).
    { intros a Ha%elem_of_list_to_set. rewrite Forall_forall in E. apply elem_of_dom, not_eq_None_Some. by apply E. }
    apply subseteq_size in Hin. rewrite size_list_to_set, length_seqZ, size_dom in Hin by apply NoDup_seqZ. lia.
Qed.

(** Two keys that point to 5 and 6. *)
Definition ex_int_heap : heap Z := Heap {[ 100 := OClient 5; 101 := OClient 6 ]} 0 0.
Definition ex_hops : list hop := [HPut 100 7; HPut 101 8; HPut 100 9; HRemove 101; HContainsKey 101; HGet 100; HSize].

Lemma ex_hops_results : spec_hops (C := Z) ex_int_heap ∅ ex_hops = [0; 0; 7; 8; 0; 9; 1].
Proof. vm_compute. reflexivity. Qed.

Lemma hashmap_lifecycle_witness :
  exists h', lifecycle 1 ex_hops ex_int_heap = Ok (Some [0; 0; 7; 8; 0; 9; 1], h') /\ cells h' = cells ex_int_heap /\
    errno h' = 0.
Proof.
  rewrite <- ex_hops_results.
  destruct (hashmap_lifecycle (C := Z) 1 ex_hops ex_int_heap) as (r & h' & E & C & [[_ Hz]|[He ->]]); [lia| |reflexivity| |].
  - repeat (constructor; [intros k [= <-]; eexists; reflexivity|]). constructor.
  - exfalso. revert Hz. apply first_fit_room. reflexivity.
  - exists h'. by split_and!.
Defined.
