(* ===== verification/StrParms.v ===== *)
(** * String parameters (core/libcutils/str_parms.c, strlcpy.c)

    Parameter lists "key=value;key=value" held in a hash map.  Keys and values
    are C strings on the heap, owned by the map.  A C string is the list of its
    characters before the NUL.  [strdup], [strtok_r], [strchr], [strtol],
    [snprintf("%d")] and [asprintf] are modelled as the C standard describes
    them; conversions of floating-point numbers are parameters.  Log output is
    left out. *)

From S2P Require Import Prelude Hashmap.
From Stdlib Require Import Ascii.

#[local] Open Scope Z_scope.
#[local] Open Scope c_scope.

Definition ENOENT : Z := 2.

Notation cstr := (list ascii).

(** The client's objects: strings, and [struct str_parms]. *)
Inductive cobj : Type :=
| CStr (s : cstr)
| CParms (map : Z).

Notation MS := (M (heap cobj)).

Definition char_value `{Platform} (c : ascii) : Z := char_int (Z.of_N (N_of_ascii c)).

Definition load_str (p : Z) : MS cstr :=
  let! o := load p in match o with OClient (CStr s) => ret s | _ => undef end.
Definition load_parms (p : Z) : MS Z :=
  let! o := load p in match o with OClient (CParms map) => ret map | _ => undef end.

(** A new string with the characters [s]. *)
Definition new_str `{Allocator cobj} (s : cstr) : MS Z :=
  alloc (Z.of_nat (length s) + 1) (OClient (CStr s)).

(** ** Hashing and comparing keys *)

Definition str_eq (key_a key_b : Z) : MS bool :=
  let! a := load_str key_a in
  let! b := load_str key_b in
  ret (bool_decide (a = b)).

Definition str_hash `{Platform} (s : cstr) : Z :=
  i32 (foldl (fun hash c => u32 (u32 (Z.shiftl hash 5) + hash + char_value c)) 5381 s).

Definition str_hash_fn `{Platform} (str : Z) : MS Z :=
  if str =? 0 then ret (str_hash []) else let! s := load_str str in ret (str_hash s).

#[export] Instance str_keys `{Platform} : KeyFns cobj := {| hash := str_hash_fn; equals := str_eq |}.

(** ** Reading numbers *)

Definition is_space (c : ascii) : bool :=
  let n := Z.of_N (N_of_ascii c) in (n =? 32) || ((9 <=? n) && (n <=? 13)).

(** The value of a digit in bases up to 16. *)
Definition digit_of (c : ascii) : option Z :=
  let n := Z.of_N (N_of_ascii c) in
  if (48 <=? n) && (n <=? 57) then Some (n - 48)
  else if (97 <=? n) && (n <=? 102) then Some (n - 87)
  else if (65 <=? n) && (n <=? 70) then Some (n - 55)
  else None.

(** The digits at the front of [s], most significant first, and their number. *)
Fixpoint read_digits (base : Z) (s : cstr) (acc : Z) (count : nat) : Z * nat :=
  match s with
  | [] => (acc, count)
  | c :: s =>
    match digit_of c with
    | Some d => if d <? base then read_digits base s (acc * base + d) (S count) else (acc, count)
    | None => (acc, count)
    end
  end.

Fixpoint skip_space (s : cstr) : nat :=
  match s with c :: s => if is_space c then S (skip_space s) else O | [] => O end.

(** [strtol(s, &end, 0)]: the value, saturated to [long], and [end - s]. *)
Definition strtol (s : cstr) : Z * nat :=
  let ws := skip_space s in
  let s1 := drop ws s in
  let '(neg, sign) := match s1 with "-"%char :: _ => (true, 1%nat) | "+"%char :: _ => (false, 1%nat) | _ => (false, 0%nat) end in
  let s2 := drop sign s1 in
  let is_hex := match s2 with
                | "0"%char :: x :: d :: _ => (bool_decide (x = "x"%char) || bool_decide (x = "X"%char)) && isSome (digit_of d)
                | _ => false
                end in
  let base := if is_hex then 16 else match s2 with "0"%char :: _ => 8 | _ => 10 end in
  let prefix := if is_hex then 2%nat else 0%nat in
  let '(v, n) := read_digits base (drop prefix s2) 0 0 in
  if (n =? 0)%nat then (0, 0%nat)
  else (Z.max (- 2 ^ 63) (Z.min (2 ^ 63 - 1) (if (neg : bool) then - v else v)), (ws + sign + prefix + n)%nat).

(** [%d]; ten digits are enough for an [int]. *)
Definition digit_char (d : Z) : ascii := ascii_of_N (Z.to_N (48 + d)).
Fixpoint dec_digits (fuel : nat) (n : Z) : cstr :=
  match fuel with
  | O => []
  | S fuel => (if n <? 10 then [] else dec_digits fuel (n / 10)) ++ [digit_char (n mod 10)]
  end.
Definition dec (z : Z) : cstr :=
  if z <? 0 then "-"%char :: dec_digits 10 (- z) else dec_digits 10 z.

(** ** strlcpy *)

Definition NUL : ascii := "000"%char.

(** The copying loop: [n], the offset of [d] and [s], and the buffer. *)
Fixpoint strlcpy_loop (fuel : nat) (dst src : cstr) (n : Z) (i : nat) : outcome (Z * nat * cstr) :=
  let n := n - 1 in
  if n =? 0 then Ok (0, i, dst)
  else match fuel with
  | O => NoFuel
  | S fuel =>
    let c := nth i src NUL in
    if (i <? length dst)%nat then
      let dst := <[i := c]> dst in
      if decide (c = NUL) then Ok (n, S i, dst) else strlcpy_loop fuel dst src n (S i)
    else UB
  end.

Definition strlcpy (dst src : cstr) (siz : Z) : outcome (Z * cstr) :=
  let len := length src in
  do! r := (if siz =? 0 then Ok (0, 0%nat, dst) else strlcpy_loop (S len) dst src siz 0) in
  let '(n, i, dst) := r in
  if n =? 0 then
    if siz =? 0 then Ok (Z.of_nat len, dst)
    else if (i <? length dst)%nat then Ok (Z.of_nat len, <[i := NUL]> dst) else UB
  else Ok (Z.of_nat i - 1, dst).

(** ** Parsing "key=value;..." *)

(** The characters before the first [d], and those after it. *)
Fixpoint split_at (d : ascii) (s : cstr) : option (cstr * cstr) :=
  match s with
  | [] => None
  | c :: s =>
    if decide (c = d) then Some ([], s)
    else match split_at d s with Some (a, b) => Some (c :: a, b) | None => None end
  end.

Fixpoint skip_delim (s : cstr) : cstr :=
  match s with c :: s' => if decide (c = ";"%char) then skip_delim s' else s | [] => [] end.

(** [strtok_r] with the delimiter ";": the next token, and what follows it. *)
Definition strtok_r (s : cstr) : option (cstr * cstr) :=
  match skip_delim s with
  | [] => None
  | s => Some (match split_at ";"%char s with Some (tok, rest) => (tok, rest) | None => (s, []) end)
  end.

Section Ops.
Context `{Platform} `{Allocator cobj}.
Context {float : Type} (fmt_float : float -> cstr) (strtof : cstr -> float * nat).

Definition str_parms_create : MS Z :=
  let! str_parms := alloc sizeof_ptr (OClient (CParms 0)) in
  if str_parms =? 0 then ret 0
  else
    let! map := hashmapCreate 5 in
    if map =? 0 then free str_parms ;;! ret 0
    else store str_parms (OClient (CParms map)) ;;! ret str_parms.

(** The label [do_remove] of [remove_pair]. *)
Definition do_remove (str_parms key value : Z) (should_continue : bool) : MS (bool * unit) :=
  let! map := load_parms str_parms in
  hashmapRemove map key ;;!
  free key ;;!
  free value ;;!
  ret (should_continue, tt).

(** The context [{str_parms, key}] is the first two arguments. *)
Definition remove_pair (ctxt_parms ctxt_key : Z) (key value : Z) (_ : unit) : MS (bool * unit) :=
  if ctxt_key =? 0 then do_remove ctxt_parms key value true
  else
    let! a := load_str ctxt_key in
    let! b := load_str key in
    if decide (a = b) then do_remove ctxt_parms key value false else ret (true, tt).

Definition str_parms_del (str_parms key : Z) : MS unit :=
  let! map := load_parms str_parms in
  hashmapForEach map (remove_pair str_parms key) tt.

Definition str_parms_destroy (str_parms : Z) : MS unit :=
  let! map := load_parms str_parms in
  hashmapForEach map (remove_pair str_parms 0) tt ;;!
  let! map := load_parms str_parms in
  hashmapFree map ;;!
  free str_parms.

(** One token of [str_parms_create_str].  The copies are not checked. *)
Definition add_pair (map : Z) (kvpair : cstr) : MS unit :=
  let put (k v : cstr) :=
    let! key := new_str k in
    let! value := new_str v in
    let! old_val := hashmapPut map key value in
    if negb (old_val =? 0) then free old_val ;;! free key else ret tt in
  match split_at "="%char kvpair with
  | Some ([], _) => ret tt
  | Some (k, v) => put k v
  | None => put kvpair []
  end.

Fixpoint pair_loop (fuel : nat) (map : Z) (s : cstr) : MS unit :=
  match strtok_r s with
  | None => ret tt
  | Some (kvpair, rest) =>
    match fuel with
    | O => no_fuel
    | S fuel => add_pair map kvpair ;;! pair_loop fuel map rest
    end
  end.

Definition str_parms_create_str (_string : Z) : MS Z :=
  let! str_parms := str_parms_create in
  if str_parms =? 0 then ret 0
  else
    let! s := load_str _string in
    let! str := new_str s in
    if str =? 0 then str_parms_destroy str_parms ;;! ret 0
    else
      let! map := load_parms str_parms in
      pair_loop (length s) map s ;;!
      free str ;;!
      ret str_parms.

(** The label [clean_up] of [str_parms_add_str]. *)
Definition clean_up (saved_errno tmp_key tmp_val old_val : Z) : MS Z :=
  free tmp_key ;;!
  free tmp_val ;;!
  free old_val ;;!
  let! e := gets errno in
  set_errno saved_errno ;;!
  ret (- e).

(** The strings are given by the code that reads them, so that [val_str] of
    [str_parms_add_int] need not be an object of the heap. *)
Definition add_strings (str_parms : Z) (key value : MS cstr) : MS Z :=
  let! saved_errno := gets errno in
  set_errno 0 ;;!
  let! k := key in
  let! tmp_key := new_str k in
  if tmp_key =? 0 then clean_up saved_errno tmp_key 0 0
  else
    let! v := value in
    let! tmp_val := new_str v in
    if tmp_val =? 0 then clean_up saved_errno tmp_key tmp_val 0
    else
      let! map := load_parms str_parms in
      let! old_val := hashmapPut map tmp_key tmp_val in
      if old_val =? 0 then
        let! e := gets errno in
        if e =? ENOMEM then clean_up saved_errno tmp_key tmp_val old_val
        else clean_up saved_errno 0 0 old_val
      else clean_up saved_errno tmp_key 0 old_val.

Definition str_parms_add_str (str_parms key value : Z) : MS Z :=
  add_strings str_parms (load_str key) (load_str value).

(** [snprintf] cuts the text to the size of [val_str]. *)
Definition str_parms_add_int (str_parms key value : Z) : MS Z :=
  add_strings str_parms (load_str key) (ret (take 11 (dec value))).

Definition str_parms_add_float (str_parms key : Z) (value : float) : MS Z :=
  add_strings str_parms (load_str key) (ret (take 22 (fmt_float value))).

Definition str_parms_has_key (str_parms key : Z) : MS Z :=
  let! map := load_parms str_parms in
  let! v := hashmapGet map key in
  ret (if v =? 0 then 0 else 1).

(** The result, and the buffer [val] after the call. *)
Definition str_parms_get_str (str_parms key : Z) (val : cstr) (len : Z) : MS (Z * cstr) :=
  let! map := load_parms str_parms in
  let! value := hashmapGet map key in
  if negb (value =? 0) then
    let! s := load_str value in
    let! (n, val) := lift (strlcpy val s (u64 len)) in
    ret (i32 n, val)
  else ret (- ENOENT, val).

(** The result, and [*val] after the call. *)
Definition str_parms_get_int (str_parms key val : Z) : MS (Z * Z) :=
  let! map := load_parms str_parms in
  let! value := hashmapGet map key in
  if value =? 0 then ret (- ENOENT, val)
  else
    let! s := load_str value in
    let '(v, n) := strtol s in
    if negb (length s =? 0)%nat && (n =? length s)%nat then ret (0, i32 v) else ret (- EINVAL, i32 v).

Definition str_parms_get_float (str_parms key : Z) (val : float) : MS (Z * float) :=
  let! map := load_parms str_parms in
  let! value := hashmapGet map key in
  if value =? 0 then ret (- ENOENT, val)
  else
    let! s := load_str value in
    let '(out, n) := strtof s in
    if (length s =? 0)%nat || negb (n =? length s)%nat then ret (- EINVAL, val) else ret (0, out).

(** The context is the object that [old_str] points to. *)
Definition combine_strings (key value : Z) (old_str : Z) : MS (bool * Z) :=
  let! old := (if old_str =? 0 then ret [] else let! s := load_str old_str in ret (s ++ [";"%char])) in
  let! k := load_str key in
  let! v := load_str value in
  let! new_ := new_str (old ++ k ++ "="%char :: v) in
  (if negb (old_str =? 0) then free old_str else ret tt) ;;!
  if negb (new_ =? 0) then ret (true, new_) else ret (false, 0).

Definition str_parms_to_str (str_parms : Z) : MS Z :=
  let! map := load_parms str_parms in
  let! n := hashmapSize map in
  if 0 <? n then hashmapForEach map combine_strings 0 else new_str [].
End Ops.
