(* ===== verification/StrParmsProps.v ===== *)
(** * String parameters: what the functions do

    A parameter list stands for a finite map from strings to strings
    ([parms]); the functions of StrParms.v act on it as on that map, and own
    the strings they copy. *)

From S2P Require Import Prelude Hashmap HashmapProps HashmapRefine StrParms.
From Stdlib Require Import Ascii.

#[local] Open Scope Z_scope.
#[local] Open Scope c_scope.

(** ** Keys *)

#[export, refine] Instance str_key_spec `{Platform} : KeySpec cobj (list ascii) := {|
  key_of x := match x with CStr s => Some s | CParms _ => None end;
  hash_of := str_hash
|}.
Proof.
  - intros h k x c Hk0 Hk Hx. destruct x as [s|]; [|done]. injection Hx as ->. cbn. unfold str_hash_fn.
    rewrite (proj2 (Z.eqb_neq k 0) Hk0). unfold load_str, bind, load. by rewrite Hk.
  - intros h k1 x1 c1 k2 x2 c2 H1 Hx1 H2 Hx2. destruct x1, x2; try done. injection Hx1 as ->. injection Hx2 as ->.
    cbn. unfold str_eq, load_str, bind, load. rewrite H1. cbn [obind fst snd ret]. by rewrite H2.
Defined.

(** ** Numbers *)

Lemma digit_cases d : 0 <= d < 10 ->
  d = 0 \/ d = 1 \/ d = 2 \/ d = 3 \/ d = 4 \/ d = 5 \/ d = 6 \/ d = 7 \/ d = 8 \/ d = 9.
Proof. lia. Qed.

(** Splits into the ten digits. *)
Ltac digits H := apply digit_cases in H; repeat destruct H as [H|H]; subst.

Lemma digit_of_char d : 0 <= d < 10 -> digit_of (digit_char d) = Some d.
Proof. intros H. digits H; reflexivity. Qed.

Lemma read_dec fuel : forall n t acc count, 0 <= n < 10 ^ Z.of_nat fuel ->
  read_digits 10 (dec_digits fuel n ++ t) acc count =
  read_digits 10 t (acc * 10 ^ Z.of_nat (length (dec_digits fuel n)) + n) (count + length (dec_digits fuel n)).
Proof.
  induction fuel as [|fuel IH]; intros n t acc count Hn.
  - assert (n = 0) as -> by (cbn in Hn; lia). cbn [dec_digits app length Z.of_nat].
    change (10 ^ 0) with 1. f_equal; lia.
  - rewrite Nat2Z.inj_succ, Z.pow_succ_r in Hn by lia. cbn [dec_digits].
    pose proof (Z.mod_pos_bound n 10 ltac:(lia)) as Hm. pose proof (Z.div_mod n 10 ltac:(lia)) as Hd.
    assert (Hlast : forall a k, read_digits 10 ([digit_char (n mod 10)] ++ t) a k = read_digits 10 t (a * 10 + n mod 10) (S k)).
    { intros a k. cbn [app read_digits]. rewrite digit_of_char by done. by rewrite (proj2 (Z.ltb_lt _ _)) by lia. }
    destruct (Z.ltb_spec n 10).
    + cbn [app length]. rewrite Hlast, Z.mod_small by lia. f_equal; lia.
    + rewrite <- app_assoc, IH, Hlast by (pose proof (Z.div_lt_upper_bound n 10 (10 ^ Z.of_nat fuel)); lia).
      rewrite length_app, Nat2Z.inj_add, Z.pow_add_r by lia. cbn [length]. f_equal; [|lia].
      change (10 ^ Z.of_nat 1) with 10. lia.
Qed.

(** A number above 0 starts with a digit above 0. *)
Lemma dec_head fuel : forall n, 0 < n < 10 ^ Z.of_nat fuel ->
  exists d rest, 0 < d < 10 /\ dec_digits fuel n = digit_char d :: rest.
Proof.
  induction fuel as [|fuel IH]; intros n Hn; [cbn in Hn; lia|].
  rewrite Nat2Z.inj_succ, Z.pow_succ_r in Hn by lia. cbn [dec_digits]. destruct (Z.ltb_spec n 10).
  - exists n, []. rewrite Z.mod_small by lia. split; [lia|done].
  - destruct (IH (n / 10)) as (d & rest & Hd & ->); [|by exists d, (rest ++ [digit_char (n mod 10)])].
    split; [apply Z.div_str_pos; lia|apply Z.div_lt_upper_bound; lia].
Qed.

(** [strtol] on digits, after an optional minus sign. *)
Lemma strtol_digits n (neg : bool) :
  0 < n < 10 ^ 10 ->
  strtol ((if neg then ["-"%char] else []) ++ dec_digits 10 n) =
  (if neg then - n else n, length ((if neg then ["-"%char] else []) ++ dec_digits 10 n)).
Proof.
  intros Hn. pose proof (read_dec 10 n [] 0 0 ltac:(lia)) as Hr. rewrite app_nil_r in Hr. cbn [read_digits] in Hr.
  destruct (dec_head 10 n ltac:(lia)) as (d & rest & Hd & E). rewrite E in *. clear E.
  assert (Hd' : 0 <= d < 10) by lia.
  assert (Hres : read_digits 10 (digit_char d :: rest) 0 0 = (n, S (length rest))) by (rewrite Hr; f_equal; lia). clear Hr.
  unfold strtol. destruct neg; digits Hd'; try lia;
    match type of Hres with context [digit_char ?k] =>
      let v := eval vm_compute in (digit_char k) in change (digit_char k) with v in * end;
    cbn - [Z.pow read_digits Z.max Z.min]; change (is_space "-"%char) with false;
    repeat match goal with |- context [is_space ?c] => is_ground c; change (is_space c) with false end;
    cbn - [Z.pow read_digits Z.max Z.min]; rewrite ?drop_0, Hres; cbn - [Z.pow Z.max Z.min]; f_equal; lia.
Qed.

(** Reading a number that was printed. *)
Lemma strtol_dec z : - 2 ^ 31 <= z < 2 ^ 31 -> strtol (dec z) = (z, length (dec z)).
Proof.
  intros Hz. unfold dec. destruct (Z.ltb_spec z 0).
  - pose proof (strtol_digits (- z) true ltac:(lia)) as E. cbn [app] in E. rewrite E. f_equal. lia.
  - destruct (decide (z = 0)) as [->|]; [reflexivity|]. apply (strtol_digits z false). lia.
Qed.

Lemma length_dec z : - 2 ^ 31 <= z < 2 ^ 31 -> (0 < length (dec z) <= 11)%nat.
Proof.
  intros Hz. assert (Hl : forall fuel n, (length (dec_digits fuel n) <= fuel)%nat).
  { induction fuel as [|fuel IH]; intros n; cbn [dec_digits]; [cbn; lia|]. rewrite length_app. cbn [length].
    destruct (n <? 10); cbn [length]; [lia|]. specialize (IH (n / 10)). lia. }
  unfold dec. destruct (Z.ltb_spec z 0).
  - specialize (Hl 10%nat (- z)). cbn [length]. lia.
  - specialize (Hl 10%nat z). split; [|lia]. cbn [dec_digits]. rewrite length_app. cbn [length]. lia.
Qed.

(** ** strlcpy *)

Lemma put_char (src dst : cstr) i c :
  (i <= length src)%nat -> (i < length dst)%nat ->
  <[i := c]> (take i src ++ drop i dst) = take i src ++ c :: drop (S i) dst.
Proof.
  intros Hs Hd. assert (Hl : length (take i src) = i) by (rewrite length_take; lia).
  rewrite insert_app_r_alt by lia. rewrite Hl, Nat.sub_diag.
  destruct (lookup_lt_is_Some_2 dst i Hd) as [x Hx]. by rewrite (drop_S _ _ _ Hx).
Qed.

(** The copying loop, when [i] characters are copied. *)
Lemma strlcpy_loop_ok src dst : NUL ∉ src -> forall fuel n i,
  (i <= length src)%nat -> (length src < fuel + i)%nat -> 0 < n -> Z.of_nat i + n <= Z.of_nat (length dst) ->
  strlcpy_loop fuel (take i src ++ drop i dst) src n i =
  let j := Z.to_nat (Z.of_nat i + n - 1) in
  if (j <=? length src)%nat then Ok (0, j, take j src ++ drop j dst)
  else Ok (n - Z.of_nat (S (length src) - i), S (length src), src ++ NUL :: drop (S (length src)) dst).
Proof.
  intros Hsrc. induction fuel as [|fuel IH]; intros n i Hi Hf Hn Hd; [lia|]. cbn [strlcpy_loop]. cbn zeta.
  destruct (Z.eqb_spec (n - 1) 0) as [En|En].
  { replace (Z.to_nat (Z.of_nat i + n - 1)) with i by lia. by rewrite (proj2 (Nat.leb_le _ _)). }
  rewrite (proj2 (Nat.ltb_lt i _)) by (rewrite length_app, length_take, length_drop; lia).
  rewrite put_char by lia. destruct (decide (i = length src)) as [->|Hne].
  - rewrite nth_overflow by done. rewrite decide_True by done. rewrite take_ge by done.
    rewrite (proj2 (Nat.leb_gt _ _)) by lia. do 3 f_equal. lia.
  - destruct (lookup_lt_is_Some_2 src i ltac:(lia)) as [c Hc]. rewrite (nth_lookup_Some _ _ _ _ Hc).
    rewrite decide_False by (intros ->; by apply Hsrc, (list_elem_of_lookup_2 _ i)).
    replace (take i src ++ c :: drop (S i) dst) with (take (S i) src ++ drop (S i) dst)
      by (by rewrite (take_S_r _ _ _ Hc), <- app_assoc).
    rewrite IH by lia. replace (Z.of_nat (S i) + (n - 1) - 1) with (Z.of_nat i + n - 1) by lia.
    cbn zeta. destruct (_ <=? _)%nat; [done|]. do 3 f_equal. lia.
Qed.

(** [strlcpy] copies what fits, ends it with NUL and returns the length of the
    source. *)
Lemma strlcpy_ok dst src siz :
  NUL ∉ src -> 0 < siz <= Z.of_nat (length dst) ->
  strlcpy dst src siz = Ok (Z.of_nat (length src),
    let j := Nat.min (Z.to_nat (siz - 1)) (length src) in take j src ++ NUL :: drop (S j) dst).
Proof.
  intros Hsrc Hs. unfold strlcpy. rewrite (proj2 (Z.eqb_neq siz 0)) by lia.
  pose proof (strlcpy_loop_ok src dst Hsrc (S (length src)) siz 0 ltac:(lia) ltac:(lia) ltac:(lia) ltac:(lia)) as E.
  rewrite take_0, drop_0 in E. cbn [app] in E. rewrite E. cbn zeta. replace (Z.of_nat 0 + siz - 1) with (siz - 1) by lia.
  set (j := Z.to_nat (siz - 1)). destruct (Nat.leb_spec j (length src)) as [Hj|Hj]; cbn [obind].
  - cbn [Z.eqb]. rewrite (proj2 (Nat.ltb_lt j _)) by (rewrite length_app, length_take, length_drop; lia).
    rewrite Nat.min_l by lia. by rewrite put_char by lia.
  - rewrite (proj2 (Z.eqb_neq _ 0)) by lia. rewrite Nat.min_r by lia. rewrite take_ge by lia. do 2 f_equal. lia.
Qed.

(** ** Parameter lists on the heap *)

Section Parms.
Context `{Platform} `{Allocator cobj}.
Implicit Types (h : heap cobj) (map p a k v : Z) (c s : cstr).

(** The strings a map holds. *)
Definition strings (mm : gmap cstr (Z * Z)) : list Z := map_to_list mm ≫= (fun x => [x.2.1; x.2.2]).

Definition pair_at h (c : cstr) (kv : Z * Z) (s : cstr) : Prop :=
  cells h !! kv.1 = Some (OClient (CStr c)) /\ kv.1 <> 0 /\
  cells h !! kv.2 = Some (OClient (CStr s)) /\ kv.2 <> 0.

(** [h] holds at [p] the parameters [m], in the cells [F]. *)
Definition parms h (p : Z) (m : gmap cstr cstr) (F : list Z) : Prop :=
  exists (map : Z) mm FM, p <> 0 /\ cells h !! p = Some (OClient (CParms map)) /\ hashmap h map mm FM /\
    map_Forall2 (pair_at h) mm m /\ NoDup (strings mm) /\ F = p :: FM ++ strings mm.

(** The list at [p] holds the key [c] at [kv.1] and its value at [kv.2]. *)
Definition holds_pair h (p : Z) (c : cstr) (kv : Z * Z) : Prop :=
  exists (map : Z) mm FM, cells h !! p = Some (OClient (CParms map)) /\ hashmap h map mm FM /\
    mm !! c = Some kv /\ NoDup (strings mm).

Lemma load_str_ok h p s : cells h !! p = Some (OClient (CStr s)) -> load_str p h = Ok (s, h).
Proof. intros E. unfold load_str, bind, load. by rewrite E. Qed.

Lemma load_parms_ok h p map : cells h !! p = Some (OClient (CParms map)) -> load_parms p h = Ok (map, h).
Proof. intros E. unfold load_parms, bind, load. by rewrite E. Qed.

Lemma new_str_ok h s :
  (malloc h (Z.of_nat (length s) + 1) = 0 /\ new_str s h = Ok (0, Heap (cells h) (ticks h + 1) ENOMEM)) \/
  (exists a h1, a <> 0 /\ cells h !! a = None /\ new_str s h = Ok (a, h1) /\
     cells h1 = <[a := OClient (CStr s)]> (cells h) /\ errno h1 = errno h).
Proof.
  unfold new_str, alloc. destruct (Z.eqb_spec (malloc h (Z.of_nat (length s) + 1)) 0) as [E|E]; [by left|right].
  eexists (malloc h _), _. split_and!; [done|by apply malloc_fresh|done|done|done].
Qed.

Lemma pairs_lookup h (mm : gmap cstr (Z * Z)) (m : gmap cstr cstr) c kv :
  map_Forall2 (pair_at h) mm m -> mm !! c = Some kv -> exists s, m !! c = Some s /\ pair_at h c kv s.
Proof. intros Hp Hc. specialize (Hp c). rewrite Hc in Hp. inversion Hp; eauto. Qed.

Lemma pairs_absent h (mm : gmap cstr (Z * Z)) (m : gmap cstr cstr) c :
  map_Forall2 (pair_at h) mm m -> mm !! c = None -> m !! c = None.
Proof. intros Hp Hc. specialize (Hp c). rewrite Hc in Hp. by inversion Hp. Qed.

(** *** The list of strings *)

Lemma strings_insert mm c k v :
  mm !! c = None -> strings (<[c := (k, v)]> mm) ≡ₚ k :: v :: strings mm.
Proof. intros Hc. unfold strings. rewrite map_to_list_insert by done. done. Qed.

Lemma strings_delete mm c k v :
  mm !! c = Some (k, v) -> strings mm ≡ₚ k :: v :: strings (delete c mm).
Proof. intros Hc. rewrite <- (insert_delete_id mm c (k, v)) at 1 by done. rewrite strings_insert; [done|]. apply lookup_delete_eq. Qed.

Lemma strings_replace mm c k v v' :
  mm !! c = Some (k, v) -> strings (<[c := (k, v')]> mm) ≡ₚ k :: v' :: strings (delete c mm).
Proof.
  intros Hc. rewrite <- insert_delete_eq. apply strings_insert. apply lookup_delete_eq.
Qed.

Lemma elem_of_strings mm a :
  a ∈ strings mm <-> exists c k v, mm !! c = Some (k, v) /\ (a = k \/ a = v).
Proof.
  unfold strings. rewrite list_elem_of_bind. split.
  - intros ([c [k v]] & Ha & Hc%elem_of_map_to_list). cbn in Ha. exists c, k, v. split; [done|].
    by rewrite !elem_of_cons, elem_of_nil in Ha; destruct Ha as [|[|[]]]; auto.
  - intros (c & k & v & Hc & Ha). exists (c, (k, v)). split; [|by apply elem_of_map_to_list].
    cbn. rewrite !elem_of_cons, elem_of_nil. tauto.
Qed.

(** *** Frames *)

Lemma hashmap_no_client h (map : Z) (mm : gmap cstr (Z * Z)) FM a x :
  hashmap h map mm FM -> cells h !! a = Some (OClient x) -> a ∉ FM.
Proof. intros (bs & bss & T & _ & ->) Ha. by eapply table_no_client. Qed.

(** Client objects survive an operation on the map. *)
Lemma framed_client h (map : Z) (mm : gmap cstr (Z * Z)) FM h' FM' a x :
  hashmap h map mm FM -> framed h FM h' FM' -> cells h !! a = Some (OClient x) ->
  cells h' !! a = Some (OClient x) /\ a ∉ FM'.
Proof. intros Hm Hf Ha. apply (Hf a). split; [done|]. by eapply hashmap_no_client. Qed.

Lemma hashmap_mono h h' (map : Z) (mm : gmap cstr (Z * Z)) FM :
  cells h ⊆ cells h' -> hashmap h map mm FM -> hashmap h' map mm FM.
Proof. intros Hs (bs & bss & T & Hm & HF). exists bs, bss. by split_and!; [eapply table_mono| |]. Qed.

Lemma pair_at_mono h h' c kv s : cells h ⊆ cells h' -> pair_at h c kv s -> pair_at h' c kv s.
Proof. intros Hs (? & ? & ? & ?). split_and!; [by eapply lookup_weaken|done|by eapply lookup_weaken|done]. Qed.

Lemma parms_mono h h' p m F : cells h ⊆ cells h' -> parms h p m F -> parms h' p m F.
Proof.
  intros Hs (map & mm & FM & Hp & Hc & Hm & Hpairs & Hn & HF). exists map, mm, FM.
  split_and!; [done|by eapply lookup_weaken|by eapply hashmap_mono| |done|done].
  eapply map_Forall2_impl; [exact Hpairs|]. intros c kv s. by apply pair_at_mono.
Qed.

(** The cells of a parameter list are in use. *)
Lemma parms_cells h p m F a : parms h p m F -> a ∈ F -> is_Some (cells h !! a).
Proof.
  intros (map & mm & FM & Hp & Hc & Hm & Hpairs & Hn & ->).
  rewrite elem_of_cons, elem_of_app. intros [->|[Ha|Ha]]; [by rewrite Hc| |].
  - destruct Hm as (bs & bss & T & _ & ->). unfold footprint in Ha. rewrite !elem_of_cons in Ha.
    destruct (t_chains _ _ _ _ T) as (ps & Hb & Hcs).
    destruct Ha as [->|[->|Ha]]; [by rewrite (t_map _ _ _ _ T)|by rewrite Hb|].
    destruct (chains_cells _ _ _ _ Hcs Ha) as [e ->]. done.
  - apply elem_of_strings in Ha as (c & k & v & Hmm & Ha).
    destruct (pairs_lookup _ _ _ _ _ Hpairs Hmm) as (s & _ & Hk & _ & Hv & _).
    destruct Ha as [->| ->]; eauto.
Qed.

Lemma pairs_size h (mm : gmap cstr (Z * Z)) (m : gmap cstr cstr) : map_Forall2 (pair_at h) mm m -> size mm = size m.
Proof. intros Hp%(map_Forall2_dom_L (D := gset cstr)). by rewrite <- !(size_dom (D := gset cstr)), Hp. Qed.

Lemma length_strings mm : length (strings mm) = (2 * size mm)%nat.
Proof.
  unfold strings. rewrite <- length_map_to_list. induction (map_to_list mm) as [|x l IH]; [done|].
  rewrite bind_cons, length_app, IH. cbn [length]. lia.
Qed.

Lemma parms_length h p m F : parms h p m F -> length F = (3 + 3 * size m)%nat.
Proof.
  intros (map & mm & FM & _ & _ & Hm & Hpairs & _ & ->). cbn [length].
  rewrite length_app, length_strings, (hashmap_length _ _ _ _ Hm), (pairs_size _ _ _ Hpairs). lia.
Qed.

Lemma parms_nodup h p m F : parms h p m F -> NoDup F.
Proof.
  intros (map & mm & FM & _ & Hpc & Hm & Hpairs & Hn & ->). destruct Hm as (bs & bss & T & _ & ->).
  pose proof (fun a x => table_no_client h map bs bss a x T) as Hno.
  assert (Hs : forall a, a ∈ strings mm -> exists s, cells h !! a = Some (OClient (CStr s))).
  { intros a (c & k & v & Hmm & Ha)%elem_of_strings.
    destruct (pairs_lookup _ _ _ _ _ Hpairs Hmm) as (s & _ & Hk & _ & Hv & _). destruct Ha as [->| ->]; eauto. }
  apply NoDup_cons. split.
  - intros [Hin|Hin]%elem_of_app; [by eapply Hno|]. apply Hs in Hin as [s Hin]. congruence.
  - apply NoDup_app. split_and!; [by eapply table_footprint| |done].
    intros a Ha Hin. apply Hs in Hin as [s Hin]. by eapply Hno.
Qed.

(** Every pair is three objects: the entry and two strings. *)
Lemma parms_size h p (m m' : gmap cstr cstr) F h' F' :
  parms h p m F -> parms h' p m' F' -> framed h F h' F' ->
  (size (cells h') + 3 * size m <= size (cells h) + 3 * size m')%nat.
Proof.
  intros Hp Hp' Hf. pose proof (framed_size _ _ _ _ Hf (parms_nodup _ _ _ _ Hp) (fun a => parms_cells _ _ _ _ a Hp)) as Hs.
  rewrite (parms_length _ _ _ _ Hp), (parms_length _ _ _ _ Hp') in Hs. lia.
Qed.

(** Freeing an object of the client that is not a key of the map. *)
Lemma table_drop h h' (map bs : Z) (bss : list (list (Z * node cstr))) a x :
  table h map bs bss -> cells h !! a = Some (OClient x) ->
  (forall y, y ∈ concat bss -> n_key y.2 <> a) -> cells h' = delete a (cells h) -> table h' map bs bss.
Proof.
  intros T Ha Hk E. pose proof (table_no_client _ _ _ _ _ _ T Ha) as Hfp. unfold footprint in Hfp.
  rewrite !not_elem_of_cons in Hfp. destruct Hfp as (H1 & H2 & H3).
  destruct T as [Hm Hn (ps & Hb & Hc) ? ? ? ? Hks Hd]. constructor; try done.
  - by rewrite E, lookup_delete_ne.
  - exists ps. split; [by rewrite E, lookup_delete_ne|]. eapply chains_frame; [|exact Hc].
    intros d Hin. rewrite E, lookup_delete_ne; [done|]. by intros ->.
  - intros y Hy. destruct (Hks y Hy) as (z & [? ?] & ?). exists z. rewrite E, lookup_delete_ne; [done|].
    intros E'. by apply (Hk y).
Qed.

Lemma hashmap_drop h h' (map : Z) (mm : gmap cstr (Z * Z)) FM a x :
  hashmap h map mm FM -> cells h !! a = Some (OClient x) ->
  (forall c kv, mm !! c = Some kv -> kv.1 <> a) -> cells h' = delete a (cells h) -> hashmap h' map mm FM.
Proof.
  intros (bs & bss & T & -> & ->) Ha Hk E. exists bs, bss. split_and!; [|done|done].
  eapply table_drop; [done|done| |done]. intros y Hy.
  exact (Hk _ _ (map_of_lookup _ _ (t_distinct _ _ _ _ T) Hy)).
Qed.

(** Two new strings, for a key and a value, next to a parameter list. *)
Section TwoStrings.
Context (h h1 h2 : heap cobj) (p : Z) (m : gmap cstr cstr) (F : list Z) (Hp : parms h p m F).
Context (c v : cstr) (tk tv : Z) (Htk0 : tk <> 0) (Htv0 : tv <> 0).
Context (Htk : cells h !! tk = None) (Htv : cells h1 !! tv = None).
Context (E1 : cells h1 = <[tk := OClient (CStr c)]> (cells h)).
Context (E2 : cells h2 = <[tv := OClient (CStr v)]> (cells h1)).

Lemma two_distinct : tv <> tk /\ cells h !! tv = None.
Proof.
  rewrite E1 in Htv. destruct (decide (tv = tk)) as [->|]; [by rewrite lookup_insert_eq in Htv|].
  by rewrite lookup_insert_ne in Htv.
Qed.

Lemma two_cells : cells h2 !! tk = Some (OClient (CStr c)) /\ cells h2 !! tv = Some (OClient (CStr v)).
Proof.
  destruct two_distinct. rewrite E2, E1. rewrite lookup_insert_eq, lookup_insert_ne, lookup_insert_eq; done.
Qed.

Lemma two_size : size (cells h1) = S (size (cells h)) /\ size (cells h2) = S (S (size (cells h))).
Proof. rewrite E2, map_size_insert_None by done. rewrite E1, map_size_insert_None by done. done. Qed.

Lemma two_sub : cells h ⊆ cells h2.
Proof.
  rewrite E2, E1. etrans; [apply (insert_subseteq (cells h) tk); done|]. apply insert_subseteq. by rewrite <- E1.
Qed.

Lemma two_framed : framed h F h2 (tv :: tk :: F).
Proof.
  apply (framed_trans _ _ h1 (tk :: F)).
  - intros a o. rewrite E1. apply (framed_insert h F tk _ 0 0 Htk a o).
  - intros a o. rewrite E2. apply (framed_insert h1 (tk :: F) tv _ 0 0 Htv a o).
Qed.

Lemma two_undo h3 : cells h3 = cells h2 -> delete tv (delete tk (cells h3)) = cells h.
Proof.
  intros ->. destruct two_distinct. rewrite E2, E1, delete_insert_ne by congruence. rewrite (delete_insert_id (cells h) tk) by done. by apply delete_insert_id.
Qed.

Lemma two_fresh a : a = tk \/ a = tv -> a ∉ F.
Proof.
  intros Ha Hin. destruct (parms_cells _ _ _ _ _ Hp Hin) as [o Ho], two_distinct. destruct Ha as [->| ->]; congruence.
Qed.

(** The state after [hashmapPut] has put the new strings into the map. *)
Section Put.
Context (map : Z) (mm : gmap cstr (Z * Z)) (FM FM' : list Z) (h3 : heap cobj) (k0 : Z).
Context (Hp0 : p <> 0) (Hpc : cells h2 !! p = Some (OClient (CParms map))) (Hm : hashmap h2 map mm FM).
Context (Hpairs : map_Forall2 (pair_at h2) mm m) (Hn : NoDup (strings mm)) (EF : F = p :: FM ++ strings mm).
Context (Hm' : hashmap h3 map (<[c := (k0, tv)]> mm) FM') (Hf : framed h2 FM h3 FM').

Lemma put_client a x : cells h2 !! a = Some (OClient x) -> cells h3 !! a = Some (OClient x) /\ a ∉ FM'.
Proof. by eapply framed_client. Qed.

Lemma put_pair_at c' kv s : pair_at h2 c' kv s -> pair_at h3 c' kv s.
Proof. intros (? & ? & ? & ?). split_and!; [by eapply put_client|done|by eapply put_client|done]. Qed.

Lemma put_apart : (tk <> p /\ tk ∉ strings mm) /\ (tv <> p /\ tv ∉ strings mm).
Proof.
  pose proof (two_fresh tk (or_introl eq_refl)) as Fk. pose proof (two_fresh tv (or_intror eq_refl)) as Fv.
  rewrite EF, not_elem_of_cons, not_elem_of_app in Fk, Fv. tauto.
Qed.

Lemma put_framed : framed h F h3 (FM' ++ p :: tk :: tv :: strings mm).
Proof.
  apply (framed_trans _ _ h2 (FM ++ p :: tk :: tv :: strings mm)); [|by apply framed_extend].
  eapply framed_iff; [|exact two_framed]. intros a. rewrite EF. members.
Qed.

Lemma put_new_key :
  mm !! c = None -> k0 = tk ->
  exists F', parms h3 p (<[c := v]> m) F' /\ framed h F h3 F' /\ holds_pair h3 p c (tk, tv).
Proof.
  intros Hc ->. destruct put_apart as [[Fk1 Fk2] [Fv1 Fv2]], two_cells as [Ck Cv], two_distinct as [Hne _].
  assert (Hnd : NoDup (strings (<[c := (tk, tv)]> mm))).
  { rewrite strings_insert by done. rewrite !NoDup_cons, !not_elem_of_cons. by split_and!. }
  exists (p :: FM' ++ strings (<[c := (tk, tv)]> mm)). split_and!.
  - exists map, (<[c := (tk, tv)]> mm), FM'. split_and!; [done|by apply put_client|done| |done|done].
    apply map_Forall2_insert_2; [|eapply map_Forall2_impl; [exact Hpairs|apply put_pair_at]].
    split_and!; cbn; [by apply put_client|done|by apply put_client|done].
  - eapply framed_iff; [|exact put_framed]. intros a. rewrite strings_insert by done. members.
  - exists map, (<[c := (tk, tv)]> mm), FM'. split_and!; [by apply put_client|done|apply lookup_insert_eq|done].
Qed.

(** Freeing the new key and the old value once the value is replaced. *)
Section Replace.
Context (v0 : Z) (s0 : cstr) (Hc : mm !! c = Some (k0, v0)) (Hpa : pair_at h2 c (k0, v0) s0).
Context (h4 : heap cobj) (E4 : cells h4 = delete v0 (delete tk (cells h3))).

Lemma replace_apart : k0 <> v0 /\ k0 ∉ strings (delete c mm) /\ v0 ∉ strings (delete c mm) /\
  (tk <> k0 /\ tk <> v0 /\ tk ∉ strings (delete c mm)) /\ (tv <> k0 /\ tv <> v0 /\ tv ∉ strings (delete c mm)) /\
  NoDup (strings (delete c mm)).
Proof.
  pose proof (strings_delete _ _ _ _ Hc) as P. destruct put_apart as [[_ Fk] [_ Fv]]. pose proof Hn as Hn'.
  rewrite P in Hn', Fk, Fv. rewrite !NoDup_cons, !not_elem_of_cons in *. tauto.
Qed.

Lemma replace_client a x :
  cells h2 !! a = Some (OClient x) -> a <> tk -> a <> v0 -> cells h4 !! a = Some (OClient x).
Proof. intros Ha ? ?. rewrite E4, !lookup_delete_ne by done. by apply put_client. Qed.

Lemma replace_others c' kv a :
  mm !! c' = Some kv -> c <> c' -> a = kv.1 \/ a = kv.2 -> a <> tk /\ a <> v0.
Proof.
  intros Hc' Hne Ha. assert (Hin : a ∈ strings (delete c mm)).
  { apply elem_of_strings. exists c', kv.1, kv.2. rewrite lookup_delete_ne by done. by destruct kv. }
  destruct replace_apart as (_ & _ & Hv & (_ & _ & Hk) & _). split; intros ->; done.
Qed.

Lemma replace_hashmap : hashmap h4 map (<[c := (k0, tv)]> mm) FM'.
Proof.
  destruct replace_apart as (Hkv & _ & _ & (Hk1 & Hk2 & _) & _), two_cells as [Ck _], Hpa as (_ & _ & Hv0 & _).
  assert (Hk4 : forall c' kv, <[c := (k0, tv)]> mm !! c' = Some kv -> kv.1 <> tk /\ kv.1 <> v0).
  { intros c' kv Hc'. destruct (decide (c = c')) as [<-|Hcc].
    - rewrite lookup_insert_eq in Hc'. injection Hc' as <-. cbn. split; congruence.
    - rewrite lookup_insert_ne in Hc' by done. eapply replace_others; eauto. }
  set (h3' := set_cells h3 (delete tk (cells h3))).
  apply (hashmap_drop h3' h4 map _ FM' v0 (CStr s0)).
  - apply (hashmap_drop h3 h3' map _ FM' tk (CStr c)); [done|by apply put_client| |done].
    intros c' kv Hkv'. by apply (Hk4 c').
  - unfold h3'. cbn [cells set_cells]. rewrite lookup_delete_ne by done. by apply put_client.
  - intros c' kv Hkv'. by apply (Hk4 c').
  - done.
Qed.

Lemma replace_value : exists F', parms h4 p (<[c := v]> m) F' /\ framed h F h4 F'.
Proof.
  destruct replace_apart as (Hkv & Hks & Hvs & (Hk1 & Hk2 & Hk3) & (Hv1 & Hv2 & Hv3) & Hnd), two_cells as [Ck Cv].
  destruct put_apart as [[Fk1 _] [Fv1 _]], two_distinct as [Hne _], Hpa as (Hk0 & Hk00 & Hv0 & Hv00). cbn [fst snd] in *.
  exists (p :: FM' ++ strings (<[c := (k0, tv)]> mm)). split.
  - exists map, (<[c := (k0, tv)]> mm), FM'. split_and!; [done|apply replace_client; congruence|apply replace_hashmap| | |done].
    + intros c'. destruct (decide (c = c')) as [<-|Hcc].
      * rewrite !lookup_insert_eq. constructor. split_and!; cbn [fst snd]; [apply replace_client; congruence|done|by apply replace_client|done].
      * rewrite !lookup_insert_ne by done. specialize (Hpairs c'). inversion Hpairs as [kv s' Hpa' Ekv Es|]; constructor.
        symmetry in Ekv. destruct Hpa' as (? & ? & ? & ?).
        split_and!; [|done| |done]; (apply replace_client; [done|eapply (replace_others c' kv); auto..]).
    + rewrite (strings_replace mm c k0 v0 tv Hc). rewrite !NoDup_cons, !not_elem_of_cons. by split_and!.
  - set (G := p :: FM' ++ k0 :: tv :: strings (delete c mm)).
    assert (HtkG : tk ∉ v0 :: G).
    { unfold G. rewrite !not_elem_of_cons, not_elem_of_app, !not_elem_of_cons. split_and!; try done. by eapply put_client. }
    assert (HvG : v0 ∉ G).
    { unfold G. rewrite !not_elem_of_cons, not_elem_of_app, !not_elem_of_cons. split_and!; try congruence. by eapply put_client. }
    apply (framed_perm _ F _ G); [done|unfold G; by rewrite (strings_replace mm c k0 v0 tv Hc)|].
    apply (framed_trans _ _ h3 (tk :: v0 :: G)).
    { eapply framed_iff; [|exact put_framed]. intros a. rewrite (strings_delete _ _ _ _ Hc). unfold G. members. }
    apply (framed_trans _ _ (set_cells h3 (delete tk (cells h3))) (v0 :: G)); [by apply framed_delete|].
    eapply framed_cells; [|apply (framed_delete (set_cells h3 (delete tk (cells h3))) G v0 HvG)]. by rewrite E4.
Qed.
End Replace.
End Put.

(** [hashmapPut] with the new strings: it fails and changes nothing, adds the
    pair, or replaces a value, which the caller then frees with the key. *)
Lemma put_strings :
  exists map r h3, load_parms p h2 = Ok (map, h2) /\ hashmapPut map tk tv h2 = Ok (r, h3) /\
    cells h3 !! p = Some (OClient (CParms map)) /\
    ((r = 0 /\ m !! c = None /\ cells h3 = cells h2 /\ errno h3 = ENOMEM /\ short h 2) \/
     (r = 0 /\ m !! c = None /\ (errno h3 = errno h2 \/
        (errno h3 = ENOMEM /\ (short h 3 \/ 2 ^ 59 <= Z.of_nat (S (size m))))) /\
      (cells h3 !! tk = Some (OClient (CStr c)) /\ cells h3 !! tv = Some (OClient (CStr v))) /\
      exists F', parms h3 p (<[c := v]> m) F' /\ framed h F h3 F' /\ holds_pair h3 p c (tk, tv)) \/
     (r <> 0 /\ r <> tk /\ r <> p /\ tk <> p /\ errno h3 = errno h2 /\ is_Some (cells h3 !! tk) /\ is_Some (cells h3 !! r) /\
      forall h4, cells h4 = delete r (delete tk (cells h3)) ->
      exists F', parms h4 p (<[c := v]> m) F' /\ framed h F h4 F')).
Proof.
  destruct (parms_mono _ _ _ _ _ two_sub Hp) as (map & mm & FM & Hp0 & Hpc & Hm & Hpairs & Hn & EF).
  destruct two_cells as [Ck Cv].
  destruct (hashmapPut_ok h2 map mm FM tk c tv Hm) as (r & h3 & E3 & Hput); [by exists (CStr c)|].
  exists map, r, h3. split_and!; [by apply load_parms_ok|done| |].
  { destruct Hput as [(_ & _ & -> & _)|(_ & FM' & _ & Hf & _)]; [done|]. by eapply (put_client map mm FM FM' h3). }
  destruct Hput as [(-> & Hno & Hcs & He & Hz)|(Er & FM' & Hm' & Hf & He)].
  { left. split_and!; [done|by eapply pairs_absent|done|done|]. eapply short_here; [exact Hz|]. rewrite (proj2 two_size). lia. }
  right. unfold value_of, held in *. destruct (mm !! c) as [[k0 v0]|] eqn:Hc; subst r.
  - right. destruct (pairs_lookup _ _ _ _ _ Hpairs Hc) as (s & Hs & Hpa).
    pose proof (replace_apart mm FM k0 Hn EF v0 Hc) as (_ & _ & _ & (_ & Hk2 & _) & _).
    destruct Hpa as (Hk0 & Hk00 & Hv0 & Hv00). cbn [fst snd] in *.
    split_and!; [done|congruence|congruence|congruence|destruct He as [He|[He _]]; done| | |].
    + by rewrite (proj1 (put_client map mm FM FM' h3 Hm Hf _ _ Ck)).
    + by rewrite (proj1 (put_client map mm FM FM' h3 Hm Hf _ _ Hv0)).
    + intros h4 E4. by eapply (replace_value map mm FM FM' h3 k0).
  - left. split_and!; [done|by eapply pairs_absent| | | |].
    + rewrite (pairs_size _ _ _ Hpairs) in He. destruct He as [He|(_ & He & [Hz|Hz])]; [by left|right; split; [done|left]|by right; eauto].
      eapply short_le; [exact Hz|]. rewrite (proj2 two_size). lia.
    + by eapply (put_client map mm FM FM' h3).
    + by eapply (put_client map mm FM FM' h3).
    + by eapply (put_new_key map mm FM FM' h3 tk).
Qed.
End TwoStrings.

(** ** Adding and looking up *)

(** Code that reads a string wherever the objects of [h] are. *)
Definition reads (r : MS cstr) (s : cstr) h : Prop := forall h', cells h ⊆ cells h' -> r h' = Ok (s, h').

Lemma reads_load h a s : cells h !! a = Some (OClient (CStr s)) -> reads (load_str a) s h.
Proof. intros Ha h' Hs. apply load_str_ok. by eapply lookup_weaken. Qed.

Lemma reads_ret h s : reads (ret s) s h.
Proof. done. Qed.

Lemma free_null h : free 0 h = Ok (tt, h).
Proof. done. Qed.

(** The result of adding a pair: done, or not for lack of memory.  In the last
    case the pair is in the map, but its strings are freed. *)
Definition added h p (m : gmap cstr cstr) F c (v : cstr) (r : Z) h' : Prop :=
  (r = 0 /\ exists F', parms h' p (<[c := v]> m) F' /\ framed h F h' F') \/
  (r = - ENOMEM /\ cells h' = cells h /\ short h 2) \/
  (r = - ENOMEM /\ m !! c = None /\ (short h 3 \/ 2 ^ 59 <= Z.of_nat (S (size m))) /\ exists h3 F' tk tv, framed h F h3 F' /\
     holds_pair h3 p c (tk, tv) /\ (cells h !! tk = None /\ cells h !! tv = None /\ tv <> tk) /\
     (exists x y, cells h3 !! tk = Some (OClient x) /\ cells h3 !! tv = Some (OClient y)) /\
     cells h' = delete tv (delete tk (cells h3))).

Lemma add_strings_ok h p m F key c value (v : cstr) :
  parms h p m F -> reads key c h -> reads value v h ->
  exists r h', add_strings p key value h = Ok (r, h') /\ errno h' = errno h /\ added h p m F c v r h'.
Proof.
  intros Hp Hk Hv. unfold add_strings, added. set (h0 := Heap (cells h) (ticks h) 0).
  rewrite (bind_Ok _ _ h (errno h) h) by done. rewrite (bind_Ok _ _ h tt h0) by done. step (Hk h0 (reflexivity _)).
  destruct (new_str_ok h0 c) as [[Hz E1]|(tk & h1 & Htk0 & Htk & E1 & C1 & Ee1)]; step E1.
  { eexists _, _. split; [reflexivity|]. split; [done|]. right. left. split_and!; [done|done|].
    eapply short_here; [exact Hz|]. cbn. lia. }
  rewrite (proj2 (Z.eqb_neq tk 0) Htk0). cbn [cells] in *.
  assert (Hs1 : cells h ⊆ cells h1) by (rewrite C1; by apply insert_subseteq).
  step (Hv h1 Hs1). destruct (new_str_ok h1 v) as [[Hz E2]|(tv & h2 & Htv0 & Htv & E2 & C2 & Ee2)]; step E2.
  { cbn [Z.eqb]. unfold clean_up. set (h2 := Heap (cells h1) (ticks h1 + 1) ENOMEM).
    assert (Hc : cells h2 !! tk = Some (OClient (CStr c))) by (cbn; rewrite C1; apply lookup_insert_eq).
    step (freed_ok _ _ _ Htk0 Hc). step (free_null (set_cells h2 (delete tk (cells h2)))). eexists _, _. split; [reflexivity|].
    split; [done|]. right. left. split_and!; [done| |].
    - cbn. rewrite C1. by apply delete_insert_id.
    - eapply short_here; [exact Hz|]. rewrite C1, map_size_insert_None by done. cbn. lia. }
  rewrite (proj2 (Z.eqb_neq tv 0) Htv0).
  assert (Hne : tv <> tk) by (eapply (two_distinct h h1 h2); eauto).
  destruct (put_strings h h1 h2 p m F Hp c v tk tv Htk0 Htv0 Htk Htv C1 C2) as (map & r & h3 & El & Ep & _ & D).
  step El. step Ep. destruct D as [(-> & Hno & C3 & Ee3 & Hz)|[(-> & Hno & Ee3 & (Ck & Cv) & F' & Hp3 & Hf3 & Hh3)|
    (Hr0 & Hrk & _ & _ & Ee3 & [ok Hok] & [orr Hor] & Hrep)]].
  - cbn [Z.eqb]. unfold bind at 1, gets. cbn [obind fst snd]. rewrite Ee3, Z.eqb_refl. unfold clean_up.
    assert (Ck : cells h3 !! tk = Some (OClient (CStr c)) /\ cells h3 !! tv = Some (OClient (CStr v)))
      by (rewrite C3; eapply (two_cells h h1 h2); eauto). destruct Ck as [Ck Cv].
    step (freed_ok _ _ _ Htk0 Ck).
    assert (Cv' : delete tk (cells h3) !! tv = Some (OClient (CStr v))) by by rewrite lookup_delete_ne.
    step (freed_ok (set_cells h3 (delete tk (cells h3))) _ _ Htv0 Cv').
    eexists _, _. split; [cbn; by rewrite Ee3|]. split; [done|]. right. left. split_and!; [done| |done].
    eapply (two_undo h h1 h2); eauto.
  - cbn [Z.eqb]. unfold bind at 1, gets. cbn [obind fst snd]. rewrite Ee2, Ee1 in Ee3. cbn [errno] in Ee3.
    destruct Ee3 as [Ee3|[Ee3 Hz]].
    + rewrite Ee3. eexists _, _. split; [cbn; by rewrite Ee3|]. split; [done|]. left. split; [done|]. exists F'. split.
      * by eapply parms_mono; [|exact Hp3].
      * eapply framed_cells; [|exact Hf3]. done.
    + rewrite Ee3, Z.eqb_refl. unfold clean_up. step (freed_ok _ _ _ Htk0 Ck).
      assert (Cv' : delete tk (cells h3) !! tv = Some (OClient (CStr v))) by by rewrite lookup_delete_ne.
      step (freed_ok (set_cells h3 (delete tk (cells h3))) _ _ Htv0 Cv').
      eexists _, _. split; [cbn; by rewrite Ee3|]. split; [done|]. right. right. split_and!; [done|done|done|].
      exists h3, F', tk, tv. split_and!; [done|done|done|eapply (two_distinct h h1 h2); eauto|done|by eexists _, _|done].
  - rewrite (proj2 (Z.eqb_neq r 0) Hr0). unfold clean_up. step (freed_ok _ _ _ Htk0 Hok).
    step (free_null (set_cells h3 (delete tk (cells h3)))).
    assert (Cr : delete tk (cells h3) !! r = Some orr) by by rewrite lookup_delete_ne.
    step (freed_ok (set_cells h3 (delete tk (cells h3))) _ _ Hr0 Cr).
    eexists _, _. split; [cbn; by rewrite Ee3, Ee2, Ee1|]. split; [done|]. left. split; [done|]. by apply Hrep.
Qed.

(** The pair goes into the map and growing the map then fails: [hashmapPut] of the
    copies returns no old value, has changed the heap and leaves [ENOMEM]. *)
Definition cannot_grow h p (c v : cstr) : Prop :=
  exists tk h1 tv h2 (map : Z) h3, new_str c (Heap (cells h) (ticks h) 0) = Ok (tk, h1) /\ tk <> 0 /\
    new_str v h1 = Ok (tv, h2) /\ tv <> 0 /\ load_parms p h2 = Ok (map, h2) /\
    hashmapPut map tk tv h2 = Ok (0, h3) /\ errno h3 = ENOMEM /\ cells h3 <> cells h2.

Lemma cannot_grow_frees h p m F key c value (v : cstr) r h' :
  parms h p m F -> reads key c h -> reads value v h -> cannot_grow h p c v ->
  add_strings p key value h = Ok (r, h') -> r = - ENOMEM /\ cells h' <> cells h.
Proof.
  intros Hp Hk Hv (tk & h1 & tv & h2 & map & h3 & E1 & Htk0 & E2 & Htv0 & El & Ep & Ee & Hne3). unfold add_strings.
  set (h0 := Heap (cells h) (ticks h) 0) in *.
  rewrite (bind_Ok _ _ h (errno h) h) by done. rewrite (bind_Ok _ _ h tt h0) by done. step (Hk h0 (reflexivity _)).
  destruct (new_str_ok h0 c) as [[_ E1']|(tk' & h1' & _ & Htk & E1' & C1 & _)]; rewrite E1 in E1'; injection E1' as ? ?; subst; [done|].
  destruct (new_str_ok h1' v) as [[_ E2']|(tv' & h2' & _ & Htv & E2' & C2 & _)]; rewrite E2 in E2'; injection E2' as ? ?; subst; [done|].
  step E1. rewrite (proj2 (Z.eqb_neq tk' 0) Htk0).
  assert (Hs1 : cells h ⊆ cells h1') by (rewrite C1; by apply insert_subseteq).
  step (Hv h1' Hs1). step E2. rewrite (proj2 (Z.eqb_neq tv' 0) Htv0). step El. step Ep.
  destruct (put_strings h h1' h2' p m F Hp c v tk' tv' Htk0 Htv0 Htk Htv C1 C2) as (map' & r' & h3' & El' & Ep' & _ & D).
  rewrite El in El'. injection El' as <-. rewrite Ep in Ep'. injection Ep' as <- <-.
  destruct D as [(_ & _ & C3 & _)|[(_ & _ & _ & (Ck & Cv) & _)|(? & _)]]; [done| |done].
  assert (Hne : tv' <> tk') by (eapply (two_distinct h h1' h2'); eauto).
  cbn [Z.eqb]. unfold bind at 1, gets. cbn [obind fst snd]. rewrite Ee, Z.eqb_refl. unfold clean_up.
  step (freed_ok _ _ _ Htk0 Ck).
  assert (Cv' : delete tk' (cells h3) !! tv' = Some (OClient (CStr v))) by by rewrite lookup_delete_ne.
  step (freed_ok (set_cells h3 (delete tk' (cells h3))) _ _ Htv0 Cv').
  cbn. rewrite Ee. intros [= <- <-]. split; [done|]. cbn. intros C. apply Hne3. rewrite C2, C1. cbn [cells h0]. rewrite <- C.
  rewrite <- (insert_delete_id (cells h3) tk' _ Ck) at 1. rewrite <- (insert_delete_id _ tv' _ Cv') at 1.
  by rewrite insert_insert_ne.
Qed.

(** What [hashmapGet] finds. *)
Lemma parms_get h p m F kp c :
  parms h p m F -> kp <> 0 -> cells h !! kp = Some (OClient (CStr c)) ->
  exists (map val : Z), load_parms p h = Ok (map, h) /\ hashmapGet map kp h = Ok (val, h) /\
    ((m !! c = None /\ val = 0) \/
     exists s, m !! c = Some s /\ val <> 0 /\ cells h !! val = Some (OClient (CStr s))).
Proof.
  intros (map & mm & FM & Hp0 & Hpc & Hm & Hpairs & Hn & EF) Hk0 Hk.
  exists map, (value_of mm c). split_and!; [by apply load_parms_ok|eapply hashmapGet_ok; [done|by exists (CStr c)]|].
  unfold value_of. destruct (mm !! c) as [[k v]|] eqn:Hc.
  - right. destruct (pairs_lookup _ _ _ _ _ Hpairs Hc) as (s & Hs & _ & _ & Hv & Hv0). eauto.
  - left. split; [by eapply pairs_absent|done].
Qed.

(** ** Destroying *)

(** The strings of entries, and that they are there. *)
Definition strs (xs : list (Z * node cstr)) : list Z := xs ≫= (fun x => [n_key x.2; n_value x.2]).
Definition has_strings h (x : Z * node cstr) : Prop :=
  exists s, pair_at h (n_content x.2) (n_key x.2, n_value x.2) s.

Lemma concat_at {A} (bss : list (list A)) i pre post :
  bss !! i = Some (pre ++ post) ->
  concat bss = (concat (take i bss) ++ pre) ++ post ++ concat (drop (S i) bss).
Proof.
  intros Hi. rewrite <- (take_drop_middle _ _ _ Hi) at 1. rewrite concat_app. cbn [concat]. by rewrite <- !app_assoc.
Qed.

Section Destroy.
Context (h0 : heap cobj) (F0 : list Z) (p map bs : Z).

(** The entries still there, all of which are to come. *)
Definition destroying (_ : unit) h (done todo : list (Z * node cstr)) : Prop :=
  done = [] /\ cells h !! p = Some (OClient (CParms map)) /\ NoDup (strs todo) /\ Forall (has_strings h) todo /\
  framed h0 F0 h (map :: bs :: todo.*1 ++ p :: strs todo).

Lemma destroy_step h bss i pre a n post ctx :
  table h map bs bss -> bss !! i = Some (pre ++ (a, n) :: post) ->
  destroying ctx h (concat (take i bss) ++ pre) ((a, n) :: post ++ concat (drop (S i) bss)) ->
  exists go ctx' h' (keep : bool), remove_pair p 0 (n_key n) (n_value n) ctx h = Ok ((go, ctx'), h') /\
    let pre' := if keep then pre ++ [(a, n)] else pre in
    if go then
      table h' map bs (<[i := pre' ++ post]> bss) /\
      destroying ctx' h' (concat (take i bss) ++ pre') (post ++ concat (drop (S i) bss))
    else False.
Proof.
  intros T Hi (Hd & Hp & Hn & [[s Hs] Hall]%Forall_cons & Hf). destruct Hs as (Hk & Hk0 & Hv & Hv0). cbn [fst snd] in *.
  pose proof (concat_at _ _ _ _ Hi) as Ec. rewrite Hd in Ec. cbn [app] in Ec.
  set (todo := post ++ concat (drop (S i) bss)) in *.
  change (strs ((a, n) :: todo)) with (n_key n :: n_value n :: strs todo) in *.
  rewrite !NoDup_cons, not_elem_of_cons in Hn. destruct Hn as ((Hkv & Hks) & Hvs & Hn).
  destruct (remove_hit h map bs bss (n_content n) i pre a n post (n_key n) T Hi eq_refl) as (h1 & E1 & _ & T1 & _ & F1);
    [by exists (CStr (n_content n))|].
  set (bss' := <[i := pre ++ post]> bss) in *. pose proof (lookup_lt_Some _ _ _ Hi) as Hlt.
  assert (Ec' : concat bss' = todo).
  { unfold bss'. rewrite (concat_at _ i pre post) by by apply list_lookup_insert_eq.
    rewrite take_insert_ge, drop_insert_lt by lia. by rewrite Hd. }
  assert (Hcl : forall d x, cells h !! d = Some (OClient x) -> cells h1 !! d = Some (OClient x)).
  { intros d x Hdx. eapply framed_keeps; [exact F1| |exact Hdx]. by eapply table_no_client. }
  assert (Hother : forall y, y ∈ todo -> n_key y.2 <> n_key n /\ n_key y.2 <> n_value n /\
    n_value y.2 <> n_key n /\ n_value y.2 <> n_value n).
  { intros y Hy. assert (Hin : forall d, d = n_key y.2 \/ d = n_value y.2 -> d ∈ strs todo).
    { intros d Hdy. unfold strs. apply list_elem_of_bind. exists y. split; [|done]. rewrite !elem_of_cons. tauto. }
    split_and!; intros E; first [apply Hks; rewrite <- E; by apply Hin; auto|apply Hvs; rewrite <- E; by apply Hin; auto]. }
  set (h2 := set_cells h1 (delete (n_key n) (cells h1))). set (h3 := set_cells h2 (delete (n_value n) (cells h2))).
  assert (Hv2 : cells h2 !! n_value n = Some (OClient (CStr s))).
  { unfold h2. cbn [cells set_cells]. rewrite lookup_delete_ne by done. by apply Hcl. }
  exists true, tt, h3, false. split; [|split].
  - unfold remove_pair. cbn [Z.eqb]. unfold do_remove. step (load_parms_ok _ _ _ Hp). step E1.
    step (freed_ok _ _ _ Hk0 (Hcl _ _ Hk)). by step (freed_ok _ _ _ Hv0 Hv2).
  - apply (table_drop h2 h3 map bs bss' (n_value n) (CStr s)); [|done|rewrite Ec'; intros y Hy; by apply Hother|done].
    apply (table_drop h1 h2 map bs bss' (n_key n) (CStr (n_content n))); [done|by apply Hcl|rewrite Ec'; intros y Hy; by apply Hother|done].
  - assert (Hkeep : forall d x, cells h !! d = Some (OClient x) -> d <> n_key n -> d <> n_value n -> cells h3 !! d = Some (OClient x)).
    { intros d x Hdx ? ?. unfold h3, h2. cbn [cells set_cells]. rewrite !lookup_delete_ne by done. by apply Hcl. }
    split_and!; [done|apply Hkeep; congruence|done| |].
    + rewrite Forall_forall in *. intros y Hy. destruct (Hall y Hy) as [s' (? & ? & ? & ?)], (Hother y Hy) as (? & ? & ? & ?).
      exists s'. split_and!; [by apply Hkeep|done|by apply Hkeep|done].
    + unfold footprint in F1. rewrite Ec, Ec' in F1.
      pose proof (framed_extend _ _ _ _ (p :: n_key n :: n_value n :: strs todo) F1) as F1'.
      set (R := map :: bs :: todo.*1 ++ p :: strs todo).
      assert (HpR : forall d x, cells h !! d = Some (OClient x) -> d <> p -> d ∉ strs todo -> d ∉ R).
      { intros d x Hdx ? ? Hin. unfold R in Hin. rewrite !elem_of_cons, elem_of_app, elem_of_cons in Hin.
        pose proof (table_no_client _ _ _ _ _ _ T1 (Hcl _ _ Hdx)) as Hno. unfold footprint in Hno.
        rewrite Ec', !not_elem_of_cons in Hno. tauto. }
      apply (framed_trans _ _ h1 (n_key n :: n_value n :: R)).
      { eapply framed_trans; [exact Hf|]. eapply framed_iff; [|exact F1']. intros d. unfold R. cbn [app]. members. }
      apply (framed_trans _ _ h2 (n_value n :: R)); [apply framed_delete|apply framed_delete].
      * rewrite not_elem_of_cons. split; [done|]. eapply HpR; [exact Hk|congruence|done].
      * eapply HpR; [exact Hv|congruence|done].
Qed.
End Destroy.
End Parms.
