(* ===== verification/StrParmsOps.v ===== *)
(** * String parameters: the operations

    Creating, parsing, printing, changing and destroying parameter lists. *)

From S2P Require Import Prelude Hashmap HashmapProps HashmapRefine StrParms StrParmsProps.
From Stdlib Require Import Ascii.

#[local] Open Scope Z_scope.
#[local] Open Scope c_scope.

(** ** The format

    A parameter string is a list of fields, separated by ";"; a field with a key
    gives a pair. *)

Fixpoint fields (s : cstr) : list cstr :=
  match s with
  | [] => [[]]
  | c :: s =>
    if decide (c = ";"%char) then [] :: fields s
    else match fields s with f :: fs => (c :: f) :: fs | [] => [[c]] end
  end.

Definition pair_of_field (f : cstr) : option (cstr * cstr) :=
  match split_at "="%char f with
  | Some ([], _) => None
  | Some (k, v) => Some (k, v)
  | None => match f with [] => None | _ => Some (f, []) end
  end.

Definition parse (s : cstr) : list (cstr * cstr) := omap pair_of_field (fields s).

(** Later pairs override earlier ones. *)
Definition put_all (m : gmap cstr cstr) (l : list (cstr * cstr)) : gmap cstr cstr :=
  foldl (fun m kv => <[kv.1 := kv.2]> m) m l.

Fixpoint print_tail (l : list (cstr * cstr)) : cstr :=
  match l with [] => [] | (k, v) :: l => ";"%char :: k ++ "="%char :: v ++ print_tail l end.
Definition print (l : list (cstr * cstr)) : cstr :=
  match l with [] => [] | (k, v) :: l => k ++ "="%char :: v ++ print_tail l end.

(** Pairs that can be printed and read again. *)
Definition printable (kv : cstr * cstr) : Prop :=
  kv.1 <> [] /\ ";"%char ∉ kv.1 /\ "="%char ∉ kv.1 /\ ";"%char ∉ kv.2.

#[export] Instance printable_dec kv : Decision (printable kv).
Proof. unfold printable. apply _. Defined.

Lemma split_at_some d s a b : split_at d s = Some (a, b) -> s = a ++ d :: b /\ d ∉ a.
Proof.
  revert a b. induction s as [|c s IH]; intros a b; cbn [split_at]; [done|].
  destruct (decide (c = d)) as [->|Hne].
  - intros [= <- <-]. split; [done|apply not_elem_of_nil].
  - destruct (split_at d s) as [[a' b']|]; [|done]. intros [= <- <-].
    destruct (IH a' b' eq_refl) as [-> Hd]. split; [done|]. rewrite not_elem_of_cons. split; [congruence|done].
Qed.

Lemma split_at_none d s : split_at d s = None -> d ∉ s.
Proof.
  induction s as [|c s IH]; cbn [split_at]; [intros _; apply not_elem_of_nil|].
  destruct (decide (c = d)); [done|]. destruct (split_at d s) as [[]|]; [done|]. intros _.
  rewrite not_elem_of_cons. split; [congruence|auto].
Qed.

Lemma split_at_app d a b : d ∉ a -> split_at d (a ++ d :: b) = Some (a, b).
Proof.
  induction a as [|c a IH]; cbn [app split_at]; [by rewrite decide_True|].
  rewrite not_elem_of_cons. intros [Hc Ha]. rewrite decide_False by congruence. by rewrite IH.
Qed.

Lemma fields_app a b : ";"%char ∉ a -> fields (a ++ ";"%char :: b) = a :: fields b.
Proof.
  induction a as [|c a IH]; cbn [app fields]; [by rewrite decide_True|].
  rewrite not_elem_of_cons. intros [Hc Ha]. rewrite decide_False by congruence. by rewrite IH.
Qed.

Lemma fields_one a : ";"%char ∉ a -> fields a = [a].
Proof.
  induction a as [|c a IH]; cbn [fields]; [done|].
  rewrite not_elem_of_cons. intros [Hc Ha]. rewrite decide_False by congruence. by rewrite IH.
Qed.

Lemma parse_skip s : parse (skip_delim s) = parse s.
Proof.
  induction s as [|c s IH]; cbn [skip_delim]; [done|]. destruct (decide (c = ";"%char)) as [->|]; [|done].
  by rewrite IH.
Qed.

(** [strtok_r] takes the first field that is not empty. *)
Lemma strtok_none s : strtok_r s = None -> parse s = [].
Proof. unfold strtok_r. rewrite <- parse_skip. by destruct (skip_delim s) eqn:E. Qed.

Lemma length_skip s : (length (skip_delim s) <= length s)%nat.
Proof. induction s as [|c s IH]; cbn [skip_delim]; [done|]. destruct (decide _); cbn [length]; lia. Qed.

Lemma strtok_some s tok rest :
  strtok_r s = Some (tok, rest) ->
  parse s = option_list (pair_of_field tok) ++ parse rest /\ tok <> [] /\ (length rest < length s)%nat.
Proof.
  unfold strtok_r. rewrite <- (parse_skip s). pose proof (length_skip s) as Hl.
  assert (Hhd : forall c s', skip_delim s = c :: s' -> c <> ";"%char).
  { clear. induction s as [|c s IH]; cbn [skip_delim]; [done|]. destruct (decide (c = ";"%char)); [done|congruence]. }
  destruct (skip_delim s) as [|c s'] eqn:E; [done|]. specialize (Hhd c s' eq_refl). rewrite <- E in *.
  destruct (split_at ";"%char (skip_delim s)) as [[a b]|] eqn:Es; intros [= <- <-].
  - destruct (split_at_some _ _ _ _ Es) as [Ea Ha]. rewrite Ea. unfold parse. rewrite fields_app by done. split_and!.
    + cbn [omap list_omap]. by destruct (pair_of_field a).
    + intros ->. rewrite E in Ea. by injection Ea.
    + rewrite Ea, length_app in Hl. cbn [length] in Hl. lia.
  - apply split_at_none in Es. unfold parse. rewrite fields_one by done. rewrite E in *. split_and!; [|done|cbn [length] in *; lia].
    cbn [omap list_omap]. by destruct (pair_of_field _).
Qed.

Lemma pair_of_printed k v : printable (k, v) -> pair_of_field (k ++ "="%char :: v) = Some (k, v).
Proof.
  intros (Hk & _ & He & _). unfold pair_of_field. cbn [fst snd] in *. rewrite split_at_app by done. by destruct k.
Qed.

Lemma printed_field k v : printable (k, v) -> ";"%char ∉ k ++ "="%char :: v.
Proof. intros (_ & Hk & _ & Hv). rewrite not_elem_of_app, not_elem_of_cons. by split_and!. Qed.

Lemma parse_print_tail l : Forall printable l -> forall k v, printable (k, v) ->
  parse (k ++ "="%char :: v ++ print_tail l) = (k, v) :: l.
Proof.
  induction 1 as [|[k' v'] l Hp Hl IH]; intros k v Hkv.
  - cbn [print_tail]. rewrite app_nil_r. unfold parse. rewrite fields_one by by apply printed_field.
    cbn [omap list_omap]. by rewrite pair_of_printed.
  - cbn [print_tail]. replace (k ++ "="%char :: v ++ ";"%char :: k' ++ "="%char :: v' ++ print_tail l)
      with ((k ++ "="%char :: v) ++ ";"%char :: k' ++ "="%char :: v' ++ print_tail l) by by rewrite <- app_assoc.
    unfold parse in *. rewrite fields_app by by apply printed_field. cbn [omap list_omap].
    rewrite pair_of_printed by done. f_equal. by apply IH.
Qed.

(** Reading printed pairs gives them back. *)
Lemma parse_print l : Forall printable l -> parse (print l) = l.
Proof. destruct 1 as [|[k v] l Hp Hl]; [done|]. by apply parse_print_tail. Qed.

Section Ops.
Context `{Platform} `{Allocator cobj}.
Implicit Types (h : heap cobj) (map p a k : Z) (c s : cstr).

(** Changing an object of the client that is not a key of the map. *)
Lemma hashmap_store h h' (map : Z) (mm : gmap cstr (Z * Z)) FM a x y :
  hashmap h map mm FM -> cells h !! a = Some (OClient x) ->
  (forall c kv, mm !! c = Some kv -> kv.1 <> a) -> cells h' = <[a := OClient y]> (cells h) -> hashmap h' map mm FM.
Proof.
  intros Hm Ha Hk E. apply (hashmap_mono (set_cells h (delete a (cells h)))).
  - rewrite E. cbn. rewrite <- (insert_delete_eq (cells h)). apply insert_subseteq. apply lookup_delete_eq.
  - by eapply hashmap_drop.
Qed.

(** Freeing an object that a parameter list does not own. *)
Lemma parms_drop h h' p m F a x :
  parms h p m F -> cells h !! a = Some (OClient x) -> a ∉ F -> cells h' = delete a (cells h) -> parms h' p m F.
Proof.
  intros (map & mm & FM & Hp0 & Hpc & Hm & Hpairs & Hn & ->) Ha HaF E.
  rewrite not_elem_of_cons, not_elem_of_app in HaF. destruct HaF as (Hap & HaM & Has).
  assert (Hin : forall c kv d, mm !! c = Some kv -> d = kv.1 \/ d = kv.2 -> d <> a).
  { intros c kv d Hc Hd ->. apply Has, elem_of_strings. exists c, kv.1, kv.2. by destruct kv. }
  exists map, mm, FM. split_and!; [done|by rewrite E, lookup_delete_ne| | |done|done].
  - eapply hashmap_drop; [done|done| |done]. intros c kv Hc. by eapply Hin; [exact Hc|left].
  - intros c. pose proof (Hpairs c) as Hc. inversion Hc as [kv s Hpa Ekv Es|]; constructor. symmetry in Ekv.
    destruct Hpa as (? & ? & ? & ?).
    split_and!; [|done| |done]; (rewrite E, lookup_delete_ne; [done|]; intros E'; symmetry in E'; revert E'; eapply Hin; eauto).
Qed.

(** ** Destroying and deleting *)

Lemma strings_of_table (bss : list (list (Z * node cstr))) :
  NoDup ((fun x => n_content x.2) <$> concat bss) -> strings (map_of bss) ≡ₚ strs (concat bss).
Proof.
  intros Hn. unfold strings, strs, map_of.
  rewrite map_to_list_to_map by by rewrite <- list_fmap_compose.
  induction (concat bss) as [|x xs IH]; [done|]. cbn. f_equiv. f_equiv. apply IH.
  by apply NoDup_cons in Hn as [_ Hn].
Qed.

(** The strings of the entries of a parameter list. *)
Lemma parms_strings h (m : gmap cstr cstr) (map bs : Z) bss :
  table h map bs bss -> map_Forall2 (pair_at h) (map_of bss) m -> Forall (has_strings h) (concat bss).
Proof.
  intros T Hp. apply Forall_forall. intros x Hx.
  destruct (pairs_lookup _ _ _ _ _ Hp (map_of_lookup _ _ (t_distinct _ _ _ _ T) Hx)) as (s & _ & Hs). by exists s.
Qed.

(** Destroying a parameter list frees everything it holds. *)
Lemma str_parms_destroy_ok h p m F :
  parms h p m F -> exists h', str_parms_destroy p h = Ok (tt, h') /\ framed h F h' [].
Proof.
  intros (map & mm & FM & Hp0 & Hpc & Hm & Hpairs & Hn & EF). destruct Hm as (bs & bss & T & -> & EFM).
  pose proof (strings_of_table bss (t_distinct _ _ _ _ T)) as Hstr.
  destruct (hashmapForEach_ok map bs (remove_pair p 0) (destroying h F p map bs) (fun _ _ => False)
    (destroy_step h F p map bs) h bss tt T) as ([] & h1 & E1 & [(bss' & T' & (Ed & Hpc1 & _ & _ & Hf1))|[]]).
  { split_and!; [done|done|by rewrite <- Hstr|by eapply parms_strings|].
    eapply framed_iff; [|apply framed_refl]. intros a. rewrite EF, EFM. unfold footprint. cbn [app]. rewrite Hstr. members. }
  destruct (hashmapFree_ok h1 map (map_of bss') (footprint map bs bss')) as (h2 & E2 & Hf2); [by exists bs, bss'|].
  pose proof (table_no_client _ _ _ _ _ _ T' Hpc1) as Hpn. unfold footprint in Hf2, Hpn. rewrite Ed in *. cbn in Hf2, Hpn.
  assert (Hpc2 : cells h2 !! p = Some (OClient (CParms map))) by by apply (Hf2 p).
  eexists. split.
  - unfold str_parms_destroy. step (load_parms_ok _ _ _ Hpc). step E1. step (load_parms_ok _ _ _ Hpc1). step E2.
    exact (freed_ok _ _ _ Hp0 Hpc2).
  - apply (framed_trans _ _ h1 ([map; bs] ++ [p])).
    { eapply framed_iff; [|exact Hf1]. intros a. cbn. members. }
    eapply framed_trans; [apply (framed_extend _ _ _ _ [p] Hf2)|]. cbn [app].
    apply framed_delete. apply not_elem_of_nil.
Qed.

Section Delete.
Context (h0 : heap cobj) (p : Z) (m : gmap cstr cstr) (F : list Z) (map bs : Z) (bss0 : list (list (Z * node cstr))).
Context (kp : Z) (c : cstr) (Hkp0 : kp <> 0) (Hkp : cells h0 !! kp = Some (OClient (CStr c))) (HkF : kp ∉ F).
Context (T0 : table h0 map bs bss0) (Hp0 : p <> 0) (Hpc : cells h0 !! p = Some (OClient (CParms map))).
Context (Hpairs : map_Forall2 (pair_at h0) (map_of bss0) m) (Hn : NoDup (strings (map_of bss0))).
Context (EF : F = p :: footprint map bs bss0 ++ strings (map_of bss0)).

Definition deleting (_ : unit) h (done todo : list (Z * node cstr)) : Prop :=
  h = h0 /\ done ++ todo = concat bss0 /\ Forall (fun x => n_content x.2 <> c) done.
Definition deleted (_ : unit) h : Prop := exists F', parms h p (delete c m) F' /\ framed h0 F h F'.

(** Removing the entry and freeing its strings. *)
Lemma delete_strings h1 k v FM1 s :
  map_of bss0 !! c = Some (k, v) -> pair_at h0 c (k, v) s ->
  hashmap h1 map (delete c (map_of bss0)) FM1 -> framed h0 (footprint map bs bss0) h1 FM1 ->
  (forall a x, cells h0 !! a = Some (OClient x) -> cells h1 !! a = Some (OClient x) /\ a ∉ FM1) ->
  deleted tt (set_cells h1 (delete v (delete k (cells h1)))).
Proof.
  intros Hc (Hk & Hk0 & Hv & Hv0) Hm1 F1 Hcl. cbn [fst snd] in *. set (mm := map_of bss0) in *.
  pose proof (strings_delete _ _ _ _ Hc) as P. pose proof Hn as Hn'. rewrite P, !NoDup_cons, not_elem_of_cons in Hn'.
  destruct Hn' as ((Hkv & Hks) & Hvs & Hn').
  assert (Hother : forall c' kv a, delete c mm !! c' = Some kv -> a = kv.1 \/ a = kv.2 -> a <> k /\ a <> v).
  { intros c' kv a Hc' Ha. assert (Hin : a ∈ strings (delete c mm)).
    { apply elem_of_strings. exists c', kv.1, kv.2. by destruct kv. }
    split; intros ->; done. }
  assert (Hcl2 : forall a x, cells h0 !! a = Some (OClient x) -> a <> k -> a <> v ->
    delete v (delete k (cells h1)) !! a = Some (OClient x)).
  { intros a x Ha ? ?. rewrite !lookup_delete_ne by done. by apply Hcl. }
  exists (p :: FM1 ++ strings (delete c mm)). split.
  - exists map, (delete c mm), FM1. split_and!; [done|apply Hcl2; congruence| | |done|done].
    + apply (hashmap_drop (set_cells h1 (delete k (cells h1))) _ map _ FM1 v (CStr s)); [|cbn; rewrite lookup_delete_ne by done; by apply Hcl| |done].
      * apply (hashmap_drop h1 _ map _ FM1 k (CStr c)); [done|by apply Hcl| |done]. intros c' kv Hc'. by apply (Hother c' kv); auto.
      * intros c' kv Hc'. by apply (Hother c' kv); auto.
    + intros c'. destruct (decide (c = c')) as [<-|Hne]; [rewrite !lookup_delete_eq; constructor|].
      pose proof (Hother c') as Ho. rewrite !lookup_delete_ne in * by done.
      pose proof (Hpairs c') as Hpc'. fold mm in Hpc'. inversion Hpc' as [kv s' Hpa Ekv Es|]; constructor.
      symmetry in Ekv. destruct Hpa as (? & ? & ? & ?). split_and!; [|done| |done]; (apply Hcl2; [done|eapply Ho; eauto..]).
  - set (G := p :: FM1 ++ strings (delete c mm)).
    assert (HG : forall a x, cells h0 !! a = Some (OClient x) -> a <> p -> a ∉ strings (delete c mm) -> a ∉ G).
    { intros a x Ha ? ?. unfold G. rewrite not_elem_of_cons, not_elem_of_app. split_and!; [done|by eapply Hcl|done]. }
    apply (framed_trans _ _ h1 (k :: v :: G)).
    { eapply framed_iff; [|rewrite EF; apply (framed_perm _ (footprint map bs bss0 ++ p :: strings mm) _ (FM1 ++ p :: strings mm));
        [by rewrite <- Permutation_middle|reflexivity|by apply framed_extend]].
      intros a. rewrite P. unfold G. members. }
    apply (framed_trans _ _ (set_cells h1 (delete k (cells h1))) (v :: G)); [apply framed_delete|].
    + rewrite not_elem_of_cons. split; [done|]. eapply HG; [exact Hk|congruence|done].
    + eapply framed_cells; [|apply (framed_delete (set_cells h1 (delete k (cells h1))) G v)]; [done|].
      eapply HG; [exact Hv|congruence|done].
Qed.

Lemma delete_step h bss i pre a n post ctx :
  table h map bs bss -> bss !! i = Some (pre ++ (a, n) :: post) ->
  deleting ctx h (concat (take i bss) ++ pre) ((a, n) :: post ++ concat (drop (S i) bss)) ->
  exists go ctx' h' (keep : bool), remove_pair p kp (n_key n) (n_value n) ctx h = Ok ((go, ctx'), h') /\
    let pre' := if keep then pre ++ [(a, n)] else pre in
    if go then
      table h' map bs (<[i := pre' ++ post]> bss) /\
      deleting ctx' h' (concat (take i bss) ++ pre') (post ++ concat (drop (S i) bss))
    else deleted ctx' h'.
Proof.
  intros T Hi (-> & Ec & Hd). pose proof (lookup_lt_Some _ _ _ Hi) as Hlt.
  assert (Ebss : concat bss = concat bss0) by (rewrite <- Ec; exact (concat_at bss i pre ((a, n) :: post) Hi)).
  assert (Hx : (a, n) ∈ concat bss0).
  { rewrite <- Ec. apply elem_of_app. right. by left. }
  pose proof (map_of_lookup _ _ (t_distinct _ _ _ _ T0) Hx) as Hc. cbn [snd] in Hc.
  destruct (pairs_lookup _ _ _ _ _ Hpairs Hc) as (s & Hs & Hpa). destruct Hpa as (Hk & Hk0 & Hv & Hv0). cbn [fst snd] in *.
  unfold remove_pair. rewrite (proj2 (Z.eqb_neq kp 0) Hkp0). step (load_str_ok _ _ _ Hkp). step (load_str_ok _ _ _ Hk).
  destruct (decide (c = n_content n)) as [Ecn|Hne].
  - rewrite <- Ecn in *.
    destruct (remove_hit h0 map bs bss c i pre a n post (n_key n) T Hi (eq_sym Ecn)) as (h1 & E1 & _ & T1 & M1 & F1);
      [by exists (CStr c)|].
    assert (Hcl : forall d x, cells h0 !! d = Some (OClient x) -> cells h1 !! d = Some (OClient x) /\ d ∉ footprint map bs (<[i := pre ++ post]> bss)).
    { intros d x Hdx. apply (F1 d). split; [done|]. by eapply table_no_client. }
    assert (Hkv : n_key n <> n_value n).
    { pose proof Hn as Hn'. rewrite (strings_delete _ _ _ _ Hc), NoDup_cons, not_elem_of_cons in Hn'. tauto. }
    assert (Hv1 : delete (n_key n) (cells h1) !! n_value n = Some (OClient (CStr s))).
    { rewrite lookup_delete_ne by done. by apply Hcl. }
    eexists false, tt, _, false. split.
    + unfold do_remove. step (load_parms_ok _ _ _ Hpc). step E1. step (freed_ok _ _ _ Hk0 (proj1 (Hcl _ _ Hk))).
      by step (freed_ok (set_cells h1 (delete (n_key n) (cells h1))) _ _ Hv0 Hv1).
    + eapply (delete_strings h1 (n_key n) (n_value n) _ s Hc); [by split_and!| |unfold footprint in *; rewrite <- Ebss; exact F1|exact Hcl].
      eexists bs, _. split_and!; [exact T1| |reflexivity]. rewrite M1. unfold map_of. by rewrite Ebss.
  - exists true, tt, h0, true. split; [done|]. split.
    + rewrite <- app_assoc. cbn [app]. by rewrite list_insert_id.
    + split_and!; [done| |].
      * rewrite <- Ec, <- !app_assoc. done.
      * rewrite app_assoc. apply Forall_app. split; [done|]. by constructor.
Qed.
End Delete.

(** Deleting a key removes its pair and frees its strings. *)
Lemma str_parms_del_ok h p m F kp c :
  parms h p m F -> kp <> 0 -> cells h !! kp = Some (OClient (CStr c)) -> kp ∉ F ->
  exists h' F', str_parms_del p kp h = Ok (tt, h') /\ parms h' p (delete c m) F' /\ framed h F h' F'.
Proof.
  intros Hp Hkp0 Hkp HkF. pose proof Hp as (map & mm & FM & Hp0 & Hpc & Hm & Hpairs & Hn & EF).
  destruct Hm as (bs & bss & T & -> & ->).
  destruct (hashmapForEach_ok map bs (remove_pair p kp) (deleting h bss c) (deleted h p m F c)
    (delete_step h p m F map bs bss kp c Hkp0 Hkp T Hp0 Hpc Hpairs Hn EF) h bss tt T)
    as ([] & h1 & E1 & [(bss' & _ & (-> & Ec & Hno))|(F' & Hp' & Hf')]); [by split_and!| |].
  - exists h, F. split_and!; [unfold str_parms_del; by step (load_parms_ok _ _ _ Hpc)| |done].
    rewrite delete_id; [done|]. eapply pairs_absent; [exact Hpairs|]. apply map_of_none. intros x Hx.
    rewrite app_nil_r in Ec. rewrite Ec, Forall_forall in Hno. by apply Hno.
  - exists h1, F'. split_and!; [unfold str_parms_del; by step (load_parms_ok _ _ _ Hpc)|done|done].
Qed.

(** ** Creating *)

Lemma str_parms_create_ok h :
  exists r h', str_parms_create h = Ok (r, h') /\
    ((r = 0 /\ cells h' = cells h /\ short h 2) \/
     (r <> 0 /\ exists F', parms h' r ∅ F' /\ framed h [] h' F')).
Proof.
  unfold str_parms_create, alloc. unfold bind at 1.
  destruct (Z.eqb_spec (malloc h sizeof_ptr) 0) as [E|E]; cbn [obind fst snd].
  { eexists _, _. split; [done|]. left. split_and!; [done|done|]. eapply short_here; [exact E|lia]. }
  set (a := malloc h sizeof_ptr) in *. rewrite (proj2 (Z.eqb_neq a 0) E).
  assert (Hfa : cells h !! a = None) by by apply malloc_fresh. set (h1 := Heap _ _ _).
  assert (Ha1 : cells h1 !! a = Some (OClient (CParms 0))) by apply lookup_insert_eq.
  destruct (hashmapCreate_ok (C := cstr) h1 5) as (map & h2 & E2 & [(-> & Hc & _ & Hz)|(Hm0 & _ & F2 & Hm2 & Hf2)]); step E2.
  - cbn [Z.eqb]. rewrite <- Hc in Ha1. step (freed_ok _ _ _ E Ha1). eexists _, _. split; [done|]. left.
    split_and!; [done| |].
    + cbn [cells set_cells]. rewrite Hc. by apply delete_insert_id.
    + eapply short_le; [apply Hz; lia|]. cbn [cells h1]. rewrite map_size_insert_None by done. lia.
  - rewrite (proj2 (Z.eqb_neq map 0) Hm0).
    destruct (proj2 (Hf2 a _) (conj Ha1 (not_elem_of_nil a))) as [Ha2 HaF].
    step (stored_ok _ _ (OClient (CParms map)) _ Ha2). eexists a, _. split; [done|]. right. split; [done|].
    exists (a :: F2). split.
    + exists map, ∅, F2. split_and!; [done|apply lookup_insert_eq| |apply map_Forall2_empty|constructor|by rewrite app_nil_r].
      apply (hashmap_store h2 _ map ∅ F2 a (CParms 0) (CParms map)); done.
    + apply (framed_trans _ _ h1 [a]); [by apply framed_insert|].
      apply (framed_trans _ _ h2 (a :: F2)); [|apply framed_store; by left].
      eapply framed_iff; [|apply (framed_extend _ _ _ _ [a] Hf2)]. intros d. members.
Qed.

(** ** Parsing *)

(** Putting copies of a key and a value into the map, as [add_pair] does. *)
Lemma put_copies h p map m F (k v : cstr) :
  parms h p m F -> cells h !! p = Some (OClient (CParms map)) ->
  short h 2 \/
  exists h' F', (let! key := new_str k in
      let! value := new_str v in
      let! old_val := hashmapPut map key value in
      if negb (old_val =? 0) then free old_val ;;! free key else ret tt) h = Ok (tt, h') /\
    parms h' p (<[k := v]> m) F' /\ framed h F h' F' /\ cells h' !! p = Some (OClient (CParms map)).
Proof.
  intros Hp Hpm. destruct (new_str_ok h k) as [[Hz _]|(tk & h1 & Htk0 & Htk & E1 & C1 & _)].
  { left. eapply short_here; [exact Hz|lia]. }
  destruct (new_str_ok h1 v) as [[Hz _]|(tv & h2 & Htv0 & Htv & E2 & C2 & _)].
  { left. eapply short_here; [exact Hz|]. rewrite C1, map_size_insert_None by done. lia. }
  destruct (put_strings h h1 h2 p m F Hp k v tk tv Htk0 Htv0 Htk Htv C1 C2) as (map' & r & h3 & El & Ep & Hp3 & D).
  assert (Hs : cells h ⊆ cells h2) by (eapply (two_sub h h1 h2); eauto).
  rewrite (load_parms_ok _ _ _ (lookup_weaken _ _ _ _ Hpm Hs)) in El. injection El as <-.
  destruct D as [(_ & _ & _ & _ & Hz)|[(-> & _ & _ & _ & F' & Hp' & Hf' & _)|
    (Hr0 & Hrk & Hrp & Hkp & _ & [ok Hok] & [orr Hor] & Hrep)]]; [by left|right..].
  - exists h3, F'. split_and!; [step E1; step E2; by step Ep|done|done|done].
  - set (h4 := set_cells h3 (delete r (cells h3))). set (h5 := set_cells h4 (delete tk (cells h4))).
    assert (Hok4 : cells h4 !! tk = Some ok) by (unfold h4; cbn; by rewrite lookup_delete_ne).
    destruct (Hrep h5) as (F' & Hp' & Hf'); [apply delete_delete|].
    exists h5, F'. split_and!; [|done|done|].
    + step E1. step E2. step Ep. rewrite (proj2 (Z.eqb_neq r 0) Hr0). cbn [negb].
      step (freed_ok _ _ _ Hr0 Hor). exact (freed_ok _ _ _ Htk0 Hok4).
    + unfold h5, h4. cbn. by rewrite !lookup_delete_ne by congruence.
Qed.

Lemma add_pair_ok h p map m F tok :
  parms h p m F -> cells h !! p = Some (OClient (CParms map)) -> tok <> [] ->
  short h 2 \/
  exists h' F', add_pair map tok h = Ok (tt, h') /\ parms h' p (put_all m (option_list (pair_of_field tok))) F' /\
    framed h F h' F' /\ cells h' !! p = Some (OClient (CParms map)).
Proof.
  intros Hp Hpm Ht. unfold add_pair, pair_of_field. destruct (split_at "="%char tok) as [[k v]|].
  - destruct k as [|c k]; [|by apply put_copies]. right. by exists h, F.
  - destruct tok as [|c tok]; [done|]. by apply put_copies.
Qed.

Lemma size_put_all (m : gmap cstr cstr) l : (size (put_all m l) <= size m + length l)%nat.
Proof.
  revert m. induction l as [|[k v] l IH]; intros m; [cbn; lia|]. specialize (IH (<[k := v]> m)).
  change (put_all m ((k, v) :: l)) with (put_all (<[k := v]> m) l). rewrite map_size_insert in IH.
  destruct (m !! k); cbn in *; lia.
Qed.

Lemma pair_loop_ok fuel : forall h p map m F s,
  parms h p m F -> cells h !! p = Some (OClient (CParms map)) -> (length s <= fuel)%nat ->
  short h (2 + 3 * length (parse s)) \/
  exists h' F', pair_loop fuel map s h = Ok (tt, h') /\ parms h' p (put_all m (parse s)) F' /\ framed h F h' F'.
Proof.
  induction fuel as [|fuel IH]; intros h p map m F s Hp Hpm Hs; cbn [pair_loop];
    destruct (strtok_r s) as [[tok rest]|] eqn:E.
  - apply strtok_some in E as (_ & _ & ?). lia.
  - right. exists h, F. by rewrite (strtok_none _ E).
  - apply strtok_some in E as (-> & Ht & Hl).
    destruct (add_pair_ok h p map m F tok Hp Hpm Ht) as [Hz|(h1 & F1 & E1 & Hp1 & Hf1 & Hpm1)].
    { left. eapply short_le; [exact Hz|lia]. }
    destruct (IH h1 p map _ F1 rest Hp1 Hpm1 ltac:(lia)) as [Hz|(h2 & F2 & E2 & Hp2 & Hf2)]; [left|right].
    { eapply short_le; [exact Hz|]. pose proof (parms_size _ _ _ _ _ _ _ Hp Hp1 Hf1).
      pose proof (size_put_all m (option_list (pair_of_field tok))). rewrite length_app. lia. }
    exists h2, F2. split_and!; [by step E1| |by eapply framed_trans].
    unfold put_all in *. by rewrite foldl_app.
  - right. exists h, F. by rewrite (strtok_none _ E).
Qed.

(** Parsing a string makes a parameter list of its pairs, unless an allocation
    fails. *)
Lemma str_parms_create_str_ok h sp s :
  cells h !! sp = Some (OClient (CStr s)) ->
  short h (6 + 3 * length (parse s)) \/
  exists r h' F', str_parms_create_str sp h = Ok (r, h') /\ r <> 0 /\ parms h' r (put_all ∅ (parse s)) F' /\
    framed h [] h' F'.
Proof.
  intros Hsp. destruct (str_parms_create_ok h) as (p & h1 & E1 & [(_ & _ & Hz)|(Hp0 & F1 & Hp1 & Hf1)]).
  { left. eapply short_le; [exact Hz|lia]. }
  pose proof (framed_size _ _ _ _ Hf1 NoDup_nil_2 (fun a Ha => match not_elem_of_nil _ Ha with end)) as Hsz.
  rewrite (parms_length _ _ _ _ Hp1), map_size_empty in Hsz. cbn [length] in Hsz.
  destruct (proj2 (Hf1 sp _) (conj Hsp (not_elem_of_nil sp))) as [Hsp1 _].
  destruct (new_str_ok h1 s) as [[Hz _]|(str & h2 & Hstr0 & Hstr & E2 & C2 & _)].
  { left. eapply short_here; [exact Hz|lia]. }
  assert (Hs : cells h1 ⊆ cells h2) by (rewrite C2; by apply insert_subseteq).
  pose proof (parms_mono _ _ _ _ _ Hs Hp1) as Hp2. pose proof Hp2 as (map & _ & _ & _ & Hpm & _).
  destruct (pair_loop_ok (length s) h2 p map ∅ F1 s Hp2 Hpm ltac:(done)) as [Hz|(h3 & F3 & E3 & Hp3 & Hf3)]; [left|right].
  { eapply short_le; [exact Hz|]. rewrite C2, map_size_insert_None by done. lia. }
  assert (Hst2 : cells h2 !! str = Some (OClient (CStr s))) by (rewrite C2; apply lookup_insert_eq).
  assert (HstF : str ∉ F1).
  { intros Hin. destruct (parms_cells _ _ _ _ _ Hp1 Hin). congruence. }
  destruct (proj2 (Hf3 str _) (conj Hst2 HstF)) as [Hst3 HstF3].
  set (h4 := set_cells h3 (delete str (cells h3))). exists p, h4, F3. split_and!; [|done| |].
  - unfold str_parms_create_str. step E1. rewrite (proj2 (Z.eqb_neq p 0) Hp0). step (load_str_ok _ _ _ Hsp1). step E2.
    rewrite (proj2 (Z.eqb_neq str 0) Hstr0). step (load_parms_ok _ _ _ Hpm). step E3. by step (freed_ok _ _ _ Hstr0 Hst3).
  - eapply parms_drop; [exact Hp3|exact Hst3|done|done].
  - eapply framed_trans; [exact Hf1|]. apply (framed_trans _ _ h2 (str :: F1)).
    { intros a o. rewrite C2. apply (framed_insert h1 F1 str _ 0 0 Hstr a o). }
    apply (framed_trans _ _ h3 (str :: F3)); [|by apply framed_delete].
    eapply framed_iff; [|apply (framed_perm _ (F1 ++ [str]) _ (F3 ++ [str])); [by rewrite <- Permutation_cons_append|done|by apply framed_extend]].
    intros a. members.
Qed.

(** ** Printing *)

Lemma print_snoc l (k v : cstr) :
  print (l ++ [(k, v)]) = (match l with [] => [] | _ => print l ++ [";"%char] end) ++ k ++ "="%char :: v.
Proof.
  destruct l as [|[k0 v0] l]; [cbn; by rewrite app_nil_r|]. cbn [app print].
  assert (Ht : forall l, print_tail (l ++ [(k, v)]) = print_tail l ++ ";"%char :: k ++ "="%char :: v).
  { clear. induction l as [|[a b] l IH]; cbn [app print_tail]; [by rewrite app_nil_r|]. rewrite IH. repeat (cbn [app]; rewrite <- app_assoc). done. }
  rewrite Ht. repeat (cbn [app]; rewrite <- app_assoc). done.
Qed.

Section Printing.
Context (h : heap cobj) (p : Z) (m : gmap cstr cstr) (map bs : Z) (bss : list (list (Z * node cstr))).
Context (T : table h map bs bss) (Hpairs : map_Forall2 (pair_at h) (map_of bss) m).

Definition shown (x : Z * node cstr) : cstr * cstr := (n_content x.2, default [] (m !! n_content x.2)).

(** The text so far is the only new object. *)
Definition printing (str : Z) h' (done todo : list (Z * node cstr)) : Prop :=
  done ++ todo = concat bss /\
  ((done = [] /\ str = 0 /\ cells h' = cells h) \/
   (done <> [] /\ str <> 0 /\ cells h !! str = None /\
    cells h' = <[str := OClient (CStr (print (shown <$> done)))]> (cells h))).
Definition print_failed (str : Z) h' : Prop :=
  str = 0 /\ cells h' = cells h /\ short h 1.

Lemma printing_table str h' done todo bss' h3 :
  table h' map bs bss' -> concat bss' = concat bss -> printing str h' done todo -> cells h ⊆ cells h3 ->
  table h3 map bs bss'.
Proof.
  intros T' Ec (_ & D) Hs. apply (table_mono (set_cells h' (cells h))); [done|].
  destruct D as [(_ & _ & E)|(_ & _ & Hstr & E)]; [by apply (table_same_cells h')|].
  eapply (table_drop h' _ map bs bss' str); [done|rewrite E; apply lookup_insert_eq| |cbn; rewrite E; by rewrite delete_insert_id].
  intros y Hy Ey. rewrite Ec in Hy. destruct (t_keys _ _ _ _ T y Hy) as (x & [_ Hx] & _). congruence.
Qed.

(** Freeing the old text, before or after a new object is made. *)
Lemma free_text str h' done todo h2 (new : option (Z * obj cobj)) :
  printing str h' done todo ->
  cells h2 = match new with Some (b, o) => <[b := o]> (cells h') | None => cells h' end ->
  (forall b o, new = Some (b, o) -> cells h' !! b = None) ->
  exists h3, (if negb (str =? 0) then free str else ret tt) h2 = Ok (tt, h3) /\
    cells h3 = match new with Some (b, o) => <[b := o]> (cells h) | None => cells h end.
Proof.
  intros (_ & D) E2 Hb. destruct D as [(_ & -> & E)|(_ & Hs0 & Hstr & E)].
  - exists h2. split; [done|]. by rewrite E2, E.
  - rewrite (proj2 (Z.eqb_neq str 0) Hs0). cbn [negb]. rewrite E in E2, Hb. destruct new as [[b o]|].
    + specialize (Hb b o eq_refl). assert (b <> str) by (intros ->; by rewrite lookup_insert_eq in Hb).
      eexists. split; [eapply freed_ok; [done|]; rewrite E2, lookup_insert_ne by done; apply lookup_insert_eq|].
      cbn. rewrite E2, delete_insert_ne by done. by rewrite delete_insert_id.
    + eexists. split; [eapply freed_ok; [done|]; rewrite E2; apply lookup_insert_eq|]. cbn. rewrite E2. by apply delete_insert_id.
Qed.

(** The text that precedes the next pair. *)
Definition before (l : list (cstr * cstr)) : cstr := match l with [] => [] | _ => print l ++ [";"%char] end.

Lemma read_text str h' done todo :
  printing str h' done todo ->
  (if str =? 0 then ret [] else let! s := load_str str in ret (s ++ [";"%char])) h' = Ok (before (shown <$> done), h').
Proof.
  intros (_ & [(-> & -> & _)|(Hne & Hs0 & _ & E)]); [done|]. rewrite (proj2 (Z.eqb_neq str 0) Hs0).
  assert (Hstr : cells h' !! str = Some (OClient (CStr (print (shown <$> done))))) by (rewrite E; apply lookup_insert_eq).
  step (load_str_ok _ _ _ Hstr). by destruct done.
Qed.

(** One entry: its text is appended in a new object, and the old one freed. *)
Lemma print_step h' bss' i pre a n post str :
  table h' map bs bss' -> bss' !! i = Some (pre ++ (a, n) :: post) ->
  printing str h' (concat (take i bss') ++ pre) ((a, n) :: post ++ concat (drop (S i) bss')) ->
  exists go str' h2 (keep : bool), combine_strings (n_key n) (n_value n) str h' = Ok ((go, str'), h2) /\
    let pre' := if keep then pre ++ [(a, n)] else pre in
    if go then
      table h2 map bs (<[i := pre' ++ post]> bss') /\
      printing str' h2 (concat (take i bss') ++ pre') (post ++ concat (drop (S i) bss'))
    else print_failed str' h2.
Proof.
  intros T' Hi HI. pose proof HI as (Ec & D). set (dn := concat (take i bss') ++ pre) in *.
  assert (Ebss : concat bss' = concat bss) by (rewrite <- Ec; exact (concat_at bss' i pre ((a, n) :: post) Hi)).
  assert (Hx : (a, n) ∈ concat bss) by (rewrite <- Ec; apply elem_of_app; right; by left).
  destruct (pairs_lookup _ _ _ _ _ Hpairs (map_of_lookup _ _ (t_distinct _ _ _ _ T) Hx)) as (s & Hs & Hk & _ & Hv & _).
  cbn [fst snd] in *.
  assert (Hsub : cells h ⊆ cells h').
  { destruct D as [(_ & _ & ->)|(_ & _ & Hstr & ->)]; [done|by apply insert_subseteq]. }
  set (text := print (shown <$> dn ++ [(a, n)])).
  assert (Enew : before (shown <$> dn) ++ n_content n ++ "="%char :: s = text).
  { unfold text. rewrite fmap_app. cbn [fmap list_fmap]. unfold shown at 3. cbn [snd]. rewrite Hs. cbn [default]. by rewrite print_snoc. }
  unfold combine_strings. step (read_text _ _ _ _ HI). step (load_str_ok _ _ _ (lookup_weaken _ _ _ _ Hk Hsub)).
  step (load_str_ok _ _ _ (lookup_weaken _ _ _ _ Hv Hsub)). rewrite Enew.
  destruct (new_str_ok h' text) as [[Hz E2]|(b & h2 & Hb0 & Hb & E2 & C2 & _)]; step E2.
  - destruct (free_text _ _ _ _ (Heap (cells h') (ticks h' + 1) ENOMEM) None HI eq_refl) as (h3 & E3 & C3); [done|]. step E3.
    exists false, 0, h3, true. split; [done|]. split_and!; [done|done|]. eapply short_here; [exact Hz|].
    destruct D as [(_ & _ & ->)|(_ & _ & Hstr & ->)]; [lia|]. rewrite map_size_insert_None by done. lia.
  - destruct (free_text _ _ _ _ h2 (Some (b, OClient (CStr text))) HI C2) as (h3 & E3 & C3); [by intros ? ? [= <- _]|]. step E3.
    assert (Hbh : cells h !! b = None) by (eapply lookup_weaken_None; [exact Hb|done]).
    rewrite (proj2 (Z.eqb_neq b 0) Hb0). cbn [negb]. exists true, b, h3, true. split; [done|]. cbn zeta. split.
    + rewrite <- app_assoc. cbn [app]. rewrite list_insert_id by done.
      eapply printing_table; [exact T'|done|exact HI|]. rewrite C3. by apply insert_subseteq.
    + split; [rewrite <- Ec; unfold dn; by rewrite <- !app_assoc|]. right. rewrite app_assoc. fold dn.
      split_and!; [by destruct dn|done|done|done].
Qed.

Lemma shown_pairs : shown <$> concat bss ≡ₚ map_to_list m.
Proof.
  pose proof (t_distinct _ _ _ _ T) as Hd.
  assert (Hn : NoDup (shown <$> concat bss).*1) by by rewrite <- list_fmap_compose.
  assert (E : list_to_map (shown <$> concat bss) = m).
  { apply map_eq. intros c. destruct (map_of bss !! c) as [[k v]|] eqn:Hc.
    - destruct (pairs_lookup _ _ _ _ _ Hpairs Hc) as (s & Hs & _). rewrite Hs. apply elem_of_list_to_map_1; [done|].
      apply elem_of_list_to_map_2, list_elem_of_fmap in Hc as (x & [= -> _ _] & Hx).
      apply list_elem_of_fmap. exists x. split; [|done]. unfold shown. by rewrite Hs.
    - rewrite (pairs_absent _ _ _ _ Hpairs Hc). apply not_elem_of_list_to_map_1. rewrite <- list_fmap_compose.
      intros (x & -> & Hx)%list_elem_of_fmap. by rewrite (map_of_lookup _ _ Hd Hx) in Hc. }
  rewrite <- E. symmetry. by apply map_to_list_to_map.
Qed.
End Printing.

(** Printing makes a string of all pairs, in some order. *)
Lemma str_parms_to_str_ok h p m F :
  parms h p m F ->
  exists r h', str_parms_to_str p h = Ok (r, h') /\
    ((r = 0 /\ cells h' = cells h /\ short h 1) \/
     (r <> 0 /\ cells h !! r = None /\
      exists l, l ≡ₚ map_to_list m /\ cells h' = <[r := OClient (CStr (print l))]> (cells h))).
Proof.
  intros (map & mm & FM & Hp0 & Hpc & Hm & Hpairs & Hn & EF). pose proof Hm as (bs & bss & T & -> & EFM).
  unfold str_parms_to_str. step (load_parms_ok _ _ _ Hpc). step (hashmapSize_ok _ _ _ _ Hm).
  pose proof (shown_pairs h m map bs bss T Hpairs) as P.
  rewrite (size_map_of _ _ _ _ T). destruct (Z.ltb_spec 0 (Z.of_nat (length (concat bss)))) as [Hlt|Hge].
  - destruct (hashmapForEach_ok map bs combine_strings (printing h m bss) (print_failed h)
      (print_step h m map bs bss T Hpairs) h bss 0 T) as (r & h1 & E1 & D); [split; [done|by left]|].
    exists r, h1. split; [done|]. destruct D as [(bss' & _ & Ec & D)|(-> & C1 & Hz)]; [|by left].
    rewrite app_nil_r in Ec. rewrite Ec in D. destruct D as [(Hnil & _)|(_ & Hr0 & Hr & C1)].
    + rewrite Hnil in Hlt. cbn in Hlt. lia.
    + right. split_and!; [done|done|]. by exists (shown m <$> concat bss).
  - destruct (concat bss) as [|x xs] eqn:Enil; [|cbn in Hge; lia].
    destruct (new_str_ok h []) as [[Hz E1]|(b & h1 & Hb0 & Hb & E1 & C1 & _)]; eexists _, h1 || eexists _, _; (split; [exact E1|]).
    + left. split_and!; [done|done|]. eapply short_here; [exact Hz|lia].
    + right. split_and!; [done|done|]. exists []. by rewrite <- P.
Qed.
End Ops.
