(* ===== verification/StrParmsTheorems.v ===== *)
(** * String parameters: the theorems

    What parsing, looking up, adding, printing and destroying parameter lists do
    together, and the use after free when the map cannot grow. *)

From S2P Require Import Prelude Hashmap HashmapProps HashmapRefine StrParms StrParmsProps StrParmsOps.
From Stdlib Require Import Ascii.

#[local] Open Scope Z_scope.
#[local] Open Scope c_scope.

(** ** Parsed pairs *)

Lemma fields_chars s f (c : ascii) : f ∈ fields s -> c ∈ f -> c ∈ s.
Proof.
  revert f. induction s as [|d s IH]; intros f; cbn [fields]; [by intros ->%list_elem_of_singleton|].
  destruct (decide (d = ";"%char)) as [->|].
  - intros [->|Hf]%elem_of_cons Hc; [by apply elem_of_nil in Hc|]. right. by eapply IH.
  - destruct (fields s) as [|g gs] eqn:E.
    + intros ->%list_elem_of_singleton ->%list_elem_of_singleton. by left.
    + intros [->|Hf]%elem_of_cons Hc.
      * apply elem_of_cons in Hc as [->|Hc]; [by left|]. right. by apply (IH g); [left|].
      * right. by apply (IH f); [right|].
Qed.

Lemma parse_chars s k v (c : ascii) : (k, v) ∈ parse s -> c ∈ v -> c ∈ s.
Proof.
  unfold parse. intros (f & Hf & Hp)%list_elem_of_omap Hc. eapply fields_chars; [exact Hf|].
  unfold pair_of_field in Hp. destruct (split_at "="%char f) as [[a b]|] eqn:E.
  - apply split_at_some in E as [-> _]. destruct a; [done|]. injection Hp as <- <-. apply elem_of_app. right. by right.
  - destruct f; [done|]. injection Hp as <- <-. by apply elem_of_nil in Hc.
Qed.

Lemma put_all_elem l : forall (m : gmap cstr cstr) k v,
  put_all m l !! k = Some v -> m !! k = Some v \/ (k, v) ∈ l.
Proof.
  induction l as [|[a b] l IH]; intros m k v Hk; [by left|]. cbn in Hk.
  destruct (IH _ _ _ Hk) as [Hm|Hl]; [|right; by right]. destruct (decide (a = k)) as [->|].
  - rewrite lookup_insert_eq in Hm. injection Hm as <-. right. by left.
  - rewrite lookup_insert_ne in Hm by done. by left.
Qed.

Lemma put_all_nodup l : NoDup l.*1 -> forall m : gmap cstr cstr, put_all m l = list_to_map l ∪ m.
Proof.
  induction l as [|[k v] l IH]; intros Hn m; cbn; [by rewrite map_empty_union|].
  apply NoDup_cons in Hn as [Hk Hn]. rewrite IH by done.
  rewrite <- insert_union_l. rewrite insert_union_r; [done|]. by apply not_elem_of_list_to_map_1.
Qed.

(** ** What the functions do together *)

Section Together.
Context `{Platform} `{Allocator cobj}.
Implicit Types (h : heap cobj) (p kp sp : Z) (c k s : cstr).

(** What [str_parms_get_str] returns and leaves in a buffer of [len] characters. *)
Definition got_str (v : option cstr) (buf : cstr) (len : Z) : Z * cstr :=
  match v with
  | Some v => let j := Nat.min (Z.to_nat (len - 1)) (length v) in
              (i32 (Z.of_nat (length v)), take j v ++ NUL :: drop (S j) buf)
  | None => (- ENOENT, buf)
  end.

Lemma str_parms_get_str_ok h p m F kp c buf len :
  parms h p m F -> kp <> 0 -> cells h !! kp = Some (OClient (CStr c)) ->
  0 < len < 2 ^ 31 -> len <= Z.of_nat (length buf) -> (forall v, m !! c = Some v -> NUL ∉ v) ->
  str_parms_get_str p kp buf len h = Ok (got_str (m !! c) buf len, h).
Proof.
  intros Hp Hk0 Hk Hlen Hbuf Hnul. destruct (parms_get _ _ _ _ _ _ Hp Hk0 Hk) as (map & val & E1 & E2 & D).
  unfold str_parms_get_str. step E1. step E2. destruct D as [(-> & ->)|(v & Hv & Hv0 & Hvc)]; [done|].
  rewrite (proj2 (Z.eqb_neq val 0) Hv0). cbn [negb]. step (load_str_ok _ _ _ Hvc). rewrite Hv.
  unfold bind, lift. rewrite u64_small, strlcpy_ok by (auto || lia). done.
Qed.

(** C23: parsing a parameter string, looking a key up and destroying the list
    returns the value of the key's last pair, cut to the buffer, or that there
    is none, and leaves the heap as it was, unless memory is short: [malloc]
    refuses in a heap with at most so many objects more. *)
Theorem str_parms_session h sp s kp k buf len :
  cells h !! sp = Some (OClient (CStr s)) -> NUL ∉ s -> kp <> 0 -> cells h !! kp = Some (OClient (CStr k)) ->
  0 < len < 2 ^ 31 -> len <= Z.of_nat (length buf) ->
  short h (6 + 3 * length (parse s)) \/
  exists p h1 h2, str_parms_create_str sp h = Ok (p, h1) /\
    str_parms_get_str p kp buf len h1 = Ok (got_str (put_all ∅ (parse s) !! k) buf len, h1) /\
    str_parms_destroy p h1 = Ok (tt, h2) /\ cells h2 = cells h.
Proof.
  intros Hsp Hnul Hk0 Hk Hlen Hbuf.
  destruct (str_parms_create_str_ok h sp s Hsp) as [?|(p & h1 & F1 & E1 & Hp0 & Hp1 & Hf1)]; [by left|right].
  destruct (proj2 (Hf1 kp _) (conj Hk (not_elem_of_nil kp))) as [Hk1 _].
  destruct (str_parms_destroy_ok h1 p _ F1 Hp1) as (h2 & E2 & Hf2). exists p, h1, h2. split_and!; [done| |done|].
  - eapply str_parms_get_str_ok; try done. intros v [Hv|Hv]%put_all_elem Hin; [by rewrite lookup_empty in Hv|].
    apply Hnul. by eapply parse_chars.
  - apply map_eq. intros a. apply option_eq. intros o. pose proof (framed_trans _ _ _ _ _ _ Hf1 Hf2 a o) as Hx.
    pose proof (not_elem_of_nil (A := Z) a). tauto.
Qed.

(** C24: printing a parameter list whose keys and values are free of separators
    and parsing the text gives a list with the same pairs, unless memory is
    short. *)
Theorem str_parms_print_parse h p m F :
  parms h p m F -> map_Forall (fun k v => printable (k, v)) m ->
  short h (7 + 3 * size m) \/
  exists t h1 p' h2 F', str_parms_to_str p h = Ok (t, h1) /\ str_parms_create_str t h1 = Ok (p', h2) /\
    parms h2 p' m F' /\ framed h1 [] h2 F'.
Proof.
  intros Hp Hall. destruct (str_parms_to_str_ok h p m F Hp) as (t & h1 & E1 & [(_ & _ & Hz)|(Ht0 & Ht & l & P & C1)]).
  { left. eapply short_le; [exact Hz|lia]. }
  assert (Hl : Forall printable l).
  { rewrite P. apply Forall_forall. intros [k v] Hkv%elem_of_map_to_list. by apply Hall. }
  destruct (str_parms_create_str_ok h1 t (print l)) as [Hz|(p' & h2 & F' & E2 & _ & Hp' & Hf')];
    [rewrite C1; apply lookup_insert_eq|left|right].
  { eapply short_le; [exact Hz|]. rewrite parse_print, P, length_map_to_list, C1, map_size_insert_None by done. lia. }
  exists t, h1, p', h2, F'. split_and!; [done|done| |done].
  rewrite parse_print in Hp' by done. rewrite put_all_nodup in Hp'.
  - rewrite map_union_empty in Hp'. rewrite <- (list_to_map_to_list m).
    rewrite (list_to_map_proper l (map_to_list m)) in Hp'; [done| |done].
    rewrite P. apply NoDup_fst_map_to_list.
  - rewrite P. apply NoDup_fst_map_to_list.
Qed.

(** A number that is added is read back: either [str_parms_add_int] returns 0,
    and then [str_parms_get_int] returns 0 and the number, or it returns that
    there is no memory, which is so only if memory is short or the map huge. *)
Theorem str_parms_int_roundtrip h p m F kp k z z0 :
  parms h p m F -> kp <> 0 -> cells h !! kp = Some (OClient (CStr k)) -> kp ∉ F -> - 2 ^ 31 <= z < 2 ^ 31 ->
  exists r h1, str_parms_add_int p kp z h = Ok (r, h1) /\
    ((r = 0 /\ str_parms_get_int p kp z0 h1 = Ok ((0, z), h1)) \/
     (r = - ENOMEM /\ (short h 3 \/ 2 ^ 59 <= Z.of_nat (S (size m))))).
Proof.
  intros Hp Hk0 Hk HkF Hz. pose proof (length_dec z Hz) as Hl.
  destruct (add_strings_ok h p m F (load_str kp) k (ret (take 11 (dec z))) (dec z) Hp) as (r & h1 & E1 & _ & D).
  { by apply reads_load. }
  { rewrite take_ge by lia. apply reads_ret. }
  exists r, h1. split; [done|]. destruct D as [(-> & F1 & Hp1 & Hf1)|[(-> & _ & Hmem)|(-> & _ & Hmem & _)]]; [left|right..].
  2: { split; [done|left]. eapply short_le; [exact Hmem|lia]. }
  2: done.
  split; [done|].
  destruct (proj2 (Hf1 kp _) (conj Hk HkF)) as [Hk1 _].
  destruct (parms_get _ _ _ _ _ _ Hp1 Hk0 Hk1) as (map & val & E2 & E3 & [(Hno & _)|(v & Hv & Hv0 & Hvc)]);
    rewrite lookup_insert_eq in *; [done|]. injection Hv as <-.
  unfold str_parms_get_int. step E2. step E3. rewrite (proj2 (Z.eqb_neq val 0) Hv0). step (load_str_ok _ _ _ Hvc).
  rewrite strtol_dec by done. rewrite (proj2 (Nat.eqb_neq _ 0)) by lia. rewrite Nat.eqb_refl. cbn [negb andb].
  unfold ret. rewrite i32_small by lia. done.
Qed.
End Together.

(** ** A failed expansion *)

Section Dangling.
Context `{Platform} `{Allocator cobj}.
Implicit Types (h : heap cobj) (p kp vp k : Z) (c v : cstr).

(** A search that comes to an entry of the key whose own string was freed. *)
Lemma find_loop_dangling h k c a n post : key_at h k c -> n_content n = c -> n_key n <> k ->
  cells h !! n_key n = None -> forall pre fuel q,
  chain h q (pre ++ (a, n) :: post) -> readable_keys h pre -> Forall (fun x => n_content x.2 <> c) pre ->
  (length pre < fuel)%nat -> find_loop fuel k (spread (hash_of c)) q h = UB.
Proof.
  intros Hk Hn Hne Hfree. induction pre as [|[b n'] pre IH]; intros fuel q Hc Hr Hx Hf;
    (destruct fuel as [|fuel]; [cbn in Hf; lia|]); destruct Hc as (-> & Ha & q' & Hq & Hc); cbn [find_loop];
    rewrite (proj2 (Z.eqb_neq _ 0) Ha).
  - step (load_entry_ok _ _ _ Hq). unfold equalKeys. cbn [e_key e_hash entry_of].
    rewrite (proj2 (Z.eqb_neq _ _) Hne). unfold n_hash. rewrite Hn, Z.eqb_refl. cbn [negb].
    unfold bind at 1. cbn [equals str_keys]. unfold str_eq, bind at 1, load_str, bind at 1, load. by rewrite Hfree.
  - apply Forall_cons in Hr as [Hn' Hr]. apply Forall_cons in Hx as [Hx' Hx].
    rewrite (walk_step h k c Hk _ _ b n' q' Hq Hn'), decide_False by done.
    apply (IH fuel q'); [done..|cbn in Hf; lia].
Qed.

(** Looking up a key whose strings in the list were freed. *)
Lemma get_dangling h h' p c kp tk tv x y : holds_pair h p c (tk, tv) ->
  cells h !! tk = Some (OClient x) -> cells h !! tv = Some (OClient y) -> tv <> tk -> p <> tk -> p <> tv ->
  kp <> 0 -> cells h !! kp = Some (OClient (CStr c)) -> kp <> tk -> kp <> tv ->
  cells h' = delete tv (delete tk (cells h)) ->
  exists map, load_parms p h' = Ok (map, h') /\ hashmapGet map kp h' = UB.
Proof.
  intros (map & mm & FM & Hp & (bs & bss & T & -> & _) & Hc & Hnd) Htk Htv Hne Hpk Hpv Hk0 Hk Hkk Hkv E.
  exists map. split; [apply load_parms_ok; by rewrite E, !lookup_delete_ne|].
  set (h1 := set_cells h (delete tv (cells h))).
  assert (Hstr : forall z, z ∈ concat bss -> n_key z.2 = tk \/ n_key z.2 = tv -> n_content z.2 = c /\ n_key z.2 = tk).
  { intros z Hz Hor. pose proof (map_of_lookup _ _ (t_distinct _ _ _ _ T) Hz) as Hl.
    destruct (decide (n_content z.2 = c)) as [Ez|Nz]; [rewrite Ez, Hc in Hl; by injection Hl as -> _|].
    exfalso. rewrite (strings_delete _ _ _ _ Hc) in Hnd. rewrite !NoDup_cons, not_elem_of_cons in Hnd.
    assert (n_key z.2 ∈ strings (delete c (map_of bss))).
    { apply elem_of_strings. exists (n_content z.2), (n_key z.2), (n_value z.2). rewrite lookup_delete_ne by done. auto. }
    destruct Hnd as ((_ & ?) & ? & _). destruct Hor as [Eo|Eo]; rewrite Eo in *; done. }
  assert (T1 : table h1 map bs bss).
  { eapply table_drop; [exact T|exact Htv| |done]. intros z Hz Ez. destruct (Hstr z Hz (or_intror Ez)). congruence. }
  assert (Htk1 : cells h1 !! tk = Some (OClient x)) by (cbn; by rewrite lookup_delete_ne).
  assert (E1 : cells h' = delete tk (cells h1)) by (rewrite E; apply delete_delete).
  destruct (table_bucket _ _ _ _ c T1) as (i & xs & ps & q & B).
  destruct (bucket_split _ _ _ _ _ _ _ _ _ T1 B) as [(pre & a & n & post & Ex & Hpre & Hn & _ & _ & Hl)|(_ & _ & Hl)];
    [|congruence]. rewrite Hc in Hl. injection Hl as Enk _.
  pose proof (table_no_client _ _ _ _ _ _ T1 Htk1) as Hfp. unfold footprint in Hfp. rewrite !not_elem_of_cons in Hfp.
  destruct Hfp as (Hmap & Hbs & Hents).
  assert (Hkeep : forall d, d <> tk -> cells h' !! d = cells h1 !! d) by (intros d Hd; by rewrite E1, lookup_delete_ne).
  assert (Hk' : key_at h' kp c).
  { exists (CStr c). split; [split; [done|]|done]. by rewrite E, !lookup_delete_ne. }
  assert (Hxs : forall z, z ∈ xs -> z ∈ concat bss).
  { intros z Hz. rewrite (concat_lookup _ _ _ (b_bucket _ _ _ _ _ _ _ _ B)). apply elem_of_app. by left. }
  unfold hashmapGet, find_entry, bind at 1. step (hashKey_ok _ _ _ Hk').
  step (load_map_ok h' map _ (eq_trans (Hkeep map (not_eq_sym Hmap)) (t_map _ _ _ _ T1))). cbn [bucketCount buckets].
  rewrite <- (b_index _ _ _ _ _ _ _ _ B).
  assert (Hq : read_slot (Bucket bs (Z.of_nat i)) h' = Ok (q, h')).
  { apply (read_bucket_ok _ _ ps); [rewrite Hkeep by congruence; apply B|rewrite Nat2Z.id; apply B]. }
  step Hq. rewrite (bind_Ok _ _ h' (S (size (cells h'))) h') by done.
  rewrite (find_loop_dangling h' kp c a n post Hk' Hn) with (pre := pre); try done.
  - congruence.
  - by rewrite <- Enk, E1, lookup_delete_eq.
  - rewrite <- Ex. eapply chain_frame; [|apply B]. intros d Hd. apply Hkeep. intros ->. apply Hents.
    apply list_elem_of_fmap in Hd as (z & Ez & Hz). rewrite Ez. apply list_elem_of_fmap_2. by apply Hxs.
  - unfold readable_keys. rewrite Forall_forall in *. intros z Hz.
    assert (Hzc : z ∈ concat bss) by (apply Hxs; rewrite Ex, elem_of_app; by left).
    destruct (t_keys _ _ _ _ T1 z Hzc) as (w & [Hw0 Hw] & Hwk). exists w. split; [split; [done|]|done].
    rewrite Hkeep; [done|]. intros Ek. destruct (Hstr z Hzc (or_introl Ek)). by apply (Hpre z).
  - pose proof (b_fuel _ _ _ _ _ _ _ _ B) as Hf. rewrite Ex, length_app in Hf. cbn [length] in Hf.
    rewrite E1, map_size_delete_Some by eauto. lia.
Qed.

(** C40: what [str_parms_add_str] does with any parameter list, key and value:
    the pair is in the list afterwards; or it returns that there is no memory
    and the heap is as it was; or it returns that there is no memory after the
    pair of a new key went into the map, and frees the key and the value
    although the map points to them, so that every later lookup of the key reads
    freed memory.  That happens whenever the pair is inserted and growing the
    map then fails. *)
Theorem str_parms_add_str_use_after_free h p m F kp vp c v :
  parms h p m F -> kp <> 0 -> cells h !! kp = Some (OClient (CStr c)) -> kp ∉ F ->
  cells h !! vp = Some (OClient (CStr v)) ->
  exists r h', str_parms_add_str p kp vp h = Ok (r, h') /\
    ((r = 0 /\ ~ cannot_grow h p c v /\ exists F', parms h' p (<[c := v]> m) F' /\ framed h F h' F') \/
     (r = - ENOMEM /\ ~ cannot_grow h p c v /\ cells h' = cells h) \/
     (r = - ENOMEM /\ m !! c = None /\ str_parms_has_key p kp h' = UB /\
      forall buf len, str_parms_get_str p kp buf len h' = UB)).
Proof.
  intros Hp Hk0 Hk HkF Hv.
  destruct (add_strings_ok h p m F (load_str kp) c (load_str vp) v Hp) as (r & h' & E & _ & D); [by apply reads_load..|].
  exists r, h'. split; [done|].
  assert (Hgrow : cannot_grow h p c v -> r = - ENOMEM /\ cells h' <> cells h).
  { intros Hg. apply (cannot_grow_frees h p m F (load_str kp) c (load_str vp) v); [done|by apply reads_load..|done|done]. }
  destruct D as [[-> D]|[(-> & C & _)|(-> & Hno & _ & h3 & F' & tk & tv & Hf & Hh & (Ntk & Ntv & Hne) & (x & y & Ck & Cv) & C)]].
  { left. split_and!; [done|by intros [? _]%Hgrow|done]. }
  { right. left. split_and!; [done|by intros [_ ?]%Hgrow|done]. }
  right. right. destruct (proj2 (Hf kp _) (conj Hk HkF)) as [Hk3 _].
  assert (Hpc : is_Some (cells h !! p)) by (apply (parms_cells _ _ _ _ p Hp); destruct Hp as (? & ? & ? & _ & _ & _ & _ & _ & ->); by left).
  destruct Hpc as [o Ho].
  destruct (get_dangling h3 h' p c kp tk tv x y Hh Ck Cv Hne) as (map & El & Eg); try done; try congruence.
  split_and!; [done|done| |].
  - unfold str_parms_has_key. step El. unfold bind. by rewrite Eg.
  - intros buf len. unfold str_parms_get_str. step El. unfold bind at 1. by rewrite Eg.
Qed.
End Dangling.

(** ** Examples *)

#[local] Instance ex_platform : Platform := {| char_signed := true |}.
#[local] Existing Instance first_fit_allocator.

Definition chars : String.string -> cstr := String.list_ascii_of_string.

(** A text at 1 and keys at 2 and 3. *)
Definition ex_text : cstr := chars "rate=48000;mono;=x;rate=8".
Definition ex_parms_heap : heap cobj :=
  Heap {[ 1 := OClient (CStr ex_text); 2 := OClient (CStr (chars "rate")); 3 := OClient (CStr (chars "gain")) ]} 0 0.

Lemma str_parms_session_witness :
  exists p h1 h2, str_parms_create_str 1 ex_parms_heap = Ok (p, h1) /\
    str_parms_get_str p 2 (chars "????") 4 h1 = Ok ((1, chars "8" ++ NUL :: chars "??"), h1) /\
    str_parms_destroy p h1 = Ok (tt, h2) /\ cells h2 = cells ex_parms_heap.
Proof.
  destruct (str_parms_session ex_parms_heap 1 ex_text 2 (chars "rate") (chars "????") 4)
    as [Hz|(p & h1 & h2 & E1 & E2 & E3 & C)]; [done|exact (bool_decide_unpack (NUL ∉ ex_text) I)|done|done|lia|cbn; lia| |].
  - exfalso. revert Hz. by apply first_fit_room.
  - exists p, h1, h2. split_and!; [done|exact E2|done|done].
Defined.

(** The list the text is parsed to. *)
Definition ex_parms : gmap cstr cstr := put_all ∅ (parse ex_text).

Lemma ex_parms_made :
  exists p h1 F, str_parms_create_str 1 ex_parms_heap = Ok (p, h1) /\ parms h1 p ex_parms F /\
    framed ex_parms_heap [] h1 F /\ (size (cells h1) <= 12)%nat.
Proof.
  destruct (str_parms_create_str_ok ex_parms_heap 1 ex_text eq_refl) as [Hz|(p & h1 & F & E & _ & Hp & Hf)].
  { exfalso. revert Hz. by apply first_fit_room. }
  exists p, h1, F. split_and!; [done|done|done|].
  pose proof (framed_size _ _ _ _ Hf NoDup_nil_2 (fun a Ha => match not_elem_of_nil _ Ha with end)) as Hs.
  rewrite (parms_length _ _ _ _ Hp) in Hs. change (size (put_all ∅ (parse ex_text))) with 2%nat in Hs.
  change (size (cells ex_parms_heap)) with 3%nat in Hs. cbn [length] in Hs. lia.
Qed.

Lemma str_parms_print_parse_witness :
  exists p h1 t h2 p' h3 F', str_parms_create_str 1 ex_parms_heap = Ok (p, h1) /\
    str_parms_to_str p h1 = Ok (t, h2) /\ str_parms_create_str t h2 = Ok (p', h3) /\ parms h3 p' ex_parms F'.
Proof.
  destruct ex_parms_made as (p & h1 & F & E & Hp & _ & Hs).
  destruct (str_parms_print_parse h1 p ex_parms F Hp) as [Hz|(t & h2 & p' & h3 & F' & E2 & E3 & Hp' & _)].
  - intros k v [Hv|Hv]%put_all_elem; [by rewrite lookup_empty in Hv|]. revert k v Hv.
    pose proof (bool_decide_unpack (Forall printable (parse ex_text)) I) as Hall.
    intros k v Hv. rewrite Forall_forall in Hall. by apply Hall.
  - exfalso. revert Hz. apply first_fit_room. change (size ex_parms) with 2%nat. lia.
  - exists p, h1, t, h2, p', h3, F'. by split_and!.
Defined.

Lemma str_parms_int_roundtrip_witness :
  exists p h1 h2, str_parms_create_str 1 ex_parms_heap = Ok (p, h1) /\
    str_parms_add_int p 3 (-17) h1 = Ok (0, h2) /\ str_parms_get_int p 3 0 h2 = Ok ((0, -17), h2).
Proof.
  destruct ex_parms_made as (p & h1 & F & E & Hp & Hf & Hs).
  destruct (proj2 (Hf 3 (OClient (CStr (chars "gain")))) (conj eq_refl (not_elem_of_nil 3))) as [Hk HkF].
  destruct (str_parms_int_roundtrip h1 p ex_parms F 3 (chars "gain") (-17) 0 Hp ltac:(lia) Hk HkF ltac:(lia))
    as (r & h2 & E2 & [(-> & E3)|(_ & [Hz|Hz])]).
  - exists p, h1, h2. by split_and!.
  - exfalso. revert Hz. apply first_fit_room. lia.
  - exfalso. change (size ex_parms) with 2%nat in Hz. lia.
Defined.

(** An allocator with no room for an array of 16 buckets. *)
#[local, refine] Instance stingy_allocator {X} : Allocator X :=
  {| malloc h n := if n =? 128 then 0 else first_fit h |}.
Proof.
  - intros h n. destruct (n =? 128); [lia|]. exact (malloc_range (Allocator := first_fit_allocator) h n).
  - intros h n. destruct (n =? 128); [done|]. exact (malloc_fresh (Allocator := first_fit_allocator) h n).
Defined.

(** A text of six pairs at 1, and a key and a value at 2 and 3. *)
Definition ex_full_heap : heap cobj :=
  Heap {[ 1 := OClient (CStr (chars "a;b;c;d;e;f")); 2 := OClient (CStr (chars "g")); 3 := OClient (CStr (chars "1")) ]} 0 0.

Lemma ex_full_run :
  match str_parms_create_str (H0 := first_fit_allocator) 1 ex_full_heap with
  | Ok (p, h1) =>
    match str_parms_add_str (H0 := stingy_allocator) p 2 3 h1 with
    | Ok (r, h2) => r = - ENOMEM /\ size (cells h2) <> size (cells h1)
    | _ => False
    end
  | _ => False
  end.
Proof. vm_compute. split; [reflexivity|discriminate]. Qed.

Lemma ex_full_runs : exists p h1 r h2, str_parms_create_str (H0 := first_fit_allocator) 1 ex_full_heap = Ok (p, h1) /\
  str_parms_add_str (H0 := stingy_allocator) p 2 3 h1 = Ok (r, h2) /\ r = - ENOMEM /\ size (cells h2) <> size (cells h1).
Proof.
  pose proof ex_full_run as R. destruct (str_parms_create_str _ _) as [[p h1]| | |]; [|destruct R..].
  destruct (str_parms_add_str _ _ _ _) as [[r h2]| | |] eqn:E2; [|destruct R..]. exists p, h1, r, h2.
  split; [reflexivity|]. split; [exact E2|exact R].
Qed.

(** The list of six pairs is made while there is memory; the seventh pair is
    added when there is none for more buckets. *)
Lemma str_parms_add_str_use_after_free_witness :
  exists p h1 h2, str_parms_create_str (H0 := first_fit_allocator) 1 ex_full_heap = Ok (p, h1) /\
    str_parms_add_str (H0 := stingy_allocator) p 2 3 h1 = Ok (- ENOMEM, h2) /\ str_parms_has_key p 2 h2 = UB.
Proof.
  destruct (str_parms_create_str_ok (H0 := first_fit_allocator) ex_full_heap 1 (chars "a;b;c;d;e;f") eq_refl)
    as [Hz|(p & h1 & F & E & _ & Hp & Hf)].
  { exfalso. revert Hz. by apply first_fit_room. }
  destruct (proj2 (Hf 2 (OClient (CStr (chars "g")))) (conj eq_refl (not_elem_of_nil 2))) as [Hk HkF].
  destruct (proj2 (Hf 3 (OClient (CStr (chars "1")))) (conj eq_refl (not_elem_of_nil 3))) as [Hv _].
  destruct (str_parms_add_str_use_after_free (H0 := stingy_allocator) h1 p _ F 2 3 (chars "g") (chars "1") Hp
    ltac:(lia) Hk HkF Hv) as (r & h2 & E2 & D).
  exists p, h1, h2. split; [exact E|].
  destruct ex_full_runs as (p0 & h0 & r0 & h3 & E0 & E3 & Er & Es).
  assert (Ok (p0, h0) = Ok (p, h1)) as [= -> ->] by (etransitivity; [symmetry; exact E0|exact E]).
  assert (Ok (r0, h3) = Ok (r, h2)) as [= -> ->] by (etransitivity; [symmetry; exact E3|exact E2]).
  destruct D as [[-> _]|[(-> & _ & C)|(-> & _ & D & _)]]; [discriminate Er|destruct (Es (f_equal size C))|]. split; [exact E2|exact D].
Defined.
