(* ===== verification/Unicode.v ===== *)
(** * Unicode strings (core/libutils/Unicode.cpp)

    Conversions between UTF-8, UTF-16 and UTF-32, and string functions on 16-bit
    and 32-bit characters.  A pointer that is read through is the list of the
    characters from it to the end of its buffer: reading past the end is
    undefined.  A pointer that is written through is a buffer and an offset.
    [size_t] counters are bounded by the sizes of buffers and are [nat]; [NULL]
    is [None] where the code tests for it. *)

From S2P Require Import Prelude.

#[local] Open Scope Z_scope.
#[local] Open Scope c_scope.

(** [p[i]], and [p[i] = v]. *)
Definition rd (p : list Z) (i : nat) : outcome Z :=
  match p !! i with Some c => Ok c | None => UB end.
Definition wr (buf : list Z) (i : nat) (v : Z) : outcome (list Z) :=
  if (i <? length buf)%nat then Ok (<[i := v]> buf) else UB.

(** ** UTF-32 *)

Definition kByteMask : Z := 0xBF.
Definition kByteMark : Z := 0x80.
Definition kUnicodeSurrogateStart : Z := 0xD800.
Definition kUnicodeSurrogateEnd : Z := 0xDFFF.
Definition kUnicodeMaxCodepoint : Z := 0x10FFFF.
Definition kFirstByteMark : list Z := [0x00; 0x00; 0xC0; 0xE0; 0xF0].

Definition utf32_codepoint_utf8_length (srcChar : Z) : nat :=
  if srcChar <? 0x80 then 1
  else if srcChar <? 0x800 then 2
  else if srcChar <? 0x10000 then
    if (srcChar <? kUnicodeSurrogateStart) || (srcChar >? kUnicodeSurrogateEnd) then 3 else 0
  else if srcChar <=? kUnicodeMaxCodepoint then 4
  else 0.

(** A [case] of the switch writes a continuation byte at [i] and falls through. *)
Definition put_continuation (dst : list Z) (i : nat) (srcChar : Z) : outcome (list Z * Z) :=
  do! dst := wr dst i (u8 (Z.land (Z.lor srcChar kByteMark) kByteMask)) in
  Ok (dst, Z.shiftr srcChar 6).

Definition utf32_codepoint_to_utf8 (dst : list Z) (at_ : nat) (srcChar : Z) (bytes : nat) : outcome (list Z) :=
  let put_first (r : list Z * Z) :=
    do! mark := rd kFirstByteMark bytes in wr r.1 at_ (u8 (Z.lor r.2 mark)) in
  let case2 (r : list Z * Z) := do! r := put_continuation r.1 (at_ + 1) r.2 in put_first r in
  let case3 (r : list Z * Z) := do! r := put_continuation r.1 (at_ + 2) r.2 in case2 r in
  let case4 (r : list Z * Z) := do! r := put_continuation r.1 (at_ + 3) r.2 in case3 r in
  match bytes with
  | 4%nat => case4 (dst, srcChar)
  | 3%nat => case3 (dst, srcChar)
  | 2%nat => case2 (dst, srcChar)
  | 1%nat => put_first (dst, srcChar)
  | _ => Ok dst
  end.

Fixpoint strlen32 (s : list Z) : outcome nat :=
  match s with
  | [] => UB
  | c :: s => if c =? 0 then Ok 0%nat else do! n := strlen32 s in Ok (S n)
  end.

Fixpoint strnlen32 (s : list Z) (maxlen : nat) : outcome nat :=
  match maxlen, s with
  | O, _ => Ok 0%nat
  | S _, [] => UB
  | S maxlen, c :: s => if c =? 0 then Ok 0%nat else do! n := strnlen32 s maxlen in Ok (S n)
  end.

Section Chars.
Context `{Platform}.

(** The loop over the leading bits of [first_char]; a byte has no more than 8. *)
Fixpoint at_loop (fuel : nat) (first_char : Z) (cur : list Z) (num_to_read : nat)
    (mask to_ignore_mask utf32 : Z) : outcome (nat * Z * Z * Z) :=
  if Z.land (u32 first_char) mask =? 0 then Ok (num_to_read, mask, to_ignore_mask, utf32)
  else match fuel with
  | O => NoFuel
  | S fuel =>
    do! c := rd cur 0 in
    at_loop fuel first_char (tail cur) (S num_to_read) (Z.shiftr mask 1) (Z.lor to_ignore_mask mask)
      (u32 (u32 (Z.shiftl utf32 6) + Z.land (char_int c) 0x3F))
  end.

(** The result, and [*num_read]. *)
Definition utf32_at_internal (cur : list Z) : outcome (Z * nat) :=
  do! c := rd cur 0 in
  let first_char := char_int c in
  if Z.land first_char 0x80 =? 0 then Ok (first_char, 1%nat)
  else
    do! r := at_loop 8 first_char (tail cur) 1 0x40 0xFFFFFF80 (u32 first_char) in
    let '(num_to_read, mask, to_ignore_mask, utf32) := r in
    let to_ignore_mask := Z.lor to_ignore_mask mask in
    let n := 6 * (Z.of_nat num_to_read - 1) in
    if 32 <=? n then UB
    else Ok (i32 (Z.land utf32 (u32 (Z.lnot (u32 (Z.shiftl to_ignore_mask n))))), num_to_read).

(** The result, and what is stored in [*next_index]. *)
Definition utf32_from_utf8_at (src : list Z) (src_len index : nat) : outcome (Z * option nat) :=
  if (src_len <=? index)%nat then Ok (-1, None)
  else
    do! r := utf32_at_internal (drop index src) in
    let '(res, num_read) := r in
    Ok (res, if 0 <=? res then Some (index + num_read)%nat else None).
End Chars.

Fixpoint utf32_length_loop (src : list Z) (n ret : nat) : outcome nat :=
  match n with
  | O => Ok ret
  | S n =>
    do! c := rd src 0 in
    utf32_length_loop (tail src) n (ret + utf32_codepoint_utf8_length c)
  end.

Definition utf32_to_utf8_length (src : option (list Z)) (src_len : nat) : outcome Z :=
  match src with
  | None => Ok (-1)
  | Some src =>
    if (src_len =? 0)%nat then Ok (-1)
    else do! ret := utf32_length_loop src src_len 0 in Ok (Z.of_nat ret)
  end.

(** The buffer, and the offset of [cur] behind the last byte. *)
Fixpoint utf32_to_utf8_loop (src : list Z) (n : nat) (dst : list Z) (cur : nat) : outcome (list Z * nat) :=
  match n with
  | O => Ok (dst, cur)
  | S n =>
    do! c := rd src 0 in
    let len := utf32_codepoint_utf8_length c in
    do! dst := utf32_codepoint_to_utf8 dst cur c len in
    utf32_to_utf8_loop (tail src) n dst (cur + len)
  end.

Definition utf32_to_utf8 (src : option (list Z)) (src_len : nat) (dst : option (list Z)) : outcome (option (list Z)) :=
  match src, dst with
  | Some src, Some dst =>
    if (src_len =? 0)%nat then Ok (Some dst)
    else
      do! r := utf32_to_utf8_loop src src_len dst 0 in
      do! dst := wr r.1 r.2 0 in
      Ok (Some dst)
  | _, _ => Ok dst
  end.

(** ** UTF-16 *)

Fixpoint strcmp16 (s1 s2 : list Z) : outcome Z :=
  match s1, s2 with
  | ch :: s1, c2 :: s2 =>
    let d := ch - c2 in
    if negb (d =? 0) || (ch =? 0) then Ok d else strcmp16 s1 s2
  | _, _ => UB
  end.

Fixpoint strncmp16_loop (s1 s2 : list Z) (n : nat) (d : Z) : outcome Z :=
  match n with
  | O => Ok d
  | S n =>
    match s1, s2 with
    | ch :: s1, c2 :: s2 =>
      let d := ch - c2 in
      if negb (d =? 0) || (ch =? 0) then Ok d else strncmp16_loop s1 s2 n d
    | _, _ => UB
    end
  end.
Definition strncmp16 (s1 s2 : list Z) (n : nat) : outcome Z := strncmp16_loop s1 s2 n 0.

Fixpoint strcpy16_loop (dst : list Z) (q : nat) (p : list Z) : outcome (list Z) :=
  match p with
  | [] => UB
  | ch :: p =>
    do! dst := wr dst q ch in
    if ch =? 0 then Ok dst else strcpy16_loop dst (S q) p
  end.
Definition strcpy16 (dst src : list Z) : outcome (list Z) := strcpy16_loop dst 0 src.

Fixpoint strlen16 (s : list Z) : outcome nat :=
  match s with
  | [] => UB
  | c :: s => if c =? 0 then Ok 0%nat else do! n := strlen16 s in Ok (S n)
  end.

(** [ch] is a [char]: [*q++ = ch = *p++] stores what is left of the character. *)
Fixpoint strncpy16_loop `{Platform} (dst : list Z) (q : nat) (p : list Z) (n : nat) : outcome (list Z * nat) :=
  match n with
  | O => Ok (dst, q)
  | S n =>
    match p with
    | [] => UB
    | c :: p =>
      let ch := char_int (u8 c) in
      do! dst := wr dst q (u16 ch) in
      if ch =? 0 then Ok (dst, S q) else strncpy16_loop dst (S q) p n
    end
  end.
Definition strncpy16 `{Platform} (dst src : list Z) (n : nat) : outcome (list Z) :=
  do! r := strncpy16_loop dst 0 src n in wr r.1 r.2 0.

Fixpoint strnlen16 (s : list Z) (maxlen : nat) : outcome nat :=
  match maxlen, s with
  | O, _ => Ok 0%nat
  | S _, [] => UB
  | S maxlen, c :: s => if c =? 0 then Ok 0%nat else do! n := strnlen16 s maxlen in Ok (S n)
  end.

(** [ntohs] on a little-endian host. *)
Definition ntohs (x : Z) : Z := Z.lor (Z.land (Z.shiftl x 8) 0xff00) (Z.land (Z.shiftr x 8) 255).

(** [conv] is what is done to a character of [s2]. *)
Fixpoint zcmp_loop (conv : Z -> Z) (s1 : list Z) (n1 : nat) (s2 : list Z) (n2 : nat) : outcome Z :=
  match n1, n2 with
  | S n1, S n2 =>
    match s1, s2 with
    | c1 :: s1, c2 :: s2 =>
      let d := c1 - conv c2 in
      if negb (d =? 0) then Ok d else zcmp_loop conv s1 n1 s2 n2
    | _, _ => UB
    end
  | O, S _ => do! c := rd s2 0 in Ok (0 - conv c)
  | S _, O => do! c := rd s1 0 in Ok (c - 0)
  | O, O => Ok 0
  end.
Definition strzcmp16 (s1 : list Z) (n1 : nat) (s2 : list Z) (n2 : nat) : outcome Z :=
  zcmp_loop (fun c => c) s1 n1 s2 n2.
Definition strzcmp16_h_n (s1H : list Z) (n1 : nat) (s2N : list Z) (n2 : nat) : outcome Z :=
  zcmp_loop ntohs s1H n1 s2N n2.

(** One character of the input: its code point, and the rest. *)
Definition next_utf16 (cur : list Z) (n : nat) : outcome (Z * list Z * nat) :=
  do! c := rd cur 0 in
  let single := Ok (c, tail cur, pred n) in
  if (Z.land c 0xFC00 =? 0xD800) && (1 <? n)%nat then
    do! c2 := rd cur 1 in
    if Z.land c2 0xFC00 =? 0xDC00
    then Ok (u32 (Z.lor (u32 (Z.shiftl (c - 0xD800) 10)) (u32 (c2 - 0xDC00)) + 0x10000), drop 2 cur, (n - 2)%nat)
    else single
  else single.

Fixpoint utf16_to_utf8_loop (fuel : nat) (src : list Z) (n : nat) (dst : list Z) (cur : nat) : outcome (list Z * nat) :=
  if (n =? 0)%nat then Ok (dst, cur)
  else match fuel with
  | O => NoFuel
  | S fuel =>
    do! r := next_utf16 src n in
    let '(utf32, src, n) := r in
    let len := utf32_codepoint_utf8_length utf32 in
    do! dst := utf32_codepoint_to_utf8 dst cur utf32 len in
    utf16_to_utf8_loop fuel src n dst (cur + len)
  end.

Definition utf16_to_utf8 (src : option (list Z)) (src_len : nat) (dst : option (list Z)) : outcome (option (list Z)) :=
  match src, dst with
  | Some src, Some dst =>
    if (src_len =? 0)%nat then Ok (Some dst)
    else
      do! r := utf16_to_utf8_loop src_len src src_len dst 0 in
      do! dst := wr r.1 r.2 0 in
      Ok (Some dst)
  | _, _ => Ok dst
  end.

(** ** UTF-8 *)

Section Utf8.
Context `{Platform}.

(** The loop over the continuation bytes; [None] is [return -1]. *)
Fixpoint seq_loop (fuel : nat) (first_char : Z) (cur : list Z) (num_to_read : nat)
    (mask to_ignore_mask utf32 : Z) : outcome (option (nat * Z * Z * Z * list Z)) :=
  if (num_to_read <? 5)%nat && negb (Z.land first_char mask =? 0) then
    match fuel with
    | O => NoFuel
    | S fuel =>
      do! c := rd cur 0 in
      if negb (Z.land (char_int c) 0xC0 =? 0x80) then Ok None
      else seq_loop fuel first_char (tail cur) (S num_to_read) (Z.shiftr mask 1) (Z.lor to_ignore_mask mask)
             (u32 (u32 (Z.shiftl utf32 6) + Z.land (char_int c) 0x3F))
    end
  else Ok (Some (num_to_read, mask, to_ignore_mask, utf32, cur)).

Fixpoint utf8_length_loop (fuel : nat) (cur : list Z) (ret : nat) : outcome Z :=
  do! c := rd cur 0 in
  if c =? 0 then Ok (Z.of_nat ret)
  else match fuel with
  | O => NoFuel
  | S fuel =>
    let first_char := char_int c in
    let cur := tail cur in
    if Z.land first_char 0x80 =? 0 then utf8_length_loop fuel cur (ret + 1)
    else if Z.land first_char 0x40 =? 0 then Ok (-1)
    else
      do! r := seq_loop 4 first_char cur 1 0x40 0x80 0 in
      match r with
      | None => Ok (-1)
      | Some (num_to_read, mask, to_ignore_mask, utf32, cur) =>
        if (num_to_read =? 5)%nat then Ok (-1)
        else
          let to_ignore_mask := Z.lor to_ignore_mask mask in
          let high := i32 (Z.shiftl (Z.land (Z.lnot to_ignore_mask) first_char) (6 * (Z.of_nat num_to_read - 1))) in
          let utf32 := Z.lor utf32 (u32 high) in
          if utf32 >? kUnicodeMaxCodepoint then Ok (-1)
          else utf8_length_loop fuel cur (ret + num_to_read)
      end
  end.

Definition utf8_length (src : list Z) : outcome Z := utf8_length_loop (length src) src 0.
End Utf8.

(** [*++src] in the condition moves [src] also when the test fails. *)
Fixpoint utf16_length_loop (fuel : nat) (src : list Z) (n ret : nat) : outcome nat :=
  if (n =? 0)%nat then Ok ret
  else match fuel with
  | O => NoFuel
  | S fuel =>
    do! c := rd src 0 in
    let single (src : list Z) (n : nat) :=
      do! c := rd src 0 in
      utf16_length_loop fuel (tail src) (pred n) (ret + utf32_codepoint_utf8_length c) in
    if (Z.land c 0xFC00 =? 0xD800) && (1 <? n)%nat then
      let src := tail src in
      let n := pred n in
      do! c2 := rd src 0 in
      if Z.land c2 0xFC00 =? 0xDC00 then utf16_length_loop fuel (tail src) (pred n) (ret + 4)
      else single src n
    else single src n
  end.

Definition utf16_to_utf8_length (src : option (list Z)) (src_len : nat) : outcome Z :=
  match src with
  | None => Ok (-1)
  | Some src =>
    if (src_len =? 0)%nat then Ok (-1)
    else do! ret := utf16_length_loop src_len src src_len 0 in Ok (Z.of_nat ret)
  end.

Definition utf8_codepoint_len (ch : Z) : nat :=
  Z.to_nat (Z.land (Z.shiftr 0xe5000000 (Z.land (Z.shiftr ch 3) 0x1e)) 3 + 1).

Definition utf8_shift_and_mask (codePoint byte : Z) : Z :=
  Z.lor (u32 (Z.shiftl codePoint 6)) (Z.land 0x3F byte).

Section Utf8To32.
Context `{Platform}.

(** [for (mask = 0x40; (first_char & mask); num_to_skip++, mask >>= 1)] *)
Fixpoint skip_loop (fuel : nat) (first_char mask : Z) (num_to_skip : nat) : outcome nat :=
  if Z.land first_char mask =? 0 then Ok num_to_skip
  else match fuel with
  | O => NoFuel
  | S fuel => skip_loop fuel first_char (Z.shiftr mask 1) (S num_to_skip)
  end.

(** [n] is [end - cur]. *)
Fixpoint utf8_to_utf32_length_loop (fuel : nat) (cur : list Z) (n : Z) (ret : nat) : outcome nat :=
  if 0 <? n then
    match fuel with
    | O => NoFuel
    | S fuel =>
      do! c := rd cur 0 in
      let first_char := char_int c in
      do! num_to_skip := (if Z.land first_char 0x80 =? 0 then Ok 1%nat else skip_loop 8 first_char 0x40 1) in
      utf8_to_utf32_length_loop fuel (drop num_to_skip cur) (n - Z.of_nat num_to_skip) (ret + 1)
    end
  else Ok ret.

Definition utf8_to_utf32_length (src : option (list Z)) (src_len : nat) : outcome nat :=
  match src with
  | None => Ok 0%nat
  | Some src =>
    if (src_len =? 0)%nat then Ok 0%nat else utf8_to_utf32_length_loop src_len src (Z.of_nat src_len) 0
  end.

Fixpoint utf8_to_utf32_loop (fuel : nat) (cur : list Z) (n : Z) (dst : list Z) (cur_utf32 : nat) : outcome (list Z * nat) :=
  if 0 <? n then
    match fuel with
    | O => NoFuel
    | S fuel =>
      do! r := utf32_at_internal cur in
      let '(c, num_read) := r in
      do! dst := wr dst cur_utf32 (u32 c) in
      utf8_to_utf32_loop fuel (drop num_read cur) (n - Z.of_nat num_read) dst (S cur_utf32)
    end
  else Ok (dst, cur_utf32).

Definition utf8_to_utf32 (src : option (list Z)) (src_len : nat) (dst : option (list Z)) : outcome (option (list Z)) :=
  match src, dst with
  | Some src, Some dst =>
    if (src_len =? 0)%nat then Ok (Some dst)
    else
      do! r := utf8_to_utf32_loop src_len src (Z.of_nat src_len) dst 0 in
      do! dst := wr r.1 r.2 0 in
      Ok (Some dst)
  | _, _ => Ok dst
  end.
End Utf8To32.

Definition utf8_to_utf32_codepoint (src : list Z) (length : nat) : outcome Z :=
  let shift_in (i : nat) (unicode : Z) := do! b := rd src i in Ok (utf8_shift_and_mask unicode b) in
  match length with
  | 1%nat => rd src 0
  | 2%nat => do! b := rd src 0 in shift_in 1%nat (Z.land b 0x1f)
  | 3%nat => do! b := rd src 0 in do! u := shift_in 1%nat (Z.land b 0x0f) in shift_in 2%nat u
  | 4%nat =>
    do! b := rd src 0 in
    do! u := shift_in 1%nat (Z.land b 0x07) in
    do! u := shift_in 2%nat u in
    shift_in 3%nat u
  | _ => Ok 0xffff
  end.

(** The length measured, and [u8end - u8cur] behind the loop. *)
Fixpoint utf8_to_utf16_length_loop (fuel : nat) (u8cur : list Z) (n : Z) (u16measuredLen : nat) : outcome (nat * Z) :=
  if 0 <? n then
    match fuel with
    | O => NoFuel
    | S fuel =>
      do! c := rd u8cur 0 in
      let u8charLen := utf8_codepoint_len c in
      do! codepoint := utf8_to_utf32_codepoint u8cur u8charLen in
      utf8_to_utf16_length_loop fuel (drop u8charLen u8cur) (n - Z.of_nat u8charLen)
        (S (if codepoint >? 0xFFFF then S u16measuredLen else u16measuredLen))
    end
  else Ok (u16measuredLen, n).

Definition utf8_to_utf16_length (u8str : list Z) (u8len : nat) : outcome Z :=
  do! r := utf8_to_utf16_length_loop u8len u8str (Z.of_nat u8len) 0 in
  Ok (if r.2 =? 0 then Z.of_nat r.1 else -1).

Definition high_surrogate (codepoint : Z) : Z := u16 (Z.shiftr codepoint 10 + 0xD800).
Definition low_surrogate (codepoint : Z) : Z := u16 (Z.land codepoint 0x3FF + 0xDC00).

Fixpoint utf8_to_utf16_loop (fuel : nat) (u8cur : list Z) (n : Z) (u16str : list Z) (u16cur : nat) : outcome (list Z * nat) :=
  if 0 <? n then
    match fuel with
    | O => NoFuel
    | S fuel =>
      do! c := rd u8cur 0 in
      let u8len := utf8_codepoint_len c in
      do! codepoint := utf8_to_utf32_codepoint u8cur u8len in
      do! r := (if codepoint <=? 0xFFFF then
                  do! u16str := wr u16str u16cur (u16 codepoint) in Ok (u16str, S u16cur)
                else
                  let codepoint := u32 (codepoint - 0x10000) in
                  do! u16str := wr u16str u16cur (high_surrogate codepoint) in
                  do! u16str := wr u16str (S u16cur) (low_surrogate codepoint) in
                  Ok (u16str, S (S u16cur))) in
      utf8_to_utf16_loop fuel (drop u8len u8cur) (n - Z.of_nat u8len) r.1 r.2
    end
  else Ok (u16str, u16cur).

(** The buffer, and the offset of the pointer that is returned. *)
Definition utf8_to_utf16_no_null_terminator (u8str : list Z) (u8len : nat) (u16str : list Z) : outcome (list Z * nat) :=
  utf8_to_utf16_loop u8len u8str (Z.of_nat u8len) u16str 0.

Definition utf8_to_utf16 (u8str : list Z) (u8len : nat) (u16str : list Z) : outcome (list Z) :=
  do! r := utf8_to_utf16_no_null_terminator u8str u8len u16str in wr r.1 r.2 0.

Fixpoint utf8_to_utf16_n_loop (fuel : nat) (u8cur : list Z) (n : Z) (dst : list Z) (dstLen u16cur : nat)
    : outcome (list Z * nat) :=
  if (0 <? n) && (u16cur <? dstLen)%nat then
    match fuel with
    | O => NoFuel
    | S fuel =>
      do! c := rd u8cur 0 in
      let u8len := utf8_codepoint_len c in
      do! codepoint := utf8_to_utf32_codepoint u8cur u8len in
      if codepoint <=? 0xFFFF then
        do! dst := wr dst u16cur (u16 codepoint) in
        utf8_to_utf16_n_loop fuel (drop u8len u8cur) (n - Z.of_nat u8len) dst dstLen (S u16cur)
      else
        let codepoint := u32 (codepoint - 0x10000) in
        do! dst := wr dst u16cur (high_surrogate codepoint) in
        if (dstLen <=? S u16cur)%nat then Ok (dst, u16cur)
        else
          do! dst := wr dst (S u16cur) (low_surrogate codepoint) in
          utf8_to_utf16_n_loop fuel (drop u8len u8cur) (n - Z.of_nat u8len) dst dstLen (S (S u16cur))
    end
  else Ok (dst, u16cur).

Definition utf8_to_utf16_n (src : list Z) (srcLen : nat) (dst : list Z) (dstLen : nat) : outcome (list Z * nat) :=
  utf8_to_utf16_n_loop srcLen src (Z.of_nat srcLen) dst dstLen 0.
