(* ===== verification/UnicodeProps.v ===== *)
(** * Unicode strings: the encodings

    UTF-8 and UTF-16 as functions on code points, and what the code of
    Unicode.cpp does on the encodings of one character. *)

From S2P Require Import Prelude Words Unicode.

#[local] Open Scope Z_scope.
#[local] Open Scope c_scope.

(** ** The encodings *)

Definition scalar (c : Z) : Prop := 0 <= c < 0xD800 \/ 0xE000 <= c <= 0x10FFFF.

#[export] Instance scalar_dec c : Decision (scalar c).
Proof. unfold scalar. apply _. Defined.

Definition cont (z : Z) : Z := 0x80 + z mod 64.

(** The UTF-8 bytes of a code point; none for surrogates and numbers that are
    too large. *)
Definition enc8 (c : Z) : list Z :=
  if c <? 0x80 then [c]
  else if c <? 0x800 then [0xC0 + c / 2 ^ 6; cont c]
  else if c <? 0x10000 then
    if (c <? 0xD800) || (c >? 0xDFFF) then [0xE0 + c / 2 ^ 12; cont (c / 2 ^ 6); cont c] else []
  else if c <=? 0x10FFFF then [0xF0 + c / 2 ^ 18; cont (c / 2 ^ 12); cont (c / 2 ^ 6); cont c]
  else [].

Definition enc16 (c : Z) : list Z :=
  if c <? 0x10000 then [c] else [0xD800 + (c - 0x10000) / 2 ^ 10; 0xDC00 + (c - 0x10000) mod 2 ^ 10].

Definition utf8 (l : list Z) : list Z := l ≫= enc8.
Definition utf16 (l : list Z) : list Z := l ≫= enc16.

(** What the converter reads in a UTF-16 string, lone surrogates included. *)
Definition is_high (c : Z) : bool := (0xD800 <=? c) && (c <? 0xDC00).
Definition is_low (c : Z) : bool := (0xDC00 <=? c) && (c <? 0xE000).
Definition pair_code (h l : Z) : Z := 0x10000 + (h - 0xD800) * 2 ^ 10 + (l - 0xDC00).

Fixpoint decode16 (s : list Z) : list Z :=
  match s with
  | [] => []
  | h :: s1 =>
    match s1 with
    | l :: s2 => if is_high h && is_low l then pair_code h l :: decode16 s2 else h :: decode16 s1
    | [] => [h]
    end
  end.

Definition bytes (s : list Z) : Prop := Forall (fun c => 0 <= c < 2 ^ 8) s.
Definition chars16 (s : list Z) : Prop := Forall (fun c => 0 <= c < 2 ^ 16) s.

(** ** Small numbers *)

(** A property of all numbers below [n], by trying them. *)
Lemma below (n : nat) (P : Z -> bool) :
  forallb (fun i => P (Z.of_nat i)) (seq 0 n) = true -> forall z, 0 <= z < Z.of_nat n -> P z = true.
Proof.
  intros Hall z Hz. rewrite forallb_forall in Hall. rewrite <- (Z2Nat.id z) by lia.
  apply Hall, in_seq. lia.
Qed.

Lemma below_eqb (n : nat) (f g : Z -> Z) :
  forallb (fun i => f (Z.of_nat i) =? g (Z.of_nat i)) (seq 0 n) = true -> forall z, 0 <= z < Z.of_nat n -> f z = g z.
Proof. intros Hall z Hz. apply Z.eqb_eq. exact (below n (fun z => f z =? g z) Hall z Hz). Qed.

Lemma land_low (z m k : Z) : 0 <= k -> 0 <= m < 2 ^ k -> Z.land z m = Z.land (z mod 2 ^ k) m.
Proof.
  intros Hk Hm. rewrite <- Z.land_ones by done. rewrite <- Z.land_assoc. f_equal.
  rewrite Z.land_comm, Z.land_ones, Z.mod_small; lia.
Qed.

Lemma cont_byte z : u8 (Z.land (Z.lor z kByteMark) kByteMask) = cont z.
Proof.
  unfold u8, cont. rewrite Z.land_lor_distr_l, (land_low z kByteMask 8) by (unfold kByteMask; lia).
  rewrite <- (Z.mod_small (z mod 2 ^ 8) 256) by (apply Z.mod_pos_bound; lia).
  replace (z mod 64) with (z mod 2 ^ 8 mod 64) by (symmetry; apply Znumtheory.Zmod_div_mod; [lia|lia|by exists 4]).
  apply (below_eqb 256 (fun z => Z.lor (Z.land (z mod 256) kByteMask) (Z.land kByteMark kByteMask) mod 2 ^ 8)
    (fun z => 128 + z mod 64)); [vm_compute; reflexivity|]. apply Z.mod_pos_bound; lia.
Qed.

(** The marks of the first byte. *)
Lemma mark1 z : 0 <= z < 128 -> u8 (Z.lor z 0) = z.
Proof. apply (below_eqb 128 (fun z => u8 (Z.lor z 0)) (fun z => z)). vm_compute. reflexivity. Qed.
Lemma mark2 z : 0 <= z < 32 -> u8 (Z.lor z 0xC0) = 0xC0 + z.
Proof. apply (below_eqb 32 (fun z => u8 (Z.lor z 0xC0)) (fun z => 0xC0 + z)). vm_compute. reflexivity. Qed.
Lemma mark3 z : 0 <= z < 16 -> u8 (Z.lor z 0xE0) = 0xE0 + z.
Proof. apply (below_eqb 16 (fun z => u8 (Z.lor z 0xE0)) (fun z => 0xE0 + z)). vm_compute. reflexivity. Qed.
Lemma mark4 z : 0 <= z < 8 -> u8 (Z.lor z 0xF0) = 0xF0 + z.
Proof. apply (below_eqb 8 (fun z => u8 (Z.lor z 0xF0)) (fun z => 0xF0 + z)). vm_compute. reflexivity. Qed.

Lemma cont_range z : 0x80 <= cont z < 0xC0.
Proof. unfold cont. pose proof (Z.mod_pos_bound z 64). lia. Qed.

(** ** Writing one character *)

Lemma wr_app pre mid post i v :
  (i < length mid)%nat -> wr (pre ++ mid ++ post) (length pre + i) v = Ok (pre ++ <[i := v]> mid ++ post).
Proof.
  intros Hi. unfold wr. rewrite (proj2 (Nat.ltb_lt _ _)) by (rewrite !length_app; lia).
  by rewrite insert_app_r, insert_app_l.
Qed.

Lemma length_enc8 c : length (enc8 c) = utf32_codepoint_utf8_length c.
Proof.
  unfold enc8, utf32_codepoint_utf8_length, kUnicodeSurrogateStart, kUnicodeSurrogateEnd, kUnicodeMaxCodepoint.
  by repeat case_match.
Qed.

Lemma wr_mid pre mid post n v i :
  (i < length mid)%nat -> n = (length pre + i)%nat -> wr (pre ++ mid ++ post) n v = Ok (pre ++ <[i := v]> mid ++ post).
Proof. intros Hi ->. by apply wr_app. Qed.

(** The bytes of the switch, from the last to the first. *)
Ltac put_bytes :=
  cbn [obind fst snd];
  repeat (match goal with
  | |- context [wr (?pre ++ ?mid ++ ?post) (length ?pre + ?k) ?v] =>
    rewrite (wr_mid pre mid post _ v k) by (rewrite ?length_insert; cbn [length]; lia)
  | |- context [wr (?pre ++ ?mid ++ ?post) (length ?pre) ?v] =>
    rewrite (wr_mid pre mid post _ v 0) by (rewrite ?length_insert; cbn [length]; lia)
  end; cbn [obind fst snd]).

Lemma codepoint_to_utf8_ok pre mid post c :
  0 <= c -> length mid = length (enc8 c) ->
  utf32_codepoint_to_utf8 (pre ++ mid ++ post) (length pre) c (utf32_codepoint_utf8_length c) = Ok (pre ++ enc8 c ++ post).
Proof.
  intros Hc Hm. rewrite <- length_enc8. unfold enc8 in *.
  destruct (Z.ltb_spec c 0x80); [|destruct (Z.ltb_spec c 0x800);
    [|destruct (Z.ltb_spec c 0x10000); [destruct (_ || _)|destruct (Z.leb_spec c 0x10FFFF)]]].
  all: cbn [length] in *; unfold utf32_codepoint_to_utf8, put_continuation.
  all: change (rd kFirstByteMark 1) with (Ok 0); change (rd kFirstByteMark 2) with (Ok 0xC0);
    change (rd kFirstByteMark 3) with (Ok 0xE0); change (rd kFirstByteMark 4) with (Ok 0xF0).
  - destruct mid as [|x0 [|]]; try done. cbn [obind fst snd]. rewrite mark1 by lia. put_bytes. done.
  - destruct mid as [|x0 [|x1 [|]]]; try done. put_bytes.
    rewrite cont_byte, Z.shiftr_div_pow2, mark2; [done|Z.to_euclidean_division_equations; lia|lia].
  - destruct mid as [|x0 [|x1 [|x2 [|]]]]; try done. put_bytes. rewrite !cont_byte, !Z.shiftr_div_pow2, !Z.div_div by lia.
    rewrite mark3; [done|Z.to_euclidean_division_equations; lia].
  - by destruct mid.
  - destruct mid as [|x0 [|x1 [|x2 [|x3 [|]]]]]; try done. put_bytes.
    rewrite !cont_byte, !Z.shiftr_div_pow2, !Z.div_div by lia.
    rewrite mark4; [done|Z.to_euclidean_division_equations; lia].
  - by destruct mid.
Qed.

(** ** Reading one character *)

Lemma enc8_cases c :
  scalar c ->
  (0 <= c < 0x80 /\ enc8 c = [c]) \/
  (0x80 <= c < 0x800 /\ enc8 c = [0xC0 + c / 2 ^ 6; cont c]) \/
  (0x800 <= c < 0x10000 /\ enc8 c = [0xE0 + c / 2 ^ 12; cont (c / 2 ^ 6); cont c]) \/
  (0x10000 <= c <= 0x10FFFF /\ enc8 c = [0xF0 + c / 2 ^ 18; cont (c / 2 ^ 12); cont (c / 2 ^ 6); cont c]).
Proof.
  unfold scalar, enc8. intros Hc.
  destruct (Z.ltb_spec c 0x80); [left; split; [lia|done]|right].
  destruct (Z.ltb_spec c 0x800); [left; split; [lia|done]|right].
  destruct (Z.ltb_spec c 0x10000); [left|right].
  - destruct (Z.ltb_spec c 0xD800); [split; [lia|done]|]. rewrite Z.gtb_ltb.
    destruct (Z.ltb_spec 0xDFFF c); [split; [lia|done]|lia].
  - destruct (Z.leb_spec c 0x10FFFF); [split; [lia|done]|lia].
Qed.

Lemma codepoint_len_ok b :
  0 <= b < 256 ->
  utf8_codepoint_len b = if b <? 0xC0 then 1%nat else if b <? 0xE0 then 2%nat else if b <? 0xF0 then 3%nat else 4%nat.
Proof.
  intros Hb. apply Nat.eqb_eq. revert b Hb.
  apply (below 256 (fun b => Nat.eqb (utf8_codepoint_len b)
    (if b <? 0xC0 then 1%nat else if b <? 0xE0 then 2%nat else if b <? 0xF0 then 3%nat else 4%nat))).
  vm_compute. reflexivity.
Qed.

Lemma land_mod z m k : 0 <= k -> m = 2 ^ k - 1 -> Z.land z m = z mod 2 ^ k.
Proof. intros Hk ->. rewrite <- Z.land_ones by done. by rewrite Z.ones_equiv, Z.sub_1_r. Qed.

Lemma shift_and_mask_ok u b : 0 <= u < 2 ^ 26 -> utf8_shift_and_mask u b = u * 64 + b mod 64.
Proof.
  intros Hu. unfold utf8_shift_and_mask. rewrite Z.land_comm, (land_mod b _ 6) by done.
  rewrite u32_small by (rewrite Z.shiftl_mul_pow2; lia).
  rewrite lor_shiftl; [done|lia|apply Z.mod_pos_bound; lia].
Qed.

Lemma cont_mod z : cont z mod 64 = z mod 64.
Proof. unfold cont. Z.to_euclidean_division_equations. lia. Qed.

Lemma first_low k n z : 0 <= k -> 0 <= z < 2 ^ k -> (n * 2 ^ k + z) mod 2 ^ k = z.
Proof. intros Hk Hz. rewrite Z.add_comm, Z.mod_add, Z.mod_small by lia. done. Qed.

(** The numbers that the groups of six bits make. *)
Lemma groups2 c : c = c / 2 ^ 6 * 64 + c mod 64.
Proof. rewrite (Z.div_mod c 64) at 1 by lia. change (2 ^ 6) with 64. lia. Qed.
Lemma groups3 c : c = (c / 2 ^ 12 * 64 + c / 2 ^ 6 mod 64) * 64 + c mod 64.
Proof.
  rewrite (groups2 c) at 1. rewrite (groups2 (c / 2 ^ 6)) at 1. by rewrite Z.div_div by lia.
Qed.
Lemma groups4 c : c = ((c / 2 ^ 18 * 64 + c / 2 ^ 12 mod 64) * 64 + c / 2 ^ 6 mod 64) * 64 + c mod 64.
Proof.
  rewrite (groups3 c) at 1. rewrite (groups2 (c / 2 ^ 12)) at 1. by rewrite Z.div_div by lia.
Qed.

Lemma codepoint_ok c rest :
  scalar c -> utf8_to_utf32_codepoint (enc8 c ++ rest) (length (enc8 c)) = Ok c.
Proof.
  intros Hc. destruct (enc8_cases c Hc) as [(Hr & ->)|[(Hr & ->)|[(Hr & ->)|(Hr & ->)]]]; cbn [app length].
  - done.
  - unfold utf8_to_utf32_codepoint, rd. cbn [lookup list_lookup obind].
    rewrite (land_mod _ _ 5) by done. rewrite (first_low 5 6) by (Z.to_euclidean_division_equations; lia).
    rewrite shift_and_mask_ok, cont_mod by (Z.to_euclidean_division_equations; lia). by rewrite <- groups2.
  - unfold utf8_to_utf32_codepoint, rd. cbn [lookup list_lookup obind].
    rewrite (land_mod _ _ 4) by done. rewrite (first_low 4 14) by (Z.to_euclidean_division_equations; lia).
    rewrite !shift_and_mask_ok, !cont_mod by (rewrite ?shift_and_mask_ok, ?cont_mod by (Z.to_euclidean_division_equations; lia); Z.to_euclidean_division_equations; lia).
    by rewrite <- groups3.
  - unfold utf8_to_utf32_codepoint, rd. cbn [lookup list_lookup obind].
    rewrite (land_mod _ _ 3) by done. rewrite (first_low 3 30) by (Z.to_euclidean_division_equations; lia).
    rewrite (shift_and_mask_ok (c / 2 ^ 18)), cont_mod by (Z.to_euclidean_division_equations; lia).
    rewrite (shift_and_mask_ok (c / 2 ^ 18 * 64 + c / 2 ^ 12 mod 64)), cont_mod by (Z.to_euclidean_division_equations; lia).
    rewrite shift_and_mask_ok, cont_mod by (Z.to_euclidean_division_equations; lia). by rewrite <- groups4.
Qed.

Lemma enc8_first c :
  scalar c -> exists b bs, enc8 c = b :: bs /\ 0 <= b < 256 /\ utf8_codepoint_len b = length (enc8 c).
Proof.
  intros Hc. destruct (enc8_cases c Hc) as [(Hr & ->)|[(Hr & ->)|[(Hr & ->)|(Hr & ->)]]];
    (eexists _, _; split; [reflexivity|]).
  - split; [lia|]. rewrite codepoint_len_ok by lia. by rewrite (proj2 (Z.ltb_lt c 0xC0)) by lia.
  - assert (0 <= c / 2 ^ 6 < 32) by (Z.to_euclidean_division_equations; lia).
    split; [lia|]. rewrite codepoint_len_ok by lia. by destruct (Z.ltb_spec (0xC0 + c / 2 ^ 6) 0xC0), (Z.ltb_spec (0xC0 + c / 2 ^ 6) 0xE0); try lia.
  - assert (0 <= c / 2 ^ 12 < 16) by (Z.to_euclidean_division_equations; lia).
    split; [lia|]. rewrite codepoint_len_ok by lia.
    by destruct (Z.ltb_spec (0xE0 + c / 2 ^ 12) 0xC0), (Z.ltb_spec (0xE0 + c / 2 ^ 12) 0xE0), (Z.ltb_spec (0xE0 + c / 2 ^ 12) 0xF0); try lia.
  - assert (0 <= c / 2 ^ 18 < 8) by (Z.to_euclidean_division_equations; lia).
    split; [lia|]. rewrite codepoint_len_ok by lia.
    by destruct (Z.ltb_spec (0xF0 + c / 2 ^ 18) 0xC0), (Z.ltb_spec (0xF0 + c / 2 ^ 18) 0xE0), (Z.ltb_spec (0xF0 + c / 2 ^ 18) 0xF0); try lia.
Qed.

(** ** UTF-16 *)

Lemma land_FC00 c : 0 <= c < 2 ^ 16 -> Z.land c 0xFC00 = c / 2 ^ 10 * 2 ^ 10.
Proof.
  intros Hc. transitivity (Z.shiftl (Z.land (Z.shiftr c 10) 63) 10).
  - apply Z.bits_inj'. intros i Hi. change 0xFC00 with (Z.shiftl 63 10).
    rewrite Z.land_spec, !Z.shiftl_spec, Z.land_spec by done. destruct (Z.ltb_spec i 10).
    + by rewrite !(Z.testbit_neg_r _ (i - 10)), andb_false_r by lia.
    + rewrite Z.shiftr_spec by lia. by rewrite Z.sub_add.
  - rewrite (land_mod _ _ 6), Z.shiftl_mul_pow2, Z.shiftr_div_pow2 by done.
    rewrite Z.mod_small; [done|]. Z.to_euclidean_division_equations. lia.
Qed.

Lemma high_test c : 0 <= c < 2 ^ 16 -> (Z.land c 0xFC00 =? 0xD800) = is_high c.
Proof.
  intros Hc. rewrite land_FC00 by done. unfold is_high.
  destruct (Z.eqb_spec (c / 2 ^ 10 * 2 ^ 10) 0xD800), (Z.leb_spec 0xD800 c), (Z.ltb_spec c 0xDC00); try done;
    exfalso; Z.to_euclidean_division_equations; lia.
Qed.

Lemma low_test c : 0 <= c < 2 ^ 16 -> (Z.land c 0xFC00 =? 0xDC00) = is_low c.
Proof.
  intros Hc. rewrite land_FC00 by done. unfold is_low.
  destruct (Z.eqb_spec (c / 2 ^ 10 * 2 ^ 10) 0xDC00), (Z.leb_spec 0xDC00 c), (Z.ltb_spec c 0xE000); try done;
    exfalso; Z.to_euclidean_division_equations; lia.
Qed.

Lemma is_high_spec c : is_high c = true <-> 0xD800 <= c < 0xDC00.
Proof. unfold is_high. lia. Qed.
Lemma is_low_spec c : is_low c = true <-> 0xDC00 <= c < 0xE000.
Proof. unfold is_low. lia. Qed.

(** The next character is the first one [decode16] finds. *)
Lemma next_utf16_ok s n :
  chars16 s -> s <> [] -> (n < length s)%nat ->
  exists c s' k, decode16 (take (S n) s) = c :: decode16 (take k s') /\ (k < S n)%nat /\ (k <= length s')%nat /\
    chars16 s' /\ 0 <= c < 2 ^ 21 /\ next_utf16 s (S n) = Ok (c, s', k).
Proof.
  intros Hs Hne Hn. destruct s as [|h s1]; [done|]. apply Forall_cons in Hs as [Hh Hs]. cbn [length] in Hn.
  unfold next_utf16, rd. cbn [lookup list_lookup obind tail pred]. rewrite high_test by done.
  assert (Hone : exists c s' k, h :: decode16 (take n s1) = c :: decode16 (take k s') /\ (k < S n)%nat /\ (k <= length s')%nat /\
    chars16 s' /\ 0 <= c < 2 ^ 21 /\ Ok (h, s1, n) = Ok (c, s', k)).
  { exists h, s1, n. split_and!; try done; lia. }
  destruct n as [|n]; [rewrite andb_false_r; exact Hone|]. destruct s1 as [|l s2]; [cbn in Hn; lia|].
  rewrite (proj2 (Nat.ltb_lt 1 (S (S n)))), andb_true_r by lia. cbn [take] in *.
  pose proof Hs as [Hl Hs2]%Forall_cons. cbn [decode16].
  destruct (is_high h) eqn:Eh; [|exact Hone]. cbn [lookup list_lookup obind]. rewrite low_test by done.
  destruct (is_low l) eqn:El; [|exact Hone]. cbn [andb]. apply is_high_spec in Eh. apply is_low_spec in El.
  exists (pair_code h l), s2, n. cbn [length] in Hn. unfold pair_code. split_and!; try done; try lia.
  rewrite (u32_small (Z.shiftl _ _)) by (rewrite Z.shiftl_mul_pow2; lia). rewrite (u32_small (l - 0xDC00)) by lia.
  rewrite lor_shiftl, u32_small by lia.
  cbn [drop]. rewrite ?drop_0. replace (S (S n) - 2)%nat with n by lia. do 3 f_equal. lia.
Qed.

Lemma enc16_cases c :
  scalar c ->
  (0 <= c < 0x10000 /\ enc16 c = [c] /\ is_high c = false) \/
  (0x10000 <= c <= 0x10FFFF /\ exists h l, enc16 c = [h; l] /\ h = 0xD800 + (c - 0x10000) / 2 ^ 10 /\
    l = 0xDC00 + (c - 0x10000) mod 2 ^ 10 /\ is_high h = true /\ is_low l = true /\ pair_code h l = c).
Proof.
  unfold scalar, enc16. intros Hc. destruct (Z.ltb_spec c 0x10000); [left|right].
  - split_and!; [lia|lia|done|]. apply not_true_is_false. rewrite is_high_spec. lia.
  - split; [lia|]. eexists _, _. split_and!; [done|done|done|apply is_high_spec|apply is_low_spec|unfold pair_code];
      Z.to_euclidean_division_equations; lia.
Qed.

Lemma chars16_enc16 c : scalar c -> chars16 (enc16 c).
Proof.
  intros Hc. destruct (enc16_cases c Hc) as [(Hr & -> & _)|(Hr & h & l & -> & _ & _ & Hh & Hl & _)].
  - repeat constructor; lia.
  - apply is_high_spec in Hh. apply is_low_spec in Hl. repeat constructor; lia.
Qed.

Lemma chars16_utf16 l : Forall scalar l -> chars16 (utf16 l).
Proof. intros Hl. apply Forall_bind. eapply Forall_impl; [exact Hl|]. apply chars16_enc16. Qed.

Lemma decode16_enc16 c s : scalar c -> decode16 (enc16 c ++ s) = c :: decode16 s.
Proof.
  intros Hc. destruct (enc16_cases c Hc) as [(_ & -> & Hn)|(_ & h & l & -> & _ & _ & Hh & Hl & E)]; cbn [app decode16].
  - destruct s; [done|]. by rewrite Hn.
  - by rewrite Hh, Hl, E.
Qed.

Lemma decode16_utf16 l : Forall scalar l -> decode16 (utf16 l) = l.
Proof.
  induction 1 as [|c l Hc Hl IH]; [done|]. unfold utf16. rewrite bind_cons, decode16_enc16 by done. by f_equal.
Qed.

(** ** Whole strings: writing UTF-8 *)

Lemma length_split {A B} (m : list A) (a b : list B) :
  length m = length (a ++ b) -> exists m1 m2, m = m1 ++ m2 /\ length m1 = length a /\ length m2 = length b.
Proof.
  rewrite length_app. intros Hm. exists (take (length a) m), (drop (length a) m).
  rewrite take_drop, length_take, length_drop. split_and!; [done|lia|lia].
Qed.

(** One step of a loop that writes [enc] of a character behind [pre]. *)
Lemma put_char8 pre mid post c l :
  0 <= c -> length mid = length (enc8 c ++ l) ->
  exists mid', utf32_codepoint_to_utf8 (pre ++ mid ++ post) (length pre) c (utf32_codepoint_utf8_length c) =
      Ok ((pre ++ enc8 c) ++ mid' ++ post) /\
    (length pre + utf32_codepoint_utf8_length c)%nat = length (pre ++ enc8 c) /\ length mid' = length l.
Proof.
  intros Hc (m1 & m2 & -> & H1 & H2)%length_split. exists m2. split_and!; [|by rewrite length_app, length_enc8|done].
  rewrite <- (app_assoc m1 m2), codepoint_to_utf8_ok by done. by rewrite <- app_assoc.
Qed.

Lemma utf16_to_utf8_loop_ok fuel : forall src n pre mid post,
  chars16 src -> (n <= length src)%nat -> (n <= fuel)%nat -> length mid = length (utf8 (decode16 (take n src))) ->
  utf16_to_utf8_loop fuel src n (pre ++ mid ++ post) (length pre) =
    Ok (pre ++ utf8 (decode16 (take n src)) ++ post, (length pre + length mid)%nat).
Proof.
  induction fuel as [|fuel IH]; intros src n pre mid post Hs Hn Hf Hm; cbn [utf16_to_utf8_loop].
  - assert (n = 0%nat) as -> by lia. rewrite take_0 in *. destruct mid; [|discriminate Hm]. by rewrite Nat.add_0_r.
  - destruct n as [|n]; cbn [Nat.eqb]. { rewrite take_0 in *. destruct mid; [|discriminate Hm]. by rewrite Nat.add_0_r. }
    destruct (next_utf16_ok src n) as (c & s' & k & E & Hk & Hk' & Hs' & Hc & ->); [done|by intros ->; cbn in Hn; lia|lia|].
    rewrite E in *. unfold utf8 in *. rewrite bind_cons in *. cbn [obind].
    destruct (put_char8 pre mid post c _ ltac:(lia) Hm) as (mid' & -> & -> & Hm'). cbn [obind].
    rewrite IH by (done || lia). rewrite length_app in Hm. rewrite <- !app_assoc, length_app.
    by replace (length pre + length (enc8 c) + length mid')%nat with (length pre + length mid)%nat by lia.
Qed.

Lemma utf32_to_utf8_loop_ok n : forall src pre mid post,
  Forall (fun c => 0 <= c) src -> (n <= length src)%nat -> length mid = length (utf8 (take n src)) ->
  utf32_to_utf8_loop src n (pre ++ mid ++ post) (length pre) =
    Ok (pre ++ utf8 (take n src) ++ post, (length pre + length mid)%nat).
Proof.
  induction n as [|n IH]; intros src pre mid post Hs Hn Hm; cbn [utf32_to_utf8_loop].
  - rewrite take_0 in *. destruct mid; [|discriminate Hm]. by rewrite Nat.add_0_r.
  - destruct src as [|c src]; [cbn in Hn; lia|]. apply Forall_cons in Hs as [Hc Hs]. unfold rd.
    cbn [take lookup list_lookup obind tail length] in *. unfold utf8 in *. rewrite bind_cons in *.
    destruct (put_char8 pre mid post c _ Hc Hm) as (mid' & -> & -> & Hm'). cbn [obind].
    rewrite IH by (done || lia). rewrite length_app in Hm. rewrite <- !app_assoc, length_app.
    by replace (length pre + length (enc8 c) + length mid')%nat with (length pre + length mid)%nat by lia.
Qed.

(** The NUL behind the text. *)
Lemma put_nul pre (x : Z) post n : n = length pre -> wr (pre ++ x :: post) n 0 = Ok (pre ++ 0 :: post).
Proof. intros ->. apply (wr_mid pre [x] post _ 0 0); [cbn; lia|lia]. Qed.

Lemma buffer_split {A} (dst : list A) n :
  (n < length dst)%nat -> exists mid x post, dst = mid ++ x :: post /\ length mid = n /\ post = drop (S n) dst.
Proof.
  intros Hn. destruct (lookup_lt_is_Some_2 dst n Hn) as [x Hx]. exists (take n dst), x, (drop (S n) dst).
  split_and!; [by rewrite take_drop_middle|rewrite length_take; lia|done].
Qed.

(** Any UTF-16 string is converted, lone surrogates are dropped. *)
Lemma utf16_to_utf8_ok src n dst :
  chars16 src -> (0 < n <= length src)%nat ->
  let t := utf8 (decode16 (take n src)) in (length t < length dst)%nat ->
  utf16_to_utf8 (Some src) n (Some dst) = Ok (Some (t ++ 0 :: drop (S (length t)) dst)).
Proof.
  intros Hs Hn t Hd. destruct (buffer_split dst _ Hd) as (mid & x & post & -> & Hm & <-). unfold utf16_to_utf8.
  rewrite (proj2 (Nat.eqb_neq n 0)) by lia.
  pose proof (utf16_to_utf8_loop_ok n src n [] mid (x :: post) Hs ltac:(lia) ltac:(lia) Hm) as E. cbn [app length Nat.add] in E.
  rewrite E. cbn [obind fst snd]. by rewrite put_nul.
Qed.

Lemma utf32_to_utf8_ok src n dst :
  Forall (fun c => 0 <= c) src -> (0 < n <= length src)%nat ->
  let t := utf8 (take n src) in (length t < length dst)%nat ->
  utf32_to_utf8 (Some src) n (Some dst) = Ok (Some (t ++ 0 :: drop (S (length t)) dst)).
Proof.
  intros Hs Hn t Hd. destruct (buffer_split dst _ Hd) as (mid & x & post & -> & Hm & <-). unfold utf32_to_utf8.
  rewrite (proj2 (Nat.eqb_neq n 0)) by lia.
  pose proof (utf32_to_utf8_loop_ok n src [] mid (x :: post) Hs ltac:(lia) Hm) as E. cbn [app length Nat.add] in E.
  rewrite E. cbn [obind fst snd]. by rewrite put_nul.
Qed.
