(* ===== verification/UnicodeStrings.v ===== *)
(** * Unicode strings: conversions of whole strings

    What the conversions of Unicode.cpp do on encodings of lists of code points,
    the measuring functions, and which strings [utf8_length] accepts. *)

From S2P Require Import Prelude Words Unicode UnicodeProps.

#[local] Open Scope Z_scope.
#[local] Open Scope c_scope.

(** ** UTF-8 to UTF-16 *)

Lemma read_first c rest :
  scalar c -> exists b, rd (enc8 c ++ rest) 0 = Ok b /\ 0 <= b < 256 /\ utf8_codepoint_len b = length (enc8 c).
Proof. intros Hc. destruct (enc8_first c Hc) as (b & bs & E & Hb & Hl). exists b. by rewrite E in *. Qed.

Lemma length_enc8_pos c : scalar c -> (0 < length (enc8 c) <= 4)%nat.
Proof. intros Hc. destruct (enc8_cases c Hc) as [(_ & ->)|[(_ & ->)|[(_ & ->)|(_ & ->)]]]; cbn; lia. Qed.

Lemma surrogates_ok c :
  0x10000 <= c <= 0x10FFFF ->
  enc16 c = [high_surrogate (u32 (c - 0x10000)); low_surrogate (u32 (c - 0x10000))].
Proof.
  intros Hc. unfold enc16, high_surrogate, low_surrogate. rewrite (proj2 (Z.ltb_ge c 0x10000)) by lia.
  rewrite u32_small, Z.shiftr_div_pow2, (land_mod _ _ 10) by (done || lia).
  unfold u16. rewrite (Z.mod_small (_ / _ + _)), (Z.mod_small (_ mod _ + _)) by (Z.to_euclidean_division_equations; lia).
  f_equal; [|f_equal]; lia.
Qed.

Lemma put_char16 pre mid post c l :
  scalar c -> length mid = length (enc16 c ++ l) ->
  exists mid', (if c <=? 0xFFFF then
      do! u16str := wr (pre ++ mid ++ post) (length pre) (u16 c) in Ok (u16str, S (length pre))
    else
      do! u16str := wr (pre ++ mid ++ post) (length pre) (high_surrogate (u32 (c - 0x10000))) in
      do! u16str := wr u16str (S (length pre)) (low_surrogate (u32 (c - 0x10000))) in
      Ok (u16str, S (S (length pre)))) = Ok ((pre ++ enc16 c) ++ mid' ++ post, length (pre ++ enc16 c)) /\
    length mid' = length l.
Proof.
  intros Hc (m1 & m2 & -> & H1 & H2)%length_split. exists m2. split; [|done]. rewrite <- (app_assoc m1 m2), <- (app_assoc pre).
  rewrite (length_app pre). destruct (enc16_cases c Hc) as [(Hr & E & _)|(Hr & _)].
  - rewrite E in *. destruct m1 as [|x [|]]; try done. rewrite (proj2 (Z.leb_le c 0xFFFF)) by lia.
    rewrite (wr_mid pre [x] _ _ _ 0) by (cbn; lia). unfold u16. rewrite Z.mod_small by lia. cbn. by rewrite Nat.add_1_r.
  - rewrite (surrogates_ok c Hr) in *. destruct m1 as [|x [|y [|]]]; try done. rewrite (proj2 (Z.leb_gt c 0xFFFF)) by lia.
    rewrite (wr_mid pre [x; y] _ _ _ 0) by (cbn; lia). cbn [obind]. rewrite <- (Nat.add_1_r (length pre)).
    rewrite (wr_mid pre _ _ _ _ 1) by (cbn; lia). cbn [obind length]. by replace (S (length pre + 1)) with (length pre + 2)%nat by lia.
Qed.

Lemma utf8_to_utf16_loop_ok l : forall fuel rest pre mid post,
  Forall scalar l -> (length (utf8 l) <= fuel)%nat -> length mid = length (utf16 l) ->
  utf8_to_utf16_loop fuel (utf8 l ++ rest) (Z.of_nat (length (utf8 l))) (pre ++ mid ++ post) (length pre) =
    Ok (pre ++ utf16 l ++ post, (length pre + length mid)%nat).
Proof.
  induction l as [|c l IH]; intros fuel rest pre mid post Hl Hf Hm.
  - destruct mid; [|discriminate Hm]. destruct fuel; cbn; by rewrite Nat.add_0_r.
  - apply Forall_cons in Hl as [Hc Hl]. unfold utf8, utf16 in *. rewrite !bind_cons in *. rewrite length_app in *.
    pose proof (length_enc8_pos c Hc). destruct fuel as [|fuel]; [lia|]. cbn [utf8_to_utf16_loop].
    rewrite (proj2 (Z.ltb_lt 0 _)) by lia. rewrite <- (app_assoc (enc8 c)).
    destruct (read_first c ((l ≫= enc8) ++ rest) Hc) as (b & -> & Hb & Eb). cbn [obind]. rewrite Eb, codepoint_ok by done. cbn [obind].
    rewrite <- (length_app (enc16 c)) in Hm.
    destruct (put_char16 pre mid post c _ Hc Hm) as (mid' & -> & Hm'). cbn [obind fst snd]. rewrite drop_app_length.
    replace (Z.of_nat _ - _) with (Z.of_nat (length (l ≫= enc8))) by lia. rewrite IH by (done || lia).
    rewrite length_app in Hm. rewrite <- !app_assoc, length_app.
    by replace (length pre + length (enc16 c) + length mid')%nat with (length pre + length mid)%nat by lia.
Qed.

Lemma utf8_to_utf16_ok l rest dst :
  Forall scalar l -> (length (utf16 l) < length dst)%nat ->
  utf8_to_utf16 (utf8 l ++ rest) (length (utf8 l)) dst = Ok (utf16 l ++ 0 :: drop (S (length (utf16 l))) dst).
Proof.
  intros Hl Hd. destruct (buffer_split dst _ Hd) as (mid & x & post & -> & Hm & <-).
  unfold utf8_to_utf16, utf8_to_utf16_no_null_terminator.
  pose proof (utf8_to_utf16_loop_ok l (length (utf8 l)) rest [] mid (x :: post) Hl ltac:(lia) Hm) as E.
  cbn [app length Nat.add] in E. rewrite E. cbn [obind fst snd]. by rewrite put_nul.
Qed.

Lemma utf8_to_utf16_length_loop_ok l : forall fuel rest k,
  Forall scalar l -> (length (utf8 l) <= fuel)%nat ->
  utf8_to_utf16_length_loop fuel (utf8 l ++ rest) (Z.of_nat (length (utf8 l))) k = Ok ((k + length (utf16 l))%nat, 0).
Proof.
  induction l as [|c l IH]; intros fuel rest k Hl Hf.
  - destruct fuel; cbn; by rewrite Nat.add_0_r.
  - apply Forall_cons in Hl as [Hc Hl]. unfold utf8, utf16 in *. rewrite !bind_cons in *. rewrite !length_app in *.
    pose proof (length_enc8_pos c Hc). destruct fuel as [|fuel]; [lia|]. cbn [utf8_to_utf16_length_loop].
    rewrite (proj2 (Z.ltb_lt 0 _)) by lia. rewrite <- (app_assoc (enc8 c)).
    destruct (read_first c ((l ≫= enc8) ++ rest) Hc) as (b & -> & Hb & Eb). cbn [obind]. rewrite Eb, codepoint_ok by done. cbn [obind].
    rewrite drop_app_length. replace (Z.of_nat _ - _) with (Z.of_nat (length (l ≫= enc8))) by lia. rewrite IH by (done || lia).
    rewrite Z.gtb_ltb. destruct (enc16_cases c Hc) as [(Hr & -> & _)|(Hr & h & lo & -> & _)].
    + rewrite (proj2 (Z.ltb_ge 0xFFFF c)) by lia. cbn [length]. do 2 f_equal. lia.
    + rewrite (proj2 (Z.ltb_lt 0xFFFF c)) by lia. cbn [length]. do 2 f_equal. lia.
Qed.

Lemma utf8_to_utf16_length_ok l rest :
  Forall scalar l -> utf8_to_utf16_length (utf8 l ++ rest) (length (utf8 l)) = Ok (Z.of_nat (length (utf16 l))).
Proof. intros Hl. unfold utf8_to_utf16_length. by rewrite utf8_to_utf16_length_loop_ok. Qed.

(** ** Measuring UTF-16 and UTF-32 *)

Lemma utf16_length_loop_ok l : forall fuel rest k,
  Forall scalar l -> (length (utf16 l) <= fuel)%nat ->
  utf16_length_loop fuel (utf16 l ++ rest) (length (utf16 l)) k = Ok (k + length (utf8 l))%nat.
Proof.
  induction l as [|c l IH]; intros fuel rest k Hl Hf.
  - destruct fuel; cbn; by rewrite Nat.add_0_r.
  - apply Forall_cons in Hl as [Hc Hl]. pose proof (chars16_enc16 c Hc) as H16. unfold utf8, utf16 in *.
    rewrite !bind_cons in *. rewrite !length_app in *. rewrite length_enc8.
    destruct (enc16_cases c Hc) as [(Hr & E & Hh)|(Hr & h & lo & E & _ & _ & Hh & Hlo & Ep)]; rewrite E in *; cbn [length app Nat.add] in *;
      (destruct fuel as [|fuel]; [lia|]); cbn [utf16_length_loop Nat.eqb]; unfold rd; cbn [lookup list_lookup obind tail pred].
    + rewrite high_test, Hh by lia. cbn [andb]. rewrite IH by (done || lia). f_equal. lia.
    + apply Forall_cons in H16 as [H1 [H2 _]%Forall_cons]. rewrite high_test, low_test, Hh, Hlo by done. cbn [andb Nat.ltb Nat.leb].
      rewrite IH by (done || lia). unfold utf32_codepoint_utf8_length, kUnicodeMaxCodepoint.
      rewrite !(proj2 (Z.ltb_ge c _)), (proj2 (Z.leb_le c _)) by lia. f_equal. lia.
Qed.

Lemma utf16_to_utf8_length_ok l rest :
  Forall scalar l -> l <> [] ->
  utf16_to_utf8_length (Some (utf16 l ++ rest)) (length (utf16 l)) = Ok (Z.of_nat (length (utf8 l))).
Proof.
  intros Hl Hne. unfold utf16_to_utf8_length. rewrite utf16_length_loop_ok by done.
  destruct (Nat.eqb_spec (length (utf16 l)) 0) as [E|]; [|done]. exfalso.
  destruct l as [|c l]; [done|]. unfold utf16 in E. rewrite bind_cons, length_app in E. unfold enc16 in E. case_match; cbn in E; lia.
Qed.

Lemma utf32_length_loop_ok n : forall src k,
  (n <= length src)%nat -> utf32_length_loop src n k = Ok (k + length (utf8 (take n src)))%nat.
Proof.
  induction n as [|n IH]; intros src k Hn; cbn [utf32_length_loop]; [by rewrite take_0, Nat.add_0_r|].
  destruct src as [|c src]; [cbn in Hn; lia|]. unfold rd. cbn [lookup list_lookup obind tail take length] in *.
  rewrite IH by lia. unfold utf8. rewrite bind_cons, length_app, length_enc8. f_equal. lia.
Qed.

Lemma utf32_to_utf8_length_ok src n :
  (0 < n <= length src)%nat -> utf32_to_utf8_length (Some src) n = Ok (Z.of_nat (length (utf8 (take n src)))).
Proof.
  intros Hn. unfold utf32_to_utf8_length. rewrite (proj2 (Nat.eqb_neq n 0)) by lia. by rewrite utf32_length_loop_ok by lia.
Qed.

(** ** The leading bits of a byte *)

Lemma bit_7 b : 0 <= b < 256 -> (Z.land b 0x80 =? 0) = (b <? 0x80).
Proof.
  intros Hb. apply eqb_prop. revert b Hb. apply (below 256 (fun b => eqb (Z.land b 0x80 =? 0) (b <? 0x80))).
  vm_compute. reflexivity.
Qed.

(** Bit [m] of a byte whose higher bits are all set: [lo] is the least such byte. *)
Lemma next_bit m lo b :
  forallb (fun i => implb (lo <=? Z.of_nat i) (eqb (Z.land (Z.of_nat i) m =? 0) (Z.of_nat i <? lo + m))) (seq 0 256) = true ->
  lo <= b < 256 -> 0 <= b -> (Z.land b m =? 0) = (b <? lo + m).
Proof.
  intros Hall Hb H0. apply eqb_prop. pose proof (below 256 (fun b => implb (lo <=? b) (eqb (Z.land b m =? 0) (b <? lo + m))) Hall b) as E.
  cbv beta in E. rewrite (proj2 (Z.leb_le lo b)) in E by lia. apply E. lia.
Qed.

Lemma bit_6 b : 0x80 <= b < 256 -> (Z.land b 0x40 =? 0) = (b <? 0xC0).
Proof. intros Hb. apply (next_bit 0x40 0x80); [vm_compute; reflexivity|lia|lia]. Qed.
Lemma bit_5 b : 0xC0 <= b < 256 -> (Z.land b 0x20 =? 0) = (b <? 0xE0).
Proof. intros Hb. apply (next_bit 0x20 0xC0); [vm_compute; reflexivity|lia|lia]. Qed.
Lemma bit_4 b : 0xE0 <= b < 256 -> (Z.land b 0x10 =? 0) = (b <? 0xF0).
Proof. intros Hb. apply (next_bit 0x10 0xE0); [vm_compute; reflexivity|lia|lia]. Qed.
Lemma bit_3 b : 0xF0 <= b < 256 -> (Z.land b 0x08 =? 0) = (b <? 0xF8).
Proof. intros Hb. apply (next_bit 0x08 0xF0); [vm_compute; reflexivity|lia|lia]. Qed.

Section Chars.
Context `{Platform}.

Lemma char_int_cases b : exists e, char_int b = b - 256 * e /\ (e = 0 \/ e = 1).
Proof. unfold char_int. destruct (char_signed && (128 <=? b)); [exists 1|exists 0]; lia. Qed.

Lemma char_int_land b m : 0 <= m < 256 -> Z.land (char_int b) m = Z.land b m.
Proof.
  intros Hm. destruct (char_int_cases b) as (e & -> & _). rewrite (land_low _ m 8), (land_low b m 8) by lia. f_equal.
  replace (b - 256 * e) with (b + (- e) * 2 ^ 8) by lia. by apply Z.mod_add.
Qed.

Lemma mod_u32 z k : 0 <= k <= 32 -> u32 z mod 2 ^ k = z mod 2 ^ k.
Proof.
  intros Hk. unfold u32. symmetry. apply Znumtheory.Zmod_div_mod; [apply Z.pow_pos_nonneg; lia|lia|].
  exists (2 ^ (32 - k)). rewrite <- Z.pow_add_r by lia. f_equal. lia.
Qed.

Lemma u32_char_land b m : 0 <= m < 256 -> Z.land (u32 (char_int b)) m = Z.land b m.
Proof.
  intros Hm. rewrite <- (char_int_land b m Hm), (land_low _ m 8), (land_low (char_int b) m 8) by lia. by rewrite mod_u32 by lia.
Qed.

(** Modulo a power of two of at most 32 bits, conversions do not matter. *)
Lemma cong_u32 z k : 0 <= k <= 32 -> cong (2 ^ k) (u32 z) z.
Proof. intros Hk. apply cong_mod; [apply Z.pow_nonzero; lia|by apply mod_u32]. Qed.

Lemma cong_step u b k : 0 <= k <= 32 -> cong (2 ^ k) (u32 (u32 (Z.shiftl u 6) + Z.land (char_int b) 0x3F)) (u * 64 + b mod 64).
Proof.
  intros Hk. rewrite char_int_land, (land_mod b _ 6) by (done || lia). rewrite !cong_u32 by done.
  by rewrite Z.shiftl_mul_pow2 by lia.
Qed.

Lemma cong_first b k : 0 <= k <= 8 -> cong (2 ^ k) (u32 (char_int b)) b.
Proof.
  intros Hk. rewrite cong_u32 by lia. destruct (char_int_cases b) as (e & -> & _).
  exists (- e * 2 ^ (8 - k)). replace 256 with (2 ^ (8 - k) * 2 ^ k); [lia|]. rewrite <- Z.pow_add_r by lia. by replace (8 - k + k) with 8 by lia.
Qed.

Lemma at_stop fuel b cur n m t u :
  0 <= m < 256 -> (Z.land b m =? 0) = true -> at_loop fuel (char_int b) cur n m t u = Ok (n, m, t, u).
Proof. intros Hm E. destruct fuel; cbn [at_loop]; by rewrite u32_char_land, E. Qed.

Lemma at_step fuel b x cur n m t u :
  0 <= m < 256 -> (Z.land b m =? 0) = false ->
  at_loop (S fuel) (char_int b) (x :: cur) n m t u =
    at_loop fuel (char_int b) cur (S n) (Z.shiftr m 1) (Z.lor t m) (u32 (u32 (Z.shiftl u 6) + Z.land (char_int x) 0x3F)).
Proof. intros Hm E. cbn [at_loop]. by rewrite u32_char_land, E. Qed.

Lemma cong_to N x y z : z = y -> cong N x y -> cong N x z.
Proof. by intros ->. Qed.

(** A congruence that is scaled. *)
Lemma cong_scale N m x y : cong N x y -> cong (N * m) (x * m) (y * m).
Proof. intros [q E]. exists q. rewrite <- Z.mul_sub_distr_r, E. ring. Qed.

(** The last step: the mask leaves [k] bits. *)
Lemma at_mask u m k c : 0 <= k -> m = 2 ^ k - 1 -> 0 <= c < 2 ^ k -> c < 2 ^ 31 -> cong (2 ^ k) u c -> i32 (Z.land u m) = c.
Proof.
  intros Hk -> Hc Hc' E. rewrite (land_mod u _ k) by done. apply cong_mod in E; [|lia]. rewrite E, Z.mod_small, i32_small by lia. done.
Qed.

Lemma at_internal_ok c rest :
  scalar c -> utf32_at_internal (enc8 c ++ rest) = Ok (c, length (enc8 c)).
Proof.
  intros Hc. unfold utf32_at_internal.
  destruct (enc8_cases c Hc) as [(Hr & ->)|[(Hr & ->)|[(Hr & ->)|(Hr & ->)]]]; unfold rd at 1; cbn [app lookup list_lookup obind tail length].
  - rewrite char_int_land, bit_7, (proj2 (Z.ltb_lt c 0x80)) by lia. unfold char_int.
    by rewrite (proj2 (Z.leb_gt 128 c)), andb_false_r by lia.
  - assert (0 <= c / 2 ^ 6 < 32) by (Z.to_euclidean_division_equations; lia). set (b := 0xC0 + c / 2 ^ 6) in *.
    rewrite char_int_land, bit_7, (proj2 (Z.ltb_ge b 0x80)) by lia.
    rewrite at_step by (rewrite ?bit_6 by lia; lia). change (Z.shiftr 0x40 1) with 0x20.
    rewrite at_stop by (rewrite ?bit_5 by lia; lia). cbn [obind].
    change (32 <=? 6 * (Z.of_nat 2 - 1)) with false. rewrite (at_mask _ _ 11 c); [done|lia|reflexivity|lia|lia|].
    rewrite cong_step, cont_mod by lia. apply (cong_to _ _ _ _ (groups2 c)), cong_add; [|done]. apply (cong_scale (2 ^ 5) 64).
    rewrite cong_first by lia. unfold b. exists 6. lia.
  - assert (0 <= c / 2 ^ 12 < 16) by (Z.to_euclidean_division_equations; lia). set (b := 0xE0 + c / 2 ^ 12) in *.
    rewrite char_int_land, bit_7, (proj2 (Z.ltb_ge b 0x80)) by lia.
    rewrite at_step by (rewrite ?bit_6 by lia; lia). change (Z.shiftr 0x40 1) with 0x20.
    rewrite at_step by (rewrite ?bit_5 by lia; lia). change (Z.shiftr 0x20 1) with 0x10.
    rewrite at_stop by (rewrite ?bit_4 by lia; lia). cbn [obind].
    change (32 <=? 6 * (Z.of_nat 3 - 1)) with false. rewrite (at_mask _ _ 16 c); [done|lia|reflexivity|lia|lia|].
    rewrite !cong_step, !cont_mod by lia. apply (cong_to _ _ _ _ (groups3 c)), cong_add; [|done].
    apply (cong_scale (2 ^ 10) 64), cong_add; [|done]. apply (cong_scale (2 ^ 4) 64).
    rewrite cong_first by lia. unfold b. exists 14. lia.
  - assert (0 <= c / 2 ^ 18 < 8) by (Z.to_euclidean_division_equations; lia). set (b := 0xF0 + c / 2 ^ 18) in *.
    rewrite char_int_land, bit_7, (proj2 (Z.ltb_ge b 0x80)) by lia.
    rewrite at_step by (rewrite ?bit_6 by lia; lia). change (Z.shiftr 0x40 1) with 0x20.
    rewrite at_step by (rewrite ?bit_5 by lia; lia). change (Z.shiftr 0x20 1) with 0x10.
    rewrite at_step by (rewrite ?bit_4 by lia; lia). change (Z.shiftr 0x10 1) with 0x08.
    rewrite at_stop by (rewrite ?bit_3 by lia; lia). cbn [obind].
    change (32 <=? 6 * (Z.of_nat 4 - 1)) with false. rewrite (at_mask _ _ 21 c); [done|lia|reflexivity|lia|lia|].
    rewrite !cong_step, !cont_mod by lia. apply (cong_to _ _ _ _ (groups4 c)), cong_add; [|done].
    apply (cong_scale (2 ^ 15) 64), cong_add; [|done]. apply (cong_scale (2 ^ 9) 64), cong_add; [|done].
    apply (cong_scale (2 ^ 3) 64). rewrite cong_first by lia. unfold b. exists 30. lia.
Qed.

(** ** UTF-8 to UTF-32 *)

Lemma utf8_to_utf32_loop_ok l : forall fuel rest pre mid post,
  Forall scalar l -> (length (utf8 l) <= fuel)%nat -> length mid = length l ->
  utf8_to_utf32_loop fuel (utf8 l ++ rest) (Z.of_nat (length (utf8 l))) (pre ++ mid ++ post) (length pre) =
    Ok (pre ++ l ++ post, (length pre + length mid)%nat).
Proof.
  induction l as [|c l IH]; intros fuel rest pre mid post Hl Hf Hm.
  - destruct mid; [|discriminate Hm]. destruct fuel; cbn; by rewrite Nat.add_0_r.
  - pose proof Hl as [Hc Hl']%Forall_cons. unfold utf8 in *. rewrite bind_cons, length_app in *.
    pose proof (length_enc8_pos c Hc). destruct fuel as [|fuel]; [lia|]. cbn [utf8_to_utf32_loop].
    rewrite (proj2 (Z.ltb_lt 0 _)) by lia. rewrite <- (app_assoc (enc8 c)), at_internal_ok by done. cbn [obind].
    destruct mid as [|x mid]; [done|]. change ((x :: mid) ++ post) with ([x] ++ mid ++ post).
    rewrite (wr_mid pre [x] _ _ _ 0), u32_small by (cbn; unfold scalar in Hc; lia). cbn [obind].
    rewrite drop_app_length. replace (Z.of_nat _ - _) with (Z.of_nat (length (l ≫= enc8))) by lia.
    change (<[0%nat:=c]> [x]) with [c]. replace (S (length pre)) with (length (pre ++ [c])) by (rewrite length_app; cbn; lia).
    rewrite (app_assoc pre). cbn [length] in Hm. rewrite IH by (done || lia). rewrite <- app_assoc, length_app. cbn [length app].
    by replace (length pre + 1 + length mid)%nat with (length pre + S (length mid))%nat by lia.
Qed.

Lemma utf8_to_utf32_ok l rest dst :
  Forall scalar l -> l <> [] -> (length l < length dst)%nat ->
  utf8_to_utf32 (Some (utf8 l ++ rest)) (length (utf8 l)) (Some dst) = Ok (Some (l ++ 0 :: drop (S (length l)) dst)).
Proof.
  intros Hl Hne Hd. destruct (buffer_split dst _ Hd) as (mid & x & post & -> & Hm & <-). unfold utf8_to_utf32.
  assert (length (utf8 l) <> 0%nat).
  { destruct Hl as [|c l Hc]; [done|]. unfold utf8. rewrite bind_cons, length_app. pose proof (length_enc8_pos c Hc). lia. }
  rewrite (proj2 (Nat.eqb_neq _ 0)) by done.
  pose proof (utf8_to_utf32_loop_ok l (length (utf8 l)) rest [] mid (x :: post) Hl ltac:(lia) Hm) as E.
  cbn [app length Nat.add] in E. rewrite E. cbn [obind fst snd]. by rewrite put_nul.
Qed.

(** The bytes that are skipped for a first byte. *)
Lemma skip_ok b :
  0 <= b < 0xF8 ->
  (if Z.land (char_int b) 0x80 =? 0 then Ok 1%nat else skip_loop 8 (char_int b) 0x40 1) = Ok (utf8_codepoint_len b).
Proof.
  intros Hb. pose (f b := match (if Z.land (char_int b) 0x80 =? 0 then Ok 1%nat else skip_loop 8 (char_int b) 0x40 1) with
    Ok n => Nat.eqb n (utf8_codepoint_len b) | _ => false end).
  assert (E : f b = true).
  { revert b Hb. apply (below 0xF8). unfold f, char_int. destruct char_signed; vm_compute; reflexivity. }
  unfold f in E. destruct (if _ : bool then _ else _) as [n| | |]; try done. by apply Nat.eqb_eq in E as ->.
Qed.

Lemma utf8_to_utf32_length_loop_ok l : forall fuel rest k,
  Forall scalar l -> (length (utf8 l) <= fuel)%nat ->
  utf8_to_utf32_length_loop fuel (utf8 l ++ rest) (Z.of_nat (length (utf8 l))) k = Ok (k + length l)%nat.
Proof.
  induction l as [|c l IH]; intros fuel rest k Hl Hf.
  - destruct fuel; cbn; by rewrite Nat.add_0_r.
  - apply Forall_cons in Hl as [Hc Hl]. unfold utf8 in *. rewrite bind_cons, length_app in *.
    pose proof (length_enc8_pos c Hc). destruct fuel as [|fuel]; [lia|]. cbn [utf8_to_utf32_length_loop].
    rewrite (proj2 (Z.ltb_lt 0 _)) by lia. rewrite <- (app_assoc (enc8 c)).
    destruct (read_first c ((l ≫= enc8) ++ rest) Hc) as (b & Eb & Hb & El). rewrite Eb. cbn [obind].
    assert (b < 0xF8).
    { revert Eb. destruct (enc8_cases c Hc) as [(Hr & ->)|[(Hr & ->)|[(Hr & ->)|(Hr & ->)]]]; intros [= <-];
        Z.to_euclidean_division_equations; lia. }
    rewrite skip_ok by lia. cbn [obind]. rewrite El, drop_app_length.
    replace (Z.of_nat _ - _) with (Z.of_nat (length (l ≫= enc8))) by lia. rewrite IH by (done || lia).
    cbn [length]. f_equal. lia.
Qed.

Lemma utf8_to_utf32_length_ok l rest :
  Forall scalar l -> utf8_to_utf32_length (Some (utf8 l ++ rest)) (length (utf8 l)) = Ok (length l).
Proof.
  intros Hl. unfold utf8_to_utf32_length. rewrite utf8_to_utf32_length_loop_ok by done.
  destruct (Nat.eqb_spec (length (utf8 l)) 0) as [E|]; [|done].
  destruct Hl as [|c l Hc]; [done|]. unfold utf8 in E. rewrite bind_cons, length_app in E. pose proof (length_enc8_pos c Hc). lia.
Qed.
End Chars.
