(* ===== verification/UnicodeValid.v ===== *)
(** * Unicode strings: the theorems

    Which strings [utf8_length] accepts, the round trips of the conversions, and
    the strings that [utf16_to_utf8_length] measures too short. *)

From S2P Require Import Prelude Words Unicode UnicodeProps UnicodeStrings.

#[local] Open Scope Z_scope.
#[local] Open Scope c_scope.

(** ** What [utf8_length] accepts

    Sequences of one to four bytes with the right leading bits and a number of
    at most 0x10FFFF; neither overlong sequences nor surrogates are refused. *)

Definition is_cont (b : Z) : bool := (0x80 <=? b) && (b <? 0xC0).

Definition number4 (b0 b1 b2 b3 : Z) : Z :=
  (b0 - 0xF0) * 2 ^ 18 + (b1 - 0x80) * 2 ^ 12 + (b2 - 0x80) * 2 ^ 6 + (b3 - 0x80).

Fixpoint ok8 (s : list Z) : bool :=
  match s with
  | [] => true
  | b0 :: s1 =>
    if b0 <? 0x80 then ok8 s1
    else if b0 <? 0xC0 then false
    else if b0 <? 0xE0 then match s1 with b1 :: s2 => is_cont b1 && ok8 s2 | _ => false end
    else if b0 <? 0xF0 then match s1 with b1 :: b2 :: s3 => is_cont b1 && is_cont b2 && ok8 s3 | _ => false end
    else if b0 <? 0xF8 then
      match s1 with
      | b1 :: b2 :: b3 :: s4 =>
        is_cont b1 && is_cont b2 && is_cont b3 && (number4 b0 b1 b2 b3 <=? 0x10FFFF) && ok8 s4
      | _ => false
      end
    else false
  end.

(** Where [char] is signed only ASCII is accepted: the sign bits of the first
    byte get into the number. *)
Definition accepts8 `{Platform} (s : list Z) : bool :=
  if char_signed then forallb (fun b => b <? 0x80) s else ok8 s.

Section Length.
Context `{Platform}.

Lemma cont_test b : 0 <= b < 256 -> (Z.land (char_int b) 0xC0 =? 0x80) = is_cont b.
Proof.
  intros Hb. rewrite char_int_land by lia. apply eqb_prop. revert b Hb.
  apply (below 256 (fun b => eqb (Z.land b 0xC0 =? 0x80) (is_cont b))). vm_compute. reflexivity.
Qed.

Lemma seq_stop fuel b cur n m t u :
  0 <= m < 256 -> (Z.land b m =? 0) = true \/ (n = 5)%nat ->
  seq_loop fuel (char_int b) cur n m t u = Ok (Some (n, m, t, u, cur)).
Proof.
  intros Hm [E| ->]; destruct fuel; cbn [seq_loop]; rewrite ?char_int_land, ?E, ?andb_false_r by lia; done.
Qed.

Lemma seq_step fuel b x cur n m t u :
  0 <= m < 256 -> 0 <= x < 256 -> (n < 5)%nat -> (Z.land b m =? 0) = false ->
  seq_loop (S fuel) (char_int b) (x :: cur) n m t u =
    if is_cont x
    then seq_loop fuel (char_int b) cur (S n) (Z.shiftr m 1) (Z.lor t m) (u32 (u32 (Z.shiftl u 6) + x mod 64))
    else Ok None.
Proof.
  intros Hm Hx Hn E. cbn [seq_loop]. rewrite char_int_land, E, (proj2 (Nat.ltb_lt n 5)) by lia. cbn [andb negb].
  unfold rd. cbn [lookup list_lookup obind tail]. rewrite cont_test by done.
  rewrite (char_int_land x 0x3F), (land_mod x _ 6) by (done || lia). by destruct (is_cont x).
Qed.

(** The number: the bits of the first byte above [k] bits of the others. *)
Definition number (b mask k u : Z) : Z :=
  Z.lor u (u32 (i32 (Z.shiftl (Z.land (Z.lnot mask) (char_int b)) k))).

Lemma number_ok b mask j k u :
  0x80 <= b < 256 -> 0 <= j <= 5 -> 0 <= k -> j + k <= 21 -> 0 <= u < 2 ^ k ->
  (forall b, 0 <= b < 256 -> Z.land (Z.lnot mask) b = b mod 2 ^ j) ->
  (forall b, 0 <= b < 256 -> Z.land (Z.lnot mask) (b - 256) = b mod 2 ^ j - 256) ->
  if char_signed then 0x10FFFF < number b mask k u else number b mask k u = b mod 2 ^ j * 2 ^ k + u.
Proof.
  intros Hb Hj Hk Hjk Hu E0 E1. unfold number, char_int. rewrite (proj2 (Z.leb_le 128 b)), andb_true_r by lia.
  pose proof (Z.mod_pos_bound b (2 ^ j) ltac:(apply Z.pow_pos_nonneg; lia)) as Hm.
  pose proof (Z.pow_pos_nonneg 2 k ltac:(lia) Hk) as Hkp.
  pose proof (Z.pow_le_mono_r 2 (j + k) 21 ltac:(lia) ltac:(lia)) as H21. rewrite Z.pow_add_r in H21 by lia.
  assert (H22 : 2 ^ k <= 2 ^ 21) by (apply Z.pow_le_mono_r; lia).
  assert (Hx : 0 <= b mod 2 ^ j * 2 ^ k < 2 ^ 21) by nia. rewrite Z.lor_comm.
  destruct char_signed; rewrite ?E0, ?E1, Z.shiftl_mul_pow2 by lia.
  - pose proof (Z.pow_le_mono_r 2 j 5 ltac:(lia) ltac:(lia)) as H5. change (2 ^ 5) with 32 in H5.
    assert (Hy : - 2 ^ 29 <= (b mod 2 ^ j - 256) * 2 ^ k < 0) by nia. rewrite i32_small by lia.
    assert (Eu : u32 ((b mod 2 ^ j - 256) * 2 ^ k) = (b mod 2 ^ j - 256) * 2 ^ k + 2 ^ 32).
    { unfold u32. symmetry. apply (Z.mod_unique_pos _ _ (-1)); lia. }
    rewrite Eu. rewrite (lor_low _ _ k); [lia|lia| |lia].
    replace (2 ^ 32) with (2 ^ (32 - k) * 2 ^ k) by (rewrite <- Z.pow_add_r by lia; f_equal; lia).
    rewrite <- Z.mul_add_distr_r. apply Z.mod_mul. lia.
  - rewrite i32_small, u32_small by lia. rewrite (lor_low _ _ k); [done|lia|apply Z.mod_mul; lia|lia].
Qed.

(** One continuation byte of a string that ends with a NUL. *)
Lemma seq_next fuel b s rest n m t u :
  bytes s -> 0 <= m < 256 -> (n < 5)%nat -> (Z.land b m =? 0) = false -> 0 <= u < 2 ^ 24 ->
  seq_loop (S fuel) (char_int b) (s ++ 0 :: rest) n m t u =
    match s with
    | x :: s => if is_cont x
                then seq_loop fuel (char_int b) (s ++ 0 :: rest) (S n) (Z.shiftr m 1) (Z.lor t m) (u * 64 + x mod 64)
                else Ok None
    | [] => Ok None
    end.
Proof.
  intros Hs Hm Hn E Hu. destruct s as [|x s]; cbn [app]; [by rewrite seq_step by (done || lia)|].
  apply Forall_cons in Hs as [Hx _]. rewrite seq_step by (done || lia). destruct (is_cont x); [|done].
  pose proof (Z.mod_pos_bound x 64). rewrite (u32_small (Z.shiftl u 6)), Z.shiftl_mul_pow2 by (rewrite ?Z.shiftl_mul_pow2; lia).
  by rewrite u32_small by lia.
Qed.

Lemma is_cont_mod x : is_cont x = true -> x mod 64 = x - 0x80.
Proof. unfold is_cont. intros Hx. Z.to_euclidean_division_equations. lia. Qed.

(** Sequences of two, three and four bytes: the continuation bytes, and the
    number they make with the first one. *)
Lemma seq2_ok b s rest :
  bytes s -> 0xC0 <= b < 0xE0 ->
  seq_loop 4 (char_int b) (s ++ 0 :: rest) 1 0x40 0x80 0 =
    Ok match s with
       | x :: s => if is_cont x then Some (2%nat, 0x20, Z.lor 0x80 0x40, x mod 64, s ++ 0 :: rest) else None
       | [] => None
       end.
Proof.
  intros Hs Hb. rewrite seq_next by (try (rewrite bit_6 by lia); done || lia). destruct s as [|x s]; [done|].
  destruct (is_cont x); [|done]. rewrite seq_stop; [done|done|]. left. change (Z.shiftr 0x40 1) with 0x20. rewrite bit_5 by lia. lia.
Qed.

Lemma seq3_ok b s rest :
  bytes s -> 0xE0 <= b < 0xF0 ->
  seq_loop 4 (char_int b) (s ++ 0 :: rest) 1 0x40 0x80 0 =
    Ok match s with
       | x :: y :: s =>
         if is_cont x && is_cont y
         then Some (3%nat, 0x10, Z.lor (Z.lor 0x80 0x40) 0x20, x mod 64 * 64 + y mod 64, s ++ 0 :: rest) else None
       | _ => None
       end.
Proof.
  intros Hs Hb. rewrite seq_next by (try (rewrite bit_6 by lia); done || lia). destruct s as [|x s]; [done|].
  apply Forall_cons in Hs as [_ Hs]. destruct (is_cont x); [|by destruct s]. change (Z.shiftr 0x40 1) with 0x20.
  pose proof (Z.mod_pos_bound x 64). rewrite seq_next by (try (rewrite bit_5 by lia); done || lia). destruct s as [|y s]; [done|].
  cbn [andb]. destruct (is_cont y); [|done]. rewrite seq_stop; [done|done|]. left. change (Z.shiftr 0x20 1) with 0x10. rewrite bit_4 by lia. lia.
Qed.

Lemma seq4_ok b s rest :
  bytes s -> 0xF0 <= b < 0xF8 ->
  seq_loop 4 (char_int b) (s ++ 0 :: rest) 1 0x40 0x80 0 =
    Ok match s with
       | x :: y :: z :: s =>
         if is_cont x && is_cont y && is_cont z
         then Some (4%nat, 0x08, Z.lor (Z.lor (Z.lor 0x80 0x40) 0x20) 0x10, (x mod 64 * 64 + y mod 64) * 64 + z mod 64, s ++ 0 :: rest)
         else None
       | _ => None
       end.
Proof.
  intros Hs Hb. rewrite seq_next by (try (rewrite bit_6 by lia); done || lia). destruct s as [|x s]; [done|].
  apply Forall_cons in Hs as [_ Hs]. destruct (is_cont x); [|by destruct s as [|? []]]. change (Z.shiftr 0x40 1) with 0x20.
  pose proof (Z.mod_pos_bound x 64). rewrite seq_next by (try (rewrite bit_5 by lia); done || lia). destruct s as [|y s]; [done|].
  apply Forall_cons in Hs as [_ Hs]. cbn [andb]. destruct (is_cont y); [|by destruct s]. change (Z.shiftr 0x20 1) with 0x10.
  pose proof (Z.mod_pos_bound y 64). rewrite seq_next by (try (rewrite bit_4 by lia); done || lia). destruct s as [|z s]; [done|].
  cbn [andb]. destruct (is_cont z); [|done]. rewrite seq_stop; [done|done|]. left. change (Z.shiftr 0x10 1) with 0x08. rewrite bit_3 by lia. lia.
Qed.

(** A first byte above 0xF7 asks for too many. *)
Lemma seq5_ok b s rest :
  bytes s -> 0xF8 <= b < 256 ->
  exists r, seq_loop 4 (char_int b) (s ++ 0 :: rest) 1 0x40 0x80 0 = Ok r /\
    (r = None \/ exists m t u cur, r = Some (5%nat, m, t, u, cur)).
Proof.
  intros Hs Hb. rewrite seq_next by (try (rewrite bit_6 by lia); done || lia). destruct s as [|x s]; [by eauto|].
  apply Forall_cons in Hs as [_ Hs]. destruct (is_cont x); [|by eauto]. change (Z.shiftr 0x40 1) with 0x20.
  pose proof (Z.mod_pos_bound x 64). rewrite seq_next by (try (rewrite bit_5 by lia); done || lia). destruct s as [|y s]; [by eauto|].
  apply Forall_cons in Hs as [_ Hs]. destruct (is_cont y); [|by eauto]. change (Z.shiftr 0x20 1) with 0x10.
  pose proof (Z.mod_pos_bound y 64). rewrite seq_next by (try (rewrite bit_4 by lia); done || lia). destruct s as [|z s]; [by eauto|].
  apply Forall_cons in Hs as [_ Hs]. destruct (is_cont z); [|by eauto]. change (Z.shiftr 0x10 1) with 0x08.
  pose proof (Z.mod_pos_bound z 64). rewrite seq_next by (try (rewrite bit_3 by lia); done || lia). destruct s as [|w s]; [by eauto|].
  destruct (is_cont w); [|by eauto]. rewrite seq_stop by (done || by right). eexists. split; [done|]. right. by eauto.
Qed.

Lemma mask_E0 b : 0 <= b < 256 -> Z.land (Z.lnot (Z.lor (Z.lor 0x80 0x40) 0x20)) b = b mod 2 ^ 5.
Proof. apply (below_eqb 256 (fun b => Z.land (Z.lnot 0xE0) b) (fun b => b mod 2 ^ 5)). vm_compute. reflexivity. Qed.
Lemma mask_E0_neg b : 0 <= b < 256 -> Z.land (Z.lnot (Z.lor (Z.lor 0x80 0x40) 0x20)) (b - 256) = b mod 2 ^ 5 - 256.
Proof. apply (below_eqb 256 (fun b => Z.land (Z.lnot 0xE0) (b - 256)) (fun b => b mod 2 ^ 5 - 256)). vm_compute. reflexivity. Qed.
Lemma mask_F0 b : 0 <= b < 256 -> Z.land (Z.lnot (Z.lor (Z.lor (Z.lor 0x80 0x40) 0x20) 0x10)) b = b mod 2 ^ 4.
Proof. apply (below_eqb 256 (fun b => Z.land (Z.lnot 0xF0) b) (fun b => b mod 2 ^ 4)). vm_compute. reflexivity. Qed.
Lemma mask_F0_neg b : 0 <= b < 256 -> Z.land (Z.lnot (Z.lor (Z.lor (Z.lor 0x80 0x40) 0x20) 0x10)) (b - 256) = b mod 2 ^ 4 - 256.
Proof. apply (below_eqb 256 (fun b => Z.land (Z.lnot 0xF0) (b - 256)) (fun b => b mod 2 ^ 4 - 256)). vm_compute. reflexivity. Qed.
Lemma mask_F8 b : 0 <= b < 256 -> Z.land (Z.lnot (Z.lor (Z.lor (Z.lor (Z.lor 0x80 0x40) 0x20) 0x10) 0x08)) b = b mod 2 ^ 3.
Proof. apply (below_eqb 256 (fun b => Z.land (Z.lnot 0xF8) b) (fun b => b mod 2 ^ 3)). vm_compute. reflexivity. Qed.
Lemma mask_F8_neg b : 0 <= b < 256 -> Z.land (Z.lnot (Z.lor (Z.lor (Z.lor (Z.lor 0x80 0x40) 0x20) 0x10) 0x08)) (b - 256) = b mod 2 ^ 3 - 256.
Proof. apply (below_eqb 256 (fun b => Z.land (Z.lnot 0xF8) (b - 256)) (fun b => b mod 2 ^ 3 - 256)). vm_compute. reflexivity. Qed.

(** Whether the number is refused. *)
Lemma number2_test b x :
  0xC0 <= b < 0xE0 ->
  (number b (Z.lor (Z.lor 0x80 0x40) 0x20) (6 * (Z.of_nat 2 - 1)) (x mod 64) >? kUnicodeMaxCodepoint) = char_signed.
Proof.
  intros Hb. pose proof (Z.mod_pos_bound x 64). pose proof (Z.mod_pos_bound b (2 ^ 5)). change (6 * (Z.of_nat 2 - 1)) with 6.
  pose proof (number_ok b _ 5 6 (x mod 64) ltac:(lia) ltac:(lia) ltac:(lia) ltac:(lia) ltac:(lia) mask_E0 mask_E0_neg) as E.
  unfold kUnicodeMaxCodepoint. rewrite Z.gtb_ltb. destruct char_signed; [by apply Z.ltb_lt|]. apply Z.ltb_ge. rewrite E. lia.
Qed.

Lemma number3_test b x y :
  0xE0 <= b < 0xF0 ->
  (number b (Z.lor (Z.lor (Z.lor 0x80 0x40) 0x20) 0x10) (6 * (Z.of_nat 3 - 1)) (x mod 64 * 64 + y mod 64) >? kUnicodeMaxCodepoint) = char_signed.
Proof.
  intros Hb. pose proof (Z.mod_pos_bound x 64). pose proof (Z.mod_pos_bound y 64). pose proof (Z.mod_pos_bound b (2 ^ 4)).
  change (6 * (Z.of_nat 3 - 1)) with 12.
  pose proof (number_ok b _ 4 12 (x mod 64 * 64 + y mod 64) ltac:(lia) ltac:(lia) ltac:(lia) ltac:(lia) ltac:(lia) mask_F0 mask_F0_neg) as E.
  unfold kUnicodeMaxCodepoint. rewrite Z.gtb_ltb. destruct char_signed; [by apply Z.ltb_lt|]. apply Z.ltb_ge. rewrite E. lia.
Qed.

Lemma number4_test b x y z :
  0xF0 <= b < 0xF8 -> is_cont x = true -> is_cont y = true -> is_cont z = true ->
  (number b (Z.lor (Z.lor (Z.lor (Z.lor 0x80 0x40) 0x20) 0x10) 0x08) (6 * (Z.of_nat 4 - 1)) ((x mod 64 * 64 + y mod 64) * 64 + z mod 64)
     >? kUnicodeMaxCodepoint) = char_signed || negb (number4 b x y z <=? 0x10FFFF).
Proof.
  intros Hb Hx Hy Hz. pose proof (Z.mod_pos_bound x 64). pose proof (Z.mod_pos_bound y 64). pose proof (Z.mod_pos_bound z 64).
  change (6 * (Z.of_nat 4 - 1)) with 18.
  pose proof (number_ok b _ 3 18 ((x mod 64 * 64 + y mod 64) * 64 + z mod 64) ltac:(lia) ltac:(lia) ltac:(lia) ltac:(lia) ltac:(lia) mask_F8 mask_F8_neg) as E.
  unfold kUnicodeMaxCodepoint. rewrite Z.gtb_ltb. destruct char_signed; [by apply Z.ltb_lt|]. rewrite E. cbn [orb].
  rewrite <- Z.ltb_antisym. f_equal. unfold number4. rewrite !is_cont_mod by done.
  replace (b mod 2 ^ 3) with (b - 0xF0) by (Z.to_euclidean_division_equations; lia). lia.
Qed.

(** The text of a string: bytes other than NUL. *)
Definition text (s : list Z) : Prop := Forall (fun b => 0 < b < 256) s.

Lemma text_bytes s : text s -> bytes s.
Proof. intros Hs. eapply Forall_impl; [exact Hs|]. cbn. lia. Qed.

Lemma utf8_length_loop_ok fuel : forall s rest k,
  text s -> (length s <= fuel)%nat ->
  utf8_length_loop fuel (s ++ 0 :: rest) k = Ok (if accepts8 s then Z.of_nat (k + length s) else -1).
Proof.
  induction fuel as [|fuel IH]; intros s rest k Hs Hf.
  - destruct s; [|cbn in Hf; lia]. cbn. unfold accepts8. rewrite Nat.add_0_r. by destruct char_signed.
  - destruct s as [|b s]; [cbn; unfold accepts8; rewrite Nat.add_0_r; by destruct char_signed|].
    pose proof Hs as [Hb Hs']%Forall_cons. pose proof (text_bytes _ Hs') as Hs8. cbn [length] in Hf.
    cbn [utf8_length_loop app]. unfold rd. cbn [lookup list_lookup obind tail]. rewrite (proj2 (Z.eqb_neq b 0)) by lia.
    rewrite !char_int_land, bit_7 by lia. destruct (Z.ltb_spec b 0x80) as [H7|H7].
    + rewrite IH by (done || lia). unfold accepts8. cbn [forallb ok8]. rewrite (proj2 (Z.ltb_lt b 0x80)) by lia. cbn [andb].
      destruct (if char_signed then _ else _); do 2 f_equal. cbn [length]. lia.
    + assert (Ha : accepts8 (b :: s) = if char_signed then false else ok8 (b :: s)).
      { unfold accepts8. cbn [forallb]. by rewrite (proj2 (Z.ltb_ge b 0x80)) by lia. }
      rewrite Ha, bit_6 by lia. cbn [ok8]. rewrite (proj2 (Z.ltb_ge b 0x80)) by lia.
      destruct (Z.ltb_spec b 0xC0) as [H6|H6]; [by destruct char_signed|].
      destruct (Z.ltb_spec b 0xE0) as [H5|H5]; [|destruct (Z.ltb_spec b 0xF0) as [H4|H4]; [|destruct (Z.ltb_spec b 0xF8) as [H3|H3]]].
      * rewrite seq2_ok by (done || lia). destruct s as [|x s]; [by destruct char_signed|]. apply Forall_cons in Hs' as [_ Hs'].
        destruct (is_cont x) eqn:Hx; cbn [obind]; [|by destruct char_signed]. cbn [Nat.eqb andb].
        fold (number b (Z.lor (Z.lor 0x80 0x40) 0x20) (6 * (Z.of_nat 2 - 1)) (x mod 64)). rewrite number2_test by lia.
        unfold accepts8 in IH. destruct char_signed; [done|]. rewrite IH by (cbn in Hf; done || lia). cbn [length].
        by replace (k + 2 + length s)%nat with (k + S (S (length s)))%nat by lia.
      * rewrite seq3_ok by (done || lia). destruct s as [|x [|y s]]; try by destruct char_signed.
        apply Forall_cons in Hs' as [_ [_ Hs']%Forall_cons].
        destruct (is_cont x && is_cont y) eqn:Hx; cbn [obind]; [|by destruct char_signed]. cbn [Nat.eqb andb].
        fold (number b (Z.lor (Z.lor (Z.lor 0x80 0x40) 0x20) 0x10) (6 * (Z.of_nat 3 - 1)) (x mod 64 * 64 + y mod 64)).
        rewrite number3_test by lia. unfold accepts8 in IH. destruct char_signed; [done|]. rewrite IH by (cbn in Hf; done || lia).
        cbn [length]. by replace (k + 3 + length s)%nat with (k + S (S (S (length s))))%nat by lia.
      * rewrite seq4_ok by (done || lia). destruct s as [|x [|y [|z s]]]; try by destruct char_signed.
        apply Forall_cons in Hs' as [_ [_ [_ Hs']%Forall_cons]%Forall_cons].
        destruct (is_cont x && is_cont y && is_cont z) eqn:Hx; cbn [obind]; [|by destruct char_signed]. cbn [Nat.eqb andb].
        fold (number b (Z.lor (Z.lor (Z.lor (Z.lor 0x80 0x40) 0x20) 0x10) 0x08) (6 * (Z.of_nat 4 - 1)) ((x mod 64 * 64 + y mod 64) * 64 + z mod 64)).
        apply andb_true_iff in Hx as [[Hx Hy]%andb_true_iff Hz].
        rewrite number4_test by (done || lia). unfold accepts8 in IH. destruct char_signed; [done|]. cbn [orb].
        destruct (number4 b x y z <=? 0x10FFFF); [|done]. cbn [negb andb]. rewrite IH by (cbn in Hf; done || lia).
        cbn [length]. by replace (k + 4 + length s)%nat with (k + S (S (S (S (length s)))))%nat by lia.
      * destruct (seq5_ok b s rest Hs8 ltac:(lia)) as (r & -> & [->|(m & t & u & cur & ->)]); by destruct char_signed.
Qed.

(** C26: [utf8_length] of a text of bytes that ends with a NUL reads no further
    than the NUL and returns the number of bytes, or -1 exactly for the texts
    that are not made of sequences of one to four bytes with numbers up to
    0x10FFFF; where [char] is signed, for every text that is not ASCII. *)
Theorem utf8_length_exact s rest :
  text s -> utf8_length (s ++ 0 :: rest) = Ok (if accepts8 s then Z.of_nat (length s) else -1).
Proof. intros Hs. unfold utf8_length. rewrite utf8_length_loop_ok; [done|done|]. rewrite length_app. lia. Qed.
End Length.

(** ** Round trips *)

(** C25: a list of Unicode characters goes from UTF-16 to UTF-8 and back: the
    converters write exactly the other encoding and a NUL into any buffer with
    room for them, touch nothing behind, and both measuring functions return
    what is needed. *)
Theorem utf16_utf8_roundtrip l rest8 rest16 dst8 dst16 :
  Forall scalar l -> l <> [] -> (length (utf8 l) < length dst8)%nat -> (length (utf16 l) < length dst16)%nat ->
  chars16 rest16 ->
  utf16_to_utf8_length (Some (utf16 l ++ rest16)) (length (utf16 l)) = Ok (Z.of_nat (length (utf8 l))) /\
  utf16_to_utf8 (Some (utf16 l ++ rest16)) (length (utf16 l)) (Some dst8) =
    Ok (Some (utf8 l ++ 0 :: drop (S (length (utf8 l))) dst8)) /\
  utf8_to_utf16_length (utf8 l ++ rest8) (length (utf8 l)) = Ok (Z.of_nat (length (utf16 l))) /\
  utf8_to_utf16 (utf8 l ++ rest8) (length (utf8 l)) dst16 =
    Ok (utf16 l ++ 0 :: drop (S (length (utf16 l))) dst16).
Proof.
  intros Hl Hne H8 H16 Hr. split_and!; [by apply utf16_to_utf8_length_ok| |by apply utf8_to_utf16_length_ok|by apply utf8_to_utf16_ok].
  pose proof (utf16_to_utf8_ok (utf16 l ++ rest16) (length (utf16 l)) dst8) as E.
  rewrite take_app_length, decode16_utf16 in E by done. apply E; [|split|done].
  - apply Forall_app. split; [by apply chars16_utf16|done].
  - destruct l as [|c l]; [done|]. unfold utf16. rewrite bind_cons, length_app. unfold enc16. case_match; cbn; lia.
  - rewrite length_app. lia.
Qed.

(** A list of Unicode characters in UTF-32 goes to UTF-8 and back, on
    platforms with signed and with unsigned [char]. *)
Theorem utf32_utf8_roundtrip `{Platform} l rest8 dst8 dst32 :
  Forall scalar l -> l <> [] -> (length (utf8 l) < length dst8)%nat -> (length l < length dst32)%nat ->
  utf32_to_utf8_length (Some l) (length l) = Ok (Z.of_nat (length (utf8 l))) /\
  utf32_to_utf8 (Some l) (length l) (Some dst8) = Ok (Some (utf8 l ++ 0 :: drop (S (length (utf8 l))) dst8)) /\
  utf8_to_utf32_length (Some (utf8 l ++ rest8)) (length (utf8 l)) = Ok (length l) /\
  utf8_to_utf32 (Some (utf8 l ++ rest8)) (length (utf8 l)) (Some dst32) =
    Ok (Some (l ++ 0 :: drop (S (length l)) dst32)).
Proof.
  intros Hl Hne H8 H32. assert (0 < length l)%nat by (destruct l; [done|cbn; lia]).
  pose proof (utf32_to_utf8_length_ok l (length l)) as E1. pose proof (utf32_to_utf8_ok l (length l) dst8) as E2.
  rewrite take_ge in E1, E2 by done.
  split_and!; [apply E1; lia|apply E2|by apply utf8_to_utf32_length_ok|by apply utf8_to_utf32_ok]; try done.
  eapply Forall_impl; [exact Hl|]. unfold scalar. lia.
Qed.

(** ** Bounded conversion *)

(** Whatever the bytes are, [utf8_to_utf16_n] writes nothing behind [dstLen]
    characters, and the result is within them. *)
Lemma utf8_to_utf16_n_bounded fuel : forall cur n dst dstLen k dst' k',
  (k <= dstLen)%nat -> utf8_to_utf16_n_loop fuel cur n dst dstLen k = Ok (dst', k') ->
  (k' <= dstLen)%nat /\ drop dstLen dst' = drop dstLen dst /\ length dst' = length dst.
Proof.
  assert (Hwr : forall dst i v dst' d, (i < d)%nat -> wr dst i v = Ok dst' -> drop d dst' = drop d dst /\ length dst' = length dst).
  { intros dst i v dst' d Hi. unfold wr. case_match; [|done]. intros [= <-]. by rewrite drop_insert_lt, length_insert by lia. }
  induction fuel as [|fuel IH]; intros cur n dst d k dst' k' Hk E; cbn [utf8_to_utf16_n_loop] in E.
  - destruct ((0 <? n) && (k <? d)%nat); [done|]. by injection E as <- <-.
  - destruct ((0 <? n) && (k <? d)%nat) eqn:Ec; [|by injection E as <- <-]. apply andb_true_iff in Ec as [_ Hlt%Nat.ltb_lt].
    apply obind_Ok_inv in E as (c & _ & E). apply obind_Ok_inv in E as (cp & _ & E). destruct (cp <=? 0xFFFF).
    + apply obind_Ok_inv in E as (d1 & W & E). destruct (Hwr _ _ _ _ d Hlt W) as [D1 L1].
      apply IH in E as (? & -> & ->); [|lia]. by rewrite D1, L1.
    + apply obind_Ok_inv in E as (d1 & W & E). destruct (Hwr _ _ _ _ d Hlt W) as [D1 L1].
      destruct (Nat.leb_spec d (S k)); [injection E as <- <-; by split_and!|].
      apply obind_Ok_inv in E as (d2 & W2 & E). destruct (Hwr _ (S k) _ _ d ltac:(lia) W2) as [D2 L2].
      apply IH in E as (? & -> & ->); [|lia]. by rewrite D2, L2, D1, L1.
Qed.

(** ** Strings the code mishandles *)

(** a string with a lone high surrogate before a pair: the measured length
    is 0, the conversion writes four bytes, and with a buffer of the measured
    length and the NUL it writes behind the buffer. *)
Theorem utf16_to_utf8_length_too_short :
  let s := [0xD800; 0xD800; 0xDC00] in
  utf16_to_utf8_length (Some s) 3 = Ok 0 /\
  utf16_to_utf8 (Some s) 3 (Some [0; 0; 0; 0; 0]) = Ok (Some [0xF0; 0x90; 0x80; 0x80; 0]) /\
  utf16_to_utf8 (Some s) 3 (Some [0]) = UB.
Proof. vm_compute. split_and!; reflexivity. Qed.

(** [strncpy16] keeps the low byte of each character, and stops at a character
    whose low byte is 0; [strzcmp16] finds a string equal to itself followed by
    a NUL. *)
Lemma strncpy16_loses :
  strncpy16 (H := {| char_signed := false |}) [9; 9; 9; 9] [0x3042; 0x0100; 0x41; 0] 3 = Ok [0x42; 0; 0; 9] /\
  strzcmp16 [0x41] 1 [0x41; 0] 2 = Ok 0.
Proof. vm_compute. split; reflexivity. Qed.

(** ** Examples *)

(** "a", e with acute accent, a Hiragana letter and an emoji. *)
Definition ex_chars : list Z := [0x61; 0xE9; 0x3042; 0x1F600].

Lemma ex_chars_scalar : Forall scalar ex_chars.
Proof. exact (bool_decide_unpack (Forall scalar ex_chars) I). Qed.

Lemma utf8_length_exact_witness :
  utf8_length (H := {| char_signed := false |}) ([0x61; 0xC3; 0xA9] ++ [0; 7]) = Ok 3 /\
  utf8_length (H := {| char_signed := true |}) ([0x61; 0xC3; 0xA9] ++ [0; 7]) = Ok (-1).
Proof.
  assert (Ht : text [0x61; 0xC3; 0xA9]) by (repeat constructor; lia).
  split; [exact (utf8_length_exact (H := {| char_signed := false |}) _ [7] Ht)|exact (utf8_length_exact (H := {| char_signed := true |}) _ [7] Ht)].
Defined.

Lemma utf16_utf8_roundtrip_witness :
  utf16_to_utf8 (Some [0x61; 0xE9; 0x3042; 0xD83D; 0xDE00]) 5 (Some (replicate 12 9)) =
    Ok (Some [0x61; 0xC3; 0xA9; 0xE3; 0x81; 0x82; 0xF0; 0x9F; 0x98; 0x80; 0; 9]).
Proof.
  apply (utf16_utf8_roundtrip ex_chars [] [] (replicate 12 9) (replicate 6 9) ex_chars_scalar); [done|cbn; lia|cbn; lia|constructor].
Defined.

Lemma utf32_utf8_roundtrip_witness :
  utf8_to_utf32 (H := {| char_signed := true |}) (Some [0x61; 0xC3; 0xA9; 0xE3; 0x81; 0x82; 0xF0; 0x9F; 0x98; 0x80]) 10 (Some (replicate 6 9)) =
    Ok (Some [0x61; 0xE9; 0x3042; 0x1F600; 0; 9]).
Proof.
  apply (utf32_utf8_roundtrip (H := {| char_signed := true |}) ex_chars [] (replicate 12 9) (replicate 6 9) ex_chars_scalar); [done|cbn; lia|cbn; lia].
Defined.
