(* ===== verification/JString.v ===== *)
(** * Java strings (core/libcutils/strdup8to16.c, strdup16to8.c)

    Conversions between UTF-16 and the modified UTF-8 of Java.  Pointers are as
    in the model of Unicode.cpp: what is read is a list, what is written a
    buffer and an offset.  [malloc] is a parameter: a new buffer, or none. *)

From S2P Require Import Prelude Unicode.

#[local] Open Scope Z_scope.
#[local] Open Scope c_scope.

Definition SIZE_MAX : Z := 2 ^ 64 - 1.

(** ** To UTF-16 *)

Definition UTF16_REPLACEMENT_CHAR : Z := 0xfffd.
Definition UNICODE_UPPER_LIMIT : Z := 0x10fffd.
Definition UTF8_SEQ_LENGTH (ch : Z) : Z := Z.land (Z.shiftr 0xe5000000 (Z.land (Z.shiftr ch 3) 0x1e)) 3 + 1.
Definition UTF8_SHIFT_AND_MASK (unicode byte : Z) : Z := Z.lor (u32 (Z.shiftl unicode 6)) (Z.land 0x3f byte).

Section Chars.
Context `{Platform}.

Fixpoint strlen8to16_loop (utf8Str : list Z) (len : nat) (expected : Z) : outcome nat :=
  match utf8Str with
  | [] => UB
  | c :: utf8Str =>
    let ic := char_int c in
    if ic =? 0 then Ok len
    else if Z.land ic 0xc0 =? 0x80 then
      let expected := i32 (expected - 1) in
      strlen8to16_loop utf8Str (if expected <? 0 then S len else len) expected
    else
      let expected := UTF8_SEQ_LENGTH ic - 1 in
      strlen8to16_loop utf8Str (if expected =? 3 then S (S len) else S len) expected
  end.
Definition strlen8to16 (utf8Str : list Z) : outcome nat := strlen8to16_loop utf8Str 0 0.

Definition leaderMask : list Z := [char_int 0xff; 0x1f; 0x0f; 0x07].

(** The loop over the [n] bytes that should follow; the result, and where
    [*pUtf8Ptr] points to. *)
Fixpoint follow_loop (n : nat) (p : list Z) (ret : Z) : outcome (Z * list Z) :=
  match n with
  | O => Ok (ret, p)
  | S n =>
    do! c := rd p 0 in
    let ch := char_int c in
    if ch =? 0 then Ok (UTF16_REPLACEMENT_CHAR, p)
    else if negb (Z.land ch 0xc0 =? 0x80) then Ok (UTF16_REPLACEMENT_CHAR, p)
    else follow_loop n (tail p) (UTF8_SHIFT_AND_MASK ret ch)
  end.

Definition getUtf32FromUtf8 (p : list Z) : outcome (Z * list Z) :=
  do! c := rd p 0 in
  let ch := char_int c in
  if Z.land ch 0xc0 =? 0x80 then Ok (UTF16_REPLACEMENT_CHAR, tail p)
  else
    let seq_len := UTF8_SEQ_LENGTH ch in
    do! mask := rd leaderMask (Z.to_nat (seq_len - 1)) in
    let ret := u32 (Z.land ch mask) in
    if ch =? 0 then Ok (ret, p)
    else follow_loop (Z.to_nat (seq_len - 1)) (tail p) ret.

(** The body of the loops of [strcpy8to16] and [strcpylen8to16]: the characters
    of [ret] at [dest]. *)
Definition put_utf16 (buf : list Z) (dest : nat) (ret : Z) : outcome (list Z * nat) :=
  if ret <=? 0xffff then do! buf := wr buf dest (u16 ret) in Ok (buf, S dest)
  else if ret <=? UNICODE_UPPER_LIMIT then
    do! buf := wr buf dest (u16 (Z.lor 0xd800 (Z.shiftr (ret - 0x10000) 10))) in
    do! buf := wr buf (S dest) (u16 (Z.lor 0xdc00 (Z.land (ret - 0x10000) 0x3ff))) in
    Ok (buf, S (S dest))
  else do! buf := wr buf dest UTF16_REPLACEMENT_CHAR in Ok (buf, S dest).

Fixpoint strcpy8to16_loop (fuel : nat) (utf8Str buf : list Z) (dest : nat) : outcome (list Z * nat) :=
  do! c := rd utf8Str 0 in
  if char_int c =? 0 then Ok (buf, dest)
  else match fuel with
  | O => NoFuel
  | S fuel =>
    do! r := getUtf32FromUtf8 utf8Str in
    do! b := put_utf16 buf dest r.1 in
    strcpy8to16_loop fuel r.2 b.1 b.2
  end.

(** The buffer, and [*out_len]. *)
Definition strcpy8to16 (utf16Str utf8Str : list Z) : outcome (list Z * nat) :=
  strcpy8to16_loop (length utf8Str) utf8Str utf16Str 0.

(** [n] is [end - utf8Str].  Every turn writes to the buffer, whose size is the
    fuel. *)
Fixpoint strcpylen8to16_loop (fuel : nat) (utf8Str : list Z) (n : Z) (buf : list Z) (dest : nat) : outcome (list Z * nat) :=
  if 0 <? n then
    match fuel with
    | O => NoFuel
    | S fuel =>
      do! r := getUtf32FromUtf8 utf8Str in
      do! b := put_utf16 buf dest r.1 in
      strcpylen8to16_loop fuel r.2 (n - Z.of_nat (length utf8Str - length r.2)) b.1 b.2
    end
  else Ok (buf, dest).

Definition strcpylen8to16 (utf16Str utf8Str : list Z) (length_ : Z) : outcome (list Z * nat) :=
  strcpylen8to16_loop (S (length utf16Str)) utf8Str length_ utf16Str 0.

(** The string, and [*out_len] if it is set.  A null pointer has no room. *)
Definition strdup8to16 (malloc : nat -> option (list Z)) (s : option (list Z)) : outcome (option (list Z) * option nat) :=
  match s with
  | None => Ok (None, None)
  | Some s =>
    do! len := strlen8to16 s in
    if negb (len =? 0)%nat && (SIZE_MAX / Z.of_nat len <? 2) then Ok (None, None)
    else
      let ret := malloc len in
      do! r := strcpy8to16 (default [] ret) s in
      Ok (match ret with Some _ => Some r.1 | None => None end, Some r.2)
  end.
End Chars.

(** ** To UTF-8 *)

(** [utf8Len] after one more character. *)
Definition add_len (utf8Len uic : Z) : Z :=
  if uic >? 0x07ff then u64 (utf8Len + 3)
  else if (uic >? 0x7f) || (uic =? 0) then u64 (utf8Len + 2)
  else u64 (utf8Len + 1).

Fixpoint fast_loop (utf16Str : list Z) (len : nat) (utf8Len : Z) : outcome Z :=
  match len with
  | O => Ok utf8Len
  | S len => do! uic := rd utf16Str 0 in fast_loop (tail utf16Str) len (add_len utf8Len uic)
  end.

(** [None] is [return SIZE_MAX-1] inside the loop. *)
Fixpoint slow_loop (utf16Str : list Z) (len : nat) (utf8Len : Z) : outcome (option Z) :=
  match len with
  | O => Ok (Some utf8Len)
  | S len =>
    do! uic := rd utf16Str 0 in
    let utf8Cur := utf8Len in
    let utf8Len := add_len utf8Len uic in
    if utf8Len <? utf8Cur then Ok None else slow_loop (tail utf16Str) len utf8Len
  end.

Definition strnlen16to8 (utf16Str : list Z) (len : nat) : outcome Z :=
  if Z.of_nat len <? (SIZE_MAX - 1) / 3 then fast_loop utf16Str len 0
  else
    do! r := slow_loop utf16Str len 0 in
    match r with
    | None => Ok (SIZE_MAX - 1)
    | Some utf8Len => Ok (if utf8Len =? SIZE_MAX then SIZE_MAX - 1 else utf8Len)
    end.

Fixpoint strncpy16to8_loop (buf : list Z) (utf8cur : nat) (utf16Str : list Z) (len : nat) : outcome (list Z * nat) :=
  match len with
  | O => Ok (buf, utf8cur)
  | S len =>
    do! uic := rd utf16Str 0 in
    if uic >? 0x07ff then
      do! buf := wr buf utf8cur (u8 (Z.lor (Z.shiftr uic 12) 0xe0)) in
      do! buf := wr buf (utf8cur + 1) (u8 (Z.lor (Z.land (Z.shiftr uic 6) 0x3f) 0x80)) in
      do! buf := wr buf (utf8cur + 2) (u8 (Z.lor (Z.land uic 0x3f) 0x80)) in
      strncpy16to8_loop buf (utf8cur + 3) (tail utf16Str) len
    else if (uic >? 0x7f) || (uic =? 0) then
      do! buf := wr buf utf8cur (u8 (Z.lor (Z.shiftr uic 6) 0xc0)) in
      do! buf := wr buf (utf8cur + 1) (u8 (Z.lor (Z.land uic 0x3f) 0x80)) in
      strncpy16to8_loop buf (utf8cur + 2) (tail utf16Str) len
    else
      do! buf := wr buf utf8cur (u8 uic) in
      if uic =? 0 then Ok (buf, (utf8cur + 1)%nat)
      else strncpy16to8_loop buf (utf8cur + 1) (tail utf16Str) len
  end.

Definition strncpy16to8 (utf8Str utf16Str : list Z) (len : nat) : outcome (list Z) :=
  do! r := strncpy16to8_loop utf8Str 0 utf16Str len in wr r.1 r.2 0.

Definition strndup16to8 (malloc : nat -> option (list Z)) (s : option (list Z)) (n : nat) : outcome (option (list Z)) :=
  match s with
  | None => Ok None
  | Some s =>
    do! len := strnlen16to8 s n in
    if SIZE_MAX - 1 <=? len then Ok None
    else
      match malloc (Z.to_nat (len + 1)) with
      | None => Ok None
      | Some ret => do! ret := strncpy16to8 ret s n in Ok (Some ret)
      end
  end.
