(* ===== verification/JStringProps.v ===== *)
(** * Java strings: the theorems

    Every UTF-16 string, also with NULs and lone surrogates, goes to modified
    UTF-8 and back; [strlen8to16] is enough room for [strcpy8to16] whatever the
    bytes are; [strcpylen8to16] does not get past a NUL. *)

From S2P Require Import Prelude Words Unicode UnicodeProps UnicodeStrings UnicodeValid JString.

#[local] Open Scope Z_scope.
#[local] Open Scope c_scope.

(** ** Modified UTF-8 *)

Definition jenc (c : Z) : list Z :=
  if (0 <? c) && (c <? 0x80) then [c]
  else if c <? 0x800 then [0xC0 + c / 2 ^ 6; cont c]
  else [0xE0 + c / 2 ^ 12; cont (c / 2 ^ 6); cont c].

Definition jutf8 (s : list Z) : list Z := s ≫= jenc.

Lemma jenc_cases c :
  0 <= c < 2 ^ 16 ->
  (0 < c < 0x80 /\ jenc c = [c]) \/
  ((c = 0 \/ 0x80 <= c < 0x800) /\ jenc c = [0xC0 + c / 2 ^ 6; cont c]) \/
  (0x800 <= c < 2 ^ 16 /\ jenc c = [0xE0 + c / 2 ^ 12; cont (c / 2 ^ 6); cont c]).
Proof.
  intros Hc. unfold jenc. destruct (Z.ltb_spec 0 c), (Z.ltb_spec c 0x80), (Z.ltb_spec c 0x800); cbn [andb]; try lia.
  - by left.
  - right. left. split; [lia|done].
  - right. right. split; [lia|done].
  - right. left. split; [lia|done].
Qed.

Lemma mark_cont z : u8 (Z.lor (Z.land z 0x3f) 0x80) = cont z.
Proof.
  rewrite (land_mod z _ 6) by done. unfold cont.
  apply (below_eqb 64 (fun z => u8 (Z.lor z 0x80)) (fun z => 0x80 + z)); [vm_compute; reflexivity|].
  change (Z.of_nat 64) with (2 ^ 6). apply Z.mod_pos_bound. lia.
Qed.

Lemma strncpy16to8_loop_ok n : forall src pre mid post,
  chars16 src -> (n <= length src)%nat -> length mid = length (jutf8 (take n src)) ->
  strncpy16to8_loop (pre ++ mid ++ post) (length pre) src n =
    Ok (pre ++ jutf8 (take n src) ++ post, (length pre + length mid)%nat).
Proof.
  induction n as [|n IH]; intros src pre mid post Hs Hn Hm; cbn [strncpy16to8_loop].
  - rewrite take_0 in *. destruct mid; [|discriminate Hm]. by rewrite Nat.add_0_r.
  - destruct src as [|c src]; [cbn in Hn; lia|]. apply Forall_cons in Hs as [Hc Hs]. unfold rd.
    cbn [take lookup list_lookup obind tail length] in *. unfold jutf8 in *. rewrite bind_cons in *.
    apply length_split in Hm as (m1 & m2 & -> & H1 & H2). rewrite <- (app_assoc m1 m2), !Z.gtb_ltb.
    assert (Hnext : forall k, k = length (jenc c) ->
      strncpy16to8_loop (pre ++ jenc c ++ m2 ++ post) (length pre + k) src n =
        Ok (pre ++ (jenc c ++ (take n src ≫= jenc)) ++ post, (length pre + length (m1 ++ m2))%nat)).
    { intros k ->. rewrite (app_assoc pre), <- length_app, IH by (done || lia). rewrite <- !app_assoc, !length_app, H1.
      by rewrite (Nat.add_assoc (length pre)). }
    destruct (jenc_cases c Hc) as [(Hr & E)|[(Hr & E)|(Hr & E)]]; rewrite E in *.
    + rewrite (proj2 (Z.ltb_ge 0x7ff c)), (proj2 (Z.ltb_ge 0x7f c)), (proj2 (Z.eqb_neq c 0)) by lia. cbn [orb].
      destruct m1 as [|x [|]]; try done. put_bytes. unfold u8. rewrite Z.mod_small by lia. by apply Hnext.
    + rewrite (proj2 (Z.ltb_ge 0x7ff c)) by lia. replace ((0x7f <? c) || (c =? 0)) with true by lia.
      destruct m1 as [|x [|y [|]]]; try done. put_bytes. rewrite mark_cont, Z.shiftr_div_pow2, mark2 by (lia || Z.to_euclidean_division_equations; lia).
      by apply Hnext.
    + rewrite (proj2 (Z.ltb_lt 0x7ff c)) by lia. destruct m1 as [|x [|y [|z [|]]]]; try done. put_bytes.
      rewrite !mark_cont, !Z.shiftr_div_pow2, mark3 by (lia || Z.to_euclidean_division_equations; lia). by apply Hnext.
Qed.

Lemma strncpy16to8_ok src n dst :
  chars16 src -> (n <= length src)%nat -> let t := jutf8 (take n src) in (length t < length dst)%nat ->
  strncpy16to8 dst src n = Ok (t ++ 0 :: drop (S (length t)) dst).
Proof.
  intros Hs Hn t Hd. destruct (buffer_split dst _ Hd) as (mid & x & post & -> & Hm & <-). unfold strncpy16to8.
  pose proof (strncpy16to8_loop_ok n src [] mid (x :: post) Hs Hn Hm) as E. cbn [app length Nat.add] in E.
  rewrite E. cbn [obind fst snd]. by rewrite put_nul.
Qed.

Lemma length_jutf8 s : chars16 s -> (length (jutf8 s) <= 3 * length s)%nat.
Proof.
  induction 1 as [|c s Hc Hs IH]; [done|]. unfold jutf8 in *. rewrite bind_cons, length_app. cbn [length].
  destruct (jenc_cases c Hc) as [(_ & ->)|[(_ & ->)|(_ & ->)]]; cbn [length]; lia.
Qed.

Lemma fast_loop_ok n : forall src k,
  chars16 src -> (n <= length src)%nat -> 0 <= k -> k + 3 * Z.of_nat n < 2 ^ 64 ->
  fast_loop src n k = Ok (k + Z.of_nat (length (jutf8 (take n src)))).
Proof.
  induction n as [|n IH]; intros src k Hs Hn Hk Hb; cbn [fast_loop]; [rewrite take_0; cbn; f_equal; lia|].
  destruct src as [|c src]; [cbn in Hn; lia|]. apply Forall_cons in Hs as [Hc Hs]. unfold rd.
  cbn [take lookup list_lookup obind tail length] in *. unfold jutf8 in *. rewrite bind_cons, length_app.
  unfold add_len. rewrite !Z.gtb_ltb. destruct (jenc_cases c Hc) as [(Hr & ->)|[(Hr & ->)|(Hr & ->)]]; cbn [length].
  - rewrite (proj2 (Z.ltb_ge 0x7ff c)), (proj2 (Z.ltb_ge 0x7f c)), (proj2 (Z.eqb_neq c 0)) by lia. cbn [orb].
    rewrite u64_small, IH by (done || lia). f_equal. lia.
  - rewrite (proj2 (Z.ltb_ge 0x7ff c)) by lia. replace ((0x7f <? c) || (c =? 0)) with true by lia.
    rewrite u64_small, IH by (done || lia). f_equal. lia.
  - rewrite (proj2 (Z.ltb_lt 0x7ff c)) by lia. rewrite u64_small, IH by (done || lia). f_equal. lia.
Qed.

Lemma strnlen16to8_ok src n :
  chars16 src -> (n <= length src)%nat -> Z.of_nat n < 2 ^ 62 ->
  strnlen16to8 src n = Ok (Z.of_nat (length (jutf8 (take n src)))).
Proof.
  intros Hs Hn Hb. unfold strnlen16to8, SIZE_MAX.
  rewrite (proj2 (Z.ltb_lt (Z.of_nat n) _)) by (Z.to_euclidean_division_equations; lia). by rewrite fast_loop_ok by (done || lia).
Qed.

(** ** Reading modified UTF-8 *)

Section Chars.
Context `{Platform}.

Lemma char_int_zero b : 0 <= b < 256 -> (char_int b =? 0) = (b =? 0).
Proof. unfold char_int. intros Hb. destruct (char_signed && (128 <=? b)) eqn:E; lia. Qed.

Lemma seq_length_ok b : 0 <= b < 256 -> UTF8_SEQ_LENGTH (char_int b) = Z.of_nat (utf8_codepoint_len b).
Proof.
  revert b. apply (below_eqb 256 (fun b => UTF8_SEQ_LENGTH (char_int b)) (fun b => Z.of_nat (utf8_codepoint_len b))).
  unfold char_int. destruct char_signed; vm_compute; reflexivity.
Qed.

Lemma shift_in_ok u x : 0 <= u < 2 ^ 26 -> UTF8_SHIFT_AND_MASK u (char_int x) = u * 64 + x mod 64.
Proof.
  intros Hu. rewrite <- (shift_and_mask_ok u x Hu). unfold UTF8_SHIFT_AND_MASK, utf8_shift_and_mask. f_equal.
  rewrite Z.land_comm, char_int_land by lia. apply Z.land_comm.
Qed.

Lemma follow_next n x p ret :
  0 < x < 256 -> 0 <= ret < 2 ^ 26 ->
  follow_loop (S n) (x :: p) ret =
    if is_cont x then follow_loop n p (ret * 64 + x mod 64) else Ok (UTF16_REPLACEMENT_CHAR, x :: p).
Proof.
  intros Hx Hr. cbn [follow_loop]. unfold rd. cbn [lookup list_lookup obind tail].
  rewrite char_int_zero, cont_test, (proj2 (Z.eqb_neq x 0)) by lia. rewrite shift_in_ok by done. by destruct (is_cont x).
Qed.

(** What [getUtf32FromUtf8] does with a first byte. *)
Definition leader (b : Z) : Z :=
  if b <? 0xC0 then b else if b <? 0xE0 then b mod 2 ^ 5 else if b <? 0xF0 then b mod 2 ^ 4 else b mod 2 ^ 3.

Lemma get_first b p :
  0 < b < 256 -> is_cont b = false ->
  getUtf32FromUtf8 (b :: p) = follow_loop (utf8_codepoint_len b - 1) p (leader b) /\ 0 <= leader b < 128.
Proof.
  intros Hb Hc. unfold getUtf32FromUtf8, rd at 1. cbn [lookup list_lookup obind tail].
  rewrite cont_test, Hc, seq_length_ok, char_int_zero, (proj2 (Z.eqb_neq b 0)) by lia.
  unfold is_cont in Hc. rewrite codepoint_len_ok by lia. unfold leader, leaderMask.
  pose proof (Z.mod_pos_bound b (2 ^ 5)). pose proof (Z.mod_pos_bound b (2 ^ 4)). pose proof (Z.mod_pos_bound b (2 ^ 3)).
  destruct (Z.ltb_spec b 0xC0); [|destruct (Z.ltb_spec b 0xE0); [|destruct (Z.ltb_spec b 0xF0)]].
  all: match goal with |- context [Z.to_nat (Z.of_nat ?n - 1)] => change (Z.to_nat (Z.of_nat n - 1)) with (n - 1)%nat end.
  all: unfold rd; cbn [Nat.sub lookup list_lookup obind].
  - split; [|lia]. replace (char_int b) with b by (unfold char_int; by rewrite (proj2 (Z.leb_gt 128 b)), andb_false_r by lia).
    rewrite Z.land_comm, char_int_land, Z.land_comm, (land_mod b _ 8), Z.mod_small, u32_small by (done || lia). done.
  - rewrite char_int_land, (land_mod b _ 5), u32_small by (done || lia). split; [done|lia].
  - rewrite char_int_land, (land_mod b _ 4), u32_small by (done || lia). split; [done|lia].
  - rewrite char_int_land, (land_mod b _ 3), u32_small by (done || lia). split; [done|lia].
Qed.

Lemma not_cont b : b < 0x80 \/ 0xC0 <= b -> is_cont b = false.
Proof. unfold is_cont. lia. Qed.

Lemma is_cont_cont z : is_cont (cont z) = true.
Proof. pose proof (cont_range z). unfold is_cont. lia. Qed.

Lemma get_jenc c t : 0 <= c < 2 ^ 16 -> getUtf32FromUtf8 (jenc c ++ t) = Ok (c, t).
Proof.
  intros Hc. destruct (jenc_cases c Hc) as [(Hr & ->)|[(Hr & ->)|(Hr & ->)]]; cbn [app].
  - destruct (get_first c t ltac:(lia) (not_cont c ltac:(lia))) as [-> _]. rewrite codepoint_len_ok by lia. unfold leader.
    by rewrite !(proj2 (Z.ltb_lt c 0xC0)) by lia.
  - assert (0 <= c / 2 ^ 6 < 32) by (Z.to_euclidean_division_equations; lia). pose proof (cont_range c).
    destruct (get_first (0xC0 + c / 2 ^ 6) (cont c :: t) ltac:(lia) (not_cont (0xC0 + c / 2 ^ 6) ltac:(lia))) as [-> Hl].
    rewrite codepoint_len_ok by lia. unfold leader in *.
    rewrite !(proj2 (Z.ltb_ge (0xC0 + _) 0xC0)), !(proj2 (Z.ltb_lt (0xC0 + _) 0xE0)) in Hl |- * by lia.
    cbn [Nat.sub]. rewrite follow_next, is_cont_cont by lia. cbn [follow_loop]. rewrite cont_mod, (first_low 5 6) by lia. by rewrite <- groups2.
  - assert (0 <= c / 2 ^ 12 < 16) by (Z.to_euclidean_division_equations; lia). pose proof (cont_range c). pose proof (cont_range (c / 2 ^ 6)).
    destruct (get_first (0xE0 + c / 2 ^ 12) (cont (c / 2 ^ 6) :: cont c :: t) ltac:(lia) (not_cont (0xE0 + c / 2 ^ 12) ltac:(lia))) as [-> Hl].
    rewrite codepoint_len_ok by lia. unfold leader in *.
    rewrite !(proj2 (Z.ltb_ge (0xE0 + _) 0xC0)), !(proj2 (Z.ltb_ge (0xE0 + _) 0xE0)), !(proj2 (Z.ltb_lt (0xE0 + _) 0xF0)) in Hl |- * by lia.
    pose proof (Z.mod_pos_bound (cont (c / 2 ^ 6)) 64).
    cbn [Nat.sub]. do 2 rewrite follow_next, is_cont_cont by lia. cbn [follow_loop].
    rewrite !cont_mod, (first_low 4 14) by lia. by rewrite <- groups3.
Qed.

(** ** Measuring *)

Lemma strlen_lead b p k e :
  0 < b < 256 -> is_cont b = false ->
  strlen8to16_loop (b :: p) k e =
    strlen8to16_loop p (k + (if (utf8_codepoint_len b =? 4)%nat then 2 else 1)) (Z.of_nat (utf8_codepoint_len b) - 1).
Proof.
  intros Hb Hc. cbn [strlen8to16_loop]. rewrite char_int_zero, cont_test, Hc, seq_length_ok, (proj2 (Z.eqb_neq b 0)) by lia.
  f_equal. rewrite codepoint_len_ok by lia. repeat case_match; cbn in *; try lia; done.
Qed.

Lemma strlen_cont x p k e :
  0 < x < 256 -> is_cont x = true -> - 2 ^ 31 < e <= 2 ^ 31 ->
  strlen8to16_loop (x :: p) k e = strlen8to16_loop p (if e <=? 0 then S k else k) (e - 1).
Proof.
  intros Hx Hc He. cbn [strlen8to16_loop]. rewrite char_int_zero, cont_test, Hc, (proj2 (Z.eqb_neq x 0)) by lia.
  rewrite i32_small by lia. f_equal. destruct (Z.ltb_spec (e - 1) 0), (Z.leb_spec e 0); try lia; done.
Qed.

Lemma strlen_jutf8 s rest : forall k e, chars16 s -> strlen8to16_loop (jutf8 s ++ 0 :: rest) k e = Ok (k + length s)%nat.
Proof.
  induction s as [|c s IH]; intros k e Hs; [cbn; by rewrite char_int_zero, Nat.add_0_r by lia|].
  apply Forall_cons in Hs as [Hc Hs]. unfold jutf8 in *. rewrite bind_cons, <- app_assoc.
  destruct (jenc_cases c Hc) as [(Hr & ->)|[(Hr & ->)|(Hr & ->)]]; cbn [app].
  - rewrite strlen_lead, IH, codepoint_len_ok by (done || lia || apply not_cont; lia).
    rewrite (proj2 (Z.ltb_lt c 0xC0)) by lia. cbn. f_equal. lia.
  - assert (0 <= c / 2 ^ 6 < 32) by (Z.to_euclidean_division_equations; lia). pose proof (cont_range c).
    rewrite strlen_lead, codepoint_len_ok by (lia || apply not_cont; lia).
    rewrite (proj2 (Z.ltb_ge (0xC0 + _) 0xC0)), (proj2 (Z.ltb_lt (0xC0 + _) 0xE0)) by lia.
    cbn [Z.of_nat Nat.eqb]. rewrite strlen_cont, IH by (done || lia || apply is_cont_cont). cbn [length]. f_equal. repeat case_match; discriminate || lia.
  - assert (0 <= c / 2 ^ 12 < 16) by (Z.to_euclidean_division_equations; lia). pose proof (cont_range c). pose proof (cont_range (c / 2 ^ 6)).
    rewrite strlen_lead, codepoint_len_ok by (lia || apply not_cont; lia).
    rewrite (proj2 (Z.ltb_ge (0xE0 + _) 0xC0)), (proj2 (Z.ltb_ge (0xE0 + _) 0xE0)), (proj2 (Z.ltb_lt (0xE0 + _) 0xF0)) by lia.
    cbn [Z.of_nat Nat.eqb]. rewrite !strlen_cont, IH by (done || lia || apply is_cont_cont). cbn [length]. f_equal. repeat case_match; discriminate || lia.
Qed.

Lemma strcpy8to16_jutf8 s rest : forall fuel pre mid post,
  chars16 s -> (length s <= fuel)%nat -> length mid = length s ->
  strcpy8to16_loop fuel (jutf8 s ++ 0 :: rest) (pre ++ mid ++ post) (length pre) =
    Ok (pre ++ s ++ post, (length pre + length s)%nat).
Proof.
  induction s as [|c s IH]; intros fuel pre mid post Hs Hf Hm.
  - destruct mid; [|done]. destruct fuel; cbn; by rewrite char_int_zero, Nat.add_0_r by lia.
  - apply Forall_cons in Hs as [Hc Hs]. destruct fuel as [|fuel]; [cbn in Hf; lia|]. cbn [length] in *. destruct mid as [|x mid]; [done|]. injection Hm as Hm.
    unfold jutf8 in *. rewrite bind_cons, <- app_assoc. cbn [strcpy8to16_loop]. rewrite get_jenc by done. cbn [obind fst snd].
    assert (Hb : exists b, rd (jenc c ++ (s ≫= jenc) ++ 0 :: rest) 0 = Ok b /\ 0 < b < 256).
    { destruct (jenc_cases c Hc) as [(Hr & ->)|[(Hr & ->)|(Hr & ->)]]; (eexists; split; [reflexivity|]);
        Z.to_euclidean_division_equations; lia. }
    destruct Hb as (b & -> & Hb). cbn [obind]. rewrite char_int_zero, (proj2 (Z.eqb_neq b 0)) by lia.
    unfold put_utf16. rewrite (proj2 (Z.leb_le c 0xffff)) by lia. change ((x :: mid) ++ post) with ([x] ++ mid ++ post).
    rewrite (wr_mid pre [x] _ _ _ 0) by (cbn; lia). unfold u16. rewrite Z.mod_small by lia. cbn [obind fst snd].
    change (<[0%nat:=c]> [x]) with [c]. replace (S (length pre)) with (length (pre ++ [c])) by (rewrite length_app; cbn; lia).
    rewrite (app_assoc pre), (IH fuel (pre ++ [c]) mid post Hs ltac:(lia) ltac:(lia)), <- app_assoc, length_app. cbn [length app].
    by replace (length pre + 1 + length s)%nat with (length pre + S (length s))%nat by lia.
Qed.

(** ** Room for any bytes *)

(** What [strlen8to16_loop] adds for [t]. *)
Fixpoint jlen (t : list Z) (e : Z) : nat :=
  match t with
  | [] => 0
  | b :: t =>
    if is_cont b then (if (e <=? 0)%Z then 1 else 0) + jlen t (e - 1)
    else (if utf8_codepoint_len b =? 4 then 2 else 1) + jlen t (Z.of_nat (utf8_codepoint_len b) - 1)
  end%nat.

Lemma len_bounds b : 0 < b < 256 -> (1 <= utf8_codepoint_len b <= 4)%nat.
Proof. intros Hb. rewrite codepoint_len_ok by lia. repeat case_match; lia. Qed.

Lemma strlen_jlen rest t : forall k e,
  text t -> Z.of_nat (length t) < 2 ^ 31 -> - 2 ^ 31 + Z.of_nat (length t) < e <= 3 ->
  strlen8to16_loop (t ++ 0 :: rest) k e = Ok (k + jlen t e)%nat.
Proof.
  induction t as [|b t IH]; intros k e Ht Hl He; [cbn; by rewrite char_int_zero, Nat.add_0_r by lia|].
  apply Forall_cons in Ht as [Hb Ht]. pose proof (len_bounds b Hb). cbn [length jlen app] in *. destruct (is_cont b) eqn:E.
  - rewrite strlen_cont by (done || lia). rewrite IH by (done || lia). f_equal. case_match; lia.
  - rewrite strlen_lead by (done || lia). rewrite IH by (done || lia). f_equal. lia.
Qed.

(** A place where a character starts, for [strcpy8to16] and for the count [e]
    of [strlen8to16]. *)
Definition boundary (t : list Z) (e : Z) : Prop :=
  e <= 0 \/ match t with [] => True | b :: _ => is_cont b = false end.

Lemma follow_fits rest n : forall t ret,
  text t -> (n <= 3)%nat -> 0 <= ret -> (ret + 1) * 64 ^ Z.of_nat n <= 2 ^ 26 ->
  exists v t' e, follow_loop n (t ++ 0 :: rest) ret = Ok (v, t' ++ 0 :: rest) /\ text t' /\ (length t' <= length t)%nat /\
    jlen t (Z.of_nat n) = jlen t' e /\ 0 <= e <= 3 /\ boundary t' e /\
    (v = UTF16_REPLACEMENT_CHAR \/ 0 <= v < (ret + 1) * 64 ^ Z.of_nat n).
Proof.
  induction n as [|n IH]; intros t ret Ht Hn Hr Hb.
  - exists ret, t, 0. unfold boundary. split; [done|]. repeat split; try lia; try done.
  - replace (Z.of_nat (S n)) with (Z.of_nat n + 1) in * by lia. rewrite Z.pow_add_r in * by lia.
    assert (1 <= 64 ^ Z.of_nat n) by (apply (Z.pow_le_mono_r 64 0); lia).
    destruct t as [|x t].
    + exists UTF16_REPLACEMENT_CHAR, [], (Z.of_nat n + 1). cbn [app follow_loop]. unfold rd. cbn [lookup list_lookup obind].
      rewrite char_int_zero by lia. unfold boundary. repeat split; try lia; try done; auto.
    + apply Forall_cons in Ht as [Hx Ht]. cbn [app length jlen]. rewrite follow_next by nia. destruct (is_cont x) eqn:E.
      * pose proof (Z.mod_pos_bound x 64 ltac:(lia)).
        destruct (IH t (ret * 64 + x mod 64) Ht ltac:(lia) ltac:(lia) ltac:(nia)) as (v & t' & e & -> & Ht' & Hl & Hj & He & Hbd & Hv).
        exists v, t', e. split; [done|]. rewrite (proj2 (Z.leb_gt _ 0)), Z.add_simpl_r by lia.
        split; [done|]. split; [lia|]. repeat split; try done; try lia. destruct Hv as [->|Hv]; [by left|right; nia].
      * exists UTF16_REPLACEMENT_CHAR, (x :: t), (Z.of_nat n + 1). split; [done|]. split; [by apply Forall_cons|].
        cbn [length jlen]. rewrite E. unfold boundary. repeat split; try lia; auto.
Qed.

Lemma put_utf16_fits buf dest v w :
  (1 <= w)%nat -> v <= 0xffff \/ w = 2%nat -> (dest + w <= length buf)%nat ->
  exists out d, put_utf16 buf dest v = Ok (out, d) /\ (dest < d <= dest + w)%nat /\ length out = length buf /\ drop d out = drop d buf.
Proof.
  intros Hw Hv Hl. unfold put_utf16, wr.
  destruct (Z.leb_spec v 0xffff), (Z.leb_spec v UNICODE_UPPER_LIMIT); rewrite ?(proj2 (Nat.ltb_lt dest (length buf))) by lia; cbn [obind];
    try rewrite length_insert, (proj2 (Nat.ltb_lt (S dest) (length buf))) by lia; cbn [obind].
  all: eexists _, _; split; [reflexivity|]; rewrite !length_insert; repeat split; try lia; by rewrite !drop_insert_lt by lia.
Qed.

(** One character: [w] is the room [strlen8to16] counts for it. *)
Lemma get_fits rest b t e :
  text (b :: t) -> boundary (b :: t) e -> - 2 ^ 31 + Z.of_nat (S (length t)) < e <= 3 ->
  exists v t' e' w, getUtf32FromUtf8 ((b :: t) ++ 0 :: rest) = Ok (v, t' ++ 0 :: rest) /\ text t' /\ (length t' <= length t)%nat /\
    jlen (b :: t) e = (w + jlen t' e')%nat /\ (e' <= 3 /\ (0 <= e' \/ e' = e - 1 /\ t' = t)) /\ boundary t' e' /\
    (1 <= w)%nat /\ (v <= 0xffff \/ w = 2%nat).
Proof.
  intros Ht Hbd He. apply Forall_cons in Ht as [Hb Ht]. cbn [jlen app]. destruct (is_cont b) eqn:E.
  - destruct Hbd as [Hbd|Hbd]; [|congruence]. exists UTF16_REPLACEMENT_CHAR, t, (e - 1), 1%nat.
    unfold getUtf32FromUtf8, rd. cbn [lookup list_lookup obind tail]. rewrite cont_test, E, (proj2 (Z.leb_le e 0)) by lia.
    unfold boundary, UTF16_REPLACEMENT_CHAR. repeat split; try done; try lia; auto with lia.
  - destruct (get_first b (t ++ 0 :: rest) Hb E) as [-> Hr]. pose proof (len_bounds b Hb).
    assert (Hlim : (leader b + 1) * 64 ^ Z.of_nat (utf8_codepoint_len b - 1) <= (if (utf8_codepoint_len b =? 4)%nat then 2 ^ 21 else 2 ^ 16)).
    { unfold leader. unfold is_cont in E. rewrite codepoint_len_ok by lia. pose proof (Z.mod_pos_bound b (2 ^ 5)).
      pose proof (Z.mod_pos_bound b (2 ^ 4)). pose proof (Z.mod_pos_bound b (2 ^ 3)). repeat case_match; cbn in *; lia. }
    destruct (follow_fits rest (utf8_codepoint_len b - 1) t (leader b) Ht) as (v & t' & e' & -> & Ht' & Hl & Hj & He' & Hbd' & Hv);
      [lia|lia|case_match; lia|].
    exists v, t', e', (if (utf8_codepoint_len b =? 4)%nat then 2 else 1)%nat. split; [done|].
    replace (Z.of_nat (utf8_codepoint_len b) - 1) with (Z.of_nat (utf8_codepoint_len b - 1)) by lia. rewrite Hj.
    unfold UTF16_REPLACEMENT_CHAR in Hv. repeat split; try done; try lia; case_match; try lia; auto with lia.
Qed.

Lemma strcpy8to16_loop_fits rest fuel : forall t e buf dest,
  text t -> (length t <= fuel)%nat -> Z.of_nat (length t) < 2 ^ 31 -> - 2 ^ 31 + Z.of_nat (length t) < e <= 3 ->
  boundary t e -> (dest + jlen t e <= length buf)%nat ->
  exists out d, strcpy8to16_loop fuel (t ++ 0 :: rest) buf dest = Ok (out, d) /\
    (dest <= d <= dest + jlen t e)%nat /\ length out = length buf /\ drop d out = drop d buf.
Proof.
  induction fuel as [|fuel IH]; intros [|b t] e buf dest Ht Hf Hl He Hbd Hroom; try (cbn in Hf; lia).
  1-2: exists buf, dest; cbn; rewrite char_int_zero by lia; repeat split; lia.
  destruct (get_fits rest b t e Ht Hbd He) as (v & t' & e' & w & Hg & Ht' & Hlt & Hj & (He' & Hlow) & Hbd' & Hw & Hv).
  cbn [strcpy8to16_loop length] in *. pose proof (Forall_inv Ht) as Hb. cbn in Hb.
  replace (rd ((b :: t) ++ 0 :: rest) 0) with (Ok b) by done. cbn [obind].
  rewrite char_int_zero, (proj2 (Z.eqb_neq b 0)), Hg by lia. cbn [obind fst snd].
  destruct (put_utf16_fits buf dest v w Hw Hv ltac:(lia)) as (out & d & -> & Hd & Hlen & Hdrop). cbn [obind fst snd].
  destruct (IH t' e' out d Ht') as (out' & d' & -> & Hd' & Hlen' & Hdrop'); try lia; try done.
  exists out', d'. repeat split; try lia. rewrite Hdrop'. replace d' with (d + (d' - d))%nat by lia.
  by rewrite <- !drop_drop, Hdrop.
Qed.

Lemma put_utf16_cases buf dest v :
  put_utf16 buf dest v = UB \/
  exists out d, put_utf16 buf dest v = Ok (out, d) /\ (dest < d <= length buf)%nat /\ length out = length buf.
Proof.
  unfold put_utf16, wr.
  destruct (Z.leb_spec v 0xffff), (Z.leb_spec v UNICODE_UPPER_LIMIT), (Nat.ltb_spec dest (length buf)); cbn [obind]; try (by left).
  all: try (rewrite length_insert; destruct (Nat.ltb_spec (S dest) (length buf)); cbn [obind]; [|by left]).
  all: right; eexists _, _; split; [reflexivity|]; rewrite !length_insert; lia.
Qed.

Lemma strcpylen8to16_loop_stuck rest fuel : forall t n buf dest,
  text t -> Z.of_nat (length t) < 2 ^ 30 -> Z.of_nat (length t) < n -> (dest <= length buf < dest + fuel)%nat ->
  strcpylen8to16_loop fuel (t ++ 0 :: rest) n buf dest = UB.
Proof.
  induction fuel as [|fuel IH]; intros t n buf dest Ht Hl Hn Hf; [lia|].
  cbn [strcpylen8to16_loop]. rewrite (proj2 (Z.ltb_lt 0 n)) by lia.
  assert (Hg : exists v t', getUtf32FromUtf8 (t ++ 0 :: rest) = Ok (v, t' ++ 0 :: rest) /\ text t' /\ (length t' <= length t)%nat).
  { destruct t as [|b t]; [|destruct (get_fits rest b t 0 Ht) as (v & t' & _ & _ & -> & Ht' & Hlt & _); try (cbn [length] in *; lia); [by left|]].
    - exists 0, []. unfold getUtf32FromUtf8, leaderMask, char_int. cbn. by destruct char_signed.
    - exists v, t'. cbn [length]. split; [done|]. split; [done|lia]. }
  destruct Hg as (v & t' & -> & Ht' & Hlt). cbn [obind fst snd].
  destruct (put_utf16_cases buf dest v) as [->|(out & d & -> & Hd & Hlen)]; [done|]. cbn [obind fst snd].
  apply IH; rewrite ?length_app; try done; lia.
Qed.

(** ** The theorems *)

(** C28: [strlen8to16] is enough room for [strcpy8to16], whatever the bytes
    are: valid or not, for any text of less than 2^31 bytes the measure is
    defined, and copying into a buffer with that many characters neither writes
    past them nor reads past the text; it writes at most as many characters as
    were measured and leaves the rest of the buffer alone. *)
Theorem strcpy8to16_fits t rest buf :
  text t -> Z.of_nat (length t) < 2 ^ 31 ->
  exists n, strlen8to16 (t ++ 0 :: rest) = Ok n /\
    ((n <= length buf)%nat ->
     exists out d, strcpy8to16 buf (t ++ 0 :: rest) = Ok (out, d) /\ (d <= n)%nat /\
       length out = length buf /\ drop d out = drop d buf).
Proof.
  intros Ht Hl. exists (jlen t 0). split; [apply (strlen_jlen rest t 0 0 Ht Hl); lia|]. intros Hroom.
  destruct (strcpy8to16_loop_fits rest (length (t ++ 0 :: rest)) t 0 buf 0 Ht) as (out & d & E & Hd & Hlen & Hdrop);
    try (rewrite ?length_app; lia); [by left|].
  exists out, d. repeat split; try done; lia.
Qed.

(** [strcpylen8to16] never gets past a NUL among its [n] bytes: it writes zeros
    until it has left the buffer, however large that is. *)
Theorem strcpylen8to16_nul t rest buf n :
  text t -> Z.of_nat (length t) < 2 ^ 30 -> Z.of_nat (length t) < n -> strcpylen8to16 buf (t ++ 0 :: rest) n = UB.
Proof. intros Ht Hl Hn. apply strcpylen8to16_loop_stuck; try done. lia. Qed.

(** C27: A Java string survives the trip to modified UTF-8 and back.  For any
    UTF-16 text, with NULs and lone surrogates, and an allocator that gives
    buffers of the size asked for, [strndup16to8] gives the NUL-terminated
    modified UTF-8 of it, which holds no other NUL, and [strdup8to16] of that
    gives exactly the characters back, with their number. *)
Theorem jstring_roundtrip (malloc : nat -> option (list Z)) (s : list Z) :
  (forall n, exists buf, malloc n = Some buf /\ length buf = n) ->
  chars16 s -> Z.of_nat (length s) < 2 ^ 29 ->
  strndup16to8 malloc (Some s) (length s) = Ok (Some (jutf8 s ++ [0])) /\ text (jutf8 s) /\
  strdup8to16 malloc (Some (jutf8 s ++ [0])) = Ok (Some s, Some (length s)).
Proof.
  intros Hm Hs Hl. pose proof (length_jutf8 s Hs) as Hj. split; [|split].
  - unfold strndup16to8. rewrite strnlen16to8_ok, firstn_all by (done || lia). cbn [obind]. unfold SIZE_MAX.
    rewrite (proj2 (Z.leb_gt _ _)) by lia. destruct (Hm (Z.to_nat (Z.of_nat (length (jutf8 s)) + 1))) as (buf & -> & Hb).
    rewrite strncpy16to8_ok, firstn_all by (done || rewrite firstn_all; lia). cbn [obind]. rewrite drop_ge by lia. done.
  - clear Hl Hj. induction Hs as [|c s Hc Hs IH]; [constructor|]. unfold jutf8, text in *. rewrite bind_cons, Forall_app. split; [|done].
    pose proof (cont_range c). pose proof (cont_range (c / 2 ^ 6)).
    destruct (jenc_cases c Hc) as [(Hr & ->)|[(Hr & ->)|(Hr & ->)]]; repeat constructor; cbn beta; try (Z.to_euclidean_division_equations; lia).
  - unfold strdup8to16, strlen8to16. rewrite strlen_jutf8 by done. cbn [obind Nat.add]. unfold SIZE_MAX.
    replace (negb _ && _) with false by (symmetry; apply andb_false_iff; destruct (Nat.eqb_spec (length s) 0); [by left|right];
      apply Z.ltb_ge, Z.div_le_lower_bound; lia).
    destruct (Hm (length s)) as (buf & -> & Hb). unfold strcpy8to16. change (default [] (Some buf)) with buf.
    pose proof (strcpy8to16_jutf8 s [] (length (jutf8 s ++ [0])) [] buf [] Hs) as E. rewrite app_nil_r in E. cbn [app length Nat.add] in E.
    rewrite E; [cbn; by rewrite app_nil_r| |done]. rewrite length_app.
    clear. induction s as [|c s IH]; [cbn; lia|]. unfold jutf8 in *. rewrite bind_cons, length_app. cbn [length] in *.
    enough (1 <= length (jenc c))%nat by lia. unfold jenc. repeat case_match; cbn; lia.
Qed.
End Chars.

(** ** Witnesses *)

#[local] Instance signed_chars : Platform := {| char_signed := true |}.

(** A lead byte of four bytes with one to follow, then a stray byte. *)
Lemma strcpy8to16_fits_witness :
  exists out d, strcpy8to16 (replicate 5 7) ([0xF0; 0x9F; 0x41; 0x80] ++ [0]) = Ok (out, d) /\ (d <= 4)%nat /\
    length out = 5%nat /\ drop d out = drop d (replicate 5 7).
Proof.
  destruct (strcpy8to16_fits [0xF0; 0x9F; 0x41; 0x80] [] (replicate 5 7)) as (n & E & Hfit);
    [repeat constructor; lia|cbn; lia|].
  vm_compute in E. injection E as <-. destruct Hfit as (out & d & E' & Hd & Hlen & Hdrop); [cbn; lia|].
  exists out, d. auto.
Defined.

(** "A", a NUL, a lone low surrogate, a pair. *)
Lemma jstring_roundtrip_witness :
  let malloc n := Some (replicate n 0) in
  let s := [0x41; 0; 0xDC00; 0xD83D; 0xDE00] in
  strdup8to16 malloc (Some (jutf8 s ++ [0])) = Ok (Some s, Some 5%nat).
Proof.
  intros malloc s. apply (jstring_roundtrip malloc s).
  - intros n. exists (replicate n 0). split; [done|]. apply length_replicate.
  - repeat constructor; lia.
  - cbn. lia.
Defined.
