(* ===== verification/P256Field.v ===== *)
(** * Field elements of P-256: limbs and their values

    The limb arithmetic of p256_ec.c computes in the integers modulo the prime
    of the field: sums, differences, small multiples, Montgomery products and
    the test for zero, each with the bounds on limbs its comment states. *)

From S2P Require Import Prelude Words P256 P256Props P256Ec.

#[local] Open Scope Z_scope.
#[local] Open Scope c_scope.

(** ** Values *)

(** The number that limbs stand for, the first one of an odd or even index. *)
Fixpoint fval (odd : bool) (l : list Z) : Z :=
  match l with
  | [] => 0
  | x :: l => x + 2 ^ width odd * fval (negb odd) l
  end.

(** Limbs with [e] bits more than their width. *)
Fixpoint bounded (e : Z) (odd : bool) (l : list Z) : Prop :=
  match l with
  | [] => True
  | x :: l => 0 <= x < 2 ^ (width odd + e) /\ bounded e (negb odd) l
  end.

(** What every operation takes and returns: even limbs below 2^30, odd ones
    below 2^29; and the last one below 2^29, as [felem_scalar_8] needs. *)
Definition tight (x : felem) : Prop := length x = NLIMBS /\ bounded 1 false x /\ nth 8 x 0 < 2 ^ 29.

Lemma width_cases odd : width odd = 28 \/ width odd = 29.
Proof. destruct odd; auto. Qed.

Lemma land_bottom odd x : Z.land x (bottom odd) = x mod 2 ^ width odd.
Proof. destruct odd; [exact (Z.land_ones x 28 ltac:(lia))|exact (Z.land_ones x 29 ltac:(lia))]. Qed.

Lemma land_28 x : Z.land x kBottom28Bits = x mod 2 ^ 28.
Proof. exact (Z.land_ones x 28 ltac:(lia)). Qed.

Lemma land_29 x : Z.land x kBottom29Bits = x mod 2 ^ 29.
Proof. exact (Z.land_ones x 29 ltac:(lia)). Qed.

Lemma u32_sub_l x y : u32 (u32 x - y) = u32 (x - y).
Proof. unfold u32. apply Zminus_mod_idemp_l. Qed.

Lemma u32_add_r x y : u32 (x + u32 y) = u32 (x + y).
Proof. unfold u32. apply Zplus_mod_idemp_r. Qed.

(** ** Carries *)

(** The index of the last of [n] limbs is odd. *)
Definition last_odd (odd : bool) (n : nat) : bool := xorb odd (Nat.even n).

Lemma last_odd_S odd n : last_odd odd (S (S n)) = last_odd (negb odd) (S n).
Proof. unfold last_odd. rewrite (Nat.even_succ (S _)), <- Nat.negb_even. by destruct odd, (Nat.even _). Qed.

Lemma carry_loop_ok terms : forall odd carry,
  terms <> [] -> Forall (fun t => 0 <= t < 2 ^ 32 - 16) terms -> 0 <= carry < 16 ->
  exists out c, carry_loop odd terms carry = (out, c) /\ length out = length terms /\ bounded 0 odd out /\
    0 <= c < 2 ^ (32 - width (last_odd odd (length terms))) /\ fval odd (out ++ [c]) = fval odd terms + carry.
Proof.
  induction terms as [|t terms IH]; intros odd carry Hne Ht Hc; [done|].
  apply Forall_cons in Ht as [Ht Hts]. cbn [carry_loop]. rewrite land_bottom, u32_small, Z.shiftr_div_pow2 by (destruct odd; cbn; lia).
  pose proof (Z.div_mod (t + carry) (2 ^ width odd)) as E. pose proof (Z.mod_pos_bound (t + carry) (2 ^ width odd)) as Hm.
  set (q := (t + carry) / 2 ^ width odd) in *. set (m := (t + carry) mod 2 ^ width odd) in *.
  destruct terms as [|t' terms].
  - exists [m], q. cbn [carry_loop fst snd length bounded fval app last_odd xorb]. repeat split; try (destruct odd; cbn in *; lia).
  - destruct (IH (negb odd) q) as (out & c & -> & Hl & Hb & Hq & Hv); [done|done|destruct odd; cbn in *; lia|].
    exists (m :: out), c. cbn [fst snd length bounded fval app] in *. rewrite Hv, Hl.
    rewrite last_odd_S. repeat split; try done; destruct odd; cbn [width negb] in *; lia.
Qed.

(** *** Masks *)

Lemma non_zero_mask x : 0 <= x <= 2 ^ 31 -> exists m, NON_ZERO_TO_ALL_ONES x = u32 (- m) /\ (m = 0 /\ x = 0 \/ m = 1 /\ 0 < x).
Proof.
  intros Hx. unfold NON_ZERO_TO_ALL_ONES. destruct (Z.eq_dec x 0) as [->|Hne]; [exists 0; split; [done|lia]|].
  exists 1. rewrite (u32_small (x - 1)), Z.shiftr_div_pow2, Z.div_small by lia. split; [done|lia].
Qed.

Definition R257 : Z := 2 ^ 257.

Ltac limbs9 l := destruct l as [|?x0 [|?x1 [|?x2 [|?x3 [|?x4 [|?x5 [|?x6 [|?x7 [|?x8 [|? ?]]]]]]]]]]; try discriminate.

Lemma fval_snoc9 l c : length l = NLIMBS -> fval false (l ++ [c]) = fval false l + c * R257.
Proof. intros Hl. limbs9 l. cbn [app fval negb width]. unfold R257. lia. Qed.

Lemma reduce_carry_ok l c :
  length l = NLIMBS -> bounded 0 false l -> 0 <= c <= 8 ->
  tight (felem_reduce_carry l c) /\ fval false (felem_reduce_carry l c) = fval false l + c * (R257 - 2 * prime_p).
Proof.
  intros Hl Hb Hc. unfold felem_reduce_carry. destruct (non_zero_mask c) as (m & -> & Hm); [lia|].
  limbs9 l. cbn [bounded negb width Z.add] in Hb.
  rewrite !land_mask by lia. unfold shl32. rewrite !Z.shiftl_mul_pow2, !(u32_small (c * _)) by lia.
  unfold add_at, sub_at. cbn [alter list_alter]. rewrite ?u32_add_l, ?u32_sub_l, ?u32_add_l.
  rewrite !u32_small by lia. unfold tight. cbn [length bounded fval negb width Z.add nth]. unfold R257, prime_p.
  split; [repeat split; lia|]. destruct Hm as [[-> ->]|[-> Hm]]; lia.
Qed.

#[local] Notation "x ≡ y" := (cong prime_p x y) (at level 70).

(** Limbs whose carries have been passed on and folded back. *)
Lemma folded_ok l c z :
  length l = NLIMBS -> bounded 0 false l -> 0 <= c <= 8 -> fval false (l ++ [c]) = z ->
  tight (felem_reduce_carry l c) /\ fval false (felem_reduce_carry l c) = z - c * (2 * prime_p).
Proof.
  intros Hl Hb Hc <-. destruct (reduce_carry_ok l c Hl Hb Hc) as [Ht ->]. split; [done|]. rewrite fval_snoc9 by done. lia.
Qed.

Lemma carried_ok terms :
  length terms = NLIMBS -> Forall (fun t => 0 <= t < 2 ^ 32 - 16) terms ->
  let r := carry_loop false terms 0 in
  tight (felem_reduce_carry r.1 r.2) /\ 0 <= r.2 < 8 /\ length r.1 = NLIMBS /\ bounded 0 false r.1 /\
  fval false r.1 + r.2 * R257 = fval false terms /\
  fval false (felem_reduce_carry r.1 r.2) = fval false terms - r.2 * (2 * prime_p).
Proof.
  intros Hl Ht. destruct (carry_loop_ok terms false 0) as (out & c & -> & Hlen & Hb & Hc & Hv); [by limbs9 terms|done|lia|].
  rewrite Hl in *. change (0 <= c < 8) in Hc. rewrite fval_snoc9 in Hv by done. destruct (folded_ok out c (fval false terms)) as [H1 H2]; [done|done|lia|rewrite fval_snoc9 by done; lia|].
  cbn [fst snd]. split; [done|]. repeat split; try done; lia.
Qed.

(** The value of a limb-wise combination. *)
Ltac tight_limbs H x := destruct H as (H & ?Hb & ?H8); limbs9 x; cbn [bounded negb width Z.add nth] in *.

Lemma minus_multiple z q : z - q * (2 * prime_p) ≡ z.
Proof. exists (- (2 * q)). generalize prime_p. intros p. ring. Qed.

Lemma terms_ok terms z :
  length terms = NLIMBS -> Forall (fun t => 0 <= t < 2 ^ 32 - 16) terms -> fval false terms ≡ z ->
  let r := carry_loop false terms 0 in
  tight (felem_reduce_carry r.1 r.2) /\ fval false (felem_reduce_carry r.1 r.2) ≡ z.
Proof.
  intros Hl Hb Hz. cbn zeta. destruct (carried_ok terms Hl Hb) as (Ht & _ & _ & _ & _ & E). split; [done|].
  rewrite E, minus_multiple. done.
Qed.

Ltac terms_by_limbs :=
  apply terms_ok; [done|rewrite !Forall_cons, Forall_nil; lia|cbn [fval negb width]].

Lemma felem_sum_ok a b : tight a -> tight b -> tight (felem_sum a b) /\ fval false (felem_sum a b) ≡ fval false a + fval false b.
Proof.
  intros Ha Hb. tight_limbs Ha a. tight_limbs Hb b. unfold felem_sum. cbn [zip_with]. rewrite !u32_small by lia. terms_by_limbs.
  match goal with |- ?x ≡ ?y => replace x with y by lia end. done.
Qed.

Lemma zero31_multiple : fval false zero31 = 8 * prime_p.
Proof. vm_compute. reflexivity. Qed.

Lemma felem_diff_ok a b : tight a -> tight b -> tight (felem_diff a b) /\ fval false (felem_diff a b) ≡ fval false a - fval false b.
Proof.
  intros Ha Hb. tight_limbs Ha a. tight_limbs Hb b. unfold felem_diff. cbn [zip_with zero31]. rewrite !u32_add_l.
  unfold two31m3, two30m2, two30p13m2, two31m2, two31p24m2, two30m27m2. rewrite !u32_small by lia. terms_by_limbs.
  exists 8. rewrite <- zero31_multiple. vm_compute (fval false zero31). lia.
Qed.

Lemma felem_scalar_3_ok a : tight a -> tight (felem_scalar_3 a) /\ fval false (felem_scalar_3 a) ≡ 3 * fval false a.
Proof.
  intros Ha. tight_limbs Ha a. unfold felem_scalar_3. cbn [map]. rewrite !u32_small by lia. terms_by_limbs.
  match goal with |- ?x ≡ ?y => replace x with y by lia end. done.
Qed.

(** One limb of [scale_loop]. *)
Lemma scale_step k odd x carry :
  k = 2 \/ k = 3 -> 0 <= x < 2 ^ (width odd + 1) -> 0 <= carry <= 2 ^ (k + 1) ->
  let w := u32 (Z.land (shl32 x k) (bottom odd) + carry) in
  let c := u32 (Z.shiftr x (width odd - k) + Z.shiftr w (width odd)) in
  0 <= Z.land w (bottom odd) < 2 ^ width odd /\ x / 2 ^ (width odd - k) <= c <= x / 2 ^ (width odd - k) + 1 /\
  Z.land w (bottom odd) + 2 ^ width odd * c = 2 ^ k * x + carry.
Proof.
  intros Hk Hx Hc. cbn zeta. unfold shl32. rewrite !land_bottom, !Z.shiftr_div_pow2, Z.shiftl_mul_pow2 by (destruct odd; cbn; lia).
  rewrite (u32_small (_ mod _ + _)), (u32_small (_ / _ + _)) by (unfold u32; destruct odd, Hk as [-> | ->]; cbn [width] in *; Z.to_euclidean_division_equations; lia).
  unfold u32. destruct odd, Hk as [-> | ->]; cbn [width] in *; Z.to_euclidean_division_equations; lia.
Qed.

Lemma scale_loop_ok k l : k = 2 \/ k = 3 -> forall odd carry,
  l <> [] -> bounded 1 odd l -> 0 <= carry <= 2 ^ (k + 1) ->
  exists out c, scale_loop k odd l carry = (out, c) /\ length out = length l /\ bounded 0 odd out /\
    0 <= c <= nth (length l - 1) l 0 / 2 ^ (width (last_odd odd (length l)) - k) + 1 /\
    fval odd (out ++ [c]) = 2 ^ k * fval odd l + carry.
Proof.
  intros Hk. induction l as [|x l IH]; intros odd carry Hne Hb Hc; [done|]. destruct Hb as [Hx Hb].
  cbn [scale_loop]. destruct (scale_step k odd x carry Hk Hx Hc) as (H1 & H2 & H3).
  set (w := Z.land _ (bottom odd)) in *. set (c := u32 (Z.shiftr x _ + _)) in *.
  assert (Hc' : 0 <= x / 2 ^ (width odd - k) < 2 ^ (k + 1)).
  { split; [apply Z.div_pos; [lia|destruct odd, Hk as [-> | ->]; done]|]. apply Z.div_lt_upper_bound; [destruct odd, Hk as [-> | ->]; done|].
    rewrite <- Z.pow_add_r by (destruct odd, Hk as [-> | ->]; cbn; lia). replace (width odd - k + (k + 1)) with (width odd + 1) by lia. lia. }
  destruct l as [|y l].
  - exists [w], c. cbn [scale_loop fst snd length bounded fval app nth Nat.sub]. replace (last_odd odd 1) with odd by (by destruct odd).
    rewrite !Z.add_0_r. repeat split; try lia.
  - destruct (IH (negb odd) c) as (out & c' & -> & Hl & Hb' & Hc2 & Hv); [done|done|lia|].
    exists (w :: out), c'. cbn [fst snd length bounded fval app nth Nat.sub] in *. rewrite Hl, Hv, last_odd_S, Z.add_0_r.
    rewrite Nat.sub_0_r in Hc2. repeat split; try done; try lia.
Qed.

Lemma scaled_ok k a : k = 2 \/ k = 3 -> tight a ->
  let r := scale_loop k false a 0 in
  tight (felem_reduce_carry r.1 r.2) /\ fval false (felem_reduce_carry r.1 r.2) ≡ 2 ^ k * fval false a.
Proof.
  intros Hk (Hl & Hb & H8). destruct (scale_loop_ok k a Hk false 0) as (out & c & -> & Hlen & Hb' & Hc & Hv);
    [by limbs9 a|done|destruct Hk as [-> | ->]; lia|].
  rewrite Hl in *. cbn [fst snd].
  destruct (folded_ok out c (2 ^ k * fval false a)) as [H1 H2]; [done|done| |lia|split; [done|rewrite H2; apply minus_multiple]].
  split; [lia|]. destruct Hc as [_ Hc]. change (nth (NLIMBS - 1) a 0) with (nth 8 a 0) in Hc.
  change (width (last_odd false NLIMBS)) with 29 in Hc. destruct Hk as [-> | ->]; Z.to_euclidean_division_equations; lia.
Qed.

Lemma felem_scalar_4_ok a : tight a -> tight (felem_scalar_4 a) /\ fval false (felem_scalar_4 a) ≡ 4 * fval false a.
Proof. apply (scaled_ok 2). auto. Qed.

Lemma felem_scalar_8_ok a : tight a -> tight (felem_scalar_8 a) /\ fval false (felem_scalar_8 a) ≡ 8 * fval false a.
Proof. apply (scaled_ok 3). auto. Qed.

(** ** The test for zero *)

Lemma fval_range odd l : bounded 0 odd l -> 0 <= fval odd l.
Proof. revert odd. induction l as [|x l IH]; intros odd; cbn [bounded fval]; [lia|]. intros [Hx Hb]. specialize (IH _ Hb). destruct odd; cbn [width] in *; lia. Qed.

Lemma fval_inj l : forall odd k, length l = length k -> bounded 0 odd l -> bounded 0 odd k -> fval odd l = fval odd k -> l = k.
Proof.
  induction l as [|x l IH]; intros odd [|y k] Hl Hb Hk E; try done. destruct Hb as [Hx Hb], Hk as [Hy Hk]. cbn [fval] in E.
  rewrite Z.add_0_r in *. assert (x = y) as -> by (destruct odd; cbn [width] in *; lia).
  f_equal. apply (IH (negb odd)); try done; [by injection Hl|]. destruct odd; cbn [width] in *; lia.
Qed.

Lemma canonical_range l : length l = NLIMBS -> bounded 0 false l -> 0 <= fval false l < R257.
Proof. intros Hl Hb. limbs9 l. cbn [bounded fval negb width Z.add] in *. unfold R257. lia. Qed.

Lemma tight_range l : tight l -> 0 <= fval false l < R257 + 2 ^ 231.
Proof. intros Hl. tight_limbs Hl l. cbn [fval negb width]. unfold R257. lia. Qed.

Lemma reduce_carry_0 l : length l = NLIMBS -> bounded 0 false l -> felem_reduce_carry l 0 = l.
Proof.
  intros Hl Hb. limbs9 l. cbn [bounded negb width Z.add] in Hb. unfold felem_reduce_carry, add_at, sub_at.
  change (NON_ZERO_TO_ALL_ONES 0) with 0. rewrite !Z.land_0_r. change (shl32 0 _) with 0.
  cbn [alter list_alter]. rewrite ?Z.add_0_r, ?Z.sub_0_r. rewrite ?Z.add_0_r, ?Z.sub_0_r, !u32_idem, !u32_small by lia. done.
Qed.

Lemma tight_terms a : tight a -> length a = NLIMBS /\ Forall (fun t => 0 <= t < 2 ^ 32 - 16) a.
Proof. intros Ha. split; [apply Ha|]. tight_limbs Ha a. rewrite !Forall_cons, Forall_nil. lia. Qed.

Lemma minimal_loop_ok fuel : forall a, tight a -> fval false a < R257 + 2 * prime_p * Z.of_nat fuel ->
  exists out, minimal_loop (S fuel) a = Ok out /\ length out = NLIMBS /\ bounded 0 false out /\ fval false out ≡ fval false a.
Proof.
  induction fuel as [|fuel IH]; intros a Ha Hlt; destruct (tight_terms a Ha) as [Hl Hb];
    destruct (carried_ok a Hl Hb) as (Ht & Hc & Hlen & Hbo & Hv & E); pose proof (fval_range _ _ Hbo) as H0;
    set (r := carry_loop false a 0) in *; cbn [minimal_loop]; fold r; destruct (Z.eqb_spec r.2 0) as [Ez|Hne].
  1, 3: exists r.1; rewrite Ez, reduce_carry_0 by done; repeat split; try done; replace (fval false a) with (fval false r.1) by lia; done.
  - unfold R257 in *. lia.
  - destruct (IH (felem_reduce_carry r.1 r.2) Ht) as (out & Hout & Hlo & Hb2 & Ho).
    { pose proof (Z.mul_le_mono_nonneg_r 1 r.2 (2 * prime_p) ltac:(done) ltac:(lia)). rewrite E. lia. }
    exists out. repeat split; try done. rewrite Ho, E. apply minus_multiple.
Qed.

Lemma prime_p_bounds : 2 ^ 255 < prime_p < 2 ^ 256 /\ 2 * prime_p < R257 < 3 * prime_p.
Proof. repeat split; vm_compute; reflexivity. Qed.

Lemma zero_values z : 0 <= z < R257 -> z ≡ 0 <-> z = 0 \/ z = prime_p \/ z = 2 * prime_p.
Proof.
  pose proof prime_p_bounds as Hp. unfold cong. revert Hp. generalize prime_p. intros p Hp Hz. rewrite Z.sub_0_r. split.
  - intros [q ->]. assert (0 <= q <= 2) as Hq by nia. assert (q = 0 \/ q = 1 \/ q = 2) as [-> | [-> | ->]] by lia; lia.
  - intros [-> | [-> | ->]]; [exists 0|exists 1|exists 2]; lia.
Qed.

Lemma fval_kZero : fval false kZero = 0.
Proof. vm_compute. reflexivity. Qed.
Lemma fval_kP : fval false kP = prime_p.
Proof. vm_compute. reflexivity. Qed.
Lemma fval_k2P : fval false k2P = 2 * prime_p.
Proof. vm_compute. reflexivity. Qed.

Lemma felem_is_zero_ok a : tight a -> exists b, felem_is_zero_vartime a = Ok b /\ (b = true <-> fval false a ≡ 0).
Proof.
  intros Ha. pose proof (tight_range a Ha). unfold felem_is_zero_vartime, felem_assign.
  destruct (minimal_loop_ok 4 a Ha) as (out & -> & Hl & Hb & E); [pose proof prime_p_bounds; lia|].
  cbn [obind]. eexists. split; [reflexivity|]. rewrite <- E, zero_values by (by apply canonical_range).
  rewrite <- fval_k2P, <- fval_kP, !orb_true_iff, !bool_decide_eq_true.
  assert (forall k, length k = NLIMBS -> bounded 0 false k -> out = k <-> fval false out = fval false k) as Hi
    by (intros k Hk Hbk; split; [by intros ->|apply fval_inj; congruence]).
  rewrite !Hi, fval_kZero by (done || cbn; lia). tauto.
Qed.
