(* ===== verification/P256Mul.v ===== *)
(** * Field elements of P-256: Montgomery products

    [felem_reduce_degree] divides by 2^257 modulo the prime: the words of a
    product are cut to limbs, multiples of the prime clear the low nine of them,
    and the rest is shifted down.  The word that takes [(x >> 1) - 1] may go
    below zero in between; the carry into it makes that good before it is read. *)

From S2P Require Import Prelude Words P256 P256Props P256Ec P256Field.

#[local] Open Scope Z_scope.
#[local] Open Scope c_scope.

#[local] Notation "x ≡ y" := (cong prime_p x y) (at level 70).

(** ** Cutting words to limbs *)

(** The bits of a word above the [a] of its limb, as far as they belong to the
    next limb: [a + b = 57]. *)
Lemma upper_bits odd t :
  0 <= t < 2 ^ 64 ->
  let a := width (negb odd) in
  Z.shiftr (lo t) a + Z.land (shl32 (hi t) (if odd then 3 else 4)) (bottom odd) = (t / 2 ^ a) mod 2 ^ width odd.
Proof.
  intros Ht. cbn zeta. unfold lo, hi, shl32, u32. rewrite land_bottom, !Z.shiftr_div_pow2, Z.shiftl_mul_pow2 by (destruct odd; cbn; lia).
  destruct odd; cbn [negb width]; Z.to_euclidean_division_equations; lia.
Qed.

Lemma top_bits t : 0 <= t < 2 ^ 64 -> Z.shiftr (hi t) 25 = t / 2 ^ 57.
Proof. intros Ht. unfold hi, u32. rewrite !Z.shiftr_div_pow2 by lia. Z.to_euclidean_division_equations; lia. Qed.

Lemma low_bits odd t : Z.land (lo t) (bottom odd) = t mod 2 ^ width odd.
Proof. unfold lo, u32. rewrite land_bottom. destruct odd; cbn [width]; Z.to_euclidean_division_equations; lia. Qed.

Lemma u32_sum a b c d e : u32 (u32 (u32 (u32 (a + b) + c) + d) + e) = u32 (a + b + c + d + e).
Proof. by rewrite (u32_add_l (a + b)), (u32_add_l (a + b + c)), u32_add_l. Qed.

Lemma split_word odd t2 t1 t carry :
  0 <= t2 < 2 ^ 64 -> 0 <= t1 < 2 ^ 64 -> 0 <= carry < 8 ->
  u32 (u32 (u32 (u32 (Z.shiftr (hi t2) 25 + Z.shiftr (lo t1) (width (negb odd))) +
    Z.land (shl32 (hi t1) (if odd then 3 else 4)) (bottom odd)) + Z.land (lo t) (bottom odd)) + carry) =
  t2 / 2 ^ 57 + (t1 / 2 ^ width (negb odd)) mod 2 ^ width odd + t mod 2 ^ width odd + carry.
Proof.
  intros H2 H1 Hc. rewrite u32_sum, <- (Z.add_assoc (Z.shiftr (hi t2) 25)), upper_bits, top_bits, low_bits by done.
  assert (0 <= t2 / 2 ^ 57 < 2 ^ 7) by (Z.to_euclidean_division_equations; lia).
  pose proof (Z.mod_pos_bound (t1 / 2 ^ width (negb odd)) (2 ^ width odd)). pose proof (Z.mod_pos_bound t (2 ^ width odd)).
  apply u32_small. destruct odd; cbn [width negb] in *; lia.
Qed.

(** Where [n] words on is an odd index. *)
Definition odd_after (odd : bool) (n : nat) : bool := xorb odd (Nat.odd n).

Lemma split_loop_ok tmp : forall odd t2 t1 carry,
  Forall (fun t => 0 <= t < 2 ^ 64) (t2 :: t1 :: tmp) -> 0 <= carry < 8 ->
  exists ws c, split_loop odd t2 t1 tmp carry =
      (ws, (nth (length tmp) (t2 :: t1 :: tmp) 0, nth (S (length tmp)) (t2 :: t1 :: tmp) 0, c)) /\
    length ws = length tmp /\ bounded 0 odd ws /\ 0 <= c < 8 /\
    let odd' := odd_after odd (length tmp) in
    let t2' := nth (length tmp) (t2 :: t1 :: tmp) 0 in let t1' := nth (S (length tmp)) (t2 :: t1 :: tmp) 0 in
    fval odd (ws ++ [t2' / 2 ^ 57 + t1' / 2 ^ width (negb odd') + c]) =
      t2 / 2 ^ 57 + t1 / 2 ^ width (negb odd) + carry + fval odd tmp.
Proof.
  induction tmp as [|t tmp IH]; intros odd t2 t1 carry Ht Hc.
  - exists [], carry. cbn [split_loop length nth app fval bounded]. unfold odd_after. cbn. rewrite xorb_false_r. repeat split; try lia.
  - rewrite !Forall_cons in Ht. destruct Ht as (H2 & H1 & H0 & Ht). cbn [split_loop]. rewrite split_word, land_bottom, Z.shiftr_div_pow2 by (done || destruct odd; done).
    assert (Hq : 0 <= t2 / 2 ^ 57 < 2 ^ 7) by (Z.to_euclidean_division_equations; lia).
    pose proof (Z.mod_pos_bound (t1 / 2 ^ width (negb odd)) (2 ^ width odd)) as Hm1. pose proof (Z.mod_pos_bound t (2 ^ width odd)) as Hm2.
    set (w := t2 / 2 ^ 57 + (t1 / 2 ^ width (negb odd)) mod 2 ^ width odd + t mod 2 ^ width odd + carry) in *.
    pose proof (Z.div_mod w (2 ^ width odd)) as Ew. pose proof (Z.mod_pos_bound w (2 ^ width odd)) as Hw.
    pose proof (Z.div_mod (t1 / 2 ^ width (negb odd)) (2 ^ width odd)) as E1. pose proof (Z.div_mod t (2 ^ width odd)) as E0.
    destruct (IH (negb odd) t1 t (w / 2 ^ width odd)) as (ws & c & -> & Hl & Hb & Hc' & Hv);
      [rewrite !Forall_cons; tauto|destruct odd; cbn [width negb] in *; Z.to_euclidean_division_equations; lia|].
    exists (w mod 2 ^ width odd :: ws), c. cbn [fst snd length bounded app]. rewrite Hl, Z.add_0_r. split; [done|].
    split; [done|]. split; [split; [destruct odd; cbn [width] in *; lia|done]|]. split; [done|].
    replace (odd_after odd (S (length tmp))) with (odd_after (negb odd) (length tmp))
      by (unfold odd_after; rewrite Nat.odd_succ, <- Nat.negb_odd; by destruct odd, (Nat.odd _)).
    cbn zeta in *. cbn [fval]. change (nth (S (length tmp)) (t2 :: t1 :: t :: tmp) 0) with (nth (length tmp) (t1 :: t :: tmp) 0).
    change (nth (S (S (length tmp))) (t2 :: t1 :: t :: tmp) 0) with (nth (S (length tmp)) (t1 :: t :: tmp) 0).
    rewrite Hv, negb_involutive, Z.div_div in * by (destruct odd; done).
    replace (2 ^ width (negb odd) * 2 ^ width odd) with (2 ^ 57) in * by (destruct odd; done).
    destruct odd; cbn [width negb] in *; lia.
Qed.

Lemma first_word t0 t1 :
  0 <= t0 < 2 ^ 64 ->
  u32 (Z.lor (Z.shiftr (lo t0) 29) (Z.land (shl32 (hi t0) 3) kBottom28Bits) + Z.land (lo t1) kBottom28Bits) =
  (t0 / 2 ^ 29) mod 2 ^ 28 + t1 mod 2 ^ 28.
Proof.
  intros H0. rewrite Z.lor_comm, (lor_low _ _ 3).
  - rewrite Z.add_comm, Z.add_comm, (Z.add_comm (Z.land _ _) (Z.shiftr _ _)).
    change (Z.shiftr (lo t0) 29 + Z.land (shl32 (hi t0) 3) kBottom28Bits) with
      (Z.shiftr (lo t0) (width (negb true)) + Z.land (shl32 (hi t0) (if true then 3 else 4)) (bottom true)).
    change (Z.land (lo t1) kBottom28Bits) with (Z.land (lo t1) (bottom true)). rewrite upper_bits, low_bits by done.
    cbn [width negb]. apply u32_small. Z.to_euclidean_division_equations; lia.
  - lia.
  - rewrite land_28. unfold shl32, u32. rewrite Z.shiftl_mul_pow2 by lia. Z.to_euclidean_division_equations; lia.
  - unfold lo, u32. rewrite Z.shiftr_div_pow2 by lia. Z.to_euclidean_division_equations; lia.
Qed.

Lemma last_word t15 t16 c :
  0 <= t15 < 2 ^ 64 -> 0 <= t16 < 2 ^ 60 -> 0 <= c < 8 ->
  u32 (u32 (u32 (Z.shiftr (hi t15) 25 + Z.shiftr (lo t16) 29) + shl32 (hi t16) 3) + c) = t15 / 2 ^ 57 + t16 / 2 ^ 29 + c.
Proof.
  intros H15 H16 Hc. rewrite top_bits by done. unfold lo, hi, shl32.
  rewrite (u32_add_l (t15 / 2 ^ 57 + _)), u32_add_l, !Z.shiftr_div_pow2, Z.shiftl_mul_pow2 by lia. unfold u32.
  Z.to_euclidean_division_equations; lia.
Qed.

Lemma split_words_ok tmp :
  length tmp = 17%nat -> Forall (fun t => 0 <= t < 2 ^ 64) tmp -> nth 16 tmp 0 < 2 ^ 60 ->
  exists ws w17, split_words tmp = ws ++ [w17] /\ length ws = 17%nat /\ bounded 0 false ws /\ 0 <= w17 < 2 ^ 31 + 2 ^ 8 /\
    fval false (ws ++ [w17]) = fval false tmp.
Proof.
  intros Hl Ht H16. destruct tmp as [|t0 [|t1 tmp]]; try discriminate. assert (length tmp = 15%nat) as Hn by (by injection Hl).
  pose proof Ht as Hall. rewrite !Forall_cons in Ht. destruct Ht as (H0 & H1 & Ht).
  unfold split_words. rewrite first_word, Z.shiftr_div_pow2 by (done || lia).
  set (w1 := (t0 / 2 ^ 29) mod 2 ^ 28 + t1 mod 2 ^ 28) in *.
  assert (Hw1 : 0 <= w1 < 2 ^ 29) by (unfold w1; Z.to_euclidean_division_equations; lia).
  destruct (split_loop_ok tmp false t0 t1 (w1 / 2 ^ 28)) as (ws & c & -> & Hlen & Hb & Hc & Hv); [done|Z.to_euclidean_division_equations; lia|].
  rewrite Hn in *. cbn zeta in Hv. change (width (negb (odd_after false 15))) with 29 in Hv.
  set (t15 := nth 15 (t0 :: t1 :: tmp) 0) in *. set (t16 := nth 16 (t0 :: t1 :: tmp) 0) in *.
  assert (0 <= t15 < 2 ^ 64 /\ 0 <= t16 < 2 ^ 64) as [H15 H16'].
  { rewrite List.Forall_forall in Hall. split; apply Hall, nth_In; cbn [length]; lia. }
  rewrite last_word by lia. eexists (_ :: _ :: ws), _. split; [reflexivity|]. rewrite u32_small, land_29, land_28.
  2: { rewrite land_29. Z.to_euclidean_division_equations; lia. }
  cbn [length bounded negb width app fval]. rewrite Hlen. unfold w1 in *.
  assert (0 <= t15 / 2 ^ 57 < 2 ^ 7 /\ 0 <= t16 / 2 ^ 29 < 2 ^ 31) by (Z.to_euclidean_division_equations; lia).
  repeat split; try done; try lia; try (Z.to_euclidean_division_equations; lia).
  rewrite Hv. cbn [width negb]. replace (t0 / 2 ^ 57) with (t0 / 2 ^ 29 / 2 ^ 28) by (by rewrite Z.div_div by lia).
  pose proof (Z.div_mod t0 (2 ^ 29)). pose proof (Z.div_mod (t0 / 2 ^ 29) (2 ^ 28)). pose proof (Z.div_mod t1 (2 ^ 28)).
  pose proof (Z.div_mod ((t0 / 2 ^ 29) mod 2 ^ 28 + t1 mod 2 ^ 28) (2 ^ 28)). lia.
Qed.

(** ** Eliminating limbs *)

Lemma u32_cong x : cong (2 ^ 32) (u32 x) x.
Proof. by apply cong_mod_l. Qed.

Lemma u32_eq x y : cong (2 ^ 32) x y -> u32 x = u32 y.
Proof. by apply cong_mod. Qed.

Lemma add_at_app pre i d l : add_at (length pre + i) d (pre ++ l) = pre ++ add_at i d l.
Proof. apply alter_app_r. Qed.

Lemma sub_at_app pre i d l : sub_at (length pre + i) d (pre ++ l) = pre ++ sub_at i d l.
Proof. apply alter_app_r. Qed.

Lemma nth_app_0 (pre l : list Z) d : nth (length pre) (pre ++ l) d = nth 0 l d.
Proof. rewrite <- (Nat.add_0_r (length pre)). apply app_nth2_plus. Qed.

Lemma insert_app_0 (pre l : list Z) v : <[length pre := v]> (pre ++ l) = pre ++ <[0%nat := v]> l.
Proof. rewrite <- (Nat.add_0_r (length pre)). apply insert_app_r. Qed.

Ltac behind_prefix := repeat first [rewrite nth_app_0|rewrite app_nth2_plus|rewrite insert_app_0|rewrite insert_app_r|rewrite add_at_app|rewrite sub_at_app].

Lemma eliminate_even_app pre l : eliminate_even (length pre) (pre ++ l) = pre ++ eliminate_even 0 l.
Proof. unfold eliminate_even. cbv zeta. by behind_prefix. Qed.

Lemma eliminate_odd_app pre l : eliminate_odd (length pre) (pre ++ l) = pre ++ eliminate_odd 0 l.
Proof. unfold eliminate_odd. cbv zeta. by behind_prefix. Qed.

Lemma u32_mod y k : 0 <= k <= 32 -> u32 y mod 2 ^ k = y mod 2 ^ k.
Proof. intros Hk. apply Z.mod_mod_divide. exists (2 ^ (32 - k)). rewrite <- Z.pow_add_r by lia. f_equal. lia. Qed.

Ltac same_word := apply u32_eq; rewrite ?u32_cong; match goal with |- cong _ ?x ?y => replace x with y by lia end; reflexivity.

Lemma cons_eq (x y : Z) l k : x = y -> l = k -> x :: l = y :: k.
Proof. by intros -> ->. Qed.

Ltac same_words := repeat (apply cons_eq; [first [reflexivity|same_word]|]); reflexivity.

(** What the first half adds to the words behind the one it clears. *)
Lemma eliminate_even_ok t0 t1 t2 t3 t4 t5 t6 t7 t8 t9 rest :
  0 <= t0 < 2 ^ 32 ->
  exists x d3 d4 d6 d7 d8 d9,
    eliminate_even 0 (map u32 [t0; t1; t2; t3; t4; t5; t6; t7; t8; t9] ++ rest) =
      0 :: map u32 [t1 + t0 / 2 ^ 29; t2; t3 + d3; t4 + d4; t5; t6 + d6; t7 + d7; t8 + d8; t9 + d9] ++ rest /\
    x = t0 mod 2 ^ 29 /\
    (0 <= d3 < 2 ^ 28 /\ 0 <= d4 < 2 ^ 11 /\ 0 <= d6 < 2 ^ 29 /\ 0 <= d7 < 2 ^ 28 + 2 ^ 21 /\ 0 <= d8 < 2 ^ 30 /\
     -1 <= d9 < 2 ^ 28 /\ (d9 < 0 -> 2 ^ 29 <= d8)) /\
    d3 * 2 ^ 86 + d4 * 2 ^ 114 + d6 * 2 ^ 171 + d7 * 2 ^ 200 + d8 * 2 ^ 228 + d9 * 2 ^ 257 = x * (prime_p + 1).
Proof.
  intros H0. assert (Hx : 0 <= t0 mod 2 ^ 29 < 2 ^ 29) by (apply Z.mod_pos_bound; lia).
  unfold eliminate_even. cbv zeta. cbn [map app nth Nat.add add_at alter list_alter]. rewrite !land_29, (u32_small t0) by lia.
  set (x := t0 mod 2 ^ 29) in *. destruct (non_zero_mask x) as (m & -> & Hm); [lia|]. exists x.
  unfold add_at, sub_at. cbn [alter list_alter insert list_insert].
  rewrite !land_mask by (lia || apply u32_range). rewrite !land_28, !Z.shiftr_div_pow2 by lia.
  unfold shl32. rewrite !Z.shiftl_mul_pow2 by lia.
  rewrite !u32_mod by lia.
  exists ((x * 2 ^ 10) mod 2 ^ 28), (x / 2 ^ 18), ((x * 2 ^ 21) mod 2 ^ 29), (x / 2 ^ 8 + m * 2 ^ 28 - (x * 2 ^ 24) mod 2 ^ 28),
    (m * (x - 1) - x / 2 ^ 4 + m * 2 ^ 29 - x + (x * 2 ^ 28) mod 2 ^ 29), (m * (x / 2 ^ 1 - 1)).
  split; [same_words|]. split; [done|].
  split; [destruct Hm as [[-> ->]|[-> Hm]]; Z.to_euclidean_division_equations; lia|].
  unfold prime_p. destruct Hm as [[-> ->]|[-> Hm]]; [done|]. Z.to_euclidean_division_equations; lia.
Qed.

(** What the second half adds; its word is of an odd index. *)
Lemma eliminate_odd_ok t1 t2 t3 t4 t5 t6 t7 t8 t9 t10 rest :
  0 <= t1 < 2 ^ 32 ->
  exists x d4 d5 d7 d8 d9 d10,
    eliminate_odd 0 (0 :: map u32 [t1; t2; t3; t4; t5; t6; t7; t8; t9; t10] ++ rest) =
      0 :: 0 :: map u32 [t2 + t1 / 2 ^ 28; t3; t4 + d4; t5 + d5; t6; t7 + d7; t8 + d8; t9 + d9; t10 + d10] ++ rest /\
    x = t1 mod 2 ^ 28 /\
    (0 <= d4 < 2 ^ 29 /\ 0 <= d5 < 2 ^ 10 /\ 0 <= d7 < 2 ^ 28 /\ 0 <= d8 < 2 ^ 29 + 2 ^ 21 /\ 0 <= d9 < 2 ^ 28 /\ 0 <= d10 < 2 ^ 28) /\
    d4 * 2 ^ 85 + d5 * 2 ^ 114 + d7 * 2 ^ 171 + d8 * 2 ^ 199 + d9 * 2 ^ 228 + d10 * 2 ^ 256 = x * (prime_p + 1).
Proof.
  intros H1. assert (Hx : 0 <= t1 mod 2 ^ 28 < 2 ^ 28) by (apply Z.mod_pos_bound; lia).
  unfold eliminate_odd. cbv zeta. cbn [map app nth Nat.add add_at alter list_alter]. rewrite !land_28, (u32_small t1) by lia.
  set (x := t1 mod 2 ^ 28) in *. destruct (non_zero_mask x) as (m & -> & Hm); [lia|]. exists x.
  unfold add_at, sub_at. cbn [alter list_alter insert list_insert].
  rewrite !land_mask by (lia || apply u32_range). rewrite !land_29, !Z.shiftr_div_pow2 by lia.
  unfold shl32. rewrite !Z.shiftl_mul_pow2, !u32_mod by lia.
  exists ((x * 2 ^ 11) mod 2 ^ 29), (x / 2 ^ 18), ((x * 2 ^ 21) mod 2 ^ 28), (x / 2 ^ 7 + m * 2 ^ 29 - (x * 2 ^ 25) mod 2 ^ 29),
    (m * (x - 1) - x / 2 ^ 4 + m * 2 ^ 28 - x), (m * (x - 1)).
  split; [same_words|]. split; [done|].
  split; [destruct Hm as [[-> ->]|[-> Hm]]; Z.to_euclidean_division_equations; lia|].
  unfold prime_p. destruct Hm as [[-> ->]|[-> Hm]]; [done|]. Z.to_euclidean_division_equations; lia.
Qed.

(** Both halves, on a window of eleven words: [t] becomes [s]. *)
Lemma eliminate_pair t0 t1 t2 t3 t4 t5 t6 t7 t8 t9 t10 rest :
  0 <= t0 < 2 ^ 32 -> 0 <= t1 + t0 / 2 ^ 29 < 2 ^ 32 ->
  exists M s2 s3 s4 s5 s6 s7 s8 s9 s10,
    eliminate_odd 0 (eliminate_even 0 (map u32 ([t0; t1; t2; t3; t4; t5; t6; t7; t8; t9; t10] ++ rest))) =
      0 :: 0 :: map u32 ([s2; s3; s4; s5; s6; s7; s8; s9; s10] ++ rest) /\
    (t2 <= s2 <= t2 + 2 ^ 4 /\ t3 <= s3 < t3 + 2 ^ 28 /\ t4 <= s4 < t4 + 2 ^ 11 + 2 ^ 29 /\ t5 <= s5 < t5 + 2 ^ 10 /\
     t6 <= s6 < t6 + 2 ^ 29 /\ t7 <= s7 < t7 + 2 ^ 29 + 2 ^ 21 /\ t8 <= s8 < t8 + 2 ^ 30 + 2 ^ 29 + 2 ^ 21 /\
     t9 - 1 <= s9 < t9 + 2 ^ 29 /\ t10 <= s10 < t10 + 2 ^ 28 /\ (s9 < t9 -> t8 + 2 ^ 29 <= s8)) /\ 0 <= M < 2 ^ 57 /\
    fval false ([t0; t1; t2; t3; t4; t5; t6; t7; t8; t9; t10] ++ rest) + M * prime_p =
      2 ^ 57 * fval false ([s2; s3; s4; s5; s6; s7; s8; s9; s10] ++ rest).
Proof.
  intros H0 H1. rewrite map_app.
  change (map u32 [t0; t1; t2; t3; t4; t5; t6; t7; t8; t9; t10] ++ map u32 rest) with
    (map u32 [t0; t1; t2; t3; t4; t5; t6; t7; t8; t9] ++ u32 t10 :: map u32 rest).
  destruct (eliminate_even_ok t0 t1 t2 t3 t4 t5 t6 t7 t8 t9 (u32 t10 :: map u32 rest) H0)
    as (x & d3 & d4 & d6 & d7 & d8 & d9 & -> & Hx & Hd & Ex).
  set (t1' := t1 + t0 / 2 ^ 29) in *.
  change (0 :: map u32 [t1'; t2; t3 + d3; t4 + d4; t5; t6 + d6; t7 + d7; t8 + d8; t9 + d9] ++ u32 t10 :: map u32 rest) with
    (0 :: map u32 [t1'; t2; t3 + d3; t4 + d4; t5; t6 + d6; t7 + d7; t8 + d8; t9 + d9; t10] ++ map u32 rest).
  destruct (eliminate_odd_ok t1' t2 (t3 + d3) (t4 + d4) t5 (t6 + d6) (t7 + d7) (t8 + d8) (t9 + d9) t10 (map u32 rest) H1)
    as (y & e4 & e5 & e7 & e8 & e9 & e10 & -> & Hy & He & Ey).
  exists (x + 2 ^ 29 * y), (t2 + t1' / 2 ^ 28), (t3 + d3), (t4 + d4 + e4), (t5 + e5), (t6 + d6), (t7 + d7 + e7), (t8 + d8 + e8),
    (t9 + d9 + e9), (t10 + e10).
  rewrite map_app. split; [done|].
  assert (0 <= t1' / 2 ^ 28 <= 2 ^ 4) by (Z.to_euclidean_division_equations; lia). split; [lia|].
  pose proof (Z.mod_pos_bound t0 (2 ^ 29) ltac:(lia)). pose proof (Z.mod_pos_bound t1' (2 ^ 28) ltac:(lia)). split; [lia|].
  pose proof (Z.div_mod t0 (2 ^ 29) ltac:(lia)) as E0. pose proof (Z.div_mod t1' (2 ^ 28) ltac:(lia)) as E1.
  cbn [app fval negb width]. subst x y. revert Ex Ey. generalize prime_p. intros p Ex Ey. unfold t1' in *. nia.
Qed.

Lemma eliminate_loop_next n pre w w' :
  (length pre + 1 =? NLIMBS)%nat = false -> eliminate_odd 0 (eliminate_even 0 w) = 0 :: 0 :: w' ->
  eliminate_loop (S n) (length pre) (pre ++ w) = eliminate_loop n (length (pre ++ [0; 0])) ((pre ++ [0; 0]) ++ w').
Proof.
  intros Hp E. cbn [eliminate_loop]. rewrite Hp, eliminate_even_app, eliminate_odd_app, E, length_app, <- app_assoc. done.
Qed.

(** A word that may be one below zero, if the word under it has a carry for it. *)
Definition repaid (below w : Z) : Prop := -1 <= w /\ (w < 0 -> 2 ^ 29 <= below).

Lemma eliminate_ok t0 t1 t2 t3 t4 t5 t6 t7 t8 t9 t10 t11 t12 t13 t14 t15 t16 t17 :
  bounded 0 false [t0; t1; t2; t3; t4; t5; t6; t7; t8; t9; t10; t11; t12; t13; t14; t15; t16] -> 0 <= t17 < 2 ^ 31 + 2 ^ 8 ->
  exists M s9 s10 s11 s12 s13 s14 s15 s16 s17,
    eliminate_loop 5 0 (map u32 [t0; t1; t2; t3; t4; t5; t6; t7; t8; t9; t10; t11; t12; t13; t14; t15; t16; t17]) =
      replicate 9 0 ++ map u32 [s9; s10; s11; s12; s13; s14; s15; s16; s17] /\
    (0 <= s9 < 2 ^ 31 /\ 0 <= s10 < 2 ^ 32 - 2 ^ 4 /\ repaid s10 s11 /\ s11 < 2 ^ 31 /\ 0 <= s12 < 2 ^ 32 - 2 ^ 4 /\ repaid s12 s13 /\ s13 < 2 ^ 31 /\
     0 <= s14 < 2 ^ 32 - 2 ^ 4 /\ repaid s14 s15 /\ s15 < 2 ^ 31 /\ 0 <= s16 < 2 ^ 32 - 2 ^ 4 /\ repaid s16 s17 /\ s17 < 2 ^ 32 - 2 ^ 29) /\ 0 <= M < R257 /\
    fval false [t0; t1; t2; t3; t4; t5; t6; t7; t8; t9; t10; t11; t12; t13; t14; t15; t16; t17] + M * prime_p =
      R257 * fval true [s9; s10; s11; s12; s13; s14; s15; s16; s17].
Proof.
  intros Hb H17. cbn [bounded negb width] in Hb. rewrite !Z.add_0_r in Hb. unfold repaid.
  destruct (eliminate_pair t0 t1 t2 t3 t4 t5 t6 t7 t8 t9 t10 [t11; t12; t13; t14; t15; t16; t17])
    as (M1 & a2 & a3 & a4 & a5 & a6 & a7 & a8 & a9 & a10 & E1 & H1 & B1 & V1); [lia|Z.to_euclidean_division_equations; lia|].
  destruct (eliminate_pair a2 a3 a4 a5 a6 a7 a8 a9 a10 t11 t12 [t13; t14; t15; t16; t17])
    as (M2 & b4 & b5 & b6 & b7 & b8 & b9 & b10 & b11 & b12 & E2 & H2 & B2 & V2); [lia|Z.to_euclidean_division_equations; lia|].
  destruct (eliminate_pair b4 b5 b6 b7 b8 b9 b10 b11 b12 t13 t14 [t15; t16; t17])
    as (M3 & c6 & c7 & c8 & c9 & c10 & c11 & c12 & c13 & c14 & E3 & H3 & B3 & V3); [lia|Z.to_euclidean_division_equations; lia|].
  destruct (eliminate_pair c6 c7 c8 c9 c10 c11 c12 c13 c14 t15 t16 [t17])
    as (M4 & e8 & e9 & e10 & e11 & e12 & e13 & e14 & e15 & e16 & E4 & H4 & B4 & V4); [lia|Z.to_euclidean_division_equations; lia|].
  destruct (eliminate_even_ok e8 e9 e10 e11 e12 e13 e14 e15 e16 t17 [])
    as (x & d3 & d4 & d6 & d7 & d8 & d9 & E5 & Hx & Hd & Ex); [lia|].
  exists (M1 + 2 ^ 57 * M2 + 2 ^ 114 * M3 + 2 ^ 171 * M4 + 2 ^ 228 * x), (e9 + e8 / 2 ^ 29), e10, (e11 + d3), (e12 + d4), e13, (e14 + d6), (e15 + d7), (e16 + d8), (t17 + d9).
  split.
  - pose proof (eliminate_loop_next 4 [] _ _ eq_refl E1) as N1. pose proof (eliminate_loop_next 3 [0; 0] _ _ eq_refl E2) as N2.
    pose proof (eliminate_loop_next 2 [0; 0; 0; 0] _ _ eq_refl E3) as N3. pose proof (eliminate_loop_next 1 [0; 0; 0; 0; 0; 0] _ _ eq_refl E4) as N4.
    cbn [app] in *. change (length (@nil Z)) with 0%nat in N1. rewrite N1, N2, N3, N4. cbn [eliminate_loop].
    change (length _ + 1 =? NLIMBS)%nat with true. cbn iota.
    pose proof (eliminate_even_app [0; 0; 0; 0; 0; 0; 0; 0] (map u32 [e8; e9; e10; e11; e12; e13; e14; e15; e16; t17])) as E6.
    rewrite app_nil_r in E5. rewrite E5 in E6. exact E6.
  - assert (0 <= e8 / 2 ^ 29 < 8 /\ (2 ^ 29 <= e8 -> 1 <= e8 / 2 ^ 29)) by (Z.to_euclidean_division_equations; lia). split; [lia|].
    pose proof (Z.mod_pos_bound e8 (2 ^ 29) ltac:(lia)). split; [unfold R257; lia|].
    pose proof (Z.div_mod e8 (2 ^ 29) ltac:(lia)) as E8. cbn [app fval negb width] in *. unfold R257. subst x.
    revert V1 V2 V3 V4 Ex. generalize prime_p. intros p V1 V2 V3 V4 Ex. clear - V1 V2 V3 V4 Ex E8. nia.
Qed.

(** ** Shifting down *)

Lemma shift_pair w w' c tmp2 :
  0 <= w + c < 2 ^ 32 - 2 ^ 28 -> 0 <= w' < 2 ^ 32 - 2 ^ 4 ->
  exists o o' c', shift_down (u32 w :: u32 w' :: tmp2) c = (o :: o' :: (shift_down tmp2 c').1, (shift_down tmp2 c').2) /\
    0 <= o < 2 ^ 29 /\ 0 <= o' < 2 ^ 28 /\ w' / 2 ^ 29 <= c' <= 8 /\ o + 2 ^ 29 * o' + 2 ^ 57 * c' = w + 2 ^ 28 * w' + c.
Proof.
  intros Hw Hw'. cbn [shift_down]. rewrite !land_29, land_28, (u32_small w') by lia. unfold shl32.
  rewrite !Z.shiftl_mul_pow2, (u32_mod (w' * _)), (u32_add_l w c), !Z.shiftr_div_pow2 by lia.
  assert (Eb : (w' * 2 ^ 28) mod 2 ^ 29 = 2 ^ 28 * (w' mod 2)) by (Z.to_euclidean_division_equations; lia). rewrite Eb.
  pose proof (Z.mod_pos_bound w' 2 ltac:(lia)). rewrite (u32_small (w + c)) by lia. rewrite (u32_small (w + c + _)) by lia.
  set (out := w + c + 2 ^ 28 * (w' mod 2)) in *. assert (0 <= out / 2 ^ 29 < 8) by (Z.to_euclidean_division_equations; lia).
  rewrite (u32_small (_ / _ + _)) by (Z.to_euclidean_division_equations; lia).
  eexists _, _, _. split; [reflexivity|]. unfold out in *. Z.to_euclidean_division_equations; lia.
Qed.

Lemma shift_last w c : 0 <= w + c < 2 ^ 32 ->
  exists o c', shift_down [u32 w] c = ([o], c') /\ 0 <= o < 2 ^ 29 /\ 0 <= c' < 8 /\ o + 2 ^ 29 * c' = w + c.
Proof.
  intros Hw. cbn [shift_down]. rewrite land_29, u32_add_l, u32_small, Z.shiftr_div_pow2 by lia.
  eexists _, _. split; [reflexivity|]. Z.to_euclidean_division_equations; lia.
Qed.

Lemma repaid_carry below w c : repaid below w -> 0 <= below -> below / 2 ^ 29 <= c -> 0 <= w + c.
Proof. unfold repaid. intros. Z.to_euclidean_division_equations; lia. Qed.

Lemma shift_down_ok s9 s10 s11 s12 s13 s14 s15 s16 s17 :
  0 <= s9 < 2 ^ 31 -> 0 <= s10 < 2 ^ 32 - 2 ^ 4 -> repaid s10 s11 -> s11 < 2 ^ 31 -> 0 <= s12 < 2 ^ 32 - 2 ^ 4 -> repaid s12 s13 -> s13 < 2 ^ 31 ->
  0 <= s14 < 2 ^ 32 - 2 ^ 4 -> repaid s14 s15 -> s15 < 2 ^ 31 -> 0 <= s16 < 2 ^ 32 - 2 ^ 4 -> repaid s16 s17 -> s17 < 2 ^ 32 - 2 ^ 29 ->
  exists out c, shift_down (map u32 [s9; s10; s11; s12; s13; s14; s15; s16; s17]) 0 = (out, c) /\ length out = NLIMBS /\
    bounded 0 false out /\ 0 <= c <= 8 /\ fval false (out ++ [c]) = fval true [s9; s10; s11; s12; s13; s14; s15; s16; s17].
Proof.
  intros H9 H10 R11 H11 H12 R13 H13 H14 R15 H15 H16 R17 H17. cbn [map].
  destruct (shift_pair s9 s10 0 (map u32 [s11; s12; s13; s14; s15; s16; s17])) as (o0 & o1 & c1 & E1 & Ho0 & Ho1 & Hc1 & V1); [lia|done|].
  pose proof (repaid_carry _ _ c1 R11 ltac:(lia) ltac:(lia)).
  destruct (shift_pair s11 s12 c1 (map u32 [s13; s14; s15; s16; s17])) as (o2 & o3 & c2 & E2 & Ho2 & Ho3 & Hc2 & V2); [lia|done|].
  pose proof (repaid_carry _ _ c2 R13 ltac:(lia) ltac:(lia)).
  destruct (shift_pair s13 s14 c2 (map u32 [s15; s16; s17])) as (o4 & o5 & c3 & E3 & Ho4 & Ho5 & Hc3 & V3); [lia|done|].
  pose proof (repaid_carry _ _ c3 R15 ltac:(lia) ltac:(lia)).
  destruct (shift_pair s15 s16 c3 (map u32 [s17])) as (o6 & o7 & c4 & E4 & Ho6 & Ho7 & Hc4 & V4); [lia|done|].
  pose proof (repaid_carry _ _ c4 R17 ltac:(lia) ltac:(lia)).
  destruct (shift_last s17 c4) as (o8 & c5 & E5 & Ho8 & Hc5 & V5); [lia|].
  cbn [map] in *. rewrite E1, E2, E3, E4, E5. cbn [fst snd]. eexists _, _. split; [reflexivity|].
  split; [done|]. cbn [bounded app fval negb width]. rewrite !Z.add_0_r. repeat split; lia.
Qed.

Lemma u32_same ws w : bounded 0 false ws -> 0 <= w < 2 ^ 31 + 2 ^ 8 -> map u32 (ws ++ [w]) = ws ++ [w].
Proof.
  generalize false. induction ws as [|x ws IH]; intros odd Hb Hw; cbn [map app]; [by rewrite u32_small by lia|].
  destruct Hb as [Hx Hb]. rewrite (IH (negb odd)), u32_small by (done || destruct odd; cbn [width] in *; lia). done.
Qed.

Lemma quotient_bound p v t M c :
  2 ^ 255 < p -> 0 < c -> 0 <= M < R257 -> t < (R257 + 2 ^ 231) * (R257 + 2 ^ 231) -> t + M * p = R257 * v -> v - c * (2 * p) < R257.
Proof.
  intros Hp Hc HM Ht E. assert (M * p <= R257 * p) by nia. assert (R257 * (v - p) < R257 * (R257 + 2 ^ 233)) as Hv by (unfold R257 in *; lia).
  apply Z.mul_lt_mono_pos_l in Hv; [|done]. assert (2 * p <= c * (2 * p)) by nia. lia.
Qed.

Lemma felem_reduce_degree_ok tmp :
  length tmp = 17%nat -> Forall (fun t => 0 <= t < 2 ^ 64) tmp -> nth 16 tmp 0 < 2 ^ 60 ->
  tight (felem_reduce_degree tmp) /\ fval false (felem_reduce_degree tmp) * R257 ≡ fval false tmp /\
  (fval false tmp < (R257 + 2 ^ 231) * (R257 + 2 ^ 231) -> fval false (felem_reduce_degree tmp) < R257).
Proof.
  intros Hl Ht H16. unfold felem_reduce_degree. destruct (split_words_ok tmp Hl Ht H16) as (ws & w17 & -> & Hlw & Hbw & H17 & <-).
  destruct ws as [|t0 [|t1 [|t2 [|t3 [|t4 [|t5 [|t6 [|t7 [|t8 [|t9 [|t10 [|t11 [|t12 [|t13 [|t14 [|t15 [|t16 [|]]]]]]]]]]]]]]]]]]; try discriminate.
  destruct (eliminate_ok _ _ _ _ _ _ _ _ _ _ _ _ _ _ _ _ _ w17 Hbw H17)
    as (M & s9 & s10 & s11 & s12 & s13 & s14 & s15 & s16 & s17 & E & Hs & HM & V).
  change (map u32 [t0; t1; t2; t3; t4; t5; t6; t7; t8; t9; t10; t11; t12; t13; t14; t15; t16; w17]) with
    (map u32 ([t0; t1; t2; t3; t4; t5; t6; t7; t8; t9; t10; t11; t12; t13; t14; t15; t16] ++ [w17])) in E.
  rewrite u32_same in E by done. rewrite E. change (drop NLIMBS _) with (map u32 [s9; s10; s11; s12; s13; s14; s15; s16; s17]).
  destruct (shift_down_ok s9 s10 s11 s12 s13 s14 s15 s16 s17) as (out & c & -> & Hlo & Hbo & Hc & Vo); try apply Hs.
  destruct (folded_ok out c _ Hlo Hbo Hc Vo) as [Htight Ev]. cbn [fst snd]. split; [done|]. rewrite Ev.
  cbn [app] in *. split; [rewrite minus_multiple, Z.mul_comm, <- V; apply cong_mult|]. intros Hlt.
  pose proof (canonical_range out Hlo Hbo). rewrite fval_snoc9 in Vo by done. destruct (Z.eq_dec c 0) as [->|]; [lia|].
  pose proof prime_p_bounds as Hp. eapply (quotient_bound prime_p); [lia|lia|exact HM|exact Hlt|exact V].
Qed.

(** ** Products *)

Lemma shl32_small x k : 0 <= k -> 0 <= x * 2 ^ k < 2 ^ 32 -> shl32 x k = x * 2 ^ k.
Proof. intros Hk Hx. unfold shl32. rewrite Z.shiftl_mul_pow2 by done. by apply u32_small. Qed.

(** A sum of products, [n] times 2^60 at most. *)
Definition fits (n x : Z) : Prop := 0 <= x <= n * 2 ^ 60.

Lemma fits_mul1 a b : 0 <= a < 2 ^ 30 -> 0 <= b < 2 ^ 30 -> fits 1 (a * b).
Proof. unfold fits. nia. Qed.

Lemma fits_mul2 a b : 0 <= a < 2 ^ 30 -> 0 <= b < 2 ^ 31 -> fits 2 (a * b).
Proof. unfold fits. nia. Qed.

Lemma fits_add n m x y : fits n x -> fits m y -> fits (n + m) (x + y).
Proof. unfold fits. lia. Qed.

Lemma u64_fits n x : fits n x -> n <= 15 -> u64 x = x.
Proof. unfold fits. intros Hx Hn. apply u64_small. lia. Qed.

Lemma product_fits_range n x : fits n x -> n <= 15 -> 0 <= x < 2 ^ 64.
Proof. unfold fits. lia. Qed.

Ltac solve_fits := first [eapply fits_add; [solve_fits|solve_fits]|apply fits_mul1; lia|apply fits_mul2; lia].
Ltac drop_u64 := repeat match goal with |- context [u64 ?e] => rewrite (u64_fits _ e ltac:(solve_fits)) by done end.

Lemma product_bound x y : 0 <= x < R257 + 2 ^ 231 -> 0 <= y < R257 + 2 ^ 231 -> x * y < (R257 + 2 ^ 231) * (R257 + 2 ^ 231).
Proof. intros. apply Z.mul_lt_mono_nonneg; lia. Qed.

Lemma felem_mul_ok a b : tight a -> tight b ->
  tight (felem_mul a b) /\ fval false (felem_mul a b) * R257 ≡ fval false a * fval false b /\ fval false (felem_mul a b) < R257.
Proof.
  intros Ha Hb. pose proof (product_bound _ _ (tight_range a Ha) (tight_range b Hb)) as Hlt. tight_limbs Ha a. tight_limbs Hb b. unfold felem_mul. rewrite !shl32_small by lia. drop_u64.
  match goal with |- context [felem_reduce_degree ?ts] => replace (_ * fval _ _) with (fval false ts) in Hlt |- * by (cbn [fval negb width]; ring);
    destruct (felem_reduce_degree_ok ts) as (H1 & H2 & H3); [done| |cbn [nth]; nia|auto] end.
  repeat (apply Forall_cons; split; [eapply product_fits_range; [solve_fits|done]|]). constructor.
Qed.

Lemma felem_square_ok a : tight a ->
  tight (felem_square a) /\ fval false (felem_square a) * R257 ≡ fval false a * fval false a /\ fval false (felem_square a) < R257.
Proof.
  intros Ha. pose proof (product_bound _ _ (tight_range a Ha) (tight_range a Ha)) as Hlt. tight_limbs Ha a. unfold felem_square. rewrite !shl32_small by lia. drop_u64.
  match goal with |- context [felem_reduce_degree ?ts] => replace (_ * fval _ _) with (fval false ts) in Hlt |- * by (cbn [fval negb width]; ring);
    destruct (felem_reduce_degree_ok ts) as (H1 & H2 & H3); [done| |cbn [nth]; nia|auto] end.
  repeat (apply Forall_cons; split; [eapply product_fits_range; [solve_fits|done]|]). constructor.
Qed.
