(* ===== verification/Primality.v ===== *)
(** * The primes of P-256

    The prime of the field and the order of the base point are prime, by
    Pocklington's criterion: if distinct primes [q] divide [N - 1], their product
    exceeds the square root of [N], and for each some [a] has [a ^ (N - 1)]
    congruent to 1 and [a ^ ((N - 1) / q) - 1] prime to [N], then [N] is prime. *)

From Stdlib Require Import Zdivisibility Zmod.ZmodInv.
From S2P Require Import Prelude Words P256 P256Props.

#[local] Open Scope Z_scope.

(** ** Prime divisors *)

Lemma prime_or_divisor N : 1 < N -> Z.prime N \/ exists d, 1 < d < N /\ (d | N).
Proof.
  intros HN. destruct (decide (Exists (fun d => (N mod d =? 0) = true) (seqZ 2 (N - 2)))) as [H|H].
  - right. apply Exists_exists in H as (d & Hd & E). apply elem_of_seqZ in Hd. exists d. split; [lia|].
    apply Z.mod_divide; lia.
  - left. split; [done|]. intros d Hd Hdiv. apply H, Exists_exists. exists d.
    split; [apply elem_of_seqZ; lia|]. apply Z.eqb_eq, Z.mod_divide; [lia|done].
Qed.

Lemma prime_divisor N : 1 < N -> exists r, Z.prime r /\ (r | N).
Proof.
  intros HN. assert (H0 : 0 <= N) by lia. revert HN. pattern N. apply (Z_lt_induction); [|done]. clear N H0.
  intros N IH HN. destruct (prime_or_divisor N HN) as [Hp|(d & Hd & Hdiv)]; [by exists N|].
  destruct (IH d) as (r & Hr & Hrd); [lia..|]. exists r. split; [done|]. by apply (Z.divide_trans _ d).
Qed.

(** A number that is not prime has a prime divisor up to its square root. *)
Lemma prime_or_small_divisor N : 1 < N -> Z.prime N \/ exists r, Z.prime r /\ (r | N) /\ r * r <= N.
Proof.
  intros HN. destruct (prime_or_divisor N HN) as [Hp|(d & Hd & e & He)]; [by left|right].
  assert (exists f, 1 < f /\ (f | N) /\ f * f <= N) as (f & Hf & Hfd & Hff).
  { destruct (Z_le_gt_dec d e); [exists d|exists e]; split_and!; try nia; [by exists e|exists d; lia]. }
  destruct (prime_divisor f Hf) as (r & Hr & Hrf). exists r. pose proof (Z.prime_ge_2 r Hr).
  assert (r <= f) by (apply Z.divide_pos_le; [lia|done]). split_and!; [done|by apply (Z.divide_trans _ f)|nia].
Qed.

(** ** Powers modulo a number *)

#[export] Instance cong_pow N : Proper (cong N ==> eq ==> cong N) Z.pow.
Proof.
  intros x y E k _ <-. destruct (Z_lt_le_dec k 0); [by rewrite !Z.pow_neg_r by lia|].
  pattern k. apply natlike_ind; [done| |done]. intros i Hi IH. by rewrite !Z.pow_succ_r, IH, E by done.
Qed.

Lemma cong_weaken N r x y : (r | N) -> cong N x y -> cong r x y.
Proof. intros Hr E. by apply (Z.divide_trans _ N). Qed.

(** An element whose powers [m] and [n] are 1, for coprime [m] and [n], is 1. *)
Lemma coprime_exponents r b m n :
  0 < m -> 0 < n -> Z.gcd m n = 1 -> cong r (b ^ m) 1 -> cong r (b ^ n) 1 -> cong r b 1.
Proof.
  intros Hm Hn Hg Em En. destruct (bezout_nonneg m n Hm Hn Hg) as (u' & w & Hu & Hw & Ew).
  assert (E1 : cong r (b ^ (u' * m)) 1) by (rewrite Z.mul_comm, Z.pow_mul_r, Em, Z.pow_1_l by lia; done).
  rewrite Ew, Z.pow_add_r, Z.mul_comm, Z.pow_1_r, (Z.mul_comm w), Z.pow_mul_r, En, Z.pow_1_l, Z.mul_1_r in E1 by lia. done.
Qed.

(** ** Pocklington's criterion *)

(** [q] is a prime factor of [N - 1] with cofactor [c], and [b] is a power [c]
    that is 1 modulo no prime divisor of [N]. *)
Definition pocklington_factor (N a q : Z) : Prop :=
  Z.prime q /\ exists c, 0 < c /\ N - 1 = c * q /\ cong N (a ^ (c * q)) 1 /\ Z.gcd (a ^ c - 1) N = 1.

Lemma factor_divides N a q r : pocklington_factor N a q -> Z.prime r -> (r | N) -> (q | r - 1).
Proof.
  intros (Hq & c & Hc & EN & E1 & Hg) Hr HrN. pose proof (Z.prime_ge_2 q Hq). pose proof (Z.prime_ge_2 r Hr).
  set (b := a ^ c) in *. assert (Hb : cong r (b ^ q) 1).
  { apply (cong_weaken N); [done|]. unfold b. by rewrite <- Z.pow_mul_r by lia. }
  assert (Hb1 : ~ cong r b 1).
  { intros E. assert (H1 : (r | Z.gcd (b - 1) N)) by (by apply Z.gcd_greatest). rewrite Hg in H1. apply Z.divide_1_r_nonneg in H1; lia. }
  assert (Hf : cong r (b ^ (r - 1)) 1).
  { apply cong_mod; [lia|]. rewrite ZmodInv.Z.fermat_nz; [by rewrite Z.mod_small by lia|done|].
    intros E0. assert (Eb : cong r b 0) by (apply cong_mod; [lia|by rewrite E0]). rewrite Eb, Z.pow_0_l in Hb by lia.
    destruct Hb as [k Hk]. assert (H1 : (r | 1)) by (exists (- k); lia). apply Z.divide_1_r_nonneg in H1; lia. }
  destruct (Z.BoolSpec_divide q (r - 1)) as [Hd|Hd]; [done|]. destruct Hb1.
  apply (coprime_exponents r b q (r - 1)); try done; try lia. by apply Z.coprime_prime_l.
Qed.

Lemma product_divides qs z : Forall Z.prime qs -> NoDup qs -> Forall (fun q => (q | z)) qs -> (foldr Z.mul 1 qs | z).
Proof.
  induction qs as [|q qs IH]; intros Hp Hn Hd; cbn [foldr]; [apply Z.divide_1_l|].
  apply Forall_cons in Hp as [Hq Hp]. apply NoDup_cons in Hn as [Hnotin Hn]. apply Forall_cons in Hd as [Hqz Hd].
  destruct (IH Hp Hn Hd) as [k Hk]. rewrite Hk in Hqz.
  assert (Hcop : Z.coprime q (foldr Z.mul 1 qs)).
  { clear - Hq Hp Hnotin. induction qs as [|q' qs IH]; cbn [foldr]; [apply Z.coprime_1_r|].
    apply Forall_cons in Hp as [Hq' Hp]. apply not_elem_of_cons in Hnotin as [Hne Hnotin]. apply Z.coprime_mul_r; [|by apply IH].
    apply Z.coprime_prime_l; [done|]. intros Hdiv. by apply Z.divide_prime_prime in Hdiv. }
  rewrite Z.mul_comm in Hqz. apply Z.gauss in Hqz as [l Hl]; [|done]. exists l. rewrite Hk, Hl. ring.
Qed.

Theorem pocklington N a qs :
  1 < N -> NoDup qs -> Forall (pocklington_factor N a) qs -> N < foldr Z.mul 1 qs * foldr Z.mul 1 qs -> Z.prime N.
Proof.
  intros HN Hn Hqs HF. destruct (prime_or_small_divisor N HN) as [Hp|(r & Hr & HrN & Hrr)]; [done|exfalso].
  pose proof (Z.prime_ge_2 r Hr). assert (Hd : (foldr Z.mul 1 qs | r - 1)).
  { apply product_divides; [|done|]; (eapply Forall_impl; [exact Hqs|]); cbn; [by intros q [? _]|].
    intros q Hq. by apply (factor_divides N a). }
  destruct Hd as [k Hk]. set (F := foldr Z.mul 1 qs) in *. assert (0 < k * F) by lia.
  assert (k <> 0) by (intros ->; lia). assert (Z.abs F <= r - 1) by (rewrite Hk, <- (Z.abs_eq (k * F)), Z.abs_mul by lia; nia). nia.
Qed.

(** ** Certificates *)

Section Certificate.
Context (N : Z) (red : Z -> Z).

(** [red] keeps numbers small without changing them modulo [N]. *)
Class Reduces : Prop := red_cong : forall x, cong N (red x) x.

Fixpoint powm (a : Z) (e : positive) : Z :=
  match e with
  | xH => a
  | xO e => let b := powm a e in red (b * b)
  | xI e => let b := powm a e in red (a * red (b * b))
  end.

Definition factor_ok (a : Z) (q c : positive) : bool :=
  let b := powm a c in
  (N - 1 =? Z.pos c * Z.pos q) && (powm b q mod N =? 1) && (Z.gcd (b - 1) N =? 1).

Lemma powm_cong `{!Reduces} a e : cong N (powm a e) (a ^ Z.pos e).
Proof.
  induction e as [e IH|e IH|]; cbn [powm].
  - rewrite !red_cong, IH, Pos2Z.inj_xI, Z.pow_add_r, Z.pow_mul_r, Z.pow_1_r, Z.mul_comm by lia.
    replace (a ^ Z.pos e * a ^ Z.pos e) with ((a ^ Z.pos e) ^ 2) by ring. by rewrite <- !Z.pow_mul_r, (Z.mul_comm 2) by lia.
  - rewrite red_cong, IH, Pos2Z.inj_xO, <- Z.pow_add_r by lia. by replace (Z.pos e + Z.pos e) with (2 * Z.pos e) by lia.
  - by rewrite Z.pow_1_r.
Qed.

Lemma gcd_cong x y : cong N x y -> Z.gcd x N = Z.gcd y N.
Proof. intros [k E]. replace x with (y + k * N) by lia. by rewrite Z.gcd_comm, Z.gcd_add_mult_diag_r, Z.gcd_comm. Qed.

Lemma factor_ok_correct `{!Reduces} a q c : 1 < N -> Z.prime (Z.pos q) -> factor_ok a q c = true -> pocklington_factor N a (Z.pos q).
Proof.
  intros HN Hq Hok. unfold factor_ok in Hok. apply andb_prop in Hok as [Hok Hg]. apply andb_prop in Hok as [Hc H1].
  apply Z.eqb_eq in Hc, H1, Hg. split; [done|]. exists (Z.pos c). split_and!; [lia|done| |].
  - rewrite Z.pow_mul_r, <- (powm_cong a c), <- powm_cong by lia. apply cong_mod; [lia|]. by rewrite H1, Z.mod_small by lia.
  - transitivity (Z.gcd (powm a c - 1) N); [|done]. apply gcd_cong. by rewrite powm_cong.
Qed.
End Certificate.

#[export] Instance mod_reduces N : Reduces N (fun x => x mod N).
Proof. intros x. destruct (Z.eq_dec N 0) as [->|]; [by rewrite Zmod_0_r|by apply cong_mod_l]. Qed.

(** Primes up to a million are found by division. *)
Fixpoint no_divisor (n : nat) (d N : Z) : bool :=
  match n with
  | O => true
  | S n => negb (N mod d =? 0) && no_divisor n (d + 1) N
  end.

Lemma small_prime n N : 1 < N -> N < (Z.of_nat n + 2) * (Z.of_nat n + 2) -> no_divisor n 2 N = true -> Z.prime N.
Proof.
  intros HN Hn Hd. destruct (prime_or_small_divisor N HN) as [Hp|(r & Hr & [k Hk] & Hrr)]; [done|exfalso].
  pose proof (Z.prime_ge_2 r Hr). assert (Hall : forall m d, no_divisor m d N = true -> d <= r < d + Z.of_nat m -> N mod r <> 0).
  { clear Hd. induction m as [|m IH]; intros d Hd Hr'; [lia|]. cbn in Hd. apply andb_prop in Hd as [H1 H2].
    destruct (Z.eq_dec r d) as [->|]; [by apply negb_true_iff, Z.eqb_neq in H1|]. apply (IH _ H2). lia. }
  apply (Hall n 2 Hd); [nia|]. rewrite Hk. apply Z.mod_mul. lia.
Qed.

Definition certificate_ok (N : Z) (red : Z -> Z) (cert : list (positive * positive)) : bool :=
  (1 <? N) && bool_decide (NoDup cert.*1) && (let F := foldr Z.mul 1 (map Z.pos cert.*1) in N <? F * F) &&
  forallb (fun qc => factor_ok N red 2 qc.1 qc.2) cert.

Lemma certified N red `{!Reduces N red} cert :
  Forall (fun qc : positive * positive => Z.prime (Z.pos qc.1)) cert -> certificate_ok N red cert = true -> Z.prime N.
Proof.
  intros Hp Hok. unfold certificate_ok in Hok. rewrite !andb_true_iff, Z.ltb_lt, bool_decide_eq_true, Z.ltb_lt, forallb_forall in Hok.
  destruct Hok as (((HN & Hn) & HF) & Hall). apply (pocklington N 2 (map Z.pos cert.*1)); [done| | |done].
  - change (map Z.pos cert.*1) with (Z.pos <$> cert.*1). by apply NoDup_fmap_2; [intros x y E; injection E|].
  - apply Forall_forall. intros z Hz. apply list_elem_of_In, in_map_iff in Hz as (q & <- & Hq).
    apply list_elem_of_In, list_elem_of_fmap in Hq as (qc & -> & Hin).
    apply (factor_ok_correct N red _ _ qc.2); [done|by rewrite Forall_forall in Hp; apply Hp|]. by apply Hall, list_elem_of_In.
Qed.

Create HintDb primes.

Ltac by_certificate cert :=
  lazymatch goal with |- Z.prime ?N => apply (certified N (fun x => x mod N) cert) end;
  [repeat (apply Forall_cons; split; [cbn [fst]; auto with primes|]); by apply Forall_nil|vm_compute; reflexivity].

Lemma prime_3969899 : Z.prime 3969899.
Proof. apply (small_prime 1992); vm_compute; reflexivity. Qed.

Lemma prime_155317 : Z.prime 155317.
Proof. apply (small_prime 394); vm_compute; reflexivity. Qed.

Lemma prime_3023 : Z.prime 3023.
Proof. apply (small_prime 54); vm_compute; reflexivity. Qed.

Lemma prime_3677 : Z.prime 3677.
Proof. apply (small_prime 60); vm_compute; reflexivity. Qed.

Lemma prime_197 : Z.prime 197.
Proof. apply (small_prime 14); vm_compute; reflexivity. Qed.

Lemma prime_704251 : Z.prime 704251.
Proof. apply (small_prime 839); vm_compute; reflexivity. Qed.

Lemma prime_78283 : Z.prime 78283.
Proof. apply (small_prime 279); vm_compute; reflexivity. Qed.

#[local] Hint Resolve prime_3969899 prime_155317 prime_3023 prime_3677 prime_197 prime_704251 prime_78283 : primes.

Lemma prime_1002328039319 : Z.prime 1002328039319.
Proof. by_certificate [(3969899, 252482)]%positive. Qed.
#[local] Hint Resolve prime_1002328039319 : primes.

Lemma prime_191039911 : Z.prime 191039911.
Proof. by_certificate [(155317, 1230)]%positive. Qed.
#[local] Hint Resolve prime_191039911 : primes.

Lemma prime_208150935158385979 : Z.prime 208150935158385979.
Proof. by_certificate [(191039911, 1089567798); (3023, 68855750962086)]%positive. Qed.
#[local] Hint Resolve prime_208150935158385979 : primes.

Lemma prime_92_bits : Z.prime 2624747550333869278416773953.
Proof. by_certificate [(208150935158385979, 12609828288)]%positive. Qed.
#[local] Hint Resolve prime_92_bits : primes.

Lemma prime_66417393611 : Z.prime 66417393611.
Proof. by_certificate [(3677, 18062930); (197, 337144130)]%positive. Qed.
#[local] Hint Resolve prime_66417393611 : primes.

Lemma prime_11290956913871 : Z.prime 11290956913871.
Proof. by_certificate [(66417393611, 170)]%positive. Qed.
#[local] Hint Resolve prime_11290956913871 : primes.

Lemma prime_46076956964474543 : Z.prime 46076956964474543.
Proof. by_certificate [(704251, 65426896042); (78283, 588594675274)]%positive. Qed.
#[local] Hint Resolve prime_46076956964474543 : primes.

Lemma prime_149_bits : Z.prime 774023187263532362759620327192479577272145303.
Proof. by_certificate [(46076956964474543, 16798487535978261528513091914); (11290956913871, 68552487904071337216976429044362)]%positive. Qed.
#[local] Hint Resolve prime_149_bits : primes.

Lemma prime_160_bits : Z.prime 835945042244614951780389953367877943453916927241.
Proof. by_certificate [(774023187263532362759620327192479577272145303, 1080)]%positive. Qed.
#[local] Hint Resolve prime_160_bits : primes.

(** ** The two primes *)

(** The order of the base point. *)
Definition order_n : Z := 0xffffffff00000000ffffffffffffffffbce6faada7179e84f3b9cac2fc632551.

Lemma val_n : val SECP256r1_n = order_n.
Proof. vm_compute. reflexivity. Qed.

Lemma order_n_prime : Z.prime order_n.
Proof.
  by_certificate [(2624747550333869278416773953, 44115514726598157485257412756682202504057278751056);
    (1002328039319, 115523146782392231311324540489179156958562150085032625197564538672)]%positive.
Qed.

(** One step of reduction modulo the prime of the field, by its shape. *)
Definition fold_p (x : Z) : Z :=
  let h := Z.shiftr x 256 in
  Z.land x (Z.ones 256) + (Z.shiftl h 224 - Z.shiftl h 192 - Z.shiftl h 96 + h).

Definition reduce_p (x : Z) : Z := Nat.iter 9 fold_p x.

Lemma fold_p_cong x : cong prime_p (fold_p x) x.
Proof.
  unfold fold_p. rewrite Z.land_ones, Z.shiftr_div_pow2, !Z.shiftl_mul_pow2 by lia. pose proof (Z.div_mod x (2 ^ 256) ltac:(lia)) as E.
  exists (- (x / 2 ^ 256)). unfold prime_p. lia.
Qed.

#[export] Instance reduce_p_reduces : Reduces prime_p reduce_p.
Proof. intros x. unfold reduce_p. generalize 9%nat. intros n. induction n as [|n IH]; [done|]. cbn [Nat.iter nat_rect]. by rewrite fold_p_cong. Qed.

Lemma prime_p_prime : Z.prime prime_p.
Proof.
  apply (certified _ reduce_p [(835945042244614951780389953367877943453916927241, 138516389665330497628477975950)]%positive);
    [repeat (apply Forall_cons; split; [cbn [fst]; auto with primes|]); by apply Forall_nil|vm_compute; reflexivity].
Qed.
