(* ===== verification/EcLaw.v ===== *)
(** * The group of an elliptic curve

    Addition by chords and tangents on [y^2 = x^3 + a x + b] over a field, for a
    curve without singular points, is a commutative group.  Chords and tangents
    are treated alike: a slope of two points is a number with the two equations
    of [is_slope], which determine it unless the points are opposite. *)

From Stdlib Require Import Field.
From S2P Require Import Prelude Words.

Module Ec.
Section Curve.
Context {F : Type} {fzero fone : F} {fadd fmul fsub : F -> F -> F} {fopp : F -> F} {fdiv : F -> F -> F} {finv : F -> F}.
Context `{!EqDecision F}.
Hypothesis F_field : field_theory fzero fone fadd fmul fsub fopp fdiv finv eq.
Add Field F_tactics : F_field.

#[local] Notation "0" := fzero.
#[local] Notation "1" := fone.
#[local] Infix "+" := fadd.
#[local] Infix "*" := fmul.
#[local] Infix "-" := fsub.
#[local] Infix "/" := fdiv.
#[local] Notation "- x" := (fopp x).

Variables a b : F.
Hypothesis two_nz : 1 + 1 <> 0.
Hypothesis nonsingular : forall x, x * x * x + a * x + b = 0 -> (1 + 1 + 1) * x * x + a <> 0.

(** ** Points *)

Inductive point : Type :=
| Inf
| Pt (x y : F).

#[export] Instance point_eq_dec : EqDecision point.
Proof. solve_decision. Defined.

Definition on_curve (P : point) : Prop :=
  match P with
  | Inf => True
  | Pt x y => y * y = x * x * x + a * x + b
  end.

Definition neg (P : point) : point :=
  match P with
  | Inf => Inf
  | Pt x y => Pt x (- y)
  end.

(** The slope of the chord, or of the tangent of a point. *)
Definition slope (x1 y1 x2 y2 : F) : F :=
  if decide (x1 = x2) then ((1 + 1 + 1) * x1 * x1 + a) / ((1 + 1) * y1) else (y2 - y1) / (x2 - x1).

(** The third point of the line, mirrored. *)
Definition third (l x1 y1 x2 : F) : point :=
  let x3 := l * l - x1 - x2 in Pt x3 (l * (x1 - x3) - y1).

Definition padd (P Q : point) : point :=
  match P, Q with
  | Inf, _ => Q
  | _, Inf => P
  | Pt x1 y1, Pt x2 y2 =>
    if decide (x1 = x2 /\ y1 + y2 = 0) then Inf else third (slope x1 y1 x2 y2) x1 y1 x2
  end.

(** ** Fields *)

Lemma mul_zero x y : x * y = 0 -> x = 0 \/ y = 0.
Proof.
  intros E. destruct (decide (x = 0)) as [|Hx]; [by left|right].
  transitivity (x * y / x); [field; done|]. rewrite E. field. done.
Qed.

Lemma sub_zero x y : x - y = 0 <-> x = y.
Proof. split; [intros E; transitivity (x - y + y); [ring|rewrite E; ring]|intros ->; ring]. Qed.

Lemma cancel_double x : (1 + 1) * x = 0 -> x = 0.
Proof. intros [|]%mul_zero; done. Qed.

Lemma mul_cancel x y z : x <> 0 -> x * y = x * z -> y = z.
Proof. intros Hx E. apply sub_zero. assert (x * (y - z) = 0) as [|]%mul_zero by (transitivity (x * y - x * z); [ring|rewrite E; ring]); done. Qed.

(** ** Slopes *)

Definition is_slope (l x1 y1 x2 y2 : F) : Prop :=
  y2 - y1 = l * (x2 - x1) /\ l * (y1 + y2) = x1 * x1 + x1 * x2 + x2 * x2 + a.

Definition opposite (x1 y1 x2 y2 : F) : Prop := x1 = x2 /\ y1 + y2 = 0.

Lemma slope_ok x1 y1 x2 y2 :
  on_curve (Pt x1 y1) -> on_curve (Pt x2 y2) -> ~ opposite x1 y1 x2 y2 -> is_slope (slope x1 y1 x2 y2) x1 y1 x2 y2.
Proof.
  cbn. intros H1 H2 Hno. unfold is_slope, slope. destruct (decide (x1 = x2)) as [<-|Hx].
  - assert (Hy : y1 + y2 <> 0) by (intros E; by apply Hno).
    assert (y2 = y1) as ->.
    { apply sub_zero. assert ((y2 - y1) * (y1 + y2) = 0) as [|]%mul_zero by (transitivity (y2 * y2 - y1 * y1); [ring|rewrite H1, H2; ring]); done. }
    assert (y1 <> 0) by (intros E; apply Hy; rewrite E; ring). split; [ring|]. field. done.
  - assert (Hd : x2 - x1 <> 0) by (rewrite sub_zero; congruence). split; [by field|].
    apply (mul_cancel (x2 - x1)); [done|]. transitivity (y2 * y2 - y1 * y1); [by field|]. rewrite H1, H2. ring.
Qed.

Lemma slope_unique l m x1 y1 x2 y2 : ~ opposite x1 y1 x2 y2 -> is_slope l x1 y1 x2 y2 -> is_slope m x1 y1 x2 y2 -> l = m.
Proof.
  intros Hno [E1 E2] [E3 E4]. destruct (decide (x1 = x2)) as [<-|Hx].
  - apply (mul_cancel (y1 + y2)); [intros E; by apply Hno|]. transitivity (l * (y1 + y2)); [ring|]. rewrite E2, <- E4. ring.
  - apply (mul_cancel (x2 - x1)); [rewrite sub_zero; congruence|]. transitivity (l * (x2 - x1)); [ring|]. rewrite <- E1, E3. ring.
Qed.

(** Any slope gives the sum. *)
Lemma padd_third l x1 y1 x2 y2 :
  on_curve (Pt x1 y1) -> on_curve (Pt x2 y2) -> ~ opposite x1 y1 x2 y2 -> is_slope l x1 y1 x2 y2 ->
  padd (Pt x1 y1) (Pt x2 y2) = third l x1 y1 x2.
Proof.
  intros H1 H2 Hno Hl. unfold padd. rewrite decide_False by done.
  by rewrite (slope_unique l (slope x1 y1 x2 y2) x1 y1 x2 y2 Hno Hl (slope_ok _ _ _ _ H1 H2 Hno)).
Qed.

(** The equations of a slope, solved. *)
Lemma slope_y l x1 y1 x2 y2 : is_slope l x1 y1 x2 y2 -> y2 = y1 + l * (x2 - x1).
Proof. intros [E _]. rewrite <- E. ring. Qed.

Lemma slope_a l x1 y1 x2 y2 : is_slope l x1 y1 x2 y2 -> a = l * (y1 + y2) - x1 * x1 - x1 * x2 - x2 * x2.
Proof. intros [_ E]. rewrite E. ring. Qed.

Lemma curve_b_eq x y : on_curve (Pt x y) -> b = y * y - x * x * x - a * x.
Proof. cbn. intros ->. ring. Qed.

Lemma is_slope_sym l x1 y1 x2 y2 : is_slope l x1 y1 x2 y2 -> is_slope l x2 y2 x1 y1.
Proof. intros [E1 E2]. split; [transitivity (- (y2 - y1)); [ring|rewrite E1; ring]|transitivity (l * (y1 + y2)); [ring|rewrite E2; ring]]. Qed.

Lemma third_sym l x1 y1 x2 y2 : is_slope l x1 y1 x2 y2 -> third l x1 y1 x2 = third l x2 y2 x1.
Proof. intros Hl. rewrite (slope_y _ _ _ _ _ Hl). unfold third. f_equal; ring. Qed.

Lemma third_on_curve l x1 y1 x2 y2 : on_curve (Pt x1 y1) -> is_slope l x1 y1 x2 y2 -> on_curve (third l x1 y1 x2).
Proof.
  intros H1 Hl. cbn. rewrite (curve_b_eq _ _ H1), (slope_a _ _ _ _ _ Hl), (slope_y _ _ _ _ _ Hl). ring.
Qed.

(** Opposite points have a slope only where the curve is singular. *)
Lemma opposite_slope l x1 y1 x2 y2 : on_curve (Pt x1 y1) -> is_slope l x1 y1 x2 y2 -> ~ opposite x1 y1 x2 y2.
Proof.
  intros H1 [E1 E2] [<- E]. assert (y2 = y1) as -> by (apply sub_zero; rewrite E1; ring).
  assert (y1 = 0) as -> by (apply cancel_double; rewrite <- E; ring).
  apply (nonsingular x1); [cbn in H1; rewrite <- H1; ring|].
  transitivity (l * (0 + 0)); [rewrite E2|]; ring.
Qed.

(** ** Commutativity, inverses, closure *)

Lemma padd_Inf_r P : padd P Inf = P.
Proof. by destruct P. Qed.

Lemma opposite_sym x1 y1 x2 y2 : opposite x1 y1 x2 y2 -> opposite x2 y2 x1 y1.
Proof. intros [-> E]. split; [done|]. rewrite <- E. ring. Qed.

Lemma opposite_iff x1 y1 x2 y2 : opposite x1 y1 x2 y2 <-> Pt x2 y2 = neg (Pt x1 y1).
Proof.
  unfold opposite. cbn. split; [intros [-> E]; f_equal; transitivity (y1 + y2 - y1); [ring|rewrite E; ring]|].
  intros E. injection E as -> ->. split; [done|ring].
Qed.

Lemma padd_opposite x1 y1 x2 y2 : opposite x1 y1 x2 y2 -> padd (Pt x1 y1) (Pt x2 y2) = Inf.
Proof. intros Ho. unfold padd. by rewrite decide_True. Qed.

(** Two points are opposite or have a slope. *)
Lemma opposite_or_slope x1 y1 x2 y2 :
  on_curve (Pt x1 y1) -> on_curve (Pt x2 y2) ->
  opposite x1 y1 x2 y2 \/ exists l, is_slope l x1 y1 x2 y2 /\ padd (Pt x1 y1) (Pt x2 y2) = third l x1 y1 x2.
Proof.
  intros H1 H2. destruct (decide (x1 = x2 /\ y1 + y2 = 0)) as [Ho|Hno]; [by left|right].
  exists (slope x1 y1 x2 y2). pose proof (slope_ok _ _ _ _ H1 H2 Hno). split; [done|]. by apply (padd_third _ _ _ _ y2).
Qed.

Lemma padd_comm P Q : on_curve P -> on_curve Q -> padd P Q = padd Q P.
Proof.
  destruct P as [|x1 y1], Q as [|x2 y2]; try done. intros H1 H2.
  destruct (opposite_or_slope _ _ _ _ H1 H2) as [Ho|(l & Hl & ->)].
  - by rewrite !padd_opposite by eauto using opposite_sym.
  - pose proof (is_slope_sym _ _ _ _ _ Hl) as Hl'. rewrite (padd_third l x2 y2 x1 y1 H2 H1 (opposite_slope _ _ _ _ _ H2 Hl') Hl').
    by apply third_sym.
Qed.

Lemma padd_on_curve P Q : on_curve P -> on_curve Q -> on_curve (padd P Q).
Proof.
  destruct P as [|x1 y1], Q as [|x2 y2]; try done. intros H1 H2.
  destruct (opposite_or_slope _ _ _ _ H1 H2) as [Ho|(l & Hl & ->)]; [by rewrite padd_opposite|by apply (third_on_curve _ _ _ _ y2)].
Qed.

Lemma neg_on_curve P : on_curve P -> on_curve (neg P).
Proof. destruct P as [|x y]; [done|]. cbn. intros <-. ring. Qed.

Lemma padd_neg P : padd P (neg P) = Inf.
Proof. destruct P as [|x y]; [done|]. apply padd_opposite. split; [done|ring]. Qed.

Lemma neg_neg P : neg (neg P) = P.
Proof. destruct P as [|x y]; [done|]. cbn. f_equal. ring. Qed.

(** Adding the opposite takes back an addition. *)
Lemma neg_padd_cancel P Q : on_curve P -> on_curve Q -> padd (neg P) (padd P Q) = Q.
Proof.
  destruct P as [|x1 y1], Q as [|x2 y2]; try done; intros H1 H2.
  { cbn [padd]. rewrite padd_comm, padd_neg; [done|by apply neg_on_curve|done]. }
  destruct (opposite_or_slope _ _ _ _ H1 H2) as [Ho|(l & Hl & ->)].
  - rewrite padd_opposite by done. apply opposite_iff in Ho as ->. done.
  - pose proof (third_on_curve _ _ _ _ _ H1 Hl) as H3. pose proof (neg_on_curve _ H1) as H1'. unfold third in *.
    set (x3 := l * l - x1 - x2) in *. set (y3 := l * (x1 - x3) - y1) in *.
    assert (Hs : is_slope (- l) x1 (- y1) x3 y3).
    { unfold is_slope, y3, x3. rewrite (slope_a _ _ _ _ _ Hl), (slope_y _ _ _ _ _ Hl). split; ring. }
    change (neg (Pt x1 y1)) with (Pt x1 (- y1)) in *.
    rewrite (padd_third (- l) x1 (- y1) x3 y3 H1' H3 (opposite_slope _ _ _ _ _ H1' Hs) Hs).
    unfold third. rewrite (slope_y _ _ _ _ _ Hl). unfold x3. f_equal; ring.
Qed.

(** ** Associativity *)

(** Where the lines through [P1], [P2] and [P2], [P3] differ, everything is
    expressed by [x2], [x3], the slopes [l], [m] and [t]; the slopes of the two
    further lines are [t - l] and [t - m]. *)
Lemma distinct_lines l m x1 y1 x2 y2 x3 y3 :
  is_slope l x1 y1 x2 y2 -> is_slope m x2 y2 x3 y3 -> l <> m ->
  exists t, x1 = x3 + t * (l - m) /\ y1 = y2 - l * (x2 - x1) /\ y3 = y2 + m * (x3 - x2) /\
    y2 = ((l + m) * (x2 - x3) + t * (x1 + x2 + x3 - l * l)) / (1 + 1).
Proof.
  intros Hl Hm Hne. assert (Hd : l - m <> 0) by (by rewrite sub_zero). set (t := (x1 - x3) / (l - m)).
  assert (Hx : x1 = x3 + t * (l - m)) by (unfold t; by field).
  assert (Hy1 : y1 = y2 - l * (x2 - x1)) by (rewrite (slope_y _ _ _ _ _ Hl); ring). pose proof (slope_y _ _ _ _ _ Hm) as Hy3.
  exists t. split_and!; try done. apply (mul_cancel (1 + 1)); [done|]. apply (mul_cancel (l - m)); [done|].
  pose proof (slope_a _ _ _ _ _ Hl) as E1. rewrite (slope_a _ _ _ _ _ Hm) in E1. clearbody t. clear Hl Hm. subst y1 y3.
  apply sub_zero in E1. apply sub_zero. transitivity (- (m * (y2 + (y2 + m * (x3 - x2))) - x2 * x2 - x2 * x3 - x3 * x3 -
    (l * (y2 - l * (x2 - x1) + y2) - x1 * x1 - x1 * x2 - x2 * x2))); [|rewrite E1; ring]. clear E1. subst x1. by field.
Qed.

Lemma assoc_distinct l m x1 y1 x2 y2 x3 y3 :
  on_curve (Pt x1 y1) -> on_curve (Pt x2 y2) -> on_curve (Pt x3 y3) ->
  is_slope l x1 y1 x2 y2 -> is_slope m x2 y2 x3 y3 -> l <> m ->
  padd (third l x1 y1 x2) (Pt x3 y3) = padd (Pt x1 y1) (third m x2 y2 x3).
Proof.
  intros H1 H2 H3 Hl Hm Hne. destruct (distinct_lines _ _ _ _ _ _ _ _ Hl Hm Hne) as (t & Ex1 & Ey1 & Ey3 & Ey2).
  pose proof (third_on_curve _ _ _ _ _ H1 Hl) as H4. pose proof (third_on_curve _ _ _ _ _ H2 Hm) as H5.
  pose proof (slope_a _ _ _ _ _ Hl) as Ea. unfold third in *.
  set (x4 := l * l - x1 - x2) in *. set (y4 := l * (x1 - x4) - y1) in *.
  set (x5 := m * m - x2 - x3) in *. set (y5 := m * (x2 - x5) - y2) in *.
  assert (Hs4 : is_slope (t - l) x4 y4 x3 y3).
  { unfold is_slope. rewrite Ea. unfold y4, x4. clear - F_field two_nz Ex1 Ey1 Ey2 Ey3. subst y1 y3. subst y2. subst x1. split; by field. }
  assert (Hs5 : is_slope (t - m) x1 y1 x5 y5).
  { unfold is_slope. rewrite Ea. unfold y5, x5. clear - F_field two_nz Ex1 Ey1 Ey2 Ey3. subst y1 y3. subst y2. subst x1. split; by field. }
  rewrite (padd_third (t - l) x4 y4 x3 y3 H4 H3 (opposite_slope _ _ _ _ _ H4 Hs4) Hs4).
  rewrite (padd_third (t - m) x1 y1 x5 y5 H1 H5 (opposite_slope _ _ _ _ _ H1 Hs5) Hs5).
  unfold third, y4, x4, x5. clear - F_field two_nz Ex1 Ey1 Ey2 Ey3. subst y1 y3. subst y2. subst x1. f_equal; by field.
Qed.

(** Three points on one line add up to infinity, or the outer two are equal. *)
Lemma same_line l x1 y1 x2 y2 x3 y3 :
  is_slope l x1 y1 x2 y2 -> is_slope l x2 y2 x3 y3 -> x1 = x3 /\ y1 = y3 \/ x1 + x2 + x3 = l * l.
Proof.
  intros Hl Hm. pose proof (slope_a _ _ _ _ _ Hl) as E. rewrite (slope_a _ _ _ _ _ Hm) in E. apply sub_zero in E.
  pose proof (slope_y _ _ _ _ _ Hm) as Hy3. pose proof (slope_y _ _ _ _ _ (is_slope_sym _ _ _ _ _ Hl)) as Hy1.
  assert ((x1 - x3) * (x1 + x2 + x3 - l * l) = 0) as [Ex|Es]%mul_zero.
  { rewrite <- E, Hy1, Hy3. ring. }
  - left. apply sub_zero in Ex as ->. split; [done|]. by rewrite Hy1, Hy3.
  - right. by apply sub_zero.
Qed.

Lemma third_collinear l x1 y1 x2 y2 x3 y3 :
  is_slope l x1 y1 x2 y2 -> is_slope l x2 y2 x3 y3 -> x1 + x2 + x3 = l * l -> third l x1 y1 x2 = neg (Pt x3 y3).
Proof.
  intros Hl Hm Es. cbn. pose proof (slope_y _ _ _ _ _ Hm) as Hy3. pose proof (slope_y _ _ _ _ _ (is_slope_sym _ _ _ _ _ Hl)) as Hy1.
  unfold third. rewrite <- Es, Hy3, Hy1. f_equal; ring.
Qed.

Lemma assoc_same l x1 y1 x2 y2 x3 y3 :
  on_curve (Pt x1 y1) -> on_curve (Pt x2 y2) -> on_curve (Pt x3 y3) ->
  is_slope l x1 y1 x2 y2 -> is_slope l x2 y2 x3 y3 ->
  padd (third l x1 y1 x2) (Pt x3 y3) = padd (Pt x1 y1) (third l x2 y2 x3).
Proof.
  intros H1 H2 H3 Hl Hm. destruct (same_line _ _ _ _ _ _ _ Hl Hm) as [[-> ->]|Es].
  - rewrite (third_sym _ _ _ _ _ Hl). apply padd_comm; [|done]. by apply (third_on_curve _ _ _ _ y3).
  - rewrite (third_collinear _ _ _ _ _ _ _ Hl Hm Es), (third_sym _ _ _ _ _ Hm).
    rewrite (third_collinear l x3 y3 x2 y2 x1 y1); [|by apply is_slope_sym..|rewrite <- Es; ring].
    by rewrite padd_comm, !padd_neg by eauto using neg_on_curve.
Qed.

Theorem padd_assoc P Q R : on_curve P -> on_curve Q -> on_curve R -> padd (padd P Q) R = padd P (padd Q R).
Proof.
  intros HP HQ HR. destruct P as [|x1 y1]; [done|]. destruct Q as [|x2 y2]; [done|]. destruct R as [|x3 y3].
  { by rewrite !padd_Inf_r. }
  destruct (opposite_or_slope _ _ _ _ HP HQ) as [Ho|(l & Hl & El)].
  { rewrite padd_opposite by done. apply opposite_iff in Ho as ->. symmetry.
    rewrite <- (neg_neg (Pt x1 y1)) at 1. apply neg_padd_cancel; [by apply neg_on_curve|done]. }
  destruct (opposite_or_slope _ _ _ _ HQ HR) as [Ho|(m & Hm & Em)].
  { rewrite (padd_opposite x2 y2) by done. apply opposite_iff in Ho as E. rewrite E.
    rewrite padd_comm, (padd_comm (Pt x1 y1)); [by apply neg_padd_cancel|done..|by apply padd_on_curve|by rewrite <- E]. }
  rewrite El, Em. destruct (decide (l = m)) as [<-|Hne]; [by apply (assoc_same l x1 y1 x2 y2 x3 y3)|by apply assoc_distinct].
Qed.

(** ** Multiples *)

Definition mult (k : Z) (P : point) : point := Z.iter k (padd P) Inf.

Lemma mult_0 P : mult 0 P = Inf.
Proof. done. Qed.

Lemma mult_succ k P : (0 <= k)%Z -> mult (Z.succ k) P = padd P (mult k P).
Proof. intros Hk. destruct k as [|p|p]; [done| |lia]. unfold mult. rewrite <- Pos2Z.inj_succ. apply Pos.iter_succ. Qed.

Lemma mult_1 P : mult 1 P = P.
Proof. by destruct P. Qed.

Lemma mult_on_curve k P : on_curve P -> on_curve (mult k P).
Proof.
  intros HP. destruct (Z_lt_le_dec k Z0) as [Hk|Hk]; [by destruct k; try lia|]. pattern k. apply natlike_ind; [done| |done].
  intros i Hi IH. rewrite mult_succ by done. by apply padd_on_curve.
Qed.

Lemma mult_add k l P : on_curve P -> (0 <= k)%Z -> (0 <= l)%Z -> mult (k + l) P = padd (mult k P) (mult l P).
Proof.
  intros HP Hk Hl. pattern k. apply natlike_ind; [done| |done]. intros i Hi IH.
  rewrite Z.add_succ_l, !mult_succ, IH by lia. symmetry. apply padd_assoc; auto using mult_on_curve.
Qed.

Lemma mult_mul k l P : on_curve P -> (0 <= k)%Z -> (0 <= l)%Z -> mult (k * l) P = mult k (mult l P).
Proof.
  intros HP Hk Hl. pattern k. apply natlike_ind; [done| |done]. intros i Hi IH.
  rewrite Z.mul_succ_l, Z.add_comm, mult_add, mult_succ, IH by (done || nia). done.
Qed.

Lemma mult_Inf k : mult k Inf = Inf.
Proof. destruct k as [|p|p]; [done| |done]. unfold mult. cbn. apply Pos.iter_invariant; [by intros x ->|done]. Qed.

(** *** The order of a point *)

Lemma mult_coprime k n P :
  on_curve P -> (0 < k)%Z -> (0 < n)%Z -> Z.gcd k n = 1%Z -> mult k P = Inf -> mult n P = Inf -> P = Inf.
Proof.
  intros HP Hk Hn Hg Ek En. destruct (bezout_nonneg k n Hk Hn Hg) as (u & w & Hu & Hw & E).
  assert (E1 : mult (u * k) P = Inf) by (rewrite mult_mul, Ek, mult_Inf; try done; lia).
  rewrite E, mult_add, mult_mul, En, mult_Inf, mult_1 in E1 by (done || lia). done.
Qed.

Lemma mult_sub i j P : on_curve P -> (0 <= i <= j)%Z -> mult i P = mult j P -> mult (j - i) P = Inf.
Proof.
  intros HP Hij E. replace j with (i + (j - i))%Z in E by lia. rewrite mult_add in E by (done || lia).
  rewrite <- (neg_padd_cancel (mult i P) (mult (j - i) P)) by auto using mult_on_curve.
  rewrite <- E, padd_comm, padd_neg; auto using neg_on_curve, mult_on_curve.
Qed.
End Curve.
End Ec.
