(* ===== verification/EcJacobian.v ===== *)
(** * Jacobian coordinates

    The formulas of the point operations of p256_ec.c over a field, with [a = -3],
    and the point that coordinates X, Y, Z stand for: (X/Z^2, Y/Z^3), or infinity
    where Z is 0. *)

From Stdlib Require Import Field.
From S2P Require Import Prelude EcLaw.

Module Jac.
Section Jacobian.
Context {F : Type} {fzero fone : F} {fadd fmul fsub : F -> F -> F} {fopp : F -> F} {fdiv : F -> F -> F} {finv : F -> F}.
Context `{!EqDecision F}.
Hypothesis F_field : field_theory fzero fone fadd fmul fsub fopp fdiv finv eq.
Add Field F_tactics : F_field.

#[local] Notation "0" := fzero.
#[local] Notation "1" := fone.
#[local] Infix "+" := fadd.
#[local] Infix "*" := fmul.
#[local] Infix "-" := fsub.
#[local] Infix "/" := fdiv.
#[local] Notation "- x" := (fopp x).

Hypothesis two_nz : 1 + 1 <> 0.
#[local] Notation a := (- (1 + 1 + 1)).
#[local] Notation point := (@Ec.point F).
#[local] Notation padd := (@Ec.padd F 0 1 fadd fmul fsub fdiv _ a).

Definition stands (X Y Z : F) (P : point) : Prop :=
  match P with
  | Ec.Inf => Z = 0
  | Ec.Pt x y => Z <> 0 /\ X = x * (Z * Z) /\ Y = y * (Z * Z * Z)
  end.

Lemma mul_nz x y : x <> 0 -> y <> 0 -> x * y <> 0.
Proof. intros Hx Hy E. by apply (Ec.mul_zero F_field) in E as [|]. Qed.

Lemma double_zero x : x + x = 0 -> x = 0.
Proof. intros E. apply (Ec.cancel_double F_field two_nz). rewrite <- E. ring. Qed.

(** ** Doubling *)

Lemma double_stands X Y Z P :
  stands X Y Z P ->
  let alpha := (1 + 1 + 1) * ((X + Z * Z) * (X - Z * Z)) in
  let beta := (1 + 1) * (1 + 1) * (X * (Y * Y)) in
  let X3 := alpha * alpha - beta - beta in
  let Y3 := alpha * (beta - X3) - (1 + 1) * (1 + 1) * (1 + 1) * (Y * Y * (Y * Y)) in
  let Z3 := (Y + Z) * (Y + Z) - Y * Y - Z * Z in
  stands X3 Y3 Z3 (padd P P).
Proof.
  cbv zeta. destruct P as [|x y]; cbn.
  { intros ->. ring. }
  intros (HZ & -> & ->). case_decide as Hd.
  { destruct Hd as [_ ->%double_zero]. cbn. ring. }
  assert (Hy : y <> 0) by (intros ->; apply Hd; split; [done|ring]). unfold Ec.third, Ec.slope. rewrite decide_True by done. cbn.
  split; [|split; by field].
  assert (E : forall A B, (A + B) * (A + B) - A * A - B * B = (1 + 1) * (A * B)) by (intros; ring). rewrite E.
  repeat apply mul_nz; done.
Qed.

(** ** Addition *)

(** The coordinates of the sum from [u] and [s], the coordinates of the first
    point scaled, and [h] and [r], how much those of the second differ. *)
Definition sum_X (u h r : F) : F :=
  let i := (h + h) * (h + h) in (r + r) * (r + r) - h * i - u * i - u * i.
Definition sum_Y (u s h r : F) : F :=
  let i := (h + h) * (h + h) in (u * i - sum_X u h r) * (r + r) - s * (h * i) - s * (h * i).

Variable b : F.
#[local] Notation on_curve := (@Ec.on_curve F fadd fmul a b).

Lemma sum_stands x1 y1 x2 y2 zz u s h r :
  on_curve (Ec.Pt x1 y1) -> on_curve (Ec.Pt x2 y2) -> Ec.Pt x1 y1 <> Ec.Pt x2 y2 -> zz <> 0 ->
  u = x1 * (zz * zz) -> s = y1 * (zz * zz * zz) -> h = x2 * (zz * zz) - u -> r = y2 * (zz * zz * zz) - s ->
  stands (sum_X u h r) (sum_Y u s h r) ((1 + 1) * zz * h) (padd (Ec.Pt x1 y1) (Ec.Pt x2 y2)).
Proof.
  intros H1 H2 Hne Hz -> -> -> ->. unfold padd. case_decide as Hd.
  { destruct Hd as [-> _]. cbn. ring. }
  assert (Hx : x1 <> x2).
  { intros <-. destruct (Ec.slope_ok F_field _ _ two_nz _ _ _ _ H1 H2 Hd) as [E _]. apply Hne. f_equal.
    symmetry. apply (Ec.sub_zero F_field). rewrite E. ring. }
  assert (Hd' : x2 - x1 <> 0) by (rewrite (Ec.sub_zero F_field); congruence).
  unfold Ec.third, Ec.slope. rewrite decide_False by done. cbn. unfold sum_Y, sum_X. split; [|split; by field].
  replace (x2 * (zz * zz) - x1 * (zz * zz)) with ((x2 - x1) * (zz * zz)) by ring. repeat apply mul_nz; done.
Qed.

(** Equal coordinates are told by [h] and [r]. *)
Lemma same_point x1 y1 x2 y2 zz :
  zz <> 0 -> x2 * (zz * zz) - x1 * (zz * zz) = 0 /\ y2 * (zz * zz * zz) - y1 * (zz * zz * zz) = 0 <-> Ec.Pt x1 y1 = Ec.Pt x2 y2.
Proof.
  intros Hz. split.
  - intros [Ex Ey]. assert (Hzz : zz * zz <> 0) by (by apply mul_nz). assert (Hzzz : zz * zz * zz <> 0) by (by apply mul_nz).
    f_equal; symmetry; [apply (Ec.mul_cancel F_field (zz * zz))|apply (Ec.mul_cancel F_field (zz * zz * zz))]; try done;
      apply (Ec.sub_zero F_field); [rewrite <- Ex|rewrite <- Ey]; ring.
  - intros E. injection E as -> ->. split; ring.
Qed.
End Jacobian.
End Jac.
