(* ===== verification/P256Curve.v ===== *)
(** * The field and the curve P-256

    The integers modulo the prime of P-256 as a field, the curve over it, the
    numbers that field elements stand for, and what each field operation of
    p256_ec.c computes. *)

From Stdlib Require Import Field Zmod.ZmodDef Zmod.ZmodBase Zmod.ZmodInv.
From S2P Require Import Prelude Words P256 P256Props P256Ec P256Field P256Mul Primality EcLaw.

#[local] Open Scope Z_scope.
#[local] Open Scope c_scope.

(** ** The field *)

Notation Fp := (Zmod.Zmod prime_p).
Definition fp (z : Z) : Fp := Zmod.of_Z prime_p z.

Declare Scope fp_scope.
Delimit Scope fp_scope with Fp.
Notation "0" := (@Zmod.zero prime_p) : fp_scope.
Notation "1" := (@Zmod.one prime_p) : fp_scope.
Infix "+" := (@Zmod.add prime_p) : fp_scope.
Infix "-" := (@Zmod.sub prime_p) : fp_scope.
Infix "*" := (@Zmod.mul prime_p) : fp_scope.
Infix "/" := (@Zmod.mdiv prime_p) : fp_scope.
Notation "- x" := (@Zmod.opp prime_p x) : fp_scope.

#[export] Instance Fp_eq_dec : EqDecision Fp.
Proof. intros x y. destruct (Zmod.eqb x y) eqn:E; [left|right]; destruct (Zmod.eqb_spec x y); done. Defined.

Lemma Fp_theory : field_theory 0%Fp 1%Fp Zmod.add Zmod.mul Zmod.sub Zmod.opp Zmod.mdiv Zmod.inv (@eq Fp).
Proof. exact (Zmod.field_theory prime_p prime_p_prime). Qed.
Add Field Fp_field : Fp_theory.

Lemma fp_eq x y : fp x = fp y <-> cong prime_p x y.
Proof. unfold fp. rewrite Zmod.of_Z_inj. symmetry. by apply cong_mod. Qed.

Lemma fp_add x y : fp (x + y) = (fp x + fp y)%Fp.
Proof. apply Zmod.of_Z_add. Qed.
Lemma fp_sub x y : fp (x - y) = (fp x - fp y)%Fp.
Proof. apply Zmod.of_Z_sub. Qed.
Lemma fp_mul x y : fp (x * y) = (fp x * fp y)%Fp.
Proof. apply Zmod.of_Z_mul. Qed.
Lemma fp_opp x : fp (- x) = (- fp x)%Fp.
Proof. apply Zmod.of_Z_opp. Qed.

(** ** The curve *)

Notation point := (@Ec.point Fp).
Notation Inf := (@Ec.Inf Fp).
Notation Pt := (@Ec.Pt Fp).
#[export] Existing Instance Ec.point_eq_dec.

Definition curve_a : Fp := fp (-3).
Definition on_p256 : point -> Prop := @Ec.on_curve Fp Zmod.add Zmod.mul curve_a (fp curve_b).
Definition add_points : point -> point -> point := @Ec.padd Fp 0%Fp 1%Fp Zmod.add Zmod.mul Zmod.sub Zmod.mdiv _ curve_a.
Definition mult_point : Z -> point -> point := @Ec.mult Fp 0%Fp 1%Fp Zmod.add Zmod.mul Zmod.sub Zmod.mdiv _ curve_a.

(** Distinct small numbers are distinct elements. *)
Lemma fp_neq x y : x mod prime_p <> y mod prime_p -> fp x <> fp y.
Proof. intros H E. apply H. apply fp_eq in E. by apply cong_mod in E. Qed.

Lemma fp_two : (1 + 1)%Fp <> 0%Fp.
Proof. apply (fp_neq 2 0). vm_compute. discriminate. Qed.

Lemma fp_1 : fp 1 = 1%Fp.
Proof. done. Qed.
Lemma fp_2 : fp 2 = (1 + 1)%Fp.
Proof. rewrite <- fp_1, <- fp_add. done. Qed.
Lemma fp_3 : fp 3 = (1 + 1 + 1)%Fp.
Proof. rewrite <- fp_1, <- !fp_add. done. Qed.
Lemma curve_a_eq : curve_a = (- (1 + 1 + 1))%Fp.
Proof. by rewrite <- fp_3, <- fp_opp. Qed.

Lemma p256_nonsingular x :
  (x * x * x + curve_a * x + fp curve_b)%Fp = 0%Fp -> ((1 + 1 + 1) * x * x + curve_a)%Fp <> 0%Fp.
Proof.
  rewrite curve_a_eq. intros Hc Hs. assert (H3 : fp 3 <> 0%Fp) by (apply (fp_neq 3 0); vm_compute; discriminate).
  assert (Hx : (fp 3 * ((x - 1) * (x + 1)))%Fp = 0%Fp) by (rewrite <- Hs, fp_3; ring).
  apply (Ec.mul_zero Fp_theory) in Hx as [|Hx]; [done|]. apply (Ec.mul_zero Fp_theory) in Hx as [Hx|Hx].
  - assert (x = 1%Fp) as -> by (transitivity (x - 1 + 1)%Fp; [ring|rewrite Hx; ring]).
    assert (E : fp curve_b = fp 2).
    { rewrite fp_2. transitivity (1 * 1 * 1 + - (1 + 1 + 1) * 1 + fp curve_b + (1 + 1))%Fp; [ring|]. rewrite Hc. ring. }
    revert E. apply fp_neq. vm_compute. discriminate.
  - assert (x = (- (1))%Fp) as -> by (transitivity (x + 1 - 1)%Fp; [ring|rewrite Hx; ring]).
    assert (E : fp curve_b = fp (-2)).
    { rewrite (fp_opp 2 : fp (-2) = _), fp_2. transitivity (- (1) * - (1) * - (1) + - (1 + 1 + 1) * - (1) + fp curve_b - (1 + 1))%Fp; [ring|].
      rewrite Hc. ring. }
    revert E. apply fp_neq. vm_compute. discriminate.
Qed.

(** ** The number of a field element *)

Definition Rinv : Z := val kRInv.

Lemma R_Rinv : (fp R257 * fp Rinv)%Fp = 1%Fp.
Proof. rewrite <- fp_mul, <- fp_1. apply fp_eq, cong_mod; [done|]. vm_compute. reflexivity. Qed.

(** Field elements are in Montgomery form. *)
Definition fe (f : felem) : Fp := (fp (fval false f) * fp Rinv)%Fp.

Definition rep (f : felem) (x : Fp) : Prop := tight f /\ fe f = x.

Create HintDb felem discriminated.
#[export] Hint Constants Opaque : felem.

Lemma rep_eq f x y : rep f x -> x = y -> rep f y.
Proof. by intros ? <-. Qed.

Lemma fe_cong f z : cong prime_p (fval false f) z -> fe f = (fp z * fp Rinv)%Fp.
Proof. intros E. unfold fe. f_equal. by apply fp_eq. Qed.

Lemma fe_product f z : cong prime_p (fval false f * R257) z -> fe f = (fp z * fp Rinv * fp Rinv)%Fp.
Proof.
  intros E. apply fp_eq in E. rewrite <- E, fp_mul. unfold fe.
  transitivity (fp (fval false f) * fp Rinv * (fp R257 * fp Rinv))%Fp; [rewrite R_Rinv; ring|ring].
Qed.

Lemma rep_mul f g x y : rep f x -> rep g y -> rep (felem_mul f g) (x * y)%Fp.
Proof.
  intros [Hf <-] [Hg <-]. destruct (felem_mul_ok f g Hf Hg) as (Ht & E & _). split; [done|].
  rewrite (fe_product _ _ E), fp_mul. unfold fe. ring.
Qed.

Lemma rep_square f x : rep f x -> rep (felem_square f) (x * x)%Fp.
Proof.
  intros [Hf <-]. destruct (felem_square_ok f Hf) as (Ht & E & _). split; [done|].
  rewrite (fe_product _ _ E), fp_mul. unfold fe. ring.
Qed.

Lemma rep_sum f g x y : rep f x -> rep g y -> rep (felem_sum f g) (x + y)%Fp.
Proof.
  intros [Hf <-] [Hg <-]. destruct (felem_sum_ok f g Hf Hg) as (Ht & E). split; [done|].
  rewrite (fe_cong _ _ E), fp_add. unfold fe. ring.
Qed.

Lemma rep_diff f g x y : rep f x -> rep g y -> rep (felem_diff f g) (x - y)%Fp.
Proof.
  intros [Hf <-] [Hg <-]. destruct (felem_diff_ok f g Hf Hg) as (Ht & E). split; [done|].
  rewrite (fe_cong _ _ E), fp_sub. unfold fe. ring.
Qed.

Lemma rep_scalar k f g x : rep f x -> tight g -> cong prime_p (fval false g) (k * fval false f) -> rep g (fp k * x)%Fp.
Proof. intros [Hf <-] Hg E. split; [done|]. rewrite (fe_cong _ _ E), fp_mul. unfold fe. ring. Qed.

Lemma rep_scalar_3 f x : rep f x -> rep (felem_scalar_3 f) ((1 + 1 + 1) * x)%Fp.
Proof. intros Hf. destruct (felem_scalar_3_ok f (proj1 Hf)). rewrite <- fp_3. by apply (rep_scalar 3 f). Qed.

Lemma rep_scalar_4 f x : rep f x -> rep (felem_scalar_4 f) ((1 + 1) * (1 + 1) * x)%Fp.
Proof. intros Hf. destruct (felem_scalar_4_ok f (proj1 Hf)). rewrite <- fp_2, <- fp_mul. by apply (rep_scalar 4 f). Qed.

Lemma rep_scalar_8 f x : rep f x -> rep (felem_scalar_8 f) ((1 + 1) * (1 + 1) * (1 + 1) * x)%Fp.
Proof. intros Hf. destruct (felem_scalar_8_ok f (proj1 Hf)). rewrite <- fp_2, <- !fp_mul. by apply (rep_scalar 8 f). Qed.

Lemma rep_zero : rep kZero 0%Fp.
Proof. split; [repeat split; cbn; lia|]. unfold fe. rewrite fval_kZero. change (fp 0) with 0%Fp. ring. Qed.

Lemma fval_kOne : fval false kOne = R257 - 2 * prime_p.
Proof. vm_compute. reflexivity. Qed.

Lemma rep_one : rep kOne 1%Fp.
Proof.
  split; [repeat split; cbn; lia|]. rewrite (fe_cong _ R257); [apply R_Rinv|]. rewrite fval_kOne. exists (-2).
  generalize prime_p. intros p. ring.
Qed.

#[export] Hint Resolve rep_mul rep_square rep_sum rep_diff rep_scalar_3 rep_scalar_4 rep_scalar_8 rep_zero rep_one : felem.

Lemma fe_R f : (fe f * fp R257)%Fp = fp (fval false f).
Proof. unfold fe. transitivity (fp (fval false f) * (fp R257 * fp Rinv))%Fp; [ring|rewrite R_Rinv; ring]. Qed.

Lemma rep_is_zero f x : rep f x -> felem_is_zero_vartime f = Ok (bool_decide (x = 0%Fp)).
Proof.
  intros [Hf <-]. destruct (felem_is_zero_ok f Hf) as (b & -> & Hb). f_equal. apply eq_bool_prop_intro. rewrite Is_true_true, Hb, bool_decide_spec, <- fp_eq.
  change (fp 0) with 0%Fp. split; intros E; [unfold fe; rewrite E; ring|rewrite <- fe_R, E; ring].
Qed.

(** *** Inversion *)

Lemma rep_pow_mul f g x m n : 0 <= m -> 0 <= n -> rep f (Zmod.pow x m) -> rep g (Zmod.pow x n) -> rep (felem_mul f g) (Zmod.pow x (m + n)).
Proof. intros Hm Hn Hf Hg. rewrite Zmod.pow_add_r_nonneg by done. by apply rep_mul. Qed.

Lemma rep_pow_square f x m : 0 <= m -> rep f (Zmod.pow x m) -> rep (felem_square f) (Zmod.pow x (2 * m)).
Proof. intros Hm Hf. replace (2 * m) with (m + m) by lia. rewrite Zmod.pow_add_r_nonneg by done. by apply rep_square. Qed.

Lemma rep_pow_times k f x m : 0 <= m -> rep f (Zmod.pow x m) -> rep (square_times k f) (Zmod.pow x (2 ^ Z.of_nat k * m)).
Proof.
  intros Hm Hf. induction k as [|k IH]; [by rewrite Z.mul_1_l|]. unfold square_times in *. cbn [Nat.iter nat_rect].
  rewrite Nat2Z.inj_succ, Z.pow_succ_r, <- Z.mul_assoc by lia. apply rep_pow_square; [lia|done].
Qed.

(** Goes through the assignments of [felem_inv], keeping for each variable the
    power it holds. *)
Ltac power_step :=
  lazymatch goal with
  | |- rep (let y := ?e in @?B y) ?z =>
    let v := fresh "v" in
    pose (v := e); change (rep (B v) z); cbv beta;
    first
      [ eassert (rep v _) by (unfold v; eapply rep_pow_mul; [| |eassumption|eassumption]; by vm_compute)
      | eassert (rep v _) by (unfold v; eapply rep_pow_square; [|eassumption]; by vm_compute)
      | eassert (rep v _) by (unfold v; eapply rep_pow_times; [|eassumption]; by vm_compute)
      | eassert (rep v _) by eassumption ];
    clearbody v
  end.

Lemma felem_inv_power f x : rep f x -> rep (felem_inv f) (Zmod.pow x (prime_p - 2)).
Proof.
  intros Hf. assert (H1 : rep f (Zmod.pow x 1)) by (by rewrite Zmod.pow_1_r). clear Hf. cbv beta delta [felem_inv felem_assign].
  repeat power_step. eapply rep_eq; [eapply rep_pow_mul; [| |eassumption|eassumption]; by vm_compute|].
  apply (f_equal (Zmod.pow x)). vm_compute. reflexivity.
Qed.

Lemma rep_inv f x : rep f x -> rep (felem_inv f) (Zmod.inv x).
Proof.
  intros Hf. eapply rep_eq; [by apply felem_inv_power|]. destruct (decide (x = 0%Fp)) as [->|Hx].
  - rewrite Zmod.inv_0. by apply Zmod.pow_0_l.
  - by apply Zmod.fermat_inv; [|apply prime_p_prime].
Qed.
#[export] Hint Resolve rep_inv : felem.
