(* ===== verification/P256Points.v ===== *)
(** * Point operations of P-256

    What the point operations of p256_ec.c compute: the group law of the curve,
    on the points that Jacobian coordinates stand for. *)

From Stdlib Require Import Field Zmod.ZmodDef Zmod.ZmodBase Zmod.ZmodInv.
From S2P Require Import Prelude Words P256 P256Props P256Ec P256Field P256Mul Primality EcLaw EcJacobian P256Curve.

#[local] Open Scope Z_scope.
#[local] Open Scope c_scope.

#[global] Strategy 1000 [felem_sum felem_diff felem_mul felem_square felem_scalar_3 felem_scalar_4 felem_scalar_8 felem_inv].

(** Computes what an expression of field elements stands for. *)
Ltac solve_rep := typeclasses eauto 30 with felem nocore.

Definition stands : Fp -> Fp -> Fp -> point -> Prop := @Jac.stands Fp 0%Fp Zmod.mul.

(** What the coordinates of a Jacobian point stand for. *)
Definition jrep (j : jacobian) (P : point) : Prop :=
  exists X Y Z, rep j.1.1 X /\ rep j.1.2 Y /\ rep j.2 Z /\ stands X Y Z P.

Lemma add_points_eq P Q : add_points P Q = @Ec.padd Fp 0%Fp 1%Fp Zmod.add Zmod.mul Zmod.sub Zmod.mdiv _ (- (1 + 1 + 1))%Fp P Q.
Proof. unfold add_points. by rewrite curve_a_eq. Qed.

Lemma double_point_ok j P : jrep j P -> jrep (double_point j) (add_points P P).
Proof.
  destruct j as [[x y] z]. intros (X & Y & Z & Hx & Hy & Hz & HP). cbn [fst snd] in *.
  rewrite add_points_eq. pose proof (Jac.double_stands Fp_theory fp_two X Y Z P HP) as H. cbv zeta in H.
  do 3 eexists. unfold double_point, point_double. cbn [fst snd]. split; [solve_rep|]. split; [solve_rep|]. split; [solve_rep|exact H].
Qed.

(** The values of [u1], [s1], [h] and [r] of the additions. *)
Lemma sum_ok x1 y1 x2 y2 zz u s h r (X Y Z : Fp) :
  on_p256 (Pt x1 y1) -> on_p256 (Pt x2 y2) -> Pt x1 y1 <> Pt x2 y2 -> zz <> 0%Fp ->
  u = (x1 * (zz * zz))%Fp -> s = (y1 * (zz * zz * zz))%Fp -> h = (x2 * (zz * zz) - u)%Fp -> r = (y2 * (zz * zz * zz) - s)%Fp ->
  X = (let i := (h + h) * (h + h) in (r + r) * (r + r) - h * i - u * i - u * i)%Fp ->
  Y = (let i := (h + h) * (h + h) in (u * i - X) * (r + r) - s * (h * i) - s * (h * i))%Fp -> Z = ((1 + 1) * zz * h)%Fp ->
  stands X Y Z (add_points (Pt x1 y1) (Pt x2 y2)).
Proof.
  intros H1 H2 Hne Hz Hu Hs Hh Hr -> -> ->. rewrite add_points_eq. unfold on_p256 in *. rewrite curve_a_eq in *.
  exact (Jac.sum_stands Fp_theory fp_two (fp curve_b) x1 y1 x2 y2 zz u s h r H1 H2 Hne Hz Hu Hs Hh Hr).
Qed.

Lemma point_add_ok x1 y1 z1 x2 y2 z2 P Q :
  jrep (x1, y1, z1) P -> jrep (x2, y2, z2) Q -> on_p256 P -> on_p256 Q -> P <> Inf -> Q <> Inf -> P <> Q ->
  jrep (point_add x1 y1 z1 x2 y2 z2) (add_points P Q).
Proof.
  intros (X1 & Y1 & Z1 & Hx1 & Hy1 & Hz1 & HP) (X2 & Y2 & Z2 & Hx2 & Hy2 & Hz2 & HQ) HcP HcQ HiP HiQ Hne. cbn [fst snd] in *.
  destruct P as [|px py]; [done|]. destruct Q as [|qx qy]; [done|]. destruct HP as (HZ1 & -> & ->). destruct HQ as (HZ2 & -> & ->).
  do 3 eexists. unfold point_add, add_common, add_finish. cbn [fst snd].
  split; [solve_rep|]. split; [solve_rep|]. split; [solve_rep|].
  eapply (sum_ok _ _ _ _ (Z1 * Z2)%Fp); [done..|by apply (Jac.mul_nz Fp_theory)| | | | |reflexivity|reflexivity|]; ring.
Qed.

Lemma point_add_mixed_ok x1 y1 z1 x2 y2 P qx qy :
  jrep (x1, y1, z1) P -> rep x2 qx -> rep y2 qy -> on_p256 P -> on_p256 (Pt qx qy) -> P <> Inf -> P <> Pt qx qy ->
  jrep (point_add_mixed x1 y1 z1 x2 y2) (add_points P (Pt qx qy)).
Proof.
  intros (X1 & Y1 & Z1 & Hx1 & Hy1 & Hz1 & HP) Hx2 Hy2 HcP HcQ HiP Hne. cbn [fst snd] in *.
  destruct P as [|px py]; [done|]. destruct HP as (HZ1 & -> & ->).
  do 3 eexists. unfold point_add_mixed. cbn [fst snd]. split; [solve_rep|]. split; [solve_rep|]. split; [solve_rep|].
  eapply (sum_ok _ _ _ _ Z1); [done..| | | | |reflexivity|reflexivity|]; ring.
Qed.

(** What [h] and [r] of the additions stand for. *)
Lemma add_common_values x1 y1 z1 x2 y2 z2 px py Z1 qx qy Z2 :
  rep x1 (px * (Z1 * Z1))%Fp -> rep y1 (py * (Z1 * Z1 * Z1))%Fp -> rep z1 Z1 ->
  rep x2 (qx * (Z2 * Z2))%Fp -> rep y2 (qy * (Z2 * Z2 * Z2))%Fp -> rep z2 Z2 ->
  let '(_, _, _, h, _, _, r) := add_common x1 y1 z1 x2 y2 z2 in
  let zz := (Z1 * Z2)%Fp in
  rep h (qx * (zz * zz) - px * (zz * zz))%Fp /\ rep r (qy * (zz * zz * zz) - py * (zz * zz * zz))%Fp.
Proof. intros. unfold add_common. cbv zeta. split; (eapply rep_eq; [solve_rep|]); ring. Qed.

(** The variable-time addition tells equal points. *)
Lemma add_or_double_cases x1 y1 z1 x2 y2 z2 P Q :
  jrep (x1, y1, z1) P -> jrep (x2, y2, z2) Q -> P <> Inf -> Q <> Inf ->
  point_add_or_double_vartime x1 y1 z1 x2 y2 z2 =
    Ok (if decide (P = Q) then point_double x1 y1 z1 else point_add x1 y1 z1 x2 y2 z2).
Proof.
  intros (X1 & Y1 & Z1 & Hx1 & Hy1 & Hz1 & HP) (X2 & Y2 & Z2 & Hx2 & Hy2 & Hz2 & HQ) HiP HiQ. cbn [fst snd] in *.
  destruct P as [|px py]; [done|]. destruct Q as [|qx qy]; [done|]. destruct HP as (HZ1 & -> & ->). destruct HQ as (HZ2 & -> & ->).
  pose proof (add_common_values _ _ _ _ _ _ px py Z1 qx qy Z2 Hx1 Hy1 Hz1 Hx2 Hy2 Hz2) as Hv.
  unfold point_add_or_double_vartime, point_add. destruct (add_common x1 y1 z1 x2 y2 z2) as [[[[[[tmp s1] u1] h] j] i] r].
  destruct Hv as [Rh Rr]. rewrite (rep_is_zero _ _ Rh), (rep_is_zero _ _ Rr). cbn [obind].
  rewrite <- bool_decide_and, decide_bool_decide.
  pose proof (Jac.same_point Fp_theory px py qx qy (Z1 * Z2)%Fp (Jac.mul_nz Fp_theory _ _ HZ1 HZ2)) as Hs.
  rewrite (bool_decide_ext _ _ Hs). by case_bool_decide.
Qed.

Lemma point_add_or_double_ok x1 y1 z1 x2 y2 z2 P Q :
  jrep (x1, y1, z1) P -> jrep (x2, y2, z2) Q -> on_p256 P -> on_p256 Q -> P <> Inf -> Q <> Inf ->
  exists j, point_add_or_double_vartime x1 y1 z1 x2 y2 z2 = Ok j /\ jrep j (add_points P Q).
Proof.
  intros H1 H2 HcP HcQ HiP HiQ. eexists. split; [by apply (add_or_double_cases _ _ _ _ _ _ P Q)|].
  case_decide as Hd; [subst Q; exact (double_point_ok (x1, y1, z1) P H1)|by apply point_add_ok].
Qed.

Lemma point_to_affine_ok x y z P :
  jrep (x, y, z) P ->
  match P with
  | Ec.Inf => rep (point_to_affine x y z).1 0%Fp /\ rep (point_to_affine x y z).2 0%Fp
  | Ec.Pt px py => rep (point_to_affine x y z).1 px /\ rep (point_to_affine x y z).2 py
  end.
Proof.
  intros (X & Y & Z & Hx & Hy & Hz & HP). cbn [fst snd] in *. unfold point_to_affine. cbn [fst snd].
  destruct P as [|px py].
  - cbn in HP. subst Z. split; (eapply rep_eq; [solve_rep|]); rewrite Zmod.inv_0; ring.
  - destruct HP as (HZ & -> & ->). split; (eapply rep_eq; [solve_rep|]); field; done.
Qed.
