(* ===== verification/P256Select.v ===== *)
(** * Choosing points of P-256

    The functions of p256_ec.c that copy or choose without branches do what
    branches would do. *)

From S2P Require Import Prelude Words P256 P256Props P256Ec P256Field.

#[local] Open Scope Z_scope.
#[local] Open Scope c_scope.

(** All ones for true. *)
Definition mask_of (b : bool) : Z := if b then u32 (-1) else 0.

Definition limbs (f : felem) : Prop := words f /\ length f = NLIMBS.

Lemma bounded_words f : forall odd, bounded 1 odd f -> words f.
Proof.
  induction f as [|x f IH]; intros odd Hb; [apply words_nil|]. destruct Hb as [Hx Hb]. apply words_cons.
  split; [|by apply (IH (negb odd))]. destruct odd; cbn in Hx; lia.
Qed.

Lemma tight_limbs_ok f : tight f -> limbs f.
Proof. intros (Hl & Hb & _). split; [by apply (bounded_words f false)|done]. Qed.

Lemma ones_land x : 0 <= x < 2 ^ 32 -> Z.land (mask_of true) x = x.
Proof. intros Hx. rewrite Z.land_comm. change (mask_of true) with (Z.ones 32). rewrite Z.land_ones by lia. by apply Z.mod_small. Qed.

Lemma lxor_range x y : 0 <= x < 2 ^ 32 -> 0 <= y < 2 ^ 32 -> 0 <= Z.lxor x y < 2 ^ 32.
Proof.
  intros Hx Hy. assert (E : Z.lxor x y = Z.lxor x y mod 2 ^ 32); [|rewrite E; by apply Z.mod_pos_bound].
  rewrite <- Z.land_ones by lia. apply Z.bits_inj'. intros n Hn. rewrite Z.land_spec, Z.testbit_ones by lia.
  destruct (Z.ltb_spec n 32) as [|Hn']; [rewrite (proj2 (Z.leb_le 0 n)) by lia; by rewrite andb_true_r|].
  rewrite andb_false_r, andb_false_r, Z.lxor_spec. assert (H : forall z, 0 <= z < 2 ^ 32 -> Z.testbit z n = false); [|by rewrite !H].
  intros z Hz. destruct (Z.eq_dec z 0) as [->|]; [apply Z.bits_0|]. apply Z.bits_above_log2; [lia|].
  apply (Z.lt_le_trans _ 32); [|lia]. apply Z.log2_lt_pow2; lia.
Qed.

Lemma copy_conditional_ok out in_ b : limbs out -> limbs in_ -> copy_conditional out in_ (mask_of b) = if b then in_ else out.
Proof.
  intros [Wo Lo] [Wi Li]. rewrite <- Li in Lo. clear Li. revert in_ Wi Lo. unfold copy_conditional.
  induction out as [|o out IH]; intros [|x in_] Wi Lo; try done; [by destruct b|]. apply words_cons in Wo as [Ho Wo].
  apply words_cons in Wi as [Hx Wi]. cbn [zip_with]. rewrite IH by (done || (simpl in Lo; lia)). destruct b.
  - rewrite ones_land by (by apply lxor_range). by rewrite (Z.lxor_comm x), <- Z.lxor_assoc, Z.lxor_nilpotent, Z.lxor_0_l.
  - by rewrite Z.land_0_l, Z.lxor_0_r.
Qed.

Lemma index_mask_ok i index : 0 <= i < 16 -> 0 <= index < 16 -> index_mask i index = mask_of (i =? index).
Proof.
  intros Hi Hx. assert (H : forallb (fun i => forallb (fun x => index_mask i x =? mask_of (i =? x)) (seqZ 0 16)) (seqZ 0 16) = true)
    by (vm_compute; reflexivity).
  rewrite forallb_forall in H. specialize (H i ltac:(apply list_elem_of_In, elem_of_seqZ; lia)). rewrite forallb_forall in H.
  apply Z.eqb_eq, H, list_elem_of_In, elem_of_seqZ. lia.
Qed.

Lemma or_masked_off out table : (length out <= length table)%nat -> or_masked out table (mask_of false) = out.
Proof.
  revert table. unfold or_masked. induction out as [|o out IH]; intros [|t table] H; cbn in H; try done; [lia|].
  cbn [zip_with]. cbn [mask_of]. rewrite Z.land_0_r, Z.lor_0_r. f_equal. apply IH. lia.
Qed.

Lemma or_masked_on f rest : limbs f -> or_masked kZero (f ++ rest) (mask_of true) = f.
Proof.
  intros [W L]. unfold or_masked, kZero. rewrite <- L. clear L. induction f as [|x f IH]; [done|]. apply words_cons in W as [Hx W].
  cbn [length replicate app zip_with]. rewrite Z.lor_0_l, Z.land_comm, ones_land, IH by done. done.
Qed.

(** ** Tables *)

Definition affine_limbs (l : list (felem * felem)) : list Z := l ≫= (fun p => p.1 ++ p.2).

Definition affine_ok (p : felem * felem) : Prop := limbs p.1 /\ limbs p.2.
Definition jacobian_ok (p : jacobian) : Prop := limbs p.1.1 /\ limbs p.1.2 /\ limbs p.2.

(** One turn, on a table that begins with two, or three, field elements. *)
Lemma drop_limbs f rest : limbs f -> drop NLIMBS (f ++ rest) = rest.
Proof. intros [_ L]. by rewrite <- L, drop_app_length. Qed.

Lemma or_masked_skip out f rest i index :
  length out = NLIMBS -> limbs f -> 0 <= i < 16 -> 0 <= index < 16 -> i <> index -> or_masked out (f ++ rest) (index_mask i index) = out.
Proof.
  intros Lo [_ L] Hi Hx Hne. rewrite index_mask_ok, (proj2 (Z.eqb_neq _ _)) by done. apply or_masked_off. rewrite length_app. lia.
Qed.

Lemma or_masked_take f rest i : limbs f -> 0 <= i < 16 -> or_masked kZero (f ++ rest) (index_mask i i) = f.
Proof. intros Hf Hi. rewrite index_mask_ok, Z.eqb_refl by done. by apply or_masked_on. Qed.

Lemma select_affine_skip index l : 0 <= index < 16 -> Forall affine_ok l -> forall i out_x out_y,
  length out_x = NLIMBS -> length out_y = NLIMBS -> 0 <= i -> i + Z.of_nat (length l) <= 16 ->
  ~ (i <= index < i + Z.of_nat (length l)) -> forall rest,
  select_affine_loop (length l) i out_x out_y (affine_limbs l ++ rest) index = (out_x, out_y).
Proof.
  intros Hx. induction l as [|[x y] l IH]; intros Hl i ox oy Lx Ly Hi Hn Hout rest; [done|].
  apply Forall_cons in Hl as [[Px Py] Hl]. cbn [fst snd length affine_limbs mbind list_bind] in *. cbn [select_affine_loop].
  rewrite <- !app_assoc, drop_limbs, drop_limbs, !or_masked_skip by (done || lia). apply IH; try done; lia.
Qed.

Lemma select_affine_hit index l : 0 <= index < 16 -> Forall affine_ok l -> forall i rest,
  i + Z.of_nat (length l) <= 16 -> 0 <= i <= index -> index < i + Z.of_nat (length l) ->
  select_affine_loop (length l) i kZero kZero (affine_limbs l ++ rest) index = nth (Z.to_nat (index - i)) l (kZero, kZero).
Proof.
  intros Hx. induction l as [|[x y] l IH]; intros Hl i rest Hn Hi Hin; cbn [length] in Hin; [lia|].
  apply Forall_cons in Hl as [[Px Py] Hl]. cbn [fst snd length affine_limbs mbind list_bind] in *. cbn [select_affine_loop].
  rewrite <- !app_assoc, drop_limbs, drop_limbs by done. destruct (Z.eq_dec i index) as [->|Hne].
  - rewrite !or_masked_take by (done || lia). rewrite Z.sub_diag.
    by apply select_affine_skip; try done; [by destruct Px|by destruct Py|lia..].
  - rewrite !or_masked_skip by (done || lia). rewrite IH by (done || lia).
    replace (Z.to_nat (index - i)) with (S (Z.to_nat (index - (i + 1)))) by lia. done.
Qed.

Lemma select_affine_ok index l rest :
  0 <= index < 16 -> Forall affine_ok l -> length l = 15%nat ->
  select_affine_point (affine_limbs l ++ rest) index = if index =? 0 then (kZero, kZero) else nth (Z.to_nat (index - 1)) l (kZero, kZero).
Proof.
  intros Hx Hl Hn. unfold select_affine_point. rewrite <- Hn. destruct (Z.eqb_spec index 0) as [->|].
  - apply select_affine_skip; try done; lia.
  - by apply select_affine_hit; try done; lia.
Qed.

Lemma select_jacobian_skip index l : 0 <= index < 16 -> Forall jacobian_ok l -> forall i out,
  length out.1.1 = NLIMBS -> length out.1.2 = NLIMBS -> length out.2 = NLIMBS -> 0 <= i -> i + Z.of_nat (length l) <= 16 ->
  ~ (i <= index < i + Z.of_nat (length l)) -> forall rest,
  select_jacobian_loop (length l) i out (limbs_of l ++ rest) index = out.
Proof.
  intros Hx. induction l as [|[[x y] z] l IH]; intros Hl i [[ox oy] oz] Lx Ly Lz Hi Hn Hout rest; [done|].
  apply Forall_cons in Hl as [(Px & Py & Pz) Hl]. cbn [fst snd length limbs_of mbind list_bind] in *. cbn [select_jacobian_loop].
  rewrite <- !app_assoc, !drop_limbs, !or_masked_skip by (done || lia). apply IH; try done; lia.
Qed.

Lemma select_jacobian_hit index l : 0 <= index < 16 -> Forall jacobian_ok l -> forall i rest,
  i + Z.of_nat (length l) <= 16 -> 0 <= i <= index -> index < i + Z.of_nat (length l) ->
  select_jacobian_loop (length l) i (kZero, kZero, kZero) (limbs_of l ++ rest) index = nth (Z.to_nat (index - i)) l infinity.
Proof.
  intros Hx. induction l as [|[[x y] z] l IH]; intros Hl i rest Hn Hi Hin; cbn [length] in Hin; [lia|].
  apply Forall_cons in Hl as [(Px & Py & Pz) Hl]. cbn [fst snd length limbs_of mbind list_bind] in *. cbn [select_jacobian_loop].
  rewrite <- !app_assoc, !drop_limbs by done. destruct (Z.eq_dec i index) as [->|Hne].
  - rewrite !or_masked_take by (done || lia). rewrite Z.sub_diag.
    by apply select_jacobian_skip; try done; [by destruct Px|by destruct Py|by destruct Pz|lia..].
  - rewrite !or_masked_skip by (done || lia). fold (limbs_of l). rewrite IH by (done || lia).
    replace (Z.to_nat (index - i)) with (S (Z.to_nat (index - (i + 1)))) by lia. done.
Qed.

Lemma select_jacobian_ok index l :
  0 <= index < 16 -> Forall jacobian_ok l -> length l = 16%nat ->
  select_jacobian_point (limbs_of l) index = if index =? 0 then infinity else nth (Z.to_nat index) l infinity.
Proof.
  intros Hx Hl Hn. destruct l as [|[[x y] z] l]; [done|]. apply Forall_cons in Hl as [(Px & Py & Pz) Hl]. cbn [fst snd] in *.
  unfold select_jacobian_point. cbn [limbs_of mbind list_bind]. fold (limbs_of l).
  replace (drop (3 * NLIMBS) (((x ++ y ++ z)) ++ limbs_of l)) with (limbs_of l ++ []).
  2: { rewrite app_nil_r, <- !app_assoc. change (3 * NLIMBS)%nat with (NLIMBS + (NLIMBS + NLIMBS))%nat. by rewrite <- !drop_drop, !drop_limbs. }
  injection Hn as Hn. rewrite <- Hn. destruct (Z.eqb_spec index 0) as [->|].
  - apply select_jacobian_skip; try done; cbn [length]; lia.
  - rewrite select_jacobian_hit by (done || lia). replace (Z.to_nat index) with (S (Z.to_nat (index - 1))) by lia. done.
Qed.
