(* ===== verification/P256Scalar.v ===== *)
(** * Multiplication of points of P-256

    [scalar_mult] multiplies a point whose order is that of the base point by any
    smaller number.  The additions of [point_add] are incomplete: a sum with
    infinity is computed too, but masked away, and that the two points of every
    sum that is kept differ and are not infinity is part of the proof. *)

From Stdlib Require Import Zdivisibility Field Zmod.ZmodDef Zmod.ZmodBase Zmod.ZmodInv.
From S2P Require Import Prelude Words P256 P256Props P256Ec P256Field P256Mul Primality EcLaw EcJacobian P256Curve P256Points P256Select.

#[local] Open Scope Z_scope.
#[local] Open Scope c_scope.

(** ** Points of prime order *)

Record of_order_n (P : point) : Prop := {
  order_curve : on_p256 P;
  order_finite : P <> Inf;
  order_mult : mult_point order_n P = Inf;
}.

Lemma mult_curve k P : on_p256 P -> on_p256 (mult_point k P).
Proof. exact (Ec.mult_on_curve Fp_theory _ _ fp_two k P). Qed.

Lemma mult_point_add k l P : on_p256 P -> 0 <= k -> 0 <= l -> mult_point (k + l) P = add_points (mult_point k P) (mult_point l P).
Proof. exact (Ec.mult_add Fp_theory _ _ fp_two p256_nonsingular k l P). Qed.

Lemma mult_point_0 P : mult_point 0 P = Inf.
Proof. done. Qed.

Lemma mult_point_1 P : mult_point 1 P = P.
Proof. apply Ec.mult_1. Qed.

Lemma mult_point_coprime k n P :
  on_p256 P -> 0 < k -> 0 < n -> Z.gcd k n = 1 -> mult_point k P = Inf -> mult_point n P = Inf -> P = Inf.
Proof. exact (Ec.mult_coprime Fp_theory _ _ fp_two p256_nonsingular k n P). Qed.

Lemma mult_point_sub i j P : on_p256 P -> 0 <= i <= j -> mult_point i P = mult_point j P -> mult_point (j - i) P = Inf.
Proof. exact (Ec.mult_sub Fp_theory _ _ fp_two p256_nonsingular i j P). Qed.

Lemma order_n_pos : 0 < order_n.
Proof. done. Qed.

Lemma mult_finite k P : of_order_n P -> 0 < k < order_n -> mult_point k P <> Inf.
Proof.
  intros [Hc Hf Ho] Hk E. assert (Hg : Z.gcd k order_n = 1).
  { rewrite Z.gcd_comm. apply Z.coprime_prime_l; [apply order_n_prime|]. intros Hd. apply Z.divide_pos_le in Hd; lia. }
  exact (Hf (mult_point_coprime k order_n P Hc (proj1 Hk) order_n_pos Hg E Ho)).
Qed.

Lemma mult_distinct i j P : of_order_n P -> 0 <= i < j -> j < order_n -> mult_point i P <> mult_point j P.
Proof.
  intros Ho Hij Hj E. apply (mult_finite (j - i) P Ho); [lia|].
  exact (mult_point_sub i j P (order_curve P Ho) ltac:(lia) E).
Qed.

(** ** Accumulators *)

Definition jtight (j : jacobian) : Prop := tight j.1.1 /\ tight j.1.2 /\ tight j.2.

Lemma jrep_tight j P : jrep j P -> jtight j.
Proof. intros (X & Y & Z & [Hx _] & [Hy _] & [Hz _] & _). done. Qed.

Lemma jtight_ok j : jtight j -> jacobian_ok j.
Proof. intros (Hx & Hy & Hz). split_and!; by apply tight_limbs_ok. Qed.

Lemma tight_rep f : tight f -> rep f (fe f).
Proof. done. Qed.

Lemma rep_tight f x : rep f x -> tight f.
Proof. by intros [H _]. Qed.

(** The operations keep the bounds on any coordinates. *)
Lemma double_tight j : jtight j -> jtight (double_point j).
Proof.
  destruct j as [[x y] z]. intros (Hx%tight_rep & Hy%tight_rep & Hz%tight_rep). cbn [fst snd] in *.
  unfold jtight, double_point, point_double. cbn [fst snd]. split_and!; eapply rep_tight; solve_rep.
Qed.

Lemma add_tight x1 y1 z1 x2 y2 z2 : jtight (x1, y1, z1) -> jtight (x2, y2, z2) -> jtight (point_add x1 y1 z1 x2 y2 z2).
Proof.
  intros (Hx%tight_rep & Hy%tight_rep & Hz%tight_rep) (Hx2%tight_rep & Hy2%tight_rep & Hz2%tight_rep). cbn [fst snd] in *.
  unfold jtight, point_add, add_common, add_finish. cbn [fst snd]. split_and!; eapply rep_tight; solve_rep.
Qed.

Lemma add_mixed_tight x1 y1 z1 x2 y2 : jtight (x1, y1, z1) -> tight x2 -> tight y2 -> jtight (point_add_mixed x1 y1 z1 x2 y2).
Proof.
  intros (Hx%tight_rep & Hy%tight_rep & Hz%tight_rep) Hx2%tight_rep Hy2%tight_rep. cbn [fst snd] in *.
  unfold jtight, point_add_mixed. cbn [fst snd]. split_and!; eapply rep_tight; solve_rep.
Qed.

(** The accumulator and its mask hold [k] times the point. *)
Record tracks (P : point) (st : jacobian * Z) (k : Z) : Prop := {
  tracks_tight : jtight st.1;
  tracks_mask : st.2 = mask_of (k =? 0);
  tracks_point : k <> 0 -> jrep st.1 (mult_point k P);
}.

Lemma tracks_jrep P j m k : tracks P (j, m) k -> k <> 0 -> jrep j (mult_point k P).
Proof. intros Ht. exact (tracks_point _ _ _ Ht). Qed.

Lemma tracks_zero P : tracks P (infinity, u32 (-1)) 0.
Proof. split; [|done|done]. pose proof (proj1 rep_zero). done. Qed.

Lemma tracks_double P n m k : on_p256 P -> 0 <= k -> tracks P (n, m) k -> tracks P (double_point n, m) (2 * k).
Proof.
  intros HP Hk [Ht Hm Hp]. cbn [fst snd] in *. split; cbn [fst snd].
  - by apply double_tight.
  - rewrite Hm. f_equal. destruct (Z.eqb_spec k 0), (Z.eqb_spec (2 * k) 0); lia || done.
  - intros Hne. replace (2 * k) with (k + k) by lia. rewrite mult_point_add by done. apply double_point_ok, Hp. lia.
Qed.

Lemma non_zero_mask_of x : 0 <= x < 16 -> NON_ZERO_TO_ALL_ONES x = mask_of (negb (x =? 0)).
Proof.
  intros Hx. destruct (non_zero_mask x) as (m & -> & [[-> ->]|[-> Hpos]]); [lia|done|].
  by rewrite (proj2 (Z.eqb_neq x 0)) by lia.
Qed.

Lemma merge_point_ok n p t b index :
  jtight n -> jtight p -> jtight t -> 0 <= index < 16 ->
  merge_point n p t (mask_of b) index =
    (if b then p else if index =? 0 then n else t, mask_of (b && (index =? 0))).
Proof.
  intros (Hn1%tight_limbs_ok & Hn2%tight_limbs_ok & Hn3%tight_limbs_ok) (Hp1%tight_limbs_ok & Hp2%tight_limbs_ok & Hp3%tight_limbs_ok)
    (Ht1%tight_limbs_ok & Ht2%tight_limbs_ok & Ht3%tight_limbs_ok) Hi.
  destruct n as [[nx ny] nz], p as [[px py] pz], t as [[tx ty] tz]. cbn [fst snd] in *. unfold merge_point.
  rewrite !copy_conditional_ok, non_zero_mask_of by done.
  assert (E1 : forall x y, Z.land (mask_of x) (u32 (Z.lnot (mask_of y))) = mask_of (x && negb y)) by (by intros [] []).
  rewrite !E1, negb_involutive. rewrite !copy_conditional_ok by (by destruct b). by destruct b, (index =? 0).
Qed.

(** A step of either multiplication adds [e] times the point. *)
Lemma tracks_merge P n p t m index k e :
  tracks P (n, m) k -> 0 <= k -> 0 <= e -> 0 <= index < 16 -> (index = 0 <-> e = 0) -> jtight p -> jtight t ->
  (index <> 0 -> jrep p (mult_point e P)) -> (k <> 0 -> index <> 0 -> jrep t (mult_point (k + e) P)) ->
  tracks P (merge_point n p t m index) (k + e).
Proof.
  intros [Hn Hm Hk] H0 He Hi Hie Hp Ht Hpe Hte. cbn [fst snd] in *. rewrite Hm, merge_point_ok by done.
  destruct (Z.eqb_spec k 0) as [->|Hk0]; cbn [andb]; destruct (Z.eqb_spec index 0) as [->|Hi0]; split; cbn [fst snd]; try done.
  - by rewrite (proj1 Hie).
  - intros Hne. by destruct Hne; rewrite (proj1 Hie).
  - by rewrite (proj2 (Z.eqb_neq _ _)) by lia.
  - intros _. by apply Hpe.
  - by rewrite (proj2 (Z.eqb_neq _ _)) by lia.
  - intros _. rewrite (proj1 Hie), Z.add_0_r by done. by apply Hk.
  - by rewrite (proj2 (Z.eqb_neq _ _)) by lia.
  - intros _. by apply Hte.
Qed.

(** ** Bits of a scalar *)

Lemma val_drop a q : words a -> (q <= length a)%nat -> val (drop q a) = val a / radix q.
Proof.
  intros W Hq. rewrite <- (take_drop q a) at 2. pose proof (val_take_range q a W Hq). pose proof (radix_pos q).
  rewrite val_app, length_take_le by done. rewrite (Z.mul_comm (radix q)), Z.div_add, Z.div_small by lia. lia.
Qed.

Lemma get_bit_digit a q r : 0 <= r < 32 -> p256_get_bit a (32 * Z.of_nat q + r) = nth q a 0 / 2 ^ r mod 2.
Proof.
  intros Hr. unfold p256_get_bit. rewrite Z.quot_div_nonneg by lia.
  replace ((32 * Z.of_nat q + r) / 32) with (Z.of_nat q) by (Z.div_mod_to_equations; lia). rewrite Nat2Z.id.
  change 31 with (Z.ones 5). change 1 with (Z.ones 1). rewrite !Z.land_ones by lia.
  replace ((32 * Z.of_nat q + r) mod 2 ^ 5) with r by (change (2 ^ 5) with 32; Z.div_mod_to_equations; lia).
  by rewrite Z.shiftr_div_pow2 by lia.
Qed.

Lemma digit_bit a q r : words a -> (q < length a)%nat -> 0 <= r < 32 -> nth q a 0 / 2 ^ r mod 2 = val a / 2 ^ (32 * Z.of_nat q + r) mod 2.
Proof.
  intros W Hq Hr. rewrite Z.pow_add_r, <- Z.div_div by lia. fold (radix q). rewrite <- val_drop by (done || lia).
  destruct (drop q a) as [|x rest] eqn:Ed; [apply (f_equal length) in Ed; rewrite length_drop in Ed; simpl in Ed; lia|].
  assert (nth q a 0 = x) as ->.
  { rewrite <- (take_drop q a), Ed, app_nth2; rewrite length_take_le by lia; [by rewrite Nat.sub_diag|lia]. }
  cbn [val]. replace (x + 2 ^ 32 * val rest) with (x + 2 ^ (31 - r) * 2 * val rest * 2 ^ r).
  2: { replace 32 with (31 - r + 1 + r) by lia. rewrite !Z.pow_add_r by lia. ring. }
  rewrite Z.div_add by lia. transitivity ((x / 2 ^ r + 2 ^ (31 - r) * val rest * 2) mod 2); [by rewrite Z.mod_add|f_equal; ring].
Qed.

Lemma get_bit_val a bit : p256 a -> 0 <= bit < 256 -> p256_get_bit a bit = val a / 2 ^ bit mod 2.
Proof.
  intros [W L] Hb. set (q := Z.to_nat (bit / 32)). set (r := bit mod 32).
  assert (E : bit = 32 * Z.of_nat q + r) by (unfold q, r; Z.div_mod_to_equations; lia).
  assert (Hr : 0 <= r < 32) by (by apply Z.mod_pos_bound). clearbody q r. subst bit. rewrite get_bit_digit by done. apply digit_bit; try done. lia.
Qed.

(** Four bits from [e] up, as [scalar_mult] puts them together. *)
Lemma four_bits w :
  Z.lor (Z.lor (Z.lor (Z.shiftl (w / 2 ^ 3 mod 2) 3) (Z.shiftl (w / 2 ^ 2 mod 2) 2)) (Z.shiftl (w / 2 ^ 1 mod 2) 1)) (w / 2 ^ 0 mod 2) = w mod 16.
Proof.
  assert (H : forallb (fun m => Z.lor (Z.lor (Z.lor (Z.shiftl (m / 2 ^ 3 mod 2) 3) (Z.shiftl (m / 2 ^ 2 mod 2) 2))
    (Z.shiftl (m / 2 ^ 1 mod 2) 1)) (m / 2 ^ 0 mod 2) =? m) (seqZ 0 16) = true) by (vm_compute; reflexivity).
  pose proof (Z.mod_pos_bound w 16 ltac:(lia)) as Hm. rewrite forallb_forall in H.
  specialize (H (w mod 16) ltac:(apply list_elem_of_In, elem_of_seqZ; lia)). apply Z.eqb_eq in H.
  rewrite <- H. assert (E : forall d e, d * 2 * e = 16 -> 0 < d -> 0 < e -> w / d mod 2 = (w mod 16) / d mod 2).
  { intros d e Hd Hd0 He. rewrite (Z.div_mod w 16) at 1 by lia. rewrite <- Hd.
    replace (d * 2 * e * (w / (d * 2 * e)) + w mod (d * 2 * e)) with (w mod (d * 2 * e) + e * (w / (d * 2 * e)) * 2 * d) by ring.
    rewrite Z.div_add by lia. by rewrite Z.mod_add. }
  by rewrite (E (2 ^ 3) 1), (E (2 ^ 2) 2), (E (2 ^ 1) 4), (E (2 ^ 0) 8).
Qed.

Lemma window_ok scalar i :
  p256 scalar -> 0 <= i <= 252 ->
  Z.lor (Z.lor (Z.lor (Z.shiftl (p256_get_bit scalar (255 - i - 0)) 3) (Z.shiftl (p256_get_bit scalar (255 - i - 1)) 2))
    (Z.shiftl (p256_get_bit scalar (255 - i - 2)) 1)) (p256_get_bit scalar (255 - i - 3)) = val scalar / 2 ^ (252 - i) mod 16.
Proof.
  intros Hs Hi. rewrite !get_bit_val by (done || lia). rewrite <- four_bits.
  assert (E : forall j, 0 <= j -> val scalar / 2 ^ (252 - i) / 2 ^ j = val scalar / 2 ^ (252 - i + j)).
  { intros j Hj. by rewrite Z.div_div, <- Z.pow_add_r by lia. }
  rewrite !E by lia. repeat f_equal; lia.
Qed.

(** ** [scalar_mult] *)

Section Multiple.
Context (P : point) (px py : Fp) (x y : felem).
Hypothesis HP : of_order_n P.
Hypothesis P_eq : P = Pt px py.
Hypothesis Hx : rep x px.
Hypothesis Hy : rep y py.

(** Entry [i] is [i] times the point. *)
Definition multiples (precomp : list jacobian) : Prop :=
  forall i, (i < length precomp)%nat -> jtight (nth i precomp infinity) /\ (i <> 0%nat -> jrep (nth i precomp infinity) (mult_point (Z.of_nat i) P)).

Lemma order_big : 2 ^ 255 < order_n.
Proof. done. Qed.

Lemma multiples_snoc precomp j :
  multiples precomp -> jrep j (mult_point (Z.of_nat (length precomp)) P) -> multiples (precomp ++ [j]).
Proof.
  intros Hm Hj i Hi. rewrite length_app in Hi. cbn [length] in Hi. destruct (decide (i = length precomp)) as [->|].
  - rewrite app_nth2, Nat.sub_diag by lia. cbn [nth]. split; [by apply jrep_tight in Hj|done].
  - rewrite app_nth1 by lia. apply Hm. lia.
Qed.

Lemma add_one dx dy dz k :
  jrep (dx, dy, dz) (mult_point k P) -> 1 < k -> k + 1 < order_n -> jrep (point_add_mixed dx dy dz x y) (mult_point (k + 1) P).
Proof.
  intros Hd Hk Hn. pose proof (order_curve P HP) as Hc. rewrite mult_point_add, mult_point_1 by (done || lia).
  pose proof (point_add_mixed_ok dx dy dz x y (mult_point k P) px py Hd Hx Hy) as H. rewrite <- P_eq in H.
  apply H; [by apply mult_curve|done|apply mult_finite; [done|lia]|].
  rewrite <- (mult_point_1 P) at 2. apply not_eq_sym, mult_distinct; [done|lia..].
Qed.

Lemma precomp_loop_ok n : forall i precomp,
  length precomp = i -> (2 <= i)%nat -> Nat.even i = true -> (i + 2 * n <= 16)%nat -> multiples precomp ->
  multiples (precomp_loop n i x y precomp) /\ length (precomp_loop n i x y precomp) = (i + 2 * n)%nat.
Proof.
  induction n as [|n IH]; intros i precomp Hl Hi He Hn Hm; cbn [precomp_loop]; [split; [done|lia]|].
  apply Nat.even_spec in He as [k ->]. replace (2 * k / 2)%nat with k by (symmetry; rewrite Nat.mul_comm; by apply Nat.div_mul).
  pose proof order_big. pose proof (order_curve P HP) as Hc.
  assert (Hd : jrep (double_point (nth k precomp infinity)) (mult_point (Z.of_nat (2 * k)) P)).
  { replace (Z.of_nat (2 * k)) with (Z.of_nat k + Z.of_nat k) by lia. rewrite mult_point_add by (done || lia). apply double_point_ok, Hm; lia. }
  destruct (double_point (nth k precomp infinity)) as [[dx dy] dz] eqn:Ed.
  assert (Ha : jrep (point_add_mixed dx dy dz x y) (mult_point (Z.of_nat (2 * k + 1)) P)).
  { replace (Z.of_nat (2 * k + 1)) with (Z.of_nat (2 * k) + 1) by lia. apply add_one; [done|lia..]. }
  replace (2 * k + 2 * S n)%nat with (2 * k + 2 + 2 * n)%nat by lia. apply IH; [rewrite length_app; cbn [length]; lia|lia| |lia|].
  - replace (2 * k + 2)%nat with (2 * (k + 1))%nat by lia. apply Nat.even_spec. by exists (k + 1)%nat.
  - rewrite (app_assoc _ [_] [_] : precomp ++ [(dx, dy, dz); _] = _). apply multiples_snoc; [apply multiples_snoc; [done|by rewrite Hl]|].
    rewrite length_app, Hl. done.
Qed.

Lemma precompute_ok : multiples (precompute x y) /\ length (precompute x y) = 16%nat.
Proof.
  apply (precomp_loop_ok 7 2); try done. intros i Hi. destruct i as [|[|]]; cbn in Hi; [| |lia].
  - split; [|done]. pose proof (proj1 rep_zero). done.
  - assert (H : jrep (x, y, kOne) (mult_point 1 P)); [|split; [exact (jrep_tight _ _ H)|by intros _]].
    rewrite mult_point_1, P_eq. exists px, py, 1%Fp. split; [done|]. split; [done|]. split; [apply rep_one|].
    split; [apply (fp_neq 1 0); vm_compute; discriminate|split; ring].
Qed.

Lemma tracks_16 n m k : 0 <= k -> tracks P (n, m) k -> tracks P (double_point (double_point (double_point (double_point n))), m) (16 * k).
Proof.
  intros Hk H. replace (16 * k) with (2 * (2 * (2 * (2 * k)))) by lia. pose proof (order_curve P HP).
  do 4 (apply tracks_double; [done|lia|]). done.
Qed.

(** The addition of a window: [k] is a multiple of 16. *)
Lemma add_window nx ny nz wx wy wz k w :
  jrep (nx, ny, nz) (mult_point (16 * k) P) -> jrep (wx, wy, wz) (mult_point w P) -> 0 < k -> 0 < w < 16 -> 16 * k + w < order_n ->
  jrep (point_add nx ny nz wx wy wz) (mult_point (16 * k + w) P).
Proof.
  intros Hn Hw Hk Hw16 Hlt. pose proof (order_curve P HP). rewrite mult_point_add by (done || lia).
  apply point_add_ok; try done; [by apply mult_curve..|apply mult_finite; [done|lia]|apply mult_finite; [done|lia]|].
  apply not_eq_sym, mult_distinct; [done|lia..].
Qed.

Lemma mult_round_ok scalar st i :
  p256 scalar -> val scalar < order_n -> 0 <= i <= 252 -> (i = 0 -> val scalar / 2 ^ (256 - i) = 0) ->
  tracks P st (val scalar / 2 ^ (256 - i)) -> tracks P (mult_round (precompute x y) scalar st i) (val scalar / 2 ^ (252 - i)).
Proof.
  intros Hs Hlt Hi Hi0 Hst. destruct st as [n m]. unfold mult_round. rewrite window_ok by done.
  pose proof (p256_range _ Hs) as Hr. set (k := val scalar / 2 ^ (256 - i)) in *. set (w := val scalar / 2 ^ (252 - i) mod 16).
  assert (Hk : 0 <= k) by (apply Z.div_pos; lia). assert (Hw : 0 <= w < 16) by (by apply Z.mod_pos_bound).
  assert (E : val scalar / 2 ^ (252 - i) = 16 * k + w).
  { unfold k, w. replace (256 - i) with (252 - i + 4) by lia. rewrite Z.pow_add_r, <- Z.div_div by lia. apply Z.div_mod. lia. }
  assert (Hle : 16 * k + w <= val scalar) by (rewrite <- E; apply Z.div_le_upper_bound; [lia|nia]). rewrite E.
  set (n' := if i =? 0 then n else _). assert (Hn : tracks P (n', m) (16 * k)).
  { unfold n'. destruct (Z.eqb_spec i 0) as [Ei|]; [|by apply tracks_16]. rewrite (Hi0 Ei) in *. done. }
  clearbody n' k w. destruct n' as [[nx ny] nz]. destruct precompute_ok as [Hm Hl].
  assert (Hj : Forall jacobian_ok (precompute x y)).
  { apply List.Forall_nth. intros j d Hj. rewrite (nth_indep _ d infinity Hj). by apply jtight_ok, Hm. }
  rewrite select_jacobian_ok by done. set (p := if w =? 0 then infinity else nth (Z.to_nat w) (precompute x y) infinity).
  assert (Hp : jtight p /\ (w <> 0 -> jrep p (mult_point w P))).
  { unfold p. destruct (Z.eqb_spec w 0) as [->|Hw0]; [split; [exact (tracks_tight _ _ _ (tracks_zero P))|done]|].
    destruct (Hm (Z.to_nat w)) as [H1 H2]; [lia|]. rewrite Z2Nat.id in H2 by lia. split; [done|]. intros _. apply H2. lia. }
  clearbody p. destruct p as [[wx wy] wz]. destruct Hp as [Hp1 Hp2]. pose proof (tracks_tight _ _ _ Hn) as Hnt. cbn [fst] in Hnt.
  apply (tracks_merge P _ _ _ _ _ (16 * k) w Hn); [lia|lia|exact Hw|reflexivity|exact Hp1|by apply add_tight|exact Hp2|]. intros Hk0 Hw0.
  apply add_window; [|by apply Hp2|lia..]. by apply (tracks_point _ _ _ Hn).
Qed.

Lemma mult_rounds_ok scalar n : p256 scalar -> val scalar < order_n -> forall m st, 0 <= m -> m + Z.of_nat n = 64 ->
  tracks P st (val scalar / 2 ^ (256 - 4 * m)) ->
  tracks P (fold_left (mult_round (precompute x y) scalar) (map (Z.mul 4) (seqZ m (Z.of_nat n))) st) (val scalar).
Proof.
  intros Hs Hlt. pose proof (p256_range _ Hs). induction n as [|n IH]; intros m st Hm Hn Hst.
  - rewrite seqZ_nil by lia. cbn [map fold_left]. replace m with 64 in Hst by lia. change (2 ^ (256 - 4 * 64)) with 1 in Hst. by rewrite Z.div_1_r in Hst.
  - rewrite seqZ_cons by lia. replace (Z.pred (Z.of_nat (S n))) with (Z.of_nat n) by lia. cbn [map fold_left].
    apply IH; [lia..|]. replace (256 - 4 * Z.succ m) with (252 - 4 * m) by lia. apply mult_round_ok; try done; [lia|].
    intros ->. by apply Z.div_small.
Qed.

Lemma scalar_mult_tracks scalar :
  p256 scalar -> val scalar < order_n -> exists m, tracks P (scalar_mult x y scalar, m) (val scalar).
Proof.
  intros Hs Hlt. unfold scalar_mult. pose proof (p256_range _ Hs).
  pose proof (mult_rounds_ok scalar 64 Hs Hlt 0 (infinity, u32 (-1)) ltac:(lia) ltac:(lia)) as Ht.
  change (Z.of_nat 64) with 64 in Ht. rewrite Z.mul_0_r, Z.sub_0_r, Z.div_small in Ht by done. specialize (Ht (tracks_zero P)).
  destruct (fold_left _ _ _) as [j m]. by exists m.
Qed.
End Multiple.
