(* ===== verification/P256Table.v ===== *)
(** * The base point of P-256 and its table

    The order of the base point, and that the entries of [kPrecomputed] are the
    multiples of it that [scalar_base_mult] takes them for, by computing these
    multiples from the slopes of the lines on which they lie. *)

From Stdlib Require Import Field Zmod.ZmodDef Zmod.ZmodBase Zmod.ZmodInv.
From S2P Require Import Prelude Words P256 P256Props P256Ec P256Field P256Mul Primality EcLaw EcJacobian P256Curve P256Points P256Select P256Scalar.

#[local] Open Scope Z_scope.

(** The coordinates of the base point, of FIPS 186. *)
Definition base_x : Z := 0x6b17d1f2e12c4247f8bce6e563a440f277037d812deb33a0f4a13945d898c296.
Definition base_y : Z := 0x4fe342e2fe1a7f9b8ee7eb4a7c0f9e162bce33576b315ececbb6406837bf51f5.
Definition base_point : point := Pt (fp base_x) (fp base_y).

Lemma base_on_curve : on_p256 base_point.
Proof.
  unfold on_p256, Ec.on_curve, base_point, curve_a. rewrite <- !fp_mul, <- !fp_add. apply fp_eq, cong_mod; [done|].
  vm_compute. reflexivity.
Qed.

(** ** Computing with slopes *)

(** The tangent at point [i], and the line through points [i] and [j], with
    their slopes. *)
Inductive line : Type :=
| Dbl (i : nat) (l : Z)
| Sum (i j : nat) (l : Z).

(** A number and the coordinates of this multiple of the base point. *)
Definition multiple : Type := Z * (Z * Z).

Definition is_multiple (m : multiple) : Prop := 0 <= m.1 /\ mult_point m.1 base_point = Pt (fp m.2.1) (fp m.2.2).

Definition zero_p (z : Z) : bool := let r := reduce_p z in (r =? 0) || (r =? prime_p).

Definition third_p (l x1 y1 x2 : Z) : Z * Z :=
  let x3 := reduce_p (l * l - x1 - x2) in (x3, reduce_p (l * (x1 - x3) - y1)).

Definition canonical_p (x : Z) : bool := (0 <=? x) && (x <? prime_p).

Definition draw (ms : list multiple) (o : line) : option multiple :=
  match o with
  | Dbl i l =>
    match ms !! i with
    | Some (k, (x, y)) => if zero_p (l * (y + y) - 3 * (x * x) + 3) then Some (k + k, third_p l x y x) else None
    | None => None
    end
  | Sum i j l =>
    match ms !! i, ms !! j with
    | Some (k1, (x1, y1)), Some (k2, (x2, y2)) =>
      if canonical_p x1 && canonical_p x2 && negb (x1 =? x2) && zero_p (l * (x2 - x1) - (y2 - y1))
      then Some (k1 + k2, third_p l x1 y1 x2) else None
    | _, _ => None
    end
  end.

Fixpoint draws (ms : list multiple) (os : list line) : option (list multiple) :=
  match os with
  | [] => Some ms
  | o :: os => match draw ms o with Some m => draws (ms ++ [m]) os | None => None end
  end.

Lemma fp_reduce_p x : fp (reduce_p x) = fp x.
Proof. apply fp_eq, reduce_p_reduces. Qed.

Lemma zero_p_ok z : zero_p z = true -> fp z = 0%Fp.
Proof.
  unfold zero_p. rewrite orb_true_iff, !Z.eqb_eq. rewrite <- fp_reduce_p. intros [-> | ->]; [done|]. change 0%Fp with (fp 0).
  apply fp_eq. exists 1. lia.
Qed.

Lemma fp_sub_zero x y : (x - y)%Fp = 0%Fp <-> x = y.
Proof. apply (Ec.sub_zero Fp_theory). Qed.

Lemma fp_canonical x y : canonical_p x = true -> canonical_p y = true -> x <> y -> fp x <> fp y.
Proof.
  unfold canonical_p. rewrite !andb_true_iff, !Z.leb_le, !Z.ltb_lt. intros Hx Hy Hne. apply fp_neq. by rewrite !Z.mod_small.
Qed.

Lemma third_p_ok l x1 y1 x2 :
  let '(x3, y3) := third_p l x1 y1 x2 in
  @Ec.third Fp Zmod.mul Zmod.sub (fp l) (fp x1) (fp y1) (fp x2) = Pt (fp x3) (fp y3).
Proof. unfold third_p, Ec.third. rewrite !fp_reduce_p, !fp_sub, !fp_mul, !fp_sub, fp_reduce_p, !fp_sub, fp_mul. done. Qed.

Lemma tangent_ok l x y :
  on_p256 (Pt (fp x) (fp y)) -> zero_p (l * (y + y) - 3 * (x * x) + 3) = true ->
  add_points (Pt (fp x) (fp y)) (Pt (fp x) (fp y)) = @Ec.third Fp Zmod.mul Zmod.sub (fp l) (fp x) (fp y) (fp x).
Proof.
  intros Hc Hz. apply zero_p_ok in Hz. rewrite fp_add, fp_sub, !fp_mul, fp_add, fp_3 in Hz.
  assert (Hs : @Ec.is_slope Fp Zmod.add Zmod.mul Zmod.sub curve_a (fp l) (fp x) (fp y) (fp x) (fp y)).
  { split; [ring|]. apply fp_sub_zero. rewrite curve_a_eq, <- Hz. ring. }
  apply (Ec.padd_third Fp_theory _ _ fp_two _ _ _ _ _ Hc Hc); [|done].
  exact (Ec.opposite_slope Fp_theory _ _ fp_two p256_nonsingular _ _ _ _ _ Hc Hs).
Qed.

Lemma chord_ok l x1 y1 x2 y2 :
  fp x1 <> fp x2 -> zero_p (l * (x2 - x1) - (y2 - y1)) = true ->
  add_points (Pt (fp x1) (fp y1)) (Pt (fp x2) (fp y2)) = @Ec.third Fp Zmod.mul Zmod.sub (fp l) (fp x1) (fp y1) (fp x2).
Proof.
  intros Hx Hz. apply zero_p_ok in Hz. rewrite fp_sub, fp_mul, !fp_sub in Hz. apply (proj1 (fp_sub_zero _ _)) in Hz.
  unfold add_points, Ec.padd, Ec.slope. rewrite decide_False by (by intros [? _]). rewrite decide_False by done.
  f_equal. rewrite <- Hz. field. rewrite fp_sub_zero. congruence.
Qed.

Lemma draw_ok ms o m : Forall is_multiple ms -> draw ms o = Some m -> is_multiple m.
Proof.
  intros Hms Hd. pose proof base_on_curve as Hb. destruct o as [i l|i j l]; cbn [draw] in Hd.
  - destruct (ms !! i) as [[k [x y]]|] eqn:Ei; [|discriminate Hd]. destruct (zero_p _) eqn:Ez in Hd; [|discriminate Hd].
    apply (Forall_lookup_1 _ _ _ _ Hms) in Ei as [Hk Em]. cbn [fst snd] in *.
    pose proof (third_p_ok l x y x) as Ht. destruct (third_p l x y x) as [x3 y3]. injection Hd as <-.
    split; cbn [fst snd]; [lia|]. rewrite mult_point_add, Em, <- Ht by assumption. apply tangent_ok; [|exact Ez].
    rewrite <- Em. exact (mult_curve _ _ Hb).
  - destruct (ms !! i) as [[k1 [x1 y1]]|] eqn:Ei; [|discriminate Hd]. destruct (ms !! j) as [[k2 [x2 y2]]|] eqn:Ej; [|discriminate Hd].
    destruct (_ && zero_p _) eqn:Ez in Hd; [|discriminate Hd]. rewrite !andb_true_iff, negb_true_iff, Z.eqb_neq in Ez. destruct Ez as (((C1 & C2) & Hne) & Hz).
    apply (Forall_lookup_1 _ _ _ _ Hms) in Ei as [Hk1 Em1]. apply (Forall_lookup_1 _ _ _ _ Hms) in Ej as [Hk2 Em2]. cbn [fst snd] in *.
    pose proof (third_p_ok l x1 y1 x2) as Ht. destruct (third_p l x1 y1 x2) as [x3 y3]. injection Hd as <-.
    split; cbn [fst snd]; [lia|]. rewrite mult_point_add, Em1, Em2, <- Ht by assumption. apply chord_ok; [by apply fp_canonical|exact Hz].
Qed.

Lemma draws_ok os : forall ms ms', Forall is_multiple ms -> draws ms os = Some ms' -> Forall is_multiple ms'.
Proof.
  induction os as [|o os IH]; intros ms ms' Hms Hd; cbn [draws] in Hd; [by injection Hd as <-|].
  destruct (draw ms o) as [m|] eqn:Em; [|done]. apply (IH (ms ++ [m])); [|done].
  apply Forall_app. split; [done|]. apply Forall_cons. split; [by apply (draw_ok ms o)|by apply Forall_nil].
Qed.

(** ** The entries of the table *)

(** The entries as the selection functions read them. *)
Fixpoint entries (n : nat) (table : list Z) : list (felem * felem) :=
  match n with
  | O => []
  | S n => (take NLIMBS table, take NLIMBS (drop NLIMBS table)) :: entries n (drop (2 * NLIMBS) table)
  end.

Definition table0 : list (felem * felem) := entries 15 kPrecomputed.
Definition table1 : list (felem * felem) := entries 15 (drop (30 * NLIMBS) kPrecomputed).

(** Which multiple of the base point is entry [index], counted from 1, of the
    first table; that of the second is 2^32 times it. *)
Definition comb (b0 b1 b2 b3 : Z) : Z := b0 + 2 ^ 64 * b1 + 2 ^ 128 * b2 + 2 ^ 192 * b3.
Definition comb_index (index : Z) : Z := comb (index mod 2) (index / 2 mod 2) (index / 4 mod 2) (index / 8 mod 2).

(** The coordinates of a point that is not infinity. *)
Definition affine_rep (f : felem * felem) (P : point) : Prop := exists x y, P = Pt x y /\ rep f.1 x /\ rep f.2 y.

Fixpoint boundedb (odd : bool) (l : list Z) : bool :=
  match l with
  | [] => true
  | x :: l => (0 <=? x) && (x <? 2 ^ (width odd + 1)) && boundedb (negb odd) l
  end.
Definition tightb (f : felem) : bool := (length f =? NLIMBS)%nat && boundedb false f && (nth 8 f 0 <? 2 ^ 29).

Definition coordinate_ok (f : felem) (x : Z) : bool := tightb f && zero_p (fval false f - Z.shiftl x 257).

Definition entry_ok (f : felem * felem) (k : Z) (m : multiple) : bool :=
  (m.1 =? k) && coordinate_ok f.1 m.2.1 && coordinate_ok f.2 m.2.2.

(** Entries, the multiples they should be and where these are in [ms]. *)
Definition table_ok (ms : list multiple) (table : list (felem * felem)) (ks : list Z) (places : list nat) : bool :=
  forallb (fun t => match ms !! t.2 with Some m => entry_ok t.1.1 t.1.2 m | None => false end) (zip (zip table ks) places).

(** Two numbers [n] apart with the same multiple. *)
Definition order_ok (ms : list multiple) (n : Z) (i j : nat) : bool :=
  match ms !! i, ms !! j with
  | Some (k1, (x1, y1)), Some (k2, (x2, y2)) => (0 <=? n) && (k1 - k2 =? n) && zero_p (x1 - x2) && zero_p (y1 - y2)
  | _, _ => false
  end.

Lemma boundedb_ok l : forall odd, boundedb odd l = true -> bounded 1 odd l.
Proof.
  induction l as [|x l IH]; intros odd H; [done|]. cbn [boundedb bounded] in *. rewrite !andb_true_iff, Z.leb_le, Z.ltb_lt in H.
  destruct H as [Hx H]. split; [done|by apply IH].
Qed.

Lemma coordinate_ok_rep f x : coordinate_ok f x = true -> rep f (fp x).
Proof.
  unfold coordinate_ok, tightb. rewrite !andb_true_iff, Nat.eqb_eq, Z.ltb_lt. intros [[[Hl Hb] H8] Hz]. split.
  { split; [done|]. split; [by apply boundedb_ok|done]. }
  apply zero_p_ok in Hz. rewrite fp_sub in Hz. apply (proj1 (fp_sub_zero _ _)) in Hz.
  rewrite Z.shiftl_mul_pow2, fp_mul in Hz by lia. fold R257 in Hz. unfold fe. rewrite Hz.
  transitivity (fp x * (fp R257 * fp Rinv))%Fp; [ring|rewrite R_Rinv; ring].
Qed.

Lemma entry_ok_rep f k m : is_multiple m -> entry_ok f k m = true -> affine_rep f (mult_point k base_point).
Proof.
  intros [_ Em]. unfold entry_ok. rewrite !andb_true_iff, Z.eqb_eq. intros [[<- Hx] Hy]. exists (fp m.2.1), (fp m.2.2).
  split; [exact Em|]. split; by apply coordinate_ok_rep.
Qed.

Lemma table_ok_rep ms places : Forall is_multiple ms -> forall table ks, table_ok ms table ks places = true ->
  length ks = length table -> length places = length table -> Forall2 (fun f k => affine_rep f (mult_point k base_point)) table ks.
Proof.
  intros Hms. induction places as [|pl places IH]; intros [|f table] [|k ks] Ht Hk Hp; try discriminate; [by apply Forall2_nil|].
  unfold table_ok in Ht. cbn [zip zip_with forallb fst snd] in Ht. apply andb_prop in Ht as [H1 H2].
  destruct (ms !! pl) as [m|] eqn:Em; [|discriminate H1]. apply Forall2_cons. split.
  - apply (entry_ok_rep _ _ m); [|exact H1]. exact (Forall_lookup_1 _ _ _ _ Hms Em).
  - apply IH; [exact H2|cbn in Hk; lia|cbn in Hp; lia].
Qed.

Lemma order_ok_mult ms n i j : Forall is_multiple ms -> order_ok ms n i j = true -> mult_point n base_point = Inf.
Proof.
  intros Hms. unfold order_ok. destruct (ms !! i) as [[k1 [x1 y1]]|] eqn:Ei; [|discriminate].
  destruct (ms !! j) as [[k2 [x2 y2]]|] eqn:Ej; [|discriminate]. rewrite !andb_true_iff, Z.leb_le, Z.eqb_eq. intros [[[Hn <-] Hx] Hy].
  apply zero_p_ok in Hx, Hy. rewrite fp_sub in Hx, Hy. apply (proj1 (fp_sub_zero _ _)) in Hx, Hy.
  apply (Forall_lookup_1 _ _ _ _ Hms) in Ei as [Hk1 Em1]. apply (Forall_lookup_1 _ _ _ _ Hms) in Ej as [Hk2 Em2]. cbn [fst snd] in *.
  apply (mult_point_sub k2 k1 _ base_on_curve); [lia|]. rewrite Em1, Em2, Hx, Hy. reflexivity.
Qed.

(** ** The computation

    The lines through the multiples 2^0 to 2^256 of the base point, then those
    through the points of the tables, and last two numbers whose difference is the
    order. *)
Definition lines : list line := [
  Dbl 0 0xa249bcb3191802d3cb56fc75a8731f848e7b2caf080f3477a4e4d904a671af9d;
  Dbl 1 0xc2489a9eef61dfa06d3741ff3b405300988bd0db42a937859069b9cefb576e35;
  Dbl 2 0x3d3f7094389059fb29d62c12aea203c23c53ca0f84ba9265d34346d498d0ce10;
  Dbl 3 0x6fa44fab12ab52ac931dd31283af3f747d8609c5f053383c43a73240f7256e8a;
  Dbl 4 0xe9a817f547273aa32a7361a18e9620f2b838a409be826cf083fed49b3c858688;
  Dbl 5 0xcbf7b81fbdea68d4221b26a8e5a24b1cb5e9aaad01ecd82899cd638e1942f764;
  Dbl 6 0xfc4b4bd92566c2ad98242459501cf92d7207904e764ab66789942b0325b9a3e8;
  Dbl 7 0x93fe002b120dc226d15b0f98b056d3392bfd56b35499e60a5f7ad1ff70675535;
  Dbl 8 0x59faa582c6b4f84cf05a7f0a2f866f67a3845d45e19ba871c83298597acc6389;
  Dbl 9 0xd2b8741587a7b2e52655fc308e92e0b0e32ee6e6b41d84eb93aab4a3a4141961;
  Dbl 10 0x1c063129ba7b4a48b2e70f43844011c46be00e0e9073b990aa60efa9cee08d40;
  Dbl 11 0xa2e3cb03c0248e9badcbbcc1c7028566de6e61b104009831a5104754ca52749d;
  Dbl 12 0x960ff72703b0a682d458e8c237f82e7c160c43f0388887300239f5caf2144511;
  Dbl 13 0x928ac84a888eeece1f740cddb2fe2c3ad23b782d364f2f64e69fb00ff124a44a;
  Dbl 14 0x2f62106edd7774f71f1f577bb87c80a69291fa99d469a7d590bb7efe497f0e98;
  Dbl 15 0xdff9619f1fed418640882fc607fbef4ab0b4bb2ee9eb5ea61d7f347eaadfeb72;
  Dbl 16 0x2bb34155d1c3e85258cd7587c389773ca8761dc07d32d1bc095f476c05a7c13e;
  Dbl 17 0xedfc2e37fb69a62e021b6261a99df3018dc9eee2e4229d1cbff1ba56b4f8e3d6;
  Dbl 18 0xb79e006a59b12e979226f397f11da4e07f4c0c6e00d804571e0be779c48ea25c;
  Dbl 19 0x45fc98da6728684cf421d291dbdaa5438a2bbde9eedf856c54e1d2577a0d15a;
  Dbl 20 0x3f71d35f5943c9d82c6297d4739ca141ce18dd97535b82f9b6cbf6a3a3bc338f;
  Dbl 21 0xb063b021ea8c4d521a86be70cefe8cfca350e9ba8c166c8838fe6446dfaba3e7;
  Dbl 22 0xc96ce208d5d84115b06c8101fbdfc996fc19127fb826057aa9a56a342393343f;
  Dbl 23 0x58cc0685f3b5bd459e0a56513cc139f2ef4c79222658880c7b9e910437232a37;
  Dbl 24 0xc714a5ff1e67f35e138db56e27766a8f370df7a9aac6afe2a684adb2f9318a34;
  Dbl 25 0x244464508464873517783cc6e016573c75cc1d40a0821ca2006ccaba14e5ae68;
  Dbl 26 0x19942949a63311386dd5eb50ae3bd81d89fda56a29528618285086a145bbc75c;
  Dbl 27 0x89fcec8c449f2a8727481510ba958d286a3ed95b2b77e593d4a8e3bc100d5f1f;
  Dbl 28 0xf6c406113ca7142ab7578bbd87c1fcac561785320d44621ae23c0bec57db9931;
  Dbl 29 0x1c544e23cefcf6bdc7e2661841017cf1352b6cdad766837a00109b5b701a002a;
  Dbl 30 0xe7af93b02913d49f7ff08817eb8b2a9186ce83f590aacc4a439598e38234c827;
  Dbl 31 0xe353b7ead6b8630cc720fc9e590a4b3bfde6404ec154ad7d5f0e3fc795fe64a8;
  Dbl 32 0xf2d190fa895945fdbce834e76fc615314f8d12fd6ab74e11a875fdfc3ccd5a36;
  Dbl 33 0x6f2111875b10a1209c249e454abeae22f7965e57dba5f3791ea5b985b656d33e;
  Dbl 34 0x5dfcaeb945eed013f0dc90070b1796fc1836e63f83e756c35d1d0c0d796c7d4c;
  Dbl 35 0xbe3d2e335ff7468d6bd8fb93fe862c8e0e6a23e82b010d3065ee7d872d83ac05;
  Dbl 36 0xdcdf4ad2644a2a52ace81d4008703d620b99ddaa19a8e43afe378ed8f316169f;
  Dbl 37 0xd541d97c1e7434ca4879279fc56ab5beea2eea4739c34965dbfd94fc16ffd007;
  Dbl 38 0x528674b2e6ac31b598ad18e8d07fc41d1b9cf19cc5b0b1a36e4bee972e1793ca;
  Dbl 39 0xbe3eb98c294b97f8ef31e7fb4ea068b560b0394730a372737b1664be3b94f07b;
  Dbl 40 0x1a4fe06c68f0b4432fccfa2556384fa002a2562842b472c92467450bbae7e75f;
  Dbl 41 0x62fa001767cd781a9d2fd3e7ec992c971b637a1677ac44bb25b8332f1f328a1d;
  Dbl 42 0xa61d0186d8bf3158c94229adbbd5c4f18d62deb67d2a553c60bf4b70fa43ae1a;
  Dbl 43 0xa358ae4d1d2d1559cf903bb807955ed8242bdfd114b140dfab90d867071eea1c;
  Dbl 44 0x44a9e887ace2e81779b6d576792b60e61bc31655486153ad4735e7464767e021;
  Dbl 45 0x3d2ba9c25242b9c848025e13f8e099197cfd9e127322e91d526031e6ace4351a;
  Dbl 46 0xec023d3a9661ac96c6dbc95cba3f761ad0a6e2e73eeb9637678a0ddd09e0adc6;
  Dbl 47 0xe62135dfb5ca7a34ae42eefbd686412a45a2994c887c07eef7d68b30d6cb931e;
  Dbl 48 0xd619ba80f511570a3e3ed4d04647ae2b6eb9264ad8aac5fa6d32ab6bdf78697f;
  Dbl 49 0xffba15c48dae93bb6b7b3fcd35fd12dd25cd8fcdf93f1637105ff77b76307fa5;
  Dbl 50 0x4771f4203b36744f55f580ef5d06095e26d9707e0b0758533cee034caba468d1;
  Dbl 51 0xd789f8898ebd00255511f6639f2a8eea2a15e29c1b6ff8fcedf3e8269f86fcb5;
  Dbl 52 0xfe73522c164abdfb06af1c83a0695ea24c334e788d8251561706989665d6f816;
  Dbl 53 0x1cebd9c97cd5d590c6b74870095510a5178ded2a80f7e9ac7823793acf59a7aa;
  Dbl 54 0x78dcfe4e3af4fa9d145e4091dd5fea89aa125b4033372535c8abe3358fb6e9cb;
  Dbl 55 0xe022f3ccc925f51b2e88befaa3bbd50ec11bfdac0ed8e16681963206ae9f07aa;
  Dbl 56 0xad76aeab07632ba0897563291c07533a53904c8917d4cce1df331c0fea875697;
  Dbl 57 0x8d208cba001b885a9d1cd9bf54e51d2637ac63861474a0fba0cf6a9ae7ffc87;
  Dbl 58 0x96791e6e5c53bddc2e330cdff59b2760a5d1e82daae727ccebf22ba376b64789;
  Dbl 59 0xeeb3323449c404260d45d0c90e1b08bc54f7142b776ce23e8f1eac75e7a54b77;
  Dbl 60 0xc2bf87d6b97bd496e25685665a1b00bf3f668e0d1d0ede73a3ceb3f0f4fd4a0e;
  Dbl 61 0xd980c91e98419256b33ca70642e8086bf8045da5fc4da6a69f1a9b3081a24d28;
  Dbl 62 0x3f00b53d7b742f827adf650878828da4901e79f385673c8ac0efa2ea3783308;
  Dbl 63 0xd10a30165e44a72575956d5eda085e58a090d0349a5b7ec05bab13ee18158af5;
  Dbl 64 0x29324dd7745424c70017bf17b618e2f391ed41979e1c82dcb50a3c2fb80bc258;
  Dbl 65 0xdba0e74da82774f5d0740b49ac31b538d6f8336356feef5f2c4879ed5cabc501;
  Dbl 66 0x3fba9142cf9b09f82a69707ca2d04b2c28ed80f3b48196ca23f69ed53b8c1abb;
  Dbl 67 0x753104d2fc9c3c75b4ef6a5abba9162535cf4ddd8a5fd009d2e8386cab58a6f9;
  Dbl 68 0x3dabc691917a2ea5620f8c27a2799e637b8d554a0bd646d4af7650150eec6760;
  Dbl 69 0xa2c62e1c76621ddd9e90dab925ebdf8caf145b2e46a7e58e91d6292942092618;
  Dbl 70 0xedad044c65261d5af330654524135fbcbf9390aae52cd419885d1b5e0f8b9b19;
  Dbl 71 0x429efa4b1ff1915e962e01b19f4c61cc73d045853c64e8175e7f002437d62505;
  Dbl 72 0x84f13e9eead977e5ecaa6a33b553777d9fc91dedd22924ee4b72d6c6dee592ee;
  Dbl 73 0xbb6aad7061c969e4a76a865e39f1180ed95b0f4970c4d641edb138d52921280f;
  Dbl 74 0x939a30e72a652164becdc44bbcc70ba1bd0abcb08ac9874f81024082a6c29a32;
  Dbl 75 0x74076d2d468e60d0e0f299cfbb8d00eecb0d07a011d521cfa279f96f16b445ec;
  Dbl 76 0xd6011b593a3fa7cf0134011b23ab04ef786b369c800195a19d7be1dd416fce75;
  Dbl 77 0x524efb3f3a34cd13260690a846fa7b4fc7554d8cc78d07cbf445d22431a5451f;
  Dbl 78 0x7b39eb93c9d76ec892fc312340d90ce59e8416bb8b11f7282dbd30f5884300b8;
  Dbl 79 0x4b8a6e723533e7d3d8612077e43af208fcc6193b3ce83e99345da4a80725b05;
  Dbl 80 0xe7dab0f8fcc0ae3e5c394ae291922949b7c5a1f54ecb2aeac075237d21871d65;
  Dbl 81 0xefdf4a31f9cae53c9ad6188f15dab087c937ec1355a56737682e9b533ba614ec;
  Dbl 82 0x79836e79fee4a540a9f84fd1c56da539d7aa05f06ee8dc07f050bc7f4b3813c8;
  Dbl 83 0xa3dd7cd24e9aa562c028da0ecbe9bf7b1f237d0b100445d69f51a8c8e9504e0b;
  Dbl 84 0xee60bda620cddeeffda566bf8827f5ec78e87dbab807b60366aee635c1865883;
  Dbl 85 0x76e9bdb98b0531e25004cdb7856270d30bc0d94a955bfb20e0e76452d1903806;
  Dbl 86 0x4603a1c4e11a2d2b7add077dd09f55a84150118f53ddade3918edb8fccb88328;
  Dbl 87 0xd8e5e0ff655697c13b3cd835bd4c448bdb221a734ee9e30a83fe18fc466ea614;
  Dbl 88 0x87d31f0f3334bc4e9d888d7f0a92a977b8b42f082e30677ea40e0fc53853aca8;
  Dbl 89 0xd9486ea131e9deb91764e2eef47a6705d1a8f870f1c953b801581685c538aec5;
  Dbl 90 0xff96fde5e45d6d4aeb53be3abfd9e88fafb24648712d8c09f882d32e476517cd;
  Dbl 91 0x561b900375d1f12fbc43817d3b1b6ec08e24a4dca93957e6d11e37d55ad82a30;
  Dbl 92 0x1f8c174e9b2c1a8e970cf284b20774c34967aa64c2e0dc8bd93b8e7abe8a7f57;
  Dbl 93 0x2fd440ecc71c28fe10f61da3480411b80cb9376f63ff222b2a2ddc3a6a4e33d;
  Dbl 94 0xe506afbffec23eb1d1eda46bc1a47f39ad9e7a88a616523424b3cf25dc4d9df3;
  Dbl 95 0xff2ca1583f1a35de8b26a39f61ef7b330ac3d5d89557063f7a336c86fa946b5e;
  Dbl 96 0x83cd584275b774459901c763b674c8ef7e681d397f33ab009fc63e628a4240df;
  Dbl 97 0x2afff269aa3c2d6f8e4dbf20d491b5279a99e2d2819310bd60bded08c4ee63e8;
  Dbl 98 0xee2d9657220818c3b91736103e17884fdada03fd2604b20df6c8f927da3bc8fb;
  Dbl 99 0x10a7bdf60fc7a31a8b3fb42f776a4b05d3646917d4a0931b2bbfd132a5a926b2;
  Dbl 100 0x38d2b631c04e00f91ef32f55963a230646c512bd81d0a25de987edb96d284c5e;
  Dbl 101 0x61d5fec6a5fba22816b5b808623c7fe559ae4dac7dbe66723fc25a2336884f1a;
  Dbl 102 0xca831e8e9847bd1e1fb03c68dfda133d25b2dfa512396511e10a6cf15a3d70ac;
  Dbl 103 0x7ed58e109a5779007f144cd1ec6bc382ee1a6accc9547d475a7413d53779aebe;
  Dbl 104 0xa73d3dacbdb7a692790dc1af3c9f0f014e2061b0bfc6face899384549908b31f;
  Dbl 105 0xdea2f4a1c5ccc5e5856f2b3bb3c4b9a98cd11a940c4e5e3ac3545ff714a80470;
  Dbl 106 0xe02f7f2832e406672922adbf40400fdbe0a73bf43d2bf2a29572259c2c257d88;
  Dbl 107 0x6b8cbcbd6ea41e144a5f9ee91f4013a07b5c6db728814cb6c503423abdd3eb91;
  Dbl 108 0xd9392ce2837cddf6341cacd0d31e2a8cfde54f090d312892adf3bb6a5572fac7;
  Dbl 109 0x5e6c9a0f45f0b4f7a6cdd869db2cad66e0836dd7cc4a2c3d439798e5655a1f70;
  Dbl 110 0xbeef0951e81fc2bfdcf83cf6b7f2e0649f0b2f79374803aaab9916e52b114dad;
  Dbl 111 0x985452175e7b133371e382a137a936a0d1965a0ed0cbaf618841965fa3204c60;
  Dbl 112 0xa45affba2808882a40c0a65b07ac92ea34a612da87944158e651251b6ead6046;
  Dbl 113 0x7f90096f549fef2356ce34b939d2bd454aec6c7a1dd5c9eb304f118091a497da;
  Dbl 114 0xc77d2546657cf94c022d48cdbe20751f455fa5881bb05fc40fba9c417fcd890;
  Dbl 115 0x86137b79fd460d9ee30ffd72e14c0b4168aad29a9032a362177851f18be53afd;
  Dbl 116 0x4b4f844d0143a25296621b2df080380ab2386020e7e1f94e05508c3889de979e;
  Dbl 117 0xb365fa38e25b3fc5b284cb3d24386781b7ddb57526257713fac6e05284aabdff;
  Dbl 118 0xc56e236cb8e7a661d0adee1089a2c97d350d26433db369b1c7e2350d34412957;
  Dbl 119 0xc0323c3ff0b59f4e337ae5aa41da4bc064f209265d442f72bfdfd4747ebafba;
  Dbl 120 0x335a827590f28af19ea4dea8ebda096a6622e98b9612da0ceb247a2faf30d6a0;
  Dbl 121 0x5d4a7b8292d0281bb6ece7f76b5c03c75449103e913581c224fd46969d60ed3d;
  Dbl 122 0x8402d15488a2480e9a2fc71a562f9ac1b56f65d30b4258c19e6d7b24e3c5467;
  Dbl 123 0xbcec95630e11053fd18643c46f0d90db12da63a1e42973a63ecc9466b5f2dd32;
  Dbl 124 0x189cadb9c3e6eb55225446aae811598f9c679441df3defb1e35ce2ca7d463adb;
  Dbl 125 0x9213e703f312aeac61e4acafda19ef8e5f1381eec13e78203644a292b1f3e545;
  Dbl 126 0x421ba08db1d328fd8d1e2b0cf284f264e5a201063430c014b77d12a00ff09317;
  Dbl 127 0x542b952fc288536206f1249660b042005354ac1a34d2a317162b49c4b677b4b1;
  Dbl 128 0xedc9c1dccc9c3028c4e2ba2fa2d17542f568dd145f50f77b28e4a9b163f31637;
  Dbl 129 0x187ec219d8f10ef2c5dfd4ed5a16e35fde54cb0ddd79d6699a2a9ef6d91eb7a7;
  Dbl 130 0xc671f9e210c1412e46fec8b5171a80eec01d94d4d5a9296e68a5c6a3b74e8296;
  Dbl 131 0x688f1e5d18840881da851fa505c17fbc49f913ec5fc369d2f1727164ace2b165;
  Dbl 132 0xd21ecf9b7d7162c7df440032f0fbe6d2c6e094282974d2bc869935d4d20d32bc;
  Dbl 133 0x1e71a885315e859a7ec86a1838bf9a9f5fda7f8edaf4d3a16b9d0ca545e2534;
  Dbl 134 0xdb4dd8140120fc49f927051c70cad79f7c6dc805939c85f07cd07ab6ad68e195;
  Dbl 135 0x79d68e1f51dd20edf90c6e1cb37960e840093a6d484f07e28c4b2cea11b5a6e;
  Dbl 136 0x51bb280751d6112dfa1284a5b15fb28746bf79a8c89baee6ecba7ac1b95aae26;
  Dbl 137 0xb884fbb29bb51bff545529ed396dc9731341937ec607986d86273f859bbebe21;
  Dbl 138 0xf1826fcfb66067e7fdc1dd614592fbd8d4993e9eef803ec581799a3cf00f2e70;
  Dbl 139 0xd555015037bb7c9d327c8bf8f3b8a26f702923731f2614012ca37d9cd5a3bff1;
  Dbl 140 0xfe659a56c00e3fd1c500adb7d4f65d198964ded633b97908c4d985365042be15;
  Dbl 141 0x8158c1718a474b191e504867adc02c685a2ba52a05d4f98d36000e44fb4683be;
  Dbl 142 0xd45b7ab81f0f83a103de4fcf9fbfee6ab63382bea0a5b0b978d0f6e6963fe847;
  Dbl 143 0xf19b1758472c9ea63182b65fde4125c273719b2f880e5987aa085acdc733be01;
  Dbl 144 0x1e64c6f99ca4a21bcacf3a5d4a497432b29e3d7f00a83b0d010ada65fe91c9f0;
  Dbl 145 0xfa3aa86d30db23ba052b6438191f10f2195e002605204ee00e6cdb11aac3ef3c;
  Dbl 146 0xd46ddb4ab2f0299b2c9e7eddc5996d803ae869349f6db130d79200e82e417b81;
  Dbl 147 0x20a6022815bae731183b32a6ea666a48277ead8fa81ef841eea1859403e0bfa3;
  Dbl 148 0xb83644d02dbcf9cb5edc43a48807c76a754a71eccc90430d400c2d1b60cb3865;
  Dbl 149 0x3d08860575e43ee1f27528f715604e38453a9f8e323cae51866b0c0736eef4a9;
  Dbl 150 0x897ab3601a533d4234c0435ea0add15315e8c903ee555597af847bc9d01b1436;
  Dbl 151 0x40484e52b74c0c08e56c754d0181221060e8a5e9985f4cacdc689b0a529b807b;
  Dbl 152 0x95b278f457d982f66428d3fb1c1ccb580222fe0d7f59796d4d6f0fed8ad96461;
  Dbl 153 0xce2d7a8ea55c573c89eb97198aff82fc2974702fd12f5776d93c9673c775dc8f;
  Dbl 154 0xeb3f05b3f694ce40135333500a2f97b60a7c3d70a329d4715cd3975591e792fa;
  Dbl 155 0xd9c8693b805141095e5caa30ae30acb61b74fb72671ea7f6fcf180d2b6d48c2c;
  Dbl 156 0xf84af0663d7a3bbd78165cd013aa09d1cba704dc3954de2c6d7e3c94237f4ab3;
  Dbl 157 0x452b9d929f8e62dfd6c7c746ba40ba106038ed5410fcbca88269b978507bd960;
  Dbl 158 0xd8c76bb063a89e7f3fdbb2da85bb04be0edbb69a4d606fa54490b8e737468fc7;
  Dbl 159 0x50e6a30a0bec6ba71d881741e2f52fa3ca4567bf450354e5500856ad43315338;
  Dbl 160 0x802f39f19fa37fda5f0e7f35677cbcdc147ed45dd60db73cd2fa1232b57ea362;
  Dbl 161 0x644063d783acf2895ee48406263675e60472375900489ec1d76471b192ba77bc;
  Dbl 162 0x3d343e5001c1648153b3ff5c2d1c32fa43934d42619d65e7e78139ac1d012eb;
  Dbl 163 0x579db08d73af3821b876d20f4285c616f5ae2babf14c9930689c90ec3ef5167b;
  Dbl 164 0x8390b6f7da6e0b61b2ff69f8c2a0821a48e642599d95ce7f4639e44840b1bbe2;
  Dbl 165 0x23788111088d98bca0fa9614b12095f692e2b46cb600146f553cc74a03bcd574;
  Dbl 166 0x44f6e4e4f7cfee9c51c47cffb1bdce2745be1a1800679c3926b5f97e49c4fba8;
  Dbl 167 0x3f83fd12833d44f0d567074833c35475633a1c4a2ba002d62a048d551cf92263;
  Dbl 168 0x8f5fbcd1e7e0736db266adcc49139d5269bfb2ef6694b3b5185fec29de628438;
  Dbl 169 0xb07de4f0e535ba356ccb0d61e83caae152d2a5b7a264131c2bfd64135cd7a620;
  Dbl 170 0xa607402a83caf83e505fccabfb97ca583cd6ad4665156f954c05943c5fbcf2b7;
  Dbl 171 0x39fb2702b5fe5b53249a08339ea7959a1cf53be57fc533fb4abba6c2fec4b866;
  Dbl 172 0xda4a6bec8eebc6ba58bd866653e79a260170639285735caaa9e1685fcbebd4b6;
  Dbl 173 0x3862bf9599ab8ba66e3f2686179a9f7ae383ef67d6c09339b75171c12f9f9f58;
  Dbl 174 0x452563836074385d50f62b06e9c8cd4b8249f7e5395d164e6c1297f906b6a63a;
  Dbl 175 0xf0ca17296ed80271eb343429e26ceec597ee8d0c669fd578b1fee98d491c4be2;
  Dbl 176 0xfc0d607372d2f4d11b89f9ad5ffd0539ef51cfd49cc40cbee3f7cd0199bfc1f7;
  Dbl 177 0x6e650d5cfd29581fb98a138815e31607a43d3462f5e14383356325ad977f66fb;
  Dbl 178 0x77a1a3d126b9f88075b5f67c07b9c568fb7f54604f03b4d342ffa934b034163e;
  Dbl 179 0xa2f4f19154e53398febc797af2d04c9da1ec41ddb4e0ca8c23a8e0255f140257;
  Dbl 180 0x18f7aa6b3dc3a00933742be417e35df4735e2f6d3ac79db14aea143884eb2417;
  Dbl 181 0x236af9e75e55c824a4ac8d78a82f5f220a4c28a3eccce94063ef42fb5e549998;
  Dbl 182 0xeb9d1dd88798835e36684209d149f36a658b2a2543c7dad4047b03047cbaff95;
  Dbl 183 0x1ab41b2238fd148b31802644e95d5b1f148c7371a31e11e3055d92126c2c8a2a;
  Dbl 184 0x17f395ec8bcae6fb1f942427ad235a51c0480a62a6f0a142abbb650ed4b3df1f;
  Dbl 185 0xcc9f6e8935835507eae61b26266b1b78ff240bc520dc4649465f8d42b522de;
  Dbl 186 0x15b3a6001a02f06e6892bba476ff857147349a0fd28844934687812dbb7a6564;
  Dbl 187 0x8519e369450a5feaec70fccfd73d29ed8d1e44001144ecd4d4b7835024719ad6;
  Dbl 188 0x3059b465485b77d4c243f987b5b0f25cf27575a8684cfcd4eb2d4a18401d21b4;
  Dbl 189 0x88b155ad3cfcf2b31efa16b8973b10e0c4c17e39f8aef64aab321415487a23e0;
  Dbl 190 0x57108fff714057bdfa5981395d5b47677c72789648ca2ebb1628af75d580dfa1;
  Dbl 191 0x66c0742f9f4125548c61f263ba9244d4f16692fa29e5e0a620d39bc9810f901;
  Dbl 192 0xd85bb1aa5db1427283a00d9dcdb6a5012cfd96195e6427abe01bfbcb03f55d46;
  Dbl 193 0xeedaad9e9f12cebbfd8e54114006e13eaa4ae14c143e7235126a4501179ce4f5;
  Dbl 194 0x361a6ae61ce718ed263e6a9b1853971703ba9809072a41c3e3763bc2ed6f3cf9;
  Dbl 195 0x5b2c65076da1f36fbb3d2ee497e9f7413302bc6cc93b9a6ac853186f33543af2;
  Dbl 196 0xcbe44174be4629b2fcc87a8126ee32b5c5b50d23aeebb783ad5c02ca9578c329;
  Dbl 197 0x1d4caf106ac42c7a425fc3159924cf2b08989016019fa200be1a5e427c3d5ef7;
  Dbl 198 0x3b64a0fada3c548581e69a352e54611b8bbc1df0e1ea0cf9d2f7a8bfb6d6c71f;
  Dbl 199 0x2578b17af2230a95b9afad191f9001ffedbe02357f929855a1eb8708311d8a1;
  Dbl 200 0x841a25f768da73ba64f60e0c064199c0edcc6f799e68114adf08f14ddee4308f;
  Dbl 201 0x588fe0db8a3643f7a2a727e25a01edf60fed78079be7a25fc0dc30a5f5207e8;
  Dbl 202 0x686734db8bd3dba5c57503c8383e0a2e9e2117921863e750aecf77a67a796ff5;
  Dbl 203 0x21a65d75381e6a2602f2072d8e3a3ccc31c632facc77c087f7042bca91248cde;
  Dbl 204 0x49eae1ff96d1cd7fa2e389bbfba4f0d302e682c659a3e40cfdae85465e8440c1;
  Dbl 205 0xd6146596f2ee79137611e17d1ea396e756164cec359e33e3c1928d4d8535eb67;
  Dbl 206 0xc819eb8218f019e4b66875ab119a7ced44952e267ed06bd9842915ae1c2662b5;
  Dbl 207 0x562aed95a88976eb58a0eaedbbb352fa3cbb48047e678a18f27123f184affaea;
  Dbl 208 0x6ccc8d2186ae7e49d66ff6b8f29f2ef7d0787fd4a0cd6d6cbb0151b93f8c4185;
  Dbl 209 0xa5dc14339dbba5eb6348153a2a2ffc8e4900f2a8e4b4fb6dd824bcf0561420a6;
  Dbl 210 0x2584ba8fa4a53169391714867d8337132b16f6d96475908e1615c722700c4063;
  Dbl 211 0x2be8ba2e4bef2ab0902018709a4a5b8c022d5e6a378d7dc64408a8cae7b5c7a7;
  Dbl 212 0x2f15b2b220b5ad40e5dbdea89e4c1aa4986ceec607da86e43170033722a1cb3f;
  Dbl 213 0x12bdecd1047a88adcf126175871cc8f6dc524ab9ec13aa30e786eca5bbdffe86;
  Dbl 214 0xc5abfad6aff7ebddb3c86d4be9bb27f3094cb9cdb529ddcb7a4af2154297dcc6;
  Dbl 215 0xd73b64264df98ac0737a9f56dcb96baca5cff1d399c512934134bc0c1b590f5f;
  Dbl 216 0xce4077a5bf5d472fb3457e45409b5a2393d012a3df71cd17d1566ac21c62260a;
  Dbl 217 0x76fb5871ddcee4c42bf5a5d5188048300eb19e4b1e113b7c1fdcf08847429cfa;
  Dbl 218 0xe3b79fce6050a68b90ee8e724a0f9a2a74940e209417871d1d999cb483a08b3a;
  Dbl 219 0x2696e903b7f800bbb5e2fc779b05fdd16b03ff93416f00354914e79773dad614;
  Dbl 220 0x8a95f48f04dd1bc859395581bb7ff7c3176e09937f40f36c99b8703530e3bf2;
  Dbl 221 0xb395d61903804162db1172c006f68e42d06e03786bfc9e4e7965c02cd3db4b6a;
  Dbl 222 0x80899b05c798fede016890c1b03b093ddd96712f36d54f6522dc451c2c827af9;
  Dbl 223 0xf3bbc4bff6110eef4b37b9935be7a9d0cf64b50b1fd329c332086367828f8d0c;
  Dbl 224 0x62f29d0e45749148a95c7958e857a399cec5141a63412a80e5e965884712bb3a;
  Dbl 225 0x8fccf43eebe9a7d01488efbad513b401347805f39d02e93db124bc1180ed6934;
  Dbl 226 0x18d61cad397c103f96dc404e579a6c6c97baaad9b92fc79fa7d5b01380078694;
  Dbl 227 0x52a59ef3c3672d8d46b4317118e2f22e25580ad6f6bbd1633b7bbe0df59d4d1c;
  Dbl 228 0x3a373f724af6987d59ce56bd59925e4c2f94a708f41ec2acf06fedff9919c446;
  Dbl 229 0x5b219aa98f1126779fd6f9a666c70b7d33da4505094f44029f38d4ded0c630dd;
  Dbl 230 0xc52512614d86a714e3e1fa8e1ec80adcbe40a9021d01abe67373338dca1fd7f2;
  Dbl 231 0x67575e46da0705a99efb9c081f7e407f9261a88af3a6ce1c604d477d6f027db2;
  Dbl 232 0x86426ca4a5f1f2bc4bf7bb25cadfc0201a83a5facd68bccc71fadb9210bbc305;
  Dbl 233 0x29a7fad8a0d2b6baa49849df07e4f77e6363205e5c7c2189ffb4f83655b4b636;
  Dbl 234 0xc614eab8caab8b08f985475ed01cb88e238346bc0cbeaa036f166b42dfb45792;
  Dbl 235 0x5c76f6e051af305fcc125c67b00278a739e773f98021c131fb43d9ce3385d00e;
  Dbl 236 0x157f0f31a073708d2038213b7c76206599996094e636ff81bda0c60310ac4780;
  Dbl 237 0x3f54787fd9439d059027bc17c5f944f5a39491debf61b2b72c60044d6b249a44;
  Dbl 238 0xbbcc1529aec8d2edd74f8b1f5aa7f8953b7b2d2e04cd428274bbaea5372fe475;
  Dbl 239 0x151bd893fe7c6de3fc92d8bd1f184e2d6f0e4c89fd01f072f4727cc53fc7bd61;
  Dbl 240 0x7b193d6fe98bcd2275b824015c075880617c3f9dbc1b79c438ce945ea0bcbd36;
  Dbl 241 0x8a1d978fdcc6f034efe2e0648dba3f3f24ce9ebc23d58a93e3e444238af40e70;
  Dbl 242 0x7f5594e6b30e86a5eb78bd8c322f8db95b1afa5454002ee646ceb26e96aa2257;
  Dbl 243 0xeac042e2c5e481571f1eaac376de518c4433d5fd007da78198768a389db9dc88;
  Dbl 244 0x8d94fc5d2ebd4b17e7585fd666f2a1680883abfe8ef46fc729fa17babf790dda;
  Dbl 245 0xa6bb53ffca7f5f1f5a16112059525edbe41b29b1994ab64c3f3facfd68c2695;
  Dbl 246 0xc2138b72713b6a4df974572f04358546ba8d1f9f52cabb2d65e4174e6e4e82e4;
  Dbl 247 0xcd79c7043811a751c1e592ea9da7d571ee6d355fdd2ac7c6e11a6a7ba66f5891;
  Dbl 248 0x70fe08de7b200ece1206b577ea43ba04f13abe0024ba7087aa72f7342192fba6;
  Dbl 249 0x4534e39c9d03692fc0037c8f338b1c0215f25e6470517bb138f4353e1eec1c2c;
  Dbl 250 0x6d53aaf6a8cede2d1071d391bc475494e2a23620090db57964cb04a52fd02b0a;
  Dbl 251 0xe817b1192283c9445fdf19af8e73896e751c28ef4692d2b7ae9ce1ee6d7a0a69;
  Dbl 252 0x3130eb87dc64d1b27399cb6506109a944c84a5b33e3ed2a46e73f68d6adc1efd;
  Dbl 253 0x94f571cbdd2f660048bf99d9e6b8f719f24d650cf0d2dcc91ed22394a1b71d26;
  Dbl 254 0x974e5dbe7404fae4c6f09c7779bebcf381522934ff03631882fffecc9e73eb8b;
  Dbl 255 0xfc21c8a3ca342f1227fb3266864650867b71c48c43e750fbc3ad214d0ebe2c07;
  Sum 0 64 0x9ad4dd86289c683ba0099c37d4ebd5faa3626bac58cb8dc48fd302c71352a356;
  Sum 0 128 0x15e1d6a72edac19d378c61e0aafdd623d546b4f027bf9126b03bcc50aa8760aa;
  Sum 64 128 0x9ab0555e577a53b01c65d7e7b3877f50b76357c7289616bff5e4263452eda6ef;
  Sum 257 128 0x3020fd1c2c11bce8946e8e07f013884a6995ebf4df9499f50e951bf6a1b4fcb8;
  Sum 0 192 0x35c5e064e353594a438f574043bd3134f06c564a084a3bba4701ddd4ca83e9cd;
  Sum 64 192 0xe21486704736fbba68381eec72896fcabc0f6117df372e2220954c84bf996058;
  Sum 257 192 0xf2cdd5c99a750fe7aaa5bad31684555df0fc61330ee72e09e8d3731f97d81e46;
  Sum 128 192 0xf115b35adc77e006bfff38c4eef476c51fa57cd2e4eddca5a702fc23751b97be;
  Sum 258 192 0xe5c9cac7c3b7d67823e94db72ab001501008e9e2d178adad740f2aad64c3e132;
  Sum 259 192 0x85c6c731a6c5ff01a6a3d1e7f3bc3a478cbda307f9a259dc6cb59e7bc51c82dd;
  Sum 260 192 0xc995e6774c34bedce8c30a11f387b12d921db747a838fdd506789c96fc4f8a2f;
  Sum 32 96 0x42fea82d352846f8bc963457229fe67a49e645109b6923096bb0efa2a1008ceb;
  Sum 32 160 0x7e5139be91ceebe2b31e1ff444b8bdb999f408d9d50dc0c88c78f091fe0a79bb;
  Sum 96 160 0x36bfa73c5ca1d39e8de9d85e14969c71af09967706f8e2b19edb442d34d0228f;
  Sum 268 160 0x98232e63fdc0b71f244887770db99bd2a12ae7e78b3dd30189350f67b2d3276a;
  Sum 32 224 0xa11052464007199532113ced23fac7c0d8df8456b9361beaa161a8227b558f68;
  Sum 96 224 0xea04962e699477608d3caf08734daca9876ffefe8234c26b4b1242a8d9d8bd72;
  Sum 268 224 0x96f95913b3a19dd8036dc94d21e1e7765f0cbf3388cbdef34e5e6bcb652a4ab7;
  Sum 160 224 0xd090791a97e7e78964bc8b128d5ec6138648694af68ede7a27f7fdfb6d7c7e35;
  Sum 269 224 0x292ed93ad2693471f800fb66003a8408e453bb04a5510480c8e07d44dad075bf;
  Sum 270 224 0x88609e988947b02b0124f71ba739527d520f07b5a99d77b110020458efa39e70;
  Sum 271 224 0xc651ba5af77e1ff172ecd24dce31dd88ec7af2a65aa42bbc629c3990d47801ca;
  Sum 256 192 0xa9a8e79757733cc04bdf48f5d6fd2174aa3801e3fd7b064b19047c63fde4c482;
  Sum 224 128 0x4af5522ce99bf03075c28304368049df388fe10e9e8fa4cac0c89460cc081281;
  Sum 279 0 0x53951437f12be330808fb22e227b76e87ecb9b1ea7779c6faea3072fd5fdf567;
  Sum 281 4 0x3c6bb27a298194b4904cef6056895cf2ec037faaa44722b5e3d4d9a6b0a00a88;
  Sum 282 6 0x460d5b115673f6d389d5477a3d190e0cc78875499bacad7a2a125efb4e7c80e0;
  Sum 283 8 0x4127f8a17532c5412cdd8cf9acb497021a5c45c6b86571458c4dff2b55707b6e;
  Sum 284 10 0x1de6692570fb4760b1acd4c35bcba9ea2e2324dad0f8821a584db08228cc303d;
  Sum 285 13 0xc1e6a8c5e1a5bdff3ee26a9f9ee54692a3251cfcdd1394d9e7d38262c2e66fd1;
  Sum 280 16 0x63ff01e69bdadbb4b24cb3679bd546565ace3bca8b4ab6ebfc75e0102d8dc8b0;
  Sum 286 18 0x2fc2aae080f7a35f1f93d51e20a7955aea7afbeae98d77d4be642f0b4b7c5fd0;
  Sum 287 21 0xc6d20304e46443a82fcd1258545514fb4f988a4985164acd76dc7f30c07d44c1;
  Sum 288 23 0xf76fabeb6c8e1f34875d7b9368566547057a4be77b86db131167dc1dc48fc0c7;
  Sum 289 26 0xea20b348eb61d951ea61368fa66f1ba39a626a86f3cd70075cf2a179c3184a49;
  Sum 291 32 0x3a51893d4a031452bd062d12f3f862b6ea70d5457f2e484dfd1f7b75510aba95;
  Sum 290 34 0x3d55d96d4206bc6cfb458ec9571020962b201b3175198dc08f742ac4cb6d50c5;
  Sum 292 38 0x9882552a8e286dc3ec289d0761d371b303e498b3b5fda0125549f5f377484c8c;
  Sum 294 40 0xfc52025b22a8d8d18cac295e55bd2480b034d166e31b6e5709794d86db27f9cf;
  Sum 295 42 0x543a5ce89bd5a0e4e6f8e561920e9c6476bfdd213d46d0b339dcac3c9256377;
  Sum 293 44 0xf0a9c904b4b2a13b82e49f06f834388a0161ce677b32363a19a038d2b9cb8b46;
  Sum 296 46 0xaac1bb864cafbb834eca0c17caf236f3fa0ec2c1b3099b07e150e9eec3a24e8;
  Sum 297 49 0x7940c244670cadc3efc647858e521bca87124cc01e53bb2561690ade7680b0d4;
  Sum 298 51 0xf73be46a545381789230e6a040ca81e480a17e55f6660f4cb0f87823e1f6ab61;
  Sum 300 54 0xc8ce2a43a56ceb86d2814f2d7ebad01aea4cccde65636c672ed445b7956dc603;
  Sum 299 58 0x90a655b6358f3d925e28fabb2c63ce2703020d9c789cb969b004365ce11e7441;
  Sum 301 60 0x7d19968e5d469caded01dbadd26241222e107accaea75b9f8955a8f486a84654;
  Sum 302 64 0x4022a7eb7c59306493c406b96f05f08fe37e28fce23b0a3b64b375327a404eec;
  Sum 304 66 0x2f101b05cea42004c8c3c1a5f77b8768ce9bec2233b2eed1f691691115a4b13a;
  Sum 305 71 0x8107c9878ed922ef6403af53b2faaacba6cfa98c767cd32fa907909f00f6ddfd;
  Sum 303 73 0x208925f34c339e9d20b6626eb017299d3eb4c5d65878ea96d16b22742a2e634b;
  Sum 306 77 0x7bc517520181acaa3468b7fc20b8e20ea54ae2ccfd820e81c4218c28a4eb734f;
  Sum 307 79 0x6d83a8bb397366dcbd5d4d9eb4c083628c38da7c8e367c325743a647157e7958;
  Sum 309 83 0xab3ad220b69196d597b16b3c5bb0c427103a742b05ec59c91ef7a6bc12c55857;
  Sum 308 85 0xdff458f368eaeed83221b23c61ca25240e1335b3d5d8690a434f80c808e66eb0;
  Sum 310 88 0xd8287fc91367eb66d595735432d6aa6fd3efcd6d765e4f66e93e6808c6da8d18;
  Sum 311 91 0x9abf286c00398ec6e7fe7f8a0e0181f1073d061ec0965e7411545856ab0adcac;
  Sum 313 93 0x65aeb339ac138277dd1491191eb56530fb5dc8489929b90cf241b3c8afbad993;
  Sum 312 95 0xcc5cff7efec828887eaffcf85f0fb6f1943869559584913afaf9450ef8df8bd8;
  Sum 315 97 0xcd0b569ed83a024d1adcb0ad035679163d997ad81f2c8ae8531b8f32fa43eb06;
  Sum 316 100 0x3e3d9bc4c32cc84c4c433eab10b351edbf2d35103e8e63f1539000d78371ffd0;
  Sum 317 102 0xec7855fba0818ab64ce173efc58b87a611e9a4db6f70ce55b5112a29bcc4afe6;
  Sum 318 104 0x67b24ce066ad7e92a8d86b4a760f1222d76d6f7fcd01454934db16f95fd286fa;
  Sum 319 106 0xfa33170ee5f9ec230de51d904c779a8c3e157cf28f4e210088ea36a8b8d14464;
  Sum 320 112 0xdb0c40297f36147f49fe28dc808346e8c906534ca14780867204632718b61b6d;
  Sum 314 115 0xd88f8ecc461f8d90c570e572ac5df1e3b7a2b3225721ad34ad7a174f8fb814ea;
  Sum 321 117 0xe22690dd75ad5eeeaa7afae6f7480437ae44e56a75615ee6ab172c9d7dc4892c;
  Sum 322 120 0x609933526be126e211d21271f0d240a0feaa48cdfcfe7e79ca2990c696346198;
  Sum 323 122 0xacdedcb66d6eacf14fa8d3378676da8af9f87797fac43e5eb5bc431eccca4ef;
  Sum 325 126 0xfefbf179e922ce87f86d961af11c2371129ffe7542aec71f81344e10e0d41bee;
  Sum 324 128 0x9e50a19d9860f0e7c4cb5d224454af7d07966845e73563049b93cd6689c61bb7].

Definition places0 : list nat := [0; 64; 257; 128; 258; 259; 260; 192; 261; 262; 263; 264; 265; 266; 267]%nat.
Definition places1 : list nat := [32; 96; 268; 160; 269; 270; 271; 224; 272; 273; 274; 275; 276; 277; 278]%nat.

(** What the entries of a table are, [c] times the multiples above. *)
Definition entry_multiples (c : Z) : list Z := (fun index => c * comb_index index) <$> seqZ 1 15.

Definition computed (ms : list multiple) : bool :=
  table_ok ms table0 (entry_multiples 1) places0 &&
  table_ok ms table1 (entry_multiples (2 ^ 32)) places1 && order_ok ms order_n 327 326.

(** [c] holds of the multiples computed. *)
Definition holds_of_draws (os : list line) (c : list multiple -> bool) : bool :=
  match draws [(1, (base_x, base_y))] os with Some ms => c ms | None => false end.

Lemma holds_of_multiples os c : holds_of_draws os c = true -> exists ms, Forall is_multiple ms /\ c ms = true.
Proof.
  unfold holds_of_draws. intros H. destruct (draws _ os) as [ms|] eqn:E; [|discriminate H].
  exists ms. split; [|exact H]. refine (draws_ok os _ _ _ E). apply Forall_cons. split; [|by apply Forall_nil].
  split; [by vm_compute|]. apply mult_point_1.
Qed.

Lemma base_multiples_computed : holds_of_draws lines computed = true.
Proof. vm_compute. reflexivity. Qed.

Lemma tables_ok :
  Forall2 (fun f k => affine_rep f (mult_point k base_point)) table0 (entry_multiples 1) /\
  Forall2 (fun f k => affine_rep f (mult_point k base_point)) table1 (entry_multiples (2 ^ 32)) /\
  mult_point order_n base_point = Inf.
Proof.
  destruct (holds_of_multiples _ _ base_multiples_computed) as (ms & Hms & Hc). unfold computed in Hc. apply andb_prop in Hc as [Hc H3]. apply andb_prop in Hc as [H1 H2].
  split; [exact (table_ok_rep ms _ Hms _ _ H1 eq_refl eq_refl)|]. split; [exact (table_ok_rep ms _ Hms _ _ H2 eq_refl eq_refl)|].
  exact (order_ok_mult ms order_n _ _ Hms H3).
Qed.
