(* ===== verification/P256Base.v ===== *)
(** * Multiplication of the base point of P-256

    [scalar_base_mult] multiplies the base point by any number below its order,
    two bits of each pair of digits at a time. *)

From Stdlib Require Import Field Zmod.ZmodDef Zmod.ZmodBase Zmod.ZmodInv.
From S2P Require Import Prelude Words P256 P256Props P256Ec P256Field P256Mul Primality EcLaw EcJacobian P256Curve P256Points P256Select P256Scalar P256Table.

#[local] Open Scope Z_scope.
#[local] Open Scope c_scope.

Lemma base_of_order : of_order_n base_point.
Proof. split; [exact base_on_curve|discriminate|exact (proj2 (proj2 tables_ok))]. Qed.

(** ** The tables *)

Lemma table0_limbs : kPrecomputed = affine_limbs table0 ++ affine_limbs table1.
Proof. vm_compute. reflexivity. Qed.

Lemma table1_limbs : drop (30 * NLIMBS) kPrecomputed = affine_limbs table1 ++ [].
Proof. vm_compute. reflexivity. Qed.

(** A table of [c] times the multiples of the first. *)
Definition is_table (c : Z) (table : list (felem * felem)) : Prop :=
  Forall2 (fun f k => affine_rep f (mult_point k base_point)) table (entry_multiples c).

Lemma is_table_length c table : is_table c table -> length table = 15%nat.
Proof. intros H. by rewrite (Forall2_length _ _ _ H). Qed.

Lemma is_table_entry c table index :
  is_table c table -> 0 < index < 16 -> affine_rep (nth (Z.to_nat (index - 1)) table (kZero, kZero)) (mult_point (c * comb_index index) base_point).
Proof.
  intros H Hi. assert (Hl : (Z.to_nat (index - 1) < length table)%nat) by (rewrite (is_table_length _ _ H); lia).
  destruct (lookup_lt_is_Some_2 _ _ Hl) as [f Ef]. rewrite (nth_lookup_Some _ _ _ _ Ef).
  destruct (Forall2_lookup_l _ _ _ _ _ H Ef) as (k & Ek & Hk). unfold entry_multiples in Ek. apply list_lookup_fmap_Some in Ek as (z & -> & Ez).
  apply lookup_seqZ in Ez as [-> _]. replace (1 + Z.of_nat (Z.to_nat (index - 1))) with index in Hk by lia. done.
Qed.

Lemma affine_rep_ok f P : affine_rep f P -> affine_ok f.
Proof. intros (x & y & _ & [Hx _] & [Hy _]). split; by apply tight_limbs_ok. Qed.

Lemma is_table_ok c table : is_table c table -> Forall affine_ok table.
Proof. intros H. eapply Forall2_Forall_l; [exact H|]. apply Forall_true. intros k f Hf. by apply affine_rep_ok in Hf. Qed.

(** ** A step *)

Definition is_bit (b : Z) : Prop := b = 0 \/ b = 1.

Lemma lor_bits b0 b1 b2 b3 : is_bit b0 -> is_bit b1 -> is_bit b2 -> is_bit b3 ->
  Z.lor (Z.lor (Z.lor b0 (Z.shiftl b1 1)) (Z.shiftl b2 2)) (Z.shiftl b3 3) = b0 + 2 * b1 + 4 * b2 + 8 * b3 /\
  comb_index (b0 + 2 * b1 + 4 * b2 + 8 * b3) = comb b0 b1 b2 b3.
Proof. intros [-> | ->] [-> | ->] [-> | ->] [-> | ->]; split; reflexivity. Qed.

Lemma jrep_affine f x y : rep f.1 x -> rep f.2 y -> jrep (f.1, f.2, kOne) (Pt x y).
Proof.
  intros Hx Hy. exists x, y, 1%Fp. split; [done|]. split; [done|]. split; [apply rep_one|].
  split; [apply (fp_neq 1 0); vm_compute; discriminate|split; ring].
Qed.

(** The mixed addition of two different multiples. *)
Lemma add_multiple P nx ny nz fx fy k e :
  of_order_n P -> jrep (nx, ny, nz) (mult_point k P) -> affine_rep (fx, fy) (mult_point e P) -> 0 < k -> 0 < e -> k + e < order_n -> k <> e ->
  jrep (point_add_mixed nx ny nz fx fy) (mult_point (k + e) P).
Proof.
  intros HP Hn (x & y & Ee & Hx & Hy) Hk He Hlt Hne. pose proof (mult_curve k _ (order_curve _ HP)) as Hck.
  pose proof (mult_curve e _ (order_curve _ HP)) as Hce. assert (Hd : mult_point k P <> mult_point e P).
  { destruct (Z_lt_le_dec k e); [|apply not_eq_sym]; apply mult_distinct; (done || lia). }
  rewrite mult_point_add by (apply HP || lia). rewrite Ee in *.
  apply point_add_mixed_ok; [exact Hn|exact Hx|exact Hy|exact Hck|exact Hce|apply mult_finite; [exact HP|lia]|exact Hd].
Qed.

Section Step.
Context (scalar : p256_int) (i j : Z) (table_offset : nat) (table : list (felem * felem)) (rest : list Z) (c : Z).
Hypothesis table_eq : drop table_offset kPrecomputed = affine_limbs table ++ rest.
Hypothesis Htable : is_table c table.
Hypothesis c_pos : 0 < c.

Lemma base_step_ok st k b0 b1 b2 b3 :
  p256_get_bit scalar (31 - i + j) = b0 -> p256_get_bit scalar (95 - i + j) = b1 ->
  p256_get_bit scalar (159 - i + j) = b2 -> p256_get_bit scalar (223 - i + j) = b3 ->
  is_bit b0 -> is_bit b1 -> is_bit b2 -> is_bit b3 -> tracks base_point st k -> 0 <= k ->
  let e := c * comb b0 b1 b2 b3 in
  k + e < order_n -> (k <> 0 -> e <> 0 -> k <> e) -> tracks base_point (base_step scalar i j table_offset st) (k + e).
Proof.
  intros E0 E1 E2 E3 B0 B1 B2 B3 Hst Hk e He Hne. unfold base_step. rewrite E0, E1, E2, E3.
  destruct (lor_bits b0 b1 b2 b3 B0 B1 B2 B3) as [-> Ec]. set (index := b0 + 2 * b1 + 4 * b2 + 8 * b3) in *.
  assert (Hi : 0 <= index < 16) by (unfold index; destruct B0, B1, B2, B3; lia).
  assert (Hie : index = 0 <-> e = 0) by (unfold index, e, comb; destruct B0, B1, B2, B3; nia).
  assert (He0 : 0 <= e) by (unfold e, comb; destruct B0, B1, B2, B3; nia).
  rewrite table_eq, select_affine_ok by (done || by eapply is_table_ok || by eapply is_table_length).
  set (f := if index =? 0 then (kZero, kZero) else nth (Z.to_nat (index - 1)) table (kZero, kZero)).
  assert (Hf : tight f.1 /\ tight f.2 /\ (index <> 0 -> affine_rep f (mult_point e base_point))).
  { unfold f. destruct (Z.eqb_spec index 0) as [Ei|Hi0]; [pose proof (proj1 rep_zero); split_and!; done|].
    pose proof (is_table_entry c table index Htable ltac:(lia)) as H. rewrite Ec in H. fold e in H.
    split_and!; [..|done]; destruct H as (x & y & _ & [Hx _] & [Hy _]); done. }
  clearbody f index e. destruct f as [fx fy]. destruct Hf as (Hfx & Hfy & Hf). destruct st as [[[nx ny] nz] m].
  pose proof (tracks_tight _ _ _ Hst) as Hn. pose proof (tracks_point _ _ _ Hst) as Hp. cbn [fst snd] in *. pose proof base_of_order as Hb.
  apply (tracks_merge base_point _ _ _ _ _ k e Hst Hk He0 Hi Hie).
  - split; [exact Hfx|]. split; [exact Hfy|exact (proj1 rep_one)].
  - by apply add_mixed_tight.
  - intros Hi0. destruct (Hf Hi0) as (x & y & -> & Hx & Hy). exact (jrep_affine (fx, fy) x y Hx Hy).
  - intros Hk0 Hi0. apply add_multiple; [exact Hb|by apply Hp|by apply Hf|..|]; [lia..|apply Hne; lia].
Qed.
End Step.

(** ** Rounds *)

(** The digits without their last [e] bits: what the accumulator is a multiple
    by, lane by lane. *)
Definition lanes (e : Z) (scalar : p256_int) : list Z := map (fun d => d / 2 ^ e) scalar.

Lemma get_lane scalar q i bit : 0 <= i < 32 -> bit = 32 * Z.of_nat q + (31 - i) -> p256_get_bit scalar bit = nth q scalar 0 / 2 ^ (31 - i) mod 2.
Proof. intros Hi ->. apply get_bit_digit. lia. Qed.

Lemma mod2_bit z : is_bit (z mod 2).
Proof. unfold is_bit. pose proof (Z.mod_pos_bound z 2). lia. Qed.

(** A lane doubled takes the next bit of its digit, and stays below it. *)
Lemma lane_step d i : 0 <= d < 2 ^ 32 -> 0 <= i < 32 ->
  d / 2 ^ (31 - i) = 2 * (d / 2 ^ (32 - i)) + d / 2 ^ (31 - i) mod 2 /\ 0 <= d / 2 ^ (32 - i) /\ d / 2 ^ (31 - i) <= d.
Proof.
  intros Hd Hi. replace (32 - i) with (31 - i + 1) by lia. rewrite Z.pow_add_r, <- Z.div_div by lia. split_and!.
  - apply Z.div_mod. lia.
  - apply Z.div_pos; [apply Z.div_pos|]; lia.
  - apply Z.div_le_upper_bound; [lia|]. nia.
Qed.

(** Numbers are equal only if they are in every lane. *)
Lemma lanes_differ a b : words a -> words b -> Forall2 (fun x y => x = y -> y = 0) a b -> val b <> 0 -> val a <> val b.
Proof.
  intros Wa Wb Hab Hb E. apply Hb. apply val_inj in E; [|done|done|by apply Forall2_length in Hab]. subst b.
  apply val_zero_iff; [done|]. induction a as [|x a IH]; [by apply Forall_nil|].
  apply Forall2_cons in Hab as [Hx Hab]. apply words_cons in Wa as [_ Wa]. apply Forall_cons. split; [by apply Hx|].
  destruct (Z.eq_dec (val a) 0) as [E0|]; [by apply val_zero_iff|by apply IH].
Qed.

(** The bits of the lanes of both halves of a round. *)
Lemma val8 a0 a1 a2 a3 a4 a5 a6 a7 : val [a0; a1; a2; a3; a4; a5; a6; a7] = comb a0 a2 a4 a6 + 2 ^ 32 * comb a1 a3 a5 a7.
Proof. cbn [val]. unfold comb. ring. Qed.

Lemma words8 a0 a1 a2 a3 a4 a5 a6 a7 : words [a0; a1; a2; a3; a4; a5; a6; a7] <->
  (0 <= a0 < 2 ^ 32 /\ 0 <= a1 < 2 ^ 32 /\ 0 <= a2 < 2 ^ 32 /\ 0 <= a3 < 2 ^ 32) /\
  (0 <= a4 < 2 ^ 32 /\ 0 <= a5 < 2 ^ 32 /\ 0 <= a6 < 2 ^ 32 /\ 0 <= a7 < 2 ^ 32).
Proof. rewrite !words_cons. pose proof words_nil. tauto. Qed.

(** A digit of the scalar at round [i]: the lane before, and the bit it takes. *)
Definition takes (scalar : p256_int) (i : Z) (q : nat) (l b : Z) : Prop :=
  nth q (lanes (32 - i) scalar) 0 = l /\ nth q (lanes (31 - i) scalar) 0 = 2 * l + b /\ 0 <= l /\ is_bit b /\
  p256_get_bit scalar (31 + 32 * Z.of_nat q - i) = b.

Lemma takes_ok scalar i q : p256 scalar -> 0 <= i < 32 -> (q < 8)%nat -> exists l b, takes scalar i q l b.
Proof.
  intros [W L] Hi Hq. pose proof (words_nth scalar q W) as Hd. destruct (lane_step _ i Hd Hi) as (E & Hl & _). unfold takes, lanes.
  assert (En : forall e, nth q (map (fun d => d / 2 ^ e) scalar) 0 = nth q scalar 0 / 2 ^ e).
  { intros e. rewrite (nth_indep _ 0 (0 / 2 ^ e)) by (rewrite length_map; lia). apply (map_nth (fun d => d / 2 ^ e)). }
  rewrite !En. do 2 eexists. split; [done|]. split; [exact E|]. split; [done|]. split; [apply mod2_bit|]. apply get_lane; lia.
Qed.

Section Round.
Context (l0 l1 l2 l3 l4 l5 l6 l7 b0 b1 b2 b3 b4 b5 b6 b7 : Z).
Hypothesis Hw : words [2 * l0 + b0; 2 * l1 + b1; 2 * l2 + b2; 2 * l3 + b3; 2 * l4 + b4; 2 * l5 + b5; 2 * l6 + b6; 2 * l7 + b7].
Hypothesis Hl : words [l0; l1; l2; l3; l4; l5; l6; l7].
Hypothesis Hb : Forall is_bit [b0; b1; b2; b3; b4; b5; b6; b7].

Lemma round_bits : (is_bit b0 /\ is_bit b1 /\ is_bit b2 /\ is_bit b3) /\ is_bit b4 /\ is_bit b5 /\ is_bit b6 /\ is_bit b7.
Proof. rewrite !Forall_cons in Hb. tauto. Qed.

(** The accumulator doubled is not the multiple the first table adds. *)
Lemma first_half : 1 * comb b0 b2 b4 b6 <> 0 -> 2 * val [l0; l1; l2; l3; l4; l5; l6; l7] <> 1 * comb b0 b2 b4 b6.
Proof.
  intros He. destruct round_bits as [(B0 & B1 & B2 & B3) (B4 & B5 & B6 & B7)]. apply words8 in Hw, Hl.
  replace (1 * comb b0 b2 b4 b6) with (val [b0; 0; b2; 0; b4; 0; b6; 0]) in * by (rewrite val8; unfold comb; ring).
  replace (2 * val [l0; l1; l2; l3; l4; l5; l6; l7]) with (val [2 * l0; 2 * l1; 2 * l2; 2 * l3; 2 * l4; 2 * l5; 2 * l6; 2 * l7])
    by (cbn [val]; ring).
  apply lanes_differ; [apply words8; unfold is_bit in *; lia|apply words8; unfold is_bit in *; lia| |done].
  unfold is_bit in *. repeat (apply Forall2_cons; split; [lia|]). by apply Forall2_nil.
Qed.

(** Nor, with it, what the second one adds. *)
Lemma second_half : 2 ^ 32 * comb b1 b3 b5 b7 <> 0 ->
  2 * val [l0; l1; l2; l3; l4; l5; l6; l7] + 1 * comb b0 b2 b4 b6 <> 2 ^ 32 * comb b1 b3 b5 b7.
Proof.
  intros He. destruct round_bits as [(B0 & B1 & B2 & B3) (B4 & B5 & B6 & B7)]. apply words8 in Hw, Hl.
  replace (2 ^ 32 * comb b1 b3 b5 b7) with (val [0; b1; 0; b3; 0; b5; 0; b7]) in * by (rewrite val8; unfold comb; ring).
  replace (2 * val [l0; l1; l2; l3; l4; l5; l6; l7] + 1 * comb b0 b2 b4 b6)
    with (val [2 * l0 + b0; 2 * l1; 2 * l2 + b2; 2 * l3; 2 * l4 + b4; 2 * l5; 2 * l6 + b6; 2 * l7]) by (rewrite !val8; unfold comb; ring).
  apply lanes_differ; [apply words8; unfold is_bit in *; lia|apply words8; unfold is_bit in *; lia| |done].
  unfold is_bit in *. repeat (apply Forall2_cons; split; [lia|]). by apply Forall2_nil.
Qed.

Lemma comb_nonneg c0 c1 c2 c3 : is_bit c0 -> is_bit c1 -> is_bit c2 -> is_bit c3 -> 0 <= comb c0 c1 c2 c3.
Proof. unfold is_bit, comb. lia. Qed.

(** Both steps of a round. *)
Lemma round_steps scalar i st acc :
  p256_get_bit scalar (31 - i) = b0 -> p256_get_bit scalar (63 - i) = b1 -> p256_get_bit scalar (95 - i) = b2 ->
  p256_get_bit scalar (127 - i) = b3 -> p256_get_bit scalar (159 - i) = b4 -> p256_get_bit scalar (191 - i) = b5 ->
  p256_get_bit scalar (223 - i) = b6 -> p256_get_bit scalar (255 - i) = b7 ->
  acc = val [l0; l1; l2; l3; l4; l5; l6; l7] -> tracks base_point st (2 * acc) -> 0 <= acc ->
  2 * acc + 1 * comb b0 b2 b4 b6 + 2 ^ 32 * comb b1 b3 b5 b7 < order_n ->
  tracks base_point (base_step scalar i 32 (30 * NLIMBS) (base_step scalar i 0 0 st)) (2 * acc + 1 * comb b0 b2 b4 b6 + 2 ^ 32 * comb b1 b3 b5 b7).
Proof.
  intros G0 G1 G2 G3 G4 G5 G6 G7 Ea Hst Ha Hlt. pose proof first_half as H1. pose proof second_half as H2. rewrite <- Ea in H1, H2.
  destruct round_bits as [(B0 & B1 & B2 & B3) (B4 & B5 & B6 & B7)]. clear Hw Hl Hb Ea.
  pose proof (comb_nonneg b0 b2 b4 b6 B0 B2 B4 B6) as C1. pose proof (comb_nonneg b1 b3 b5 b7 B1 B3 B5 B7) as C2.
  assert (E : forall n m, n - i + m = n + m - i) by (intros; ring).
  apply (base_step_ok scalar i 32 _ table1 [] (2 ^ 32) table1_limbs (proj1 (proj2 tables_ok)) ltac:(lia)); rewrite ?E; try assumption;
    [|lia|intros _; exact H2].
  apply (base_step_ok scalar i 0 0 table0 _ 1 table0_limbs (proj1 tables_ok) ltac:(lia)); rewrite ?E; try assumption;
    [lia|lia|intros _; exact H1].
Qed.
End Round.

Lemma lanes_32 scalar : words scalar -> val (lanes 32 scalar) = 0.
Proof.
  induction scalar as [|d s IH]; intros W; [done|]. apply words_cons in W as [Hd W]. unfold lanes in *. cbn [map val].
  rewrite IH by done. by rewrite Z.div_small.
Qed.

Lemma lanes_le e scalar : 0 <= e -> words scalar -> 0 <= val (lanes e scalar) <= val scalar.
Proof.
  intros He. induction scalar as [|d s IH]; intros W; [done|]. apply words_cons in W as [Hd W]. unfold lanes in *. cbn [map val].
  specialize (IH W). assert (0 <= d / 2 ^ e <= d); [|lia]. split; [apply Z.div_pos; lia|]. apply Z.div_le_upper_bound; [lia|nia].
Qed.

Lemma lanes_words e scalar : 0 <= e -> words scalar -> words (lanes e scalar).
Proof.
  intros He. induction scalar as [|d s IH]; intros W; [apply words_nil|]. apply words_cons in W as [Hd W]. unfold lanes in *. cbn [map].
  apply words_cons. split; [|by apply IH]. split; [apply Z.div_pos; lia|]. apply (Z.le_lt_trans _ d); [|lia]. apply Z.div_le_upper_bound; [lia|nia].
Qed.

Lemma nth_eq8 (a : list Z) a0 a1 a2 a3 a4 a5 a6 a7 :
  length a = 8%nat -> nth 0 a 0 = a0 -> nth 1 a 0 = a1 -> nth 2 a 0 = a2 -> nth 3 a 0 = a3 -> nth 4 a 0 = a4 -> nth 5 a 0 = a5 ->
  nth 6 a 0 = a6 -> nth 7 a 0 = a7 -> a = [a0; a1; a2; a3; a4; a5; a6; a7].
Proof. intros L. do 8 (destruct a as [|? a]; [discriminate L|]). destruct a; [|discriminate L]. by intros <- <- <- <- <- <- <- <-. Qed.

Lemma base_round_ok scalar st i :
  p256 scalar -> val scalar < order_n -> 0 <= i < 32 ->
  tracks base_point st (val (lanes (32 - i) scalar)) -> tracks base_point (base_round scalar st i) (val (lanes (31 - i) scalar)).
Proof.
  intros [W L] Hlt Hi Hst. pose proof (lanes_le (31 - i) scalar ltac:(lia) W) as Hle. pose proof (lanes_le (32 - i) scalar ltac:(lia) W) as Hle'.
  unfold base_round. set (st' := if i =? 0 then st else _).
  assert (Hst' : tracks base_point st' (2 * val (lanes (32 - i) scalar))).
  { unfold st'. destruct (Z.eqb_spec i 0) as [->|].
    - rewrite (lanes_32 scalar W : val (lanes (32 - 0) scalar) = 0) in *. exact Hst.
    - destruct st as [j m]. apply tracks_double; [apply base_on_curve|lia|exact Hst]. }
  clearbody st'. clear st Hst. assert (H : forall q, (q < 8)%nat -> exists l b, takes scalar i q l b) by (intros; by apply takes_ok).
  destruct (H 0%nat ltac:(lia)) as (l0 & b0 & L0 & E0 & N0 & B0 & G0).
  destruct (H 1%nat ltac:(lia)) as (l1 & b1 & L1 & E1 & N1 & B1 & G1).
  destruct (H 2%nat ltac:(lia)) as (l2 & b2 & L2 & E2 & N2 & B2 & G2).
  destruct (H 3%nat ltac:(lia)) as (l3 & b3 & L3 & E3 & N3 & B3 & G3).
  destruct (H 4%nat ltac:(lia)) as (l4 & b4 & L4 & E4 & N4 & B4 & G4).
  destruct (H 5%nat ltac:(lia)) as (l5 & b5 & L5 & E5 & N5 & B5 & G5).
  destruct (H 6%nat ltac:(lia)) as (l6 & b6 & L6 & E6 & N6 & B6 & G6).
  destruct (H 7%nat ltac:(lia)) as (l7 & b7 & L7 & E7 & N7 & B7 & G7).
  assert (El : lanes (32 - i) scalar = [l0; l1; l2; l3; l4; l5; l6; l7]).
  { apply nth_eq8; [by unfold lanes; rewrite length_map|..]; assumption. }
  assert (El' : lanes (31 - i) scalar = [2 * l0 + b0; 2 * l1 + b1; 2 * l2 + b2; 2 * l3 + b3; 2 * l4 + b4; 2 * l5 + b5; 2 * l6 + b6; 2 * l7 + b7]).
  { apply nth_eq8; [by unfold lanes; rewrite length_map|..]; assumption. }
  pose proof (lanes_words (32 - i) scalar ltac:(lia) W) as Wl. pose proof (lanes_words (31 - i) scalar ltac:(lia) W) as Wl'. rewrite El in *.
  rewrite El' in *. assert (Hb : Forall is_bit [b0; b1; b2; b3; b4; b5; b6; b7]) by (repeat (apply Forall_cons; split; [assumption|]); by apply Forall_nil).
  replace (val [2 * l0 + b0; 2 * l1 + b1; 2 * l2 + b2; 2 * l3 + b3; 2 * l4 + b4; 2 * l5 + b5; 2 * l6 + b6; 2 * l7 + b7])
    with (2 * val [l0; l1; l2; l3; l4; l5; l6; l7] + 1 * comb b0 b2 b4 b6 + 2 ^ 32 * comb b1 b3 b5 b7) in * by (rewrite !val8; unfold comb; ring).
  exact (round_steps l0 l1 l2 l3 l4 l5 l6 l7 b0 b1 b2 b3 b4 b5 b6 b7 Wl' Wl Hb scalar i st' _ G0 G1 G2 G3 G4 G5 G6 G7 eq_refl Hst'
    (proj1 Hle') (Z.le_lt_trans _ _ _ (proj2 Hle) Hlt)).
Qed.

Lemma base_rounds_ok scalar n : p256 scalar -> val scalar < order_n -> forall m st, 0 <= m -> m + Z.of_nat n = 32 ->
  tracks base_point st (val (lanes (32 - m) scalar)) ->
  tracks base_point (fold_left (base_round scalar) (seqZ m (Z.of_nat n)) st) (val scalar).
Proof.
  intros Hs Hlt. induction n as [|n IH]; intros m st Hm Hn Hst.
  - rewrite seqZ_nil by lia. cbn [fold_left]. replace (32 - m) with 0 in Hst by lia.
    replace (lanes 0 scalar) with scalar in Hst; [exact Hst|]. unfold lanes. rewrite <- (map_id scalar) at 1. apply map_ext. intros d. by rewrite Z.div_1_r.
  - rewrite seqZ_cons by lia. replace (Z.pred (Z.of_nat (S n))) with (Z.of_nat n) by lia. cbn [fold_left].
    apply IH; [lia..|]. replace (32 - Z.succ m) with (31 - m) by lia. apply base_round_ok; [exact Hs|exact Hlt|lia|exact Hst].
Qed.

Lemma scalar_base_mult_tracks scalar :
  p256 scalar -> val scalar < order_n -> exists m, tracks base_point (scalar_base_mult scalar, m) (val scalar).
Proof.
  intros Hs Hlt. unfold scalar_base_mult.
  pose proof (base_rounds_ok scalar 32 Hs Hlt 0 (infinity, u32 (-1)) ltac:(lia) ltac:(lia)) as Ht.
  change (Z.of_nat 32) with 32 in Ht. rewrite Z.sub_0_r, lanes_32 in Ht by apply Hs. specialize (Ht (tracks_zero base_point)).
  destruct (fold_left _ _ _) as [j m]. by exists m.
Qed.
