(* ===== verification/P256Ecdsa.v ===== *)
(** * Verification of ECDSA signatures with P-256

    Conversion to and from Montgomery form, multiplication of points given by
    their coordinates, and the signatures that [p256_ecdsa_verify] accepts. *)

From Stdlib Require Import Zdivisibility Field Zmod.ZmodDef Zmod.ZmodBase Zmod.ZmodInv.
From S2P Require Import Prelude Words P256 P256Props P256Ec P256Field P256Mul Primality EcLaw EcJacobian P256Curve P256Points P256Select P256Scalar P256Table P256Base.

#[local] Open Scope Z_scope.
#[local] Open Scope c_scope.

(** ** Montgomery form *)

(** The bits of [n] limbs. *)
Fixpoint span (n : nat) (odd : bool) : Z :=
  match n with O => 0 | S n => width odd + span n (negb odd) end.

Lemma span_nonneg n : forall odd, 0 <= span n odd.
Proof. induction n as [|n IH]; intros odd; cbn [span]; [lia|]. specialize (IH (negb odd)). destruct odd; cbn [width]; lia. Qed.

Lemma low_digit a n : p256 a -> 0 <= n <= 32 -> nth 0 a 0 mod 2 ^ n = val a mod 2 ^ n.
Proof.
  intros [W L] Hn. destruct a as [|x a]; [discriminate L|]. cbn [nth val]. replace 32 with (32 - n + n) by lia.
  rewrite Z.pow_add_r by lia. replace (x + 2 ^ (32 - n) * 2 ^ n * val a) with (x + 2 ^ (32 - n) * val a * 2 ^ n) by ring.
  by rewrite Z.mod_add by lia.
Qed.

Lemma to_limbs_ok n : forall odd a, p256 a ->
  exists l, to_limbs n odd a = Ok l /\ length l = n /\ bounded 0 odd l /\ fval odd l = val a mod 2 ^ span n odd.
Proof.
  induction n as [|n IH]; intros odd a Pa; cbn [to_limbs]; [exists []; by rewrite Z.mod_1_r|].
  destruct (shr_ok a (width odd) Pa) as (c & -> & Pc & Ec); [destruct odd; cbn; lia|]. cbn [obind].
  destruct (IH (negb odd) c Pc) as (l & -> & Hl & Hb & Hv). cbn [obind]. eexists. split; [done|].
  rewrite land_bottom, low_digit by (done || (destruct odd; cbn; lia)). cbn [length bounded fval span].
  pose proof (span_nonneg n (negb odd)). assert (Hw : 0 < width odd) by (destruct odd; cbn; lia). rewrite Z.add_0_r.
  split; [by rewrite Hl|]. split; [split; [apply Z.mod_pos_bound; lia|done]|]. rewrite Hv, Ec, Z.pow_add_r by lia.
  rewrite (Z.rem_mul_r (val a)) by lia. done.
Qed.

Lemma bounded_weaken l : forall odd, bounded 0 odd l -> bounded 1 odd l.
Proof.
  induction l as [|x l IH]; intros odd Hb; [done|]. destruct Hb as [Hx Hb]. split; [|by apply IH].
  rewrite Z.add_0_r in Hx. rewrite Z.pow_add_r by (destruct odd; cbn; lia). lia.
Qed.

Lemma val_kR : cong prime_p (val kR) R257.
Proof. apply cong_mod; [done|]. vm_compute. reflexivity. Qed.

Lemma kR_p256 : p256 kR.
Proof. split; [|done]. apply words8. lia. Qed.

Lemma kRInv_p256 : p256 kRInv.
Proof. split; [|done]. apply words8. lia. Qed.

Lemma to_montgomery_ok a : p256 a -> exists f, to_montgomery a = Ok f /\ rep f (fp (val a)).
Proof.
  intros Pa. unfold to_montgomery. destruct (modmul_ok _ a 0 kR SECP256r1_p_modulus Pa kR_p256 ltac:(lia)) as (c & -> & Pc & Ec). cbn [obind].
  destruct (to_limbs_ok NLIMBS false c Pc) as (l & -> & Hl & Hb & Hv). exists l. split; [done|].
  pose proof (p256_range c Pc) as Hc. rewrite Z.mod_small in Hv by (change (span NLIMBS false) with 257; lia).
  rewrite val_p, Z.mul_0_r, Z.add_0_r in Ec. split.
  - split; [done|]. split; [by apply bounded_weaken|]. limbs9 l. cbn [bounded negb width Z.add nth] in *. lia.
  - rewrite (fe_cong _ (val a * R257)); [|rewrite Hv, Ec, cong_mod_l, val_kR by done; done]. rewrite fp_mul.
    transitivity (fp (val a) * (fp R257 * fp Rinv))%Fp; [ring|rewrite R_Rinv; ring].
Qed.

(** *** Back *)

Lemma add_d_ok a d : p256 a -> 0 <= d < 2 ^ 32 ->
  exists carry c, p256_add_d a d = (carry, c) /\ p256 c /\ 0 <= carry <= 1 /\ val c + 2 ^ 256 * carry = val a + d.
Proof.
  intros Pa Hd. pose proof Pa as [W L]. pose proof (p256_range a Pa). unfold p256_add_d. pose proof (digit_loop_u64 a d) as H0.
  destruct (digit_loop u64 a d) as [c carry]. destruct H0 as (Wc & Lc & Hc & E); [eapply Forall_impl; [exact W|]; cbn; lia|lia|].
  assert (Pc : p256 c) by (split; [done|lia]). pose proof (p256_range c Pc). rewrite L in E. change (radix 8) with (2 ^ 256) in E.
  assert (Hc1 : 0 <= carry <= 1) by lia. exists carry, c. rewrite i32_small by lia. split_and!; done || lia.
Qed.

(** The number after the limbs from the highest down. *)
Fixpoint horner (odd : bool) (limbs : list Z) (v : Z) : Z :=
  match limbs with
  | [] => v
  | l :: limbs => horner (negb odd) limbs (v * 2 ^ width odd + l)
  end.

Lemma horner_ge limbs : forall odd v, words limbs -> 0 <= v -> v <= horner odd limbs v.
Proof.
  induction limbs as [|l limbs IH]; intros odd v W Hv; cbn [horner]; [lia|]. apply words_cons in W as [Hl W].
  etransitivity; [|apply IH; [done|]]; destruct odd; cbn [width]; lia.
Qed.

(** Only the last limb can carry into [top]. *)
Lemma from_limbs_ok limbs : forall odd result top,
  words limbs -> p256 result -> 0 <= top <= 1 -> horner odd limbs (val result + 2 ^ 256 * top) < 2 ^ 257 ->
  exists result' top', from_limbs odd limbs result top = Ok (result', top') /\ p256 result' /\ 0 <= top' <= 1 /\
    val result' + 2 ^ 256 * top' = horner odd limbs (val result + 2 ^ 256 * top).
Proof.
  induction limbs as [|l limbs IH]; intros odd result top W Pr Ht Hh; cbn [from_limbs horner] in *; [by exists result, top|].
  apply words_cons in W as [Hl W]. pose proof (p256_range _ Pr) as Hr. pose proof (width_cases odd) as Hw.
  set (v := val result + 2 ^ 256 * top) in *.
  assert (Hge : v * 2 ^ width odd + l < 2 ^ 257) by (eapply Z.le_lt_trans; [apply (horner_ge limbs (negb odd)); [done|]|exact Hh]; destruct Hw as [-> | ->]; lia).
  assert (top = 0) as -> by (unfold v in Hge; destruct Hw as [E|E]; rewrite E in Hge; lia).
  destruct (shl_ok result (width odd) Pr ltac:(lia)) as (top1 & c & -> & Pc & Ec). cbn [obind]. pose proof (p256_range _ Pc) as Hc.
  destruct (add_d_ok c l Pc Hl) as (carry & d & -> & Pd & Hcarry & Ed). pose proof (p256_range _ Pd) as Hd.
  assert (Ht1 : 0 <= top1 + carry <= 1) by lia.
  assert (E1 : i32 (Z.lor (i32 top1) carry) = top1 + carry).
  { assert (Hcases : top1 = 0 /\ carry = 0 \/ top1 = 1 /\ carry = 0 \/ top1 = 0 /\ carry = 1) by lia.
    destruct Hcases as [[-> ->]|[[-> ->]|[-> ->]]]; done. }
  rewrite E1. destruct (IH (negb odd) d (top1 + carry) W Pd Ht1) as (r' & t' & -> & Pr' & Ht' & Ev).
  { replace (val d + 2 ^ 256 * (top1 + carry)) with (v * 2 ^ width odd + l) by lia. done. }
  exists r', t'. split; [done|]. split; [done|]. split; [done|]. rewrite Ev. f_equal. lia.
Qed.

Lemma horner_fval f : length f = NLIMBS -> horner true (tail (rev f)) (nth 8 f 0) = fval false f.
Proof. intros Hl. limbs9 f. cbn [rev app tail horner nth fval negb width]. ring. Qed.

Lemma from_montgomery_ok f : tight f -> fval false f < R257 ->
  exists a, from_montgomery f = Ok a /\ p256 a /\ val a = Zmod.to_Z (fe f).
Proof.
  intros Ht Hlt. pose proof (tight_limbs_ok f Ht) as [W L]. unfold from_montgomery.
  assert (P0 : p256 p256_init) by (split; [apply words_zeros|done]).
  destruct (add_d_ok p256_init (nth (NLIMBS - 1) f 0) P0 (words_nth _ _ W)) as (carry & r & -> & Pr & Hc & Er).
  pose proof (p256_range r Pr) as Hr. pose proof (words_nth f 8 W) as H8. change (NLIMBS - 1)%nat with 8%nat in Er. change (val p256_init) with 0 in Er.
  assert (carry = 0) as -> by lia. rewrite Z.mul_0_r, Z.add_0_r, Z.add_0_l in Er.
  destruct (from_limbs_ok (tail (rev f)) true r 0) as (r' & top & -> & Pr' & Htop & Ev); [|done|lia| |].
  { apply list.Forall_tail. by apply Forall_rev. }
  { rewrite Er, Z.mul_0_r, Z.add_0_r, horner_fval by done. done. }
  cbn [obind]. rewrite Er, Z.mul_0_r, Z.add_0_r, horner_fval in Ev by done. rewrite u32_small by lia.
  destruct (modmul_ok _ kRInv top r' SECP256r1_p_modulus kRInv_p256 Pr' ltac:(lia)) as (a & -> & Pa & Ea).
  exists a. split; [done|]. split; [done|]. rewrite val_p, Ev in Ea. rewrite Ea. unfold fe. rewrite <- fp_mul. fold Rinv.
  unfold fp. rewrite Zmod.to_Z_of_Z. by rewrite Z.mul_comm.
Qed.

(** A product is below 2^257, as [from_montgomery] needs. *)
Lemma from_product f g x y : rep f x -> rep g y ->
  exists a, from_montgomery (felem_mul f g) = Ok a /\ p256 a /\ val a = Zmod.to_Z (x * y)%Fp.
Proof.
  intros Hf Hg. destruct (felem_mul_ok f g (proj1 Hf) (proj1 Hg)) as (Ht & _ & Hlt).
  destruct (from_montgomery_ok _ Ht Hlt) as (a & Ea & Pa & Ev). exists a. split; [exact Ea|]. split; [exact Pa|].
  rewrite Ev. f_equal. exact (proj2 (rep_mul _ _ _ _ Hf Hg)).
Qed.

(** ** Points given by coordinates *)

(** The coordinates of a point; the code has (0, 0) for infinity. *)
Definition coordinates (P : point) : Z * Z :=
  match P with
  | Ec.Inf => (0, 0)
  | Ec.Pt x y => (Zmod.to_Z x, Zmod.to_Z y)
  end.

Lemma to_affine_digits_ok p P : jrep p P ->
  exists x y, to_affine_digits p = Ok (x, y) /\ p256 x /\ p256 y /\ (val x, val y) = coordinates P.
Proof.
  destruct p as [[x y] z]. intros (X & Y & Z & Hx & Hy & Hz & HP). cbn [fst snd] in *. unfold to_affine_digits, point_to_affine.
  destruct (from_product x (felem_square (felem_inv z)) X (Zmod.inv Z * Zmod.inv Z)%Fp Hx) as (a & -> & Pa & Ea); [solve_rep|]. cbn [obind].
  destruct (from_product y (felem_mul (felem_inv z) (felem_square (felem_inv z))) Y (Zmod.inv Z * (Zmod.inv Z * Zmod.inv Z))%Fp Hy)
    as (b & -> & Pb & Eb); [solve_rep|]. cbn [obind]. exists a, b. split; [done|]. split; [done|]. split; [done|]. rewrite Ea, Eb.
  destruct P as [|px py]; cbn [coordinates].
  - cbn in HP. subst Z. rewrite Zmod.inv_0. assert (E : forall t : Fp, (t * (0 * 0))%Fp = 0%Fp) by (intros; ring).
    assert (E' : forall t : Fp, (t * (0 * (0 * 0)))%Fp = 0%Fp) by (intros; ring). rewrite E, E'. by rewrite Zmod.to_Z_0.
  - destruct HP as (HZ & -> & ->). f_equal; f_equal; field; exact HZ.
Qed.

(** *** Multiples of the base point *)

Lemma zero_digits scalar : p256 scalar -> val scalar = 0 -> scalar = replicate 8 0.
Proof. intros Ps E. apply p256_ext; [done|split; [apply words_zeros|done]|]. by rewrite val_zeros. Qed.

Definition zero_result : jacobian * Z := ((kZero, kZero, kOne), u32 (-1)).

Lemma tracks_zero_result : tracks base_point zero_result 0.
Proof. split; [|done|done]. pose proof (proj1 rep_zero). pose proof (proj1 rep_one). done. Qed.

Lemma get_bit_zero bit : p256_get_bit (replicate 8 0) bit = 0.
Proof. unfold p256_get_bit. generalize (Z.to_nat (bit ÷ 32)). intros k. do 8 (destruct k as [|k]; [by rewrite Z.shiftr_0_l|]). by destruct k; rewrite Z.shiftr_0_l. Qed.

(** With a zero scalar every step leaves (0, 0, 1), marked as infinity. *)
Lemma base_step_zero i j table_offset table rest c st :
  drop table_offset kPrecomputed = affine_limbs table ++ rest -> is_table c table -> tracks base_point st 0 ->
  base_step (replicate 8 0) i j table_offset st = zero_result.
Proof.
  intros Et Ht [Hst Hm _]. unfold base_step. rewrite !get_bit_zero.
  change (Z.lor (Z.lor (Z.lor 0 (Z.shiftl 0 1)) (Z.shiftl 0 2)) (Z.shiftl 0 3)) with 0.
  rewrite Et, select_affine_ok by (done || by eapply is_table_ok || by eapply is_table_length). destruct st as [[[nx ny] nz] m]. cbn [fst snd] in *.
  pose proof (proj1 rep_zero) as H0. pose proof (proj1 rep_one) as H1. rewrite Hm. change (0 =? 0) with true. cbv beta iota.
  rewrite merge_point_ok; [done|done|done|by apply add_mixed_tight|lia].
Qed.

Lemma base_round_zero st i : tracks base_point st 0 -> base_round (replicate 8 0) st i = zero_result.
Proof.
  intros Hst. unfold base_round. rewrite (base_step_zero i 32 _ table1 [] (2 ^ 32) _ table1_limbs (proj1 (proj2 tables_ok))); [done|].
  rewrite (base_step_zero i 0 0 table0 _ 1 _ table0_limbs (proj1 tables_ok)); [exact tracks_zero_result|].
  destruct (i =? 0); [exact Hst|]. destruct st as [n m]. exact (tracks_double base_point n m 0 base_on_curve (Z.le_refl 0) Hst).
Qed.

Lemma scalar_base_mult_zero : scalar_base_mult (replicate 8 0) = (kZero, kZero, kOne).
Proof.
  unfold scalar_base_mult. change (seqZ 0 32) with (seqZ 0 31 ++ [31]). rewrite fold_left_app. cbn [fold_left].
  rewrite base_round_zero; [done|]. generalize (tracks_zero base_point). generalize (infinity, u32 (-1)). induction (seqZ 0 31) as [|i l IH]; intros st Hst; [done|].
  cbn [fold_left]. apply IH. rewrite base_round_zero by done. exact tracks_zero_result.
Qed.

(** What the interface computes for the base point, infinity included. *)
Lemma base_point_mul_ok n : p256 n -> val n < order_n ->
  exists x y, p256_base_point_mul n = Ok (x, y) /\ p256 x /\ p256 y /\ (val x, val y) = coordinates (mult_point (val n) base_point).
Proof.
  intros Pn Hn. unfold p256_base_point_mul. destruct (Z.eq_dec (val n) 0) as [E|Hne].
  - rewrite (zero_digits n Pn E), scalar_base_mult_zero, val_zeros, mult_point_0.
    destruct (to_affine_digits_ok (kZero, kZero, kOne) (Pt 0%Fp 0%Fp)) as (x & y & Exy & Px & Py & Ev); [exact (jrep_affine (kZero, kZero) _ _ rep_zero rep_zero)|].
    exists x, y. split; [exact Exy|]. split; [done|]. split; [done|]. rewrite Ev. unfold coordinates. rewrite Zmod.to_Z_0. reflexivity.
  - destruct (scalar_base_mult_tracks n Pn Hn) as [m Ht]. exact (to_affine_digits_ok _ _ (tracks_jrep _ _ _ _ Ht Hne)).
Qed.

(** *** Sums of two multiples *)

Definition key_point (x y : p256_int) : point := Pt (fp (val x)) (fp (val y)).

Lemma points_mul_ok n1 n2 x y :
  p256 n1 -> p256 n2 -> p256 x -> p256 y -> val n1 < order_n -> val n2 < order_n -> of_order_n (key_point x y) ->
  exists a b, p256_points_mul_vartime n1 n2 x y = Ok (a, b) /\ p256 a /\ p256 b /\
    (val a, val b) = coordinates (add_points (mult_point (val n1) base_point) (mult_point (val n2) (key_point x y))).
Proof.
  intros P1 P2 Px Py H1 H2 HQ. unfold p256_points_mul_vartime. rewrite !p256_is_zero_ok by (apply P1 || apply P2).
  pose proof (p256_range _ P1) as R1. pose proof (p256_range _ P2) as R2.
  destruct (to_montgomery_ok x Px) as (fx & -> & Hx). destruct (to_montgomery_ok y Py) as (fy & -> & Hy). cbn [obind].
  destruct (scalar_base_mult_tracks n1 P1 H1) as [m1 T1]. pose proof (tracks_jrep _ _ _ _ T1) as J1. clear T1.
  destruct (scalar_mult_tracks _ _ _ fx fy HQ eq_refl Hx Hy n2 P2 H2) as [m2 T2]. pose proof (tracks_jrep _ _ _ _ T2) as J2. clear T2.
  set (p1 := scalar_base_mult n1) in *. set (p2 := scalar_mult fx fy n2) in *. clearbody p1 p2. set (Q := key_point x y) in *.
  destruct (Z.eqb_spec (val n1) 0) as [E1|N1]; destruct (Z.eqb_spec (val n2) 0) as [E2|N2]; cbn [andb obind].
  - exists p256_clear, p256_clear. rewrite E1, E2, !mult_point_0. split; [done|]. split; [split; [apply words_zeros|done]|].
    split; [split; [apply words_zeros|done]|done].
  - rewrite E1, mult_point_0. exact (to_affine_digits_ok _ _ (J2 N2)).
  - rewrite E2, mult_point_0. unfold add_points. rewrite Ec.padd_Inf_r. exact (to_affine_digits_ok _ _ (J1 N1)).
  - specialize (J1 N1). specialize (J2 N2). destruct p1 as [[x1 y1] z1], p2 as [[x2 y2] z2].
    destruct (point_add_or_double_ok _ _ _ _ _ _ _ _ J1 J2) as (j & -> & Hj);
      [apply mult_curve, base_on_curve|apply mult_curve, HQ|apply mult_finite; [exact base_of_order|lia]|apply mult_finite; [exact HQ|lia]|].
    cbn [obind]. exact (to_affine_digits_ok _ _ Hj).
Qed.

(** ** Signatures *)

(** The point whose first coordinate decides, for [w] the inverse of [s]. *)
Definition ecdsa_sum (Q : point) (m r w : Z) : point :=
  add_points (mult_point (m * w mod order_n) base_point) (mult_point (r * w mod order_n) Q).

(** ([r], [s]) is a signature of [m] with the key [Q]. *)
Definition ecdsa_valid (Q : point) (m r s : Z) : Prop :=
  0 < r < order_n /\ 0 < s < order_n /\ exists w x y, s * w mod order_n = 1 /\ ecdsa_sum Q m r w = Pt x y /\ Zmod.to_Z x mod order_n = r.

Lemma key_on_curve x y : on_curve (val x) (val y) -> on_p256 (key_point x y).
Proof.
  intros (_ & _ & E). unfold on_p256, key_point, Ec.on_curve, curve_a. rewrite <- !fp_mul, <- !fp_add. apply fp_eq, cong_mod; [done|].
  replace (val y * val y) with (val y ^ 2) by ring. rewrite E. f_equal. ring.
Qed.

Lemma inverse_unique s w1 w2 : s * w1 mod order_n = 1 -> s * w2 mod order_n = 1 -> cong order_n w1 w2.
Proof.
  assert (H : forall w, s * w mod order_n = 1 -> cong order_n (s * w) 1).
  { intros w E. apply cong_mod; [done|]. rewrite E. done. }
  intros E1%H E2%H. transitivity (w1 * (s * w2)); [rewrite E2; by rewrite Z.mul_1_r|].
  transitivity (w2 * (s * w1)); [|rewrite E1; by rewrite Z.mul_1_r]. replace (w1 * (s * w2)) with (w2 * (s * w1)) by ring. done.
Qed.

Lemma ecdsa_sum_inverse Q m r s w1 w2 :
  s * w1 mod order_n = 1 -> s * w2 mod order_n = 1 -> ecdsa_sum Q m r w1 = ecdsa_sum Q m r w2.
Proof.
  intros E1 E2. pose proof (inverse_unique s w1 w2 E1 E2) as Hw. unfold ecdsa_sum.
  assert (E : forall t, t * w1 mod order_n = t * w2 mod order_n) by (intros t; apply cong_mod; [done|]; by rewrite Hw). by rewrite !E.
Qed.

Lemma coprime_order z : z mod order_n <> 0 -> Z.gcd z order_n = 1.
Proof.
  intros Hz. rewrite Z.gcd_comm. apply Z.coprime_prime_l; [apply order_n_prime|]. intros Hd. apply Hz. by apply Z.mod_divide.
Qed.

Lemma mod_order_pos s w : s * w mod order_n = 1 -> 0 < s mod order_n < order_n.
Proof.
  intros Ew. pose proof (Z.mod_pos_bound s order_n eq_refl). destruct (Z.eq_dec (s mod order_n) 0) as [E|]; [|lia].
  rewrite <- Zmult_mod_idemp_l, E in Ew. done.
Qed.

(** The last comparison. *)
Lemma ecdsa_valid_iff Q m r s w :
  s * w mod order_n = 1 -> r mod order_n <> 0 -> 0 <= r ->
  ecdsa_valid Q m r (s mod order_n) <-> r = (coordinates (ecdsa_sum Q m r w)).1 mod order_n.
Proof.
  intros Ew Hr H0. split.
  - intros (_ & _ & w' & x & y & Ew' & Es & Ex). rewrite Zmult_mod_idemp_l in Ew'.
    by rewrite (ecdsa_sum_inverse Q m r s w w' Ew Ew'), Es.
  - intros E. destruct (ecdsa_sum Q m r w) as [|x y] eqn:Es.
    + cbn in E. subst r. by destruct Hr.
    + pose proof (Z.mod_pos_bound (Zmod.to_Z x) order_n eq_refl) as Hb. unfold coordinates, fst in E. rewrite <- E in Hb.
      split; [destruct (Z.eq_dec r 0) as [->|]; [done|lia]|].
      split; [by apply (mod_order_pos s w)|]. exists w, x, y. by rewrite Zmult_mod_idemp_l.
Qed.

Lemma order_n_range : 2 ^ 255 < order_n < 2 ^ 256.
Proof. done. Qed.

Lemma mod_n_ok a : p256 a -> p256 (p256_mod SECP256r1_n a) /\ val (p256_mod SECP256r1_n a) = val a mod order_n.
Proof.
  intros Pa. pose proof (p256_range a Pa). pose proof order_n_range. rewrite <- val_n.
  apply p256_mod_ok; [apply SECP256r1_n_modulus|exact Pa|rewrite val_n; lia].
Qed.

Lemma modmul_n_ok a b : p256 a -> p256 b ->
  exists c, p256_modmul SECP256r1_n a 0 b = Ok c /\ p256 c /\ val c = val a * val b mod order_n /\ val c < order_n.
Proof.
  intros Pa Pb. destruct (modmul_ok _ a 0 b SECP256r1_n_modulus Pa Pb ltac:(lia)) as (c & Ec & Pc & Ev).
  rewrite Z.mul_0_r, Z.add_0_r, val_n in Ev. exists c. split; [exact Ec|]. split; [exact Pc|]. split; [exact Ev|].
  rewrite Ev. by apply Z.mod_pos_bound.
Qed.

Lemma modinv_n_ok s : p256 s -> val s mod order_n <> 0 ->
  exists b, p256_modinv_vartime SECP256r1_n s = Ok b /\ p256 b /\ val s * val b mod order_n = 1.
Proof.
  intros Ps Hs. pose proof (p256_range s Ps). assert (H0 : 0 < val s) by (destruct (Z.eq_dec (val s) 0) as [E|]; [by rewrite E in Hs|lia]).
  destruct (modinv_ok SECP256r1_n (proj1 SECP256r1_n_modulus) SECP256r1_n_odd s Ps H0) as (b & Eb & Pb & _ & Ev).
  - rewrite val_n. by apply coprime_order.
  - exact SECP256r1_n_big.
  - rewrite val_n in Ev. by exists b.
Qed.

(** The check of a signature whose key is a point of the curve and whose [r] and
    [s] are not zero. *)
Lemma ecdsa_check_ok kx ky message r s :
  p256 kx -> p256 ky -> p256 message -> p256 r -> p256 s -> of_order_n (key_point kx ky) ->
  val r mod order_n <> 0 -> val s mod order_n <> 0 ->
  exists b,
    (do! v := p256_modinv_vartime SECP256r1_n s in
     do! u := p256_modmul SECP256r1_n message 0 v in
     do! v := p256_modmul SECP256r1_n r 0 v in
     do! (u, v) := p256_points_mul_vartime u v kx ky in
     let u := p256_mod SECP256r1_n u in
     Ok (p256_cmp r u =? 0)) = Ok b /\ (b = true <-> ecdsa_valid (key_point kx ky) (val message) (val r) (val s mod order_n)).
Proof.
  intros Px Py Pm Pr Ps HQ Hr Hs. pose proof (p256_range r Pr) as Rr.
  destruct (modinv_n_ok s Ps Hs) as (w & -> & Pw & Ew). cbn [obind].
  destruct (modmul_n_ok message w Pm Pw) as (u & -> & Pu & Eu & Hu). cbn [obind].
  destruct (modmul_n_ok r w Pr Pw) as (v & -> & Pv & Ev & Hv). cbn [obind].
  destruct (points_mul_ok u v kx ky Pu Pv Px Py Hu Hv HQ) as (a & b & -> & Pa & Pb & Ec). cbn [obind].
  destruct (mod_n_ok a Pa) as [Pu' Eu']. eexists. split; [reflexivity|]. rewrite (ecdsa_valid_iff _ _ _ _ (val w) Ew Hr (proj1 Rr)).
  apply (f_equal fst) in Ec. unfold fst at 1 in Ec. rewrite p256_cmp_ok, Eu', Ec, Eu, Ev by assumption. fold (ecdsa_sum (key_point kx ky) (val message) (val r) (val w)).
  set (z := (coordinates _).1 mod order_n). clearbody z. destruct (Z.ltb_spec (val r) z), (Z.eqb_spec (val r) z); cbn; split; try done; lia.
Qed.

Lemma ecdsa_verify_ok kx ky message r s :
  p256 kx -> p256 ky -> p256 message -> p256 r -> p256 s -> mult_point order_n (key_point kx ky) = Inf ->
  exists b, p256_ecdsa_verify kx ky message r s = Ok b /\
    (b = true <-> p256_is_valid_point kx ky = Ok true /\ ecdsa_valid (key_point kx ky) (val message) (val r) (val s mod order_n)).
Proof.
  intros Px Py Pm Pr Ps Ho. unfold p256_ecdsa_verify. destruct (valid_point_ok kx ky Px Py) as (valid & -> & Hv). cbn [obind].
  destruct valid; cbn [negb]; [|by exists false; split; [|split; [|intros [? _]]]].
  assert (HQ : of_order_n (key_point kx ky)) by (split; [apply key_on_curve, Hv; done|discriminate|exact Ho]). clear Hv Ho.
  destruct (mod_n_ok r Pr) as [Pr' Er]. destruct (mod_n_ok s Ps) as [Ps' Es]. rewrite !p256_is_zero_ok, Er, Es by (apply Pr' || apply Ps').
  assert (Hiff : forall P : Prop, (Ok true = Ok true /\ P) <-> P) by tauto.
  destruct (Z.eqb_spec (val r mod order_n) 0) as [Zr|Nr]; [|destruct (Z.eqb_spec (val s mod order_n) 0) as [Zs|Ns]]; cbn [orb].
  - exists false. split; [done|]. split; [done|]. intros (_ & Hr & _). rewrite Z.mod_small in Zr; lia.
  - exists false. split; [done|]. split; [done|]. intros (_ & _ & Hs & _). lia.
  - setoid_rewrite Hiff. by apply ecdsa_check_ok.
Qed.

(** *** Signing *)

Lemma mult_point_mul k l P : on_p256 P -> 0 <= k -> 0 <= l -> mult_point (k * l) P = mult_point k (mult_point l P).
Proof. exact (Ec.mult_mul Fp_theory _ _ fp_two p256_nonsingular k l P). Qed.

Lemma mult_point_Inf k : mult_point k Inf = Inf.
Proof. exact (Ec.mult_Inf (fsub := Zmod.sub) (fdiv := Zmod.mdiv) curve_a k). Qed.

(** Multiples of a point of order [n] count modulo [n]. *)
Lemma mult_point_cong P k l : of_order_n P -> 0 <= k -> 0 <= l -> cong order_n k l -> mult_point k P = mult_point l P.
Proof.
  intros [Hc _ Ho] Hk Hl E. assert (H : forall j, 0 <= j -> mult_point j P = mult_point (j mod order_n) P).
  { intros j Hj. pose proof order_n_pos as Hn. pose proof (Z.mod_pos_bound j order_n Hn).
    rewrite (Z.div_mod j order_n) at 1 by lia. rewrite Z.mul_comm.
    rewrite mult_point_add, mult_point_mul, Ho, mult_point_Inf by (assumption || (apply Z.mul_nonneg_nonneg; [apply Z.div_pos|]; lia) || (apply Z.div_pos; lia) || lia).
    done. }
  apply cong_mod in E; [|done]. rewrite (H k Hk), (H l Hl), E. done.
Qed.

(** Signing [m] with the secret [d] and the nonce [k]: [r] is the first coordinate
    of [k] times the base point, and [k s = m + r d] modulo the order. *)
Record signed (d k m r s : Z) : Prop := {
  signed_d : 0 < d < order_n;
  signed_k : 0 < k < order_n;
  signed_r : (coordinates (mult_point k base_point)).1 mod order_n = r /\ r <> 0;
  signed_s : k * s mod order_n = (m + r * d) mod order_n /\ s mod order_n <> 0;
}.

Lemma key_of_order d : 0 < d < order_n -> of_order_n (mult_point d base_point).
Proof.
  intros Hd. pose proof base_of_order as Hb. split; [apply mult_curve, base_on_curve|by apply mult_finite|].
  rewrite <- mult_point_mul, Z.mul_comm, mult_point_mul by (apply base_on_curve || lia || apply Z.lt_le_incl, order_n_pos).
  rewrite (order_mult _ Hb). apply mult_point_Inf.
Qed.

Lemma signed_valid d k m r s : signed d k m r s -> 0 <= m -> ecdsa_valid (mult_point d base_point) m r (s mod order_n).
Proof.
  intros [Hd Hk [Er Hr] [Es Hs]] Hm. pose proof base_of_order as Hb. pose proof order_n_pos as Hn.
  pose proof (mult_finite k base_point Hb Hk) as Hfin. destruct (mult_point k base_point) as [|x y] eqn:Ek; [done|]. unfold coordinates, fst in Er.
  pose proof (Z.mod_pos_bound (Zmod.to_Z x) order_n Hn) as Hrange. rewrite Er in Hrange. split; [lia|].
  split; [pose proof (Z.mod_pos_bound s order_n Hn); lia|].
  destruct (Z.gcd_bezout s order_n 1 (coprime_order s Hs)) as (w & t & Ew). exists w, x, y.
  assert (Hw : cong order_n (s * w) 1) by (exists (- t); lia).
  rewrite Zmult_mod_idemp_l.
  split; [apply cong_mod in Hw; [by rewrite Hw|lia]|]. split; [|exact Er]. rewrite <- Ek. unfold ecdsa_sum.
  pose proof (Z.mod_pos_bound (m * w) order_n Hn). pose proof (Z.mod_pos_bound (r * w) order_n Hn).
  rewrite <- mult_point_mul, <- mult_point_add by (apply base_on_curve || nia). apply mult_point_cong; [exact Hb|nia|lia|].
  rewrite !cong_mod_l by lia. assert (Ekd : cong order_n (m + r * d) (k * s)) by (apply cong_mod; [lia|by rewrite Es]).
  transitivity (w * (m + r * d)); [by replace (m * w + r * w * d) with (w * (m + r * d)) by ring|]. rewrite Ekd.
  transitivity (k * (s * w)); [by replace (w * (k * s)) with (k * (s * w)) by ring|]. rewrite Hw. by rewrite Z.mul_1_r.
Qed.
