(* ===== verification/P256Theorems.v ===== *)
(** * Theorems on the curve P-256 and ECDSA

    What p256_ec.c and p256_ecdsa.c compute, from limbs up to signatures. *)

From Stdlib Require Import Field Zmod.ZmodDef Zmod.ZmodBase Zmod.ZmodInv.
From S2P Require Import Prelude Words P256 P256Props P256Ec P256Field P256Mul Primality EcLaw EcJacobian P256Curve P256Points P256Select P256Scalar P256Table P256Base P256Ecdsa.

#[local] Open Scope Z_scope.
#[local] Open Scope c_scope.

(** A product of field elements has limbs within the bounds that the additions
    and products take, is below 2^257, and is the product of the numbers modulo
    the prime, divided by 2^257: no sum of limb products exceeds 64 bits, and no
    limb of the reduction goes below zero when it is read. *)
Theorem felem_mul_bounds f g : tight f -> tight g ->
  tight (felem_mul f g) /\ cong prime_p (fval false (felem_mul f g) * 2 ^ 257) (fval false f * fval false g) /\
  fval false (felem_mul f g) < 2 ^ 257.
Proof. exact (felem_mul_ok f g). Qed.

(** The limb arithmetic implements the field of the integers modulo the prime,
    in Montgomery form: sums, differences, products, squares, small multiples,
    inverses, and the test for zero. *)
Theorem felem_operations_exact f g x y : rep f x -> rep g y ->
  rep (felem_sum f g) (x + y)%Fp /\ rep (felem_diff f g) (x - y)%Fp /\ rep (felem_mul f g) (x * y)%Fp /\
  rep (felem_square f) (x * x)%Fp /\ rep (felem_scalar_3 f) (fp 3 * x)%Fp /\ rep (felem_scalar_4 f) (fp 4 * x)%Fp /\
  rep (felem_scalar_8 f) (fp 8 * x)%Fp /\ rep (felem_inv f) (Zmod.inv x) /\ felem_is_zero_vartime f = Ok (bool_decide (x = 0%Fp)).
Proof.
  intros Hf Hg. change 4 with (2 * 2). change 8 with (2 * 2 * 2). rewrite !fp_mul, fp_3, fp_2.
  split; [solve_rep|]. split; [solve_rep|]. split; [solve_rep|]. split; [solve_rep|]. split; [solve_rep|].
  split; [solve_rep|]. split; [solve_rep|]. split; [solve_rep|]. by apply rep_is_zero.
Qed.

(** On Jacobian coordinates, doubling and the variable-time addition are the
    group law of the curve: doubling for every point, infinity included, the
    addition for any two points that are not infinity, equal and opposite ones
    included. *)
Theorem point_operations_exact x1 y1 z1 x2 y2 z2 P Q :
  jrep (x1, y1, z1) P -> jrep (x2, y2, z2) Q -> on_p256 P -> on_p256 Q -> P <> Inf -> Q <> Inf ->
  jrep (point_double x1 y1 z1) (add_points P P) /\
  (exists j, point_add_or_double_vartime x1 y1 z1 x2 y2 z2 = Ok j /\ jrep j (add_points P Q)) /\
  (P <> Q -> jrep (point_add x1 y1 z1 x2 y2 z2) (add_points P Q)).
Proof.
  intros H1 H2 C1 C2 N1 N2. split; [exact (double_point_ok (x1, y1, z1) P H1)|].
  split; [by apply point_add_or_double_ok|]. intros Hne. by apply point_add_ok.
Qed.

(** The tables of [kPrecomputed] hold what [scalar_base_mult] takes them to
    hold: entry [index] of the first is the base point times the sum of the 2^64k
    for the bits k of [index], and that of the second 2^32 times as much. *)
Theorem kPrecomputed_multiples index : 0 < index < 16 ->
  affine_rep (select_affine_point kPrecomputed index) (mult_point (comb_index index) base_point) /\
  affine_rep (select_affine_point (drop (30 * NLIMBS) kPrecomputed) index) (mult_point (2 ^ 32 * comb_index index) base_point).
Proof.
  intros Hi. destruct tables_ok as (T0 & T1 & _). rewrite table1_limbs, table0_limbs.
  rewrite !select_affine_ok by (lia || by eapply is_table_ok || by eapply is_table_length).
  rewrite (proj2 (Z.eqb_neq index 0)) by lia. split; [|by apply is_table_entry].
  rewrite <- (Z.mul_1_l (comb_index index)). by apply is_table_entry.
Qed.

(** C12: [p256_base_point_mul] returns the coordinates of [n] times the base point
    for every [n] below the order, (0, 0) standing for infinity. *)
Theorem p256_base_point_mul_exact n : p256 n -> val n < order_n ->
  exists x y, p256_base_point_mul n = Ok (x, y) /\ p256 x /\ p256 y /\ (val x, val y) = coordinates (mult_point (val n) base_point).
Proof. exact (base_point_mul_ok n). Qed.

(** C11: [p256_points_mul_vartime] returns the coordinates of [n1] times the base
    point plus [n2] times the given one, a point of the curve with the same order,
    for all [n1] and [n2] below it: where a product or the sum is infinity, and
    where the products are equal, too. *)
Theorem p256_points_mul_vartime_exact n1 n2 in_x in_y :
  p256 n1 -> p256 n2 -> p256 in_x -> p256 in_y -> val n1 < order_n -> val n2 < order_n -> of_order_n (key_point in_x in_y) ->
  exists x y, p256_points_mul_vartime n1 n2 in_x in_y = Ok (x, y) /\ p256 x /\ p256 y /\
    (val x, val y) = coordinates (add_points (mult_point (val n1) base_point) (mult_point (val n2) (key_point in_x in_y))).
Proof. exact (points_mul_ok n1 n2 in_x in_y). Qed.

(** C9: [p256_ecdsa_verify] returns, and accepts ([r], [s]) exactly when ([r],
    [s] modulo the order) is a signature of ECDSA, for keys that
    [p256_is_valid_point] accepts and whose order is that of the base point, as it
    is for all points of this curve.  So it is exact for every [s] below the
    order, as the standard asks [s] to be; a larger [s] is accepted when its
    remainder is. *)
Theorem p256_ecdsa_verify_exact key_x key_y message r s :
  p256 key_x -> p256 key_y -> p256 message -> p256 r -> p256 s -> mult_point order_n (key_point key_x key_y) = Inf ->
  exists b, p256_ecdsa_verify key_x key_y message r s = Ok b /\
    (b = true <-> p256_is_valid_point key_x key_y = Ok true /\ ecdsa_valid (key_point key_x key_y) (val message) (val r) (val s mod order_n)).
Proof. exact (ecdsa_verify_ok key_x key_y message r s). Qed.

(** C10: A signature made with a secret key is accepted with its public key, the
    secret times the base point, if [p256_is_valid_point] accepts that key. *)
Theorem p256_ecdsa_verify_accepts key_x key_y message r s d k :
  p256 key_x -> p256 key_y -> p256 message -> p256 r -> p256 s -> signed d k (val message) (val r) (val s) ->
  key_point key_x key_y = mult_point d base_point -> p256_is_valid_point key_x key_y = Ok true ->
  p256_ecdsa_verify key_x key_y message r s = Ok true.
Proof.
  intros Px Py Pm Pr Ps Hs Ek Hv. pose proof (key_of_order d (signed_d _ _ _ _ _ Hs)) as HQ. rewrite <- Ek in HQ.
  destruct (ecdsa_verify_ok key_x key_y message r s Px Py Pm Pr Ps (order_mult _ HQ)) as (b & -> & Hb). f_equal. apply Hb.
  split; [exact Hv|]. rewrite Ek. apply (signed_valid d k); [exact Hs|]. apply (p256_range _ Pm).
Qed.

(** ** Instances *)

Lemma kOne_tight : tight kOne.
Proof. exact (proj1 rep_one). Qed.

Lemma felem_mul_bounds_witness : tight (felem_mul kOne kOne) /\ fval false (felem_mul kOne kOne) < 2 ^ 257.
Proof. destruct (felem_mul_bounds kOne kOne kOne_tight kOne_tight) as (H1 & _ & H2). split; [exact H1|exact H2]. Defined.

Lemma felem_operations_exact_witness : rep (felem_sum kOne kOne) (1 + 1)%Fp /\ rep (felem_inv kOne) (Zmod.inv 1%Fp).
Proof.
  destruct (felem_operations_exact kOne kOne 1%Fp 1%Fp rep_one rep_one) as (H1 & _ & _ & _ & _ & _ & _ & H2 & _).
  split; [exact H1|exact H2].
Defined.

(** The coordinates of the base point in the table. *)
Lemma base_jrep : exists x y, jrep (x, y, kOne) base_point.
Proof.
  destruct tables_ok as (T0 & _ & _). destruct (is_table_entry 1 table0 1 T0 ltac:(lia)) as (x & y & E & Hx & Hy).
  change (1 * comb_index 1) with 1 in E. rewrite mult_point_1 in E. rewrite E. eexists _, _. exact (jrep_affine _ _ _ Hx Hy).
Qed.

Lemma point_operations_exact_witness :
  exists x y, jrep (x, y, kOne) base_point /\ jrep (point_double x y kOne) (add_points base_point base_point).
Proof.
  destruct base_jrep as (x & y & Hb). exists x, y. split; [exact Hb|].
  exact (proj1 (point_operations_exact x y kOne x y kOne base_point base_point Hb Hb base_on_curve base_on_curve
    (order_finite _ base_of_order) (order_finite _ base_of_order))).
Defined.

Lemma kPrecomputed_multiples_witness :
  affine_rep (select_affine_point kPrecomputed 5) (mult_point (comb_index 5) base_point).
Proof. refine (proj1 (kPrecomputed_multiples 5 _)). lia. Defined.

Lemma small_order z : (z <? order_n) = true -> z < order_n.
Proof. apply Z.ltb_lt. Qed.

Lemma p256_base_point_mul_exact_witness :
  exists x y, p256_base_point_mul (to_digits 8 (2 ^ 255)) = Ok (x, y) /\
    (val x, val y) = coordinates (mult_point (val (to_digits 8 (2 ^ 255))) base_point).
Proof.
  destruct (p256_base_point_mul_exact (to_digits 8 (2 ^ 255)) (p256_to_digits _)
    (small_order (val (to_digits 8 (2 ^ 255))) eq_refl)) as (x & y & E & _ & _ & Ev).
  exists x, y. split; [exact E|exact Ev].
Defined.

Definition base_kx : p256_int := to_digits 8 base_x.
Definition base_ky : p256_int := to_digits 8 base_y.

Lemma base_key : key_point base_kx base_ky = base_point.
Proof.
  unfold key_point, base_point. assert (val base_kx = base_x) as -> by (vm_compute; reflexivity).
  assert (val base_ky = base_y) as -> by (vm_compute; reflexivity). reflexivity.
Qed.

Lemma base_key_order : of_order_n (key_point base_kx base_ky).
Proof. rewrite base_key. exact base_of_order. Qed.

Lemma p256_points_mul_vartime_exact_witness :
  exists x y, p256_points_mul_vartime (to_digits 8 7) (to_digits 8 11) base_kx base_ky = Ok (x, y).
Proof.
  destruct (p256_points_mul_vartime_exact (to_digits 8 7) (to_digits 8 11) base_kx base_ky (p256_to_digits _) (p256_to_digits _)
    (p256_to_digits _) (p256_to_digits _) (small_order (val (to_digits 8 7)) eq_refl) (small_order (val (to_digits 8 11)) eq_refl) base_key_order) as (x & y & E & _).
  exists x, y. exact E.
Defined.

Lemma p256_ecdsa_verify_exact_witness :
  exists b, p256_ecdsa_verify base_kx base_ky (to_digits 8 1) (to_digits 8 2) (to_digits 8 3) = Ok b /\
    (b = true <-> p256_is_valid_point base_kx base_ky = Ok true /\
       ecdsa_valid (key_point base_kx base_ky) (val (to_digits 8 1)) (val (to_digits 8 2)) (val (to_digits 8 3) mod order_n)).
Proof.
  exact (p256_ecdsa_verify_exact base_kx base_ky (to_digits 8 1) (to_digits 8 2) (to_digits 8 3) (p256_to_digits _) (p256_to_digits _)
    (p256_to_digits _) (p256_to_digits _) (p256_to_digits _) (order_mult _ base_key_order)).
Defined.

(** The secret key 1 and the nonce 1. *)
Lemma signed_1 : signed 1 1 (val (to_digits 8 12345)) (val (to_digits 8 base_x)) (val (to_digits 8 (base_x + 12345))).
Proof.
  split; [done|done| |].
  - rewrite mult_point_1. unfold base_point, coordinates, fst, fp. rewrite Zmod.to_Z_of_Z. split; vm_compute; [reflexivity|discriminate].
  - split; vm_compute; [reflexivity|discriminate].
Qed.

Lemma base_key_1 : key_point base_kx base_ky = mult_point 1 base_point.
Proof. rewrite mult_point_1. exact base_key. Qed.

Lemma base_key_valid : p256_is_valid_point base_kx base_ky = Ok true.
Proof. vm_compute. reflexivity. Qed.

Lemma p256_ecdsa_verify_accepts_witness :
  p256_ecdsa_verify base_kx base_ky (to_digits 8 12345) (to_digits 8 base_x) (to_digits 8 (base_x + 12345)) = Ok true.
Proof.
  exact (p256_ecdsa_verify_accepts base_kx base_ky (to_digits 8 12345) (to_digits 8 base_x) (to_digits 8 (base_x + 12345)) 1 1
    (p256_to_digits _) (p256_to_digits _) (p256_to_digits _) (p256_to_digits _) (p256_to_digits _) signed_1 base_key_1 base_key_valid).
Defined.
