(* ===== verification/ZipArchive.v ===== *)
(** * Opening and searching zip archives (core/libziparchive)

    [ZipArchive] is the struct of an open archive: the descriptor, the mapping
    of the central directory and the open-addressing table of entry names.
    Here are the structs of the format as the code reads them, the name check
    of entry_name_utils-inl.h, [FileMap::create] of libutils, and the half of
    zip_archive.cc that opens an archive, looks names up and iterates.  The
    operating system is the class [ZipKernel]; a read retried by
    [TEMP_FAILURE_RETRY] is one call of it. *)

From S2P Require Import Prelude BackedBlock Crc32 OutputFile Sparse SparseRead.

#[local] Open Scope Z_scope.
#[local] Open Scope c_scope.

#[export] Instance byte_eq_decision : EqDecision byte := Byte.byte_eq_dec.

(** The calls beyond [read], [lseek] and [write]: [mmap] gives the bytes that
    can be read at the mapping or [None] for [MAP_FAILED], [sysconf] the page
    size, [alloc] whether a [malloc] or [calloc] of that many bytes succeeds. *)
Class ZipKernel (K : Type) : Type := {
  sys_open : list byte -> K -> Z * K;
  sys_close : Z -> K -> Z * K;
  sys_pread : Z -> Z -> Z -> K -> (Z * list byte) * K;
  sys_sysconf_pagesize : K -> Z * K;
  sys_mmap : Z -> Z -> Z -> K -> option (list byte) * K;
  sys_munmap : list byte -> Z -> K -> Z * K;
  sys_alloc : Z -> K -> bool * K;
  sys_fallocate : Z -> Z -> Z -> K -> Z * K
}.

(** The process: the static [FileMap::mPageSize] and the kernel. *)
Record process (K : Type) : Type := Process { mPageSize : Z; proc_sys : K }.
Arguments Process {K}.
Arguments mPageSize {K}.
Arguments proc_sys {K}.

(** ** Structs of the format *)

Definition EOCD_SIZE : Z := 22.
Definition CDR_SIZE : Z := 46.
Definition LFH_SIZE : Z := 30.
Definition DD_SIZE : Z := 12.
Definition EOCD_kSignature : Z := 0x06054b50.
Definition CDR_kSignature : Z := 0x02014b50.
Definition LFH_kSignature : Z := 0x04034b50.
Definition DD_kOptSignature : Z := 0x08074b50.

Definition kGPBDDFlagMask : Z := 8.
Definition kMaxCommentLen : Z := 65535.
Definition kMaxEOCDSearch : Z := kMaxCommentLen + EOCD_SIZE.

Definition kCompressStored : Z := 0.
Definition kCompressDeflated : Z := 8.

Record EocdRecord : Type := {
  eocd_signature : Z;
  disk_num : Z;
  cd_start_disk : Z;
  num_records_on_disk : Z;
  num_records : Z;
  cd_size : Z;
  cd_start_offset : Z;
  eocd_comment_length : Z
}.

Record CentralDirectoryRecord : Type := {
  record_signature : Z;
  version_made_by : Z;
  version_needed : Z;
  gpb_flags : Z;
  compression_method : Z;
  last_mod_time : Z;
  last_mod_date : Z;
  cdr_crc32 : Z;
  compressed_size : Z;
  uncompressed_size : Z;
  file_name_length : Z;
  extra_field_length : Z;
  comment_length : Z;
  file_start_disk : Z;
  internal_file_attributes : Z;
  external_file_attributes : Z;
  local_file_header_offset : Z
}.

Record LocalFileHeader : Type := {
  lfh_signature : Z;
  lfh_version_needed : Z;
  lfh_gpb_flags : Z;
  lfh_compression_method : Z;
  lfh_last_mod_time : Z;
  lfh_last_mod_date : Z;
  lfh_crc32 : Z;
  lfh_compressed_size : Z;
  lfh_uncompressed_size : Z;
  lfh_file_name_length : Z;
  lfh_extra_field_length : Z
}.

Record DataDescriptor : Type := {
  dd_crc32 : Z;
  dd_compressed_size : Z;
  dd_uncompressed_size : Z
}.

(** The packed structs at the start of the bytes [l]. *)
Definition eocd_at (l : list byte) : EocdRecord :=
  Build_EocdRecord (field l 0 4) (field l 4 2) (field l 6 2) (field l 8 2) (field l 10 2)
    (field l 12 4) (field l 16 4) (field l 20 2).

Definition cdr_at (l : list byte) : CentralDirectoryRecord :=
  Build_CentralDirectoryRecord (field l 0 4) (field l 4 2) (field l 6 2) (field l 8 2) (field l 10 2)
    (field l 12 2) (field l 14 2) (field l 16 4) (field l 20 4) (field l 24 4) (field l 28 2)
    (field l 30 2) (field l 32 2) (field l 34 2) (field l 36 2) (field l 38 4) (field l 42 4).

Definition lfh_at (l : list byte) : LocalFileHeader :=
  Build_LocalFileHeader (field l 0 4) (field l 4 2) (field l 6 2) (field l 8 2) (field l 10 2)
    (field l 12 2) (field l 14 4) (field l 18 4) (field l 22 4) (field l 26 2) (field l 28 2).

Definition dd_at (l : list byte) : DataDescriptor :=
  Build_DataDescriptor (field l 0 4) (field l 4 4) (field l 8 4).

(** ** Error codes *)

Definition kIterationEnd : Z := -1.
Definition kZlibError : Z := -2.
Definition kInvalidFile : Z := -3.
Definition kInvalidHandle : Z := -4.
Definition kDuplicateEntry : Z := -5.
Definition kEmptyArchive : Z := -6.
Definition kEntryNotFound : Z := -7.
Definition kInvalidOffset : Z := -8.
Definition kInconsistentInformation : Z := -9.
Definition kInvalidEntryName : Z := -10.
Definition kIoError : Z := -11.
Definition kMmapFailed : Z := -12.
Definition kErrorMessageUpperBound : Z := 0.
Definition kErrorMessageLowerBound : Z := -13.

Definition kErrorMessages : list string :=
  ["Unknown return code."; "Iteration ended"; "Zlib error"; "Invalid file"; "Invalid handle";
   "Duplicate entries in archive"; "Empty archive"; "Entry not found"; "Invalid offset";
   "Inconsistent information"; "Invalid entry name"; "I/O Error"; "File mapping failed"]%string.

(** The index is out of the array's range on no path: [None] is a read past it. *)
Definition ErrorCodeString (error_code : Z) : option string :=
  if (kErrorMessageLowerBound <? error_code) && (error_code <? kErrorMessageUpperBound)
  then kErrorMessages !! Z.to_nat (error_code * -1)
  else kErrorMessages !! 0%nat.

(** ** Entry names (entry_name_utils-inl.h)

    [mem] is the memory that can be read from [entry_name] on.  The loop over
    the bits of the first byte stops with the index of the last continuation
    byte, or [None] where the function returns false. *)

Definition name_byte (mem : list byte) (i : nat) : outcome Z :=
  match mem !! i with Some b => Ok (byte.unsigned b) | None => UB end.

Fixpoint continuation_bytes (fuel : nat) (mem : list byte) (length : Z) (first : Z) (i : nat)
  : outcome (option nat) :=
  if Z.land first 0x80 =? 0 then Ok (Some i)
  else
    match fuel with
    | O => NoFuel
    | S fuel =>
      let i := S i in
      if Z.of_nat i =? length then Ok None
      else
        do! continuation_byte := name_byte mem i in
        if negb (Z.land continuation_byte 0xc0 =? 0x80) then Ok None
        else continuation_bytes fuel mem length (u8 (Z.shiftl first 1)) i
    end.

Fixpoint name_loop (fuel : nat) (mem : list byte) (length : Z) (i : nat) : outcome bool :=
  if Z.of_nat i <? length then
    match fuel with
    | O => NoFuel
    | S fuel =>
      do! byte := name_byte mem i in
      if byte =? 0 then Ok false
      else if Z.land byte 0x80 =? 0 then name_loop fuel mem length (S i)
      else if (Z.land byte 0xc0 =? 0x80) || (Z.land byte 0xfe =? 0xfe) then Ok false
      else
        do! r := continuation_bytes 8 mem length (u8 (Z.shiftl byte 1)) i in
        match r with
        | None => Ok false
        | Some i => name_loop fuel mem length (S i)
        end
    end
  else Ok true.

Definition IsValidEntryName (mem : list byte) (length : Z) : outcome bool :=
  name_loop (Z.to_nat length) mem length 0.

(** ** File mappings (libutils FileMap.cpp)

    [mBasePtr] is the readable memory of the mapping, [None] for a null
    pointer; [mDataPtr] is an index into it. *)

Record FileMap : Type := {
  mBasePtr : option (list byte);
  mBaseLength : Z;
  mDataOffset : Z;
  mDataPtr : Z;
  mDataLength : Z
}.

Definition FileMap_new : FileMap := Build_FileMap None 0 0 0 0.

(** The memory from [off] bytes behind [mDataPtr] on, and [n] bytes of it. *)
Definition map_from (m : FileMap) (off : Z) : list byte :=
  match mBasePtr m with
  | Some bs => if 0 <=? off then drop (Z.to_nat (mDataPtr m + off)) bs else []
  | None => []
  end.

Definition map_read (m : FileMap) (off n : Z) : outcome (list byte) := mem_read (map_from m off) n.

(** ** Entry names and the table (zip_archive.h, zip_archive.cc)

    The name of an entry is in the mapping, at an offset from the start of the
    central directory, or in the client's memory. *)

Inductive name_ptr : Type :=
| InMap (off : Z)
| Client (mem : list byte).

Record ZipEntryName : Type := { name : name_ptr; name_length : Z }.

(** The constructor from a C string. *)
Definition ZipEntryName_of (s : list byte) : ZipEntryName :=
  Build_ZipEntryName (Client s) (u16 (Z.of_nat (length s))).

Definition name_mem (m : FileMap) (p : name_ptr) : list byte :=
  match p with InMap off => map_from m off | Client mem => mem end.

Definition name_bytes (m : FileMap) (n : ZipEntryName) : outcome (list byte) :=
  mem_read (name_mem m (name n)) (name_length n).

(** A slot of the table; [None] where [name] is [NULL]. *)
Notation name_table := (list (option ZipEntryName)).

Definition RoundUpPower2 (val : Z) : Z :=
  let val := u32 (val - 1) in
  let val := Z.lor val (Z.shiftr val 1) in
  let val := Z.lor val (Z.shiftr val 2) in
  let val := Z.lor val (Z.shiftr val 4) in
  let val := Z.lor val (Z.shiftr val 8) in
  let val := Z.lor val (Z.shiftr val 16) in
  u32 (val + 1).

Fixpoint hash_loop (str : list byte) (hash : Z) : Z :=
  match str with
  | [] => hash
  | b :: str => hash_loop str (u32 (hash * 31 + byte.unsigned b))
  end.

Definition ComputeHash (m : FileMap) (n : ZipEntryName) : outcome Z :=
  do! str := name_bytes m n in Ok (hash_loop str 0).

(** The loop of [EntryToIndex] and [AddToHash]: whether the name is in the slot
    the search stops at, or the slot is empty. *)
Fixpoint probe (fuel : nat) (m : FileMap) (table : name_table) (size : Z) (n : ZipEntryName) (ent : Z)
  : outcome (bool * Z) :=
  match fuel with
  | O => NoFuel
  | S fuel =>
    match table !! Z.to_nat ent with
    | None => UB
    | Some None => Ok (false, ent)
    | Some (Some e) =>
      do! same := (if name_length e =? name_length n then
                     do! a := name_bytes m e in
                     do! b := name_bytes m n in
                     Ok (bool_decide (a = b))
                   else Ok false) in
      if (same : bool) then Ok (true, ent)
      else probe fuel m table size n (Z.land (u32 (ent + 1)) (size - 1))
    end
  end.

Definition EntryToIndex (m : FileMap) (table : name_table) (size : Z) (n : ZipEntryName) : outcome Z :=
  do! hash := ComputeHash m n in
  do! (found, ent) := probe (S (length table)) m table size n (Z.land hash (u32 (size - 1))) in
  Ok (if (found : bool) then ent else kEntryNotFound).

Definition AddToHash (m : FileMap) (table : name_table) (size : Z) (n : ZipEntryName)
  : outcome (Z * name_table) :=
  do! hash := ComputeHash m n in
  do! (found, ent) := probe (S (length table)) m table size n (u32 (Z.land hash (u64 (size - 1)))) in
  Ok (if (found : bool) then (kDuplicateEntry, table) else (0, <[Z.to_nat ent := Some n]> table)).

(** ** The archive *)

Record ZipArchive : Type := {
  za_fd : Z;
  close_file : bool;
  directory_offset : Z;
  directory_map : FileMap;
  num_entries : Z;
  hash_table_size : Z;
  hash_table : option name_table
}.

Definition ZipArchive_new (fd : Z) (assume_ownership : bool) : ZipArchive :=
  Build_ZipArchive fd assume_ownership 0 FileMap_new 0 0 None.

Definition set_directory (a : ZipArchive) (offset : Z) (m : FileMap) (n : Z) : ZipArchive :=
  Build_ZipArchive (za_fd a) (close_file a) offset m n (hash_table_size a) (hash_table a).

Definition set_table (a : ZipArchive) (size : Z) (t : option name_table) : ZipArchive :=
  Build_ZipArchive (za_fd a) (close_file a) (directory_offset a) (directory_map a) (num_entries a) size t.

(** What [FindEntry] tells of an entry. *)
Record ZipEntry : Type := {
  method : Z;
  mod_time : Z;
  has_data_descriptor : Z;
  ze_crc32 : Z;
  compressed_length : Z;
  uncompressed_length : Z;
  offset : Z
}.

Section Archive.
Context {K : Type} `{ReadKernel K} `{ZipKernel K}.
Notation proc := (process K).

Definition sys {A} (f : K -> A * K) : M proc A := fun p =>
  let '(a, k) := f (proc_sys p) in Ok (a, Process (mPageSize p) k).

(** A call that fills a buffer; a buffer that [malloc] did not give is [NULL],
    where the call fails unless it stores nothing. *)
Definition into (buf : bool) (count : Z) (f : K -> (Z * list byte) * K) : M proc (Z * list byte) :=
  if buf || (count =? 0) then sys f else ret (-1, []).

(** [mPageSize], set on first use. *)
Definition page_size : M proc Z :=
  let! page := gets mPageSize in
  if page =? -1 then
    let! page := sys sys_sysconf_pagesize in
    fun p => Ok (page, Process page (proc_sys p))
  else ret page.

(** [FileMap::create]: the mapping is given with the result. *)
Definition FileMap_create (m : FileMap) (fd off len : Z) : M proc (bool * FileMap) :=
  assert (0 <=? fd) ;;!
  assert (0 <=? off) ;;!
  assert (0 <? len) ;;!
  let! page := page_size in
  if page =? -1 then ret (false, m)
  else
    divisor page ;;!
    let adjust := i32 (Z.rem off page) in
    let adjOffset := off - adjust in
    let adjLength := u64 (len + adjust) in
    let! ptr := sys (sys_mmap adjLength fd adjOffset) in
    match ptr with
    | None => ret (false, m)
    | Some bs => ret (true, Build_FileMap (Some bs) adjLength off adjust len)
    end.

(** The scan for the record at the end, backward from index [i]. *)
Definition eocd_magic_at (scan_buffer : list byte) (i : nat) : bool :=
  match scan_buffer !! i with
  | Some b => (byte.unsigned b =? 0x50) && (field scan_buffer i 4 =? EOCD_kSignature)
  | None => false
  end.

Fixpoint find_eocd (scan_buffer : list byte) (i : nat) : option nat :=
  if eocd_magic_at scan_buffer i then Some i
  else match i with O => None | S i => find_eocd scan_buffer i end.

Definition MapCentralDirectory0 (fd : Z) (archive : ZipArchive) (file_length read_amount : Z)
    (scan_buffer : bool) : M proc (Z * ZipArchive) :=
  let search_start := file_length - read_amount in
  let! pos := sys (sys_lseek fd search_start SEEK_SET) in
  if negb (pos =? search_start) then ret (kIoError, archive)
  else
    let! (actual, scan) := into scan_buffer read_amount (sys_read fd read_amount) in
    if negb (actual =? read_amount) then ret (kIoError, archive)
    else
      match find_eocd scan (Z.to_nat (read_amount - EOCD_SIZE)) with
      | None => ret (kInvalidFile, archive)
      | Some i =>
        let eocd_offset := search_start + Z.of_nat i in
        let eocd := eocd_at (drop i scan) in
        let calculated_length := i64 (eocd_offset + EOCD_SIZE + eocd_comment_length eocd) in
        if negb (calculated_length =? file_length) then ret (kInvalidFile, archive)
        else if eocd_offset <? u32 (cd_start_offset eocd + cd_size eocd)
        then ret (kInvalidOffset, archive)
        else if num_records eocd =? 0 then ret (kEmptyArchive, archive)
        else
          let! (created, m) :=
            FileMap_create (directory_map archive) fd (cd_start_offset eocd) (cd_size eocd) in
          if (created : bool)
          then ret (0, set_directory archive (cd_start_offset eocd) m (num_records eocd))
          else ret (kMmapFailed, set_directory archive (directory_offset archive) m (num_entries archive))
      end.

Definition MapCentralDirectory (fd : Z) (archive : ZipArchive) : M proc (Z * ZipArchive) :=
  let! file_length := sys (sys_lseek fd 0 SEEK_END) in
  if file_length =? -1 then ret (kInvalidFile, archive)
  else if 0xffffffff <? file_length then ret (kInvalidFile, archive)
  else if file_length <? EOCD_SIZE then ret (kInvalidFile, archive)
  else
    let read_amount := if file_length <? kMaxEOCDSearch then file_length else kMaxEOCDSearch in
    let! scan_buffer := sys (sys_alloc read_amount) in
    MapCentralDirectory0 fd archive file_length read_amount scan_buffer.

(** One record of the central directory, at offset [ptr]: the result, the
    table and the offset of the next record.  The signature is read before the
    bounds are checked, and the name before the end of the record is. *)
Definition parse_record (archive : ZipArchive) (table : name_table) (ptr : Z)
  : outcome (Z * name_table * Z) :=
  let m := directory_map archive in
  let cd_length := mDataLength m in
  do! sig := map_read m ptr 4 in
  if negb (le_combine sig =? CDR_kSignature) then Ok (-1, table, ptr)
  else if cd_length <? ptr + CDR_SIZE then Ok (-1, table, ptr)
  else
    do! bs := map_read m ptr CDR_SIZE in
    let cdr := cdr_at bs in
    if directory_offset archive <=? local_file_header_offset cdr then Ok (-1, table, ptr)
    else
      let file_name := ptr + CDR_SIZE in
      do! valid := IsValidEntryName (map_from m file_name) (file_name_length cdr) in
      if negb valid then Ok (-1, table, ptr)
      else
        do! (add_result, table) := AddToHash m table (hash_table_size archive)
          (Build_ZipEntryName (InMap file_name) (file_name_length cdr)) in
        if negb (add_result =? 0) then Ok (add_result, table, ptr)
        else
          let ptr := ptr + (CDR_SIZE + file_name_length cdr + extra_field_length cdr + comment_length cdr) in
          if cd_length <? ptr then Ok (-1, table, ptr) else Ok (0, table, ptr).

(** The loop over the records that remain. *)
Fixpoint parse_loop (n : nat) (archive : ZipArchive) (table : name_table) (ptr : Z)
  : outcome (Z * name_table) :=
  match n with
  | O => Ok (0, table)
  | S n =>
    do! (result, table, ptr) := parse_record archive table ptr in
    if result =? 0 then parse_loop n archive table ptr else Ok (result, table)
  end.

(** Where [calloc] gives no table, the first record that reaches [AddToHash]
    stores through a null pointer. *)
Definition ParseZipArchive (archive : ZipArchive) : M proc (Z * ZipArchive) :=
  let size := RoundUpPower2 (1 + Z.quot (num_entries archive * 4) 3) in
  let! ok := sys (sys_alloc (size * 16)) in
  let archive := set_table archive size (if ok then Some (replicate (Z.to_nat size) None) else None) in
  let! (result, table) :=
    lift (parse_loop (Z.to_nat (num_entries archive)) archive (default [] (hash_table archive)) 0) in
  ret (result, set_table archive size (if ok then Some table else None)).

Definition OpenArchiveInternal (archive : ZipArchive) : M proc (Z * ZipArchive) :=
  let! (result, archive) := MapCentralDirectory (za_fd archive) archive in
  if negb (result =? 0) then ret (result, archive)
  else
    let! (result, archive) := ParseZipArchive archive in
    ret (if negb (result =? 0) then result else 0, archive).

(** The handle is set whatever the result. *)
Definition OpenArchiveFd (fd : Z) (assume_ownership : bool) : M proc (Z * ZipArchive) :=
  OpenArchiveInternal (ZipArchive_new fd assume_ownership).

Definition OpenArchive (fileName : list byte) : M proc (Z * ZipArchive) :=
  let! fd := sys (sys_open fileName) in
  let archive := ZipArchive_new fd true in
  if fd <? 0 then ret (kIoError, archive) else OpenArchiveInternal archive.

(** The destructors of [ZipArchive] and of its [FileMap]. *)
Definition CloseArchive (handle : option ZipArchive) : M proc unit :=
  match handle with
  | None => ret tt
  | Some archive =>
    (if close_file archive && (0 <=? za_fd archive) then sys (sys_close (za_fd archive)) else ret 0) ;;!
    match mBasePtr (directory_map archive) with
    | Some bs => sys (sys_munmap bs (mBaseLength (directory_map archive))) ;;! ret tt
    | None => ret tt
    end
  end.

Definition GetFileDescriptor (archive : ZipArchive) : Z := za_fd archive.

(** ** Finding entries *)

Definition ReadAtOffset (buf : bool) (fd len off : Z) : M proc (Z * list byte) :=
  into buf len (sys_pread fd len off).

(** The fields from the central directory, then the rest as it becomes known. *)
Definition set_from_cdr (data : ZipEntry) (cdr : CentralDirectoryRecord) : ZipEntry :=
  Build_ZipEntry (compression_method cdr) (last_mod_time cdr) (has_data_descriptor data)
    (cdr_crc32 cdr) (compressed_size cdr) (uncompressed_size cdr) (offset data).

Definition set_has_dd (data : ZipEntry) (b : Z) : ZipEntry :=
  Build_ZipEntry (method data) (mod_time data) b (ze_crc32 data) (compressed_length data)
    (uncompressed_length data) (offset data).

Definition set_offset (data : ZipEntry) (off : Z) : ZipEntry :=
  Build_ZipEntry (method data) (mod_time data) (has_data_descriptor data) (ze_crc32 data)
    (compressed_length data) (uncompressed_length data) off.

(** The last checks of [FindEntry], on the extent of the entry's data. *)
Definition check_extent (cd_offset data_offset : Z) (data : ZipEntry) : Z * ZipEntry :=
  if cd_offset <? data_offset then (kInvalidOffset, data)
  else if cd_offset <? data_offset + compressed_length data then (kInvalidOffset, data)
  else if (method data =? kCompressStored) && (cd_offset <? data_offset + uncompressed_length data)
  then (kInvalidOffset, data)
  else (0, set_offset data data_offset).

(** The name in the local header is that of the table. *)
Definition check_name (archive : ZipArchive) (e : ZipEntryName) (name_offset : Z)
    (data : ZipEntry) (k : M proc (Z * ZipEntry)) : M proc (Z * ZipEntry) :=
  let nameLen := name_length e in
  let! name_buf := sys (sys_alloc nameLen) in
  let! (actual, buf) := ReadAtOffset name_buf (za_fd archive) nameLen name_offset in
  if negb (actual =? nameLen) then ret (kIoError, data)
  else
    let! nm := lift (name_bytes (directory_map archive) e) in
    if bool_decide (nm = take (Z.to_nat nameLen) buf) then k else ret (kInconsistentInformation, data).

(** The local header [lfh] against the record of the central directory. *)
Definition check_local_header (archive : ZipArchive) (e : ZipEntryName) (lfh : LocalFileHeader)
    (local_header_offset : Z) (data : ZipEntry) : M proc (Z * ZipEntry) :=
  let cd_offset := directory_offset archive in
  let no_dd := Z.land (lfh_gpb_flags lfh) kGPBDDFlagMask =? 0 in
  let data := set_has_dd data (if no_dd then 0 else 1) in
  if no_dd && (negb (compressed_length data =? lfh_compressed_size lfh)
               || negb (uncompressed_length data =? lfh_uncompressed_size lfh)
               || negb (ze_crc32 data =? lfh_crc32 lfh))
  then ret (kInconsistentInformation, data)
  else if lfh_file_name_length lfh =? name_length e then
    let name_offset := local_header_offset + LFH_SIZE in
    if cd_offset <? name_offset + lfh_file_name_length lfh then ret (kInvalidOffset, data)
    else
      check_name archive e name_offset data
        (ret (check_extent cd_offset
                (local_header_offset + LFH_SIZE + lfh_file_name_length lfh + lfh_extra_field_length lfh) data))
  else ret (kInconsistentInformation, data).

(** [FindEntry] on an index of the table; [data] is what the caller passed. *)
Definition FindEntry_at (archive : ZipArchive) (ent : Z) (data : ZipEntry) : M proc (Z * ZipEntry) :=
  match default [] (hash_table archive) !! Z.to_nat ent with
  | Some (Some e) =>
    match name e with
    | Client _ => undef
    | InMap off =>
      let m := directory_map archive in
      let ptr := off - CDR_SIZE in
      if (ptr <? 0) || (mDataLength m <? ptr) then ret (kInvalidOffset, data)
      else
        let! bs := lift (map_read m ptr CDR_SIZE) in
        let cdr := cdr_at bs in
        let data := set_from_cdr data cdr in
        let local_header_offset := local_file_header_offset cdr in
        if directory_offset archive <=? local_header_offset + LFH_SIZE then ret (kInvalidOffset, data)
        else
          let! (actual, lfh_buf) := ReadAtOffset true (za_fd archive) LFH_SIZE local_header_offset in
          if negb (actual =? LFH_SIZE) then ret (kIoError, data)
          else
            let lfh := lfh_at lfh_buf in
            if negb (lfh_signature lfh =? LFH_kSignature) then ret (kInvalidOffset, data)
            else check_local_header archive e lfh local_header_offset data
    end
  | _ => undef
  end.

Definition FindEntry (archive : ZipArchive) (entryName : ZipEntryName) (data : ZipEntry)
  : M proc (Z * ZipEntry) :=
  if name_length entryName =? 0 then ret (kInvalidEntryName, data)
  else
    match hash_table archive with
    | None => undef
    | Some table =>
      let! ent := lift (EntryToIndex (directory_map archive) table (hash_table_size archive) entryName) in
      if ent <? 0 then ret (i32 ent, data) else FindEntry_at archive (i32 ent) data
    end.

(** ** Iterating *)

(** [prefix] and [suffix] are the copies the handle owns, [None] for [NULL]. *)
Record IterationHandle : Type := {
  position : Z;
  prefix : option (list byte);
  suffix : option (list byte);
  it_archive : ZipArchive
}.

Definition copy_name (m : FileMap) (n : option ZipEntryName) : outcome (option (list byte)) :=
  match n with
  | Some n => do! bs := name_bytes m n in Ok (Some bs)
  | None => Ok None
  end.

Definition StartIteration (handle : option ZipArchive) (optional_prefix optional_suffix : option ZipEntryName)
  : outcome (Z * option IterationHandle) :=
  match handle with
  | None => Ok (kInvalidHandle, None)
  | Some archive =>
    match hash_table archive with
    | None => Ok (kInvalidHandle, None)
    | Some _ =>
      do! prefix := copy_name (directory_map archive) optional_prefix in
      do! suffix := copy_name (directory_map archive) optional_suffix in
      Ok (0, Some (Build_IterationHandle 0 prefix suffix archive))
    end
  end.

(** The handle is deleted: there is none afterwards. *)
Definition EndIteration (cookie : option IterationHandle) : option IterationHandle := None.

Definition set_position (h : IterationHandle) (p : Z) : IterationHandle :=
  Build_IterationHandle p (prefix h) (suffix h) (it_archive h).

(** [memcmp] of the copy with the bytes of the entry's name from [off] on. *)
Definition part_matches (m : FileMap) (part : option (list byte)) (e : ZipEntryName) (off : Z) : outcome bool :=
  let part := default [] part in
  let len := Z.of_nat (length part) in
  if len =? 0 then Ok true
  else if name_length e <? len then Ok false
  else
    do! bs := mem_read (drop (Z.to_nat off) (name_mem m (name e))) len in
    Ok (bool_decide (part = bs)).

(** The condition of the loop in [Next] on an entry. *)
Definition entry_matches (h : IterationHandle) (e : ZipEntryName) : outcome bool :=
  let m := directory_map (it_archive h) in
  do! p := part_matches m (prefix h) e 0 in
  if (p : bool) then
    part_matches m (suffix h) e (name_length e - Z.of_nat (length (default [] (suffix h))))
  else Ok false.

(** The loop of [Next] from slot [i]: the first slot whose entry matches. *)
Fixpoint next_slot (fuel : nat) (h : IterationHandle) (table : name_table) (size i : Z)
  : outcome (option (Z * ZipEntryName)) :=
  if i <? size then
    match fuel with
    | O => NoFuel
    | S fuel =>
      match table !! Z.to_nat i with
      | None => UB
      | Some None => next_slot fuel h table size (i + 1)
      | Some (Some e) =>
        do! found := entry_matches h e in
        if (found : bool) then Ok (Some (i, e)) else next_slot fuel h table size (i + 1)
      end
    end
  else Ok None.

(** The result, the handle, and what [data] and [name] hold afterwards. *)
Definition Next (cookie : option IterationHandle) (data : ZipEntry) (nm : ZipEntryName)
  : M proc (Z * option IterationHandle * ZipEntry * ZipEntryName) :=
  match cookie with
  | None => ret (kInvalidHandle, None, data, nm)
  | Some h =>
    let archive := it_archive h in
    match hash_table archive with
    | None => ret (kInvalidHandle, Some h, data, nm)
    | Some table =>
      let size := hash_table_size archive in
      let! r := lift (next_slot (Z.to_nat (size - position h)) h table size (position h)) in
      match r with
      | Some (i, e) =>
        let! (error, data) := FindEntry_at archive (i32 i) data in
        ret (error, Some (set_position h (i + 1)), data, if error =? 0 then e else nm)
      | None => ret (kIterationEnd, Some (set_position h 0), data, nm)
      end
    end
  end.
End Archive.
