(* ===== verification/ZipExtract.v ===== *)
(** * Extracting entries of zip archives (core/libziparchive/zip_archive.cc)

    The writers an entry is extracted to, the copy of stored entries, the
    inflation of deflated ones and the two entry points.  zlib is the class
    [RawInflate]; [WriteFully] is base/file.cpp. *)

From S2P Require Import Prelude BackedBlock Crc32 OutputFile Sparse SparseRead ZipArchive.

#[local] Open Scope Z_scope.
#[local] Open Scope c_scope.

Definition Z_OK : Z := 0.
Definition Z_STREAM_END : Z := 1.
Definition MAX_WBITS : Z := 15.
Definition ENOSPC : Z := 28.

(** A raw inflate stream.  [inflate] takes the bytes at [next_in] and the room
    at [next_out], and gives the result, the number of bytes consumed and the
    bytes produced; [total_out] and [adler] are fields of the [z_stream]. *)
Class RawInflate (Zs : Type) : Type := {
  inflateInit2 : Z -> Z * Zs;
  inflate : list byte -> Z -> Zs -> (Z * nat * list byte) * Zs;
  total_out : Zs -> Z;
  adler : Zs -> Z;
  zlib_crc32 : Z -> list byte -> Z
}.

(** The interface [Writer] on objects of type [W]. *)
Class Writer (K W : Type) : Type := Append : list byte -> M (W * process K) bool.

(** [buf_] is the memory from the client's pointer on. *)
Record MemoryWriter : Type := { mw_buf : list byte; mw_size : Z; bytes_written : Z }.

Definition MemoryWriter_new (buf : list byte) (size : Z) : MemoryWriter := Build_MemoryWriter buf size 0.

Record FileWriter : Type := { fw_fd : Z; declared_length : Z; total_bytes_written : Z }.

Section Extract.
Context {K : Type} `{ReadKernel K} `{ZipKernel K} `{Kernel K}.
Notation proc := (process K).

Definition MemoryWriter_Append (data : list byte) : M (MemoryWriter * proc) bool := fun st =>
  let w := st.1 in
  let n := u64 (bytes_written w + Z.of_nat (length data)) in
  if mw_size w <? n then Ok (false, st)
  else
    do! buf := mem_write (mw_buf w) (bytes_written w) data in
    Ok (true, (Build_MemoryWriter buf (mw_size w) n, st.2)).

#[export] Instance MemoryWriter_Writer : Writer K MemoryWriter := MemoryWriter_Append.

(** A [write] that stores nothing is repeated; the bytes left bound the rest. *)
Fixpoint WriteFully_loop (fuel : nat) (fd : Z) (data : list byte) : M proc bool :=
  match data with
  | [] => ret true
  | _ =>
    match fuel with
    | O => no_fuel
    | S fuel =>
      let! n := sys (sys_write fd data) in
      if n =? -1 then ret false else WriteFully_loop fuel fd (drop (Z.to_nat n) data)
    end
  end.

Definition WriteFully (fd : Z) (data : list byte) : M proc bool := WriteFully_loop (length data) fd data.

Definition FileWriter_Create (fd : Z) (entry : ZipEntry) : M proc (option FileWriter) :=
  let declared_length := uncompressed_length entry in
  let! current_offset := sys (sys_lseek fd 0 SEEK_CUR) in
  if current_offset =? -1 then ret None
  else
    let! no_space :=
      (if 0 <? declared_length then
         let! result := sys (sys_fallocate fd current_offset declared_length) in
         let! e := gets (fun p => sys_errno (proc_sys p)) in
         ret ((result =? -1) && (e =? ENOSPC))
       else ret false) in
    if (no_space : bool) then ret None
    else
      let! result := sys (sys_ftruncate fd (declared_length + current_offset)) in
      if result =? -1 then ret None else ret (Some (Build_FileWriter fd declared_length 0)).

Definition FileWriter_Append (data : list byte) : M (FileWriter * proc) bool := fun st =>
  let w := st.1 in
  let n := u64 (total_bytes_written w + Z.of_nat (length data)) in
  if declared_length w <? n then Ok (false, st)
  else
    do! (result, p) := WriteFully (fw_fd w) data st.2 in
    Ok (result, ((if (result : bool) then Build_FileWriter (fw_fd w) (declared_length w) n else w), p)).

#[export] Instance FileWriter_Writer : Writer K FileWriter := FileWriter_Append.

Section Entries.
Context {Zs W : Type} `{RawInflate Zs} `{Writer K W}.
Notation wstate := (W * proc)%type.

Definition kBufSize : Z := 32768.

(** The loop of [CopyEntryToWriter]: the result and the checksum. *)
Fixpoint copy_loop (fuel : nat) (fd length count crc : Z) : M wstate (Z * Z) :=
  if count <? length then
    match fuel with
    | O => no_fuel
    | S fuel =>
      let remaining := u32 (length - count) in
      let block_size := if kBufSize <? remaining then kBufSize else remaining in
      let! (actual, buf) := on_snd (sys (sys_read fd block_size)) in
      if negb (actual =? block_size) then ret (kIoError, crc)
      else
        let! ok := Append buf in
        if negb ok then ret (kIoError, crc)
        else copy_loop fuel fd length (u32 (count + block_size)) (zlib_crc32 crc buf)
    end
  else ret (0, crc).

Definition CopyEntryToWriter (fd : Z) (entry : ZipEntry) : M wstate (Z * Z) :=
  copy_loop (S (Z.to_nat (uncompressed_length entry / kBufSize))) fd (uncompressed_length entry) 0 0.

(** "Read as much as we can", when nothing is left at [next_in]: whether the read
    failed, and the compressed bytes not read and read. *)
Definition refill (fd comp_left : Z) (input : list byte) : M wstate (bool * Z * list byte) :=
  if (length input =? 0)%nat then
    let getSize := if kBufSize <? comp_left then kBufSize else comp_left in
    let! (actual, buf) := on_snd (sys (sys_read fd getSize)) in
    if negb (actual =? getSize) then ret (true, comp_left, input)
    else ret (false, u32 (comp_left - getSize), buf)
  else ret (false, comp_left, input).

(** "Write when we're full or when we're done": whether the writer refused, and
    what is left in [write_buf]. *)
Definition flush (zerr : Z) (out : list byte) : M wstate (bool * list byte) :=
  if (Z.of_nat (length out) =? kBufSize) || ((zerr =? Z_STREAM_END) && negb (length out =? 0)%nat)
  then let! ok := Append out in ret (negb ok, [])
  else ret (false, out).

(** The loop of [InflateEntryToWriter]: [input] is what is left at [next_in],
    [out] what has been produced into [write_buf].  A result of 0 is the end of
    the stream, with the stream and the compressed bytes not read. *)
Fixpoint inflate_loop (fuel : nat) (fd comp_left : Z) (input out : list byte) (zs : Zs)
  : M wstate (Z * Z * Zs) :=
  match fuel with
  | O => no_fuel
  | S fuel =>
    let! (failed, comp_left, input) := refill fd comp_left input in
    if (failed : bool) then ret (kIoError, comp_left, zs)
    else
      let '((zerr, consumed, produced), zs) := inflate input (kBufSize - Z.of_nat (length out)) zs in
      if negb (zerr =? Z_OK) && negb (zerr =? Z_STREAM_END) then ret (kZlibError, comp_left, zs)
      else
        let! (refused, out) := flush zerr (out ++ produced) in
        if (refused : bool) then ret (kInconsistentInformation, comp_left, zs)
        else if zerr =? Z_OK then inflate_loop fuel fd comp_left (drop consumed input) out zs
        else ret (0, comp_left, zs)
  end.

Definition InflateEntryToWriter (fuel : nat) (fd : Z) (entry : ZipEntry) : M wstate (Z * Z) :=
  let '(zerr, zs) := inflateInit2 (- MAX_WBITS) in
  if negb (zerr =? Z_OK) then ret (kZlibError, 0)
  else
    let! (r, comp_left, zs) := inflate_loop fuel fd (compressed_length entry) [] [] zs in
    if negb (r =? 0) then ret (r, 0)
    else if negb (total_out zs =? uncompressed_length entry) || negb (comp_left =? 0)
    then ret (kInconsistentInformation, adler zs)
    else ret (0, adler zs).

(** The data descriptor behind the data; the entry is updated. *)
Definition UpdateEntryFromDataDescriptor (fd : Z) (entry : ZipEntry) : M wstate (Z * ZipEntry) :=
  let! (actual, ddBuf) := on_snd (sys (sys_read fd (DD_SIZE + 4))) in
  if negb (actual =? DD_SIZE + 4) then ret (kIoError, entry)
  else
    let off := if field ddBuf 0 4 =? DD_kOptSignature then 4%nat else 0%nat in
    let d := dd_at (drop off ddBuf) in
    ret (0, Build_ZipEntry (method entry) (mod_time entry) (has_data_descriptor entry) (dd_crc32 d)
              (dd_compressed_size d) (dd_uncompressed_size d) (offset entry)).

(** The checksum that the copy gives is compared under [&& false]. *)
Definition ExtractToWriter (fuel : nat) (archive : ZipArchive) (entry : ZipEntry) : M wstate (Z * ZipEntry) :=
  let data_offset := offset entry in
  let! pos := on_snd (sys (sys_lseek (za_fd archive) data_offset SEEK_SET)) in
  if negb (pos =? data_offset) then ret (kIoError, entry)
  else
    let! (return_value, crc) :=
      (if method entry =? kCompressStored then CopyEntryToWriter (za_fd archive) entry
       else if method entry =? kCompressDeflated then InflateEntryToWriter fuel (za_fd archive) entry
       else ret (-1, 0)) in
    let! (return_value, entry) :=
      (if (return_value =? 0) && negb (has_data_descriptor entry =? 0)
       then UpdateEntryFromDataDescriptor (za_fd archive) entry
       else ret (return_value, entry)) in
    ret (return_value, entry).
End Entries.

(** The steps of an inflation are bounded by the compressed bytes, the bytes
    the writer takes and the buffer. *)
Definition inflate_fuel (entry : ZipEntry) (size : Z) : nat :=
  Z.to_nat (compressed_length entry + size + kBufSize + 2).

(** The memory at [begin] afterwards is in the state of the writer. *)
Definition ExtractToMemory {Zs} `{RawInflate Zs} (archive : ZipArchive) (entry : ZipEntry) (begin : list byte) (size : Z)
  : M proc (Z * ZipEntry * list byte) := fun p =>
  do! (r, e, (w, p)) := ExtractToWriter (inflate_fuel entry size) archive entry (MemoryWriter_new begin size, p) in
  Ok (r, e, mw_buf w, p).

Definition ExtractEntryToFile {Zs} `{RawInflate Zs} (archive : ZipArchive) (entry : ZipEntry) (fd : Z)
  : M proc (Z * ZipEntry) := fun p =>
  do! (writer, p) := FileWriter_Create fd entry p in
  match writer with
  | None => Ok (kIoError, entry, p)
  | Some w =>
    do! (r, e, (_, p)) :=
      ExtractToWriter (inflate_fuel entry (uncompressed_length entry)) archive entry (w, p) in
    Ok (r, e, p)
  end.
End Extract.
