(* ===== verification/ZipTable.v ===== *)
(** * The table of entry names

    [RoundUpPower2] rounds up to a power of two, and the open-addressing table
    that [AddToHash] fills and [EntryToIndex] searches is a finite set of names
    with their slots: probing stops because a slot stays free, finds a name
    exactly if it was added, and adding keeps every other name where it is. *)

From S2P Require Import Prelude BackedBlock Crc32 OutputFile Sparse SparseRead ZipArchive.

#[local] Open Scope Z_scope.
#[local] Open Scope c_scope.

(** ** Rounding up to a power of two *)

(** The bits of [w] above [l] are clear and the [k] bits from [l] down are set. *)
Definition smeared (w l k : Z) : Prop :=
  (forall i, l < i -> Z.testbit w i = false) /\ (forall i, 0 <= i -> l - k < i <= l -> Z.testbit w i = true).

Lemma smear_step k' w l k : 0 <= k -> k' = k + k -> smeared w l k -> smeared (Z.lor w (Z.shiftr w k)) l k'.
Proof.
  intros Hk -> [H1 H2]. split; intros i.
  - intros Hi. destruct (Z.ltb_spec i 0); [by rewrite Z.testbit_neg_r|].
    rewrite Z.lor_spec, Z.shiftr_spec by lia. rewrite !H1 by lia. done.
  - intros Hi0 Hi. rewrite Z.lor_spec, Z.shiftr_spec by lia. apply orb_true_iff.
    destruct (Z.ltb_spec (l - k) i); [left; apply H2; lia|right; apply H2; lia].
Qed.

Lemma smeared_full w l k : 0 <= l < k -> smeared w l k -> w = Z.ones (l + 1).
Proof.
  intros Hl [H1 H2]. apply Z.bits_inj'. intros i Hi.
  destruct (Z.ltb_spec l i).
  - rewrite H1, Z.ones_spec_high by lia. done.
  - rewrite H2, Z.ones_spec_low by lia. done.
Qed.

Lemma smeared_log2 w : 0 < w -> smeared w (Z.log2 w) 1.
Proof.
  intros Hw. split; intros i Hi.
  - by apply Z.bits_above_log2; lia.
  - intros ?. assert (i = Z.log2 w) as -> by lia. by apply Z.bit_log2.
Qed.

(** The least power of two that is not below [val]. *)
Lemma RoundUpPower2_spec val :
  1 <= val <= 2 ^ 31 ->
  exists k, 0 <= k <= 31 /\ RoundUpPower2 val = 2 ^ k /\ val <= 2 ^ k < 2 * val.
Proof.
  intros Hv. unfold RoundUpPower2. rewrite (u32_small (val - 1)) by lia.
  destruct (decide (val = 1)) as [->|Hne]; [exists 0; by vm_compute|].
  set (w := val - 1). assert (Hw : 0 < w) by lia.
  pose proof (Z.log2_spec w Hw) as Hl. pose proof (Z.log2_nonneg w).
  assert (Z.log2 w < 31) by (apply Z.log2_lt_pow2; lia).
  pose proof (smeared_log2 w Hw) as S1.
  apply (smear_step 2) in S1; [|lia..]. apply (smear_step 4) in S1; [|lia..].
  apply (smear_step 8) in S1; [|lia..]. apply (smear_step 16) in S1; [|lia..].
  apply (smear_step 32) in S1; [|lia..]. apply smeared_full in S1; [|lia].
  rewrite S1, Z.ones_equiv.
  rewrite <- Z.add_1_r in Hl. set (l := Z.log2 w) in *.
  assert (2 ^ (l + 1) <= 2 ^ 31) by (apply Z.pow_le_mono_r; lia).
  assert (2 ^ (l + 1) = 2 * 2 ^ l) as E by (rewrite Z.pow_add_r; lia).
  exists (l + 1). rewrite u32_small by lia. lia.
Qed.

(** ** Probing

    The bytes of the names in the slots. *)

Definition name_ok (m : FileMap) (e : ZipEntryName) (b : list byte) : Prop :=
  name_bytes m e = Ok b /\ name_length e = Z.of_nat (length b).

Inductive slot_ok (m : FileMap) : option ZipEntryName -> option (list byte) -> Prop :=
| slot_empty : slot_ok m None None
| slot_name e b : name_ok m e b -> slot_ok m (Some e) (Some b).

(** The [j]-th slot of a search that starts at [h]. *)
Definition at_step (size h j : Z) : nat := Z.to_nat ((h + j) mod size).

Definition home (size : Z) (b : list byte) : Z := hash_loop b 0 mod size.

(** Every name is reached from its home over slots that hold other names. *)
Definition probe_inv (size : Z) (slots : list (option (list byte))) : Prop :=
  Z.of_nat (length slots) = size /\
  forall i b, slots !! i = Some (Some b) ->
    exists j, 0 <= j < size /\ i = at_step size (home size b) j /\
      forall j', 0 <= j' < j -> exists b', slots !! at_step size (home size b) j' = Some (Some b') /\ b' <> b.

(** A search for [b] stops at such a slot. *)
Definition stops (slots : list (option (list byte))) (b : list byte) (i : nat) : bool :=
  match slots !! i with
  | Some (Some b') => bool_decide (b' = b)
  | _ => true
  end.

Lemma land_pow2_mask x k : 0 <= k -> Z.land x (2 ^ k - 1) = x mod 2 ^ k.
Proof. intros Hk. rewrite Z.sub_1_r, <- Z.ones_equiv. by apply Z.land_ones. Qed.

Lemma at_step_lt size h j : 0 < size -> (at_step size h j < Z.to_nat size)%nat.
Proof. intros Hs. unfold at_step. pose proof (Z.mod_pos_bound (h + j) size Hs). lia. Qed.

Lemma at_step_next k h j :
  0 <= k <= 31 -> Z.land (u32 ((h + j) mod 2 ^ k + 1)) (2 ^ k - 1) = (h + (j + 1)) mod 2 ^ k.
Proof.
  intros Hk. assert (0 < 2 ^ k <= 2 ^ 31) by (split; [lia|apply Z.pow_le_mono_r; lia]).
  pose proof (Z.mod_pos_bound (h + j) (2 ^ k) ltac:(lia)).
  rewrite u32_small by lia. rewrite land_pow2_mask by lia.
  rewrite Z.add_assoc. symmetry. rewrite <- Zplus_mod_idemp_l. done.
Qed.

Section Table.
Context (m : FileMap) (table : name_table) (slots : list (option (list byte))) (k : Z).
Context (Hk : 0 <= k <= 31) (Hview : Forall2 (slot_ok m) table slots).
Context (Hlen : Z.of_nat (length slots) = 2 ^ k).

Lemma name_ok_same e n b b' :
  name_ok m e b' -> name_ok m n b ->
  (if name_length e =? name_length n then
     do! x := name_bytes m e in do! y := name_bytes m n in Ok (bool_decide (x = y))
   else Ok false) = Ok (bool_decide (b' = b)).
Proof.
  intros [E1 L1] [E2 L2]. rewrite E1, E2. cbn.
  destruct (Z.eqb_spec (name_length e) (name_length n)) as [|Hne]; [done|].
  rewrite bool_decide_eq_false_2; [done|]. intros ->. lia.
Qed.

(** The search from step [j] on runs to the first slot where it stops. *)
Lemma probe_run n b h js : name_ok m n b ->
  stops slots b (at_step (2 ^ k) h js) = true ->
  forall fuel j, 0 <= j <= js -> (Z.to_nat (js - j) < fuel)%nat ->
  (forall j', j <= j' < js -> stops slots b (at_step (2 ^ k) h j') = false) ->
  probe fuel m table (2 ^ k) n ((h + j) mod 2 ^ k) =
    Ok (isSome (slots !! at_step (2 ^ k) h js ≫= id), (h + js) mod 2 ^ k).
Proof.
  intros Hn Hjs. induction fuel as [|fuel IH]; intros j Hj Hf Hbefore; [lia|].
  pose proof (at_step_lt (2 ^ k) h j ltac:(lia)) as Hlt. cbn [probe].
  change (Z.to_nat ((h + j) mod 2 ^ k)) with (at_step (2 ^ k) h j).
  destruct (lookup_lt_is_Some_2 slots (at_step (2 ^ k) h j)) as [s Es]; [lia|].
  destruct (Forall2_lookup_r _ _ _ _ _ Hview Es) as (t & Et & Hslot). rewrite Et.
  destruct (decide (j = js)) as [->|Hne].
  - unfold stops in Hjs. rewrite Es in *. inversion Hslot as [|e b' He]; subst; [done|].
    rewrite (name_ok_same _ _ _ _ He Hn). cbn. by rewrite Hjs.
  - specialize (Hbefore j ltac:(lia)) as Hnot. unfold stops in Hnot. rewrite Es in Hnot.
    inversion Hslot as [|e b' He]; subst; [done|].
    rewrite (name_ok_same _ _ _ _ He Hn). cbn. rewrite Hnot.
    rewrite at_step_next by lia. apply IH; [lia|lia|]. intros; apply Hbefore; lia.
Qed.
End Table.

(** ** Searching and adding *)

Lemma first_stop (f : Z -> bool) j0 :
  0 <= j0 -> f j0 = true ->
  exists js, 0 <= js <= j0 /\ f js = true /\ forall j, 0 <= j < js -> f j = false.
Proof.
  intros H0 Hf.
  assert (G : (forall j, 0 <= j < j0 -> f j = false) \/
    exists js, 0 <= js < j0 /\ f js = true /\ forall j, 0 <= j < js -> f j = false).
  { clear Hf. revert j0 H0. apply natlike_ind; [left; lia|]. intros n Hn [IH|(js & ? & ? & ?)].
    - destruct (f n) eqn:E; [right; exists n; split; [lia|done]|left].
      intros j Hj. destruct (decide (j = n)) as [->|]; [done|apply IH; lia].
    - right. exists js. split; [lia|done]. }
  destruct G as [G|(js & ? & ? & ?)]; [exists j0|exists js]; split; try lia; done.
Qed.

Lemma at_step_of size h i : 0 < size -> (i < Z.to_nat size)%nat ->
  exists j, 0 <= j < size /\ at_step size h j = i.
Proof.
  intros Hs Hi. exists ((Z.of_nat i - h) mod size). split; [by apply Z.mod_pos_bound|].
  unfold at_step. rewrite Zplus_mod_idemp_r. replace (h + (Z.of_nat i - h)) with (Z.of_nat i) by lia.
  rewrite Z.mod_small by lia. lia.
Qed.

(** What the slots hold. *)
Notation held := (omap id).

Section Held.
Context {A : Type}.
Implicit Types slots : list (option A).

Lemma elem_of_held slots b : b ∈ held slots <-> exists i, slots !! i = Some (Some b).
Proof.
  rewrite list_elem_of_omap. split.
  - intros (s & Hs & E). cbn in E. subst s. by apply list_elem_of_lookup in Hs.
  - intros (i & Hi). exists (Some b). split; [|done]. by apply list_elem_of_lookup_2 with i.
Qed.

Lemma held_cons (s : option A) slots :
  held (s :: slots) = match s with Some b => b :: held slots | None => held slots end.
Proof. by destruct s. Qed.

Lemma held_replicate n : held (replicate n (None : option A)) = [].
Proof. by induction n. Qed.

Lemma slot_free slots :
  (length (held slots) < length slots)%nat -> exists i, slots !! i = Some None.
Proof.
  induction slots as [|[b|] slots IH]; rewrite ?held_cons; cbn [length]; intros Hl; [lia| |by exists 0%nat].
  destruct IH as [i Hi]; [lia|]. by exists (S i).
Qed.

Lemma held_insert slots i b :
  slots !! i = Some None -> held (<[i:=Some b]> slots) ≡ₚ b :: held slots.
Proof.
  revert i. induction slots as [|s slots IH]; intros [|i] Hi; [done..|by injection Hi as ->|].
  change (<[S i:=Some b]> (s :: slots)) with (s :: <[i:=Some b]> slots).
  rewrite !held_cons. destruct s as [b'|]; rewrite (IH _ Hi); [by constructor|done].
Qed.
End Held.

Lemma held_slots m table slots b :
  Forall2 (slot_ok m) table slots ->
  b ∈ held slots <-> exists e, e ∈ held table /\ name_ok m e b.
Proof.
  intros Hv. rewrite elem_of_held. split.
  - intros (i & Hi). destruct (Forall2_lookup_r _ _ _ _ _ Hv Hi) as (t & Ht & Hs).
    inversion Hs as [|e ? He]; subst. exists e. split; [|done]. apply elem_of_held. eauto.
  - intros (e & (i & Hi)%elem_of_held & [He _]). exists i.
    destruct (Forall2_lookup_l _ _ _ _ _ Hv Hi) as (t & Ht & Hs).
    inversion Hs as [|? b' [Hb _]]; subst. congruence.
Qed.

Lemma length_held m table slots :
  Forall2 (slot_ok m) table slots -> length (held table) = length (held slots).
Proof.
  induction 1 as [|t s table slots [|] _ IH]; [done|..]; rewrite !held_cons; cbn [length]; congruence.
Qed.

(** The table of size [size] holds the entries [es]. *)
Record table_rep (m : FileMap) (table : name_table) (size : Z) (es : list ZipEntryName) : Prop := {
  tr_size : exists k, 0 <= k <= 31 /\ size = 2 ^ k;
  tr_slots : exists slots, Forall2 (slot_ok m) table slots /\ probe_inv size slots;
  tr_held : held table ≡ₚ es
}.

(** Where a search for [b] ends in the slots, and over what. *)
Lemma search_end size slots b :
  0 < size -> probe_inv size slots -> (exists i, slots !! i = Some None) ->
  exists js, 0 <= js < size /\
    stops slots b (at_step size (home size b) js) = true /\
    (forall j, 0 <= j < js -> stops slots b (at_step size (home size b) j) = false) /\
    ((slots !! at_step size (home size b) js = Some (Some b) /\ b ∈ held slots) \/
     (slots !! at_step size (home size b) js = Some None /\ b ∉ held slots)).
Proof.
  intros Hs [Hlen Hinv] [i0 Hi0].
  destruct (at_step_of size (home size b) i0 Hs) as (j0 & Hj0 & Ej0); [apply lookup_lt_Some in Hi0; lia|].
  destruct (first_stop (fun j => stops slots b (at_step size (home size b) j)) j0) as (js & Hjs & Hstop & Hb);
    [lia|by unfold stops; rewrite Ej0, Hi0|].
  exists js. split; [lia|]. split; [done|]. split; [done|].
  destruct (lookup_lt_is_Some_2 slots (at_step size (home size b) js)) as [s Es];
    [pose proof (at_step_lt size (home size b) js Hs); lia|].
  unfold stops in Hstop. rewrite Es in *. destruct s as [b'|].
  - apply bool_decide_eq_true in Hstop as ->. left. split; [done|]. apply elem_of_held. eauto.
  - right. split; [done|]. intros (i & Hi)%elem_of_held.
    destruct (Hinv i b Hi) as (j & Hj & -> & Hpath).
    destruct (Z.lt_trichotomy js j) as [Hlt|[->|Hgt]]; [|congruence|].
    + destruct (Hpath js) as (? & ? & _); [lia|congruence].
    + specialize (Hb j ltac:(lia)). cbn in Hb. unfold stops in Hb. rewrite Hi in Hb.
      by rewrite bool_decide_eq_true_2 in Hb.
Qed.

Lemma hash_loop_range b : forall h, 0 <= h < 2 ^ 32 -> 0 <= hash_loop b h < 2 ^ 32.
Proof.
  induction b as [|x b IH]; intros h Hh; [done|]. cbn. apply IH, u32_range.
Qed.

(** A free slot is taken by a new name. *)
Lemma probe_inv_insert size slots b js :
  0 < size -> probe_inv size slots -> 0 <= js < size ->
  slots !! at_step size (home size b) js = Some None ->
  (forall j, 0 <= j < js -> stops slots b (at_step size (home size b) j) = false) ->
  probe_inv size (<[at_step size (home size b) js := Some b]> slots).
Proof.
  intros Hs [Hlen Hinv] Hjs Hnone Hpath. split; [by rewrite length_insert|].
  assert (Hkeep : forall i b0, slots !! i = Some (Some b0) ->
    <[at_step size (home size b) js := Some b]> slots !! i = Some (Some b0)).
  { intros i b0 Hi. rewrite list_lookup_insert_ne; [done|]. intros E. congruence. }
  intros i b0 Hi. apply list_lookup_insert_Some in Hi as [(<- & [= <-] & _)|[_ Hi]].
  - exists js. split; [done|]. split; [done|]. intros j' Hj'. specialize (Hpath j' Hj') as Hstop.
    unfold stops in Hstop. destruct (slots !! at_step size (home size b) j') as [[b'|]|] eqn:E; try done.
    apply bool_decide_eq_false in Hstop. eauto.
  - destruct (Hinv i b0 Hi) as (j & Hj & -> & Hp). exists j. split; [done|]. split; [done|].
    intros j' Hj'. destruct (Hp j' Hj') as (b' & Hb' & Hne). eauto.
Qed.

Definition named (m : FileMap) (es : list ZipEntryName) (b : list byte) : Prop :=
  exists e, e ∈ es /\ name_ok m e b.

(** The whole search of the table, from the home of the name. *)
Lemma probe_rep m table size es n b :
  table_rep m table size es -> Z.of_nat (length es) < size -> name_ok m n b ->
  exists ent, 0 <= ent < size /\
    ((named m es b /\ probe (S (length table)) m table size n (home size b) = Ok (true, ent) /\
       exists e, table !! Z.to_nat ent = Some (Some e) /\ name_ok m e b) \/
     (~ named m es b /\ probe (S (length table)) m table size n (home size b) = Ok (false, ent) /\
       table_rep m (<[Z.to_nat ent := Some n]> table) size (n :: es))).
Proof.
  intros [(k & Hk & ->) (slots & Hv & Hinv) Hes] Hfree Hn.
  pose proof (proj1 Hinv) as Hlen. pose proof (Forall2_length _ _ _ Hv) as Hlt.
  assert (Hnamed : named m es b <-> b ∈ held slots).
  { rewrite (held_slots m table) by done. unfold named. by setoid_rewrite Hes. }
  destruct (search_end (2 ^ k) slots b) as (js & Hjs & Hstop & Hbefore & Hend); [lia|done| |].
  { apply slot_free. rewrite <- (length_held m table) by done. rewrite Hes. lia. }
  pose proof (probe_run m table slots k Hk Hv Hlen n b (home (2 ^ k) b) js Hn Hstop (S (length table)) 0
    ltac:(lia) ltac:(lia) ltac:(intros; apply Hbefore; lia)) as Hp.
  rewrite Z.add_0_r in Hp. unfold home in Hp at 1. rewrite Z.mod_mod in Hp by lia. fold (home (2 ^ k) b) in Hp.
  exists ((home (2 ^ k) b + js) mod 2 ^ k). split; [apply Z.mod_pos_bound; lia|].
  change (Z.to_nat ((home (2 ^ k) b + js) mod 2 ^ k)) with (at_step (2 ^ k) (home (2 ^ k) b) js).
  rewrite Hp, Hnamed. destruct Hend as [[E Hin]|[E Hin]]; [left|right]; rewrite E.
  - split; [done|]. split; [done|]. destruct (Forall2_lookup_r _ _ _ _ _ Hv E) as (t & Ht & Hs).
    inversion Hs; subst. eauto.
  - split; [done|]. split; [done|]. split; [by exists k| |].
    + exists (<[at_step (2 ^ k) (home (2 ^ k) b) js := Some b]> slots). split.
      * apply Forall2_insert; [done|by constructor].
      * apply probe_inv_insert; [lia|done..].
    + destruct (Forall2_lookup_r _ _ _ _ _ Hv E) as (t & Ht & Hs). inversion Hs; subst t.
      rewrite held_insert by done. by rewrite Hes.
Qed.

Lemma home_land k b : 0 <= k <= 31 ->
  Z.land (hash_loop b 0) (u32 (2 ^ k - 1)) = home (2 ^ k) b /\
  u32 (Z.land (hash_loop b 0) (u64 (2 ^ k - 1))) = home (2 ^ k) b.
Proof.
  intros Hk. assert (0 < 2 ^ k <= 2 ^ 31) by (split; [lia|apply Z.pow_le_mono_r; lia]).
  rewrite u32_small, u64_small by lia. rewrite land_pow2_mask by lia. split; [done|].
  unfold home. pose proof (Z.mod_pos_bound (hash_loop b 0) (2 ^ k) ltac:(lia)) as Hm.
  revert Hm. generalize (hash_loop b 0 mod 2 ^ k). intros x Hx. apply u32_small. lia.
Qed.

Lemma EntryToIndex_rep m table size es n b :
  table_rep m table size es -> Z.of_nat (length es) < size -> name_ok m n b ->
  (named m es b /\ exists ent e, EntryToIndex m table size n = Ok ent /\ 0 <= ent < size /\
     table !! Z.to_nat ent = Some (Some e) /\ name_ok m e b) \/
  (~ named m es b /\ EntryToIndex m table size n = Ok kEntryNotFound).
Proof.
  intros Hrep Hfree Hn. destruct (probe_rep m table size es n b Hrep Hfree Hn) as (ent & Hent & Hcase).
  destruct (tr_size _ _ _ _ Hrep) as (k & Hk & ->).
  assert (E : forall r, probe (S (length table)) m table (2 ^ k) n (home (2 ^ k) b) = Ok r ->
    EntryToIndex m table (2 ^ k) n = Ok (if r.1 then r.2 else kEntryNotFound)).
  { intros [f i] Hr. unfold EntryToIndex, ComputeHash. rewrite (proj1 Hn). cbn [obind].
    rewrite (proj1 (home_land k b Hk)), Hr. done. }
  destruct Hcase as [(Hin & Hp & e & He & Hb)|(Hin & Hp & _)]; apply E in Hp; cbn in Hp; [left|right].
  - split; [done|]. exists ent, e. done.
  - done.
Qed.

Lemma AddToHash_rep m table size es n b :
  table_rep m table size es -> Z.of_nat (length es) < size -> name_ok m n b ->
  (named m es b /\ AddToHash m table size n = Ok (kDuplicateEntry, table)) \/
  (~ named m es b /\ exists table', AddToHash m table size n = Ok (0, table') /\
     table_rep m table' size (n :: es)).
Proof.
  intros Hrep Hfree Hn. destruct (probe_rep m table size es n b Hrep Hfree Hn) as (ent & Hent & Hcase).
  destruct (tr_size _ _ _ _ Hrep) as (k & Hk & ->).
  assert (E : forall r, probe (S (length table)) m table (2 ^ k) n (home (2 ^ k) b) = Ok r ->
    AddToHash m table (2 ^ k) n =
      Ok (if r.1 then (kDuplicateEntry, table) else (0, <[Z.to_nat r.2 := Some n]> table))).
  { intros [f i] Hr. unfold AddToHash, ComputeHash. rewrite (proj1 Hn). cbn [obind].
    rewrite (proj2 (home_land k b Hk)), Hr. done. }
  destruct Hcase as [(Hin & Hp & _)|(Hin & Hp & Hrep')]; apply E in Hp; cbn in Hp; [by left|right].
  split; [done|]. eauto.
Qed.

(** The table that [calloc] gives. *)
Lemma table_rep_new m k : 0 <= k <= 31 -> table_rep m (replicate (Z.to_nat (2 ^ k)) None) (2 ^ k) [].
Proof.
  intros Hk. split; [by exists k| |by rewrite held_replicate].
  exists (replicate (Z.to_nat (2 ^ k)) None). split.
  - generalize (Z.to_nat (2 ^ k)). intros n. induction n; constructor; [constructor|done].
  - split; [rewrite length_replicate; lia|]. intros i b Hi.
    by apply lookup_replicate in Hi as [? _].
Qed.

(** Two entries of the table with the same name are the same slot. *)
Lemma table_rep_unique m table size es i i' e e' b :
  table_rep m table size es -> Z.of_nat (length es) < size ->
  table !! i = Some (Some e) -> table !! i' = Some (Some e') -> name_ok m e b -> name_ok m e' b -> i = i'.
Proof.
  intros [(k & Hk & ->) (slots & Hv & Hinv) Hes] Hfree Hi Hi' He He'.
  assert (Hs : forall i0 e0, table !! i0 = Some (Some e0) -> name_ok m e0 b -> slots !! i0 = Some (Some b)).
  { intros i0 e0 H0 [Hb _]. destruct (Forall2_lookup_l _ _ _ _ _ Hv H0) as (t & Ht & Hslot).
    inversion Hslot as [|? b' [Hb' _]]; subst. congruence. }
  destruct (proj2 Hinv i b (Hs _ _ Hi He)) as (j & Hj & -> & Hp).
  destruct (proj2 Hinv i' b (Hs _ _ Hi' He')) as (j' & Hj' & -> & Hp').
  destruct (Z.lt_trichotomy j j') as [Hlt|[->|Hgt]]; [|done|].
  - destruct (Hp' j) as (b' & Hb' & Hne); [lia|]. rewrite (Hs _ _ Hi He) in Hb'. congruence.
  - destruct (Hp j') as (b' & Hb' & Hne); [lia|]. rewrite (Hs _ _ Hi' He') in Hb'. congruence.
Qed.
