(* ===== verification/ZipName.v ===== *)
(** * Valid entry names (core/libziparchive/entry_name_utils-inl.h)

    [IsValidEntryName] accepts exactly the strings made of ASCII characters
    other than NUL and of first bytes [0xC0] to [0xFD] with the continuation
    bytes their leading ones ask for: all of UTF-8 without NUL, and more. *)

From S2P Require Import Prelude BackedBlock Crc32 OutputFile Sparse SparseRead Unicode UnicodeProps ZipArchive.

#[local] Open Scope Z_scope.
#[local] Open Scope c_scope.

Definition is_tail (b : Z) : bool := (0x80 <=? b) && (b <? 0xc0).

(** Continuation bytes behind a first byte. *)
Definition tail_length (b : Z) : nat :=
  if b <? 0xe0 then 1 else if b <? 0xf0 then 2 else if b <? 0xf8 then 3 else if b <? 0xfc then 4 else 5.

Inductive wf_name : list Z -> Prop :=
| wf_nil : wf_name []
| wf_ascii b l : 0 < b < 0x80 -> wf_name l -> wf_name (b :: l)
| wf_multi b cs l : 0xc0 <= b < 0xfe -> length cs = tail_length b -> Forall (fun c => is_tail c = true) cs ->
    wf_name l -> wf_name (b :: cs ++ l).

(** ** The bits of a byte *)

Fixpoint lead_ones (t : nat) (first : Z) : bool :=
  match t with
  | O => Z.land first 0x80 =? 0
  | S t => negb (Z.land first 0x80 =? 0) && lead_ones t (u8 (Z.shiftl first 1))
  end.

(** What the tests of the code say of a byte. *)
Definition byte_tests (b : Z) : bool :=
  Bool.eqb (Z.land b 0x80 =? 0) (b <? 0x80) &&
  Bool.eqb ((Z.land b 0xc0 =? 0x80) || (Z.land b 0xfe =? 0xfe)) (is_tail b || (0xfe <=? b)) &&
  Bool.eqb (Z.land b 0xc0 =? 0x80) (is_tail b) &&
  (negb ((0xc0 <=? b) && (b <? 0xfe)) || lead_ones (tail_length b) (u8 (Z.shiftl b 1))).

Lemma byte_tests_all b : 0 <= b < 256 -> byte_tests b = true.
Proof. apply (below 256). by vm_compute. Qed.

Lemma byte_tests_split b : 0 <= b < 256 ->
  (Z.land b 0x80 =? 0) = (b <? 0x80) /\
  ((Z.land b 0xc0 =? 0x80) || (Z.land b 0xfe =? 0xfe)) = (is_tail b || (0xfe <=? b)) /\
  (Z.land b 0xc0 =? 0x80) = is_tail b /\
  (0xc0 <= b < 0xfe -> lead_ones (tail_length b) (u8 (Z.shiftl b 1)) = true).
Proof.
  intros Hb. pose proof (byte_tests_all b Hb) as T. unfold byte_tests in T.
  rewrite !andb_true_iff, !Bool.eqb_true_iff, orb_true_iff, negb_true_iff in T.
  destruct T as (((T1 & T2) & T3) & T4). split_and!; [done..|].
  intros Hr. destruct T4 as [T4|T4]; [|done].
  apply andb_false_iff in T4 as [T4|T4]; [apply Z.leb_gt in T4|apply Z.ltb_ge in T4]; lia.
Qed.

(** ** The continuation bytes *)

Fixpoint tails (t : nat) (l : list byte) : bool :=
  match t, l with
  | O, _ => true
  | S t, c :: l => is_tail (byte.unsigned c) && tails t l
  | S t, [] => false
  end.

Lemma name_byte_drop mem n i b l : drop i (take n mem) = b :: l -> name_byte mem i = Ok (byte.unsigned b).
Proof.
  intros E. unfold name_byte. assert (take n mem !! i = Some b) as H.
  { rewrite <- (Nat.add_0_r i), <- lookup_drop, E. done. }
  apply lookup_take_Some in H as [-> _]. done.
Qed.

Lemma drop_S_tail {A} i (l : list A) x k : drop i l = x :: k -> drop (S i) l = k.
Proof. intros E. rewrite <- Nat.add_1_r, <- drop_drop, E. done. Qed.

Lemma drop_nil_length {A} n i (mem : list A) :
  (n <= length mem)%nat -> (i <= n)%nat -> drop i (take n mem) = [] -> i = n.
Proof. intros Hn Hi E. apply (f_equal length) in E. rewrite length_drop, length_take in E. simpl in E. lia. Qed.

Lemma drop_cons_length {A} n i (mem : list A) x k :
  (n <= length mem)%nat -> drop i (take n mem) = x :: k -> (i < n)%nat.
Proof. intros Hn E. apply (f_equal length) in E. rewrite length_drop, length_take in E. simpl in E. lia. Qed.

Lemma continuation_bytes_run mem n : (n <= length mem)%nat ->
  forall fuel t first i, (t <= fuel)%nat -> lead_ones t first = true -> (i < n)%nat ->
  continuation_bytes fuel mem (Z.of_nat n) first i =
    Ok (if tails t (drop (S i) (take n mem)) then Some (i + t)%nat else None).
Proof.
  intros Hn. induction fuel as [|fuel IH]; intros [|t] first i Ht Hl Hi; cbn [lead_ones continuation_bytes] in *;
    try lia; try (rewrite Hl; simpl; by rewrite Nat.add_0_r).
  apply andb_true_iff in Hl as [Hl1 Hl2]. apply negb_true_iff in Hl1. rewrite Hl1.
  destruct (drop (S i) (take n mem)) as [|c l] eqn:E; cbn [tails].
  - apply drop_nil_length in E; [|lia..]. by rewrite (proj2 (Z.eqb_eq _ _)) by lia.
  - pose proof (drop_cons_length _ _ _ _ _ Hn E). rewrite (proj2 (Z.eqb_neq _ _)) by lia.
    rewrite (name_byte_drop _ _ _ _ _ E). cbn [obind].
    pose proof (byte.unsigned_range c). destruct (byte_tests_split (byte.unsigned c)) as (_ & _ & -> & _); [lia|].
    destruct (is_tail (byte.unsigned c)); [|done]. cbn [negb andb]. rewrite (IH t) by (done || lia).
    rewrite (drop_S_tail _ _ _ _ E). by rewrite Nat.add_succ_r.
Qed.

Lemma tails_spec t l :
  tails t l = true <-> exists cs l', l = cs ++ l' /\ length cs = t /\
    Forall (fun c => is_tail c = true) (byte.unsigned <$> cs).
Proof.
  revert l. induction t as [|t IH]; intros l.
  - split; [|done]. intros _. exists [], l. split; [done|]. split; [done|]. constructor.
  - destruct l as [|c l]; cbn [tails].
    + split; [done|]. intros ([|] & l' & E & ? & _); done.
    + rewrite andb_true_iff, IH. split.
      * intros (Hc & cs & l' & -> & Hl & Hf). exists (c :: cs), l'. split; [done|]. split; [simpl; congruence|].
        by constructor.
      * intros ([|c' cs] & l' & E & Hl & Hf); [done|]. injection E as -> ->. inversion Hf; subst.
        split; [done|]. exists cs, l'. split; [done|]. split; [|done]. simpl in Hl. congruence.
Qed.

(** ** The whole name *)

Lemma wf_name_multi_inv b l : 0x80 <= b -> wf_name (b :: l) ->
  exists cs l', l = cs ++ l' /\ length cs = tail_length b /\ Forall (fun c => is_tail c = true) cs /\ wf_name l'.
Proof. intros Hb. inversion 1; subst; [lia|]. eauto 6. Qed.

(** The result and what it says of a memory that holds [n] bytes. *)
Lemma name_loop_run mem n : (n <= length mem)%nat ->
  forall fuel i, (i <= n)%nat -> (n - i <= fuel)%nat ->
  exists r, name_loop fuel mem (Z.of_nat n) i = Ok r /\
    (r = true <-> wf_name (byte.unsigned <$> drop i (take n mem))).
Proof.
  intros Hn. induction fuel as [|fuel IH]; intros i Hi Hf; cbn [name_loop];
    destruct (drop i (take n mem)) as [|b l] eqn:E.
  1,3: apply drop_nil_length in E; [|lia..]; rewrite (proj2 (Z.ltb_ge _ _)) by lia;
    exists true; split; [done|]; split; [intros _; constructor|done].
  { pose proof (drop_cons_length _ _ _ _ _ Hn E). lia. }
  pose proof (drop_cons_length _ _ _ _ _ Hn E). rewrite (proj2 (Z.ltb_lt _ _)) by lia.
  rewrite (name_byte_drop _ _ _ _ _ E). cbn [obind]. rewrite fmap_cons.
  pose proof (byte.unsigned_range b) as Hb. pose proof (drop_S_tail _ _ _ _ E) as El.
  destruct (byte_tests_split (byte.unsigned b)) as (-> & -> & _ & Hlead); [lia|].
  revert Hb Hlead. generalize (byte.unsigned b). clear b E. intros b Hb Hlead.
  destruct (Z.eqb_spec b 0) as [->|Hb0].
  { exists false. split; [done|]. split; [done|]. inversion 1; subst; lia. }
  destruct (Z.ltb_spec b 0x80) as [Hlow|Hhigh].
  { destruct (IH (S i)) as (r & -> & Hr); [lia..|]. exists r. split; [done|]. rewrite Hr, El.
    split; [by constructor; [lia|]|]. inversion 1; subst; [done|lia]. }
  unfold is_tail. rewrite (proj2 (Z.leb_le 0x80 b)) by lia. cbn [andb].
  destruct (Z.ltb_spec b 0xc0) as [Hc|Hc]; cbn [orb].
  { exists false. split; [done|]. split; [done|]. inversion 1; subst; lia. }
  destruct (Z.leb_spec 0xfe b) as [Hfe|Hfe].
  { exists false. split; [done|]. split; [done|]. inversion 1; subst; lia. }
  assert (tail_length b <= 5)%nat by (unfold tail_length; repeat case_match; lia).
  rewrite (continuation_bytes_run mem n Hn 8 (tail_length b)) by (try apply Hlead; lia). cbn [obind].
  rewrite El. destruct (tails (tail_length b) l) eqn:T.
  - apply tails_spec in T as (cs & l' & -> & Hcs & Hcont).
    assert (Hlen : (S i + length (cs ++ l') = n)%nat).
    { rewrite <- El, length_drop, length_take. lia. }
    rewrite length_app in Hlen.
    destruct (IH (S (i + tail_length b))) as (r & -> & Hr); [lia..|]. exists r. split; [done|]. rewrite Hr.
    replace (S (i + tail_length b)) with (S i + length cs)%nat by lia.
    rewrite <- drop_drop, El, drop_app_length, fmap_app. split.
    + intros Hw. constructor; [lia|by rewrite length_fmap|done..].
    + intros (cs' & l0 & Eq & Hl' & _ & Hw)%wf_name_multi_inv; [|lia].
      apply app_inj_1 in Eq as [_ ->]; [done|]. rewrite length_fmap. congruence.
  - exists false. split; [done|]. split; [done|].
    intros (cs' & l0 & Eq & Hl' & Hc' & _)%wf_name_multi_inv; [|lia]. exfalso.
    apply fmap_app_inv in Eq as (k1 & k2 & -> & -> & ->).
    enough (tails (tail_length b) (k1 ++ k2) = true) by congruence. apply tails_spec.
    exists k1, k2. split; [done|]. split; [|done]. by rewrite length_fmap in Hl'.
Qed.

Lemma IsValidEntryName_run mem n : (n <= length mem)%nat ->
  exists r, IsValidEntryName mem (Z.of_nat n) = Ok r /\ (r = true <-> wf_name (byte.unsigned <$> take n mem)).
Proof.
  intros Hn. unfold IsValidEntryName. rewrite Nat2Z.id.
  destruct (name_loop_run mem n Hn n 0) as (r & E & Hr); [lia..|]. eauto.
Qed.

(** UTF-8 without NUL is accepted. *)
Lemma is_tail_cont z : is_tail (cont z) = true.
Proof.
  unfold is_tail, cont. pose proof (Z.mod_pos_bound z 64 ltac:(lia)).
  rewrite (proj2 (Z.leb_le _ _)), (proj2 (Z.ltb_lt _ _)) by lia. done.
Qed.

Lemma wf_name_enc8 c l : scalar c -> c <> 0 -> wf_name l -> wf_name (enc8 c ++ l).
Proof.
  intros Hc Hc0 Hl. unfold enc8, scalar in *.
  assert (Hd : forall d, 0 < d -> 0 <= c / d) by (intros; apply Z.div_pos; lia).
  destruct (Z.ltb_spec c 0x80); [by constructor; [lia|]|].
  destruct (Z.ltb_spec c 0x800).
  { assert (c / 2 ^ 6 < 0x20) by (apply Z.div_lt_upper_bound; lia). specialize (Hd (2 ^ 6)).
    apply (wf_multi (0xC0 + c / 2 ^ 6) [cont c]); [lia| |by repeat constructor; apply is_tail_cont|done].
    unfold tail_length. repeat (rewrite (proj2 (Z.ltb_lt _ _)) by lia). done. }
  destruct (Z.ltb_spec c 0x10000).
  { replace ((c <? 0xD800) || (c >? 0xDFFF)) with true by lia.
    assert (c / 2 ^ 12 < 0x10) by (apply Z.div_lt_upper_bound; lia). specialize (Hd (2 ^ 12)).
    apply (wf_multi (0xE0 + c / 2 ^ 12) [cont (c / 2 ^ 6); cont c]);
      [lia| |by repeat constructor; apply is_tail_cont|done].
    unfold tail_length. rewrite (proj2 (Z.ltb_ge _ _)), (proj2 (Z.ltb_lt _ _)) by lia. done. }
  rewrite (proj2 (Z.leb_le _ _)) by lia.
  assert (c / 2 ^ 18 < 0x8) by (apply Z.div_lt_upper_bound; lia). specialize (Hd (2 ^ 18)).
  apply (wf_multi (0xF0 + c / 2 ^ 18) [cont (c / 2 ^ 12); cont (c / 2 ^ 6); cont c]);
    [lia| |by repeat constructor; apply is_tail_cont|done].
  unfold tail_length. rewrite !(proj2 (Z.ltb_ge _ _)), (proj2 (Z.ltb_lt _ _)) by lia. done.
Qed.

Lemma wf_name_utf8 l : Forall (fun c => scalar c /\ c <> 0) l -> wf_name (utf8 l).
Proof.
  induction 1 as [|c l [Hc H0] _ IH]; [constructor|]. unfold utf8. rewrite bind_cons. by apply wf_name_enc8.
Qed.

(** ** Names that run out of the readable memory

    More memory changes nothing but reads that were out of range, so on any
    memory the check stops, and it accepts only what it could read. *)

Definition UB_or {A} (o o' : outcome A) : Prop := o = UB \/ o = o'.

Lemma UB_or_bind {A B} (o o' : outcome A) (f f' : A -> outcome B) :
  UB_or o o' -> (forall a, UB_or (f a) (f' a)) -> UB_or (obind o f) (obind o' f').
Proof. intros [->| ->] Hf; [by left|]. destruct o' as [a| | |]; [apply Hf|by right..]. Qed.

Lemma name_byte_more mem pad i : UB_or (name_byte mem i) (name_byte (mem ++ pad) i).
Proof.
  unfold name_byte. destruct (mem !! i) as [b|] eqn:E; [|by left]. right.
  by rewrite (lookup_app_l_Some _ _ _ _ E).
Qed.

Lemma continuation_bytes_more mem pad n : forall fuel first i,
  UB_or (continuation_bytes fuel mem n first i) (continuation_bytes fuel (mem ++ pad) n first i).
Proof.
  induction fuel as [|fuel IH]; intros first i; cbn [continuation_bytes]; destruct (_ =? 0); try (by right).
  destruct (_ =? n); [by right|]. apply UB_or_bind; [apply name_byte_more|]. intros c.
  destruct (negb _); [by right|apply IH].
Qed.

Lemma name_loop_more mem pad n : forall fuel i,
  UB_or (name_loop fuel mem n i) (name_loop fuel (mem ++ pad) n i).
Proof.
  induction fuel as [|fuel IH]; intros i; cbn [name_loop]; destruct (_ <? n); try (by right).
  apply UB_or_bind; [apply name_byte_more|]. intros b.
  destruct (b =? 0); [by right|]. destruct (_ =? 0); [apply IH|]. destruct (_ || _); [by right|].
  apply UB_or_bind; [apply continuation_bytes_more|]. intros [i'|]; [apply IH|by right].
Qed.

Lemma wf_name_no_nul l : wf_name l -> Forall (fun b => b <> 0) l.
Proof.
  induction 1 as [|b l Hb _ IH|b cs l Hb _ Hcs _ IH]; [constructor|constructor; [lia|done]|].
  constructor; [lia|]. apply Forall_app. split; [|done]. eapply Forall_impl; [apply Hcs|].
  intros c Hc ->. done.
Qed.

Lemma IsValidEntryName_any mem n : 0 <= n ->
  IsValidEntryName mem n = UB \/
  exists r, IsValidEntryName mem n = Ok r /\
    (r = true -> n <= Z.of_nat (length mem) /\ wf_name (byte.unsigned <$> take (Z.to_nat n) mem)).
Proof.
  intros Hn. set (pad := replicate (Z.to_nat n - length mem) Byte.x00).
  destruct (IsValidEntryName_run (mem ++ pad) (Z.to_nat n)) as (r & E & Hr).
  { unfold pad. rewrite length_app, length_replicate. lia. }
  rewrite Z2Nat.id in E by lia.
  destruct (name_loop_more mem pad n (Z.to_nat n) 0) as [?|H]; [by left|right].
  exists r. split; [unfold IsValidEntryName in *; congruence|]. intros ->.
  pose proof (proj1 Hr eq_refl) as Hwf.
  destruct (Z.leb_spec n (Z.of_nat (length mem))) as [Hle|Hgt].
  - split; [done|]. by rewrite take_app_le in Hwf by lia.
  - exfalso. apply wf_name_no_nul in Hwf. rewrite take_app_ge in Hwf by lia.
    rewrite fmap_app, Forall_app in Hwf. destruct Hwf as [_ Hwf]. unfold pad in Hwf.
    rewrite take_ge in Hwf by (rewrite length_replicate; lia).
    destruct (Z.to_nat n - length mem)%nat eqn:Ep; [lia|]. by inversion Hwf.
Qed.
