(* ===== verification/ZipParse.v ===== *)
(** * Parsed archives

    What [ParseZipArchive] establishes for any mapping, however the file was
    made: the table holds one entry per record, and every entry lies in the
    mapped directory.  [archive_ok] is that invariant; under it looking names
    up is defined, stops, and gives only extents in front of the directory. *)

From S2P Require Import Prelude BackedBlock Crc32 OutputFile Sparse SparseRead ZipArchive.
From S2P Require Import Unicode UnicodeProps ZipName ZipTable.

#[local] Open Scope Z_scope.
#[local] Open Scope c_scope.

(** ** Records *)

(** The fields of a record are as wide as the struct says. *)
Record cdr_range (c : CentralDirectoryRecord) : Prop := {
  cr_method : 0 <= compression_method c < 2 ^ 16;
  cr_csize : 0 <= compressed_size c < 2 ^ 32;
  cr_usize : 0 <= uncompressed_size c < 2 ^ 32;
  cr_name : 0 <= file_name_length c < 2 ^ 16;
  cr_extra : 0 <= extra_field_length c < 2 ^ 16;
  cr_comment : 0 <= comment_length c < 2 ^ 16;
  cr_offset : 0 <= local_file_header_offset c < 2 ^ 32
}.

Lemma cdr_at_range l : cdr_range (cdr_at l).
Proof. split; apply field_range. Qed.

(** ** Records *)

(** [e] is the name at offset [off] of the directory, [c] its record and [b] its
    bytes. *)
Record entry_at (a : ZipArchive) (e : ZipEntryName) (off : Z) (c : CentralDirectoryRecord) (b : list byte)
  : Prop := {
  ea_name : name e = InMap off;
  ea_bytes : name_ok (directory_map a) e b;
  ea_lo : CDR_SIZE <= off;
  ea_hi : off + name_length e <= mDataLength (directory_map a);
  ea_cdr : exists bs, map_read (directory_map a) (off - CDR_SIZE) CDR_SIZE = Ok bs /\ c = cdr_at bs;
  ea_lfh : local_file_header_offset c < directory_offset a;
  ea_len : name_length e = file_name_length c;
  ea_valid : wf_name (byte.unsigned <$> b)
}.

(** The offset behind a record. *)
Definition record_end (ptr : Z) (c : CentralDirectoryRecord) : Z :=
  ptr + (CDR_SIZE + file_name_length c + extra_field_length c + comment_length c).

(** What is read for the name in the mapping. *)
Lemma name_ok_map m off len :
  0 <= len -> len <= Z.of_nat (length (map_from m off)) ->
  name_ok m (Build_ZipEntryName (InMap off) len) (take (Z.to_nat len) (map_from m off)).
Proof.
  intros Hl Hm. split; cbn.
  - unfold name_bytes, mem_read. cbn. by rewrite (proj2 (Z.leb_le _ _)) by lia.
  - rewrite length_take. lia.
Qed.

Lemma map_read_cases m off n : map_read m off n = UB \/ exists l, map_read m off n = Ok l.
Proof. unfold map_read, mem_read. case_match; eauto. Qed.

(** A step of the loop on any memory. *)
Lemma parse_record_any a table ptr es :
  let m := directory_map a in
  table_rep m table (hash_table_size a) es -> Z.of_nat (length es) < hash_table_size a -> 0 <= ptr ->
  parse_record a table ptr = UB \/
  exists r table' ptr', parse_record a table ptr = Ok (r, table', ptr') /\
    (r = 0 -> exists e c b, entry_at a e (ptr + CDR_SIZE) c b /\ ~ named m es b /\
       table_rep m table' (hash_table_size a) (e :: es) /\
       ptr' = record_end ptr c /\ ptr' <= mDataLength m).
Proof.
  intros m Hrep Hfree Hptr. unfold parse_record. fold m.
  destruct (map_read_cases m ptr 4) as [->|(sig & ->)]; [by left|]. cbn [obind].
  destruct (negb _); [right; by eexists _, _, _|].
  destruct (Z.ltb_spec (mDataLength m) (ptr + CDR_SIZE)) as [|Hin]; [right; by eexists _, _, _|].
  destruct (map_read_cases m ptr CDR_SIZE) as [->|(bs & Ebs)]; [by left|]. rewrite Ebs. cbn [obind].
  destruct (cdr_at_range bs) as [_ _ _ Hn He Hc _]. remember (cdr_at bs) as c eqn:Ec.
  destruct (Z.leb_spec (directory_offset a) (local_file_header_offset c)) as [|Hlfh];
    [right; by eexists _, _, _|].
  destruct (IsValidEntryName_any (map_from m (ptr + CDR_SIZE)) (file_name_length c)) as [->|(v & -> & Hv)];
    [lia|by left|]. cbn [obind].
  destruct v; [|right; by eexists _, _, _]. destruct (Hv eq_refl) as [Hmem Hwf]. cbn [negb].
  pose proof (name_ok_map m (ptr + CDR_SIZE) (file_name_length c) ltac:(lia) Hmem) as Hname.
  destruct (AddToHash_rep m table _ es _ _ Hrep Hfree Hname) as [(_ & ->)|(Hnew & table' & -> & Hrep')];
    cbn [obind Z.eqb kDuplicateEntry negb]; [right; by eexists _, _, _|].
  fold (record_end ptr c).
  destruct (Z.ltb_spec (mDataLength m) (record_end ptr c)) as [|Hend]; right;
    eexists _, _, _; (split; [done|]); [done|]. intros _. eexists _, c, _. split; [|done].
  subst m. unfold record_end in Hend. split; cbn [name name_length]; try done; unfold CDR_SIZE in *; try lia.
  exists bs. split; [|done]. rewrite Z.add_simpl_r. done.
Qed.

(** ** The directory *)

(** The names of [n] records of the directory, the first of them at [ptr]. *)
Fixpoint directory_names (m : FileMap) (n : nat) (ptr : Z) : list ZipEntryName :=
  match n with
  | O => []
  | S n =>
    match map_read m ptr CDR_SIZE with
    | Ok bs =>
      Build_ZipEntryName (InMap (ptr + CDR_SIZE)) (file_name_length (cdr_at bs)) ::
        directory_names m n (record_end ptr (cdr_at bs))
    | _ => []
    end
  end.

Lemma directory_names_step a n ptr e c b : entry_at a e (ptr + CDR_SIZE) c b ->
  directory_names (directory_map a) (S n) ptr = e :: directory_names (directory_map a) n (record_end ptr c).
Proof.
  intros [Hn _ _ _ (bs & Eb & ->) _ Hl _]. rewrite Z.add_simpl_r in Eb. cbn [directory_names]. rewrite Eb.
  destruct e as [nm len]. cbn in *. by subst.
Qed.

(** The entries of the table are the names of [n] records. *)
Definition entries_ok (a : ZipArchive) (es : list ZipEntryName) : Prop :=
  Forall (fun e => exists off c b, entry_at a e off c b) es.

Lemma entries_ok_mono a a' es :
  directory_map a' = directory_map a -> directory_offset a' = directory_offset a ->
  entries_ok a es -> entries_ok a' es.
Proof.
  intros Em Eo He. eapply Forall_impl; [apply He|]. intros e (off & c & b & []).
  exists off, c, b. split; rewrite ?Em, ?Eo; done.
Qed.

Lemma parse_loop_any a : forall n table ptr es,
  table_rep (directory_map a) table (hash_table_size a) es -> entries_ok a es ->
  Z.of_nat (length es + n) < hash_table_size a -> 0 <= ptr ->
  parse_loop n a table ptr = UB \/
  exists r table', parse_loop n a table ptr = Ok (r, table') /\
    (r = 0 -> exists es', table_rep (directory_map a) table' (hash_table_size a) es' /\ entries_ok a es' /\
       length es' = (length es + n)%nat /\ es' = rev (directory_names (directory_map a) n ptr) ++ es).
Proof.
  induction n as [|n IH]; intros table ptr es Hrep Hes Hfree Hptr; cbn [parse_loop].
  - right. eexists _, _. split; [done|]. intros _. exists es. split_and!; [done..|lia|done].
  - destruct (parse_record_any a table ptr es Hrep) as [->|(r & table' & ptr' & -> & Hok)];
      [lia|done|by left|]. cbn [obind].
    destruct (Z.eqb_spec r 0) as [->|]; [|right; by eexists _, _].
    destruct (Hok eq_refl) as (e & c & b & He & _ & Hrep' & -> & Hend).
    destruct (ea_cdr _ _ _ _ _ He) as (bs & _ & ->). destruct (cdr_at_range bs).
    destruct (IH table' (record_end ptr (cdr_at bs)) (e :: es)) as [?|(r & t & E & Hr)];
      [done|by constructor; eauto|simpl; lia|unfold record_end, CDR_SIZE; lia|by left|].
    right. exists r, t. split; [done|]. intros H0. destruct (Hr H0) as (es' & ? & ? & Hl & Hd).
    exists es'. split_and!; [done..|rewrite Hl; simpl; lia|].
    rewrite (directory_names_step a n ptr e _ b He), Hd. cbn [rev]. by rewrite <- app_assoc.
Qed.

(** The table is larger than the number of entries. *)
Lemma table_size_free n :
  0 <= n < 2 ^ 16 ->
  exists k, 0 <= k <= 31 /\ RoundUpPower2 (1 + Z.quot (n * 4) 3) = 2 ^ k /\ n < 2 ^ k < 2 ^ 18.
Proof.
  intros Hn. rewrite quot_div by lia.
  pose proof (Z.div_le_upper_bound (n * 4) 3 87381 ltac:(lia) ltac:(lia)).
  pose proof (Z.div_le_lower_bound (n * 4) 3 n ltac:(lia) ltac:(lia)).
  destruct (RoundUpPower2_spec (1 + n * 4 / 3)) as (k & Hk & E & Hle); [lia|].
  exists k. split; [done|]. split; [done|]. lia.
Qed.

(** The names of the records of the directory. *)
Definition archive_names (a : ZipArchive) : list ZipEntryName :=
  directory_names (directory_map a) (Z.to_nat (num_entries a)) 0.

(** An archive that was opened, with its entries. *)
Record archive_ok (a : ZipArchive) (table : name_table) (es : list ZipEntryName) : Prop := {
  ao_table : hash_table a = Some table;
  ao_rep : table_rep (directory_map a) table (hash_table_size a) es;
  ao_free : Z.of_nat (length es) < hash_table_size a;
  ao_entries : entries_ok a es;
  ao_count : Z.of_nat (length es) = num_entries a
}.

(** The order of the entries does not matter. *)
Lemma archive_ok_perm a table es es' : es ≡ₚ es' -> archive_ok a table es -> archive_ok a table es'.
Proof.
  intros Hp [Ht [Hs Hk Hh] Hf He Hc]. split; rewrite <- ?Hp; try done; [|unfold entries_ok; by rewrite <- Hp].
  split; [done..|]. by rewrite Hh.
Qed.

(** ** Opening and searching over any kernel *)

Section Kernel.
Context {K : Type} `{ReadKernel K} `{ZipKernel K}.
Notation proc := (process K).

Lemma sys_any {A} (f : K -> A * K) (p : proc) : exists a p', sys f p = Ok (a, p').
Proof. unfold sys. destruct (f (proc_sys p)). eauto. Qed.

Lemma into_any buf count f (p : proc) : exists r p', into buf count f p = Ok (r, p').
Proof. unfold into. destruct (buf || _); [apply sys_any|by eexists _, _]. Qed.

(** The result of a computation, where it has one, satisfies [Q]. *)
Definition post {A} (Q : A -> Prop) (o : outcome (A * proc)) : Prop :=
  match o with Ok (a, _) => Q a | NoFuel => False | UB | Abort => True end.

Lemma post_bind {A B} (Q : A -> Prop) (R : B -> Prop) (f : M proc A) (g : A -> M proc B) p :
  post Q (f p) -> (forall a p', Q a -> post R (g a p')) -> post R (bind f g p).
Proof.
  unfold bind. intros Hf Hg. destruct (f p) as [[a p']| | |]; [|done..]. by apply Hg.
Qed.

Lemma post_sys {A} (f : K -> A * K) p : post (fun _ => True) (sys f p).
Proof. destruct (sys_any f p) as (? & ? & ->). done. Qed.

Lemma post_into buf count f p : post (fun _ => True) (into buf count f p).
Proof. destruct (into_any buf count f p) as (? & ? & ->). done. Qed.

(** What mapping the directory leaves for parsing. *)
Definition mapped (r : Z * ZipArchive) : Prop :=
  r.1 = 0 -> 0 < num_entries r.2 < 2 ^ 16.

(** An error code does not claim anything. *)
Ltac error_case := cbn; unfold mapped; cbn; intros; discriminate.

Lemma FileMap_create_post m fd off len p : post (fun _ => True) (FileMap_create m fd off len p).
Proof.
  unfold FileMap_create.
  do 3 (apply (post_bind (fun _ => True)); [unfold assert; by case_match|intros _ ? _]).
  apply (post_bind (fun _ => True)).
  { unfold page_size. apply (post_bind (fun _ => True)); [done|intros page ? _].
    destruct (page =? -1); [|done]. apply (post_bind (fun _ => True)); [apply post_sys|done]. }
  intros page' ? _. destruct (page' =? -1); [done|].
  apply (post_bind (fun _ => True)); [unfold divisor; by case_match|intros _ ? _].
  apply (post_bind (fun _ => True)); [apply post_sys|]. by intros [bs|] ? _.
Qed.

Lemma MapCentralDirectory_post fd a p : post mapped (MapCentralDirectory fd a p).
Proof.
  unfold MapCentralDirectory, MapCentralDirectory0.
  apply (post_bind (fun _ => True)); [apply post_sys|intros len ? _].
  destruct (len =? -1); [error_case|]. destruct (_ <? len); [error_case|]. destruct (len <? EOCD_SIZE); [error_case|].
  apply (post_bind (fun _ => True)); [apply post_sys|intros buf ? _].
  apply (post_bind (fun _ => True)); [apply post_sys|intros pos ? _].
  destruct (negb _); [error_case|].
  apply (post_bind (fun _ => True)); [apply post_into|intros [actual scan] ? _].
  destruct (negb _); [error_case|]. destruct (find_eocd _ _) as [i|]; [|error_case].
  pose proof (field_range (drop i scan) 10 2) as Hr. change (field _ 10 2) with (num_records (eocd_at (drop i scan))) in Hr.
  destruct (negb _); [error_case|]. destruct (_ <? u32 _); [error_case|].
  destruct (Z.eqb_spec (num_records (eocd_at (drop i scan))) 0); [error_case|].
  apply (post_bind (fun _ => True)); [apply FileMap_create_post|intros [[] m] ? _]; [|error_case].
  intros _. cbn in *. lia.
Qed.

(** Without a table no record is added. *)
Lemma parse_loop_null a : forall n ptr,
  exists r, parse_loop (S n) a [] ptr = r /\ r <> NoFuel /\ forall t, r <> Ok (0, t).
Proof.
  intros n ptr. eexists. split; [done|]. cbn [parse_loop]. unfold parse_record.
  destruct (map_read_cases (directory_map a) ptr 4) as [->|(sig & ->)]; [done|]. cbn [obind].
  case_match; [done|]. case_match; [done|].
  destruct (map_read_cases (directory_map a) ptr CDR_SIZE) as [->|(bs & ->)]; [done|]. cbn [obind].
  case_match; [done|].
  destruct (IsValidEntryName_any (map_from (directory_map a) (ptr + CDR_SIZE)) (file_name_length (cdr_at bs)))
    as [->|([] & -> & _)]; [apply cdr_at_range|done| |done].
  cbn [obind negb]. unfold AddToHash, ComputeHash, name_bytes, mem_read. by case_match.
Qed.

Lemma ParseZipArchive_post a p :
  0 < num_entries a < 2 ^ 16 ->
  post (fun r => r.1 = 0 -> exists table, archive_ok r.2 table (archive_names r.2)) (ParseZipArchive a p).
Proof.
  intros Hn. unfold ParseZipArchive.
  destruct (table_size_free (num_entries a)) as (k & Hk & -> & Hlt); [lia|].
  apply (post_bind (fun _ => True)); [apply post_sys|intros ok ? _].
  set (a1 := set_table a (2 ^ k) (if ok then Some (replicate (Z.to_nat (2 ^ k)) None) else None)).
  unfold bind, lift. destruct ok; cbn [default hash_table a1 set_table num_entries from_option id].
  - destruct (parse_loop_any a1 (Z.to_nat (num_entries a)) (replicate (Z.to_nat (2 ^ k)) None) 0 [])
      as [E|(r & table & E & Hr)]; [by apply table_rep_new|constructor|cbn; lia|done|..];
      rewrite E; [done|].
    cbn. intros Hr0. destruct (Hr Hr0) as (es & Hrep & Hes & Hl & Hd). exists table.
    rewrite app_nil_r in Hd. apply (archive_ok_perm _ _ es); [by rewrite Hd, <- Permutation_rev|].
    split; cbn; [done|done|rewrite Hl; cbn; lia| |rewrite Hl; cbn; lia].
    by apply (entries_ok_mono a1).
  - destruct (Z.to_nat (num_entries a)) as [|n] eqn:En; [lia|].
    destruct (parse_loop_null a1 n 0) as (r & -> & Hf & Hno).
    destruct r as [[r t]| | |]; [|done..]. cbn. intros ->. by destruct (Hno t).
Qed.

Lemma OpenArchiveInternal_post a p :
  post (fun r => r.1 = 0 -> exists table, archive_ok r.2 table (archive_names r.2)) (OpenArchiveInternal a p).
Proof.
  unfold OpenArchiveInternal. apply (post_bind mapped); [apply MapCentralDirectory_post|].
  intros [r a1] p1 Hm. destruct (Z.eqb_spec r 0) as [->|Hr]; cbn [negb]; [|by intros ?].
  eapply post_bind; [apply ParseZipArchive_post; by apply Hm|].
  intros [r a2] p2 Ha. cbn. by destruct (Z.eqb_spec r 0) as [->|Hr].
Qed.
End Kernel.
