(* ===== verification/ZipFind.v ===== *)
(** * Finding and iterating in a parsed archive

    Over any kernel and for any archive that satisfies [archive_ok]: [FindEntry]
    and [Next] return (no read leaves the mapping, no search runs on for ever),
    an entry they give lies in front of the central directory and is described
    by its record, and the calls of [Next] visit each matching name once. *)

From S2P Require Import Prelude BackedBlock Crc32 OutputFile Sparse SparseRead ZipArchive.
From S2P Require Import Unicode UnicodeProps ZipName ZipTable ZipParse.

#[local] Open Scope Z_scope.
#[local] Open Scope c_scope.

(** What [FindEntry] takes from the record [c]. *)
Definition described (c : CentralDirectoryRecord) (d : ZipEntry) : Prop :=
  method d = compression_method c /\ mod_time d = last_mod_time c /\ ze_crc32 d = cdr_crc32 c /\
  compressed_length d = compressed_size c /\ uncompressed_length d = uncompressed_size c.

(** The data lies between the end of its local header and the directory. *)
Definition in_front (a : ZipArchive) (c : CentralDirectoryRecord) (d : ZipEntry) : Prop :=
  local_file_header_offset c + LFH_SIZE + file_name_length c <= offset d /\
  offset d + compressed_length d <= directory_offset a /\
  (method d = kCompressStored -> offset d + uncompressed_length d <= directory_offset a).

Section Find.
Context {K : Type} `{ReadKernel K} `{ZipKernel K}.
Notation proc := (process K).

(** The computation returns, and its value satisfies [Q]. *)
Definition returns {A} (Q : A -> Prop) (o : outcome (A * proc)) : Prop :=
  exists a p', o = Ok (a, p') /\ Q a.

Lemma returns_ret {A} (Q : A -> Prop) a p : Q a -> returns Q (ret a p).
Proof. intros. by exists a, p. Qed.

Lemma returns_bind {A B} (Q : A -> Prop) (R : B -> Prop) (f : M proc A) (g : A -> M proc B) p :
  returns Q (f p) -> (forall a p', Q a -> returns R (g a p')) -> returns R (bind f g p).
Proof. intros (a & p' & E & HQ) Hg. rewrite (bind_Ok _ _ _ _ _ E). by apply Hg. Qed.

Lemma returns_sys {A} (f : K -> A * K) p : returns (fun _ => True) (sys f p).
Proof. destruct (sys_any f p) as (a & p' & E). by exists a, p'. Qed.

Lemma returns_read buf fd len off (p : proc) : returns (fun _ => True) (ReadAtOffset buf fd len off p).
Proof. destruct (into_any buf len (sys_pread fd len off) p) as (a & p' & E). by exists a, p'. Qed.

(** What [FindEntry] promises of its result and data. *)
Definition found (a : ZipArchive) (c : CentralDirectoryRecord) (r : Z * ZipEntry) : Prop :=
  r.1 = 0 -> described c r.2 /\ in_front a c r.2.

Lemma check_extent_found a c off d :
  local_file_header_offset c + LFH_SIZE + file_name_length c <= off -> described c d ->
  found a c (check_extent (directory_offset a) off d).
Proof.
  intros Hoff Hd. unfold check_extent. destruct (_ <? off); [done|].
  destruct (Z.ltb_spec (directory_offset a) (off + compressed_length d)); [done|].
  destruct (_ && _) eqn:E; [done|]. intros _. cbn. split; [done|]. split; [done|]. split; [done|].
  cbn. intros Hm. rewrite Hm in E. cbn in E. apply Z.ltb_ge in E. lia.
Qed.

Lemma check_name_found a c e off d k p b :
  name_ok (directory_map a) e b -> (forall p', returns (found a c) (k p')) ->
  returns (found a c) (check_name a e off d k p).
Proof.
  intros [Hb _] Hk. unfold check_name. eapply returns_bind; [apply returns_sys|intros buf p1 _].
  eapply returns_bind; [apply returns_read|intros [actual bs] p2 _].
  destruct (negb _); [by apply returns_ret|].
  unfold bind, lift. rewrite Hb. cbn [obind fst snd]. destruct (bool_decide _); [apply Hk|by apply returns_ret].
Qed.

Lemma check_local_header_found a c e lfh d p b :
  name_ok (directory_map a) e b -> name_length e = file_name_length c -> 0 <= lfh_extra_field_length lfh ->
  described c d ->
  returns (found a c) (check_local_header a e lfh (local_file_header_offset c) d p).
Proof.
  intros Hb Hlen Hx Hd. unfold check_local_header. set (d' := set_has_dd _ _).
  assert (described c d') as Hd' by done.
  destruct (_ && _); [by apply returns_ret|].
  destruct (Z.eqb_spec (lfh_file_name_length lfh) (name_length e)) as [El|]; [|by apply returns_ret].
  destruct (_ <? _); [by apply returns_ret|].
  eapply check_name_found; [done|]. intros p'. apply returns_ret, check_extent_found; [lia|done].
Qed.

(** [FindEntry] on a slot of the table. *)
Lemma FindEntry_at_found a table es i e off c b data p :
  archive_ok a table es -> table !! i = Some (Some e) -> entry_at a e off c b ->
  returns (found a c) (FindEntry_at a (Z.of_nat i) data p).
Proof.
  intros Ha Hi [Hname Hb Hlo Hhi (bs & Hbs & ->) Hlfh Hlen _]. unfold FindEntry_at.
  rewrite (ao_table _ _ _ Ha), Nat2Z.id. cbn [default from_option id]. rewrite Hi, Hname.
  destruct (_ || _); [by apply returns_ret|].
  unfold bind at 1, lift. rewrite Hbs. cbn [obind fst snd].
  destruct (_ <=? _); [by apply returns_ret|].
  eapply returns_bind; [apply returns_read|intros [actual buf] p2 _].
  destruct (negb _); [by apply returns_ret|]. destruct (negb _); [by apply returns_ret|].
  eapply check_local_header_found; [done|done|apply field_range|done].
Qed.

Lemma held_entry a table es i e :
  archive_ok a table es -> table !! i = Some (Some e) -> exists off c b, entry_at a e off c b.
Proof.
  intros [_ Hrep _ Hes _] Hi. unfold entries_ok in Hes. rewrite Forall_forall in Hes. apply Hes.
  rewrite <- (tr_held _ _ _ _ Hrep). apply elem_of_held. eauto.
Qed.

Lemma table_size_bound a table es :
  archive_ok a table es -> 0 < hash_table_size a <= 2 ^ 31 /\ Z.of_nat (length table) = hash_table_size a.
Proof.
  intros [_ [(k & Hk & ->) (slots & Hv & Hinv) _] _ _ _].
  split; [split; [lia|apply Z.pow_le_mono_r; lia]|].
  rewrite (Forall2_length _ _ _ Hv). apply Hinv.
Qed.

(** [FindEntry] by name, for any bytes [b] of the client's name. *)
Lemma FindEntry_found a table es n b data p :
  archive_ok a table es -> name_ok (directory_map a) n b -> b <> [] ->
  (named (directory_map a) es b /\ exists e off c, e ∈ es /\ entry_at a e off c b /\
     returns (found a c) (FindEntry a n data p)) \/
  (~ named (directory_map a) es b /\ FindEntry a n data p = Ok ((kEntryNotFound, data), p)).
Proof.
  intros Ha Hn Hne. pose proof (table_size_bound _ _ _ Ha) as [Hsz Hlt].
  unfold FindEntry. rewrite (proj2 (Z.eqb_neq _ _)).
  2: { rewrite (proj2 Hn). destruct b; [done|simpl; lia]. }
  rewrite (ao_table _ _ _ Ha). unfold bind, lift.
  destruct (EntryToIndex_rep _ _ _ _ _ _ (ao_rep _ _ _ Ha) (ao_free _ _ _ Ha) Hn)
    as [(Hin & ent & e & -> & Hent & He & Hb)|(Hnot & ->)]; cbn [obind fst snd].
  - left. split; [done|]. destruct (held_entry _ _ _ _ _ Ha He) as (off & c & b' & Hat).
    assert (b' = b) as -> by (pose proof (proj1 Hb); pose proof (proj1 (ea_bytes _ _ _ _ _ Hat)); congruence).
    exists e, off, c. split.
    { rewrite <- (tr_held _ _ _ _ (ao_rep _ _ _ Ha)). apply elem_of_held. eauto. }
    split; [done|]. rewrite (proj2 (Z.ltb_ge _ _)), i32_small by lia.
    rewrite <- (Z2Nat.id ent) by lia. by eapply FindEntry_at_found.
  - right. done.
Qed.

(** ** Iteration *)

(** The names an iteration is restricted to. *)
Definition wanted (h : IterationHandle) (b : list byte) : bool :=
  bool_decide (default [] (prefix h) `prefix_of` b) && bool_decide (default [] (suffix h) `suffix_of` b).

Definition wanted_entry (h : IterationHandle) (e : ZipEntryName) : bool :=
  match name_bytes (directory_map (it_archive h)) e with Ok b => wanted h b | _ => false end.

Lemma name_ok_mem m e b :
  name_ok m e b -> b = take (length b) (name_mem m (name e)) /\ (length b <= length (name_mem m (name e)))%nat.
Proof.
  intros [Hb Hl]. unfold name_bytes in Hb. apply mem_read_Ok in Hb as (_ & Hb & Hm); [|lia].
  rewrite Hl, Nat2Z.id in *. done.
Qed.

(** [memcmp] with [len] bytes at [off] of a name. *)
Lemma part_matches_spec m part e b off :
  name_ok m e b -> (length (default [] part) <= length b -> off + length (default [] part) <= length b)%nat ->
  part_matches m part e (Z.of_nat off) =
    Ok (bool_decide (default [] part = take (length (default [] part)) (drop off b)) ||
        bool_decide (default [] part = [])).
Proof.
  intros He Hoff. destruct (name_ok_mem _ _ _ He) as [Hb Hm]. unfold part_matches.
  set (l := default [] part) in *. rewrite (proj2 He), Nat2Z.id.
  destruct (Z.eqb_spec (Z.of_nat (length l)) 0) as [E0|E0].
  { assert (l = []) as -> by (destruct l; [done|simpl in E0; lia]). by rewrite orb_true_r. }
  rewrite (bool_decide_eq_false_2 (l = [])) by (intros ->; done). rewrite orb_false_r.
  destruct (Z.ltb_spec (Z.of_nat (length b)) (Z.of_nat (length l))) as [Hlt|Hge].
  { rewrite bool_decide_eq_false_2; [done|]. intros E. apply (f_equal length) in E.
    rewrite length_take, length_drop in E. lia. }
  unfold mem_read. rewrite length_drop, (proj2 (Z.leb_le _ _)) by lia. cbn [obind]. rewrite Nat2Z.id.
  assert (drop off b = take (length b - off) (drop off (name_mem m (name e)))) as ->.
  { rewrite Hb at 1. apply skipn_firstn_comm. }
  rewrite take_take, Nat.min_l by lia. done.
Qed.

Lemma entry_matches_spec h e b :
  name_ok (directory_map (it_archive h)) e b -> entry_matches h e = Ok (wanted h b).
Proof.
  intros He. unfold entry_matches, wanted. set (pre := default [] (prefix h)). set (suf := default [] (suffix h)).
  change 0 with (Z.of_nat 0). rewrite (part_matches_spec _ _ _ b) by (done || lia). fold pre.
  rewrite drop_0. cbn [obind].
  assert ((bool_decide (pre = take (length pre) b) || bool_decide (pre = [])) = bool_decide (pre `prefix_of` b)) as ->.
  { apply eq_bool_prop_intro. rewrite orb_True, !bool_decide_spec. split.
    - intros [-> | ->]; [apply prefix_take|apply prefix_nil].
    - intros [k ->]. left. by rewrite take_app_length. }
  destruct (bool_decide (pre `prefix_of` b)); [|done]. cbn [andb]. rewrite (proj2 He).
  destruct (decide (length suf <= length b)%nat) as [Hle|Hgt].
  - rewrite <- Nat2Z.inj_sub by done. rewrite (part_matches_spec _ _ _ b) by (done || (fold suf; lia)). fold suf.
    f_equal. apply eq_bool_prop_intro. rewrite orb_True, !bool_decide_spec.
    rewrite take_ge by (rewrite length_drop; lia). split.
    + intros [-> | ->]; [apply suffix_drop|apply suffix_nil].
    + intros [k ->]. left. rewrite length_app, Nat.add_sub, drop_app_length. done.
  - unfold part_matches. fold suf. rewrite (proj2 He), (proj2 (Z.eqb_neq _ _)), (proj2 (Z.ltb_lt _ _)) by lia.
    rewrite bool_decide_eq_false_2; [done|]. intros Hs%suffix_length. lia.
Qed.

Lemma wanted_entry_ok h e b :
  name_ok (directory_map (it_archive h)) e b -> wanted_entry h e = wanted h b.
Proof. intros [Hb _]. unfold wanted_entry. by rewrite Hb. Qed.

(** The entries from slot [i] on that the iteration will give. *)
Definition ahead (h : IterationHandle) (table : name_table) (i : nat) : list ZipEntryName :=
  filter (fun e => wanted_entry h e = true) (held (drop i table)).

Lemma ahead_step h table i s :
  table !! i = Some s ->
  ahead h table i = match s with
    | Some e => if wanted_entry h e then e :: ahead h table (S i) else ahead h table (S i)
    | None => ahead h table (S i) end.
Proof.
  intros Hi. unfold ahead. rewrite (drop_S _ _ _ Hi), held_cons. destruct s as [e|]; [|done].
  destruct (wanted_entry h e) eqn:E; [by rewrite filter_cons_True|rewrite filter_cons_False; congruence].
Qed.

Lemma next_slot_spec h table es :
  archive_ok (it_archive h) table es ->
  forall fuel i, (i <= length table)%nat -> (length table - i <= fuel)%nat ->
  (ahead h table i = [] /\ next_slot fuel h table (Z.of_nat (length table)) (Z.of_nat i) = Ok None) \/
  exists j e, (i <= j)%nat /\ table !! j = Some (Some e) /\ ahead h table i = e :: ahead h table (S j) /\
    next_slot fuel h table (Z.of_nat (length table)) (Z.of_nat i) = Ok (Some (Z.of_nat j, e)).
Proof.
  intros Ha. induction fuel as [|fuel IH]; intros i Hi Hf; cbn [next_slot].
  - rewrite (proj2 (Z.ltb_ge _ _)) by lia. left. unfold ahead. by rewrite drop_ge by lia.
  - destruct (Z.ltb_spec (Z.of_nat i) (Z.of_nat (length table))) as [Hlt|Hge];
      [|left; unfold ahead; by rewrite drop_ge by lia].
    rewrite Nat2Z.id. destruct (lookup_lt_is_Some_2 table i) as [s Es]; [lia|]. rewrite Es.
    replace (Z.of_nat i + 1) with (Z.of_nat (S i)) by lia.
    rewrite (ahead_step _ _ _ _ Es). destruct s as [e|].
    + destruct (held_entry _ _ _ _ _ Ha Es) as (off & c & b & Hat). pose proof (ea_bytes _ _ _ _ _ Hat) as Hb.
      rewrite (entry_matches_spec _ _ _ Hb), (wanted_entry_ok _ _ _ Hb). cbn [obind].
      destruct (wanted h b); [right; by exists i, e|].
      destruct (IH (S i)) as [?|(j & e' & ? & ?)]; [lia..|by left|right]. exists j, e'. split; [lia|done].
    + destruct (IH (S i)) as [?|(j & e' & ? & ?)]; [lia..|by left|right]. exists j, e'. split; [lia|done].
Qed.

(** A client that calls [Next] until the iteration ends, with the result and the
    name of every call. *)
Fixpoint iterate (fuel : nat) (cookie : option IterationHandle) (data : ZipEntry) (nm : ZipEntryName)
  : M proc (list (Z * ZipEntryName)) :=
  match fuel with
  | O => no_fuel
  | S fuel =>
    let! (r, cookie, data, nm) := Next cookie data nm in
    if r =? kIterationEnd then ret []
    else let! rest := iterate fuel cookie data nm in ret ((r, nm) :: rest)
  end.

(** The codes of [FindEntry] are not that of the end of the iteration. *)
Lemma FindEntry_at_code a ent data (p : proc) :
  match FindEntry_at a ent data p with Ok ((r, _), _) => r <> kIterationEnd | _ => True end.
Proof.
  unfold FindEntry_at. destruct (_ !! _) as [[[[off|] len]|]|]; cbn [name]; try done.
  destruct (_ || _); [done|]. unfold bind at 1, lift.
  destruct (map_read_cases (directory_map a) (off - CDR_SIZE) CDR_SIZE) as [->|(bs & ->)]; [done|].
  cbn [obind fst snd]. destruct (_ <=? _); [done|].
  destruct (into_any true LFH_SIZE (sys_pread (za_fd a) LFH_SIZE (local_file_header_offset (cdr_at bs))) p)
    as ([actual buf] & p1 & E). erewrite bind_Ok by apply E. cbn beta iota.
  destruct (negb _); [done|]. destruct (negb _); [done|]. unfold check_local_header.
  destruct (_ && _); [done|]. destruct (_ =? _); [|done]. destruct (_ <? _); [done|].
  unfold check_name. destruct (sys_any (sys_alloc len) p1) as (ok & p2 & E2). erewrite bind_Ok by apply E2. cbn beta iota.
  destruct (into_any ok len (sys_pread (za_fd a) len (local_file_header_offset (cdr_at bs) + LFH_SIZE)) p2)
    as ([act nb] & p3 & E3). erewrite bind_Ok by apply E3. cbn beta iota. destruct (negb _); [done|].
  unfold bind, lift, name_bytes, mem_read. cbn [name name_length]. destruct (_ <=? _); [|done].
  cbn [obind fst snd]. destruct (bool_decide _); [|done]. unfold ret, check_extent.
  destruct (_ <? _); [done|]. destruct (_ <? _); [done|]. by destruct (_ && _).
Qed.

Lemma Next_spec h table es data nm (p : proc) :
  archive_ok (it_archive h) table es -> 0 <= position h <= hash_table_size (it_archive h) ->
  let i := Z.to_nat (position h) in
  (ahead h table i = [] /\ Next (Some h) data nm p = Ok (kIterationEnd, Some (set_position h 0), data, nm, p)) \/
  exists j e r d nm' p', table !! j = Some (Some e) /\ ahead h table i = e :: ahead h table (S j) /\
    Next (Some h) data nm p = Ok (r, Some (set_position h (Z.of_nat (S j))), d, nm', p') /\
    r <> kIterationEnd /\ (r = 0 -> nm' = e /\ exists off c b, entry_at (it_archive h) e off c b /\
      described c d /\ in_front (it_archive h) c d).
Proof.
  intros Ha Hpos i. pose proof (table_size_bound _ _ _ Ha) as [Hsz Hlt].
  remember (Next (Some h) data nm p) as o eqn:Eo.
  unfold Next in Eo. rewrite (ao_table _ _ _ Ha) in Eo. unfold bind at 1, lift in Eo. rewrite <- Hlt in *.
  rewrite <- (Z2Nat.id (position h)) in Eo by lia. fold i in Eo. revert Eo.
  destruct (next_slot_spec h table es Ha (Z.to_nat (Z.of_nat (length table) - Z.of_nat i)) i)
    as [(Hnil & ->)|(j & e & Hj & Hje & Hah & ->)]; [lia..|intros ->; by left|]; cbn [obind fst snd].
  pose proof (lookup_lt_Some _ _ _ Hje) as Hjlt. rewrite i32_small by lia. intros ->. right.
  destruct (held_entry _ _ _ _ _ Ha Hje) as (off & c & b & Hat).
  destruct (FindEntry_at_found _ _ _ _ _ _ _ _ data p Ha Hje Hat) as ([r d] & p' & E & Hf).
  pose proof (FindEntry_at_code (it_archive h) (Z.of_nat j) data p) as Hc. rewrite E in Hc.
  exists j, e, r, d, (if r =? 0 then e else nm), p'.
  erewrite bind_Ok by apply E. replace (Z.of_nat j + 1) with (Z.of_nat (S j)) by lia.
  do 4 (split; [done|]). intros ->. split; [done|]. destruct (Hf eq_refl). eauto 7.
Qed.

(** Every call gives one of the entries that are left, in the order of the
    table; the call after the last gives the end. *)
Lemma iterate_ahead : forall n h table es data nm (p : proc),
  archive_ok (it_archive h) table es -> 0 <= position h <= hash_table_size (it_archive h) ->
  length (ahead h table (Z.to_nat (position h))) = n ->
  returns (fun l => Forall2 (fun e r => r.1 <> kIterationEnd /\ (r.1 = 0 -> r.2 = e))
             (ahead h table (Z.to_nat (position h))) l)
    (iterate (S n) (Some h) data nm p).
Proof.
  induction n as [|n IH]; intros h table es data nm p Ha Hpos Hn.
  - change (iterate 1 (Some h) data nm) with
      (let! (r, cookie, data, nm) := Next (Some h) data nm in
       if r =? kIterationEnd then ret [] else let! rest := iterate 0 cookie data nm in ret ((r, nm) :: rest)).
    destruct (Next_spec h table es data nm p Ha Hpos) as [[Hnil E]|(j & e & r & d & nm' & p' & _ & Hah & _)].
    + erewrite bind_Ok by apply E. cbn. rewrite Hnil. apply returns_ret. constructor.
    + rewrite Hah in Hn. done.
  - change (iterate (S (S n)) (Some h) data nm) with
      (let! (r, cookie, data, nm) := Next (Some h) data nm in
       if r =? kIterationEnd then ret [] else let! rest := iterate (S n) cookie data nm in ret ((r, nm) :: rest)).
    destruct (Next_spec h table es data nm p Ha Hpos)
      as [[Hnil E]|(j & e & r & d & nm' & p' & Hj & Hah & E & Hr & Hr0)]; [by rewrite Hnil in Hn|].
    erewrite bind_Ok by apply E. cbn beta iota. rewrite (proj2 (Z.eqb_neq _ _)) by done.
    pose proof (lookup_lt_Some _ _ _ Hj). pose proof (table_size_bound _ _ _ Ha) as [Hsz Hlt].
    set (h' := set_position h (Z.of_nat (S j))).
    assert (ahead h' table (Z.to_nat (position h')) = ahead h table (S j)) as Eh.
    { unfold h'. cbn [position set_position]. by rewrite Nat2Z.id. }
    rewrite Hah in Hn |- *. simpl in Hn.
    eapply returns_bind; [apply (IH h' table es d nm' p'); [done|cbn; lia|rewrite Eh; lia]|].
    intros l p2 Hl. apply returns_ret. rewrite Eh in Hl. constructor; [|done]. split; [done|]. intros. by apply Hr0.
Qed.
End Find.
