(* ===== verification/ZipFormat.v ===== *)
(** * The zip format

    An archive as a list of entries laid out in a file: local headers with
    names, extra fields and data, then the central directory, then the end
    record and the comment.  [ZipFile] is what the code relies on of a kernel
    that reads and maps regular files with enough memory. *)

From S2P Require Import Prelude BackedBlock Crc32 OutputFile Sparse SparseRead ZipArchive.
From S2P Require Import Unicode UnicodeProps ZipName ZipTable ZipParse ZipFind.

#[local] Open Scope Z_scope.
#[local] Open Scope c_scope.

(** ** Structs *)

Definition eocd_bytes (r : EocdRecord) : list byte :=
  le 4 (eocd_signature r) ++ le 2 (disk_num r) ++ le 2 (cd_start_disk r) ++ le 2 (num_records_on_disk r) ++
  le 2 (num_records r) ++ le 4 (cd_size r) ++ le 4 (cd_start_offset r) ++ le 2 (eocd_comment_length r).

Definition cdr_bytes (c : CentralDirectoryRecord) : list byte :=
  le 4 (record_signature c) ++ le 2 (version_made_by c) ++ le 2 (version_needed c) ++ le 2 (gpb_flags c) ++
  le 2 (compression_method c) ++ le 2 (last_mod_time c) ++ le 2 (last_mod_date c) ++ le 4 (cdr_crc32 c) ++
  le 4 (compressed_size c) ++ le 4 (uncompressed_size c) ++ le 2 (file_name_length c) ++
  le 2 (extra_field_length c) ++ le 2 (comment_length c) ++ le 2 (file_start_disk c) ++
  le 2 (internal_file_attributes c) ++ le 4 (external_file_attributes c) ++ le 4 (local_file_header_offset c).

Definition lfh_bytes (h : LocalFileHeader) : list byte :=
  le 4 (lfh_signature h) ++ le 2 (lfh_version_needed h) ++ le 2 (lfh_gpb_flags h) ++
  le 2 (lfh_compression_method h) ++ le 2 (lfh_last_mod_time h) ++ le 2 (lfh_last_mod_date h) ++
  le 4 (lfh_crc32 h) ++ le 4 (lfh_compressed_size h) ++ le 4 (lfh_uncompressed_size h) ++
  le 2 (lfh_file_name_length h) ++ le 2 (lfh_extra_field_length h).

(** The integers of a struct fit their fields. *)
Definition u16_ok (z : Z) : Prop := 0 <= z < 2 ^ 16.
Definition u32_ok (z : Z) : Prop := 0 <= z < 2 ^ 32.

(** A field of a list of encoded fields. *)
Ltac field_simp :=
  rewrite <- ?(assoc_L (++));
  repeat (rewrite field_skip by lia; cbn [Nat.sub]);
  first [rewrite field_here by (unfold u16_ok, u32_ok in *; lia)
        | rewrite <- (app_nil_r (le _ _)), field_here by (unfold u16_ok, u32_ok in *; lia)];
  reflexivity.

Definition eocd_ok (r : EocdRecord) : Prop :=
  u32_ok (eocd_signature r) /\ u16_ok (disk_num r) /\ u16_ok (cd_start_disk r) /\
  u16_ok (num_records_on_disk r) /\ u16_ok (num_records r) /\ u32_ok (cd_size r) /\
  u32_ok (cd_start_offset r) /\ u16_ok (eocd_comment_length r).

Definition cdr_ok (c : CentralDirectoryRecord) : Prop :=
  u32_ok (record_signature c) /\ u16_ok (version_made_by c) /\ u16_ok (version_needed c) /\
  u16_ok (gpb_flags c) /\ u16_ok (compression_method c) /\ u16_ok (last_mod_time c) /\
  u16_ok (last_mod_date c) /\ u32_ok (cdr_crc32 c) /\ u32_ok (compressed_size c) /\
  u32_ok (uncompressed_size c) /\ u16_ok (file_name_length c) /\ u16_ok (extra_field_length c) /\
  u16_ok (comment_length c) /\ u16_ok (file_start_disk c) /\ u16_ok (internal_file_attributes c) /\
  u32_ok (external_file_attributes c) /\ u32_ok (local_file_header_offset c).

Definition lfh_ok (h : LocalFileHeader) : Prop :=
  u32_ok (lfh_signature h) /\ u16_ok (lfh_version_needed h) /\ u16_ok (lfh_gpb_flags h) /\
  u16_ok (lfh_compression_method h) /\ u16_ok (lfh_last_mod_time h) /\ u16_ok (lfh_last_mod_date h) /\
  u32_ok (lfh_crc32 h) /\ u32_ok (lfh_compressed_size h) /\ u32_ok (lfh_uncompressed_size h) /\
  u16_ok (lfh_file_name_length h) /\ u16_ok (lfh_extra_field_length h).

Lemma eocd_at_bytes r l : eocd_ok r -> eocd_at (eocd_bytes r ++ l) = r.
Proof.
  destruct r as [a b c d e f g h]. intros (?&?&?&?&?&?&?&?). unfold eocd_at, eocd_bytes.
  cbn [eocd_signature disk_num cd_start_disk num_records_on_disk num_records cd_size cd_start_offset
    eocd_comment_length] in *. f_equal; field_simp.
Qed.

Lemma cdr_at_bytes c l : cdr_ok c -> cdr_at (cdr_bytes c ++ l) = c.
Proof.
  destruct c. intros (?&?&?&?&?&?&?&?&?&?&?&?&?&?&?&?&?). unfold cdr_at, cdr_bytes.
  cbn in *. f_equal; field_simp.
Qed.

Lemma lfh_at_bytes h l : lfh_ok h -> lfh_at (lfh_bytes h ++ l) = h.
Proof.
  destruct h. intros (?&?&?&?&?&?&?&?&?&?&?). unfold lfh_at, lfh_bytes. cbn in *. f_equal; field_simp.
Qed.

Lemma length_cdr_bytes c : length (cdr_bytes c) = 46%nat.
Proof. unfold cdr_bytes. by rewrite !length_app, !length_le. Qed.

Lemma length_lfh_bytes h : length (lfh_bytes h) = 30%nat.
Proof. unfold lfh_bytes. by rewrite !length_app, !length_le. Qed.

Lemma length_eocd_bytes r : length (eocd_bytes r) = 22%nat.
Proof. unfold eocd_bytes. by rewrite !length_app, !length_le. Qed.

(** ** Archives *)

(** An entry: its name, its data as stored, what is said of the data, and the
    fields the code ignores. *)
Record zent : Type := ZEnt {
  z_name : list byte;
  z_data : list byte;
  z_method : Z;
  z_crc : Z;
  z_usize : Z;
  z_time : Z;
  z_date : Z;
  z_flags : Z;
  z_extra : list byte;
  z_cextra : list byte;
  z_comment : list byte;
  z_made : Z;
  z_needed : Z;
  z_attrs : Z
}.

Definition lfh_of (e : zent) : LocalFileHeader :=
  Build_LocalFileHeader LFH_kSignature (z_needed e) (z_flags e) (z_method e) (z_time e) (z_date e) (z_crc e)
    (Z.of_nat (length (z_data e))) (z_usize e) (Z.of_nat (length (z_name e))) (Z.of_nat (length (z_extra e))).

Definition cdr_of (off : Z) (e : zent) : CentralDirectoryRecord :=
  Build_CentralDirectoryRecord CDR_kSignature (z_made e) (z_needed e) (z_flags e) (z_method e) (z_time e)
    (z_date e) (z_crc e) (Z.of_nat (length (z_data e))) (z_usize e) (Z.of_nat (length (z_name e)))
    (Z.of_nat (length (z_cextra e))) (Z.of_nat (length (z_comment e))) 0 0 (z_attrs e) off.

Definition local_bytes (e : zent) : list byte :=
  lfh_bytes (lfh_of e) ++ z_name e ++ z_extra e ++ z_data e.

Definition central_bytes (off : Z) (e : zent) : list byte :=
  cdr_bytes (cdr_of off e) ++ z_name e ++ z_cextra e ++ z_comment e.

Definition locals (es : list zent) : list byte := es ≫= local_bytes.

Fixpoint centrals (off : Z) (es : list zent) : list byte :=
  match es with
  | [] => []
  | e :: es => central_bytes off e ++ centrals (off + Z.of_nat (length (local_bytes e))) es
  end.

Definition eocd_of (es : list zent) (comment : list byte) : EocdRecord :=
  Build_EocdRecord EOCD_kSignature 0 0 (Z.of_nat (length es)) (Z.of_nat (length es))
    (Z.of_nat (length (centrals 0 es))) (Z.of_nat (length (locals es))) (Z.of_nat (length comment)).

Definition zip_image (es : list zent) (comment : list byte) : list byte :=
  locals es ++ centrals 0 es ++ eocd_bytes (eocd_of es comment) ++ comment.

(** An entry in the format; [FindEntry] refuses empty names, and the sizes of a
    stored entry are the same. *)
Record zent_ok (e : zent) : Prop := {
  zo_name : wf_name (byte.unsigned <$> z_name e);
  zo_nonempty : z_name e <> [];
  zo_nlen : u16_ok (Z.of_nat (length (z_name e)));
  zo_data : u32_ok (Z.of_nat (length (z_data e)));
  zo_method : u16_ok (z_method e);
  zo_crc : u32_ok (z_crc e);
  zo_usize : u32_ok (z_usize e);
  zo_stored : z_method e = kCompressStored -> z_usize e = Z.of_nat (length (z_data e));
  zo_time : u16_ok (z_time e);
  zo_date : u16_ok (z_date e);
  zo_flags : u16_ok (z_flags e);
  zo_no_dd : Z.land (z_flags e) kGPBDDFlagMask = 0;
  zo_extra : u16_ok (Z.of_nat (length (z_extra e)));
  zo_cextra : u16_ok (Z.of_nat (length (z_cextra e)));
  zo_comment : u16_ok (Z.of_nat (length (z_comment e)));
  zo_made : u16_ok (z_made e);
  zo_needed : u16_ok (z_needed e);
  zo_attrs : u32_ok (z_attrs e)
}.

(** An archive in the format.  The end record is the last place that looks like
    one: a comment that contains its signature hides it. *)
Record zip_ok (es : list zent) (comment : list byte) : Prop := {
  zk_entries : Forall zent_ok es;
  zk_some : es <> [];
  zk_count : Z.of_nat (length es) < 2 ^ 16;
  zk_names : NoDup (z_name <$> es);
  zk_comment : Z.of_nat (length comment) < 2 ^ 16;
  zk_size : Z.of_nat (length (zip_image es comment)) < 2 ^ 32;
  zk_last : forall i, (0 < i <= length comment)%nat ->
    eocd_magic_at (eocd_bytes (eocd_of es comment) ++ comment) i = false
}.

(** ** Regular files

    [zf_content] is the file of a descriptor, [zf_pos] its offset.  Reads are
    cut short only by the end of the file, a mapping of bytes of the file
    succeeds and shows them, and there is enough memory. *)

Class ZipFile (K : Type) `{ReadKernel K} `{ZipKernel K} : Type := {
  zf_content : Z -> K -> list byte;
  zf_pos : Z -> K -> Z;
  zf_page : Z;
  zf_page_range : 0 < zf_page < 2 ^ 31;
  zf_pagesize : forall k, sys_sysconf_pagesize k = (zf_page, k);
  zf_read : forall fd count k, 0 <= count -> 0 <= zf_pos fd k ->
    let data := take (Z.to_nat count) (drop (Z.to_nat (zf_pos fd k)) (zf_content fd k)) in
    exists k', sys_read fd count k = ((Z.of_nat (length data), data), k') /\
      (forall fd', zf_content fd' k' = zf_content fd' k) /\
      (forall fd', fd' <> fd -> zf_pos fd' k' = zf_pos fd' k) /\
      zf_pos fd k' = zf_pos fd k + Z.of_nat (length data);
  zf_pread : forall fd count off k, 0 <= count -> 0 <= off ->
    let data := take (Z.to_nat count) (drop (Z.to_nat off) (zf_content fd k)) in
    sys_pread fd count off k = ((Z.of_nat (length data), data), k);
  zf_seek_set : forall fd off k, 0 <= off < 2 ^ 63 ->
    exists k', sys_lseek fd off SEEK_SET k = (off, k') /\
      (forall fd', zf_content fd' k' = zf_content fd' k) /\
      (forall fd', fd' <> fd -> zf_pos fd' k' = zf_pos fd' k) /\ zf_pos fd k' = off;
  zf_seek_end : forall fd k, exists k', sys_lseek fd 0 SEEK_END k = (Z.of_nat (length (zf_content fd k)), k') /\
      (forall fd', zf_content fd' k' = zf_content fd' k);
  zf_mmap : forall fd len off k, 0 < len -> 0 <= off -> off mod zf_page = 0 ->
    off + len <= Z.of_nat (length (zf_content fd k)) ->
    exists rest k', sys_mmap len fd off k = (Some (take (Z.to_nat len) (drop (Z.to_nat off) (zf_content fd k)) ++ rest), k') /\
      (forall fd', zf_content fd' k' = zf_content fd' k);
  zf_alloc : forall n k, 0 <= n < 2 ^ 32 -> sys_alloc n k = (true, k)
}.
