(* ===== verification/ZipRoundTrip.v ===== *)
(** * Archives in the format are opened and searched

    Over a kernel with regular files ([ZipFile]) an archive that is laid out as
    [zip_image] says is opened, and each of its entries is found with the
    offset and the sizes of its data. *)

From S2P Require Import Prelude BackedBlock Crc32 OutputFile Sparse SparseRead ZipArchive.
From S2P Require Import Unicode UnicodeProps ZipName ZipTable ZipParse ZipFind ZipFormat.

#[local] Open Scope Z_scope.
#[local] Open Scope c_scope.

(** ** Layout *)

Lemma locals_app es1 es2 : locals (es1 ++ es2) = locals es1 ++ locals es2.
Proof. apply bind_app. Qed.

Lemma locals_cons e es : locals (e :: es) = local_bytes e ++ locals es.
Proof. done. Qed.

Lemma centrals_app off es1 es2 :
  centrals off (es1 ++ es2) = centrals off es1 ++ centrals (off + Z.of_nat (length (locals es1))) es2.
Proof.
  revert off. induction es1 as [|e es1 IH]; intros off; [by rewrite Z.add_0_r|].
  cbn [centrals app]. rewrite IH, locals_cons, length_app, <- app_assoc. do 3 f_equal. lia.
Qed.

Lemma length_local_bytes e :
  length (local_bytes e) = (30 + length (z_name e) + length (z_extra e) + length (z_data e))%nat.
Proof. unfold local_bytes. rewrite !length_app, length_lfh_bytes. lia. Qed.

Lemma length_central_bytes off e :
  length (central_bytes off e) = (46 + length (z_name e) + length (z_cextra e) + length (z_comment e))%nat.
Proof. unfold central_bytes. rewrite !length_app, length_cdr_bytes. lia. Qed.

Lemma length_zip_image es comment :
  length (zip_image es comment) =
    (length (locals es) + length (centrals 0 es) + 22 + length comment)%nat.
Proof. unfold zip_image. rewrite !length_app, length_eocd_bytes. lia. Qed.

Lemma zent_cdr_ok e off : zent_ok e -> u32_ok off -> cdr_ok (cdr_of off e).
Proof. intros [] Ho. unfold cdr_ok, cdr_of. cbn. split_and!; done. Qed.

Lemma zent_lfh_ok e : zent_ok e -> lfh_ok (lfh_of e).
Proof. intros []. unfold lfh_ok, lfh_of. cbn. split_and!; done. Qed.

Lemma eocd_of_ok es comment : zip_ok es comment -> eocd_ok (eocd_of es comment).
Proof.
  intros [_ _ Hc _ Hm Hs _]. rewrite length_zip_image in Hs. unfold eocd_ok, eocd_of, u16_ok, u32_ok.
  cbn [eocd_signature disk_num cd_start_disk num_records_on_disk num_records cd_size cd_start_offset
    eocd_comment_length]. unfold EOCD_kSignature. lia.
Qed.

(** ** The end record *)

Lemma find_eocd_at s i j :
  (j <= i)%nat -> eocd_magic_at s j = true -> (forall j', (j < j' <= i)%nat -> eocd_magic_at s j' = false) ->
  find_eocd s i = Some j.
Proof.
  intros Hj Ht. induction i as [|i IH]; intros Hf; cbn [find_eocd].
  - assert (j = 0%nat) as -> by lia. by rewrite Ht.
  - destruct (decide (j = S i)) as [->|]; [by rewrite Ht|]. rewrite (Hf (S i)) by lia.
    apply IH; [lia|]. intros; apply Hf; lia.
Qed.

Lemma eocd_magic_at_app pre s i : eocd_magic_at (pre ++ s) (length pre + i) = eocd_magic_at s i.
Proof.
  unfold eocd_magic_at, field. rewrite lookup_app_r by lia. rewrite Nat.add_comm, Nat.add_sub.
  destruct (s !! i); [|done]. rewrite Nat.add_comm, <- drop_drop, drop_app_length. done.
Qed.

Lemma eocd_magic_here es comment l : eocd_magic_at (eocd_bytes (eocd_of es comment) ++ l) 0 = true.
Proof. reflexivity. Qed.

(** The last [n] bytes of the image, with room for the record and the comment. *)
Lemma find_eocd_image es comment pre :
  zip_ok es comment ->
  find_eocd (pre ++ eocd_bytes (eocd_of es comment) ++ comment) (length pre + length comment) = Some (length pre).
Proof.
  intros Hz. apply find_eocd_at; [lia| |].
  - rewrite <- (Nat.add_0_r (length pre)). rewrite eocd_magic_at_app. apply eocd_magic_here.
  - intros j' Hj. replace j' with (length pre + (j' - length pre))%nat by lia.
    rewrite eocd_magic_at_app. apply (zk_last _ _ Hz). lia.
Qed.

Lemma image_tail es comment n :
  (n <= length (locals es) + length (centrals 0 es))%nat ->
  exists pre, drop n (zip_image es comment) = pre ++ eocd_bytes (eocd_of es comment) ++ comment /\
    (length pre + n = length (locals es) + length (centrals 0 es))%nat.
Proof.
  intros Hn. exists (drop n (locals es ++ centrals 0 es)). unfold zip_image. rewrite (app_assoc (locals es)).
  rewrite drop_app_le by (rewrite length_app; lia). split; [done|]. rewrite length_drop, length_app. lia.
Qed.

Lemma centrals_pos es comment : zip_ok es comment -> (0 < length (centrals 0 es))%nat.
Proof.
  intros [_ Hne _ _ _ _ _]. destruct es as [|e es]; [done|]. cbn [centrals].
  rewrite length_app, length_central_bytes. lia.
Qed.

(** ** Opening *)

Section Open.
Context {K : Type} `{HF : ZipFile K}.
Notation proc := (process K).

Definition page_ok (p : proc) : Prop := mPageSize p = -1 \/ mPageSize p = zf_page.

(** The files and the page size are kept. *)
Definition keeps (p p' : proc) : Prop :=
  (forall fd, zf_content fd (proc_sys p') = zf_content fd (proc_sys p)) /\ (page_ok p -> page_ok p').

#[export] Instance keeps_preorder : PreOrder keeps.
Proof.
  split; [by split|]. intros p q r [H1 H2] [H3 H4]. split; [|by auto].
  intros fd. by rewrite H3, H1.
Qed.

(** The mapping of [len] bytes at [off] of the file [c]. *)
Definition maps (m : FileMap) (c : list byte) (off len : Z) : Prop :=
  mDataLength m = len /\
  exists rest, forall o, 0 <= o ->
    map_from m o = drop (Z.to_nat o) (take (Z.to_nat len) (drop (Z.to_nat off) c) ++ rest).

Lemma map_adjust (c rest : list byte) off adj len o :
  0 <= adj <= off -> 0 <= len -> 0 <= o -> off + len <= Z.of_nat (length c) ->
  drop (Z.to_nat (adj + o)) (take (Z.to_nat (len + adj)) (drop (Z.to_nat (off - adj)) c) ++ rest) =
  drop (Z.to_nat o) (take (Z.to_nat len) (drop (Z.to_nat off) c) ++ rest).
Proof.
  intros Ha Hl Ho Hc. rewrite Z2Nat.inj_add, <- drop_drop by lia. f_equal.
  rewrite drop_app_le by (rewrite length_take, length_drop; lia). f_equal.
  rewrite skipn_firstn_comm, drop_drop. f_equal; [lia|]. f_equal. lia.
Qed.

Lemma page_size_ok p :
  page_ok p -> exists p', page_size p = Ok (zf_page, p') /\ proc_sys p' = proc_sys p /\ keeps p p'.
Proof.
  pose proof zf_page_range. intros Hp. unfold page_size, bind, gets. cbn [obind fst snd].
  destruct Hp as [E|E]; rewrite E; [cbn|rewrite (proj2 (Z.eqb_neq _ _)) by lia].
  - unfold sys. rewrite zf_pagesize. eexists. split; [done|]. split; [done|]. split; [done|]. by right.
  - by exists p.
Qed.

Lemma FileMap_create_maps m fd off len p :
  0 <= fd -> 0 <= off < 2 ^ 32 -> 0 < len < 2 ^ 32 -> page_ok p ->
  off + len <= Z.of_nat (length (zf_content fd (proc_sys p))) ->
  exists m' p', FileMap_create m fd off len p = Ok ((true, m'), p') /\ keeps p p' /\
    maps m' (zf_content fd (proc_sys p)) off len.
Proof.
  intros Hfd Hoff Hlen Hpage Hc. pose proof zf_page_range as Hpr. unfold FileMap_create.
  rewrite (proj2 (Z.leb_le 0 fd)), (proj2 (Z.leb_le 0 off)), (proj2 (Z.ltb_lt 0 len)) by lia.
  destruct (page_size_ok p Hpage) as (p1 & E1 & Ek & Hk).
  do 3 (erewrite bind_Ok by done). erewrite bind_Ok by apply E1.
  rewrite (proj2 (Z.eqb_neq _ _)) by lia. erewrite bind_Ok by (apply divisor_ok; lia).
  rewrite Z.rem_mod_nonneg by lia. pose proof (Z.mod_pos_bound off _ (proj1 Hpr)) as Hm.
  pose proof (Z.mod_le off _ (proj1 Hoff) (proj1 Hpr)) as Hle.
  assert (H0m : (off - off mod zf_page) mod zf_page = 0) by (rewrite Zminus_mod_idemp_r, Z.sub_diag; apply Z.mod_0_l; lia).
  revert Hm Hle H0m. generalize (off mod zf_page). intros adj Hm Hle H0m.
  rewrite i32_small, u64_small by lia.
  destruct (zf_mmap fd (len + adj) (off - adj) (proc_sys p1)) as (rest & k' & E & Hs);
    [lia|lia|done|rewrite Ek; lia|].
  unfold bind at 1, sys. rewrite E. cbn [obind fst snd]. eexists _, _. split; [done|]. split.
  - split; cbn [proc_sys]; [intros; rewrite Hs, Ek; done|]. intros Hp. by destruct (proj2 Hk Hp); [left|right].
  - split; [done|]. exists rest. intros o Ho. unfold map_from. cbn [mBasePtr mDataPtr].
    rewrite (proj2 (Z.leb_le _ _)) by lia. rewrite Ek. by apply map_adjust; lia.
Qed.
Lemma sys_ok {A} (f : K -> A * K) p a k' :
  f (proc_sys p) = (a, k') -> sys f p = Ok (a, Process (mPageSize p) k').
Proof. intros E. unfold sys. by rewrite E. Qed.

Lemma keeps_sys p k' :
  (forall fd, zf_content fd k' = zf_content fd (proc_sys p)) -> keeps p (Process (mPageSize p) k').
Proof. intros Hk. by split. Qed.

(** Reading the end of the file, from [start] on. *)
Lemma seek_read fd start len p :
  0 <= start < 2 ^ 63 -> 0 < len -> start + len = Z.of_nat (length (zf_content fd (proc_sys p))) ->
  exists p1 p2, sys (sys_lseek fd start SEEK_SET) p = Ok (start, p1) /\
    into true len (sys_read fd len) p1 = Ok ((len, drop (Z.to_nat start) (zf_content fd (proc_sys p))), p2) /\
    keeps p p2.
Proof.
  intros Hs Hl Hc. destruct (zf_seek_set fd start (proc_sys p) Hs) as (k1 & E1 & S1 & _ & P1).
  destruct (zf_read fd len k1) as (k2 & E2 & S2 & _); [lia|lia|].
  rewrite P1, S1, (take_ge (drop _ _)), length_drop in E2 by (rewrite length_drop; lia).
  eexists _, _. split; [by apply sys_ok|]. split.
  - unfold into. cbn [orb]. erewrite sys_ok by apply E2. repeat f_equal. lia.
  - apply (transitivity (keeps_sys _ _ S1)). apply (keeps_sys (Process (mPageSize p) k1)). cbn. congruence.
Qed.

Lemma sys_alloc_ok n p : 0 <= n < 2 ^ 32 -> sys (sys_alloc n) p = Ok (true, p).
Proof. intros Hn. erewrite sys_ok by (by apply zf_alloc). by destruct p. Qed.

(** The directory of an archive in the format. *)
Lemma MapCentralDirectory_image fd a p es comment :
  zip_ok es comment -> zf_content fd (proc_sys p) = zip_image es comment -> 0 <= fd -> page_ok p ->
  exists m p', MapCentralDirectory fd a p =
      Ok ((0, set_directory a (Z.of_nat (length (locals es))) m (Z.of_nat (length es))), p') /\
    keeps p p' /\ maps m (zip_image es comment) (Z.of_nat (length (locals es))) (Z.of_nat (length (centrals 0 es))).
Proof.
  intros Hz Hc Hfd Hp. pose proof (zk_size _ _ Hz) as Hsize. pose proof (length_zip_image es comment) as Hlen.
  pose proof (zk_comment _ _ Hz) as Hcl. set (L := Z.of_nat (length (zip_image es comment))) in *.
  destruct (zf_seek_end fd (proc_sys p)) as (k0 & E0 & S0). rewrite Hc in E0. fold L in E0.
  unfold MapCentralDirectory. erewrite bind_Ok by (by apply sys_ok).
  rewrite (proj2 (Z.eqb_neq _ _)), (proj2 (Z.ltb_ge _ L)), (proj2 (Z.ltb_ge L EOCD_SIZE)) by (unfold EOCD_SIZE; lia).
  set (R := if L <? kMaxEOCDSearch then L else kMaxEOCDSearch).
  assert (HR : Z.of_nat (22 + length comment) <= R <= L /\ R < 2 ^ 32).
  { unfold R, kMaxEOCDSearch, kMaxCommentLen, EOCD_SIZE. destruct (Z.ltb_spec L (65535 + 22)); lia. }
  erewrite bind_Ok by (apply sys_alloc_ok; lia). unfold MapCentralDirectory0.
  destruct (seek_read fd (L - R) R (Process (mPageSize p) k0)) as (p1 & p2 & E1 & E2 & K2);
    [lia|lia|cbn; rewrite S0, Hc; fold L; lia|].
  cbn [proc_sys] in E2. rewrite S0, Hc in E2.
  erewrite bind_Ok by apply E1. rewrite Z.eqb_refl. cbn [negb].
  erewrite bind_Ok by apply E2. cbn beta iota. rewrite Z.eqb_refl. cbn [negb].
  destruct (image_tail es comment (Z.to_nat (L - R))) as (pre & -> & Hpre); [lia|].
  replace (Z.to_nat (R - EOCD_SIZE)) with (length pre + length comment)%nat by (unfold EOCD_SIZE; lia).
  rewrite (find_eocd_image _ _ _ Hz), drop_app_length, (eocd_at_bytes _ _ (eocd_of_ok _ _ Hz)).
  cbn [eocd_of eocd_comment_length cd_start_offset cd_size num_records].
  replace (L - R + Z.of_nat (length pre)) with (Z.of_nat (length (locals es)) + Z.of_nat (length (centrals 0 es))) by lia.
  rewrite i64_small, u32_small by (unfold EOCD_SIZE; lia).
  rewrite (proj2 (Z.eqb_eq _ L)) by (unfold EOCD_SIZE; lia). cbn [negb]. rewrite Z.ltb_irrefl.
  pose proof (centrals_pos _ _ Hz) as Hcp.
  rewrite (proj2 (Z.eqb_neq _ _)) by (destruct es; [by destruct (zk_some _ _ Hz)|cbn; lia]).
  assert (K1 : keeps p p2) by (etransitivity; [by apply keeps_sys|done]).
  destruct (FileMap_create_maps (directory_map a) fd (Z.of_nat (length (locals es)))
    (Z.of_nat (length (centrals 0 es))) p2) as (m & p3 & E3 & K3 & Hm);
    [done|lia|lia|by apply K1|rewrite (proj1 K1), Hc; fold L; lia|].
  erewrite bind_Ok by apply E3. exists m, p3. split; [done|]. split; [by transitivity p2|].
  by rewrite (proj1 K1), Hc in Hm.
Qed.
End Open.

(** ** Parsing *)

(** The entry of the table for the record at [ptr]. *)
Definition zname (ptr : nat) (e : zent) : ZipEntryName :=
  Build_ZipEntryName (InMap (Z.of_nat ptr + CDR_SIZE)) (Z.of_nat (length (z_name e))).

(** The mapping shows the bytes [cd] first. *)
Definition shows (m : FileMap) (cd : list byte) : Prop :=
  mDataLength m = Z.of_nat (length cd) /\
  exists rest, forall o, map_from m (Z.of_nat o) = drop o (cd ++ rest).

Lemma shows_at m pre l : shows m (pre ++ l) ->
  exists rest, map_from m (Z.of_nat (length pre)) = l ++ rest.
Proof.
  intros (_ & rest & Hm). exists rest. by rewrite Hm, <- app_assoc, drop_app_length.
Qed.

Lemma shows_read m pre l post : shows m (pre ++ l ++ post) ->
  map_read m (Z.of_nat (length pre)) (Z.of_nat (length l)) = Ok l.
Proof.
  intros (rest & E)%shows_at. unfold map_read, mem_read. rewrite E, <- app_assoc, length_app.
  rewrite (proj2 (Z.leb_le _ _)) by lia. by rewrite Nat2Z.id, take_app_length.
Qed.

Lemma zname_ok m pre off e post :
  shows m (pre ++ central_bytes off e ++ post) -> name_ok m (zname (length pre) e) (z_name e).
Proof.
  intros Hs. split; [|done]. unfold name_bytes, zname. cbn [name name_length name_mem].
  replace (Z.of_nat (length pre) + CDR_SIZE) with (Z.of_nat (length (pre ++ cdr_bytes (cdr_of off e))))
    by (rewrite length_app, length_cdr_bytes; unfold CDR_SIZE; lia).
  apply (shows_read m (pre ++ cdr_bytes (cdr_of off e)) (z_name e) (z_cextra e ++ z_comment e ++ post)).
  unfold central_bytes in Hs. rewrite <- !app_assoc in Hs. by rewrite <- !app_assoc.
Qed.

Lemma parse_record_image a table pre off e post tes :
  let m := directory_map a in
  shows m (pre ++ central_bytes off e ++ post) -> zent_ok e -> 0 <= off < directory_offset a ->
  directory_offset a < 2 ^ 32 ->
  table_rep m table (hash_table_size a) tes -> Z.of_nat (length tes) < hash_table_size a ->
  ~ named m tes (z_name e) ->
  exists table', parse_record a table (Z.of_nat (length pre)) =
      Ok (0, table', Z.of_nat (length (pre ++ central_bytes off e))) /\
    table_rep m table' (hash_table_size a) (zname (length pre) e :: tes).
Proof.
  intros m Hs He Hoff Hdir Hrep Hfree Hnew. pose proof (zname_ok _ _ _ _ _ Hs) as Hname.
  pose proof (zent_cdr_ok e off He ltac:(unfold u32_ok; lia)) as Hcdr.
  unfold parse_record. fold m.
  assert (E46 : map_read m (Z.of_nat (length pre)) CDR_SIZE = Ok (cdr_bytes (cdr_of off e))).
  { change CDR_SIZE with (Z.of_nat 46). rewrite <- (length_cdr_bytes (cdr_of off e)).
    unfold central_bytes in Hs. rewrite <- app_assoc in Hs. eapply shows_read, Hs. }
  assert (E4 : map_read m (Z.of_nat (length pre)) 4 = Ok (le 4 CDR_kSignature)).
  { change 4 with (Z.of_nat (length (le 4 CDR_kSignature))). unfold central_bytes, cdr_bytes in Hs.
    rewrite <- !app_assoc in Hs. eapply shows_read, Hs. }
  rewrite E4, E46. cbn [obind].
  assert (Hend : Z.of_nat (length (pre ++ central_bytes off e)) <= mDataLength m /\
    Z.of_nat (length pre) + CDR_SIZE <= mDataLength m).
  { rewrite (proj1 Hs), !length_app, length_central_bytes. unfold CDR_SIZE. lia. }
  change (negb (le_combine (le 4 CDR_kSignature) =? CDR_kSignature)) with false. cbn beta iota.
  rewrite (proj2 (Z.ltb_ge _ _)) by lia.
  rewrite <- (app_nil_r (cdr_bytes _)), (cdr_at_bytes _ _ Hcdr).
  cbn [cdr_of local_file_header_offset file_name_length extra_field_length comment_length].
  rewrite (proj2 (Z.leb_gt _ _)) by lia.
  destruct (IsValidEntryName_run (map_from m (Z.of_nat (length pre) + CDR_SIZE)) (length (z_name e)))
    as (v & -> & Hv). { apply name_ok_mem in Hname. apply Hname. }
  replace v with true. 2: { symmetry. apply Hv. apply name_ok_mem in Hname as [Hn _]. cbn in Hn. rewrite <- Hn. apply He. }
  cbn [obind negb].
  destruct (AddToHash_rep m table _ tes _ _ Hrep Hfree Hname) as [(Hin & _)|(_ & table' & E & Hrep')]; [done|].
  exists table'. unfold zname in E at 1. rewrite E. cbn [obind Z.eqb negb].
  replace (Z.of_nat (length pre) + _) with (Z.of_nat (length (pre ++ central_bytes off e)))
    by (rewrite length_app, length_central_bytes; unfold CDR_SIZE; lia).
  rewrite (proj2 (Z.ltb_ge _ _)) by lia. done.
Qed.

(** [t] is the table's entry for the entry [e] of the archive. *)
Definition tent (es : list zent) (t : ZipEntryName) (e : zent) : Prop :=
  exists es1 es2, es = es1 ++ e :: es2 /\ t = zname (length (centrals 0 es1)) e.

Lemma centrals_split es1 e es2 :
  centrals 0 (es1 ++ e :: es2) =
    centrals 0 es1 ++ central_bytes (Z.of_nat (length (locals es1))) e ++
    centrals (Z.of_nat (length (locals (es1 ++ [e])))) es2.
Proof.
  rewrite centrals_app. cbn [centrals]. rewrite Z.add_0_l, locals_app, locals_cons, !length_app.
  change (locals []) with (@nil byte). by rewrite Nat.add_0_r, Nat2Z.inj_add.
Qed.

Lemma tent_name_ok m es t e : shows m (centrals 0 es) -> tent es t e -> name_ok m t (z_name e).
Proof. intros Hs (es1 & es2 & -> & ->). rewrite centrals_split in Hs. by eapply zname_ok. Qed.

Lemma named_tents m es tes l b :
  shows m (centrals 0 es) -> Forall2 (tent es) tes l -> named m tes b -> b ∈ z_name <$> l.
Proof.
  intros Hs Hf (t & Ht & [Hb _]). apply list_elem_of_lookup in Ht as [i Hi].
  destruct (Forall2_lookup_l _ _ _ _ _ Hf Hi) as (e & He & Hte).
  destruct (tent_name_ok _ _ _ _ Hs Hte) as [Hb' _]. assert (b = z_name e) as -> by congruence.
  apply list_elem_of_fmap. exists e. split; [done|]. by apply list_elem_of_lookup_2 with i.
Qed.

Lemma tents_named m es tes l e :
  shows m (centrals 0 es) -> Forall2 (tent es) tes l -> e ∈ l -> named m tes (z_name e).
Proof.
  intros Hs Hf He. apply list_elem_of_lookup in He as [i Hi].
  destruct (Forall2_lookup_r _ _ _ _ _ Hf Hi) as (t & Ht & Hte). exists t.
  split; [by apply list_elem_of_lookup_2 with i|by eapply tent_name_ok].
Qed.

(** The records of [es2], behind those of [es1]. *)
Lemma parse_loop_image a es : forall es2 es1 table tes,
  let m := directory_map a in
  es = es1 ++ es2 -> shows m (centrals 0 es) -> Forall zent_ok es -> NoDup (z_name <$> es) ->
  directory_offset a = Z.of_nat (length (locals es)) -> directory_offset a < 2 ^ 32 ->
  table_rep m table (hash_table_size a) tes -> Forall2 (tent es) tes (reverse es1) ->
  Z.of_nat (length es) < hash_table_size a ->
  exists table' tes', parse_loop (length es2) a table (Z.of_nat (length (centrals 0 es1))) = Ok (0, table') /\
    table_rep m table' (hash_table_size a) tes' /\ Forall2 (tent es) tes' (reverse es).
Proof.
  induction es2 as [|e es2 IH]; intros es1 table tes m -> Hs Hok Hnd Hdir Hdir32 Hrep Htes Hfree.
  - exists table, tes. by rewrite app_nil_r in *.
  - pose proof (Forall2_length _ _ _ Htes) as Hl. rewrite length_reverse in Hl.
    assert (Hs' := Hs). rewrite centrals_split in Hs'.
    apply Forall_app in Hok as Hok'. destruct Hok' as [_ He]. inversion He as [|? ? Hze _]; subst.
    destruct (parse_record_image a table _ _ e _ tes Hs' Hze) as (table' & E & Hrep'); try done.
    + split; [lia|]. rewrite Hdir, locals_app, locals_cons, !length_app, length_local_bytes. lia.
    + rewrite length_app in Hfree. simpl in Hfree. lia.
    + intros Hn%(named_tents _ _ _ _ _ Hs Htes). rewrite fmap_reverse, elem_of_reverse in Hn.
      rewrite fmap_app in Hnd. apply NoDup_app in Hnd as (_ & Hd & _). apply (Hd _ Hn). left.
    + cbn [length parse_loop]. rewrite E. cbn [obind Z.eqb].
      replace (centrals 0 es1 ++ central_bytes (Z.of_nat (length (locals es1))) e) with (centrals 0 (es1 ++ [e]))
        by (rewrite centrals_split; cbn [centrals]; by rewrite app_nil_r).
      apply (IH (es1 ++ [e]) table' (zname (length (centrals 0 es1)) e :: tes)); try done.
      * by rewrite <- app_assoc.
      * rewrite reverse_app. constructor; [by exists es1, es2|done].
Qed.

(** An open archive of the format. *)
Record image_archive (a : ZipArchive) (fd : Z) (es : list zent) (table : name_table) (tes : list ZipEntryName)
  : Prop := {
  ia_fd : za_fd a = fd;
  ia_shows : shows (directory_map a) (centrals 0 es);
  ia_dir : directory_offset a = Z.of_nat (length (locals es));
  ia_table : hash_table a = Some table;
  ia_rep : table_rep (directory_map a) table (hash_table_size a) tes;
  ia_tents : Forall2 (tent es) tes (reverse es);
  ia_free : Z.of_nat (length tes) < hash_table_size a
}.

(** Where the data of [e] is, behind the entries [es1], and what is known of it. *)
Definition data_offset (es1 : list zent) (e : zent) : Z :=
  Z.of_nat (length (locals es1)) + LFH_SIZE + Z.of_nat (length (z_name e)) + Z.of_nat (length (z_extra e)).

Definition entry_of (es1 : list zent) (e : zent) : ZipEntry :=
  Build_ZipEntry (z_method e) (z_time e) 0 (z_crc e) (Z.of_nat (length (z_data e))) (z_usize e)
    (data_offset es1 e).

Section RoundTrip.
Context {K : Type} `{HF : ZipFile K}.
Notation proc := (process K).

Lemma ParseZipArchive_image a p es comment :
  zip_ok es comment -> shows (directory_map a) (centrals 0 es) -> num_entries a = Z.of_nat (length es) ->
  directory_offset a = Z.of_nat (length (locals es)) ->
  exists a' table tes, ParseZipArchive a p = Ok ((0, a'), p) /\ image_archive a' (za_fd a) es table tes.
Proof.
  intros Hz Hs Hn Hd. unfold ParseZipArchive. pose proof (zk_count _ _ Hz). pose proof (zk_size _ _ Hz) as Hsz.
  rewrite length_zip_image in Hsz.
  destruct (table_size_free (num_entries a)) as (k & Hk & -> & Hlt); [lia|].
  erewrite bind_Ok by (apply sys_alloc_ok; lia). cbn beta iota.
  set (a1 := set_table a (2 ^ k) (Some (replicate (Z.to_nat (2 ^ k)) None))).
  destruct (parse_loop_image a1 es es [] (replicate (Z.to_nat (2 ^ k)) None) []) as (table & tes & E & Hrep & Ht);
    [done|done|apply Hz|apply Hz|done|cbn; lia|by apply table_rep_new|constructor|cbn; lia|].
  change (num_entries a1) with (num_entries a). rewrite Hn, Nat2Z.id. unfold bind, lift. cbn [hash_table a1 set_table].
  change (Z.of_nat (length (centrals 0 []))) with 0 in E. cbn [default from_option id]. rewrite E.
  eexists _, table, tes. split; [done|]. split; cbn; try done.
  rewrite (Forall2_length _ _ _ Ht), length_reverse. lia.
Qed.

Lemma maps_shows m es comment :
  maps m (zip_image es comment) (Z.of_nat (length (locals es))) (Z.of_nat (length (centrals 0 es))) ->
  shows m (centrals 0 es).
Proof.
  intros (Hl & rest & Hm). split; [done|]. exists rest. intros o. rewrite Hm by lia. rewrite !Nat2Z.id.
  unfold zip_image. by rewrite drop_app_length, take_app_length.
Qed.

(** Opening a file in the format succeeds. *)
Lemma OpenArchiveFd_image fd own p es comment :
  zip_ok es comment -> zf_content fd (proc_sys p) = zip_image es comment -> 0 <= fd -> page_ok p ->
  exists a table tes p', OpenArchiveFd fd own p = Ok ((0, a), p') /\ keeps p p' /\
    image_archive a fd es table tes.
Proof.
  intros Hz Hc Hfd Hp. unfold OpenArchiveFd, OpenArchiveInternal.
  destruct (MapCentralDirectory_image fd (ZipArchive_new fd own) p es comment Hz Hc Hfd Hp)
    as (m & p1 & E1 & K1 & Hm).
  cbn [za_fd ZipArchive_new]. erewrite bind_Ok by apply E1. cbn beta iota. cbn [Z.eqb negb].
  destruct (ParseZipArchive_image (set_directory (ZipArchive_new fd own) (Z.of_nat (length (locals es))) m
    (Z.of_nat (length es))) p1 es comment Hz) as (a & table & tes & E2 & Ha); [by eapply maps_shows|done|done|].
  erewrite bind_Ok by apply E2. eexists _, _, _, _. split; [done|]. split; [done|exact Ha].
Qed.

(** ** Finding *)

Lemma ReadAtOffset_ok fd pre l post p :
  zf_content fd (proc_sys p) = pre ++ l ++ post ->
  ReadAtOffset true fd (Z.of_nat (length l)) (Z.of_nat (length pre)) p = Ok ((Z.of_nat (length l), l), p).
Proof.
  intros Hc. unfold ReadAtOffset, into. cbn [orb].
  pose proof (zf_pread fd (Z.of_nat (length l)) (Z.of_nat (length pre)) (proc_sys p) ltac:(lia) ltac:(lia)) as E.
  rewrite Hc, !Nat2Z.id, drop_app_length, take_app_length in E.
  erewrite sys_ok by apply E. by destruct p.
Qed.

(** The parts of the file that belong to the entry [e]. *)
Lemma image_split es1 e es2 comment :
  exists post, zip_image (es1 ++ e :: es2) comment =
    locals es1 ++ lfh_bytes (lfh_of e) ++ z_name e ++ z_extra e ++ z_data e ++ post.
Proof.
  eexists. unfold zip_image. rewrite locals_app, locals_cons. unfold local_bytes. rewrite <- !app_assoc. done.
Qed.

(** The local header of [e], at its place in the file. *)
Lemma check_local_header_image a es1 e t post data p :
  zent_ok e -> name_ok (directory_map a) t (z_name e) ->
  zf_content (za_fd a) (proc_sys p) =
    locals es1 ++ lfh_bytes (lfh_of e) ++ z_name e ++ z_extra e ++ z_data e ++ post ->
  let off := Z.of_nat (length (locals es1)) in
  off + LFH_SIZE + Z.of_nat (length (z_name e)) + Z.of_nat (length (z_extra e)) + Z.of_nat (length (z_data e))
    <= directory_offset a ->
  check_local_header a t (lfh_of e) off (set_from_cdr data (cdr_of off e)) p = Ok ((0, entry_of es1 e), p).
Proof.
  intros He [Hb Hl] Hc off Hdir. unfold check_local_header.
  cbn [lfh_of lfh_gpb_flags lfh_compressed_size lfh_uncompressed_size lfh_crc32 lfh_file_name_length
    lfh_extra_field_length].
  rewrite (zo_no_dd _ He). cbn [Z.eqb andb orb negb set_has_dd set_from_cdr compressed_length uncompressed_length
    ze_crc32 compressed_size uncompressed_size cdr_crc32 cdr_of]. rewrite !Z.eqb_refl. cbn [negb orb].
  rewrite Hl, Z.eqb_refl, (proj2 (Z.ltb_ge _ _)) by lia. unfold check_name.
  destruct (zo_nlen _ He). erewrite bind_Ok by (apply sys_alloc_ok; lia). rewrite Hl.
  replace (off + LFH_SIZE) with (Z.of_nat (length (locals es1 ++ lfh_bytes (lfh_of e))))
    by (rewrite length_app, length_lfh_bytes; unfold off, LFH_SIZE; lia).
  erewrite bind_Ok by (eapply ReadAtOffset_ok; rewrite <- app_assoc; exact Hc). cbn beta iota.
  rewrite Z.eqb_refl. cbn [negb]. unfold bind, lift. rewrite Hb. cbn [obind fst snd].
  rewrite Nat2Z.id, firstn_all, bool_decide_eq_true_2 by done. unfold ret, check_extent.
  replace (Z.of_nat _ + Z.of_nat (length (z_name e)) + Z.of_nat (length (z_extra e))) with (data_offset es1 e)
    by (unfold data_offset; rewrite length_app, length_lfh_bytes; unfold off, LFH_SIZE; lia).
  cbn [compressed_length set_has_dd set_from_cdr compressed_size cdr_of method compression_method uncompressed_length
    uncompressed_size].
  rewrite !(proj2 (Z.ltb_ge _ _)) by (unfold data_offset; lia).
  destruct (Z.eqb_spec (z_method e) kCompressStored) as [Em|]; [|done].
  rewrite (zo_stored _ He Em), (proj2 (Z.ltb_ge _ _)) by (unfold data_offset; lia). done.
Qed.

Lemma FindEntry_at_image a fd table tes es comment es1 e es2 i data p :
  zip_ok es comment -> image_archive a fd es table tes -> es = es1 ++ e :: es2 ->
  zf_content fd (proc_sys p) = zip_image es comment ->
  table !! i = Some (Some (zname (length (centrals 0 es1)) e)) ->
  FindEntry_at a (Z.of_nat i) data p = Ok ((0, entry_of es1 e), p).
Proof.
  intros Hz [Hfd Hs Hd Ht _ _ _] -> Hc Hi.
  assert (He : zent_ok e) by (pose proof (zk_entries _ _ Hz) as Hf; rewrite Forall_app, Forall_cons in Hf; apply Hf).
  destruct (image_split es1 e es2 comment) as [post Himg]. rewrite Himg in Hc.
  assert (Hname := Hs). rewrite centrals_split in Hname. pose proof (zname_ok _ _ _ _ _ Hname) as Hn.
  pose proof (zent_cdr_ok e (Z.of_nat (length (locals es1))) He) as Hcdr.
  assert (Hlen : (length (locals es1) + length (local_bytes e) <= length (locals (es1 ++ e :: es2)))%nat)
    by (rewrite locals_app, locals_cons, !length_app; lia).
  pose proof (length_zip_image (es1 ++ e :: es2) comment) as HL. pose proof (zk_size _ _ Hz) as Hsz.
  rewrite length_local_bytes in Hlen.
  assert (Hne : (0 < length (z_name e))%nat) by (pose proof (zo_nonempty _ He); destruct (z_name e); [done|simpl; lia]).
  unfold FindEntry_at. rewrite Ht, Nat2Z.id. cbn [default from_option id]. rewrite Hi. cbn [name zname].
  rewrite Z.add_simpl_r, (proj1 Hs).
  rewrite (proj2 (Z.ltb_ge _ 0)), (proj2 (Z.ltb_ge _ (Z.of_nat _))) by (rewrite ?centrals_split, ?length_app; lia).
  cbn [orb]. unfold bind at 1, lift.
  assert (E46 : map_read (directory_map a) (Z.of_nat (length (centrals 0 es1))) CDR_SIZE =
    Ok (cdr_bytes (cdr_of (Z.of_nat (length (locals es1))) e))).
  { change CDR_SIZE with (Z.of_nat 46). rewrite <- (length_cdr_bytes (cdr_of (Z.of_nat (length (locals es1))) e)).
    unfold central_bytes in Hname. rewrite <- app_assoc in Hname. eapply shows_read, Hname. }
  rewrite E46. cbn [obind fst snd].
  rewrite <- (app_nil_r (cdr_bytes _)), cdr_at_bytes by (apply Hcdr; unfold u32_ok; lia).
  cbn [cdr_of local_file_header_offset]. rewrite Hd, (proj2 (Z.leb_gt _ _)) by (unfold LFH_SIZE; lia).
  rewrite Hfd. change LFH_SIZE with (Z.of_nat 30) at 1. rewrite <- (length_lfh_bytes (lfh_of e)) at 1.
  erewrite bind_Ok by (eapply ReadAtOffset_ok, Hc). cbn beta iota. rewrite length_lfh_bytes.
  rewrite (Z.eqb_refl LFH_SIZE : (Z.of_nat 30 =? LFH_SIZE) = true). cbn [negb].
  rewrite <- (app_nil_r (lfh_bytes _)), lfh_at_bytes by (by apply zent_lfh_ok).
  rewrite (Z.eqb_refl LFH_kSignature : (lfh_signature (lfh_of e) =? LFH_kSignature) = true). cbn [negb].
  eapply check_local_header_image; [done|done|rewrite Hfd; exact Hc|unfold LFH_SIZE; lia].
Qed.

Lemma NoDup_names_inj es e e' :
  NoDup (z_name <$> es) -> e ∈ es -> e' ∈ es -> z_name e = z_name e' -> e = e'.
Proof.
  intros Hnd [i Hi]%list_elem_of_lookup [j Hj]%list_elem_of_lookup E.
  assert (i = j) as ->; [|congruence].
  apply (NoDup_lookup _ _ _ (z_name e) Hnd); rewrite list_lookup_fmap; [by rewrite Hi|by rewrite Hj, E].
Qed.

(** Every entry is found by its name, with its place and sizes; other names
    are not. *)
Lemma FindEntry_image a fd table tes es comment es1 e es2 n data p :
  zip_ok es comment -> image_archive a fd es table tes -> es = es1 ++ e :: es2 ->
  zf_content fd (proc_sys p) = zip_image es comment -> name_ok (directory_map a) n (z_name e) ->
  FindEntry a n data p = Ok ((0, entry_of es1 e), p).
Proof.
  intros Hz Ha Hes Hc Hn. unfold FindEntry.
  assert (He : zent_ok e).
  { pose proof (zk_entries _ _ Hz) as Hf. rewrite Hes, Forall_app, Forall_cons in Hf. apply Hf. }
  rewrite (proj2 Hn), (proj2 (Z.eqb_neq _ _)) by (pose proof (zo_nonempty _ He); destruct (z_name e); [done|simpl; lia]).
  rewrite (ia_table _ _ _ _ _ Ha). unfold bind, lift.
  destruct (EntryToIndex_rep _ _ _ _ _ _ (ia_rep _ _ _ _ _ Ha) (ia_free _ _ _ _ _ Ha) Hn)
    as [(_ & ent & t & -> & Hent & Ht & Hb)|(Hnot & _)].
  2: { destruct Hnot. eapply tents_named; [apply Ha|apply Ha|]. rewrite elem_of_reverse, Hes.
       apply elem_of_app. right. left. }
  destruct (tr_size _ _ _ _ (ia_rep _ _ _ _ _ Ha)) as (k & Hk & Ek).
  assert (2 ^ k <= 2 ^ 31) by (apply Z.pow_le_mono_r; lia).
  cbn [obind fst snd]. rewrite (proj2 (Z.ltb_ge _ _)), i32_small by lia.
  assert (t ∈ tes) as Hin by (rewrite <- (tr_held _ _ _ _ (ia_rep _ _ _ _ _ Ha)); apply elem_of_held; eauto).
  apply list_elem_of_lookup in Hin as [j Hj].
  destruct (Forall2_lookup_l _ _ _ _ _ (ia_tents _ _ _ _ _ Ha) Hj) as (e' & He' & Hte).
  apply list_elem_of_lookup_2 in He'. rewrite elem_of_reverse in He'.
  pose proof (tent_name_ok _ _ _ _ (ia_shows _ _ _ _ _ Ha) Hte) as [Hb' _].
  assert (e' = e) as ->.
  { eapply NoDup_names_inj; [apply (zk_names _ _ Hz)|done|rewrite Hes; set_solver|].
    pose proof (proj1 Hb). congruence. }
  destruct Hte as (es1' & es2' & Hes' & ->).
  assert (es1' = es1) as ->.
  { assert (Hl : length es1' = length es1).
    { apply (NoDup_lookup _ _ _ (z_name e) (zk_names _ _ Hz)); [rewrite Hes'|rewrite Hes];
        rewrite list_lookup_fmap, list_lookup_middle by done; done. }
    rewrite Hes in Hes'. symmetry in Hl. apply app_inj_1 in Hes' as [-> _]; done. }
  rewrite <- (Z2Nat.id ent) by lia. eapply FindEntry_at_image; done.
Qed.

Lemma FindEntry_image_absent a fd table tes es n b data p :
  image_archive a fd es table tes -> name_ok (directory_map a) n b -> b <> [] -> b ∉ z_name <$> es ->
  FindEntry a n data p = Ok ((kEntryNotFound, data), p).
Proof.
  intros Ha Hn Hne Hb. unfold FindEntry.
  rewrite (proj2 Hn), (proj2 (Z.eqb_neq _ _)) by (destruct b; [done|simpl; lia]).
  rewrite (ia_table _ _ _ _ _ Ha). unfold bind, lift.
  destruct (EntryToIndex_rep _ _ _ _ _ _ (ia_rep _ _ _ _ _ Ha) (ia_free _ _ _ _ _ Ha) Hn)
    as [(Hin & _)|(_ & ->)]; [|done].
  destruct Hb. eapply named_tents in Hin; [|apply Ha|apply Ha]. by rewrite fmap_reverse, elem_of_reverse in Hin.
Qed.
End RoundTrip.
