(* ===== verification/ZipWriter.v ===== *)
(** * Writers

    What extraction relies on of a writer ([WriterSpec]): it takes bytes up to
    its capacity, appends them to its output, refuses more, and leaves the
    archive alone.  The memory writer and the file writer keep this contract,
    the latter over a kernel that writes regular files ([ZipOutFile]). *)

From S2P Require Import Prelude BackedBlock Crc32 OutputFile Sparse SparseRead ZipArchive.
From S2P Require Import Unicode UnicodeProps ZipName ZipTable ZipParse ZipFind ZipFormat ZipRoundTrip ZipExtract.

#[local] Open Scope Z_scope.
#[local] Open Scope c_scope.

(** The process after calls that read the archive [fd] only. *)
Definition reads_only {K} `{ZipFile K} (fd : Z) (p p' : process K) : Prop :=
  (forall fd', zf_content fd' (proc_sys p') = zf_content fd' (proc_sys p)) /\
  (forall fd', fd' <> fd -> zf_pos fd' (proc_sys p') = zf_pos fd' (proc_sys p)).

(** A writer for the archive open on [fd]. *)
Class WriterSpec (K W : Type) `{ZipFile K} `{Writer K W} (fd : Z) : Type := {
  w_ok : W -> process K -> Prop;
  w_out : W -> process K -> list byte;
  w_cap : W -> Z;
  w_reads : forall w p p', reads_only fd p p' -> w_ok w p -> w_ok w p' /\ w_out w p' = w_out w p;
  w_fits : forall w p, w_ok w p -> Z.of_nat (length (w_out w p)) <= w_cap w < 2 ^ 32;
  w_append : forall w p data, w_ok w p -> Z.of_nat (length (w_out w p ++ data)) <= w_cap w ->
    exists w' p', Append data (w, p) = Ok (true, (w', p')) /\ w_ok w' p' /\
      w_out w' p' = w_out w p ++ data /\ w_cap w' = w_cap w /\
      zf_content fd (proc_sys p') = zf_content fd (proc_sys p) /\
      zf_pos fd (proc_sys p') = zf_pos fd (proc_sys p);
  w_refuse : forall w p data, w_ok w p -> Z.of_nat (length data) < 2 ^ 32 ->
    w_cap w < Z.of_nat (length (w_out w p ++ data)) -> Append data (w, p) = Ok (false, (w, p))
}.

(** ** Memory *)

Section Memory.
Context {K : Type} `{ZipFile K}.

(** The region has at least the declared size; what is behind it is kept. *)
Definition mw_ok (w : MemoryWriter) : Prop :=
  0 <= bytes_written w <= mw_size w /\ mw_size w <= Z.of_nat (length (mw_buf w)) /\ mw_size w < 2 ^ 32.

Definition mw_out (w : MemoryWriter) : list byte := take (Z.to_nat (bytes_written w)) (mw_buf w).

Lemma length_mw_out w : mw_ok w -> Z.of_nat (length (mw_out w)) = bytes_written w.
Proof. intros (? & ? & ?). unfold mw_out. rewrite length_take. lia. Qed.

Lemma MemoryWriter_append w (p : process K) data :
  mw_ok w -> bytes_written w + Z.of_nat (length data) <= mw_size w ->
  exists w', MemoryWriter_Append data (w, p) = Ok (true, (w', p)) /\ mw_ok w' /\
    mw_out w' = mw_out w ++ data /\ mw_size w' = mw_size w /\
    bytes_written w' = bytes_written w + Z.of_nat (length data) /\
    length (mw_buf w') = length (mw_buf w) /\
    forall i, bytes_written w' <= Z.of_nat i -> mw_buf w' !! i = mw_buf w !! i.
Proof.
  intros (Hw1 & Hw2 & Hw3) Hfit. unfold MemoryWriter_Append. cbn [fst snd].
  rewrite u64_small by lia. rewrite (proj2 (Z.ltb_ge _ _)) by lia.
  unfold mem_write. rewrite (proj2 (Z.leb_le _ _)) by lia. cbn [obind]. eexists. split; [done|].
  set (n := Z.to_nat (bytes_written w)).
  assert (Hl : length (take n (mw_buf w) ++ data ++ drop (n + length data) (mw_buf w)) = length (mw_buf w)).
  { rewrite !length_app, length_take, length_drop. lia. }
  split_and!; cbn [mw_buf mw_size bytes_written]; try done.
  - unfold mw_ok. cbn [mw_buf mw_size bytes_written]. rewrite Hl. lia.
  - unfold mw_out. cbn [mw_buf bytes_written]. fold n.
    replace (Z.to_nat (bytes_written w + Z.of_nat (length data))) with (length (take n (mw_buf w) ++ data))
      by (rewrite length_app, length_take; lia).
    by rewrite (app_assoc _ data), take_app_length.
  - intros i Hi. rewrite lookup_app_r by (rewrite length_take; lia). rewrite length_take.
    rewrite lookup_app_r by lia. rewrite lookup_drop. f_equal. lia.
Qed.

(** The region of the client, [begin], behind what was written. *)
Definition mw_region (begin : list byte) (w : MemoryWriter) : Prop :=
  mw_ok w /\ length (mw_buf w) = length begin /\
  forall i, bytes_written w <= Z.of_nat i -> mw_buf w !! i = begin !! i.

Definition MemoryWriter_spec (begin : list byte) fd : WriterSpec K MemoryWriter fd.
Proof.
  refine {| w_ok w _ := mw_region begin w; w_out w _ := mw_out w; w_cap w := mw_size w |}.
  - done.
  - intros w p (Hw & _). rewrite length_mw_out by done. destruct Hw as (? & ? & ?). lia.
  - intros w p data (Hw & Hl & Hi). rewrite length_app, Nat2Z.inj_add, length_mw_out by done. intros Hfit.
    destruct (MemoryWriter_append w p data Hw Hfit) as (w' & E & Hw' & Ho & Hs & Hb & Hl' & Hi').
    exists w', p. split; [done|]. split; [|done]. split; [done|]. split; [congruence|].
    intros i Hge. rewrite Hi' by done. apply Hi. lia.
  - intros w p data (Hw & _). rewrite length_app, Nat2Z.inj_add, length_mw_out by done. intros Hd Hno.
    destruct Hw as (? & ? & ?). unfold Append, MemoryWriter_Writer, MemoryWriter_Append. cbn [fst].
    rewrite u64_small by lia. by rewrite (proj2 (Z.ltb_lt _ _)) by lia.
Defined.

Lemma mw_region_new begin size :
  0 <= size <= Z.of_nat (length begin) -> size < 2 ^ 32 -> mw_region begin (MemoryWriter_new begin size).
Proof. intros Hs Hm. split; [|done]. unfold mw_ok. cbn. lia. Qed.

(** The region after all of it. *)
Lemma mw_region_buf begin w :
  mw_region begin w -> mw_buf w = mw_out w ++ drop (length (mw_out w)) begin.
Proof.
  intros (Hw & Hl & Hi). pose proof (length_mw_out w Hw) as Ho. destruct Hw as (? & ? & ?).
  rewrite <- (take_drop (Z.to_nat (bytes_written w)) (mw_buf w)) at 1. f_equal. apply list_eq. intros i.
  rewrite !lookup_drop. replace (length (mw_out w)) with (Z.to_nat (bytes_written w)) by lia. apply Hi. lia.
Qed.
End Memory.

(** ** Files

    Writes to a regular file with enough space store at least a byte; a
    descriptor apart from it is not affected.  [fallocate] may fail for other
    reasons than a full disk, and may lengthen the file. *)

Class ZipOutFile (K : Type) `{ZipFile K} `{Kernel K} : Type := {
  zo_apart : Z -> Z -> Prop;
  zo_write : forall fd data k, data <> [] -> 0 <= zf_pos fd k <= Z.of_nat (length (zf_content fd k)) ->
    exists n k', sys_write fd data k = (Z.of_nat n, k') /\ (0 < n <= length data)%nat /\
      zf_content fd k' = take (Z.to_nat (zf_pos fd k)) (zf_content fd k) ++ take n data ++
        drop (Z.to_nat (zf_pos fd k) + n) (zf_content fd k) /\
      zf_pos fd k' = zf_pos fd k + Z.of_nat n /\
      forall fd', zo_apart fd fd' -> zf_content fd' k' = zf_content fd' k /\ zf_pos fd' k' = zf_pos fd' k;
  zo_seek_cur : forall fd k, 0 <= zf_pos fd k ->
    exists k', sys_lseek fd 0 SEEK_CUR k = (zf_pos fd k, k') /\
      (forall fd', zf_content fd' k' = zf_content fd' k) /\ (forall fd', zf_pos fd' k' = zf_pos fd' k);
  zo_fallocate : forall fd off len k, 0 <= off -> 0 < len ->
    exists r k' z, sys_fallocate fd off len k = (r, k') /\ (r = -1 -> sys_errno k' <> ENOSPC) /\
      zf_content fd k' = zf_content fd k ++ replicate z Byte.x00 /\
      (z = 0%nat \/ (Z.of_nat (length (zf_content fd k) + z) <= off + len)) /\ zf_pos fd k' = zf_pos fd k /\
      forall fd', zo_apart fd fd' -> zf_content fd' k' = zf_content fd' k /\ zf_pos fd' k' = zf_pos fd' k;
  zo_ftruncate : forall fd len k, 0 <= len ->
    exists k', sys_ftruncate fd len k = (0, k') /\
      zf_content fd k' = take (Z.to_nat len) (zf_content fd k ++
        replicate (Z.to_nat len - length (zf_content fd k)) Byte.x00) /\
      zf_pos fd k' = zf_pos fd k /\
      forall fd', zo_apart fd fd' -> zf_content fd' k' = zf_content fd' k /\ zf_pos fd' k' = zf_pos fd' k
}.

Section Files.
Context {K : Type} `{HO : ZipOutFile K}.

(** Descriptors apart from [fd] see the same files. *)
Definition apart_kept (fd : Z) (k k' : K) : Prop :=
  forall fd', zo_apart fd fd' -> zf_content fd' k' = zf_content fd' k /\ zf_pos fd' k' = zf_pos fd' k.

Lemma apart_kept_trans fd k1 k2 k3 : apart_kept fd k1 k2 -> apart_kept fd k2 k3 -> apart_kept fd k1 k3.
Proof. intros A B fd' Hfd. destruct (A fd' Hfd), (B fd' Hfd). split; congruence. Qed.

(** [WriteFully] replaces the bytes behind the offset. *)
Lemma WriteFully_loop_ok fd : forall fuel data before rest ps k,
  (length data <= fuel)%nat -> (length data <= length rest)%nat ->
  zf_content fd k = before ++ rest -> zf_pos fd k = Z.of_nat (length before) ->
  exists k', WriteFully_loop fuel fd data (Process ps k) = Ok (true, Process ps k') /\
    zf_content fd k' = before ++ data ++ drop (length data) rest /\
    zf_pos fd k' = Z.of_nat (length (before ++ data)) /\ apart_kept fd k k'.
Proof.
  induction fuel as [|fuel IH]; intros data before rest ps k Hf Hr Hc Hp.
  - destruct data; [|simpl in Hf; lia]. exists k. by rewrite app_nil_r.
  - destruct data as [|b data]; [exists k; by rewrite app_nil_r|]. cbn [WriteFully_loop].
    set (d := b :: data) in *.
    destruct (zo_write fd d k) as (n & k1 & E & Hn & Hc1 & Hp1 & Ha); [done|rewrite Hp, Hc, length_app; lia|].
    rewrite Hp, Hc, Nat2Z.id, take_app_length, <- drop_drop, drop_app_length in Hc1.
    erewrite bind_Ok by (by apply sys_ok). rewrite (proj2 (Z.eqb_neq _ _)), Nat2Z.id by lia.
    assert (Ed : length (take n d) = n) by (rewrite length_take; lia).
    destruct (IH (drop n d) (before ++ take n d) (drop n rest) ps k1) as (k2 & E2 & Hc2 & Hp2 & Ha2).
    + rewrite length_drop. lia.
    + rewrite !length_drop. lia.
    + by rewrite Hc1, <- app_assoc.
    + rewrite Hp1, Hp, length_app, Ed. lia.
    + exists k2. cbn [mPageSize] in *. rewrite E2. split; [done|]. split; [|split].
      * rewrite Hc2, <- app_assoc, (app_assoc (take n d)), take_drop, drop_drop, length_drop.
        do 3 f_equal. lia.
      * rewrite Hp2, <- app_assoc, take_drop. done.
      * by eapply apart_kept_trans.
Qed.

(** The file behind [pre] has room for the declared length; [afd] is the
    archive. *)
Definition fw_ok (pre : list byte) (ofd afd : Z) (w : FileWriter) (p : process K) : Prop :=
  fw_fd w = ofd /\ zo_apart (fw_fd w) afd /\ fw_fd w <> afd /\ declared_length w < 2 ^ 32 /\
  exists out rest, zf_content (fw_fd w) (proc_sys p) = pre ++ out ++ rest /\
    Z.of_nat (length out) = total_bytes_written w /\
    Z.of_nat (length out + length rest) = declared_length w /\
    zf_pos (fw_fd w) (proc_sys p) = Z.of_nat (length (pre ++ out)).

Definition fw_out (pre : list byte) (w : FileWriter) (p : process K) : list byte :=
  take (Z.to_nat (total_bytes_written w)) (drop (length pre) (zf_content (fw_fd w) (proc_sys p))).

Lemma fw_out_eq pre w (p : process K) out rest :
  zf_content (fw_fd w) (proc_sys p) = pre ++ out ++ rest -> Z.of_nat (length out) = total_bytes_written w ->
  fw_out pre w p = out.
Proof.
  intros Hc Hl. unfold fw_out. by rewrite Hc, <- Hl, Nat2Z.id, drop_app_length, take_app_length.
Qed.

Lemma FileWriter_append pre ofd afd w p data :
  fw_ok pre ofd afd w p -> Z.of_nat (length (fw_out pre w p ++ data)) <= declared_length w ->
  exists w' p', FileWriter_Append data (w, p) = Ok (true, (w', p')) /\ fw_ok pre ofd afd w' p' /\
    fw_out pre w' p' = fw_out pre w p ++ data /\ declared_length w' = declared_length w /\
    zf_content afd (proc_sys p') = zf_content afd (proc_sys p) /\
    zf_pos afd (proc_sys p') = zf_pos afd (proc_sys p).
Proof.
  intros (Hofd & Hap & Hne & Hd & out & rest & Hc & Ho & Hr & Hp). rewrite (fw_out_eq _ _ _ _ _ Hc Ho), length_app.
  intros Hfit. unfold FileWriter_Append. cbn [fst snd]. rewrite u64_small by lia.
  rewrite (proj2 (Z.ltb_ge _ _)) by lia. destruct p as [ps k]. cbn [proc_sys] in *. rewrite app_assoc in Hc.
  destruct (WriteFully_loop_ok (fw_fd w) (length data) data (pre ++ out) rest ps k) as (k' & E & Hc' & Hp' & Ha');
    [lia|lia|done|done|].
  unfold WriteFully. rewrite E. cbn [obind]. eexists _, _. split; [done|]. cbn [declared_length proc_sys].
  destruct (Ha' afd Hap) as [Hca Hpa].
  assert (Hc2 : zf_content (fw_fd w) k' = pre ++ (out ++ data) ++ drop (length data) rest)
    by (rewrite Hc', <- !app_assoc; done).
  assert (Hl2 : Z.of_nat (length (out ++ data)) = total_bytes_written w + Z.of_nat (length data))
    by (rewrite length_app; lia).
  split_and!; try done.
  - split; [done|]. split; [done|]. split; [done|]. split; [done|]. exists (out ++ data), (drop (length data) rest).
    cbn [fw_fd proc_sys total_bytes_written declared_length]. split; [done|]. split; [done|].
    split; [rewrite length_drop, length_app; lia|]. rewrite Hp'. f_equal. by rewrite <- app_assoc.
  - by eapply fw_out_eq.
Qed.

Definition FileWriter_spec (pre : list byte) (ofd afd : Z) : WriterSpec K FileWriter afd.
Proof.
  refine {| w_ok := fw_ok pre ofd afd; w_out := fw_out pre; w_cap w := declared_length w |}.
  - intros w p p' [Hc Hp] (Hofd & Hap & Hne & Hd & out & rest & Hco & Ho & Hr & Hpo). unfold fw_out. rewrite Hc.
    split; [|done]. split; [done|]. split; [done|]. split; [done|]. split; [done|]. exists out, rest.
    rewrite Hc, Hp by done. done.
  - intros w p (_ & _ & _ & Hd & out & rest & Hco & Ho & Hr & _). rewrite (fw_out_eq _ _ _ _ _ Hco Ho). lia.
  - intros w p data Hw Hfit. by apply FileWriter_append.
  - intros w p data (_ & _ & _ & Hd & out & rest & Hco & Ho & Hr & _) Hdata.
    rewrite (fw_out_eq _ _ _ _ _ Hco Ho), length_app. intros Hno.
    unfold Append, FileWriter_Writer, FileWriter_Append. cbn [fst]. rewrite u64_small by lia.
    by rewrite (proj2 (Z.ltb_lt _ _)) by lia.
Defined.

(** The bytes in front of the offset, where a gap is filled with zeros. *)
Definition in_front_of (c : list byte) (pos : Z) : list byte :=
  take (Z.to_nat pos) (c ++ replicate (Z.to_nat pos - length c) Byte.x00).

Lemma take_pad (c : list byte) n m z :
  (n <= m)%nat -> (z = 0 \/ length c + z <= m)%nat ->
  take n (take m ((c ++ replicate z Byte.x00) ++ replicate (m - length (c ++ replicate z Byte.x00)) Byte.x00)) =
  take n (c ++ replicate (n - length c) Byte.x00).
Proof.
  intros Hn Hz. rewrite take_take, Nat.min_l by lia. rewrite <- app_assoc, <- replicate_add.
  rewrite length_app, length_replicate. destruct (decide (n <= length c)%nat).
  - rewrite !take_app_le by lia. done.
  - rewrite !take_app_ge by lia. rewrite !take_replicate. do 2 f_equal. lia.
Qed.

(** The space is reserved where there is something to write. *)
Lemma reserve_ok fd off len ps k :
  0 <= off -> 0 <= len ->
  exists k' z,
    (if 0 <? len then
       let! result := sys (sys_fallocate fd off len) in
       let! e := gets (fun p => sys_errno (proc_sys p)) in
       ret ((result =? -1) && (e =? ENOSPC))
     else ret false) (Process ps k) = Ok (false, Process ps k') /\
    zf_content fd k' = zf_content fd k ++ replicate z Byte.x00 /\
    (z = 0%nat \/ (Z.of_nat (length (zf_content fd k) + z) <= off + len)) /\ zf_pos fd k' = zf_pos fd k /\
    apart_kept fd k k'.
Proof.
  intros Ho Hl. destruct (Z.ltb_spec 0 len) as [Hlt|Hge].
  - destruct (zo_fallocate fd off len k Ho Hlt) as (r & k' & z & E & He & Hc & Hz & Hp & Ha).
    exists k', z. split; [|done]. erewrite bind_Ok by (by apply sys_ok). unfold bind, gets, ret. cbn.
    destruct (Z.eqb_spec r (-1)) as [->|]; [|done]. by rewrite (proj2 (Z.eqb_neq _ _)) by auto.
  - exists k, 0%nat. cbn [replicate]. rewrite app_nil_r. split; [done|]. split; [done|]. split; [by left|]. done.
Qed.

(** A new writer has the file cut or lengthened to the declared length. *)
Lemma FileWriter_Create_ok fd afd entry p :
  0 <= zf_pos fd (proc_sys p) -> 0 <= uncompressed_length entry < 2 ^ 32 -> zo_apart fd afd -> fd <> afd ->
  let pre := in_front_of (zf_content fd (proc_sys p)) (zf_pos fd (proc_sys p)) in
  exists w p', FileWriter_Create fd entry p = Ok (Some w, p') /\ fw_ok pre fd afd w p' /\
    total_bytes_written w = 0 /\ declared_length w = uncompressed_length entry /\
    zf_content afd (proc_sys p') = zf_content afd (proc_sys p).
Proof.
  intros Hpos Hu Hap Hne pre. destruct p as [ps k]. cbn [proc_sys] in *. unfold FileWriter_Create.
  destruct (zo_seek_cur fd k Hpos) as (k0 & E0 & Hc0 & Hp0).
  erewrite bind_Ok by (by apply sys_ok). cbn [proc_sys mPageSize]. rewrite (proj2 (Z.eqb_neq _ _)) by lia.
  destruct (reserve_ok fd (zf_pos fd k) (uncompressed_length entry) ps k0) as (k1 & z & E1 & Hc1 & Hz & Hp1 & Ha1);
    [lia|lia|]. rewrite Hc0 in Hc1, Hz. rewrite Hp0 in Hp1.
  erewrite bind_Ok by apply E1. cbn beta iota.
  destruct (zo_ftruncate fd (uncompressed_length entry + zf_pos fd k) k1) as (k2 & E2 & Hc2 & Hp2 & Ha2); [lia|].
  erewrite bind_Ok by (by apply sys_ok). cbn [Z.eqb]. eexists _, _. split; [done|]. cbn [proc_sys mPageSize].
  split; [|split_and!; [done..|]]; [|destruct (Ha2 afd Hap), (Ha1 afd Hap); specialize (Hc0 afd); congruence].
  split; [done|]. split; [done|]. split; [done|]. cbn [fw_fd declared_length total_bytes_written proc_sys].
  split; [lia|].
  remember (Z.to_nat (uncompressed_length entry + zf_pos fd k)) as m eqn:Em.
  assert (Hl : length (zf_content fd k2) = m).
  { rewrite Hc2, length_take, length_app, length_replicate. lia. }
  exists [], (drop (Z.to_nat (zf_pos fd k)) (zf_content fd k2)).
  assert (Epre : take (Z.to_nat (zf_pos fd k)) (zf_content fd k2) = pre).
  { rewrite Hc2, Hc1. unfold pre, in_front_of. apply take_pad; lia. }
  split; [by rewrite app_nil_l, <- Epre, take_drop|]. split; [done|].
  split; [rewrite length_drop, Hl; cbn; lia|]. rewrite app_nil_r, <- Epre, length_take, Hl, Hp2, Hp1. lia.
Qed.
End Files.
