(* ===== verification/ZipCopy.v ===== *)
(** * Extraction

    Copying and inflating an entry through any writer that keeps the contract
    [WriterSpec]: what is written for whatever the archive holds, that the
    loops stop, and that an entry in the format is extracted whole.  zlib is
    trusted to make progress ([InflateProgress]) and, for the last, to inflate
    what was deflated ([InflateSpec]). *)

From S2P Require Import Prelude BackedBlock Crc32 OutputFile Sparse SparseRead ZipArchive.
From S2P Require Import Unicode UnicodeProps ZipName ZipTable ZipParse ZipFind ZipFormat ZipRoundTrip ZipExtract ZipWriter.

#[local] Open Scope Z_scope.
#[local] Open Scope c_scope.

(** [inflate] takes no more than there is, and [Z_OK] means that it took input
    or gave output. *)
Class InflateProgress (Zs : Type) `{RawInflate Zs} : Prop := {
  zp_step : forall input room zs zerr consumed produced zs',
    inflate input room zs = ((zerr, consumed, produced), zs') -> 0 < room ->
    (consumed <= length input)%nat /\ Z.of_nat (length produced) <= room /\
    (zerr = Z_OK -> (0 < consumed)%nat \/ produced <> [])
}.

(** Inflation: [deflated c u] says that the raw stream [c] stands for the bytes
    [u], [zs_pending] what a stream has still to take and to give.  As long as
    there is input, or all of it was given, a call makes progress; the stream
    ends when all has been taken and given. *)
Class InflateSpec (Zs : Type) `{RawInflate Zs} : Type := {
  deflated : list byte -> list byte -> Prop;
  zs_pending : Zs -> list byte -> list byte -> Prop;
  zs_init : exists zs, inflateInit2 (- MAX_WBITS) = (Z_OK, zs) /\ total_out zs = 0 /\
    forall c u, deflated c u -> zs_pending zs c u;
  zs_step : forall zs input rest u room,
    zs_pending zs (input ++ rest) u -> (input = [] -> rest = []) -> 0 < room ->
    exists zerr consumed produced zs' u', inflate input room zs = ((zerr, consumed, produced), zs') /\
      u = produced ++ u' /\ Z.of_nat (length produced) <= room /\
      total_out zs' = total_out zs + Z.of_nat (length produced) /\ (consumed <= length input)%nat /\
      ((zerr = Z_OK /\ ((0 < consumed)%nat \/ produced <> []) /\ zs_pending zs' (drop consumed input ++ rest) u') \/
       (zerr = Z_STREAM_END /\ u' = [] /\ rest = []))
}.

Section Copy.
Context {K Zs W : Type} `{HF : ZipFile K} `{HZ : RawInflate Zs} `{HW : Writer K W} (fd : Z) `{HS : !WriterSpec K W fd}.
Notation proc := (process K).
Notation wstate := (W * proc)%type.

(** What stays as extraction goes on: the writer is usable, with the same
    capacity, and the archive is the same. *)
Definition steps (w : W) (p : proc) (w' : W) (p' : proc) : Prop :=
  w_ok w' p' /\ w_cap w' = w_cap w /\ zf_content fd (proc_sys p') = zf_content fd (proc_sys p).

Lemma steps_trans w p w1 p1 w2 p2 : steps w p w1 p1 -> steps w1 p1 w2 p2 -> steps w p w2 p2.
Proof. intros (? & ? & ?) (? & ? & ?). split; [done|]. split; congruence. Qed.

(** [read] of the archive, between the writer's calls. *)
Lemma archive_read n (w : W) (p : proc) :
  0 <= n -> 0 <= zf_pos fd (proc_sys p) -> w_ok w p ->
  let b := take (Z.to_nat n) (drop (Z.to_nat (zf_pos fd (proc_sys p))) (zf_content fd (proc_sys p))) in
  exists p', on_snd (sys (sys_read fd n)) (w, p) = Ok ((Z.of_nat (length b), b), (w, p')) /\
    steps w p w p' /\ w_out w p' = w_out w p /\
    zf_pos fd (proc_sys p') = zf_pos fd (proc_sys p) + Z.of_nat (length b).
Proof.
  intros Hn Hp Hw b. destruct (zf_read fd n (proc_sys p) Hn Hp) as (k' & E & Hc & Ho & Hpos).
  exists (Process (mPageSize p) k'). split; [apply on_snd_ok; by apply sys_ok|].
  destruct (w_reads w p (Process (mPageSize p) k')) as [H1 H2]; [by split|done|].
  split; [|done]. split; [done|]. split; [done|]. apply Hc.
Qed.

(** [Append] does one of the two. *)
Lemma append_cases (w : W) (p : proc) data :
  w_ok w p -> Z.of_nat (length data) < 2 ^ 32 ->
  (exists w' p', Append data (w, p) = Ok (true, (w', p')) /\ steps w p w' p' /\
     w_out w' p' = w_out w p ++ data /\ zf_pos fd (proc_sys p') = zf_pos fd (proc_sys p)) \/
  (Append data (w, p) = Ok (false, (w, p)) /\ w_cap w < Z.of_nat (length (w_out w p ++ data))).
Proof.
  intros Hw Hd. destruct (Z.leb_spec (Z.of_nat (length (w_out w p ++ data))) (w_cap w)) as [Hle|Hgt].
  - left. destruct (w_append w p data Hw Hle) as (w' & p' & E & H1 & H2 & H3 & H4 & H5). exists w', p'.
    split; [done|]. split; [by split|done].
  - right. split; [|done]. by apply w_refuse.
Qed.

(** ** Stored entries *)

(** [n] bytes of the archive from its offset on. *)
Definition upcoming (p : proc) (n : Z) : list byte :=
  take (Z.to_nat n) (drop (Z.to_nat (zf_pos fd (proc_sys p))) (zf_content fd (proc_sys p))).

Lemma upcoming_split p n m p' :
  0 <= m <= n -> 0 <= zf_pos fd (proc_sys p) -> zf_content fd (proc_sys p') = zf_content fd (proc_sys p) ->
  zf_pos fd (proc_sys p') = zf_pos fd (proc_sys p) + m ->
  upcoming p n = upcoming p m ++ upcoming p' (n - m).
Proof.
  intros Hm Hpos Hc Hp. unfold upcoming. rewrite Hc, Hp. rewrite Z2Nat.inj_add, <- drop_drop by lia.
  set (l := drop _ (zf_content fd (proc_sys p))).
  rewrite <- (take_drop (Z.to_nat m) (take (Z.to_nat n) l)).
  rewrite take_take, Nat.min_l, skipn_firstn_comm by lia. do 2 f_equal. lia.
Qed.

Lemma length_upcoming p n : 0 <= n -> Z.of_nat (length (upcoming p n)) <= n.
Proof. intros Hn. unfold upcoming. rewrite length_take. lia. Qed.

(** The copy writes the next bytes of the archive; it fails only where the
    file ends or the writer is full. *)
Lemma copy_loop_run len : forall fuel (w : W) (p : proc) count crc,
  w_ok w p -> 0 <= zf_pos fd (proc_sys p) -> 0 <= count <= len -> len < 2 ^ 32 ->
  len - count <= Z.of_nat fuel * kBufSize ->
  let d := upcoming p (len - count) in
  exists r crc' w' p', copy_loop fuel fd len count crc (w, p) = Ok ((r, crc'), (w', p')) /\ steps w p w' p' /\
    ((r = 0 /\ w_out w' p' = w_out w p ++ d /\ Z.of_nat (length d) = len - count /\
      zf_pos fd (proc_sys p') = zf_pos fd (proc_sys p) + (len - count)) \/
     (r = kIoError /\ (Z.of_nat (length d) < len - count \/ w_cap w < Z.of_nat (length (w_out w p ++ d))))).
Proof.
  induction fuel as [|fuel IH]; intros w p count crc Hw Hpos Hcount Hlen Hfuel d; cbn [copy_loop];
    (destruct (Z.ltb_spec count len) as [Hlt|Hge];
      [|exists 0, crc, w, p; split; [done|]; split; [by split|]; left;
        unfold d; replace (len - count) with 0 by lia; rewrite app_nil_r, Z.add_0_r; done]); [unfold kBufSize in *; lia|].
  rewrite u32_small by lia. set (n := if kBufSize <? len - count then kBufSize else len - count).
  assert (Hn : 0 < n <= len - count /\ n <= kBufSize /\ len - (count + n) <= Z.of_nat fuel * kBufSize).
  { unfold n. destruct (Z.ltb_spec kBufSize (len - count)); unfold kBufSize in *; lia. }
  destruct (archive_read n w p) as (p1 & E1 & S1 & O1 & Hp1); [lia|done|done|].
  fold (upcoming p n) in E1, Hp1. erewrite bind_Ok by apply E1. cbn beta iota.
  destruct (Z.eqb_spec (Z.of_nat (length (upcoming p n))) n) as [Hfull|Hshort]; cbn [negb].
  2: { exists kIoError, crc, w, p1. split; [done|]. split; [done|]. right. split; [done|]. left.
       unfold d, upcoming in *. rewrite length_take in *. lia. }
  rewrite Hfull in Hp1. pose proof (proj1 S1) as Hw1.
  pose proof (upcoming_split p (len - count) n p1 ltac:(lia) Hpos (proj2 (proj2 S1)) Hp1) as Hd. fold d in Hd.
  destruct (append_cases w p1 (upcoming p n) Hw1) as [(w2 & p2 & E2 & S2 & O2 & Hp2)|(E2 & Hno)];
    [unfold kBufSize in *; lia|..]; erewrite bind_Ok by apply E2; cbn beta iota; cbn [negb].
  2: { exists kIoError, crc, w, p1. split; [done|]. split; [done|]. right. split; [done|]. right.
       rewrite O1 in Hno. rewrite Hd, !length_app in *. lia. }
  assert (Hup : upcoming p1 (len - count - n) = upcoming p2 (len - (count + n))).
  { unfold upcoming. rewrite (proj2 (proj2 S2)), Hp2. do 2 f_equal. lia. }
  rewrite u32_small by lia.
  destruct (IH w2 p2 (count + n) (zlib_crc32 crc (upcoming p n))) as (r & crc' & w3 & p3 & E3 & S3 & Hr);
    [apply S2|lia|lia|lia|lia|].
  exists r, crc', w3, p3. split; [exact E3|].
  split; [eapply steps_trans; [apply S1|]; by eapply steps_trans|].
  rewrite <- Hup in Hr. rewrite Hd, O2, O1 in *. rewrite <- app_assoc in Hr.
  destruct Hr as [(-> & Ho & Hl & Hp3)|(-> & Hr)]; [left|right].
  - split; [done|]. split; [done|]. split; [rewrite length_app; lia|lia].
  - split; [done|]. rewrite (proj1 (proj2 S2)) in Hr. rewrite !length_app in *. lia.
Qed.

(** ** Deflated entries *)

Lemma refill_run comp_left input (w : W) (p : proc) :
  w_ok w p -> 0 <= zf_pos fd (proc_sys p) -> 0 <= comp_left < 2 ^ 32 ->
  exists failed cl' input' p', refill fd comp_left input (w, p) = Ok ((failed, cl', input'), (w, p')) /\
    steps w p w p' /\ w_out w p' = w_out w p /\ 0 <= cl' <= comp_left /\
    zf_pos fd (proc_sys p) <= zf_pos fd (proc_sys p') /\
    (failed = false ->
      zf_pos fd (proc_sys p') = zf_pos fd (proc_sys p) + (comp_left - cl') /\
      cl' + Z.of_nat (length input') = comp_left + Z.of_nat (length input) /\
      input' = input ++ upcoming p (comp_left - cl') /\ (input' = [] -> cl' = 0)) /\
    (failed = true -> Z.of_nat (length (upcoming p comp_left)) < comp_left).
Proof.
  intros Hw Hpos Hcl. unfold refill. destruct input as [|b input]; cbn [length Nat.eqb].
  2: { exists false, comp_left, (b :: input), p. split; [done|]. split; [by split|]. split; [done|].
       split; [lia|]. split; [lia|]. split; [|done]. intros _. rewrite Z.sub_diag, app_nil_r.
       split; [lia|]. done. }
  set (n := if kBufSize <? comp_left then kBufSize else comp_left).
  assert (Hn : 0 <= n <= comp_left /\ (n = 0 -> comp_left = 0)).
  { unfold n. destruct (Z.ltb_spec kBufSize comp_left); unfold kBufSize in *; lia. }
  destruct (archive_read n w p) as (p1 & E1 & S1 & O1 & Hp1); [lia|done|done|].
  fold (upcoming p n) in E1, Hp1. erewrite bind_Ok by apply E1. cbn beta iota.
  destruct (Z.eqb_spec (Z.of_nat (length (upcoming p n))) n) as [Hfull|Hshort]; cbn [negb].
  - rewrite u32_small by lia. exists false, (comp_left - n), (upcoming p n), p1. split; [done|].
    split; [done|]. split; [done|]. split; [lia|]. split; [lia|]. split; [|done]. intros _.
    replace (comp_left - (comp_left - n)) with n by lia. split; [lia|]. split; [cbn; lia|]. split; [done|].
    intros E. rewrite E in Hfull. cbn in Hfull. lia.
  - exists true, comp_left, [], p1. split; [done|]. split; [done|]. split; [done|]. split; [lia|].
    split; [lia|]. split; [done|]. intros _. unfold upcoming in *. rewrite length_take in *. lia.
Qed.

Lemma flush_run zerr out (w : W) (p : proc) :
  w_ok w p -> Z.of_nat (length out) <= kBufSize ->
  (exists out' w' p', flush zerr out (w, p) = Ok ((false, out'), (w', p')) /\ steps w p w' p' /\
     w_out w' p' ++ out' = w_out w p ++ out /\ Z.of_nat (length out') < kBufSize /\
     zf_pos fd (proc_sys p') = zf_pos fd (proc_sys p) /\ (zerr = Z_STREAM_END -> out' = [])) \/
  (flush zerr out (w, p) = Ok ((true, []), (w, p)) /\ w_cap w < Z.of_nat (length (w_out w p ++ out))).
Proof.
  intros Hw Hout. unfold flush. destruct (_ || _) eqn:Hb.
  - destruct (append_cases w p out Hw) as [(w2 & p2 & E2 & S2 & O2 & Hp2)|(E2 & Hno)];
      [unfold kBufSize in *; lia|left|right]; erewrite bind_Ok by apply E2.
    + exists [], w2, p2. rewrite app_nil_r. done.
    + done.
  - apply orb_false_iff in Hb as [Hb1 Hb2]. apply Z.eqb_neq in Hb1. left. exists out, w, p.
    split; [done|]. split; [by split|]. split; [done|]. split; [lia|]. split; [done|]. intros ->.
    apply andb_false_iff in Hb2 as [Hb2|Hb2]; [done|]. apply negb_false_iff, Nat.eqb_eq in Hb2.
    by destruct out.
Qed.

(** The loop stops on any archive: every round that goes on consumes input or
    fills the buffer, and the writer takes no more than its capacity. *)
Lemma inflate_loop_any `{!InflateProgress Zs} : forall fuel comp_left input out zs (w : W) (p : proc),
  w_ok w p -> 0 <= zf_pos fd (proc_sys p) -> 0 <= comp_left < 2 ^ 32 -> Z.of_nat (length out) < kBufSize ->
  comp_left + Z.of_nat (length input) + (w_cap w - Z.of_nat (length (w_out w p ++ out))) + kBufSize <
    Z.of_nat fuel ->
  exists r cl zs' w' p', inflate_loop fuel fd comp_left input out zs (w, p) = Ok ((r, cl, zs'), (w', p')) /\
    steps w p w' p' /\ 0 <= cl < 2 ^ 32 /\ 0 <= zf_pos fd (proc_sys p').
Proof.
  induction fuel as [|fuel IH]; intros comp_left input out zs w p Hw Hpos Hcl Hout Hfuel;
    pose proof (w_fits w p Hw) as Hfits.
  { rewrite length_app in Hfuel. unfold kBufSize in *. lia. }
  cbn [inflate_loop].
  destruct (refill_run comp_left input w p Hw Hpos Hcl)
    as (failed & cl & input' & p1 & E1 & S1 & O1 & Hcl' & Hmono & Hok & _).
  erewrite bind_Ok by apply E1. cbn beta iota. pose proof (proj1 S1) as Hw1.
  destruct failed; [exists kIoError, cl, zs, w, p1; split; [done|]; split; [done|lia]|].
  destruct (Hok eq_refl) as (Hp1 & Hsum & _ & _).
  destruct (inflate input' _ zs) as [[[zerr consumed] produced] zs'] eqn:Einf.
  destruct (zp_step _ _ _ _ _ _ _ Einf) as (Hc & Hpr & Hprog); [lia|].
  destruct (negb _ && negb _); [exists kZlibError, cl, zs', w, p1; split; [done|]; split; [done|lia]|].
  destruct (flush_run zerr (out ++ produced) w p1 Hw1) as [(out' & w2 & p2 & E2 & S2 & O2 & Hl2 & Hp2 & _)|(E2 & _)];
    [rewrite length_app; lia|..]; erewrite bind_Ok by apply E2; cbn beta iota.
  2: { exists kInconsistentInformation, cl, zs', w, p1. split; [done|]. split; [done|lia]. }
  pose proof (steps_trans _ _ _ _ _ _ S1 S2) as S12.
  destruct (Z.eqb_spec zerr Z_OK) as [Hz|]; [|exists 0, cl, zs', w2, p2; split; [done|]; split; [done|lia]].
  destruct (IH cl (drop consumed input') out' zs' w2 p2) as (r & cl3 & zs3 & w3 & p3 & E3 & S3 & H3);
    [apply S2|lia|lia|done| |].
  { rewrite O2, O1, (proj1 (proj2 S2)), length_drop. rewrite !length_app in *.
    destruct (Hprog Hz) as [?|?]; [lia|]. destruct produced; [done|simpl length in *; lia]. }
  exists r, cl3, zs3, w3, p3. split; [done|]. split; [by eapply steps_trans|done].
Qed.

(** A stream whose bytes are next in the archive is written whole. *)
Lemma inflate_loop_ok `{!InflateSpec Zs} : forall fuel comp_left input out zs u (w : W) (p : proc),
  w_ok w p -> 0 <= zf_pos fd (proc_sys p) -> 0 <= comp_left < 2 ^ 32 -> Z.of_nat (length out) < kBufSize ->
  comp_left + Z.of_nat (length input) + (w_cap w - Z.of_nat (length (w_out w p ++ out))) + kBufSize <
    Z.of_nat fuel ->
  Z.of_nat (length (upcoming p comp_left)) = comp_left -> zs_pending zs (input ++ upcoming p comp_left) u ->
  Z.of_nat (length (w_out w p ++ out ++ u)) <= w_cap w ->
  exists zs' w' p', inflate_loop fuel fd comp_left input out zs (w, p) = Ok ((0, 0, zs'), (w', p')) /\
    steps w p w' p' /\ w_out w' p' = w_out w p ++ out ++ u /\ total_out zs' = total_out zs + Z.of_nat (length u).
Proof.
  induction fuel as [|fuel IH]; intros comp_left input out zs u w p Hw Hpos Hcl Hout Hfuel Hup Hpend Hcap;
    pose proof (w_fits w p Hw) as Hfits.
  { rewrite !length_app in *. unfold kBufSize in *. lia. }
  cbn [inflate_loop].
  destruct (refill_run comp_left input w p Hw Hpos Hcl)
    as (failed & cl & input' & p1 & E1 & S1 & O1 & Hcl' & Hmono & Hok & Hfail).
  erewrite bind_Ok by apply E1. cbn beta iota. pose proof (proj1 S1) as Hw1.
  destruct failed; [specialize (Hfail eq_refl); lia|]. destruct (Hok eq_refl) as (Hp1 & Hsum & Hin & Hnil).
  pose proof (upcoming_split p comp_left (comp_left - cl) p1 ltac:(lia) Hpos (proj2 (proj2 S1)) Hp1) as Hsplit.
  replace (comp_left - (comp_left - cl)) with cl in Hsplit by lia.
  assert (Hup1 : Z.of_nat (length (upcoming p1 cl)) = cl).
  { pose proof (length_upcoming p (comp_left - cl) ltac:(lia)). pose proof (length_upcoming p1 cl ltac:(lia)).
    rewrite Hsplit, length_app in Hup. lia. }
  rewrite Hsplit, app_assoc, <- Hin in Hpend.
  destruct (zs_step zs input' (upcoming p1 cl) u (kBufSize - Z.of_nat (length out)) Hpend)
    as (zerr & consumed & produced & zs' & u' & -> & -> & Hpr & Htot & Hc & Hcase);
    [intros E; rewrite (Hnil E); done|lia|].
  assert (Hzerr : (negb (zerr =? Z_OK) && negb (zerr =? Z_STREAM_END)) = false)
    by (destruct Hcase as [(-> & _)|(-> & _)]; done). rewrite Hzerr.
  destruct (flush_run zerr (out ++ produced) w p1 Hw1)
    as [(out' & w2 & p2 & E2 & S2 & O2 & Hl2 & Hp2 & Hend)|(E2 & Hno)];
    [rewrite length_app; lia|..]; erewrite bind_Ok by apply E2; cbn beta iota.
  2: { exfalso. rewrite O1 in Hno. rewrite !length_app in *. lia. }
  pose proof (steps_trans _ _ _ _ _ _ S1 S2) as S12. rewrite O1 in O2.
  destruct Hcase as [(-> & Hprog & Hpend')|(-> & -> & Hrest)].
  - cbn [Z.eqb Z_OK].
    assert (Hup2 : upcoming p2 cl = upcoming p1 cl) by (unfold upcoming; by rewrite (proj2 (proj2 S2)), Hp2).
    destruct (IH cl (drop consumed input') out' zs' u' w2 p2) as (zs3 & w3 & p3 & E3 & S3 & O3 & T3).
    { apply S2. } { lia. } { lia. } { done. }
    { rewrite O2, (proj1 (proj2 S2)), length_drop. rewrite !length_app in *.
      destruct Hprog as [?|?]; [lia|]. destruct produced; [done|simpl length in *; lia]. }
    { by rewrite Hup2. } { by rewrite Hup2. }
    { rewrite app_assoc, O2, (proj1 (proj2 S2)), <- !app_assoc. done. }
    exists zs3, w3, p3. split; [done|]. split; [by eapply steps_trans|].
    rewrite O3, app_assoc, O2, <- !app_assoc, T3, Htot, length_app. split; [done|lia].
  - cbn [Z.eqb Z_STREAM_END Z_OK]. rewrite Hrest in Hup1. cbn in Hup1. subst cl.
    exists zs', w2, p2. split; [done|]. split; [done|]. rewrite (Hend eq_refl), app_nil_r in O2.
    rewrite O2, app_nil_r. done.
Qed.

(** ** Entries *)

Record entry_range (e : ZipEntry) : Prop := {
  er_offset : 0 <= offset e < 2 ^ 63;
  er_comp : 0 <= compressed_length e < 2 ^ 32;
  er_uncomp : 0 <= uncompressed_length e < 2 ^ 32
}.

Lemma archive_seek off (w : W) (p : proc) :
  0 <= off < 2 ^ 63 -> w_ok w p ->
  exists p', on_snd (sys (sys_lseek fd off SEEK_SET)) (w, p) = Ok (off, (w, p')) /\ steps w p w p' /\
    w_out w p' = w_out w p /\ zf_pos fd (proc_sys p') = off.
Proof.
  intros Ho Hw. destruct (zf_seek_set fd off (proc_sys p) Ho) as (k' & E & Hc & Hoth & Hpos).
  exists (Process (mPageSize p) k'). split; [apply on_snd_ok; by apply sys_ok|].
  destruct (w_reads w p (Process (mPageSize p) k')) as [H1 H2]; [by split|done|].
  split; [|done]. split; [done|]. split; [done|]. apply Hc.
Qed.

Lemma UpdateEntryFromDataDescriptor_any entry (w : W) (p : proc) :
  w_ok w p -> 0 <= zf_pos fd (proc_sys p) ->
  exists r e' p', UpdateEntryFromDataDescriptor fd entry (w, p) = Ok ((r, e'), (w, p')) /\ steps w p w p' /\
    w_out w p' = w_out w p.
Proof.
  intros Hw Hpos. unfold UpdateEntryFromDataDescriptor.
  destruct (archive_read (DD_SIZE + 4) w p) as (p1 & E1 & S1 & O1 & _); [done..|].
  erewrite bind_Ok by apply E1. cbn beta iota. destruct (negb _); by eexists _, _, p1.
Qed.

Lemma CopyEntryToWriter_run entry (w : W) (p : proc) :
  w_ok w p -> 0 <= zf_pos fd (proc_sys p) -> 0 <= uncompressed_length entry < 2 ^ 32 ->
  let d := upcoming p (uncompressed_length entry) in
  exists r crc w' p', CopyEntryToWriter fd entry (w, p) = Ok ((r, crc), (w', p')) /\ steps w p w' p' /\
    ((r = 0 /\ w_out w' p' = w_out w p ++ d /\ Z.of_nat (length d) = uncompressed_length entry /\
      0 <= zf_pos fd (proc_sys p')) \/
     (r = kIoError /\ (Z.of_nat (length d) < uncompressed_length entry \/
        w_cap w < Z.of_nat (length (w_out w p ++ d))))).
Proof.
  intros Hw Hpos Hu d. unfold CopyEntryToWriter. set (len := uncompressed_length entry) in *.
  destruct (copy_loop_run len (S (Z.to_nat (len / kBufSize))) w p 0 0) as (r & crc & w' & p' & E & S1 & Hr);
    [done|done|lia|lia| |].
  { pose proof (Z.div_pos len kBufSize ltac:(lia) ltac:(done)).
    pose proof (Z.mul_succ_div_gt len kBufSize ltac:(done)). unfold kBufSize in *. lia. }
  rewrite Z.sub_0_r in Hr. fold d in Hr. exists r, crc, w', p'. split; [done|]. split; [done|].
  destruct Hr as [(-> & ? & ? & Hp)|Hr]; [left|by right]. split; [done|]. split; [done|]. split; [done|lia].
Qed.

(** Whatever the archive holds, extraction returns, and only through the
    writer. *)
Lemma ExtractToWriter_any `{!InflateProgress Zs} fuel a entry (w : W) (p : proc) :
  za_fd a = fd -> entry_range entry -> w_ok w p ->
  compressed_length entry + (w_cap w - Z.of_nat (length (w_out w p))) + kBufSize < Z.of_nat fuel ->
  exists r e' w' p', ExtractToWriter fuel a entry (w, p) = Ok ((r, e'), (w', p')) /\ steps w p w' p'.
Proof.
  intros Hfd [Ho Hc Hu] Hw Hfuel. unfold ExtractToWriter. rewrite Hfd.
  destruct (archive_seek (offset entry) w p Ho Hw) as (p1 & E1 & S1 & O1 & Hp1).
  erewrite bind_Ok by apply E1. cbn beta iota. rewrite Z.eqb_refl. cbn [negb].
  assert (G : exists r crc w2 p2, (if method entry =? kCompressStored then CopyEntryToWriter fd entry
      else if method entry =? kCompressDeflated then InflateEntryToWriter fuel fd entry
      else ret (-1, 0)) (w, p1) = Ok ((r, crc), (w2, p2)) /\ steps w p1 w2 p2 /\
      (r = 0 -> 0 <= zf_pos fd (proc_sys p2))).
  { destruct (method entry =? kCompressStored); [|destruct (method entry =? kCompressDeflated)].
    - destruct (CopyEntryToWriter_run entry w p1 (proj1 S1) ltac:(lia) Hu) as (r & crc & w2 & p2 & E & S2 & Hr).
      exists r, crc, w2, p2. split; [done|]. split; [done|]. intros ->. by destruct Hr as [(_ & _ & _ & ?)|(? & _)].
    - unfold InflateEntryToWriter. destruct (inflateInit2 _) as [zerr zs].
      destruct (negb _); [exists kZlibError, 0, w, p1; split; [done|]; by split; [split; [apply S1|done]|]|].
      destruct (inflate_loop_any fuel (compressed_length entry) [] [] zs w p1) as (r & cl & zs' & w2 & p2 & E & S2 & _ & Hp2);
        [apply S1|lia|done|done|rewrite app_nil_r, O1; cbn [length]; lia|].
      erewrite bind_Ok by apply E. cbn beta iota.
      destruct (negb _); [by exists r, 0, w2, p2|]. destruct (_ || _); by eexists _, _, w2, p2.
    - exists (-1), 0, w, p1. split; [done|]. split; [split; [apply S1|done]|done]. }
  destruct G as (r & crc & w2 & p2 & E2 & S2 & Hp2). erewrite bind_Ok by apply E2. cbn beta iota.
  pose proof (steps_trans _ _ _ _ _ _ S1 S2) as S12.
  destruct (Z.eqb_spec r 0) as [->|]; cbn [andb]; [destruct (negb _)|];
    try (unfold bind, ret; cbn; by eexists _, entry, w2, p2).
  destruct (UpdateEntryFromDataDescriptor_any entry w2 p2) as (r & e' & p3 & E3 & S3 & _); [apply S2|by apply Hp2|].
  erewrite bind_Ok by apply E3. exists r, e', w2, p3. split; [done|]. by eapply steps_trans.
Qed.

(** ** Entries in the format *)

(** The bytes the entry stands for. *)
Definition contains `{!InflateSpec Zs} (e : zent) (u : list byte) : Prop :=
  z_usize e = Z.of_nat (length u) /\
  ((z_method e = kCompressStored /\ u = z_data e) \/
   (z_method e = kCompressDeflated /\ deflated (z_data e) u)).

Lemma upcoming_data es1 e es2 comment (p : proc) :
  zf_content fd (proc_sys p) = zip_image (es1 ++ e :: es2) comment -> zf_pos fd (proc_sys p) = data_offset es1 e ->
  upcoming p (Z.of_nat (length (z_data e))) = z_data e.
Proof.
  intros Hc Hp. destruct (image_split es1 e es2 comment) as [post Himg]. unfold upcoming. rewrite Hc, Hp, Himg.
  replace (locals es1 ++ lfh_bytes (lfh_of e) ++ z_name e ++ z_extra e ++ z_data e ++ post)
    with ((locals es1 ++ lfh_bytes (lfh_of e) ++ z_name e ++ z_extra e) ++ z_data e ++ post)
    by (by rewrite <- !app_assoc).
  replace (Z.to_nat (data_offset es1 e)) with (length (locals es1 ++ lfh_bytes (lfh_of e) ++ z_name e ++ z_extra e))
    by (rewrite !length_app, length_lfh_bytes; unfold data_offset, LFH_SIZE; lia).
  by rewrite drop_app_length, Nat2Z.id, take_app_length.
Qed.

Lemma data_offset_bound es1 e es2 comment :
  zip_ok (es1 ++ e :: es2) comment -> 0 <= data_offset es1 e < 2 ^ 63.
Proof.
  intros Hz. pose proof (zk_size _ _ Hz) as Hsz. rewrite length_zip_image, locals_app, locals_cons in Hsz.
  rewrite !length_app, length_local_bytes in Hsz. unfold data_offset, LFH_SIZE. lia.
Qed.

Lemma ExtractToWriter_image `{!InflateSpec Zs} fuel a es1 e es2 comment u (w : W) (p : proc) :
  za_fd a = fd -> zip_ok (es1 ++ e :: es2) comment ->
  zf_content fd (proc_sys p) = zip_image (es1 ++ e :: es2) comment -> contains e u -> w_ok w p ->
  Z.of_nat (length (w_out w p ++ u)) <= w_cap w ->
  Z.of_nat (length (z_data e)) + w_cap w + kBufSize < Z.of_nat fuel ->
  exists w' p', ExtractToWriter fuel a (entry_of es1 e) (w, p) = Ok ((0, entry_of es1 e), (w', p')) /\
    steps w p w' p' /\ w_out w' p' = w_out w p ++ u.
Proof.
  intros Hfd Hz Hc Hu Hw Hcap Hfuel. unfold ExtractToWriter. rewrite Hfd.
  assert (He : zent_ok e) by (pose proof (zk_entries _ _ Hz) as Hf; rewrite Forall_app, Forall_cons in Hf; apply Hf).
  destruct (archive_seek (data_offset es1 e) w p (data_offset_bound _ _ _ _ Hz) Hw) as (p1 & E1 & S1 & O1 & Hp1).
  cbn [offset entry_of]. erewrite bind_Ok by apply E1. cbn beta iota. rewrite Z.eqb_refl. cbn [negb].
  pose proof (data_offset_bound _ _ _ _ Hz) as Hoff.
  assert (Hup : upcoming p1 (Z.of_nat (length (z_data e))) = z_data e).
  { eapply upcoming_data; [rewrite (proj2 (proj2 S1)); exact Hc|done]. }
  assert (G : exists crc w2 p2, (if method (entry_of es1 e) =? kCompressStored then CopyEntryToWriter fd (entry_of es1 e)
      else if method (entry_of es1 e) =? kCompressDeflated then InflateEntryToWriter fuel fd (entry_of es1 e)
      else ret (-1, 0)) (w, p1) = Ok ((0, crc), (w2, p2)) /\ steps w p1 w2 p2 /\ w_out w2 p2 = w_out w p ++ u).
  { cbn [method entry_of]. destruct Hu as (Hus & [(-> & ->)|(-> & Hdef)]).
    - cbn [Z.eqb kCompressStored].
      destruct (CopyEntryToWriter_run (entry_of es1 e) w p1 (proj1 S1) ltac:(lia) (zo_usize _ He))
        as (r & crc & w2 & p2 & E & S2 & Hr). cbn [uncompressed_length entry_of] in Hr. rewrite Hus, Hup, O1 in Hr.
      destruct Hr as [(-> & Ho & _ & _)|(_ & Hbad)]; [by exists crc, w2, p2|lia].
    - cbn [Z.eqb Pos.eqb kCompressStored kCompressDeflated]. unfold InflateEntryToWriter.
      destruct zs_init as (zs & -> & Htot & Hinit). cbn [Z.eqb Z_OK negb].
      pose proof (w_fits w p Hw).
      destruct (inflate_loop_ok fuel (Z.of_nat (length (z_data e))) [] [] zs u w p1) as (zs' & w2 & p2 & E & S2 & O2 & T2);
        [apply S1|lia|apply He|done|rewrite app_nil_r, O1; cbn [length]; lia|by rewrite Hup|rewrite Hup; by apply Hinit|
         rewrite O1; done|].
      cbn [compressed_length uncompressed_length entry_of]. erewrite bind_Ok by apply E. cbn beta iota. cbn [Z.eqb negb].
      rewrite T2, Htot, Hus, Z.add_0_l, Z.eqb_refl. cbn [negb orb]. exists (adler zs'), w2, p2.
      split; [done|]. split; [done|]. by rewrite O2, O1. }
  destruct G as (crc & w2 & p2 & E2 & S2 & O2). erewrite bind_Ok by apply E2. cbn beta iota.
  cbn [Z.eqb andb has_data_descriptor entry_of negb]. exists w2, p2. split; [done|]. split; [by eapply steps_trans|done].
Qed.
End Copy.
