(* ===== verification/ZipExamples.v ===== *)
(** * Regular files and stored blocks

    The kernel and the zlib that the theorems on zip archives are applied to: a
    kernel with one file per descriptor, pages of 64 bytes, short writes and no
    [fallocate], and an inflater of streams that are one stored block. *)

From S2P Require Import Prelude BackedBlock Crc32 OutputFile Sparse SparseRead ZipArchive.
From S2P Require Import Unicode UnicodeProps ZipName ZipTable ZipParse ZipFind ZipFormat ZipRoundTrip ZipExtract.
From S2P Require Import ZipWriter ZipCopy.

#[local] Open Scope Z_scope.
#[local] Open Scope c_scope.

(** ** Files *)

Record files : Type := Files { f_content : Z -> list byte; f_pos : Z -> Z; f_errno : Z }.

Definition upd {A} (f : Z -> A) (fd : Z) (a : A) : Z -> A := fun x => if x =? fd then a else f x.

Lemma upd_eq {A} (f : Z -> A) fd a : upd f fd a fd = a.
Proof. unfold upd. by rewrite Z.eqb_refl. Qed.

Lemma upd_ne {A} (f : Z -> A) fd a x : x <> fd -> upd f fd a x = f x.
Proof. intros H. unfold upd. by rewrite (proj2 (Z.eqb_neq _ _)). Qed.

Definition seek (fd pos : Z) (k : files) : files := Files (f_content k) (upd (f_pos k) fd pos) (f_errno k).

Definition slice (c : list byte) (off count : Z) : list byte := take (Z.to_nat count) (drop (Z.to_nat off) c).

#[export] Instance files_read : ReadKernel files := {|
  sys_read fd count k :=
    let data := slice (f_content k fd) (f_pos k fd) count in
    ((Z.of_nat (length data), data), seek fd (f_pos k fd + Z.of_nat (length data)) k);
  sys_lseek fd off w k :=
    let target := off + match w with
      | SEEK_SET => 0 | SEEK_CUR => f_pos k fd | SEEK_END => Z.of_nat (length (f_content k fd)) end in
    if target <? 0 then (-1, k) else (target, seek fd target k);
  rd_errno k := f_errno k
|}.

Definition example_page : Z := 64.

Definition page_up (n : Z) : Z := (n + example_page - 1) / example_page * example_page.

(** The pages of the file from [off] on, filled with zeros. *)
Definition file_pages (c : list byte) (off : Z) : list byte :=
  drop (Z.to_nat off) (c ++ replicate (Z.to_nat (page_up (Z.of_nat (length c)) - Z.of_nat (length c))) Byte.x00).

#[export] Instance files_zip : ZipKernel files := {|
  sys_open _ k := (-1, k);
  sys_close _ k := (0, k);
  sys_pread fd count off k :=
    let data := slice (f_content k fd) off count in ((Z.of_nat (length data), data), k);
  sys_sysconf_pagesize k := (example_page, k);
  sys_mmap len fd off k :=
    let pages := file_pages (f_content k fd) off in
    (Some (if Z.of_nat (length pages) <=? page_up len then pages else take (Z.to_nat (page_up len)) pages), k);
  sys_munmap _ _ k := (0, k);
  sys_alloc _ k := (true, k);
  sys_fallocate _ _ _ k := (-1, Files (f_content k) (f_pos k) 95)
|}.

(** [write] stores at most eight bytes. *)
#[export] Instance files_write : Kernel files := {|
  sys_write fd data k :=
    let n := Nat.min (length data) 8 in
    let c := f_content k fd in
    let pos := Z.to_nat (f_pos k fd) in
    (Z.of_nat n, Files (upd (f_content k) fd (take pos c ++ take n data ++ drop (pos + n) c))
                   (upd (f_pos k) fd (f_pos k fd + Z.of_nat n)) (f_errno k));
  sys_lseek_cur fd off k := sys_lseek fd off SEEK_CUR k;
  sys_ftruncate fd len k :=
    let c := f_content k fd in
    (0, Files (upd (f_content k) fd (take (Z.to_nat len) (c ++ replicate (Z.to_nat len - length c) Byte.x00)))
          (f_pos k) (f_errno k));
  sys_errno k := f_errno k
|}.

Lemma page_up_ge n : n <= page_up n.
Proof.
  unfold page_up, example_page. pose proof (Z.div_mod (n + 64 - 1) 64 ltac:(lia)).
  pose proof (Z.mod_pos_bound (n + 64 - 1) 64 ltac:(lia)). lia.
Qed.

Lemma take_file_pages c off len :
  0 <= len -> 0 <= off -> off + len <= Z.of_nat (length c) ->
  take (Z.to_nat len) (file_pages c off) = slice c off len.
Proof.
  intros Hl Ho Hc. unfold file_pages, slice. rewrite drop_app_le, take_app_le by (rewrite ?length_drop; lia). done.
Qed.

#[export] Instance files_regular : ZipFile files.
Proof.
  refine {| zf_content fd k := f_content k fd; zf_pos fd k := f_pos k fd; zf_page := example_page |}.
  - done.
  - done.
  - intros fd count k Hc Hp data. eexists. split; [reflexivity|]. split; [done|].
    split; [intros fd' Hne; by apply upd_ne|]. apply upd_eq.
  - done.
  - intros fd off k Ho. eexists. split; [|split; [|split]].
    + cbn. rewrite Z.add_0_r, (proj2 (Z.ltb_ge _ _)) by lia. reflexivity.
    + done.
    + intros fd' Hne. by apply upd_ne.
    + apply upd_eq.
  - intros fd k. eexists. split; [cbn; rewrite (proj2 (Z.ltb_ge _ _)) by lia; reflexivity|done].
  - intros fd len off k Hl Ho Hm Hc. pose proof (page_up_ge len).
    pose proof (take_file_pages (f_content k fd) off len ltac:(lia) Ho Hc) as Ht. unfold slice in Ht.
    cbn [sys_mmap files_zip]. set (l := file_pages (f_content k fd) off) in *. rewrite <- Ht.
    destruct (Z.leb_spec (Z.of_nat (length l)) (page_up len)).
    + exists (drop (Z.to_nat len) l), k. by rewrite take_drop.
    + exists (drop (Z.to_nat len) (take (Z.to_nat (page_up len)) l)), k.
      rewrite <- (take_drop (Z.to_nat len) (take (Z.to_nat (page_up len)) l)) at 1.
      rewrite take_take, Nat.min_l by lia. done.
  - done.
Defined.

#[export] Instance files_out : ZipOutFile files.
Proof.
  refine {| zo_apart fd fd' := fd <> fd' |}.
  - intros fd data k Hd Hp. exists (Nat.min (length data) 8). eexists. split; [reflexivity|].
    split; [destruct data; [done|cbn [length]; lia]|]. cbn. rewrite !upd_eq. split; [done|]. split; [done|].
    intros fd' Hne. by rewrite !upd_ne by done.
  - intros fd k Hp. eexists. split; [cbn in *; rewrite (proj2 (Z.ltb_ge _ _)) by lia; reflexivity|].
    split; [done|]. intros fd'. cbn. unfold upd. by destruct (Z.eqb_spec fd' fd) as [->|].
  - intros fd off len k Ho Hl. exists (-1). eexists. exists 0%nat. split; [reflexivity|]. cbn.
    split; [done|]. rewrite app_nil_r. split; [done|]. split; [by left|done].
  - intros fd len k Hl. eexists. split; [reflexivity|]. cbn. rewrite upd_eq. split; [done|]. split; [done|].
    intros fd' Hne. by rewrite upd_ne by done.
Defined.

(** ** Stored blocks

    A raw stream that is one final stored block: a byte of flags, the length,
    its complement, and the bytes.  The inflater takes a byte at a time. *)

Inductive inflater : Type :=
| Header (got : list byte) (total : Z)
| Body (todo : Z) (total : Z)
| Ended (total : Z).

Definition stored_block (u : list byte) : list byte :=
  Byte.x01 :: le 2 (Z.of_nat (length u)) ++ le 2 (65535 - Z.of_nat (length u)) ++ u.

Lemma length_stored_block u : length (stored_block u) = (5 + length u)%nat.
Proof. unfold stored_block. cbn [length]. rewrite !length_app, !length_le. lia. Qed.

Definition block_length (header : list byte) : Z := field header 1 2.

Definition block_header_ok (header : list byte) : bool :=
  bool_decide (take 1 header = [Byte.x01]) && (field header 1 2 + field header 3 2 =? 65535).

Definition inflate_byte (input : list byte) (zs : inflater) : (Z * nat * list byte) * inflater :=
  match zs, input with
  | Ended t, _ => ((Z_STREAM_END, 0%nat, []), Ended t)
  | _, [] => ((-5, 0%nat, []), zs)
  | Header got t, b :: _ =>
    let got := got ++ [b] in
    if (length got <? 5)%nat then ((Z_OK, 1%nat, []), Header got t)
    else if negb (block_header_ok got) then ((-3, 1%nat, []), Ended t)
    else if block_length got =? 0 then ((Z_STREAM_END, 1%nat, []), Ended t)
    else ((Z_OK, 1%nat, []), Body (block_length got) t)
  | Body todo t, b :: _ =>
    if todo =? 1 then ((Z_STREAM_END, 1%nat, [b]), Ended (t + 1))
    else ((Z_OK, 1%nat, [b]), Body (todo - 1) (t + 1))
  end.

#[export] Instance stored_zlib : RawInflate inflater := {|
  inflateInit2 _ := (Z_OK, Header [] 0);
  inflate input _ zs := inflate_byte input zs;
  total_out zs := match zs with Header _ t | Body _ t | Ended t => t end;
  adler _ := 1;
  zlib_crc32 crc _ := crc
|}.

#[export] Instance stored_progress : InflateProgress inflater.
Proof.
  split. intros input room zs zerr consumed produced zs' E Hroom. cbn in E. unfold inflate_byte in E.
  repeat case_match; simplify_eq/=; (split; [lia|]); (split; [lia|]); intros; try done; left; lia.
Qed.

Definition stored_pending (zs : inflater) (c u : list byte) : Prop :=
  match zs with
  | Header got _ => (length got < 5)%nat /\ got ++ c = stored_block u /\ Z.of_nat (length u) < 2 ^ 16
  | Body todo _ => c = u /\ todo = Z.of_nat (length u) /\ u <> []
  | Ended _ => c = [] /\ u = []
  end.

Lemma stored_header u got c :
  got ++ c = stored_block u -> length got = 5%nat -> Z.of_nat (length u) < 2 ^ 16 ->
  c = u /\ block_header_ok got = true /\ block_length got = Z.of_nat (length u).
Proof.
  intros E Hl Hu.
  assert (got = Byte.x01 :: le 2 (Z.of_nat (length u)) ++ le 2 (65535 - Z.of_nat (length u)) /\ c = u) as [-> ->].
  { apply app_inj_1; [done|]. rewrite E. unfold stored_block. cbn. by rewrite <- app_assoc. }
  split; [done|].
  assert (F1 : block_length (Byte.x01 :: le 2 (Z.of_nat (length u)) ++ le 2 (65535 - Z.of_nat (length u))) =
    Z.of_nat (length u)).
  { unfold block_length. change (field (Byte.x01 :: ?l) 1 2) with (field l 0 2). apply field_here. lia. }
  assert (F2 : field (Byte.x01 :: le 2 (Z.of_nat (length u)) ++ le 2 (65535 - Z.of_nat (length u))) 3 2 =
    65535 - Z.of_nat (length u)).
  { change (field (Byte.x01 :: ?l) 3 2) with (field l 2 2). rewrite field_skip by lia.
    rewrite <- (app_nil_r (le 2 (65535 - _))). apply field_here. lia. }
  split; [|done]. unfold block_header_ok. unfold block_length in F1. rewrite F1, F2.
  rewrite bool_decide_eq_true_2 by done. apply Z.eqb_eq. lia.
Qed.

#[export] Instance stored_spec : InflateSpec inflater.
Proof.
  refine {| deflated c u := c = stored_block u /\ Z.of_nat (length u) < 2 ^ 16; zs_pending := stored_pending |}.
  - eexists. split; [reflexivity|]. split; [done|]. intros c u [-> Hu]. cbn. split; [lia|done].
  - intros zs input rest u room Hpend Hin Hroom. destruct input as [|b input].
    + rewrite (Hin eq_refl) in *. exists Z_STREAM_END, 0%nat, [], zs, [].
      destruct zs as [got t|todo t|t]; cbn in Hpend.
      * destruct Hpend as (Hl & E & _). rewrite app_nil_r in E. rewrite E, length_stored_block in Hl. lia.
      * destruct Hpend as (<- & _ & Hne). done.
      * destruct Hpend as [_ ->]. cbn. split; [done|]. split; [done|]. split; [lia|]. split; [lia|]. split; [lia|].
        by right.
    + cbn [inflate stored_zlib]. destruct zs as [got t|todo t|t]; cbn [inflate_byte stored_pending] in *.
      * destruct Hpend as (Hl & E & Hu). assert (E' : (got ++ [b]) ++ input ++ rest = stored_block u)
          by (by rewrite <- app_assoc).
        destruct (Nat.ltb_spec (length (got ++ [b])) 5) as [Hlt|Hge].
        { exists Z_OK, 1%nat, [], (Header (got ++ [b]) t), u. split; [done|]. split; [done|]. cbn.
          split; [lia|]. split; [lia|]. split; [lia|]. left. split; [done|]. split; [left; lia|]. done. }
        rewrite length_app in Hge. cbn in Hge.
        destruct (stored_header u (got ++ [b]) (input ++ rest) E') as (Hc & Hok & Hlen);
          [rewrite length_app; cbn; lia|done|]. rewrite Hok, Hlen. cbn [negb].
        destruct (Z.eqb_spec (Z.of_nat (length u)) 0) as [H0|H0].
        { destruct u; [|cbn in H0; lia]. exists Z_STREAM_END, 1%nat, [], (Ended t), []. split; [done|].
          split; [done|]. cbn. split; [lia|]. split; [lia|]. split; [lia|]. right.
          apply app_eq_nil in Hc as [_ ->]. done. }
        exists Z_OK, 1%nat, [], (Body (Z.of_nat (length u)) t), u. split; [done|]. split; [done|]. cbn.
        split; [lia|]. split; [lia|]. split; [lia|]. left. split; [done|]. split; [left; lia|].
        split; [done|]. split; [done|]. by intros ->.
      * destruct Hpend as (<- & -> & _). cbn [app length]. destruct (Z.eqb_spec (Z.of_nat (S (length (input ++ rest)))) 1).
        { exists Z_STREAM_END, 1%nat, [b], (Ended (t + 1)), []. destruct (input ++ rest) eqn:E; [|cbn in *; lia].
          apply app_eq_nil in E as [_ ->]. split; [done|]. split; [done|]. cbn. split; [lia|]. split; [lia|].
          split; [lia|]. by right. }
        exists Z_OK, 1%nat, [b], (Body (Z.of_nat (S (length (input ++ rest))) - 1) (t + 1)), (input ++ rest).
        split; [done|]. split; [done|]. cbn [length total_out stored_zlib]. split; [lia|]. split; [lia|]. split; [lia|].
        left. split; [done|]. split; [left; lia|]. split; [done|]. split; [lia|].
        intros E. rewrite E in *. cbn in *. lia.
      * by destruct Hpend as [? _].
Defined.
