(* ===== verification/ZipTheorems.v ===== *)
(** * Zip archives: what the reader promises

    The round trip from the format through opening, finding and extracting; the
    safety of all of it on arbitrary files; the table as a set of names; the
    iteration; and the check of names. *)

From S2P Require Import Prelude BackedBlock Crc32 OutputFile Sparse SparseRead ZipArchive.
From S2P Require Import Unicode UnicodeProps ZipName ZipTable ZipParse ZipFind ZipFormat ZipRoundTrip ZipExtract.
From S2P Require Import ZipWriter ZipCopy ZipExamples.

#[local] Open Scope Z_scope.
#[local] Open Scope c_scope.

(** ** Extraction to memory and to a file *)

Section Extraction.
Context {K Zs : Type} `{HF : ZipFile K} `{HK : Kernel K} `{HZ : RawInflate Zs}.

Lemma client_name m b : Z.of_nat (length b) < 2 ^ 16 -> name_ok m (ZipEntryName_of b) b.
Proof.
  intros Hb. unfold ZipEntryName_of, u16. rewrite Z.mod_small by lia. split; [|done].
  unfold name_bytes, mem_read. cbn. rewrite (proj2 (Z.leb_le _ _)) by lia. by rewrite Nat2Z.id, firstn_all.
Qed.

Lemma inflate_fuel_enough entry size :
  0 <= compressed_length entry -> 0 <= size ->
  compressed_length entry + size + kBufSize < Z.of_nat (inflate_fuel entry size).
Proof. intros Hc Hs. unfold inflate_fuel, kBufSize. lia. Qed.

Lemma ExtractToMemory_image `{!InflateSpec Zs} a es1 e es2 comment u begin size (p : process K) :
  zip_ok (es1 ++ e :: es2) comment ->
  zf_content (za_fd a) (proc_sys p) = zip_image (es1 ++ e :: es2) comment -> contains e u ->
  Z.of_nat (length u) <= size <= Z.of_nat (length begin) -> size < 2 ^ 32 ->
  exists p', ExtractToMemory a (entry_of es1 e) begin size p =
      Ok ((0, entry_of es1 e, u ++ drop (length u) begin), p') /\
    zf_content (za_fd a) (proc_sys p') = zf_content (za_fd a) (proc_sys p).
Proof.
  intros Hz Hc Hu Hs H32. unfold ExtractToMemory.
  assert (Hr : mw_region begin (MemoryWriter_new begin size)) by (apply mw_region_new; lia).
  destruct (ExtractToWriter_image (za_fd a) (HS := MemoryWriter_spec begin (za_fd a))
    (inflate_fuel (entry_of es1 e) size) a es1 e es2 comment u (MemoryWriter_new begin size) p)
    as (w & p' & E & (Hw & _ & Hk) & Ho); try done.
  - change (w_out (MemoryWriter_new begin size) p ++ u) with u. cbn. lia.
  - apply (inflate_fuel_enough (entry_of es1 e)); cbn; lia.
  - rewrite E. cbn [obind]. exists p'. split; [|done]. cbn in Hw, Ho.
    rewrite (mw_region_buf begin w Hw), Ho. done.
Qed.

Lemma ExtractEntryToFile_image `{!InflateSpec Zs} `{!ZipOutFile K} a es1 e es2 comment u fd (p : process K) :
  zip_ok (es1 ++ e :: es2) comment ->
  zf_content (za_fd a) (proc_sys p) = zip_image (es1 ++ e :: es2) comment -> contains e u ->
  0 <= zf_pos fd (proc_sys p) -> zo_apart fd (za_fd a) -> fd <> za_fd a ->
  exists p', ExtractEntryToFile a (entry_of es1 e) fd p = Ok ((0, entry_of es1 e), p') /\
    zf_content fd (proc_sys p') = in_front_of (zf_content fd (proc_sys p)) (zf_pos fd (proc_sys p)) ++ u /\
    zf_content (za_fd a) (proc_sys p') = zf_content (za_fd a) (proc_sys p).
Proof.
  intros Hz Hc Hu Hp Hap Hne. unfold ExtractEntryToFile.
  assert (He : zent_ok e) by (pose proof (zk_entries _ _ Hz) as Hf; rewrite Forall_app, Forall_cons in Hf; apply Hf).
  destruct (FileWriter_Create_ok fd (za_fd a) (entry_of es1 e) p Hp (zo_usize _ He) Hap Hne)
    as (w & p1 & E1 & Hw & Ht & Hd & Hk1).
  set (pre := in_front_of _ _) in *. rewrite E1. cbn [obind]. cbn [uncompressed_length entry_of] in Hd.
  assert (Ho : fw_out pre w p1 = []) by (unfold fw_out; rewrite Ht; done).
  destruct (ExtractToWriter_image (za_fd a) (HS := FileWriter_spec pre fd (za_fd a))
    (inflate_fuel (entry_of es1 e) (z_usize e)) a es1 e es2 comment u w p1) as (w2 & p2 & E2 & (Hw2 & Hcap & Hk2) & Ho2);
    try done.
  - by rewrite Hk1.
  - cbn. rewrite Ho, Hd. cbn. rewrite (proj1 Hu). lia.
  - cbn [w_cap FileWriter_spec]. rewrite Hd. apply (inflate_fuel_enough (entry_of es1 e)); [cbn; lia|apply He].
  - cbn [uncompressed_length entry_of]. rewrite E2. cbn [obind]. exists p2. split; [done|]. split; [|congruence].
    cbn [w_ok w_out w_cap FileWriter_spec] in *. rewrite Ho in Ho2. cbn in Ho2.
    destruct Hw2 as (<- & _ & _ & _ & out & rest & Hco & Hl & Hr & _).
    rewrite (fw_out_eq _ _ _ _ _ Hco Hl) in Ho2. subst out. rewrite Hco.
    destruct rest; [by rewrite app_nil_r|]. pose proof (proj1 Hu). cbn in Hr. lia.
Qed.
End Extraction.

(** ** An example *)

Definition ascii_bytes (s : string) : list byte := String.list_byte_of_string s.

Definition ex_stored : zent :=
  ZEnt (ascii_bytes "a.txt") (ascii_bytes "hello") kCompressStored 0x3610a686 5 100 200 0
    [] (ascii_bytes "x") [] 20 20 0.

Definition ex_deflated : zent :=
  ZEnt (ascii_bytes "dir/b") (stored_block (ascii_bytes "hi!")) kCompressDeflated 7 3 100 200 0
    (ascii_bytes "extra") [] (ascii_bytes "note") 20 20 0.

Definition ex_entries : list zent := [ex_stored; ex_deflated].
Definition ex_comment : list byte := ascii_bytes "end".

Lemma checked_name l : IsValidEntryName l (Z.of_nat (length l)) = Ok true -> wf_name (byte.unsigned <$> l).
Proof.
  intros E. destruct (IsValidEntryName_run l (length l)) as (r & E' & Hr); [lia|].
  rewrite E in E'. injection E' as <-. rewrite firstn_all in Hr. by apply Hr.
Qed.

Lemma ex_zip_ok : zip_ok ex_entries ex_comment.
Proof.
  split; try by vm_compute.
  - repeat constructor; try (by apply checked_name; vm_compute); by vm_compute.
  - by apply (bool_decide_unpack _); vm_compute.
  - intros [|[|[|[|i]]]] Hi; cbn in Hi; try lia; by vm_compute.
Defined.

(** The archive is on descriptor 3, an output file on descriptor 4. *)
Definition ex_files : files :=
  Files (fun fd => if fd =? 3 then zip_image ex_entries ex_comment
                   else if fd =? 4 then ascii_bytes "old text" else [])
    (fun fd => if fd =? 4 then 2 else 0) 0.

Definition ex_process : process files := Process (-1) ex_files.

Lemma ex_content : zf_content 3 (proc_sys ex_process) = zip_image ex_entries ex_comment.
Proof. reflexivity. Qed.

Definition ex_data : ZipEntry := Build_ZipEntry 0 0 0 0 0 0 0.

(** ** Round trips *)

(** C13: a file that is laid out as a zip archive (any number of entries below
    2^16 with distinct valid names, extra fields, comments, and a total size
    below 2^32) is opened.  Then, in any later state of the process in which the
    file is the same, every entry is found by its name with its method, sizes,
    checksum and the offset of its data; extracting it to a region of memory
    that is large enough returns 0 and leaves its uncompressed bytes at the
    start of the region and the rest of the region as it was, for stored
    entries and for deflated ones; and a name that is not in the archive gives
    [kEntryNotFound]. *)
Theorem zip_archive_round_trip {K Zs : Type} `{ZipFile K} `{InflateSpec Zs} (p : process K) fd own es comment :
  zip_ok es comment -> zf_content fd (proc_sys p) = zip_image es comment -> 0 <= fd -> page_ok p ->
  exists a p', OpenArchiveFd fd own p = Ok ((0, a), p') /\
    zf_content fd (proc_sys p') = zip_image es comment /\
    forall q : process K, zf_content fd (proc_sys q) = zip_image es comment ->
    (forall es1 e es2 data, es = es1 ++ e :: es2 ->
       FindEntry a (ZipEntryName_of (z_name e)) data q = Ok ((0, entry_of es1 e), q) /\
       forall u begin size, contains e u -> Z.of_nat (length u) <= size <= Z.of_nat (length begin) ->
         size < 2 ^ 32 ->
         exists q', ExtractToMemory a (entry_of es1 e) begin size q =
             Ok ((0, entry_of es1 e, u ++ drop (length u) begin), q') /\
           zf_content fd (proc_sys q') = zip_image es comment) /\
    (forall b data, b <> [] -> Z.of_nat (length b) < 2 ^ 16 -> b ∉ z_name <$> es ->
       FindEntry a (ZipEntryName_of b) data q = Ok ((kEntryNotFound, data), q)).
Proof.
  intros Hz Hc Hfd Hp.
  destruct (OpenArchiveFd_image fd own p es comment Hz Hc Hfd Hp) as (a & table & tes & p' & E & [Hk _] & Ha).
  exists a, p'. split; [done|]. split; [by rewrite Hk|]. intros q Hq. split.
  - intros es1 e es2 data Hes. assert (He : zent_ok e).
    { pose proof (zk_entries _ _ Hz) as Hf. rewrite Hes, Forall_app, Forall_cons in Hf. apply Hf. }
    split; [eapply FindEntry_image; try done; apply client_name, He|].
    intros u begin size Hu Hs H32. rewrite Hes in Hz, Hq. pose proof (ia_fd _ _ _ _ _ Ha) as <-.
    destruct (ExtractToMemory_image a es1 e es2 comment u begin size q Hz Hq Hu Hs H32) as (q' & E' & Hk').
    exists q'. split; [done|]. rewrite Hes. congruence.
  - intros b data Hb Hl Hnot. eapply FindEntry_image_absent; [done|by apply client_name|done|done].
Qed.

Lemma zip_archive_round_trip_witness :
  exists a p', OpenArchiveFd 3 true ex_process = Ok ((0, a), p') /\
    exists q', ExtractToMemory (Zs := inflater) a (entry_of [ex_stored] ex_deflated) (ascii_bytes "....") 4 p' =
      Ok ((0, entry_of [ex_stored] ex_deflated, ascii_bytes "hi!."), q').
Proof.
  destruct (zip_archive_round_trip (Zs := inflater) ex_process 3 true ex_entries ex_comment ex_zip_ok ex_content
    ltac:(lia) (or_introl eq_refl)) as (a & p' & E & Hk & Hall).
  exists a, p'. split; [done|].
  destruct (proj1 (Hall p' Hk) [ex_stored] ex_deflated [] ex_data eq_refl) as [_ Hx].
  destruct (Hx (ascii_bytes "hi!") (ascii_bytes "....") 4) as (q' & E' & _).
  - split; [done|]. right. split; [done|]. split; [reflexivity|cbn; lia].
  - cbn. lia.
  - lia.
  - by exists q'.
Defined.

(** C34: extracting an entry of such an archive to a file returns 0 and leaves in
    the file what was in front of the descriptor's offset (filled with zeros
    where the offset was behind its end), then exactly the entry's uncompressed
    bytes and nothing more, although each [write] may store only a part and
    [fallocate] may not be supported; the archive is unchanged. *)
Theorem zip_extract_to_file {K Zs : Type} `{ZipOutFile K} `{InflateSpec Zs} (p : process K) fd own es comment :
  zip_ok es comment -> zf_content fd (proc_sys p) = zip_image es comment -> 0 <= fd -> page_ok p ->
  exists a p', OpenArchiveFd fd own p = Ok ((0, a), p') /\
    forall (q : process K) out es1 e es2 u, zf_content fd (proc_sys q) = zip_image es comment ->
      es = es1 ++ e :: es2 -> contains e u -> zo_apart out fd -> out <> fd -> 0 <= zf_pos out (proc_sys q) ->
      exists q', ExtractEntryToFile a (entry_of es1 e) out q = Ok ((0, entry_of es1 e), q') /\
        zf_content out (proc_sys q') =
          in_front_of (zf_content out (proc_sys q)) (zf_pos out (proc_sys q)) ++ u /\
        zf_content fd (proc_sys q') = zip_image es comment.
Proof.
  intros Hz Hc Hfd Hp.
  destruct (OpenArchiveFd_image fd own p es comment Hz Hc Hfd Hp) as (a & table & tes & p' & E & _ & Ha).
  exists a, p'. split; [done|]. intros q out es1 e es2 u Hq Hes Hu Hap Hne Hpos.
  pose proof (ia_fd _ _ _ _ _ Ha) as <-. rewrite Hes in Hz, Hq.
  destruct (ExtractEntryToFile_image a es1 e es2 comment u out q Hz Hq Hu Hpos Hap Hne) as (q' & E' & Ho & Hk).
  exists q'. split; [done|]. split; [done|]. rewrite Hes. congruence.
Qed.

Lemma zip_extract_to_file_witness :
  exists a p', OpenArchiveFd 3 true ex_process = Ok ((0, a), p') /\
    exists q', ExtractEntryToFile (Zs := inflater) a (entry_of [] ex_stored) 4 ex_process =
        Ok ((0, entry_of [] ex_stored), q') /\
      zf_content 4 (proc_sys q') = ascii_bytes "olhello".
Proof.
  destruct (zip_extract_to_file (Zs := inflater) ex_process 3 true ex_entries ex_comment ex_zip_ok ex_content
    ltac:(lia) (or_introl eq_refl)) as (a & p' & E & Hall).
  exists a, p'. split; [done|].
  destruct (Hall ex_process 4 [] ex_stored [ex_deflated] (ascii_bytes "hello")) as (q' & E' & Hc & _).
  - reflexivity.
  - reflexivity.
  - split; [done|]. left. split; reflexivity.
  - cbn. lia.
  - lia.
  - cbn. lia.
  - exists q'. split; [done|]. rewrite Hc. by vm_compute.
Defined.

(** ** Arbitrary files *)

(** C14: whatever the file holds and whatever the system calls return, opening an
    archive does not search for ever, and once an archive has been opened,
    looking up any name returns: no byte outside the mapping is read and no
    search of the table runs on.  A name that no record has gives
    [kEntryNotFound]; for another the result is 0 only if the data is behind the
    local header and the name, its compressed bytes are in front of the central
    directory (the uncompressed ones too for a stored entry), and the sizes,
    method, time and checksum are those of a record of the directory with that
    name. *)
Theorem zip_lookup_safe {K : Type} `{ReadKernel K} `{ZipKernel K} fd own (p : process K) :
  OpenArchiveFd fd own p <> NoFuel /\
  forall a p', OpenArchiveFd fd own p = Ok ((0, a), p') ->
  Z.of_nat (length (archive_names a)) = num_entries a /\
    forall b data (q : process K), b <> [] -> Z.of_nat (length b) < 2 ^ 16 ->
    let o := FindEntry a (ZipEntryName_of b) data q in
    (exists e off c, e ∈ archive_names a /\ entry_at a e off c b /\ returns (found a c) o) \/
    ((forall e off c, e ∈ archive_names a -> ~ entry_at a e off c b) /\ o = Ok ((kEntryNotFound, data), q)).
Proof.
  pose proof (OpenArchiveInternal_post (ZipArchive_new fd own) p) as Hpost.
  unfold OpenArchiveFd. destruct (OpenArchiveInternal _ p) as [[[r a0] p0]| | |]; [|by split|by split|done].
  split; [done|]. intros a p' E. injection E as -> -> ->. destruct (Hpost eq_refl) as (table & Ha). cbn in Ha.
  split; [exact (ao_count _ _ _ Ha)|]. intros b data q Hb Hl.
  destruct (FindEntry_found a table _ _ b data q Ha (client_name _ b Hl) Hb)
    as [(_ & e & off & c & He & Hat & Hf)|(Hnot & E)]; [left; by exists e, off, c|right].
  split; [|done]. intros e off c He Hat. apply Hnot. exists e. split; [done|apply Hat].
Qed.

(** The entries of the table are different, by their names. *)
Lemma held_NoDup (table : name_table) :
  (forall i i' e, table !! i = Some (Some e) -> table !! i' = Some (Some e) -> i = i') -> NoDup (held table).
Proof.
  induction table as [|s table IH]; intros Hinj; [constructor|]. rewrite held_cons.
  assert (NoDup (held table)) as Hnd by (apply IH; intros i i' e Hi Hi'; by injection (Hinj (S i) (S i') e Hi Hi')).
  destruct s as [e|]; [|done]. constructor; [|done]. intros (i & Hi)%elem_of_held.
  by specialize (Hinj 0%nat (S i) e eq_refl Hi).
Qed.

Lemma archive_entries_distinct a table es :
  archive_ok a table es ->
  NoDup (held table) /\ forall e e' b, e ∈ es -> e' ∈ es -> name_ok (directory_map a) e b ->
    name_ok (directory_map a) e' b -> e = e'.
Proof.
  intros Ha. assert (Hslot : forall i i' e e' b, table !! i = Some (Some e) -> table !! i' = Some (Some e') ->
    name_ok (directory_map a) e b -> name_ok (directory_map a) e' b -> i = i').
  { intros. eapply table_rep_unique; [apply Ha|apply Ha|done..]. }
  pose proof (tr_held _ _ _ _ (ao_rep _ _ _ Ha)) as Hheld. split.
  - apply held_NoDup. intros i i' e Hi Hi'. destruct (held_entry _ _ _ _ _ Ha Hi) as (off & c & b & Hat).
    eapply Hslot; [done|done|apply Hat..].
  - intros e e' b He He' Hb Hb'. rewrite <- Hheld in He, He'.
    apply elem_of_held in He as [i Hi]. apply elem_of_held in He' as [i' Hi'].
    assert (i = i') as -> by eauto. congruence.
Qed.

(** C33: on an archive that was opened, whatever the file holds, an iteration
    with a prefix and a suffix starts, and calling [Next] until it says
    [kIterationEnd] takes one call more than there are records of the central
    directory whose name has the prefix and the suffix.  The calls visit exactly
    those records, each once: the call for a record reports its name unless its
    local header is refused, with another code than the end.  The directory has
    as many records as the archive says, all with different names. *)
Theorem zip_iteration_complete {K : Type} `{ReadKernel K} `{ZipKernel K} fd own (p : process K) a p' pre suf :
  OpenArchiveFd fd own p = Ok ((0, a), p') ->
  Z.of_nat (length pre) < 2 ^ 16 -> Z.of_nat (length suf) < 2 ^ 16 ->
  Z.of_nat (length (archive_names a)) = num_entries a /\
  Forall (fun e => exists off c b, entry_at a e off c b) (archive_names a) /\
  (forall e e' b, e ∈ archive_names a -> e' ∈ archive_names a ->
     name_ok (directory_map a) e b -> name_ok (directory_map a) e' b -> e = e') /\
  exists h ms, StartIteration (Some a) (Some (ZipEntryName_of pre)) (Some (ZipEntryName_of suf)) = Ok (0, Some h) /\
    NoDup ms /\
    (forall e, e ∈ ms <-> e ∈ archive_names a /\
       exists b, name_ok (directory_map a) e b /\ pre `prefix_of` b /\ suf `suffix_of` b) /\
    forall data nm (q : process K), exists l q', iterate (S (length ms)) (Some h) data nm q = Ok (l, q') /\
      Forall2 (fun e r => r.1 <> kIterationEnd /\ (r.1 = 0 -> r.2 = e)) ms l.
Proof.
  intros E Hpre Hsuf. pose proof (OpenArchiveInternal_post (ZipArchive_new fd own) p) as Hpost.
  unfold OpenArchiveFd in E. rewrite E in Hpost. destruct (Hpost eq_refl) as (table & Ha). cbn in Ha.
  destruct (archive_entries_distinct a table _ Ha) as [Hnd Hdist].
  pose proof (ao_entries _ _ _ Ha) as Hes. unfold entries_ok in Hes.
  split_and!; [exact (ao_count _ _ _ Ha)|done|..].
  { exact Hdist. }
  set (h := Build_IterationHandle 0 (Some pre) (Some suf) a). exists h, (ahead h table 0). split_and!.
  - unfold StartIteration. rewrite (ao_table _ _ _ Ha). unfold copy_name.
    rewrite (proj1 (client_name _ pre Hpre)), (proj1 (client_name _ suf Hsuf)). done.
  - unfold ahead. rewrite drop_0. by apply NoDup_filter.
  - intros e. unfold ahead. rewrite drop_0, list_elem_of_filter, (tr_held _ _ _ _ (ao_rep _ _ _ Ha)).
    split.
    + intros [Hw He]. split; [done|]. rewrite Forall_forall in Hes. destruct (Hes e He) as (off & c & b & Hat).
      exists b. split; [apply Hat|].
      rewrite (wanted_entry_ok h e b (ea_bytes _ _ _ _ _ Hat)) in Hw. unfold wanted in Hw.
      apply andb_true_iff in Hw as [H1%bool_decide_eq_true H2%bool_decide_eq_true]. done.
    + intros (He & b & Hb & Hp & Hs). split; [|done].
      rewrite (wanted_entry_ok h e b Hb). unfold wanted. by rewrite !bool_decide_eq_true_2.
  - intros data nm q. destruct (iterate_ahead (length (ahead h table 0)) h table _ data nm q Ha)
      as (l & q' & Eq & Hl); [cbn; pose proof (table_size_bound _ _ _ Ha); lia|done|]. by exists l, q'.
Qed.

(** The opened example. *)
Definition ex_archive : ZipArchive :=
  match OpenArchiveFd 3 true ex_process with Ok ((_, a), _) => a | _ => ZipArchive_new 3 true end.

Lemma ex_archive_opened : exists p', OpenArchiveFd 3 true ex_process = Ok ((0, ex_archive), p').
Proof. eexists. vm_compute. reflexivity. Qed.

(** Its second record: the name dir/b. *)
Definition ex_second : ZipEntryName := nth 1 (archive_names ex_archive) (ZipEntryName_of []).

(** The iteration over the names in dir visits that record. *)
Lemma zip_iteration_complete_witness : exists h ms l q',
  StartIteration (Some ex_archive) (Some (ZipEntryName_of (ascii_bytes "dir/"))) (Some (ZipEntryName_of [])) = Ok (0, Some h) /\
  ex_second ∈ ms /\ iterate (S (length ms)) (Some h) ex_data (ZipEntryName_of []) ex_process = Ok (l, q') /\
  Forall2 (fun e r => r.1 <> kIterationEnd /\ (r.1 = 0 -> r.2 = e)) ms l.
Proof.
  destruct ex_archive_opened as (p' & E).
  destruct (zip_iteration_complete 3 true ex_process ex_archive p' (ascii_bytes "dir/") [] E)
    as (_ & _ & _ & h & ms & Hs & _ & Hms & Hit); [vm_compute; done|vm_compute; done|].
  destruct (Hit ex_data (ZipEntryName_of []) ex_process) as (l & q' & Eq & Hl).
  exists h, ms, l, q'. split; [exact Hs|]. split; [|split; [exact Eq|exact Hl]]. apply Hms. split.
  - apply list_elem_of_lookup. exists 1%nat. vm_compute. reflexivity.
  - exists (ascii_bytes "dir/b"). split; [split; vm_compute; reflexivity|]. split.
    + exists (ascii_bytes "b"). reflexivity.
    + exists (ascii_bytes "dir/b"). reflexivity.
Defined.

(** ** The table *)

(** Adding names one after the other until one is refused. *)
Fixpoint add_all (m : FileMap) (size : Z) (ns : list ZipEntryName) (table : name_table) : outcome (Z * name_table) :=
  match ns with
  | [] => Ok (0, table)
  | n :: ns =>
    do! (r, table) := AddToHash m table size n in
    if r =? 0 then add_all m size ns table else Ok (r, table)
  end.

Lemma add_all_rep m size : forall ns bs table es,
  table_rep m table size es -> Forall2 (name_ok m) ns bs -> Z.of_nat (length ns + length es) < size ->
  NoDup bs -> (forall b, b ∈ bs -> ~ named m es b) ->
  exists table' es', add_all m size ns table = Ok (0, table') /\ table_rep m table' size es' /\ es' ≡ₚ ns ++ es.
Proof.
  induction ns as [|n ns IH]; intros bs table es Hrep Hbs Hfree Hnd Hnew.
  { exists table, es. done. }
  inversion Hbs as [|? b ? bs' Hn Hns]; subst. apply NoDup_cons in Hnd as [Hb Hnd]. cbn [add_all].
  cbn [length] in Hfree.
  destruct (AddToHash_rep m table size es n b Hrep ltac:(lia) Hn) as [(Hin & _)|(_ & table1 & -> & Hrep1)].
  { exfalso. apply (Hnew b); [by left|done]. }
  cbn [obind Z.eqb].
  destruct (IH bs' table1 (n :: es) Hrep1 Hns) as (table' & es' & E & Hrep' & Hp); [cbn [length]; lia|done| |].
  - intros b' Hb' (e & [->|He]%elem_of_cons & Hok).
    + assert (b' = b) as -> by (pose proof (proj1 Hok); pose proof (proj1 Hn); congruence). done.
    + apply (Hnew b'); [by right|]. by exists e.
  - exists table', es'. split; [done|]. split; [done|]. rewrite Hp. apply Permutation_sym, Permutation_middle.
Qed.

(** The open-addressing table is a finite set of names.  Adding fewer names
    than the power of two that is its size to the table [calloc] gives succeeds
    when the names differ; afterwards [EntryToIndex] gives, for a name that was
    added, the slot that holds it, and for any other [kEntryNotFound], and
    adding one of the names again gives [kDuplicateEntry] and changes nothing.
    Every search stops. *)
Theorem zip_table_is_set m k ns bs :
  0 <= k <= 31 -> Forall2 (name_ok m) ns bs -> NoDup bs -> Z.of_nat (length ns) < 2 ^ k ->
  exists table, add_all m (2 ^ k) ns (replicate (Z.to_nat (2 ^ k)) None) = Ok (0, table) /\
    forall n b, name_ok m n b ->
      (b ∈ bs /\ exists ent e, EntryToIndex m table (2 ^ k) n = Ok ent /\ 0 <= ent < 2 ^ k /\
         table !! Z.to_nat ent = Some (Some e) /\ e ∈ ns /\ name_ok m e b /\
         AddToHash m table (2 ^ k) n = Ok (kDuplicateEntry, table)) \/
      (b ∉ bs /\ EntryToIndex m table (2 ^ k) n = Ok kEntryNotFound).
Proof.
  intros Hk Hbs Hnd Hl.
  destruct (add_all_rep m (2 ^ k) ns bs (replicate (Z.to_nat (2 ^ k)) None) [])
    as (table & es & E & Hrep & Hp); [by apply table_rep_new|done|cbn; lia|done|intros b _ (e & He & _); by inversion He|].
  rewrite app_nil_r in Hp. exists table. split; [done|]. intros n b Hn.
  assert (Hin : named m es b <-> b ∈ bs).
  { unfold named. setoid_rewrite Hp. split.
    - intros (e & [i Hi]%list_elem_of_lookup & [He _]). destruct (Forall2_lookup_l _ _ _ _ _ Hbs Hi) as (b' & Hb' & [He' _]).
      assert (b' = b) as -> by congruence. by apply list_elem_of_lookup_2 with i.
    - intros [i Hi]%list_elem_of_lookup. destruct (Forall2_lookup_r _ _ _ _ _ Hbs Hi) as (e & He & Hok).
      exists e. split; [by apply list_elem_of_lookup_2 with i|done]. }
  assert (Hf : Z.of_nat (length es) < 2 ^ k) by (by rewrite Hp).
  destruct (EntryToIndex_rep m table (2 ^ k) es n b Hrep Hf Hn) as [(Hb & ent & e & Ee & Hent & He & Hok)|(Hb & Ee)];
    [left|right; by rewrite <- Hin].
  rewrite <- Hin. split; [done|]. exists ent, e. do 3 (split; [done|]). split.
  - rewrite <- Hp, <- (tr_held _ _ _ _ Hrep). apply elem_of_held. eauto.
  - split; [done|]. by destruct (AddToHash_rep m table (2 ^ k) es n b Hrep Hf Hn) as [(_ & ?)|(? & _)].
Qed.

Lemma zip_table_is_set_witness :
  exists table, add_all FileMap_new (2 ^ 1) [ZipEntryName_of (ascii_bytes "a")] (replicate 2 None) = Ok (0, table) /\
    EntryToIndex FileMap_new table (2 ^ 1) (ZipEntryName_of (ascii_bytes "b")) = Ok kEntryNotFound.
Proof.
  destruct (zip_table_is_set FileMap_new 1 [ZipEntryName_of (ascii_bytes "a")] [ascii_bytes "a"])
    as (table & E & Hall); [lia|repeat constructor|repeat constructor; by intros ?%elem_of_nil|cbn; lia|].
  exists table. split; [exact E|].
  destruct (Hall (ZipEntryName_of (ascii_bytes "b")) (ascii_bytes "b")) as [(Hb & _)|(_ & ?)];
    [by split|apply list_elem_of_singleton in Hb; discriminate|done].
Defined.

(** ** Extraction from arbitrary files *)

(** C15: extracting an entry to memory returns whatever the archive holds, with
    any zlib that takes no more than it is given and makes progress when it says
    [Z_OK]: neither a corrupt stream nor sizes that lie can make it run for ever
    or write outside the [size] bytes of the region; what is behind them is as
    it was, and the archive is unchanged. *)
Theorem zip_extract_memory_safe {K Zs : Type} `{ZipFile K} `{InflateProgress Zs} a entry begin size (p : process K) :
  entry_range entry -> 0 <= size <= Z.of_nat (length begin) -> size < 2 ^ 32 ->
  exists r entry' mem p', ExtractToMemory a entry begin size p = Ok ((r, entry', mem), p') /\
    length mem = length begin /\ drop (Z.to_nat size) mem = drop (Z.to_nat size) begin /\
    zf_content (za_fd a) (proc_sys p') = zf_content (za_fd a) (proc_sys p).
Proof.
  intros He Hs H32. unfold ExtractToMemory.
  destruct (ExtractToWriter_any (za_fd a) (HS := MemoryWriter_spec begin (za_fd a)) (inflate_fuel entry size) a entry
    (MemoryWriter_new begin size) p) as (r & entry' & w & p' & E & (Hw & Hcap & Hk)); try done.
  - apply mw_region_new; lia.
  - change (w_out (MemoryWriter_new begin size) p) with (@nil byte). cbn [length w_cap MemoryWriter_spec mw_size MemoryWriter_new].
    pose proof (inflate_fuel_enough entry size ltac:(apply He) ltac:(lia)). lia.
  - rewrite E. cbn [obind]. exists r, entry', (mw_buf w), p'. split; [done|].
    destruct Hw as (Hok & Hl & Hi). cbn in Hcap. split; [done|]. split; [|done].
    apply list_eq. intros i. rewrite !lookup_drop. apply Hi. destruct Hok as (? & _). lia.
Qed.

Lemma zip_extract_memory_safe_witness :
  exists r entry' mem p',
    ExtractToMemory (Zs := inflater) (ZipArchive_new 3 true) (Build_ZipEntry 8 0 0 0 1000 5 0)
      (ascii_bytes "........") 5 ex_process = Ok ((r, entry', mem), p') /\
    drop 5 mem = ascii_bytes "...".
Proof.
  destruct (zip_extract_memory_safe (Zs := inflater) (ZipArchive_new 3 true) (Build_ZipEntry 8 0 0 0 1000 5 0)
    (ascii_bytes "........") 5 ex_process) as (r & e & mem & p' & E & _ & Hd & _).
  - split; cbn; lia.
  - cbn. lia.
  - lia.
  - exists r, e, mem, p'. split; [exact E|exact Hd].
Defined.

(** ** Names *)

(** C35: [IsValidEntryName] reads only the name and stops; it accepts exactly the
    strings that are made of bytes 0x01 to 0x7F and of first bytes 0xC0 to 0xFD
    followed by as many bytes 0x80 to 0xBF as the first byte has leading ones
    beyond the first, so the encoding in UTF-8 of every text without NUL. *)
Theorem IsValidEntryName_exact mem n :
  (n <= length mem)%nat ->
  exists r, IsValidEntryName mem (Z.of_nat n) = Ok r /\
    (r = true <-> wf_name (byte.unsigned <$> take n mem)) /\
    (forall text, Forall (fun c => scalar c /\ c <> 0) text -> byte.unsigned <$> take n mem = utf8 text -> r = true).
Proof.
  intros Hn. destruct (IsValidEntryName_run mem n Hn) as (r & E & Hr). exists r. split; [done|]. split; [done|].
  intros text Ht Et. apply Hr. rewrite Et. by apply wf_name_utf8.
Qed.

Lemma IsValidEntryName_exact_witness : exists r, IsValidEntryName (ascii_bytes "a.txt") 5 = Ok r /\ r = true.
Proof.
  destruct (IsValidEntryName_exact (ascii_bytes "a.txt") 5) as (r & E & _ & Hu); [cbn; lia|].
  exists r. split; [exact E|]. apply (Hu [0x61; 0x2e; 0x74; 0x78; 0x74]); [|reflexivity].
  repeat constructor; unfold scalar; lia.
Defined.

(** ** Files that make the reader leave the mapping *)

Definition ex_process_of (file : list byte) : process files :=
  Process (-1) (Files (fun fd => if fd =? 3 then file else []) (fun _ => 0) 0).

(** The sum of offset and size of the directory wraps around, so a directory
    behind the end of the file passes the check and is read. *)
Lemma directory_offset_wraps :
  OpenArchiveFd 3 true (ex_process_of (eocd_bytes
    (Build_EocdRecord EOCD_kSignature 0 0 1 1 (2 ^ 32 - 64) 64 0))) = UB.
Proof. by vm_compute. Qed.

(** The directory ends with a page and holds fewer records than announced: the
    signature of the next one is read before the bounds are checked. *)
Lemma record_signature_over_read :
  OpenArchiveFd 3 true (ex_process_of
    (replicate 64 Byte.x00 ++
     central_bytes 0 (ZEnt (ascii_bytes "a.txt") [] 0 0 0 0 0 0 [] (replicate 13 Byte.x00) [] 0 0 0) ++
     eocd_bytes (Build_EocdRecord EOCD_kSignature 0 0 2 2 64 64 0))) = UB.
Proof. by vm_compute. Qed.

(** Overlong and six-byte sequences and surrogates are no UTF-8, and pass. *)
Lemma not_utf8_accepted :
  IsValidEntryName [Byte.xc0; Byte.xaf; Byte.xfc; Byte.x84; Byte.x80; Byte.x80; Byte.x80; Byte.x80;
    Byte.xed; Byte.xa0; Byte.x80] 11 = Ok true.
Proof. by vm_compute. Qed.
