(* ===== verification/LinearTransform.v ===== *)
(** * Linear transforms of 64-bit coordinates (core/libutils/LinearTransform.cpp)

    A transform scales by a fraction of two 32-bit integers between two zero
    points.  Scaling goes through a 96-bit product in two 64-bit halves.  The
    theorems give the value of both directions on every input, the cases in which
    they refuse it, and show that reducing the fraction changes neither. *)

From S2P Require Import Prelude Words.

#[local] Open Scope Z_scope.
#[local] Open Scope c_scope.

Definition UINT32_MAX : Z := 2 ^ 32 - 1.
Definition UINT64_MAX : Z := 2 ^ 64 - 1.

(** Arithmetic in the signed type of [w] bits, where overflow is undefined. *)
Definition int_of (w z : Z) : outcome Z := if (- 2 ^ (w - 1) <=? z) && (z <? 2 ^ (w - 1)) then Ok z else UB.

Definition ABS (w x : Z) : outcome Z := if x <? 0 then int_of w (- x) else Ok x.

(** The value of [*res] comes with the result. *)
Definition scale_u64_to_u64 (val N D : Z) (round_up_not_down : bool) : outcome (bool * Z) :=
  if D =? 0 then Abort
  else
    let tmp2 := u64 (Z.shiftr val 32 * N) in
    let tmp1 := u64 (Z.land val UINT32_MAX * N) in
    let tmp2 := u64 (tmp2 + Z.shiftr tmp1 32) in
    if D <=? Z.shiftr tmp2 32 then Ok (false, UINT64_MAX)
    else
      let r := u32 (tmp2 mod D) in
      let tmp2 := tmp2 / D in
      let tmp1 := Z.lor (Z.land tmp1 UINT32_MAX) (u64 (Z.shiftl r 32)) in
      let r := u32 (tmp1 mod D) in
      let tmp1 := tmp1 / D in
      let res := Z.lor (u64 (Z.shiftl tmp2 32)) tmp1 in
      if negb (r =? 0) && round_up_not_down then
        let res := u64 (res + 1) in
        if res =? 0 then Ok (false, UINT64_MAX) else Ok (true, res)
      else Ok (true, res).

(** [out] tells whether the pointer is non-null; the result is the value stored
    there, or [None] for [false]. *)
Definition linear_transform_s64_to_s64 (val basis1 N D : Z) (invert_frac : bool) (basis2 : Z) (out : bool)
  : outcome (option Z) :=
  if negb out then Ok None
  else
    do! (is_neg, abs_val) :=
      (if val <? basis1 then do! d := int_of 64 (basis1 - val) in Ok (true, d)
       else do! d := int_of 64 (val - basis1) in Ok (false, d)) in
    let is_neg := if N <? 0 then negb is_neg else is_neg in
    do! abs_N := ABS 32 N in
    do! (ok, scaled) :=
      scale_u64_to_u64 abs_val (if invert_frac then D else abs_N) (if invert_frac then abs_N else D) is_neg in
    if negb ok then Ok None
    else if negb (Z.land scaled (2 ^ 63) =? 0) then
      if is_neg && (basis2 <? 0) then Ok None
      else if negb is_neg && (0 <=? basis2) then Ok None
      else
        do! b := ABS 64 basis2 in
        if b <=? Z.land scaled (2 ^ 63 - 1) then Ok None
        else Ok (Some (i64 (u64 ((if is_neg then u64 (- scaled) else scaled) + basis2))))
    else
      let scaled := if is_neg then u64 (- scaled) else scaled in
      let res := u64 (scaled + basis2) in
      if negb (Z.land (Z.land (Z.lxor (Z.lxor scaled (u64 basis2)) (2 ^ 63)) (Z.lxor scaled res)) (2 ^ 63) =? 0)
      then Ok None
      else Ok (Some (i64 res)).

Record LinearTransform : Type := {
  a_zero : Z;
  b_zero : Z;
  a_to_b_numer : Z;
  a_to_b_denom : Z
}.

Definition doForwardTransform (t : LinearTransform) (a_in : Z) (b_out : bool) : outcome (option Z) :=
  if a_to_b_denom t =? 0 then Ok None
  else
    linear_transform_s64_to_s64 a_in (a_zero t) (a_to_b_numer t) (a_to_b_denom t) false (b_zero t) b_out.

Definition doReverseTransform (t : LinearTransform) (b_in : Z) (a_out : bool) : outcome (option Z) :=
  if a_to_b_numer t =? 0 then Ok None
  else
    linear_transform_s64_to_s64 b_in (b_zero t) (a_to_b_numer t) (a_to_b_denom t) true (a_zero t) a_out.

(** Euclid's loop: the divisor it ends with. *)
Fixpoint reduce_gcd (fuel : nat) (a b : Z) : outcome Z :=
  match fuel with
  | O => NoFuel
  | S fuel =>
    let remainder := a mod b in
    if remainder =? 0 then Ok b else reduce_gcd fuel b remainder
  end.

(** [None] is a null pointer; the pointers do not alias. *)
Definition reduce (N D : option Z) : outcome (option Z * option Z) :=
  match N, D with
  | Some n, Some d =>
    if d =? 0 then Abort
    else if n =? 0 then Ok (N, Some 1)
    else
      let '(a, b) := if n <? d then (d, n) else (n, d) in
      do! g := reduce_gcd (S (Z.to_nat (Z.log2 (a * b)))) a b in
      Ok (Some (n / g), Some (d / g))
  | _, _ => Abort
  end.

(** The overload on a signed numerator, which reads it as unsigned in between. *)
Definition reduce_s32 (N D : option Z) : outcome (option Z * option Z) :=
  match N, D with
  | Some n, Some d =>
    if d =? 0 then Ok (N, D)
    else if n <? 0 then
      do! m := int_of 32 (- n) in
      do! (N, D) := reduce (Some (u32 m)) D in
      match N with
      | Some n => do! n := int_of 32 (- i32 n) in Ok (Some n, D)
      | None => UB
      end
    else
      do! (N, D) := reduce (Some (u32 n)) D in
      Ok (i32 <$> N, D)
  | _, _ => Ok (N, D)
  end.

(** ** Scaling *)

(** The quotient rounded up or down. *)
Definition quotient (up : bool) (x D : Z) : Z := if up then - (- x / D) else x / D.

Lemma quotient_up x D : 0 < D -> - (- x / D) = if x mod D =? 0 then x / D else x / D + 1.
Proof.
  intros HD. destruct (Z.eqb_spec (x mod D) 0).
  - rewrite Z.div_opp_l_z by lia. lia.
  - rewrite Z.div_opp_l_nz by lia. lia.
Qed.

Lemma quotient_nonneg up x D : 0 <= x -> 0 < D -> 0 <= quotient up x D.
Proof.
  intros Hx HD. unfold quotient. rewrite quotient_up by done. pose proof (Z.div_pos x D Hx HD).
  destruct up, (x mod D =? 0); lia.
Qed.

(** Long division of a 96-bit product by a 32-bit number. *)
Lemma long_division M D : 0 < D ->
  let r := (M / 2 ^ 32) mod D * 2 ^ 32 + M mod 2 ^ 32 in
  M / D = (M / 2 ^ 32) / D * 2 ^ 32 + r / D /\ M mod D = r mod D /\ 0 <= r / D < 2 ^ 32.
Proof.
  intros HD r. subst r.
  pose proof (Z.div_mod M (2 ^ 32) ltac:(lia)) as E1. pose proof (Z.mod_pos_bound M (2 ^ 32) ltac:(lia)).
  pose proof (Z.div_mod (M / 2 ^ 32) D ltac:(lia)) as E2. pose proof (Z.mod_pos_bound (M / 2 ^ 32) D HD).
  set (r := (M / 2 ^ 32) mod D * 2 ^ 32 + M mod 2 ^ 32).
  assert (E : M = r + (M / 2 ^ 32) / D * 2 ^ 32 * D) by (subst r; lia).
  split; [rewrite E at 1; rewrite Z.div_add by lia; lia|].
  split; [rewrite E at 1; apply Z.mod_add; lia|].
  split; [apply Z.div_pos; lia|apply Z.div_lt_upper_bound; subst r; nia].
Qed.

Lemma product_halves val N : 0 <= val < 2 ^ 64 -> 0 <= N < 2 ^ 32 ->
  let tmp1 := u64 (Z.land val UINT32_MAX * N) in
  u64 (u64 (Z.shiftr val 32 * N) + Z.shiftr tmp1 32) = val * N / 2 ^ 32 /\ Z.land tmp1 UINT32_MAX = val * N mod 2 ^ 32.
Proof.
  intros Hv HN. unfold UINT32_MAX. change (2 ^ 32 - 1) with (Z.ones 32).
  rewrite !Z.land_ones, !Z.shiftr_div_pow2 by lia.
  pose proof (Z.div_mod val (2 ^ 32) ltac:(lia)) as E. pose proof (Z.mod_pos_bound val (2 ^ 32) ltac:(lia)).
  assert (0 <= val / 2 ^ 32 < 2 ^ 32) by (split; [apply Z.div_pos|apply Z.div_lt_upper_bound]; lia).
  set (h := val / 2 ^ 32) in *. set (l := val mod 2 ^ 32) in *. cbv zeta.
  assert (0 <= h * N <= (2 ^ 32 - 1) * (2 ^ 32 - 1)) by nia.
  assert (0 <= l * N <= (2 ^ 32 - 1) * (2 ^ 32 - 1)) by nia.
  rewrite (u64_small (h * N)), (u64_small (l * N)) by lia.
  assert (0 <= l * N / 2 ^ 32 < 2 ^ 32) by (split; [apply Z.div_pos|apply Z.div_lt_upper_bound]; lia).
  replace (val * N) with (l * N + h * N * 2 ^ 32) by lia.
  rewrite u64_small, Z.div_add, Z.mod_add by lia. split; lia.
Qed.

Lemma scale_exact val N D up : 0 <= val < 2 ^ 64 -> 0 <= N < 2 ^ 32 -> 0 < D < 2 ^ 32 ->
  let q := quotient up (val * N) D in
  scale_u64_to_u64 val N D up = if q <? 2 ^ 64 then Ok (true, q) else Ok (false, UINT64_MAX).
Proof.
  intros Hv HN HD q. subst q. unfold scale_u64_to_u64, quotient.
  destruct (Z.eqb_spec D 0) as [|_]; [lia|]. cbv zeta.
  destruct (product_halves val N Hv HN) as [-> ->]. rewrite quotient_up by lia.
  remember (val * N) as M eqn:EM. assert (0 <= M) by nia.
  pose proof (long_division M D ltac:(lia)) as L. cbv zeta in L. destruct L as (Eq & Er & Hr).
  assert (0 <= M / 2 ^ 32) by (apply Z.div_pos; lia).
  rewrite Z.shiftr_div_pow2, Z.div_div by lia. change (2 ^ 32 * 2 ^ 32) with (2 ^ 64).
  destruct (Z.leb_spec D (M / 2 ^ 64)) as [Hbig|Hfit].
  - assert (2 ^ 64 <= M / D) by (apply Z.div_le_lower_bound; [lia|]; pose proof (Z.mul_div_le M (2 ^ 64) ltac:(lia)); nia).
    destruct (Z.ltb_spec (if up then if M mod D =? 0 then M / D else M / D + 1 else M / D) (2 ^ 64)); [|done].
    destruct up, (M mod D =? 0); lia.
  - assert (M / D < 2 ^ 64).
    { apply Z.div_lt_upper_bound; [lia|]. pose proof (Z.div_mod M (2 ^ 64) ltac:(lia)).
      pose proof (Z.mod_pos_bound M (2 ^ 64) ltac:(lia)). nia. }
    pose proof (Z.mod_pos_bound (M / 2 ^ 32) D ltac:(lia)). pose proof (Z.mod_pos_bound M (2 ^ 32) ltac:(lia)).
    pose proof (Z.mod_pos_bound M D ltac:(lia)).
    assert (0 <= M / 2 ^ 32 / D) by (apply Z.div_pos; lia).
    rewrite (u32_small ((M / 2 ^ 32) mod D)), (u64_small (Z.shiftl _ 32)) by (rewrite ?Z.shiftl_mul_pow2; lia).
    rewrite (Z.lor_comm (M mod 2 ^ 32)), lor_shiftl by lia. rewrite <-Er, u32_small by lia.
    rewrite (u64_small (Z.shiftl _ 32)), lor_shiftl, <-Eq by (rewrite ?Z.shiftl_mul_pow2; lia).
    destruct (Z.eqb_spec (M mod D) 0), up; cbn [negb andb]; try (rewrite (proj2 (Z.ltb_lt _ _)) by lia; done).
    destruct (decide (M / D + 1 = 2 ^ 64)) as [E|]; [by rewrite E|].
    rewrite u64_small by lia. destruct (Z.eqb_spec (M / D + 1) 0); [lia|].
    by rewrite (proj2 (Z.ltb_lt _ _)) by lia.
Qed.

(** ** The sign bit *)

Lemma sign_bit x : (Z.land x (2 ^ 63) =? 0) = negb (Z.testbit x 63).
Proof.
  change (2 ^ 63) with (Z.shiftl 1 63).
  destruct (Z.testbit x 63) eqn:E; cbn [negb].
  - apply Z.eqb_neq. intros H%(f_equal (fun z => Z.testbit z 63)). by rewrite Z.land_spec, E in H.
  - apply Z.eqb_eq, Z.bits_inj'. intros i Hi. rewrite Z.land_spec, Z.bits_0.
    destruct (decide (i = 63)) as [->|]; [by rewrite E|].
    rewrite Z.shiftl_1_l, Z.pow2_bits_false by done. apply andb_false_r.
Qed.

Lemma top_bit x : 0 <= x < 2 ^ 64 -> Z.testbit x 63 = (2 ^ 63 <=? x).
Proof.
  intros H. rewrite Z.testbit_eqb by lia.
  destruct (Z.leb_spec (2 ^ 63) x).
  - replace (x / 2 ^ 63) with 1; [done|]. apply Z.div_unique with (x - 2 ^ 63); lia.
  - by rewrite Z.div_small by lia.
Qed.

Lemma u64_add_left x y : u64 (u64 x + y) = u64 (x + y).
Proof. apply Zplus_mod_idemp_l. Qed.

Lemma i64_of_u64 z : i64 (u64 z) = i64 z.
Proof. unfold i64, u64. by rewrite Zplus_mod_idemp_l. Qed.

(** The test of the two sign bits is the test for overflow. *)
Lemma add_overflow s b : - 2 ^ 63 < s < 2 ^ 63 -> - 2 ^ 63 <= b < 2 ^ 63 ->
  (Z.land (Z.land (Z.lxor (Z.lxor (u64 s) (u64 b)) (2 ^ 63)) (Z.lxor (u64 s) (u64 (u64 s + b)))) (2 ^ 63) =? 0)
  = (- 2 ^ 63 <=? s + b) && (s + b <? 2 ^ 63).
Proof.
  intros Hs Hb. rewrite u64_add_left, sign_bit, Z.land_spec, !Z.lxor_spec.
  assert (T : forall z, - 2 ^ 64 <= z < 2 ^ 64 ->
    Z.testbit (u64 z) 63 = ((- 2 ^ 63 <=? z) && (z <? 0)) || (2 ^ 63 <=? z)).
  { intros z Hz. rewrite top_bit by (apply Z.mod_pos_bound; lia). destruct (Z.leb_spec 0 z).
    - rewrite u64_small by lia. destruct (Z.ltb_spec z 0); [lia|]. by rewrite andb_false_r.
    - replace (u64 z) with (z + 2 ^ 64) by (unfold u64; apply Z.mod_unique with (-1); lia).
      apply eq_true_iff_eq. rewrite orb_true_iff, andb_true_iff, !Z.leb_le, Z.ltb_lt. lia. }
  rewrite !T by lia. change (Z.testbit (2 ^ 63) 63) with true.
  repeat match goal with |- context [?x <=? ?y] => destruct (Z.leb_spec x y) | |- context [?x <? ?y] => destruct (Z.ltb_spec x y) end;
    try reflexivity; lia.
Qed.

(** ** Transforms *)

(** The scaled distance from the zero point, rounded down. *)
Definition scaled_distance (invert_frac : bool) (v N D : Z) : Z := if invert_frac then v * D / N else v * N / D.

(** The value a transform returns: none if it does not fit 64 bits, and none for
    the least 64-bit integer unless the second zero point is negative. *)
Definition shifted (q basis2 : Z) : option Z :=
  let b := q + basis2 in
  if (- 2 ^ 63 <=? b) && (b <? 2 ^ 63) && negb ((b =? - 2 ^ 63) && (0 <=? basis2)) then Some b else None.

Lemma signed_distance val basis1 : - 2 ^ 63 < val - basis1 < 2 ^ 63 ->
  (if val <? basis1 then do! d := int_of 64 (basis1 - val) in Ok (true, d)
   else do! d := int_of 64 (val - basis1) in Ok (false, d)) = Ok (val - basis1 <? 0, Z.abs (val - basis1)).
Proof.
  intros H. unfold int_of. change (64 - 1) with 63.
  destruct (Z.ltb_spec val basis1), (Z.ltb_spec (val - basis1) 0); try lia.
  - rewrite (proj2 (Z.leb_le _ _)), (proj2 (Z.ltb_lt _ _)) by lia. simpl. do 2 f_equal. lia.
  - rewrite (proj2 (Z.leb_le _ _)), (proj2 (Z.ltb_lt _ _)) by lia. simpl. do 2 f_equal. lia.
Qed.

Lemma ABS_abs w x : - 2 ^ (w - 1) < x < 2 ^ (w - 1) -> ABS w x = Ok (Z.abs x).
Proof.
  intros H. unfold ABS, int_of. destruct (Z.ltb_spec x 0); [|f_equal; lia].
  rewrite (proj2 (Z.leb_le _ _)), (proj2 (Z.ltb_lt _ _)) by lia. simpl. f_equal. lia.
Qed.

Lemma scaled_distance_abs (invert_frac : bool) v N D :
  let is_neg := if N <? 0 then negb (v <? 0) else v <? 0 in
  let s := quotient is_neg (Z.abs v * (if invert_frac then D else Z.abs N)) (if invert_frac then Z.abs N else D) in
  scaled_distance invert_frac v N D = if is_neg then - s else s.
Proof.
  cbv zeta. unfold scaled_distance, quotient.
  assert (E : v * N = (if (if N <? 0 then negb (v <? 0) else v <? 0) then - (Z.abs v * Z.abs N) else Z.abs v * Z.abs N)).
  { destruct (Z.ltb_spec N 0), (Z.ltb_spec v 0); cbn [negb]; nia. }
  destruct invert_frac.
  - destruct (Z.ltb_spec N 0).
    + rewrite <-(Z.div_opp_opp (v * D) N) by lia.
      replace (Z.abs N) with (- N) by lia. destruct (Z.ltb_spec v 0); cbn [negb].
      * do 2 f_equal; nia.
      * rewrite Z.opp_involutive. do 2 f_equal. nia.
    + replace (Z.abs N) with N by lia.
      destruct (Z.ltb_spec v 0); rewrite ?Z.opp_involutive; do 2 f_equal; nia.
  - rewrite E. generalize (if N <? 0 then negb (v <? 0) else v <? 0). by intros []; rewrite ?Z.opp_involutive.
Qed.

(** The last part of [linear_transform_s64_to_s64], for a scaled distance [s]. *)
Lemma shift_fits (is_neg : bool) s basis2 : 0 <= s < 2 ^ 63 -> - 2 ^ 63 <= basis2 < 2 ^ 63 ->
  let scaled := if is_neg then u64 (- s) else s in
  let res := u64 (scaled + basis2) in
  (if negb (Z.land (Z.land (Z.lxor (Z.lxor scaled (u64 basis2)) (2 ^ 63)) (Z.lxor scaled res)) (2 ^ 63) =? 0)
   then Ok None else Ok (Some (i64 res))) = Ok (shifted (if is_neg then - s else s) basis2).
Proof.
  intros Hs Hb. cbv zeta.
  set (q := if is_neg then - s else s).
  replace (if is_neg then u64 (- s) else s) with (u64 q)
    by (subst q; destruct is_neg; [done|apply u64_small; lia]).
  assert (Hq : - 2 ^ 63 < q < 2 ^ 63) by (subst q; destruct is_neg; lia).
  rewrite add_overflow by lia. unfold shifted. cbv zeta.
  destruct (Z.leb_spec (- 2 ^ 63) (q + basis2)), (Z.ltb_spec (q + basis2) (2 ^ 63)); cbn [andb negb]; try done.
  destruct (Z.eqb_spec (q + basis2) (- 2 ^ 63)), (Z.leb_spec 0 basis2); try lia; cbn [andb negb].
  all: by rewrite u64_add_left, i64_of_u64, i64_small by lia.
Qed.

Lemma shift_large (is_neg : bool) s basis2 : 2 ^ 63 <= s < 2 ^ 64 -> - 2 ^ 63 < basis2 < 2 ^ 63 ->
  (if is_neg && (basis2 <? 0) then Ok None
   else if negb is_neg && (0 <=? basis2) then Ok None
   else
     do! b := ABS 64 basis2 in
     if b <=? Z.land s (2 ^ 63 - 1) then Ok None
     else Ok (Some (i64 (u64 ((if is_neg then u64 (- s) else s) + basis2)))))
  = Ok (shifted (if is_neg then - s else s) basis2).
Proof.
  intros Hs Hb. rewrite ABS_abs by (change (64 - 1) with 63; lia). cbn [obind].
  change (2 ^ 63 - 1) with (Z.ones 63). rewrite Z.land_ones by lia.
  replace (s mod 2 ^ 63) with (s - 2 ^ 63) by (apply Z.mod_unique with 1; lia).
  unfold shifted. cbv zeta. destruct is_neg; cbn [negb andb].
  - destruct (Z.ltb_spec basis2 0), (Z.leb_spec (- 2 ^ 63) (- s + basis2)),
      (Z.ltb_spec (- s + basis2) (2 ^ 63)), (Z.leb_spec (Z.abs basis2) (s - 2 ^ 63)),
      (Z.eqb_spec (- s + basis2) (- 2 ^ 63)), (Z.leb_spec 0 basis2); try lia; try done; cbn [andb negb].
    replace (u64 (- s)) with (2 ^ 64 - s) by (apply Z.mod_unique with (-1); lia).
    replace (u64 (2 ^ 64 - s + basis2)) with (2 ^ 64 - s + basis2) by (symmetry; apply u64_small; lia).
    do 2 f_equal. unfold i64. replace ((2 ^ 64 - s + basis2 + 2 ^ 63) mod 2 ^ 64) with (- s + basis2 + 2 ^ 63)
      by (apply Z.mod_unique with 1; lia). lia.
  - destruct (Z.leb_spec 0 basis2), (Z.leb_spec (- 2 ^ 63) (s + basis2)),
      (Z.ltb_spec (s + basis2) (2 ^ 63)), (Z.leb_spec (Z.abs basis2) (s - 2 ^ 63)),
      (Z.eqb_spec (s + basis2) (- 2 ^ 63)); try lia; try done; cbn [andb negb].
    do 2 f_equal. rewrite u64_small, i64_small; lia.
Qed.

Lemma linear_transform_value val basis1 N D (invert_frac : bool) basis2 :
  - 2 ^ 63 < val - basis1 < 2 ^ 63 -> - 2 ^ 31 < N < 2 ^ 31 -> 0 <= D < 2 ^ 32 ->
  (if invert_frac then N else D) <> 0 -> - 2 ^ 63 < basis2 < 2 ^ 63 ->
  linear_transform_s64_to_s64 val basis1 N D invert_frac basis2 true
  = Ok (shifted (scaled_distance invert_frac (val - basis1) N D) basis2).
Proof.
  intros Hv HN HD Hnz Hb. unfold linear_transform_s64_to_s64. cbn [negb].
  rewrite signed_distance by done. cbn [obind]. rewrite ABS_abs by done. cbn [obind].
  rewrite scaled_distance_abs. cbv zeta.
  set (is_neg := if N <? 0 then _ else _).
  rewrite scale_exact by (destruct invert_frac; lia). cbv zeta.
  set (s := quotient _ _ _).
  assert (0 <= s).
  { subst s. apply quotient_nonneg; destruct invert_frac; nia. }
  destruct (Z.ltb_spec s (2 ^ 64)); cbn [obind negb].
  - rewrite sign_bit, top_bit, negb_involutive by lia. destruct (Z.leb_spec (2 ^ 63) s).
    + apply shift_large; lia.
    + apply shift_fits; lia.
  - f_equal. unfold shifted. cbv zeta. destruct is_neg.
    + by rewrite (proj2 (Z.leb_gt _ _)) by lia.
    + rewrite (proj2 (Z.ltb_ge _ _)) by lia. by rewrite andb_false_r.
Qed.

(** ** Reducing fractions *)

Lemma reduce_gcd_ok fuel : forall a b, 0 < b <= a -> (Z.to_nat (Z.log2 (a * b)) < fuel)%nat ->
  reduce_gcd fuel a b = Ok (Z.gcd a b).
Proof.
  induction fuel as [|fuel IH]; intros a b Hab Hf; [lia|]. cbn [reduce_gcd]. cbv zeta.
  pose proof (Z.mod_pos_bound a b ltac:(lia)).
  rewrite Z.gcd_comm, <-Z.gcd_mod, Z.gcd_comm by lia.
  destruct (Z.eqb_spec (a mod b) 0) as [->|]; [rewrite Z.gcd_0_r_nonneg by lia; done|].
  assert (0 < b * (a mod b) /\ 2 * (b * (a mod b)) <= a * b) as [Hp Hh].
  { pose proof (Z.div_mod a b ltac:(lia)). assert (1 <= a / b) by (apply Z.div_le_lower_bound; lia). nia. }
  apply IH; [lia|]. apply Z.log2_le_mono in Hh. rewrite Z.log2_double in Hh by lia.
  pose proof (Z.log2_nonneg (b * (a mod b))). lia.
Qed.

Lemma reduce_lowest n d : 0 <= n -> 0 < d -> reduce (Some n) (Some d) = Ok (Some (n / Z.gcd n d), Some (d / Z.gcd n d)).
Proof.
  intros Hn Hd. unfold reduce. destruct (Z.eqb_spec d 0); [lia|].
  destruct (Z.eqb_spec n 0) as [->|].
  - rewrite Z.gcd_0_l_nonneg, Z.div_same, Z.div_0_l by lia. done.
  - destruct (Z.ltb_spec n d).
    + rewrite reduce_gcd_ok by lia. cbn [obind]. by rewrite (Z.gcd_comm d n).
    + rewrite reduce_gcd_ok by lia. done.
Qed.

Lemma div_gcd_bounds n d : 0 <= n -> 0 < d -> 0 <= n / Z.gcd n d <= n /\ 0 < d / Z.gcd n d <= d.
Proof.
  intros Hn Hd. pose proof (Z.gcd_nonneg n d).
  assert (Z.gcd n d <> 0) by (intros [_ ?]%Z.gcd_eq_0; lia).
  destruct (Z.gcd_divide_l n d) as [a Ea], (Z.gcd_divide_r n d) as [b Eb].
  set (g := Z.gcd n d) in *.
  assert (n / g = a) as -> by (rewrite Ea; apply Z.div_mul; lia).
  assert (d / g = b) as -> by (rewrite Eb; apply Z.div_mul; lia). nia.
Qed.

Lemma reduce_s32_ok n d : - 2 ^ 31 < n < 2 ^ 31 -> 0 < d < 2 ^ 32 ->
  reduce_s32 (Some n) (Some d) = Ok (Some (n / Z.gcd n d), Some (d / Z.gcd n d)).
Proof.
  intros Hn Hd. unfold reduce_s32. destruct (Z.eqb_spec d 0); [lia|].
  destruct (Z.ltb_spec n 0).
  - pose proof (div_gcd_bounds (- n) d ltac:(lia) ltac:(lia)) as [H1 _]. rewrite Z.gcd_opp_l in H1.
    unfold int_of. change (32 - 1) with 31.
    rewrite (proj2 (Z.leb_le (- 2 ^ 31) (- n))), (proj2 (Z.ltb_lt (- n) _)) by lia. cbn [andb obind].
    rewrite u32_small, reduce_lowest, Z.gcd_opp_l by lia. cbn [obind].
    rewrite i32_small by lia. rewrite (proj2 (Z.leb_le _ _)), (proj2 (Z.ltb_lt _ _)) by lia. cbn [andb obind].
    destruct (Z.gcd_divide_l n d) as [a Ea].
    assert (Z.gcd n d <> 0) by (intros [_ ?]%Z.gcd_eq_0; lia).
    do 3 f_equal. rewrite Z.div_opp_l_z by first [done|apply Z.mod_divide; [done|by exists a]]. lia.
  - pose proof (div_gcd_bounds n d ltac:(lia) ltac:(lia)) as [H1 _].
    rewrite u32_small, reduce_lowest by lia. cbn [obind]. simpl. by rewrite i32_small by lia.
Qed.

(** ** Theorems *)

(** The fields have values of their types, other than the least ones, whose
    negation overflows. *)
Record transform_ok (t : LinearTransform) : Prop := {
  ok_a_zero : - 2 ^ 63 < a_zero t < 2 ^ 63;
  ok_b_zero : - 2 ^ 63 < b_zero t < 2 ^ 63;
  ok_numer : - 2 ^ 31 < a_to_b_numer t < 2 ^ 31;
  ok_denom : 0 <= a_to_b_denom t < 2 ^ 32
}.

(** The two directions over rational numbers, rounded down and cut to 64 bits;
    none when the divisor is zero. *)
Definition forward (t : LinearTransform) (a : Z) : option Z :=
  if a_to_b_denom t =? 0 then None
  else shifted ((a - a_zero t) * a_to_b_numer t / a_to_b_denom t) (b_zero t).

Definition reverse (t : LinearTransform) (b : Z) : option Z :=
  if a_to_b_numer t =? 0 then None
  else shifted ((b - b_zero t) * a_to_b_denom t / a_to_b_numer t) (a_zero t).

Lemma doForwardTransform_value t a : transform_ok t -> - 2 ^ 63 < a - a_zero t < 2 ^ 63 ->
  doForwardTransform t a true = Ok (forward t a).
Proof.
  intros [Ha Hb Hn Hd] Hv. unfold doForwardTransform, forward.
  destruct (Z.eqb_spec (a_to_b_denom t) 0); [done|]. by rewrite linear_transform_value.
Qed.

Lemma doReverseTransform_value t b : transform_ok t -> - 2 ^ 63 < b - b_zero t < 2 ^ 63 ->
  doReverseTransform t b true = Ok (reverse t b).
Proof.
  intros [Ha Hb Hn Hd] Hv. unfold doReverseTransform, reverse.
  destruct (Z.eqb_spec (a_to_b_numer t) 0); [done|]. by rewrite linear_transform_value.
Qed.

(** C31: [doForwardTransform] and [doReverseTransform] return exactly the linear
    function of the transform and its inverse, rounded down, whenever the result
    fits 64 bits, and refuse every input whose result does not, and every input of
    a transform without inverse; no intermediate result overflows.  This is for
    inputs less than [2^63] away from the zero point of their side, zero points
    above [-2^63] and numerators above [-2^31], as the code computes distances and
    absolute values in signed integers.  The one representable result that is refused is the least 64-bit integer, when the
    zero point added is not negative. *)
Theorem linear_transforms_exact t v : transform_ok t ->
  (- 2 ^ 63 < v - a_zero t < 2 ^ 63 -> doForwardTransform t v true = Ok (forward t v)) /\
  (- 2 ^ 63 < v - b_zero t < 2 ^ 63 -> doReverseTransform t v true = Ok (reverse t v)) /\
  (forall q z, - 2 ^ 63 < z < 2 ^ 63 ->
    shifted q z = if (- 2 ^ 63 + (if 0 <=? z then 1 else 0) <=? q + z) && (q + z <? 2 ^ 63) then Some (q + z) else None).
Proof.
  intros Hok. split; [by apply doForwardTransform_value|]. split; [by apply doReverseTransform_value|].
  intros q z Hz. unfold shifted. cbv zeta.
  destruct (Z.leb_spec 0 z), (Z.leb_spec (- 2 ^ 63) (q + z)), (Z.ltb_spec (q + z) (2 ^ 63)),
    (Z.eqb_spec (q + z) (- 2 ^ 63)); cbn [andb negb]; rewrite ?andb_false_r; try done;
    match goal with |- context [?x <=? ?y] => destruct (Z.leb_spec x y) end; try lia; done.
Qed.

(** A clock of 90 kHz against nanoseconds, running backwards. *)
Definition clock90k : LinearTransform :=
  {| a_zero := 1000; b_zero := -5; a_to_b_numer := -1000000; a_to_b_denom := 90 |}.

Lemma clock90k_ok : transform_ok clock90k.
Proof. split; simpl; lia. Qed.

Lemma linear_transforms_exact_witness :
  doForwardTransform clock90k 1001 true = Ok (Some (-11117)) /\ doReverseTransform clock90k (-11117) true = Ok (Some 1001).
Proof.
  destruct (linear_transforms_exact clock90k 1001 clock90k_ok) as [F _].
  destruct (linear_transforms_exact clock90k (-11117) clock90k_ok) as [_ [R _]].
  split; [rewrite F|rewrite R]; simpl; (reflexivity || lia).
Defined.

(** Reducing the fraction of a transform ends, with a numerator and a
    denominator of the same ratio and without a common divisor, and the reduced
    transform returns what the transform returned, in both directions and on
    every input. *)
Theorem reduce_keeps_transform t : transform_ok t -> a_to_b_denom t <> 0 ->
  exists n d,
    reduce_s32 (Some (a_to_b_numer t)) (Some (a_to_b_denom t)) = Ok (Some n, Some d) /\
    n * a_to_b_denom t = a_to_b_numer t * d /\ Z.gcd n d = 1 /\
    let t' := {| a_zero := a_zero t; b_zero := b_zero t; a_to_b_numer := n; a_to_b_denom := d |} in
    (forall a, - 2 ^ 63 < a - a_zero t < 2 ^ 63 -> doForwardTransform t' a true = doForwardTransform t a true) /\
    (forall b, - 2 ^ 63 < b - b_zero t < 2 ^ 63 -> doReverseTransform t' b true = doReverseTransform t b true).
Proof.
  intros Hok Hnz. pose proof Hok as [Ha Hb Hn Hd].
  set (N := a_to_b_numer t) in *. set (D := a_to_b_denom t) in *.
  assert (Hg : 0 < Z.gcd N D).
  { pose proof (Z.gcd_nonneg N D). assert (Z.gcd N D <> 0) by (intros [_ ?]%Z.gcd_eq_0; lia). lia. }
  destruct (Z.gcd_divide_l N D) as [n En], (Z.gcd_divide_r N D) as [d Ed].
  exists n, d. split.
  { rewrite reduce_s32_ok by lia. set (g := Z.gcd N D) in *.
    rewrite En at 1. rewrite Ed at 1. by rewrite !Z.div_mul by lia. }
  pose proof (Z.gcd_div_gcd N D (Z.gcd N D) ltac:(lia) eq_refl) as Hc.
  set (g := Z.gcd N D) in *.
  assert (N / g = n) as En' by (rewrite En; apply Z.div_mul; lia).
  assert (D / g = d) as Ed' by (rewrite Ed; apply Z.div_mul; lia).
  rewrite En', Ed' in Hc. split; [rewrite En, Ed; lia|]. split; [done|]. cbv zeta.
  set (t' := {| a_zero := _ |}).
  assert (Hok' : transform_ok t') by (split; simpl; nia).
  split; intros v Hv.
  - rewrite !doForwardTransform_value by done. f_equal. unfold forward. fold N D. simpl.
    destruct (Z.eqb_spec d 0), (Z.eqb_spec D 0); try nia. f_equal.
    rewrite En, Ed, Z.mul_assoc, Z.div_mul_cancel_r by lia. done.
  - rewrite !doReverseTransform_value by done. f_equal. unfold reverse. fold N D. simpl.
    destruct (Z.eqb_spec n 0), (Z.eqb_spec N 0); try nia; [done|]. f_equal.
    rewrite En, Ed, Z.mul_assoc, Z.div_mul_cancel_r by lia. done.
Qed.

Lemma reduce_keeps_transform_witness : exists n d,
  reduce_s32 (Some (-1000000)) (Some 90) = Ok (Some n, Some d) /\ Z.gcd n d = 1.
Proof.
  destruct (reduce_keeps_transform clock90k clock90k_ok ltac:(simpl; lia)) as (n & d & E & _ & G & _).
  exists n, d. split; [exact E|exact G].
Defined.
