(* ===== verification/SortedVector.v ===== *)
(** * Vectors and sorted vectors (core/libutils/VectorImpl.cpp, SharedBuffer.cpp)

    The growable array under [Vector<T>] and [SortedVector<T>] with its shared
    buffer, and the binary search, insertion, merging and removal of sorted
    vectors.  A vector is the sole owner of its buffer here: copying a vector,
    which shares the buffer until one of the two is edited, is not modelled.
    Whether an allocation succeeds is up to the class [Malloc]. *)

From S2P Require Import Prelude.

#[local] Open Scope Z_scope.
#[local] Open Scope c_scope.

Definition size_t_max : Z := 2 ^ 64 - 1.
Definition NO_ERROR : Z := 0.
Definition NO_MEMORY : Z := - ENOMEM.
Definition BAD_VALUE : Z := - EINVAL.
(** [-ENOENT] and [-EOVERFLOW]. *)
Definition NAME_NOT_FOUND : Z := - 2.
Definition BAD_INDEX : Z := - 75.

(** The C heap: whether a request for that many bytes is granted. *)
Class Malloc (H : Type) : Type := {
  malloc : Z -> H -> bool * H;
  realloc : Z -> H -> bool * H
}.

(** What the templates know of the items: their size, whether they are copied
    and destroyed by [memcpy] and nothing, and their [operator<]. *)
Class ItemType (T : Type) : Type := {
  mItemSize : Z;
  trivial_copy_dtor : bool;
  item_lt : T -> T -> bool
}.

Definition sizeof_SharedBuffer : Z := 24.

Definition kMinVectorCapacity : Z := 4.

(** [mStorage] is the size of the buffer; the items in it are [mArray], and
    [mCount] is their number. *)
Record VectorImpl (T : Type) : Type := { mStorage : option Z; mArray : list T }.
Arguments Build_VectorImpl {T}.
Arguments mStorage {T}.
Arguments mArray {T}.

Section Vector.
Context {T H : Type} `{ItemType T} `{Malloc H}.
Notation vec := (VectorImpl T).
Notation MV := (M (VectorImpl T * H)).

Definition SharedBuffer_alloc (size : Z) : M H bool := fun h =>
  if size_t_max - sizeof_SharedBuffer <=? size then Abort else Ok (malloc (sizeof_SharedBuffer + size) h).

(** By the only owner of a buffer of [mSize] bytes. *)
Definition SharedBuffer_editResize (mSize newSize : Z) : M H bool := fun h =>
  if mSize =? newSize then Ok (true, h)
  else if size_t_max - sizeof_SharedBuffer <=? newSize then Abort
  else
    let '(ok, h) := realloc (sizeof_SharedBuffer + newSize) h in
    if (ok : bool) then Ok (true, h) else SharedBuffer_alloc newSize h.

Definition size (v : vec) : Z := Z.of_nat (length (mArray v)).

Definition capacity (v : vec) : Z :=
  match mStorage v with Some bytes => bytes / mItemSize | None => 0 end.

(** A [safe_iop] operation followed by [LOG_ALWAYS_FATAL_IF]. *)
Definition safe {S} (z : Z) : M S Z := fun s => if (0 <=? z) && (z <=? size_t_max) then Ok (z, s) else Abort.

Definition set_vector (bytes : option Z) (items : list T) : MV unit := fun s =>
  Ok (tt, (Build_VectorImpl bytes items, s.2)).

(** [fill] are the items the caller constructs in the gap; the result tells
    whether there is one. *)
Definition grow (where_ : Z) (fill : list T) : MV bool :=
  let! v := gets fst in
  let! new_size := safe (size v + Z.of_nat (length fill)) in
  let items := take (Z.to_nat where_) (mArray v) ++ fill ++ drop (Z.to_nat where_) (mArray v) in
  if capacity v <? new_size then
    let! new_capacity := safe (new_size + new_size / 2) in
    let! new_capacity := safe (new_capacity + 1) in
    let new_capacity := Z.max kMinVectorCapacity new_capacity in
    let! new_alloc_size := safe (new_capacity * mItemSize) in
    let! ok :=
      match mStorage v with
      | Some bytes =>
        if (size v =? where_) && trivial_copy_dtor then on_snd (SharedBuffer_editResize bytes new_alloc_size)
        else on_snd (SharedBuffer_alloc new_alloc_size)
      | None => on_snd (SharedBuffer_alloc new_alloc_size)
      end in
    if (ok : bool) then set_vector (Some new_alloc_size) items ;;! ret true else ret false
  else set_vector (mStorage v) items ;;! ret (isSome (mStorage v) && (where_ <? capacity v)).

Definition shrink (where_ amount : Z) : MV unit :=
  let! v := gets fst in
  match mStorage v with
  | None => ret tt
  | Some bytes =>
    let! new_size := safe (size v - amount) in
    let items := take (Z.to_nat where_) (mArray v) ++ drop (Z.to_nat (where_ + amount)) (mArray v) in
    if new_size <? capacity v / 2 then
      let new_capacity := Z.max kMinVectorCapacity (new_size * 2) in
      let new_bytes := u64 (new_capacity * mItemSize) in
      let! ok :=
        (if (where_ =? new_size) && trivial_copy_dtor then on_snd (SharedBuffer_editResize bytes new_bytes)
         else on_snd (SharedBuffer_alloc new_bytes)) in
      if (ok : bool) then set_vector (Some new_bytes) items else ret tt
    else set_vector (mStorage v) items
  end.

Definition insertArrayAt (array : list T) (index : Z) : MV Z :=
  let! v := gets fst in
  if size v <? index then ret BAD_INDEX
  else let! ok := grow index array in ret (if (ok : bool) then index else NO_MEMORY).

Definition insertAt (item : T) (index numItems : Z) : MV Z :=
  let! v := gets fst in
  if size v <? index then ret BAD_INDEX
  else
    let! ok := grow index (replicate (Z.to_nat numItems) item) in
    ret (if (ok : bool) then index else NO_MEMORY).

Definition replaceAt (prototype : T) (index : Z) : MV Z :=
  let! v := gets fst in
  if size v <=? index then ret BAD_INDEX
  else if index <? capacity v then
    set_vector (mStorage v) (<[Z.to_nat index := prototype]> (mArray v)) ;;! ret index
  else ret NO_MEMORY.

Definition removeItemsAt (index count : Z) : MV Z :=
  let! v := gets fst in
  if size v <? u64 (index + count) then ret BAD_VALUE else shrink index count ;;! ret index.

Definition clear : MV unit := let! v := gets fst in shrink 0 (size v).

Definition push (item : T) : MV unit := let! v := gets fst in insertAt item (size v) 1 ;;! ret tt.

Definition pop : MV unit :=
  let! v := gets fst in
  if size v =? 0 then ret tt else removeItemsAt (size v - 1) 1 ;;! ret tt.

Definition setCapacity (new_capacity : Z) : MV Z :=
  let! v := gets fst in
  if new_capacity <=? size v then ret (capacity v)
  else
    let! new_allocation_size := safe (new_capacity * mItemSize) in
    let! ok := on_snd (SharedBuffer_alloc new_allocation_size) in
    if (ok : bool) then set_vector (Some new_allocation_size) (mArray v) ;;! ret new_capacity
    else ret NO_MEMORY.

(** [fresh] is what the constructor leaves in a new item. *)
Definition resize (fresh : T) (new_size : Z) : MV Z :=
  let! v := gets fst in
  let! result :=
    (if size v <? new_size then insertAt fresh (size v) (new_size - size v)
     else if new_size <? size v then removeItemsAt new_size (size v - new_size)
     else ret NO_ERROR) in
  ret (if result <? 0 then result else new_size).

(** The inner loop of [sort]: [temp] is the item taken out behind place [j]; the
    items from [j] down that compare greater move up, and it goes below them. *)
Fixpoint sort_shift (cmp : T -> T -> Z) (j : nat) (temp : T) (array : list T) : outcome (list T) :=
  match array !! j with
  | None => UB
  | Some curr =>
    let array := <[S j := curr]> array in
    match j with
    | O => Ok (<[O := temp]> array)
    | S j =>
      match array !! j with
      | None => UB
      | Some curr => if 0 <? cmp curr temp then sort_shift cmp j temp array else Ok (<[S j := temp]> array)
      end
    end
  end.

(** The outer loop, with [n] items left from the [i]-th on; [temp] tells whether
    the memory for the item taken out was allocated. *)
Fixpoint sort_loop (cmp : T -> T -> Z) (n i : nat) (temp : bool) : MV Z :=
  match n with
  | O => ret NO_ERROR
  | S n =>
    let! v := gets fst in
    match mArray v !! (i - 1)%nat, mArray v !! i with
    | Some curr, Some item =>
      if 0 <? cmp curr item then
        let! ok := (if temp then ret true else on_snd (fun h => Ok (malloc mItemSize h))) in
        if negb ok then ret NO_MEMORY
        else
          let! array := lift (sort_shift cmp (i - 1) item (mArray v)) in
          set_vector (mStorage v) array ;;!
          sort_loop cmp n (S i) true
      else sort_loop cmp n (S i) temp
    | _, _ => undef
    end
  end.

Definition sort (cmp : T -> T -> Z) : MV Z :=
  let! v := gets fst in
  if 1 <? size v then sort_loop cmp (length (mArray v) - 1) 1 false else ret NO_ERROR.

(** [SortedVector<T>::do_compare]. *)
Definition compare_type (lhs rhs : T) : Z := Z.b2z (item_lt rhs lhs) - Z.b2z (item_lt lhs rhs).

(** The binary search between [l] and [h]: the index and the order. *)
Fixpoint search_loop (fuel : nat) (items : list T) (item : T) (l h : Z) : outcome (Z * Z) :=
  if l <=? h then
    match fuel with
    | O => NoFuel
    | S fuel =>
      let mid := l + Z.quot (h - l) 2 in
      match items !! Z.to_nat mid with
      | None => UB
      | Some curr =>
        let c := compare_type curr item in
        if c =? 0 then Ok (mid, mid)
        else if c <? 0 then search_loop fuel items item (mid + 1) h
        else search_loop fuel items item l (mid - 1)
      end
    end
  else Ok (NAME_NOT_FOUND, l).

Definition indexOrderOf (v : vec) (item : T) : outcome (Z * Z) :=
  search_loop (length (mArray v)) (mArray v) item 0 (size v - 1).

Definition indexOf (v : vec) (item : T) : outcome Z := do! r := indexOrderOf v item in Ok r.1.

Definition orderOf (v : vec) (item : T) : outcome Z := do! r := indexOrderOf v item in Ok r.2.

Definition sorted_add (item : T) : MV Z :=
  let! v := gets fst in
  let! (index, order) := lift (indexOrderOf v item) in
  if index <? 0 then insertAt item order 1 else replaceAt item index.

(** [merge] of a vector in any order. *)
Fixpoint merge_vector (items : list T) : MV Z :=
  match items with
  | [] => ret NO_ERROR
  | item :: items =>
    let! err := sorted_add item in
    if err <? 0 then ret err else merge_vector items
  end.

(** [merge] of a sorted vector.  The first and the last item of an empty
    vector do not exist. *)
Definition merge_sorted (items : list T) : MV Z :=
  let! v := gets fst in
  match last items, head items with
  | Some last_item, Some first_item =>
    match head (mArray v), last (mArray v) with
    | Some first_own, Some last_own =>
      if compare_type last_item first_own <=? 0 then insertArrayAt items 0
      else if 0 <=? compare_type first_item last_own then insertArrayAt items (size v)
      else merge_vector items
    | _, _ => undef
    end
  | _, _ => ret NO_ERROR
  end.

Definition sorted_remove (item : T) : MV Z :=
  let! v := gets fst in
  let! i := lift (indexOf v item) in
  if 0 <=? i then removeItemsAt i 1 ;;! ret i else ret i.

End Vector.

(** ** What the laws give *)

(** Every request for memory is granted. *)
Class Plenty (H : Type) `{Malloc H} : Prop := {
  malloc_granted n h : (malloc n h).1 = true;
  realloc_granted n h : (realloc n h).1 = true
}.

(** [operator<] is a strict weak order. *)
Class ItemLaws (T : Type) `{ItemType T} : Prop := {
  item_size_range : 0 < mItemSize < 2 ^ 16;
  item_lt_irrefl x : item_lt x x = false;
  item_lt_trans x y z : item_lt x y = true -> item_lt y z = true -> item_lt x z = true;
  item_lt_split x y z : item_lt x z = true -> item_lt x y = true \/ item_lt y z = true
}.

Section Laws.
Context {T H : Type} `{ItemLaws T} `{Plenty H}.
Notation vec := (VectorImpl T).

(** The items are in the buffer. *)
Definition vec_ok (v : vec) : Prop :=
  match mStorage v with
  | None => mArray v = []
  | Some bytes => size v <= bytes / mItemSize /\ 0 <= bytes <= 2 ^ 63
  end.

(** A run that gives a vector with these items. *)
Definition leaves {A} (m : M (vec * H) A) (v : vec) (h : H) (a : A) (items : list T) : Prop :=
  exists bytes h', m (v, h) = Ok (a, (Build_VectorImpl bytes items, h')) /\ vec_ok (Build_VectorImpl bytes items).

Lemma alloc_granted n (h : H) : 0 <= n <= 2 ^ 63 -> exists h', SharedBuffer_alloc n h = Ok (true, h').
Proof.
  intros Hn. unfold SharedBuffer_alloc, size_t_max, sizeof_SharedBuffer.
  destruct (Z.leb_spec (2 ^ 64 - 1 - 24) n); [lia|].
  pose proof (malloc_granted (24 + n) h). destruct (malloc (24 + n) h) as [b h']; simpl in *. subst. by eexists.
Qed.

Lemma resize_granted m n (h : H) : 0 <= n <= 2 ^ 63 -> exists h', SharedBuffer_editResize m n h = Ok (true, h').
Proof.
  intros Hn. unfold SharedBuffer_editResize, size_t_max, sizeof_SharedBuffer.
  destruct (m =? n); [by eexists|]. destruct (Z.leb_spec (2 ^ 64 - 1 - 24) n); [lia|].
  pose proof (realloc_granted (24 + n) h). destruct (realloc (24 + n) h) as [b h']; simpl in *. subst. by eexists.
Qed.

Lemma storage_granted (b : bool) m n (v : vec) (h : H) : 0 <= n <= 2 ^ 63 -> exists h',
  (if b then on_snd (SharedBuffer_editResize m n) else on_snd (SharedBuffer_alloc n)) (v, h) = Ok (true, (v, h')).
Proof.
  intros Hn. destruct b.
  - destruct (resize_granted m n h Hn) as [h' E]. exists h'. by apply on_snd_ok.
  - destruct (alloc_granted n h Hn) as [h' E]. exists h'. by apply on_snd_ok.
Qed.

Lemma bind_safe {S A} z (k : Z -> M S A) s : 0 <= z < 2 ^ 64 -> bind (safe z) k s = k z s.
Proof.
  intros Hz. apply bind_Ok. unfold safe, size_t_max. by rewrite (proj2 (Z.leb_le _ _)), (proj2 (Z.leb_le _ _)) by lia.
Qed.

Lemma size_nonneg (v : vec) : 0 <= size v.
Proof. unfold size. lia. Qed.

Lemma capacity_of (v : vec) : vec_ok v -> size v <= capacity v.
Proof.
  unfold vec_ok, capacity, size. destruct (mStorage v); [tauto|]. intros ->. simpl. lia.
Qed.

Lemma grow_ok (v : vec) h w fill : vec_ok v -> 0 <= w <= size v -> fill <> [] ->
  size v + Z.of_nat (length fill) <= 2 ^ 44 ->
  leaves (grow w fill) v h true (take (Z.to_nat w) (mArray v) ++ fill ++ drop (Z.to_nat w) (mArray v)).
Proof.
  intros Hv Hw Hf Hb. pose proof item_size_range as Hi. pose proof (size_nonneg v).
  assert (Hn : 0 < Z.of_nat (length fill)) by (destruct fill; [done|simpl; lia]).
  unfold leaves. set (items := take _ _ ++ _).
  assert (Hlen : Z.of_nat (length items) = size v + Z.of_nat (length fill)).
  { subst items. rewrite !length_app, length_take, length_drop. unfold size in *. lia. }
  unfold grow. rewrite (bind_Ok _ _ _ v (v, h)) by done. rewrite bind_safe by lia.
  fold items. set (n := size v + Z.of_nat (length fill)) in *.
  destruct (Z.ltb_spec (capacity v) n) as [Hc|Hc].
  - assert (0 <= n / 2 <= n) by (split; [apply Z.div_pos|apply Z.div_le_upper_bound]; lia).
    do 2 rewrite bind_safe by lia. set (c := Z.max _ _).
    assert (n <= c <= 2 ^ 46) by (unfold kMinVectorCapacity in *; lia).
    assert (Hr : 0 <= n * mItemSize <= c * mItemSize /\ c * mItemSize <= 2 ^ 62) by nia.
    rewrite bind_safe by lia.
    set (a := c * mItemSize) in *.
    assert (exists h', match mStorage v with
      | Some bytes => if (size v =? w) && trivial_copy_dtor then on_snd (SharedBuffer_editResize bytes a) else on_snd (SharedBuffer_alloc a)
      | None => on_snd (SharedBuffer_alloc a) end (v, h) = Ok (true, (v, h'))) as [h' E].
    { destruct (mStorage v) as [bytes|]; [apply (storage_granted _ bytes)|apply (storage_granted false 0)]; nia. }
    rewrite (bind_Ok _ _ _ _ _ E). exists (Some a), h'. split; [done|]. unfold vec_ok, size. simpl.
    split; [|nia]. rewrite Hlen. apply Z.div_le_lower_bound; lia.
  - rewrite (proj2 (Z.ltb_lt w (capacity v))), andb_true_r by lia.
    exists (mStorage v), h. unfold vec_ok, capacity, size in *. destruct (mStorage v) as [bytes|]; [|simpl in *; lia].
    split; [done|]. simpl. lia.
Qed.

Lemma shrink_ok (v : vec) h w n : vec_ok v -> 0 <= w -> 0 <= n -> w + n <= size v ->
  leaves (shrink w n) v h tt (take (Z.to_nat w) (mArray v) ++ drop (Z.to_nat (w + n)) (mArray v)).
Proof.
  intros Hv Hw Hn Hb. pose proof item_size_range as Hi. pose proof (capacity_of v Hv) as Hc.
  unfold leaves. set (items := take _ _ ++ _).
  assert (Hlen : Z.of_nat (length items) = size v - n).
  { subst items. rewrite !length_app, length_take, length_drop. unfold size in *. lia. }
  unfold shrink. rewrite (bind_Ok _ _ _ v (v, h)) by done. fold items.
  destruct (mStorage v) as [bytes|] eqn:Es.
  - unfold vec_ok in Hv. rewrite Es in Hv. destruct Hv as [Hv1 Hv2].
    assert (Hcap : capacity v = bytes / mItemSize) by (unfold capacity; by rewrite Es).
    pose proof (Z.mul_div_le bytes mItemSize (proj1 Hi)) as Hm.
    assert (size v <= bytes) by nia. rewrite bind_safe by lia.
    destruct (Z.ltb_spec (size v - n) (capacity v / 2)) as [Hs|Hs].
    + pose proof (Z.mul_div_le (capacity v) 2 ltac:(lia)). set (c := Z.max _ _).
      assert (Hcr : size v - n <= c /\ 4 <= c /\ c * mItemSize <= 2 ^ 63).
      { unfold kMinVectorCapacity in c. subst c. split; [lia|]. split; [lia|]. nia. }
      rewrite u64_small by nia. set (a := c * mItemSize) in *.
      destruct (storage_granted ((w =? size v - n) && trivial_copy_dtor) bytes a v h ltac:(nia)) as [h' E].
      rewrite (bind_Ok _ _ _ _ _ E). exists (Some a), h'. split; [done|].
      unfold vec_ok, size. simpl. rewrite Hlen. split; [apply Z.div_le_lower_bound; nia|nia].
    + exists (Some bytes), h. split; [done|]. unfold vec_ok, size. simpl. lia.
  - exists None, h. unfold vec_ok in Hv. rewrite Es in Hv.
    assert (items = []) as -> by (apply length_zero_iff_nil; unfold size in *; rewrite Hv in *; simpl in *; lia).
    destruct v as [st arr]. simpl in *. subst. done.
Qed.

Lemma insertAt_ok (v : vec) h item i : vec_ok v -> 0 <= i <= size v -> size v < 2 ^ 44 ->
  leaves (insertAt item i 1) v h i (take (Z.to_nat i) (mArray v) ++ item :: drop (Z.to_nat i) (mArray v)).
Proof.
  intros Hv Hi Hb. destruct (grow_ok v h i [item] Hv Hi ltac:(done) ltac:(simpl; lia)) as (bytes & h' & E & Hok).
  exists bytes, h'. split; [|done]. unfold insertAt. rewrite (bind_Ok _ _ _ v (v, h)) by done.
  destruct (Z.ltb_spec (size v) i); [lia|]. change (replicate (Z.to_nat 1) item) with [item].
  by rewrite (bind_Ok _ _ _ _ _ E).
Qed.

Lemma replaceAt_ok (v : vec) h item i : vec_ok v -> 0 <= i < size v ->
  leaves (replaceAt item i) v h i (<[Z.to_nat i := item]> (mArray v)).
Proof.
  intros Hv Hi. pose proof (capacity_of v Hv). exists (mStorage v), h. split.
  - unfold replaceAt. rewrite (bind_Ok _ _ _ v (v, h)) by done.
    destruct (Z.leb_spec (size v) i); [lia|]. destruct (Z.ltb_spec i (capacity v)); [done|lia].
  - unfold vec_ok, size in *. simpl. rewrite length_insert. destruct (mStorage v); [done|]. by rewrite Hv.
Qed.

Lemma removeItemsAt_ok (v : vec) h i : vec_ok v -> 0 <= i < size v -> size v < 2 ^ 63 ->
  leaves (removeItemsAt i 1) v h i (delete (Z.to_nat i) (mArray v)).
Proof.
  intros Hv Hi Hb. destruct (shrink_ok v h i 1 Hv ltac:(lia) ltac:(lia) ltac:(lia)) as (bytes & h' & E & Hok).
  rewrite delete_take_drop. replace (S (Z.to_nat i)) with (Z.to_nat (i + 1)) by lia. exists bytes, h'. split; [|done].
  unfold removeItemsAt. rewrite (bind_Ok _ _ _ v (v, h)) by done. rewrite u64_small by lia.
  destruct (Z.ltb_spec (size v) (i + 1)); [lia|]. by rewrite (bind_Ok _ _ _ _ _ E).
Qed.

Lemma clear_ok (v : vec) h : vec_ok v -> leaves clear v h tt [].
Proof.
  intros Hv. destruct (shrink_ok v h 0 (size v) Hv ltac:(lia) (size_nonneg v) ltac:(lia)) as (bytes & h' & E & Hok).
  assert (Ed : drop (Z.to_nat (0 + size v)) (mArray v) = []) by (apply drop_ge; unfold size; lia).
  rewrite Ed in E, Hok. exists bytes, h'. split; [|done]. unfold clear. by rewrite (bind_Ok _ _ _ v (v, h)).
Qed.

End Laws.

(** ** Sorted vectors *)

Section Order.
Context {T H : Type} `{ItemLaws T} `{Plenty H}.
Notation vec := (VectorImpl T).

(** Neither is before the other. *)
Definition same (x y : T) : bool := negb (item_lt x y) && negb (item_lt y x).

Definition increasing (items : list T) : Prop := StronglySorted (fun x y => item_lt x y = true) items.

(** Insertion into and removal from an ordered list. *)
Fixpoint insert_item (item : T) (items : list T) : list T :=
  match items with
  | [] => [item]
  | x :: rest =>
    if item_lt x item then x :: insert_item item rest
    else if item_lt item x then item :: items
    else item :: rest
  end.

Definition remove_item (item : T) (items : list T) : list T := base.filter (fun x => same x item = false) items.

Lemma item_lt_asym x y : item_lt x y = true -> item_lt y x = false.
Proof.
  intros E. destruct (item_lt y x) eqn:F; [|done].
  pose proof (item_lt_trans _ _ _ E F) as G. by rewrite item_lt_irrefl in G.
Qed.

Lemma compare_cases x y :
  (item_lt x y = true /\ compare_type x y = -1) \/ (item_lt y x = true /\ compare_type x y = 1) \/
  (same x y = true /\ compare_type x y = 0).
Proof.
  unfold compare_type, same. destruct (item_lt x y) eqn:E.
  - left. split; [done|]. by rewrite (item_lt_asym _ _ E).
  - destruct (item_lt y x); auto.
Qed.

Lemma increasing_lookup items i j x y : increasing items -> (i < j)%nat ->
  items !! i = Some x -> items !! j = Some y -> item_lt x y = true.
Proof.
  intros Hs. revert i j. induction Hs as [|z l _ IH Hz]; intros i j Hij Hi Hj; [done|].
  destruct j as [|j]; [lia|]. destruct i as [|i]; simpl in *.
  - simplify_eq. exact (Forall_lookup_1 _ _ _ _ Hz Hj).
  - eapply IH; [|eauto..]. lia.
Qed.

Lemma same_lt_l x y z : same x y = true -> item_lt x z = true -> item_lt y z = true.
Proof.
  intros [E1%negb_true_iff E2%negb_true_iff]%andb_true_iff L.
  destruct (item_lt_split x y z L); [congruence|done].
Qed.

Lemma same_lt_r x y z : same x y = true -> item_lt z x = true -> item_lt z y = true.
Proof.
  intros [E1%negb_true_iff E2%negb_true_iff]%andb_true_iff L.
  destruct (item_lt_split z y x L); [done|congruence].
Qed.

(** What a search of [item] finds. *)
Inductive search_result (items : list T) (item : T) : Z -> Z -> Prop :=
| found (i : nat) x : items !! i = Some x -> same x item = true -> search_result items item (Z.of_nat i) (Z.of_nat i)
| missing (o : nat) : (o <= length items)%nat ->
    Forall (fun x => item_lt x item = true) (take o items) ->
    Forall (fun x => item_lt item x = true) (drop o items) ->
    search_result items item NAME_NOT_FOUND (Z.of_nat o).

Lemma search_loop_ok items item fuel : increasing items -> forall l h,
  0 <= l <= h + 1 -> h < Z.of_nat (length items) -> h - l + 1 <= Z.of_nat fuel ->
  Forall (fun x => item_lt x item = true) (take (Z.to_nat l) items) ->
  Forall (fun x => item_lt item x = true) (drop (Z.to_nat (h + 1)) items) ->
  exists i o, search_loop fuel items item l h = Ok (i, o) /\ search_result items item i o.
Proof.
  intros Hs. induction fuel as [|fuel IH]; intros l h Hl Hh Hf Hb Ha; cbn [search_loop].
  all: destruct (Z.leb_spec l h) as [Hle|Hgt].
  1: lia.
  1, 3: exists NAME_NOT_FOUND, l; split; [done|]; replace (h + 1) with l in Ha by lia;
    rewrite <-(Z2Nat.id l) by lia; apply missing; [lia|done|done].
  set (mid := l + Z.quot (h - l) 2).
  assert (Hm : l <= mid <= h) by (subst mid; rewrite Z.quot_div_nonneg by lia; pose proof (Z.div_pos (h - l) 2 ltac:(lia) ltac:(lia)); pose proof (Z.mul_div_le (h - l) 2 ltac:(lia)); lia).
  cbv zeta. destruct (items !! Z.to_nat mid) as [x|] eqn:Ex; [|apply lookup_ge_None in Ex; lia].
  destruct (compare_cases x item) as [[E ->]|[[E ->]|[E ->]]]; simpl.
  - apply IH; [lia..| |done]. apply Forall_lookup. intros i y Hy. apply lookup_take_Some in Hy as [Hy Hi].
    destruct (decide (i = Z.to_nat mid)) as [->|]; [congruence|].
    eapply item_lt_trans; [eapply increasing_lookup; [done| |exact Hy|exact Ex]; lia|done].
  - apply IH; [lia..|done|]. apply Forall_lookup. intros i y Hy. rewrite lookup_drop in Hy.
    destruct (decide (Z.to_nat (mid - 1 + 1) + i = Z.to_nat mid)%nat) as [E'|]; [rewrite E' in Hy; congruence|].
    eapply item_lt_trans; [exact E|eapply increasing_lookup; [done| |exact Ex|exact Hy]; lia].
  - exists mid, mid. split; [done|]. rewrite <-(Z2Nat.id mid) by lia. by eapply found.
Qed.

Lemma indexOrderOf_ok (v : vec) item : increasing (mArray v) ->
  exists i o, indexOrderOf v item = Ok (i, o) /\ search_result (mArray v) item i o.
Proof.
  intros Hs. apply search_loop_ok; try done; unfold size; try lia.
  rewrite drop_ge by lia. constructor.
Qed.

(** ** The operations refine those of ordered lists *)

Lemma insert_item_skip item pre post : Forall (fun x => item_lt x item = true) pre ->
  insert_item item (pre ++ post) = pre ++ insert_item item post.
Proof. induction 1 as [|x pre Hx _ IH]; simpl; [done|]. by rewrite Hx, IH. Qed.

Lemma before_found items item i x : increasing items -> items !! i = Some x -> same x item = true ->
  Forall (fun y => item_lt y item = true) (take i items).
Proof.
  intros Hs Hx E. apply Forall_lookup. intros j y [Hy Hj]%lookup_take_Some.
  eapply same_lt_r; [exact E|]. by eapply increasing_lookup.
Qed.

Lemma after_found items item i x : increasing items -> items !! i = Some x -> same x item = true ->
  Forall (fun y => item_lt item y = true) (drop (S i) items).
Proof.
  intros Hs Hx E. apply Forall_lookup. intros j y Hy. rewrite lookup_drop in Hy.
  eapply same_lt_l; [exact E|]. eapply increasing_lookup; [done| |done..]. lia.
Qed.

Lemma insert_item_found items item i x : increasing items -> items !! i = Some x -> same x item = true ->
  insert_item item items = <[i := item]> items.
Proof.
  intros Hs Hx E. rewrite <-(take_drop_middle items i x Hx) at 1.
  rewrite insert_item_skip by by eapply before_found. simpl.
  pose proof E as [E1%negb_true_iff E2%negb_true_iff]%andb_true_iff. rewrite E1, E2.
  rewrite insert_take_drop; [done|]. by eapply lookup_lt_Some.
Qed.

Lemma insert_item_missing items item o :
  Forall (fun x => item_lt x item = true) (take o items) -> Forall (fun x => item_lt item x = true) (drop o items) ->
  insert_item item items = take o items ++ item :: drop o items.
Proof.
  intros Hb Ha. rewrite <-(take_drop o items) at 1. rewrite insert_item_skip by done. f_equal.
  destruct Ha as [|y post Hy _]; [done|]. simpl. by rewrite (item_lt_asym _ _ Hy), Hy.
Qed.

Lemma elem_of_insert_item item items x : increasing items ->
  x ∈ insert_item item items <-> x = item \/ (x ∈ items /\ same x item = false).
Proof.
  unfold same. induction 1 as [|y rest _ IH Hy]; simpl; [set_solver|].
  destruct (item_lt y item) eqn:E1; [|destruct (item_lt item y) eqn:E2].
  - rewrite !elem_of_cons, IH. split; [|naive_solver].
    intros [->|[->|[? ?]]]; [right; split; [by left|by rewrite E1]|by left|right; split; [by right|done]].
  - rewrite !elem_of_cons. split; [|naive_solver]. intros [->|[->|Hx]]; [by left|right|right].
    + split; [by left|]. by rewrite E2, andb_false_r.
    + split; [by right|]. rewrite Forall_forall in Hy. rewrite (item_lt_trans _ _ _ E2 (Hy _ Hx)). by rewrite andb_false_r.
  - rewrite !elem_of_cons. split.
    + intros [->|Hx]; [by left|right]. split; [by right|]. rewrite Forall_forall in Hy.
      assert (item_lt item x = true) as ->; [|by rewrite andb_false_r].
      eapply (same_lt_l y); [unfold same; by rewrite E1, E2|by apply Hy].
    + intros [->|[[->|Hx] Hn]]; [by left| |by right]. by rewrite E1, E2 in Hn.
Qed.

Lemma increasing_insert item items : increasing items -> increasing (insert_item item items).
Proof.
  induction 1 as [|y rest Hs IH Hy]; simpl; [repeat constructor|].
  destruct (item_lt y item) eqn:E1; [|destruct (item_lt item y) eqn:E2].
  - constructor; [done|]. rewrite Forall_forall. intros x [->|[Hx _]]%elem_of_insert_item; [done| |done].
    rewrite Forall_forall in Hy. by apply Hy.
  - constructor; [by constructor|]. constructor; [done|]. eapply Forall_impl; [exact Hy|]. simpl. intros x Hx.
    by eapply item_lt_trans.
  - constructor; [done|]. eapply Forall_impl; [exact Hy|]. simpl. intros x.
    apply same_lt_l. unfold same. by rewrite E1, E2.
Qed.

Lemma increasing_filter (P : T -> Prop) `{forall x, Decision (P x)} items : increasing items -> increasing (base.filter P items).
Proof.
  induction 1 as [|y rest Hs IH Hy]; [constructor|]. rewrite filter_cons. case_decide; [|done].
  constructor; [done|]. rewrite Forall_forall in *. intros x [_ Hx]%list_elem_of_filter. by apply Hy.
Qed.

Lemma remove_item_keep item items : Forall (fun x => same x item = false) items -> remove_item item items = items.
Proof.
  unfold remove_item. induction 1 as [|x items Hx _ IH]; [done|].
  by rewrite filter_cons, decide_True, IH by done.
Qed.

Lemma lt_not_same x item : item_lt x item = true \/ item_lt item x = true -> same x item = false.
Proof. unfold same. intros [-> | ->]; [done|]. apply andb_false_r. Qed.

Lemma remove_item_missing item items i o : search_result items item i o -> i < 0 -> remove_item item items = items.
Proof.
  intros Hr Hi. destruct Hr as [k x Hx E|o Ho Hb Ha]; [lia|].
  apply remove_item_keep. rewrite <-(take_drop o items). apply Forall_app.
  split; (eapply Forall_impl; [eassumption|]); intros y Hy; apply lt_not_same; auto.
Qed.

Lemma remove_item_found item items i x : increasing items -> items !! i = Some x -> same x item = true ->
  remove_item item items = delete i items.
Proof.
  intros Hs Hx E. rewrite <-(take_drop_middle items i x Hx) at 1. unfold remove_item.
  rewrite filter_app, filter_cons, decide_False by (by rewrite E). rewrite delete_take_drop. f_equal.
  - apply remove_item_keep. eapply Forall_impl; [by eapply before_found|]. intros y Hy. apply lt_not_same. auto.
  - apply remove_item_keep. eapply Forall_impl; [by eapply after_found|]. intros y Hy. apply lt_not_same. auto.
Qed.

Lemma sorted_add_ok (v : vec) h item : vec_ok v -> increasing (mArray v) -> size v < 2 ^ 44 ->
  exists r, 0 <= r /\ leaves (sorted_add item) v h r (insert_item item (mArray v)).
Proof.
  intros Hv Hs Hb. destruct (indexOrderOf_ok v item Hs) as (i & o & E & Hr).
  unfold leaves, sorted_add. rewrite (bind_Ok _ _ _ v (v, h)) by done.
  rewrite (bind_Ok _ _ _ (i, o) (v, h)) by (unfold lift; by rewrite E).
  destruct Hr as [k x Hx Hsame|o Ho Hbf Haf].
  - exists (Z.of_nat k). split; [lia|]. destruct (Z.ltb_spec (Z.of_nat k) 0); [lia|].
    rewrite (insert_item_found _ _ _ _ Hs Hx Hsame). apply lookup_lt_Some in Hx.
    pose proof (replaceAt_ok v h item (Z.of_nat k) Hv ltac:(unfold size; lia)) as R. by rewrite Nat2Z.id in R.
  - exists (Z.of_nat o). split; [lia|]. simpl. rewrite (insert_item_missing _ _ o) by done.
    pose proof (insertAt_ok v h item (Z.of_nat o) Hv ltac:(unfold size; lia) Hb) as R. by rewrite Nat2Z.id in R.
Qed.

Lemma sorted_remove_ok (v : vec) h item i o : vec_ok v -> increasing (mArray v) -> size v < 2 ^ 44 ->
  indexOrderOf v item = Ok (i, o) -> leaves (sorted_remove item) v h i (remove_item item (mArray v)).
Proof.
  intros Hv Hs Hb E. destruct (indexOrderOf_ok v item Hs) as (i' & o' & E' & Hr).
  rewrite E in E'. injection E' as <- <-.
  unfold leaves, sorted_remove. rewrite (bind_Ok _ _ _ v (v, h)) by done.
  rewrite (bind_Ok _ _ _ i (v, h)) by (unfold lift, indexOf; by rewrite E).
  destruct (Z.leb_spec 0 i).
  - inversion Hr as [k x Hx Hsame E1 E2|o' Ho Hbf Haf E1 E2]; subst; [|unfold NAME_NOT_FOUND in *; lia].
    destruct (removeItemsAt_ok v h (Z.of_nat k) Hv) as (bytes & h' & R & Hok);
      [apply lookup_lt_Some in Hx; unfold size; lia|lia|].
    rewrite Nat2Z.id in R, Hok. rewrite (remove_item_found _ _ _ _ Hs Hx Hsame). exists bytes, h'.
    by rewrite (bind_Ok _ _ _ _ _ R).
  - rewrite (remove_item_missing _ _ _ _ Hr) by lia. exists (mStorage v), h. by destruct v.
Qed.

Lemma merge_vector_ok items : forall (v : vec) h, vec_ok v -> increasing (mArray v) ->
  size v + Z.of_nat (length items) < 2 ^ 44 ->
  leaves (merge_vector items) v h NO_ERROR (foldl (fun l x => insert_item x l) (mArray v) items).
Proof.
  induction items as [|x items IH]; intros v h Hv Hs Hb; simpl in *.
  { exists (mStorage v), h. by destruct v. }
  destruct (sorted_add_ok v h x Hv Hs ltac:(lia)) as (r & Hr & bytes & h' & E & Hok).
  destruct (IH _ h' Hok) as (b2 & h2 & E2 & Hok2); simpl in *; [by apply increasing_insert| |].
  - assert (length (insert_item x (mArray v)) <= S (length (mArray v)))%nat; [|unfold size in *; simpl; lia].
    clear. induction (mArray v) as [|y l IHl]; simpl; [lia|]. repeat case_match; simpl; lia.
  - exists b2, h2. rewrite (bind_Ok _ _ _ _ _ E). by destruct (Z.ltb_spec r 0); [lia|].
Qed.

(** C29: On a sorted vector the binary search ends and finds the item equal to the
    given one, or its place if there is none; [add] leaves the vector sorted with
    the item in place of its equal, whether or not the buffer has to grow, and
    [remove] leaves it without. *)
Theorem sorted_vector_refines (v : vec) h item : vec_ok v -> increasing (mArray v) -> size v < 2 ^ 44 ->
  exists i o, indexOrderOf v item = Ok (i, o) /\ search_result (mArray v) item i o /\
  (exists r, 0 <= r /\ leaves (sorted_add item) v h r (insert_item item (mArray v))) /\
  leaves (sorted_remove item) v h i (remove_item item (mArray v)) /\
  increasing (insert_item item (mArray v)) /\ increasing (remove_item item (mArray v)) /\
  (forall x, x ∈ insert_item item (mArray v) <-> x = item \/ (x ∈ mArray v /\ same x item = false)).
Proof.
  intros Hv Hs Hb. destruct (indexOrderOf_ok v item Hs) as (i & o & E & Hr). exists i, o.
  split; [done|]. split; [done|]. split; [by apply sorted_add_ok|]. split; [by eapply sorted_remove_ok|].
  split; [by apply increasing_insert|]. split; [by apply increasing_filter|].
  intros x. by apply elem_of_insert_item.
Qed.

End Order.

(** ** Examples *)

(** 64-bit integers, on a heap that never runs out. *)
#[export] Instance int_item : ItemType Z := { mItemSize := 8; trivial_copy_dtor := true; item_lt := Z.ltb }.

#[export] Instance int_item_laws : ItemLaws Z.
Proof.
  split; simpl; intros.
  - lia.
  - apply Z.ltb_irrefl.
  - lia.
  - destruct (Z.ltb_spec x y), (Z.ltb_spec y z); auto; lia.
Qed.

#[export] Instance endless_heap : Malloc unit := { malloc _ h := (true, h); realloc _ h := (true, h) }.

#[export] Instance endless_heap_plenty : Plenty unit.
Proof. split; done. Qed.

Definition ints (l : list Z) : VectorImpl Z := Build_VectorImpl (Some (8 * Z.of_nat (length l))) l.

Lemma sorted_vector_refines_witness :
  exists r, 0 <= r /\ leaves (sorted_add 4) (ints [1; 3; 5]) tt r [1; 3; 4; 5].
Proof.
  destruct (sorted_vector_refines (ints [1; 3; 5]) tt 4) as (i & o & _ & _ & Ha & _).
  - split; vm_compute; [discriminate|split; discriminate].
  - repeat constructor.
  - reflexivity.
  - exact Ha.
Defined.

(** Merging a sorted vector that begins with the last item keeps the item twice. *)
Lemma merge_sorted_duplicates : exists bytes,
  merge_sorted [2; 3] (ints [1; 2], tt) = Ok (2, (Build_VectorImpl bytes [1; 2; 2; 3], tt)).
Proof. eexists. vm_compute. reflexivity. Qed.

(** Merging into an empty vector compares with an item that is not there. *)
Lemma merge_sorted_empty : merge_sorted [2; 3] (Build_VectorImpl None [], tt) = UB.
Proof. reflexivity. Qed.
