(* ===== verification/VectorSort.v ===== *)
(** * Sorting and resizing vectors (core/libutils/VectorImpl.cpp)

    The insertion sort of [VectorImpl] sorts, keeps the items, and keeps the order
    of items that compare equal; the other operations on plain vectors. *)

From S2P Require Import Prelude SortedVector.

#[local] Open Scope Z_scope.
#[local] Open Scope c_scope.

(** The comparison function orders the items: a total preorder. *)
Class CmpLaws {T : Type} (cmp : T -> T -> Z) : Prop := {
  cmp_total x y : 0 < cmp x y -> cmp y x <= 0;
  cmp_trans x y z : cmp x y <= 0 -> cmp y z <= 0 -> cmp x z <= 0
}.

Section Sort.
Context {T : Type} (cmp : T -> T -> Z).

(** ** Insertion from the back *)

(** [x] goes behind the last item that does not compare greater; [r] is the list
    in reverse. *)
Fixpoint place_rev (x : T) (r : list T) : list T :=
  match r with
  | [] => [x]
  | y :: r' => if 0 <? cmp y x then y :: place_rev x r' else x :: r
  end.

Definition place (x : T) (l : list T) : list T := reverse (place_rev x (reverse l)).

Lemma place_greater x l y : 0 < cmp y x -> place x (l ++ [y]) = place x l ++ [y].
Proof.
  intros H. unfold place. rewrite reverse_snoc. simpl. rewrite (proj2 (Z.ltb_lt _ _)) by done. by rewrite reverse_cons.
Qed.

Lemma place_end x l y : cmp y x <= 0 -> place x (l ++ [y]) = l ++ [y; x].
Proof.
  intros H. unfold place. rewrite reverse_snoc. simpl. rewrite (proj2 (Z.ltb_ge _ _)) by done.
  by rewrite !reverse_cons, reverse_involutive, <-app_assoc.
Qed.

(** Where the item goes. *)
Lemma place_position x l : exists l1 l2, l = l1 ++ l2 /\ place x l = l1 ++ x :: l2 /\
  Forall (fun y => 0 < cmp y x) l2 /\ (forall y k, l1 = k ++ [y] -> cmp y x <= 0).
Proof.
  induction l as [|y l IH] using rev_ind.
  - exists [], []. split; [done|]. split; [done|]. split; [constructor|]. by intros y [|].
  - destruct (Z.ltb_spec 0 (cmp y x)) as [Hy|Hy].
    + destruct IH as (l1 & l2 & -> & E & Hf & Hl). exists l1, (l2 ++ [y]).
      rewrite place_greater, E, <-!app_assoc by done. split; [done|]. split; [done|].
      split; [apply Forall_app; by repeat constructor|done].
    + exists (l ++ [y]), []. rewrite place_end, app_nil_r, <-app_assoc by done. split; [done|]. split; [done|].
      split; [constructor|]. intros z k [_ ->]%app_inj_tail. done.
Qed.

(** ** The loops *)

Lemma sort_shift_ok x pre : forall y c post, 0 < cmp c x ->
  sort_shift cmp (length pre) x ((pre ++ [c]) ++ y :: post) = Ok (place x (pre ++ [c]) ++ post).
Proof.
  induction pre as [|d pre IH] using rev_ind; intros y c post Hc.
  - rewrite (place_greater x [] c Hc). done.
  - rewrite (place_greater x _ c Hc).
    assert (E : ((pre ++ [d]) ++ [c]) ++ y :: post = (pre ++ [d]) ++ c :: y :: post) by (by rewrite <-app_assoc).
    rewrite E. destruct (length (pre ++ [d])) as [|j] eqn:Hj; [rewrite length_app in Hj; simpl in Hj; lia|].
    cbn [sort_shift]. rewrite <-Hj, list_lookup_middle by done.
    assert (E2 : <[S (length (pre ++ [d])) := c]> ((pre ++ [d]) ++ c :: y :: post) = (pre ++ [d]) ++ c :: c :: post).
    { rewrite insert_app_r_alt by lia. replace (S _ - _)%nat with 1%nat by lia. done. }
    rewrite E2. rewrite length_app in Hj. simpl in Hj. assert (j = length pre) as -> by lia.
    replace (((pre ++ [d]) ++ c :: c :: post) !! length pre) with (Some d)
      by (symmetry; rewrite <-app_assoc; by apply list_lookup_middle).
    destruct (Z.ltb_spec 0 (cmp d x)) as [Hd|Hd].
    + rewrite IH by done. by rewrite <-app_assoc.
    + rewrite place_end by done. replace (S (length pre)) with (length (pre ++ [d])) by (rewrite length_app; simpl; lia).
      rewrite insert_app_r_alt, Nat.sub_diag by lia. simpl. by rewrite <-!app_assoc.
Qed.

Lemma length_place x l : length (place x l) = S (length l).
Proof. destruct (place_position x l) as (l1 & l2 & -> & -> & _). rewrite !length_app. simpl. lia. Qed.

Context {H : Type} `{ItemType T} `{Plenty H}.

Lemma sort_loop_ok post : forall pre (temp : bool) bytes (h : H), pre <> [] -> exists h',
  sort_loop cmp (length post) (length pre) temp (Build_VectorImpl bytes (pre ++ post), h)
  = Ok (NO_ERROR, (Build_VectorImpl bytes (foldl (fun l x => place x l) pre post), h')).
Proof.
  induction post as [|x post IH]; intros pre temp bytes h Hne.
  { exists h. by rewrite app_nil_r. }
  destruct (exists_last Hne) as (pre' & c & ->). cbn [length sort_loop foldl].
  set (v := Build_VectorImpl bytes ((pre' ++ [c]) ++ x :: post)).
  rewrite (bind_Ok _ _ _ v (v, h)) by done.
  assert (El : length (pre' ++ [c]) = S (length pre')) by (rewrite length_app; simpl; lia).
  replace (mArray v !! (length (pre' ++ [c]) - 1)%nat) with (Some c).
  2: { symmetry. rewrite El. simpl. rewrite Nat.sub_0_r, <-app_assoc. by apply list_lookup_middle. }
  replace (mArray v !! length (pre' ++ [c])) with (Some x) by (symmetry; by apply list_lookup_middle).
  destruct (Z.ltb_spec 0 (cmp c x)) as [Hc|Hc].
  - assert (exists h', (if temp then ret true else on_snd (fun h => Ok (malloc mItemSize h))) (v, h) = Ok (true, (v, h'))) as [h' E].
    { destruct temp; [by exists h|]. pose proof (malloc_granted mItemSize h) as G. unfold on_snd. simpl.
      destruct (malloc mItemSize h) as [b h']. simpl in *. subst. by exists h'. }
    rewrite (bind_Ok _ _ _ _ _ E). cbn [negb].
    rewrite (bind_Ok _ _ _ (place x (pre' ++ [c]) ++ post) (v, h')).
    2: { unfold lift. rewrite El. simpl. rewrite Nat.sub_0_r, sort_shift_ok by done. done. }
    rewrite (bind_Ok _ _ _ tt (Build_VectorImpl bytes (place x (pre' ++ [c]) ++ post), h')) by done.
    rewrite <-(length_place x (pre' ++ [c])). apply IH. intros E0%(f_equal length). by rewrite length_place in E0.
  - rewrite place_end by done. unfold v. replace ((pre' ++ [c]) ++ x :: post) with ((pre' ++ [c; x]) ++ post) by (by rewrite <-!app_assoc).
    replace (S (length (pre' ++ [c]))) with (length (pre' ++ [c; x])) by (rewrite !length_app; simpl; lia).
    apply IH. by destruct pre'.
Qed.

Lemma sort_insertion (v : VectorImpl T) (h : H) : exists h',
  sort cmp (v, h) = Ok (NO_ERROR, (Build_VectorImpl (mStorage v) (foldl (fun l x => place x l) [] (mArray v)), h')).
Proof.
  destruct v as [bytes items]. unfold sort. rewrite (bind_Ok _ _ _ (Build_VectorImpl bytes items) (Build_VectorImpl bytes items, h)) by done.
  unfold size. simpl. destruct items as [|x [|y items]]; [by exists h..|].
  destruct (Z.ltb_spec 1 (Z.of_nat (length (x :: y :: items)))); [|simpl in *; lia].
  cbn [length]. rewrite Nat.sub_succ, Nat.sub_0_r. apply (sort_loop_ok (y :: items) [x] false bytes h). done.
Qed.

End Sort.

(** ** Theorems *)

Section Stable.
Context {T H : Type} `{ItemType T} `{Plenty H} (cmp : T -> T -> Z) `{!CmpLaws cmp}.

(** In order: no item compares greater than a later one. *)
Definition in_order (l : list T) : Prop := StronglySorted (fun x y => cmp x y <= 0) l.

(** The items that compare equal to [z]. *)
Definition equals (z : T) (l : list T) : list T := base.filter (fun y => cmp y z <= 0 /\ cmp z y <= 0) l.

Lemma in_order_place x l : in_order l -> in_order (place cmp x l).
Proof.
  intros Hs. destruct (place_position cmp x l) as (l1 & l2 & -> & -> & Hf & Hl).
  apply StronglySorted_app in Hs as (Hs12 & Hs1 & Hs2).
  assert (Hb1 : forall y, y ∈ l1 -> cmp y x <= 0).
  { destruct l1 as [|z k _] using rev_ind; [by intros y Hy%elem_of_nil|].
    intros y [Hy| ->%list_elem_of_singleton]%elem_of_app; [|by eapply Hl].
    eapply cmp_trans; [|by eapply Hl]. apply StronglySorted_app in Hs1 as (Hz & _). apply Hz; [done|by constructor]. }
  assert (Ha2 : Forall (fun y => cmp x y <= 0) l2) by (eapply Forall_impl; [exact Hf|]; intros y; apply cmp_total).
  apply StronglySorted_app. split; [|split; [done|by constructor]].
  intros y z Hy [->|Hz]%elem_of_cons; [by apply Hb1|by apply Hs12].
Qed.

Lemma place_permutation x l : place cmp x l ≡ₚ x :: l.
Proof. destruct (place_position cmp x l) as (l1 & l2 & -> & -> & _). by rewrite Permutation_middle. Qed.

Lemma equals_place z x l : equals z (place cmp x l) = equals z (l ++ [x]).
Proof.
  destruct (place_position cmp x l) as (l1 & l2 & -> & -> & Hf & _). unfold equals.
  rewrite <-app_assoc, !filter_app. f_equal. rewrite filter_cons. change (base.filter ?P [x]) with (base.filter P ([x] ++ [])).
  simpl. rewrite filter_cons. case_decide as Hx; [|by rewrite filter_nil, app_nil_r].
  assert (base.filter (fun y => cmp y z <= 0 /\ cmp z y <= 0) l2 = []) as ->; [|done].
  induction Hf as [|y l2 Hy _ IH]; [done|]. rewrite filter_cons. case_decide as Hyz; [|done].
  destruct Hx as [Hx1 Hx2], Hyz as [Hy1 Hy2]. pose proof (cmp_trans _ _ _ Hy1 Hx2). lia.
Qed.

Lemma insertion_sorts l : forall k, in_order k ->
  let r := foldl (fun l x => place cmp x l) k l in
  in_order r /\ r ≡ₚ k ++ l /\ forall z, equals z r = equals z (k ++ l).
Proof.
  induction l as [|x l IH]; intros k Hk; simpl.
  { rewrite app_nil_r. done. }
  destruct (IH _ (in_order_place x k Hk)) as (Hs & Hp & He). split; [done|]. split.
  - rewrite Hp, place_permutation. by rewrite (Permutation_middle k l x).
  - intros z. rewrite He. unfold equals. rewrite !filter_app. fold (equals z (place cmp x k)). rewrite equals_place.
    unfold equals. rewrite filter_app, <-app_assoc. f_equal. by rewrite <-filter_app.
Qed.

(** C30: [sort] ends, puts the items in order, keeps all of them, and keeps those that
    compare equal in the order they had. *)
Theorem vector_sort_stable (v : VectorImpl T) (h : H) : exists h' items,
  sort cmp (v, h) = Ok (NO_ERROR, (Build_VectorImpl (mStorage v) items, h')) /\
  in_order items /\ items ≡ₚ mArray v /\ forall z, equals z items = equals z (mArray v).
Proof.
  destruct (sort_insertion cmp v h) as [h' E]. exists h'. eexists. split; [exact E|].
  apply (insertion_sorts (mArray v) []). constructor.
Qed.

End Stable.

Section Plain.
Context {T H : Type} `{ItemLaws T} `{Plenty H}.
Notation vec := (VectorImpl T).

Lemma push_ok (v : vec) (h : H) item : vec_ok v -> size v < 2 ^ 44 -> leaves (push item) v h tt (mArray v ++ [item]).
Proof.
  intros Hv Hb. pose proof (size_nonneg v).
  destruct (insertAt_ok v h item (size v) Hv ltac:(lia) Hb) as (bytes & h' & E & Hok).
  unfold size in E, Hok. rewrite Nat2Z.id, take_ge, drop_ge in E, Hok by lia. exists bytes, h'. split; [|done].
  unfold push. rewrite (bind_Ok _ _ _ v (v, h)) by done. by rewrite (bind_Ok _ _ _ _ _ E).
Qed.

Lemma pop_ok (v : vec) (h : H) : vec_ok v -> size v < 2 ^ 63 -> leaves pop v h tt (take (length (mArray v) - 1) (mArray v)).
Proof.
  intros Hv Hb. pose proof (size_nonneg v). unfold leaves, pop. rewrite (bind_Ok _ _ _ v (v, h)) by done.
  destruct (Z.eqb_spec (size v) 0) as [E|].
  - exists (mStorage v), h. assert (mArray v = []) as E0 by (apply length_zero_iff_nil; unfold size in E; lia).
    destruct v as [st arr]. simpl in *. by subst.
  - destruct (removeItemsAt_ok v h (size v - 1) Hv ltac:(lia) Hb) as (bytes & h' & E & Hok).
    rewrite (bind_Ok _ _ _ _ _ E). exists bytes, h'.
    assert (Ed : delete (Z.to_nat (size v - 1)) (mArray v) = take (length (mArray v) - 1) (mArray v)).
    { rewrite delete_take_drop. unfold size in *. rewrite drop_ge, app_nil_r by lia. f_equal. lia. }
    by rewrite Ed in Hok |- *.
Qed.

Lemma setCapacity_ok (v : vec) (h : H) n : vec_ok v -> n < 2 ^ 44 ->
  leaves (setCapacity n) v h (if n <=? size v then capacity v else n) (mArray v).
Proof.
  intros Hv Hn. pose proof (size_nonneg v). pose proof (item_size_range (T := T)) as Hi.
  unfold leaves, setCapacity. rewrite (bind_Ok _ _ _ v (v, h)) by done. destruct (Z.leb_spec n (size v)).
  - exists (mStorage v), h. by destruct v.
  - assert (Hr : 0 <= n * mItemSize (T := T) <= 2 ^ 60) by nia. rewrite bind_safe by lia.
    destruct (alloc_granted (n * mItemSize (T := T)) h) as [h' E]; [lia|].
    rewrite (bind_Ok _ _ _ _ _ (on_snd_ok _ v _ _ _ E)). exists (Some (n * mItemSize)), h'. split; [done|].
    unfold vec_ok, size in *. simpl. split; [rewrite Z.div_mul by lia; lia|lia].
Qed.

Lemma resize_ok (v : vec) (h : H) fresh n : vec_ok v -> 0 <= n <= 2 ^ 44 -> size v <= 2 ^ 44 ->
  leaves (resize fresh n) v h n (take (Z.to_nat n) (mArray v) ++ replicate (Z.to_nat n - length (mArray v)) fresh).
Proof.
  intros Hv Hn Hb. pose proof (size_nonneg v). unfold leaves, resize. rewrite (bind_Ok _ _ _ v (v, h)) by done.
  assert (Hret : (n <? 0) = false) by (apply Z.ltb_ge; lia).
  destruct (Z.ltb_spec (size v) n) as [Hg|Hg]; [|destruct (Z.ltb_spec n (size v)) as [Hl|Hl]].
  - set (fill := replicate (Z.to_nat (n - size v)) fresh).
    assert (Lf : length fill = Z.to_nat (n - size v)) by apply length_replicate.
    destruct (grow_ok v h (size v) fill Hv) as (bytes & h' & E & Hok);
      [lia|intros E0; rewrite E0 in Lf; simpl in Lf; lia|lia|].
    assert (Ei : take (Z.to_nat (size v)) (mArray v) ++ fill ++ drop (Z.to_nat (size v)) (mArray v)
      = take (Z.to_nat n) (mArray v) ++ replicate (Z.to_nat n - length (mArray v)) fresh).
    { unfold fill, size in *. rewrite drop_ge, !take_ge, app_nil_r by lia. do 2 f_equal. lia. }
    rewrite Ei in E, Hok. exists bytes, h'. split; [|done].
    rewrite (bind_Ok _ _ _ (size v) (Build_VectorImpl bytes (take (Z.to_nat n) (mArray v) ++ replicate (Z.to_nat n - length (mArray v)) fresh), h')).
    + by destruct (Z.ltb_spec (size v) 0); [lia|].
    + unfold insertAt. rewrite (bind_Ok _ _ _ v (v, h)) by done. rewrite (proj2 (Z.ltb_ge _ _)) by lia.
      fold fill. by rewrite (bind_Ok _ _ _ _ _ E).
  - destruct (shrink_ok v h n (size v - n) Hv) as (bytes & h' & E & Hok); [lia..|].
    assert (Ei : take (Z.to_nat n) (mArray v) ++ drop (Z.to_nat (n + (size v - n))) (mArray v)
      = take (Z.to_nat n) (mArray v) ++ replicate (Z.to_nat n - length (mArray v)) fresh).
    { unfold size in *. rewrite drop_ge by lia. replace (Z.to_nat n - length (mArray v))%nat with 0%nat by lia. done. }
    rewrite Ei in E, Hok. exists bytes, h'. split; [|done].
    rewrite (bind_Ok _ _ _ n (Build_VectorImpl bytes (take (Z.to_nat n) (mArray v) ++ replicate (Z.to_nat n - length (mArray v)) fresh), h')).
    + by rewrite Hret.
    + unfold removeItemsAt. rewrite (bind_Ok _ _ _ v (v, h)) by done. rewrite u64_small by lia.
      rewrite (proj2 (Z.ltb_ge _ _)) by lia. by rewrite (bind_Ok _ _ _ _ _ E).
  - exists (mStorage v), h. assert (n = size v) as -> by lia. unfold size. rewrite Nat2Z.id, take_ge, Nat.sub_diag by lia.
    simpl. rewrite app_nil_r. by destruct v.
Qed.

End Plain.

(** Pairs, compared by their first half only. *)
Definition cmp_fst (x y : Z * Z) : Z := x.1 - y.1.

#[export] Instance cmp_fst_laws : CmpLaws cmp_fst.
Proof. split; unfold cmp_fst; intros; lia. Qed.

#[export] Instance pair_item : ItemType (Z * Z) := { mItemSize := 16; trivial_copy_dtor := true; item_lt x y := x.1 <? y.1 }.

Lemma vector_sort_stable_witness : exists h' items,
  sort cmp_fst (Build_VectorImpl (Some 64) [(2, 1); (1, 1); (2, 2); (1, 2)], tt)
  = Ok (NO_ERROR, (Build_VectorImpl (Some 64) items, h')) /\ in_order cmp_fst items.
Proof.
  destruct (vector_sort_stable cmp_fst (Build_VectorImpl (Some 64) [(2, 1); (1, 1); (2, 2); (1, 2)]) tt)
    as (h' & items & E & Hs & _).
  exists h', items. split; [exact E|exact Hs].
Defined.
