(* ===== verification/BlobCache.v ===== *)
(** * The blob cache (core/libutils/BlobCache.cpp)

    A size-bounded cache of byte strings by byte strings, over a sorted vector,
    that evicts entries at random when it is full and is saved to and loaded from
    a buffer.  Structures have the layout of a 64-bit platform.  The value of the
    property ro.build.id is the class [Build]; the heap is the class [Malloc] of
    the vectors. *)

From S2P Require Import Prelude SortedVector.

#[local] Open Scope Z_scope.
#[local] Open Scope c_scope.

Definition OK : Z := 0.
Definition PROPERTY_VALUE_MAX : Z := 92.

(** [property_get] of ro.build.id: the characters it stores, without the NUL. *)
Class Build : Type := build_id : list byte.

(** ['_' << 24 + 'B' << 16 + 'b' << 8 + '$']. *)
Definition blobCacheMagic : Z := Z.shiftl 0x5f 24 + Z.shiftl 0x42 16 + Z.shiftl 0x62 8 + 0x24.
Definition blobCacheVersion : Z := 3.
Definition blobCacheDeviceVersion : Z := 1.

(** [sizeof(Header)] and the offset of [mBuildId] in it, and [sizeof(EntryHeader)]. *)
Definition Header_SIZE : Z := 32.
Definition mBuildId : Z := 28.
Definition EntryHeader_SIZE : Z := 16.

(** A [Blob] is its bytes.  [memcmp] compares bytes as unsigned. *)
Fixpoint memcmp_lt (a b : list byte) : bool :=
  match a, b with
  | x :: a, y :: b =>
    if byte.unsigned x <? byte.unsigned y then true
    else if byte.unsigned y <? byte.unsigned x then false
    else memcmp_lt a b
  | _, _ => false
  end.

Definition getSize (b : list byte) : Z := Z.of_nat (length b).

Definition Blob_lt (a b : list byte) : bool :=
  if getSize a =? getSize b then memcmp_lt a b else getSize a <? getSize b.

(** [mValue] is null in the entries that are only searched for. *)
Record CacheEntry : Type := { mKey : list byte; mValue : option (list byte) }.

#[export] Instance CacheEntry_item : ItemType CacheEntry := {
  mItemSize := 16;
  trivial_copy_dtor := false;
  item_lt e1 e2 := Blob_lt (mKey e1) (mKey e2)
}.

Definition getValue (e : CacheEntry) : outcome (list byte) :=
  match mValue e with Some b => Ok b | None => UB end.

Record BlobCache : Type := {
  mMaxKeySize : Z;
  mMaxValueSize : Z;
  mMaxTotalSize : Z;
  mTotalSize : Z;
  mRandState : Z * Z * Z;
  mCacheEntries : VectorImpl CacheEntry
}.

(** The constructor, at the time [now]. *)
Definition BlobCache_new (maxKeySize maxValueSize maxTotalSize now : Z) : BlobCache := {|
  mMaxKeySize := maxKeySize;
  mMaxValueSize := maxValueSize;
  mMaxTotalSize := maxTotalSize;
  mTotalSize := 0;
  mRandState :=
    (Z.land (Z.shiftr now 0) 0xffff, Z.land (Z.shiftr now 16) 0xffff, Z.land (Z.shiftr now 32) 0xffff);
  mCacheEntries := Build_VectorImpl None []
|}.

(** POSIX's [nrand48]: a linear congruential generator of 48 bits, of which it
    returns the upper 31. *)
Definition nrand48 (xsubi : Z * Z * Z) : Z * (Z * Z * Z) :=
  let '(x0, x1, x2) := xsubi in
  let x := (0x5deece66d * (x2 * 2 ^ 32 + x1 * 2 ^ 16 + x0) + 0xb) mod 2 ^ 48 in
  (x / 2 ^ 17, (x mod 2 ^ 16, x / 2 ^ 16 mod 2 ^ 16, x / 2 ^ 32)).

(** A pointer into memory, and the [n] bytes at it. *)
Definition ptr : Type := list byte * Z.
Definition bytes_at (p : ptr) (n : Z) : outcome (list byte) := mem_read (drop (Z.to_nat p.2) p.1) n.

Definition align4 (size : Z) : Z := Z.land (u64 (size + 3)) (2 ^ 64 - 4).

(** Whether [strncmp] finds the string [a], all of its length, different at [b];
    it stops at the first difference. *)
Fixpoint strncmp_differs (a b : list byte) : outcome bool :=
  match a, b with
  | [], _ => Ok false
  | x :: a, y :: b =>
    if negb (byte.unsigned x =? byte.unsigned y) then Ok true
    else if byte.unsigned x =? 0 then Ok false
    else strncmp_differs a b
  | _ :: _, [] => UB
  end.

Section Cache.
Context {H : Type} `{Malloc H} `{Build}.
Notation MC := (M (BlobCache * H)).

Definition set_cache (total : Z) (entries : VectorImpl CacheEntry) (c : BlobCache) : BlobCache :=
  {| mMaxKeySize := mMaxKeySize c; mMaxValueSize := mMaxValueSize c; mMaxTotalSize := mMaxTotalSize c;
     mTotalSize := total; mRandState := mRandState c; mCacheEntries := entries |}.

(** An operation of [mCacheEntries]. *)
Definition entries_do {A} (m : M (VectorImpl CacheEntry * H) A) : MC A := fun s =>
  do! (a, (v, h)) := m (mCacheEntries s.1, s.2) in
  Ok (a, (set_cache (mTotalSize s.1) v s.1, h)).

Definition set_total (total : Z) : MC unit := fun s => Ok (tt, (set_cache total (mCacheEntries s.1) s.1, s.2)).

(** A [Blob] with a copy of the data; [malloc] is not checked. *)
Definition Blob_copy (data : list byte) : MC (list byte) := fun s =>
  let '(ok, h) := malloc (getSize data) s.2 in
  if (ok : bool) then Ok (data, (s.1, h)) else UB.

Definition blob_random : MC Z := fun s =>
  let '(r, st) := nrand48 (mRandState s.1) in
  let c := s.1 in
  Ok (r, ({| mMaxKeySize := mMaxKeySize c; mMaxValueSize := mMaxValueSize c; mMaxTotalSize := mMaxTotalSize c;
             mTotalSize := mTotalSize c; mRandState := st; mCacheEntries := mCacheEntries c |}, s.2)).

Definition isCleanable (c : BlobCache) : bool := mMaxTotalSize c / 2 <? mTotalSize c.

Definition item_at (c : BlobCache) (i : Z) : outcome CacheEntry :=
  match mArray (mCacheEntries c) !! Z.to_nat i with Some e => Ok e | None => UB end.

(** [editItemAt(index).setValue(value)]. *)
Definition edit_value (index : Z) (value : list byte) : M (VectorImpl CacheEntry * H) unit :=
  let! v := gets fst in
  match mArray v !! Z.to_nat index with
  | Some e => set_vector (mStorage v) (<[Z.to_nat index := {| mKey := mKey e; mValue := Some value |}]> (mArray v))
  | None => undef
  end.

(** Each round removes an entry, so that their number bounds the rounds. *)
Fixpoint clean_loop (fuel : nat) : MC unit :=
  let! c := gets fst in
  if mMaxTotalSize c / 2 <? mTotalSize c then
    match fuel with
    | O => no_fuel
    | S fuel =>
      let! r := blob_random in
      divisor (size (mCacheEntries c)) ;;!
      let i := r mod size (mCacheEntries c) in
      let! entry := lift (item_at c i) in
      let! value := lift (getValue entry) in
      set_total (u64 (mTotalSize c - u64 (getSize (mKey entry) + getSize value))) ;;!
      entries_do (removeItemsAt i 1) ;;!
      clean_loop fuel
    end
  else ret tt.

Definition clean : MC unit := let! c := gets fst in clean_loop (S (length (mArray (mCacheEntries c)))).

(** The loop of [set]; a cleaned cache is not cleaned again. *)
Fixpoint set_loop (fuel : nat) (key value : list byte) : MC unit :=
  match fuel with
  | O => no_fuel
  | S fuel =>
    let! c := gets fst in
    let! index := lift (indexOf (mCacheEntries c) {| mKey := key; mValue := None |}) in
    if index <? 0 then
      let! keyBlob := Blob_copy key in
      let! valueBlob := Blob_copy value in
      let newTotalSize := u64 (mTotalSize c + getSize key + getSize value) in
      if mMaxTotalSize c <? newTotalSize then
        if isCleanable c then clean ;;! set_loop fuel key value else ret tt
      else
        entries_do (sorted_add {| mKey := keyBlob; mValue := Some valueBlob |}) ;;!
        set_total newTotalSize
    else
      let! valueBlob := Blob_copy value in
      let! entry := lift (item_at c index) in
      let! oldValueBlob := lift (getValue entry) in
      let newTotalSize := u64 (mTotalSize c + getSize value - getSize oldValueBlob) in
      if mMaxTotalSize c <? newTotalSize then
        if isCleanable c then clean ;;! set_loop fuel key value else ret tt
      else
        entries_do (edit_value index valueBlob) ;;!
        set_total newTotalSize
  end.

Definition set (key : ptr) (keySize : Z) (value : ptr) (valueSize : Z) : MC unit :=
  let! c := gets fst in
  if mMaxKeySize c <? keySize then ret tt
  else if mMaxValueSize c <? valueSize then ret tt
  else if mMaxTotalSize c <? u64 (keySize + valueSize) then ret tt
  else if keySize =? 0 then ret tt
  else if valueSize <=? 0 then ret tt
  else
    let! k := lift (bytes_at key keySize) in
    let! v := lift (bytes_at value valueSize) in
    set_loop 2 k v.

(** [value] is the memory of the caller's buffer, none for a null pointer; it is
    returned as [get] leaves it. *)
Definition get (key : ptr) (keySize : Z) (value : option (list byte)) (valueSize : Z) : MC (Z * option (list byte)) :=
  let! c := gets fst in
  if mMaxKeySize c <? keySize then ret (0, value)
  else
    let! k := lift (bytes_at key keySize) in
    let! index := lift (indexOf (mCacheEntries c) {| mKey := k; mValue := None |}) in
    if index <? 0 then ret (0, value)
    else
      let! entry := lift (item_at c index) in
      let! valueBlob := lift (getValue entry) in
      if getSize valueBlob <=? valueSize then
        match value with
        | None => undef
        | Some mem =>
          let! mem := lift (mem_write mem 0 valueBlob) in
          ret (getSize valueBlob, Some mem)
        end
      else ret (getSize valueBlob, value).

Fixpoint flattened_entries (entries : list CacheEntry) (size : Z) : outcome Z :=
  match entries with
  | [] => Ok size
  | e :: entries =>
    do! valueBlob := getValue e in
    flattened_entries entries
      (u64 (size + align4 (u64 (EntryHeader_SIZE + getSize (mKey e) + getSize valueBlob))))
  end.

Definition getFlattenedSize (c : BlobCache) : outcome Z :=
  flattened_entries (mArray (mCacheEntries c)) (align4 (u64 (Header_SIZE + PROPERTY_VALUE_MAX))).

(** The entries from [byteOffset] on; the result comes with the buffer. *)
Fixpoint flatten_loop (entries : list CacheEntry) (buffer : list byte) (size byteOffset : Z)
  : outcome (Z * list byte) :=
  match entries with
  | [] => Ok (OK, buffer)
  | e :: entries =>
    do! valueBlob := getValue e in
    let keySize := getSize (mKey e) in
    let valueSize := getSize valueBlob in
    let entrySize := u64 (EntryHeader_SIZE + keySize + valueSize) in
    let totalSize := align4 entrySize in
    if size <? u64 (byteOffset + totalSize) then Ok (BAD_VALUE, buffer)
    else
      let mData := byteOffset + EntryHeader_SIZE in
      do! buffer := mem_write buffer byteOffset (le 8 keySize ++ le 8 valueSize) in
      do! buffer := mem_write buffer mData (mKey e) in
      do! buffer := mem_write buffer (mData + keySize) valueBlob in
      do! buffer :=
        (if entrySize <? totalSize then
           mem_write buffer (mData + keySize + valueSize)
             (replicate (Z.to_nat (totalSize - entrySize)) (byte.of_Z 0))
         else Ok buffer) in
      flatten_loop entries buffer size (i64 (u64 (byteOffset + totalSize)))
  end.

Definition flatten (c : BlobCache) (buffer : list byte) (size : Z) : outcome (Z * list byte) :=
  if size <? Header_SIZE then Ok (BAD_VALUE, buffer)
  else
    let mBuildIdLength := getSize build_id in
    do! buffer :=
      mem_write buffer 0 (le 4 blobCacheMagic ++ le 4 blobCacheVersion ++ le 4 blobCacheDeviceVersion) in
    do! buffer := mem_write buffer 16 (le 8 (SortedVector.size (mCacheEntries c))) in
    do! buffer := mem_write buffer 24 (le 4 mBuildIdLength) in
    do! buffer := mem_write buffer mBuildId build_id in
    flatten_loop (mArray (mCacheEntries c)) buffer size (align4 (u64 (Header_SIZE + mBuildIdLength))).

(** The loop of [unflatten], with [n] entries left. *)
Fixpoint unflatten_loop (n : nat) (buffer : list byte) (size byteOffset : Z) : MC Z :=
  match n with
  | O => ret OK
  | S n =>
    if size <? u64 (byteOffset + EntryHeader_SIZE) then entries_do clear ;;! ret BAD_VALUE
    else
      let! eheader := lift (bytes_at (buffer, byteOffset) EntryHeader_SIZE) in
      let keySize := field eheader 0 8 in
      let valueSize := field eheader 8 8 in
      let entrySize := u64 (EntryHeader_SIZE + keySize + valueSize) in
      let totalSize := align4 entrySize in
      if size <? u64 (byteOffset + totalSize) then entries_do clear ;;! ret BAD_VALUE
      else
        let data := byteOffset + EntryHeader_SIZE in
        set (buffer, data) keySize (buffer, data + keySize) valueSize ;;!
        unflatten_loop n buffer size (i64 (u64 (byteOffset + totalSize)))
  end.

Definition unflatten (buffer : list byte) (size : Z) : MC Z :=
  entries_do clear ;;!
  if size <? Header_SIZE then ret BAD_VALUE
  else
    let! header := lift (mem_read buffer Header_SIZE) in
    if negb (field header 0 4 =? blobCacheMagic) then ret BAD_VALUE
    else
      let len := getSize build_id in
      let! other :=
        (if negb (field header 4 4 =? blobCacheVersion) || negb (field header 8 4 =? blobCacheDeviceVersion)
            || negb (len =? i32 (field header 24 4))
         then ret true
         else lift (strncmp_differs build_id (drop (Z.to_nat mBuildId) buffer))) in
      if (other : bool) then ret OK
      else unflatten_loop (Z.to_nat (field header 16 8)) buffer size (align4 (u64 (Header_SIZE + len))).

End Cache.
