(* ===== verification/BlobCacheProps.v ===== *)
(** * The blob cache keeps its promises (core/libutils/BlobCache.cpp)

    The order of the keys, the invariant of the cache, eviction, [set] and [get]
    on caches that satisfy it. *)

From S2P Require Import Prelude Words SortedVector BlobCache.

#[local] Open Scope Z_scope.
#[local] Open Scope c_scope.

(** ** The order of blobs *)

Lemma memcmp_be_val a : forall b, length a = length b -> memcmp_lt a b = (be_val a <? be_val b).
Proof.
  induction a as [|x a IH]; intros [|y b] Hl; try done. injection Hl as Hl.
  simpl. rewrite !be_val_cons, IH by done. rewrite <-Hl.
  pose proof (be_val_range a) as Ha. pose proof (be_val_range b) as Hb. rewrite <-Hl in Hb.
  set (p := 2 ^ (8 * Z.of_nat (length a))) in *.
  destruct (Z.ltb_spec (byte.unsigned x) (byte.unsigned y)); [symmetry; apply Z.ltb_lt; nia|].
  destruct (Z.ltb_spec (byte.unsigned y) (byte.unsigned x)); [symmetry; apply Z.ltb_ge; nia|].
  replace (byte.unsigned y) with (byte.unsigned x) by lia.
  apply eq_true_iff_eq. rewrite !Z.ltb_lt. lia.
Qed.

(** Shorter blobs come first, blobs of one length in the order of their bytes. *)
Lemma Blob_lt_val a b : Blob_lt a b = true <->
  getSize a < getSize b \/ (getSize a = getSize b /\ be_val a < be_val b).
Proof.
  unfold Blob_lt. destruct (Z.eqb_spec (getSize a) (getSize b)) as [E|].
  - rewrite memcmp_be_val, Z.ltb_lt by (unfold getSize in E; lia). lia.
  - rewrite Z.ltb_lt. lia.
Qed.

Lemma same_key (e1 e2 : CacheEntry) : same e1 e2 = true <-> mKey e1 = mKey e2.
Proof.
  unfold same. simpl. rewrite andb_true_iff, !negb_true_iff, <-!not_true_iff_false, !Blob_lt_val. split.
  - intros [H1 H2]. apply be_val_inj; unfold getSize in *; lia.
  - intros ->. lia.
Qed.

#[export] Instance CacheEntry_laws : ItemLaws CacheEntry.
Proof.
  split; simpl.
  - lia.
  - intros x. apply not_true_iff_false. rewrite Blob_lt_val. lia.
  - intros x y z. rewrite !Blob_lt_val. lia.
  - intros x y z. rewrite !Blob_lt_val. lia.
Qed.

(** ** The invariant *)

Definition entry_size (e : CacheEntry) : Z := getSize (mKey e) + getSize (default [] (mValue e)).

Definition total_of (l : list CacheEntry) : Z := foldr (fun e n => entry_size e + n) 0 l.

(** The entry holds a value, and both strings are within the limits. *)
Definition blob_entry_ok (c : BlobCache) (e : CacheEntry) : Prop :=
  exists v, mValue e = Some v /\ 0 < getSize (mKey e) <= mMaxKeySize c /\ 0 < getSize v <= mMaxValueSize c.

Record limits_ok (c : BlobCache) : Prop := {
  lim_key : mMaxKeySize c <= 2 ^ 61;
  lim_value : mMaxValueSize c <= 2 ^ 61;
  lim_total : 0 <= mMaxTotalSize c <= 2 ^ 44
}.

Definition same_limits (c c' : BlobCache) : Prop :=
  mMaxKeySize c' = mMaxKeySize c /\ mMaxValueSize c' = mMaxValueSize c /\ mMaxTotalSize c' = mMaxTotalSize c.

Notation entries c := (mArray (mCacheEntries c)).

Record cache_ok (c : BlobCache) : Prop := {
  ok_limits : limits_ok c;
  ok_vec : vec_ok (mCacheEntries c);
  ok_sorted : increasing (entries c);
  ok_entries : Forall (blob_entry_ok c) (entries c);
  ok_total : mTotalSize c = total_of (entries c);
  ok_max : mTotalSize c <= mMaxTotalSize c
}.

(** The pair is in the cache. *)
Definition stored (c : BlobCache) (k v : list byte) : Prop := {| mKey := k; mValue := Some v |} ∈ entries c.

Lemma entry_size_pos c e : blob_entry_ok c e -> 2 <= entry_size e.
Proof. intros (v & E & H1 & H2). unfold entry_size. rewrite E. simpl. lia. Qed.

Lemma total_of_app l k : total_of (l ++ k) = total_of l + total_of k.
Proof. induction l as [|e l IH]; simpl; [done|]. rewrite IH. lia. Qed.

Lemma total_of_lookup l i e : l !! i = Some e -> total_of l = entry_size e + total_of (delete i l).
Proof.
  intros E. rewrite <-(take_drop_middle l i e E) at 1. rewrite delete_take_drop, !total_of_app. simpl. lia.
Qed.

Lemma total_of_count c l : Forall (blob_entry_ok c) l -> 2 * Z.of_nat (length l) <= total_of l.
Proof. induction 1 as [|e l He%entry_size_pos _ IH]; simpl in *; lia. Qed.

Lemma entry_ok_limits c c' e : same_limits c c' -> blob_entry_ok c e -> blob_entry_ok c' e.
Proof. intros (E1 & E2 & _). unfold blob_entry_ok. by rewrite E1, E2. Qed.

Lemma limits_ok_same c c' : same_limits c c' -> limits_ok c -> limits_ok c'.
Proof. intros (E1 & E2 & E3) [? ? ?]. split; rewrite ?E1, ?E2, ?E3; done. Qed.

Lemma cache_count c : cache_ok c -> size (mCacheEntries c) < 2 ^ 44 /\ 0 <= mTotalSize c <= 2 ^ 44.
Proof.
  intros [[_ _ Hl] _ _ He Ht Hm]. pose proof (total_of_count c _ He). unfold size. lia.
Qed.

Lemma increasing_sublist {T} `{ItemType T} (l k : list T) : sublist l k -> increasing k -> increasing l.
Proof.
  unfold increasing. induction 1 as [|x l k Hs IH|x l k Hs IH]; [done| |].
  - intros [Hk Hf]%StronglySorted_inv. constructor; [auto|].
    rewrite Forall_forall in *. intros y Hy. apply Hf. by eapply elem_of_sublist.
  - intros [Hk _]%StronglySorted_inv. auto.
Qed.

(** A key has one value. *)
Lemma stored_inj c k v v' : cache_ok c -> stored c k v -> stored c k v' -> v = v'.
Proof.
  intros Hc [i Hi]%list_elem_of_lookup [j Hj]%list_elem_of_lookup. pose proof (ok_sorted c Hc) as Hs.
  assert (N : item_lt {| mKey := k; mValue := Some v |} {| mKey := k; mValue := Some v' |} <> true /\
    item_lt {| mKey := k; mValue := Some v' |} {| mKey := k; mValue := Some v |} <> true).
  { simpl. rewrite Blob_lt_val. lia. }
  destruct (decide (i < j)%nat); [by destruct N as [[] _]; eapply increasing_lookup|].
  destruct (decide (j < i)%nat); [by destruct N as [_ []]; eapply increasing_lookup|].
  replace j with i in Hj by lia. congruence.
Qed.

Lemma stored_sublist c c' k v : sublist (entries c') (entries c) -> stored c' k v -> stored c k v.
Proof. intros Hs Hk. by eapply elem_of_sublist. Qed.

Section Operations.
Context {H : Type} `{Plenty H} `{Build}.
Notation MC := (M (BlobCache * H)).

(** ** Eviction *)

Lemma entries_do_ok {A} (m : M (VectorImpl CacheEntry * H) A) (c : BlobCache) (h : H) a items :
  leaves m (mCacheEntries c) h a items -> exists bytes h',
    entries_do m (c, h) = Ok (a, (set_cache (mTotalSize c) (Build_VectorImpl bytes items) c, h')) /\
    vec_ok (Build_VectorImpl bytes items).
Proof.
  intros (bytes & h' & E & Hv). exists bytes, h'. split; [|done]. unfold entries_do. simpl. by rewrite E.
Qed.

(** The cache without its [i]-th entry. *)
Lemma removed_ok (c c' : BlobCache) i e : cache_ok c -> entries c !! i = Some e -> same_limits c c' ->
  vec_ok (mCacheEntries c') -> entries c' = delete i (entries c) -> mTotalSize c' = mTotalSize c - entry_size e ->
  cache_ok c' /\ sublist (entries c') (entries c) /\ length (entries c') = pred (length (entries c)).
Proof.
  intros Hc Hi Hl Hv He Ht. pose proof Hc as [Hlim _ Hs Hall Htot Hmax].
  assert (Hsub : sublist (entries c') (entries c)) by (rewrite He; apply sublist_delete).
  assert (Hei : blob_entry_ok c e) by (eapply Forall_lookup_1; eauto). pose proof (entry_size_pos c e Hei).
  split; [|split; [done|]].
  - split; [by eapply limits_ok_same|done|by eapply increasing_sublist| | |].
    + rewrite Forall_forall in *. intros x Hx. eapply entry_ok_limits; [done|]. apply Hall. by eapply elem_of_sublist.
    + rewrite Ht, Htot, He. rewrite (total_of_lookup _ i e Hi). lia.
    + destruct Hl as (_ & _ & ->). lia.
  - rewrite He, length_delete by by eexists. pose proof (lookup_lt_Some _ _ _ Hi). lia.
Qed.

Lemma clean_round (c : BlobCache) (h : H) : cache_ok c -> mMaxTotalSize c / 2 < mTotalSize c ->
  exists c' h', cache_ok c' /\ same_limits c c' /\ sublist (entries c') (entries c) /\
    length (entries c') = pred (length (entries c)) /\ (0 < length (entries c))%nat /\
    forall fuel, clean_loop (S fuel) (c, h) = clean_loop fuel (c', h').
Proof.
  intros Hc Hb. pose proof (cache_count c Hc) as [Hn Ht]. pose proof Hc as [Hlim Hv _ Hall Htot _].
  pose proof (Z.div_pos (mMaxTotalSize c) 2 (proj1 (lim_total c Hlim)) ltac:(lia)).
  assert (Hpos : 0 < size (mCacheEntries c)).
  { unfold size. destruct (entries c) eqn:E; [rewrite Htot in Hb; simpl in Hb; lia|simpl; lia]. }
  destruct (nrand48 (mRandState c)) as [r st] eqn:Er.
  set (i := r mod size (mCacheEntries c)). assert (Hi : 0 <= i < size (mCacheEntries c)) by (by apply Z.mod_pos_bound).
  destruct (entries c !! Z.to_nat i) as [e|] eqn:Ee; [|apply lookup_ge_None in Ee; unfold size in Hi; lia].
  assert (Hei : blob_entry_ok c e) by (eapply Forall_lookup_1; eauto). pose proof (entry_size_pos c e Hei).
  destruct Hei as (v & Ev & Hk & Hval).
  assert (Hle : entry_size e <= mTotalSize c).
  { rewrite Htot, (total_of_lookup _ _ _ Ee).
    assert (Forall (blob_entry_ok c) (delete (Z.to_nat i) (entries c))) as Hd%total_of_count; [|lia].
    rewrite Forall_forall in *. intros x Hx. apply Hall. eapply elem_of_sublist; [done|]. apply sublist_delete. }
  unfold entry_size in Hle. rewrite Ev in Hle. simpl in Hle.
  set (c1 := {| mMaxKeySize := mMaxKeySize c; mMaxValueSize := mMaxValueSize c; mMaxTotalSize := mMaxTotalSize c;
    mTotalSize := mTotalSize c; mRandState := st; mCacheEntries := mCacheEntries c |}).
  set (c2 := set_cache (mTotalSize c - entry_size e) (mCacheEntries c) c1).
  destruct (entries_do_ok (removeItemsAt i 1) c2 h i (delete (Z.to_nat i) (entries c))) as (bytes & h' & E & Hv').
  { apply removeItemsAt_ok; [done..|]. simpl. lia. }
  exists (set_cache (mTotalSize c2) (Build_VectorImpl bytes (delete (Z.to_nat i) (entries c))) c2), h'.
  destruct (removed_ok c (set_cache (mTotalSize c2) (Build_VectorImpl bytes (delete (Z.to_nat i) (entries c))) c2)
    (Z.to_nat i) e) as (Hok & Hs & Hlen); try done.
  split; [done|]. split; [done|]. split; [done|]. split; [done|]. split; [unfold size in Hpos; lia|].
  intros fuel. cbn [clean_loop]. rewrite (bind_Ok _ _ _ c (c, h)) by done.
  rewrite (proj2 (Z.ltb_lt _ _)) by done.
  rewrite (bind_Ok _ _ _ r (c1, h)) by (unfold blob_random; simpl; by rewrite Er).
  rewrite (bind_Ok _ _ _ tt (c1, h)) by by apply divisor_ok. fold i.
  rewrite (bind_Ok _ _ _ e (c1, h)) by (unfold lift, item_at; by rewrite Ee).
  rewrite (bind_Ok _ _ _ v (c1, h)) by (unfold lift, getValue; by rewrite Ev).
  rewrite (bind_Ok _ _ _ tt (c2, h)).
  - by rewrite (bind_Ok _ _ _ _ _ E).
  - unfold set_total. simpl. rewrite (u64_small (_ + _)) by lia. rewrite u64_small by lia.
    subst c2. unfold entry_size. by rewrite Ev.
Qed.

Lemma clean_loop_ok fuel : forall (c : BlobCache) (h : H), cache_ok c -> (length (entries c) < fuel)%nat ->
  exists c' h', clean_loop fuel (c, h) = Ok (tt, (c', h')) /\ cache_ok c' /\ same_limits c c' /\
    sublist (entries c') (entries c) /\ mTotalSize c' <= mMaxTotalSize c / 2.
Proof.
  induction fuel as [|fuel IH]; intros c h Hc Hf; [lia|].
  destruct (Z.ltb_spec (mMaxTotalSize c / 2) (mTotalSize c)) as [Hb|Hb].
  - destruct (clean_round c h Hc Hb) as (c1 & h1 & Hc1 & Hl1 & Hs1 & Hn1 & Hp & E).
    destruct (IH c1 h1 Hc1 ltac:(lia)) as (c2 & h2 & E2 & Hc2 & Hl2 & Hs2 & Ht2).
    exists c2, h2. split; [by rewrite E|]. split; [done|].
    destruct Hl1 as (L1 & L2 & L3), Hl2 as (L1' & L2' & L3'). unfold same_limits. rewrite L3 in Ht2.
    split; [split; [congruence|split; congruence]|]. split; [by etrans|done].
  - exists c, h. split; [|done]. cbn [clean_loop]. rewrite (bind_Ok _ _ _ c (c, h)) by done.
    by rewrite (proj2 (Z.ltb_ge _ _)).
Qed.

Lemma clean_ok (c : BlobCache) (h : H) : cache_ok c ->
  exists c' h', clean (c, h) = Ok (tt, (c', h')) /\ cache_ok c' /\ same_limits c c' /\
    sublist (entries c') (entries c) /\ mTotalSize c' <= mMaxTotalSize c / 2.
Proof.
  intros Hc. destruct (clean_loop_ok (S (length (entries c))) c h Hc ltac:(lia)) as (c' & h' & E & R).
  exists c', h'. split; [|done]. unfold clean. by rewrite (bind_Ok _ _ _ c (c, h)).
Qed.

(** ** Storing *)

(** The limits [set] checks first. *)
Definition acceptable (c : BlobCache) (k v : list byte) : Prop :=
  0 < getSize k <= mMaxKeySize c /\ 0 < getSize v <= mMaxValueSize c /\ getSize k + getSize v <= mMaxTotalSize c.

(** The entries with the pair among them. *)
Definition with_pair (c : BlobCache) (k v : list byte) : list CacheEntry :=
  insert_item {| mKey := k; mValue := Some v |} (entries c).

Lemma Blob_copy_ok d (c : BlobCache) (h : H) : exists h', Blob_copy d (c, h) = Ok (d, (c, h')).
Proof.
  unfold Blob_copy. simpl. pose proof (malloc_granted (getSize d) h) as G.
  destruct (malloc (getSize d) h) as [b h']. simpl in G. subst. by eexists.
Qed.

(** What a search by key finds, with what storing a pair under the key makes of
    the entries. *)
Inductive key_search (c : BlobCache) (k : list byte) : Z -> Prop :=
| key_found (i : nat) old : entries c !! i = Some {| mKey := k; mValue := Some old |} ->
    (forall v, with_pair c k v = <[i := {| mKey := k; mValue := Some v |}]> (entries c)) ->
    key_search c k (Z.of_nat i)
| key_missing : (forall v, ~ stored c k v) ->
    (forall v, total_of (with_pair c k v) = mTotalSize c + getSize k + getSize v) ->
    key_search c k NAME_NOT_FOUND.

Lemma key_search_ok c k : cache_ok c -> exists i,
  indexOf (mCacheEntries c) {| mKey := k; mValue := None |} = Ok i /\ key_search c k i.
Proof.
  intros Hc. destruct (indexOrderOf_ok (mCacheEntries c) {| mKey := k; mValue := None |} (ok_sorted c Hc)) as (i & o & E & Hr).
  exists i. split; [unfold indexOf; by rewrite E|]. destruct Hr as [i x Hx Hs|o Ho Hb Ha].
  - apply same_key in Hs. simpl in Hs.
    destruct (Forall_lookup_1 _ _ _ _ (ok_entries c Hc) Hx) as (old & Ev & _).
    destruct x as [k' v']. simpl in *. subst. apply key_found with old; [done|]. intros v. unfold with_pair.
    eapply insert_item_found; [apply Hc|exact Hx|]. by apply same_key.
  - apply key_missing.
    + intros v Hst. unfold stored in Hst. rewrite <-(take_drop o), elem_of_app in Hst.
      rewrite Forall_forall in Hb, Ha. destruct Hst as [Hst|Hst]; [apply Hb in Hst|apply Ha in Hst]; simpl in Hst;
        rewrite Blob_lt_val in Hst; lia.
    + intros v. unfold with_pair. rewrite (insert_item_missing _ _ o); [|exact Hb|exact Ha].
      rewrite (ok_total c Hc). rewrite <-(take_drop o (entries c)) at 3. rewrite !total_of_app. simpl. unfold entry_size. simpl. lia.
Qed.

(** Putting an acceptable pair in place. *)
Lemma placed_ok c c' k v : cache_ok c -> acceptable c k v -> same_limits c c' -> vec_ok (mCacheEntries c') ->
  entries c' = with_pair c k v -> mTotalSize c' = total_of (with_pair c k v) ->
  total_of (with_pair c k v) <= mMaxTotalSize c ->
  cache_ok c' /\ forall k' v', stored c' k' v' <-> (k' = k /\ v' = v) \/ (k' <> k /\ stored c k' v').
Proof.
  intros Hc (Hk & Hv & _) Hl Hvec He Ht Hm. pose proof (ok_sorted c Hc) as Hs. split.
  - split; [eapply limits_ok_same; [done|apply Hc]|done| | | |].
    + rewrite He. by apply increasing_insert.
    + rewrite He, Forall_forall. intros x [->|[Hx _]]%elem_of_insert_item; [| |done]; eapply entry_ok_limits; try done.
      * by exists v.
      * pose proof (ok_entries c Hc) as Hall. rewrite Forall_forall in Hall. by apply Hall.
    + by rewrite He.
    + destruct Hl as (_ & _ & ->). lia.
  - intros k' v'. unfold stored. rewrite He. unfold with_pair. rewrite elem_of_insert_item by done.
    rewrite <-not_true_iff_false, same_key. simpl. naive_solver.
Qed.

Lemma total_of_insert l i e e' : l !! i = Some e -> total_of (<[i := e']> l) = total_of l - entry_size e + entry_size e'.
Proof.
  intros E. pose proof (lookup_lt_Some _ _ _ E) as Hi.
  rewrite <-(take_drop_middle l i e E) at 2. rewrite insert_take_drop by done. rewrite !total_of_app. simpl. lia.
Qed.


Lemma replaced_total c k v i old : cache_ok c -> acceptable c k v ->
  entries c !! i = Some {| mKey := k; mValue := Some old |} ->
  with_pair c k v = <[i := {| mKey := k; mValue := Some v |}]> (entries c) ->
  total_of (with_pair c k v) = mTotalSize c + getSize v - getSize old /\
  0 <= mTotalSize c + getSize v - getSize old < 2 ^ 64.
Proof.
  intros Hc (Hk & Hv & Hkv) Hi Hw. pose proof (cache_count c Hc) as [_ Ht].
  pose proof (lim_total c (ok_limits c Hc)) as Hlim. split.
  - rewrite Hw, (total_of_insert _ _ _ _ Hi), (ok_total c Hc). unfold entry_size. simpl. lia.
  - assert (Forall (blob_entry_ok c) (delete i (entries c))) as Hd%total_of_count.
    { pose proof (ok_entries c Hc) as Hall. rewrite Forall_forall in *. intros x Hx. apply Hall.
      eapply elem_of_sublist; [done|]. apply sublist_delete. }
    pose proof (ok_total c Hc) as Hd2. rewrite (total_of_lookup _ _ _ Hi) in Hd2. unfold entry_size in Hd2.
    simpl in Hd2. unfold getSize in *. lia.
Qed.

(** One round of the loop of [set]. *)
Lemma set_round c h k v fuel : cache_ok c -> acceptable c k v ->
  (total_of (with_pair c k v) <= mMaxTotalSize c /\
   exists c' h', set_loop (S fuel) k v (c, h) = Ok (tt, (c', h')) /\ cache_ok c' /\ same_limits c c' /\
     entries c' = with_pair c k v /\
     forall k' v', stored c' k' v' <-> (k' = k /\ v' = v) \/ (k' <> k /\ stored c k' v')) \/
  (mMaxTotalSize c < total_of (with_pair c k v) /\
   exists h', set_loop (S fuel) k v (c, h) =
     if isCleanable c then (clean ;;! set_loop fuel k v) (c, h') else Ok (tt, (c, h'))).
Proof.
  intros Hc Ha. pose proof Ha as (Hk & Hv & Hkv). pose proof (cache_count c Hc) as [Hn Ht].
  pose proof (lim_total c (ok_limits c Hc)) as Hlim.
  cbn [set_loop]. rewrite (bind_Ok _ _ _ c (c, h)) by done.
  destruct (key_search_ok c k Hc) as (i & E & Hs). rewrite (bind_Ok _ _ _ i (c, h)) by (unfold lift; by rewrite E).
  destruct Hs as [i old Hi Hw|Hno Hw].
  - destruct (Z.ltb_spec (Z.of_nat i) 0); [lia|].
    destruct (Blob_copy_ok v c h) as [h1 E1]. rewrite (bind_Ok _ _ _ _ _ E1).
    rewrite (bind_Ok _ _ _ {| mKey := k; mValue := Some old |} (c, h1)) by (unfold lift, item_at; by rewrite Nat2Z.id, Hi).
    rewrite (bind_Ok _ _ _ old (c, h1)) by done.
    destruct (replaced_total c k v i old Hc Ha Hi (Hw v)) as [Et Hr].
    cbv zeta. rewrite u64_small, <-Et by done. destruct (Z.ltb_spec (mMaxTotalSize c) (total_of (with_pair c k v))) as [Hb|Hb].
    + right. split; [done|]. exists h1. by destruct (isCleanable c).
    + left. split; [done|].
      set (v1 := Build_VectorImpl (mStorage (mCacheEntries c)) (with_pair c k v)).
      exists (set_cache (total_of (with_pair c k v)) v1 c), h1.
      destruct (placed_ok c (set_cache (total_of (with_pair c k v)) v1 c) k v) as [Hc' Hst]; try done.
      { pose proof (ok_vec c Hc) as Hvec. unfold vec_ok, size, v1 in *. simpl. rewrite Hw, length_insert.
        destruct (mStorage (mCacheEntries c)); [done|]. by rewrite Hvec in Hi. }
      split; [|done]. rewrite (bind_Ok _ _ _ tt (set_cache (mTotalSize c) v1 c, h1)); [done|].
      unfold entries_do, edit_value. simpl. rewrite (bind_Ok _ _ _ (mCacheEntries c) (mCacheEntries c, h1)) by done.
      rewrite Nat2Z.id, Hi. simpl. by rewrite <-Hw.
  - simpl. destruct (Blob_copy_ok k c h) as [h0 E0]. rewrite (bind_Ok _ _ _ _ _ E0).
    destruct (Blob_copy_ok v c h0) as [h1 E1]. rewrite (bind_Ok _ _ _ _ _ E1).
    rewrite u64_small, <-Hw by (unfold getSize in *; lia). destruct (Z.ltb_spec (mMaxTotalSize c) (total_of (with_pair c k v))) as [Hb|Hb].
    + right. split; [done|]. exists h1. by destruct (isCleanable c).
    + left. split; [done|].
      destruct (sorted_add_ok (mCacheEntries c) h1 {| mKey := k; mValue := Some v |} (ok_vec c Hc) (ok_sorted c Hc) Hn)
        as (r & _ & Hadd).
      destruct (entries_do_ok _ c h1 _ _ Hadd) as (bytes & h2 & E2 & Hvec).
      exists (set_cache (total_of (with_pair c k v)) (Build_VectorImpl bytes (with_pair c k v)) c), h2.
      destruct (placed_ok c (set_cache (total_of (with_pair c k v)) (Build_VectorImpl bytes (with_pair c k v)) c) k v)
        as [Hc' Hst]; try done.
      split; [|done]. by rewrite (bind_Ok _ _ _ _ _ E2).
Qed.


Lemma with_pair_total c k v : cache_ok c -> total_of (with_pair c k v) <= mTotalSize c + getSize k + getSize v.
Proof.
  intros Hc. destruct (key_search_ok c k Hc) as (i & _ & [j old Hj Hw|_ Hw]).
  - rewrite Hw, (total_of_insert _ _ _ _ Hj), (ok_total c Hc). unfold entry_size. simpl. unfold getSize. lia.
  - rewrite Hw. lia.
Qed.

(** What [set] does to the cache with an acceptable pair. *)
Record set_effect (c : BlobCache) (k v : list byte) (c' : BlobCache) : Prop := {
  se_ok : cache_ok c';
  se_limits : same_limits c c';
  se_entries : total_of (with_pair c k v) <= mMaxTotalSize c -> entries c' = with_pair c k v;
  (** Nothing is evicted if the pair fits in. *)
  se_fits : total_of (with_pair c k v) <= mMaxTotalSize c ->
    forall k' v', stored c' k' v' <-> (k' = k /\ v' = v) \/ (k' <> k /\ stored c k' v');
  (** Otherwise entries may go, but none is changed. *)
  se_others k' v' : stored c' k' v' -> (k' = k /\ v' = v) \/ stored c k' v';
  (** A pair of at most half of the total size is stored. *)
  se_stored : getSize k + getSize v <= mMaxTotalSize c - mMaxTotalSize c / 2 -> stored c' k v
}.

Lemma set_loop_ok c h k v : cache_ok c -> acceptable c k v ->
  exists c' h', set_loop 2 k v (c, h) = Ok (tt, (c', h')) /\ set_effect c k v c'.
Proof.
  intros Hc Ha. pose proof (with_pair_total c k v Hc) as Hw.
  destruct (set_round c h k v 1 Hc Ha) as [(Hfit & c' & h' & E & Hc' & Hl & He & Hst)|(Hbig & h1 & E)]; rewrite E.
  { exists c', h'. split; [done|]. split; try done; [|intros _]; [|apply Hst; by left].
    intros k' v' [?|[_ ?]]%Hst; auto. }
  unfold isCleanable. destruct (Z.ltb_spec (mMaxTotalSize c / 2) (mTotalSize c)) as [Hcl|Hcl].
  2: { exists c, h1. split; [done|]. split; try done; try lia. intros k' v' ?. by right. }
  destruct (clean_ok c h1 Hc) as (c1 & h2 & E1 & Hc1 & Hl1 & Hs1 & Ht1). pose proof Hl1 as (L1 & L2 & L3).
  rewrite (bind_Ok _ _ _ _ _ E1).
  assert (Ha1 : acceptable c1 k v) by (unfold acceptable; by rewrite L1, L2, L3).
  pose proof (with_pair_total c1 k v Hc1) as Hw1.
  destruct (set_round c1 h2 k v 0 Hc1 Ha1) as [(_ & c' & h' & E2 & Hc' & Hl & _ & Hst)|(Hbig1 & h3 & E2)]; rewrite E2.
  - exists c', h'. split; [done|]. destruct Hl as (M1 & M2 & M3).
    split; [done|split; [congruence|split; congruence]|lia|lia| |].
    + intros k' v' [?|[_ Hx]]%Hst; [by left|]. right. by eapply stored_sublist.
    + intros _. apply Hst. by left.
  - unfold isCleanable. destruct (Z.ltb_spec (mMaxTotalSize c1 / 2) (mTotalSize c1)); [rewrite L3 in *; lia|].
    exists c1, h3. split; [done|]. split; try done; try lia.
    intros k' v' Hx. right. by eapply stored_sublist.
Qed.

Lemma bytes_at_size p n l : bytes_at p n = Ok l -> 0 <= n -> getSize l = n.
Proof. intros E Hn. by apply mem_read_Ok in E as (El & _ & _). Qed.

(** [set] of [keySize] bytes at [key] and [valueSize] bytes at [value], which are
    there if they are within the limits. *)
Lemma set_ok c h key keySize value valueSize k v : cache_ok c -> 0 <= keySize -> 0 <= valueSize ->
  (keySize <= mMaxKeySize c -> valueSize <= mMaxValueSize c ->
    bytes_at key keySize = Ok k /\ bytes_at value valueSize = Ok v) ->
  exists c' h', set key keySize value valueSize (c, h) = Ok (tt, (c', h')) /\ cache_ok c' /\ same_limits c c' /\
    (getSize k = keySize -> getSize v = valueSize -> acceptable c k v -> set_effect c k v c') /\
    (getSize k = keySize -> getSize v = valueSize -> ~ acceptable c k v -> c' = c).
Proof.
  intros Hc Hk Hv Hb. pose proof (ok_limits c Hc) as [Hlk Hlv _].
  unfold set. rewrite (bind_Ok _ _ _ c (c, h)) by done.
  assert (Hno : forall P : Prop, ~ P -> (getSize k = keySize -> getSize v = valueSize -> acceptable c k v -> P) ->
    exists c' h', @ret (BlobCache * H) unit tt (c, h) = Ok (tt, (c', h')) /\ cache_ok c' /\ same_limits c c' /\
    (getSize k = keySize -> getSize v = valueSize -> acceptable c k v -> set_effect c k v c') /\
    (getSize k = keySize -> getSize v = valueSize -> ~ acceptable c k v -> c' = c)).
  { intros P HnP HP. exists c, h. split; [done|]. split; [done|]. split; [done|]. split; [|done].
    intros E1 E2 Ha. destruct HnP. by apply HP. }
  destruct (Z.ltb_spec (mMaxKeySize c) keySize); [apply (Hno (keySize <= mMaxKeySize c)); [lia|intros ? ? [? ?]; lia]|].
  destruct (Z.ltb_spec (mMaxValueSize c) valueSize); [apply (Hno (valueSize <= mMaxValueSize c)); [lia|intros ? ? (? & ? & ?); lia]|].
  rewrite u64_small by lia.
  destruct (Z.ltb_spec (mMaxTotalSize c) (keySize + valueSize)); [apply (Hno (keySize + valueSize <= mMaxTotalSize c)); [lia|intros ? ? (? & ? & ?); lia]|].
  destruct (Z.eqb_spec keySize 0); [apply (Hno (0 < keySize)); [lia|intros ? ? (? & ? & ?); lia]|].
  destruct (Z.leb_spec valueSize 0); [apply (Hno (0 < valueSize)); [lia|intros ? ? (? & ? & ?); lia]|].
  destruct (Hb ltac:(done) ltac:(done)) as [Ek Ev].
  rewrite (bind_Ok _ _ _ k (c, h)) by (unfold lift; by rewrite Ek).
  rewrite (bind_Ok _ _ _ v (c, h)) by (unfold lift; by rewrite Ev).
  apply bytes_at_size in Ek, Ev; try done.
  assert (Ha : acceptable c k v) by (unfold acceptable; lia).
  destruct (set_loop_ok c h k v Hc Ha) as (c' & h' & E & He). exists c', h'.
  split; [done|]. split; [apply He|]. split; [apply He|]. split; [done|]. by intros _ _ [].
Qed.


Lemma bytes_at_all l : bytes_at (l, 0) (getSize l) = Ok l.
Proof.
  unfold bytes_at, mem_read, getSize. simpl. rewrite drop_0, (proj2 (Z.leb_le _ _)) by lia.
  by rewrite Nat2Z.id, take_ge.
Qed.

(** ** Theorems *)

(** C19: [set] returns, keeps the invariant of the cache with its limits on keys,
    values and the total size, leaves the cache as it was if the pair is empty or too
    large, and otherwise stores the pair without touching another one if it fits
    in; if it does not, it may evict other pairs but changes none, and stores the
    pair for sure if it takes at most half of the total size. *)
Theorem blob_cache_set_exact c (h : H) k v : cache_ok c ->
  exists c' h', set (k, 0) (getSize k) (v, 0) (getSize v) (c, h) = Ok (tt, (c', h')) /\
    cache_ok c' /\ same_limits c c' /\
    (acceptable c k v -> set_effect c k v c') /\ (~ acceptable c k v -> c' = c).
Proof.
  intros Hc.
  destruct (set_ok c h (k, 0) (getSize k) (v, 0) (getSize v) k v Hc) as (c' & h' & E & Hok & Hl & He & Hn);
    [unfold getSize; lia..|by rewrite !bytes_at_all|].
  exists c', h'. split; [done|]. split; [done|]. split; [done|]. auto.
Qed.

(** C32: [get] returns the size of the value stored under the key and copies it to
    the front of the caller's buffer exactly if it is at most as large as the buffer,
    and returns 0 and leaves the buffer alone if there is none; it changes nothing in
    the cache. *)
Theorem blob_cache_get_exact c (h : H) k : cache_ok c ->
  (forall v mem n, stored c k v -> n <= getSize mem ->
    get (k, 0) (getSize k) (Some mem) n (c, h)
    = Ok ((getSize v, Some (if getSize v <=? n then v ++ drop (length v) mem else mem)), (c, h))) /\
  (forall v n, stored c k v -> n < getSize v ->
    get (k, 0) (getSize k) None n (c, h) = Ok ((getSize v, None), (c, h))) /\
  (forall buf n, (forall v, ~ stored c k v) -> get (k, 0) (getSize k) buf n (c, h) = Ok ((0, buf), (c, h))).
Proof.
  intros Hc.
  assert (Hget : forall buf n v, stored c k v -> get (k, 0) (getSize k) buf n (c, h) =
    (if getSize v <=? n then
       match buf with
       | None => undef
       | Some mem => let! mem := lift (mem_write mem 0 v) in ret (getSize v, Some mem)
       end
     else ret (getSize v, buf)) (c, h)).
  { intros buf n v Hv. unfold get. rewrite (bind_Ok _ _ _ c (c, h)) by done.
    pose proof (ok_entries c Hc) as Hall. rewrite Forall_forall in Hall. destruct (Hall _ Hv) as (v0 & _ & Hk & _). simpl in Hk.
    destruct (Z.ltb_spec (mMaxKeySize c) (getSize k)); [lia|]. rewrite bytes_at_all, (bind_Ok _ _ _ k (c, h)) by done.
    destruct (key_search_ok c k Hc) as (i & E & Hs). rewrite (bind_Ok _ _ _ i (c, h)) by (unfold lift; by rewrite E).
    destruct Hs as [i old Hi Hw|Hno _]; [|by destruct (Hno v)].
    destruct (Z.ltb_spec (Z.of_nat i) 0); [lia|].
    rewrite (bind_Ok _ _ _ {| mKey := k; mValue := Some old |} (c, h)) by (unfold lift, item_at; by rewrite Nat2Z.id, Hi).
    rewrite (bind_Ok _ _ _ old (c, h)) by done.
    replace v with old; [done|]. eapply stored_inj; [done| |done]. by eapply list_elem_of_lookup_2. }
  split; [|split].
  - intros v mem n Hv Hn. rewrite (Hget _ _ _ Hv). destruct (Z.leb_spec (getSize v) n); [|done].
    unfold getSize in *. unfold bind, lift. rewrite mem_write_ok by lia. done.
  - intros v n Hv Hn. rewrite (Hget _ _ _ Hv). destruct (Z.leb_spec (getSize v) n); [lia|done].
  - intros buf n Hno. unfold get. rewrite (bind_Ok _ _ _ c (c, h)) by done.
    destruct (Z.ltb_spec (mMaxKeySize c) (getSize k)); [done|]. rewrite bytes_at_all, (bind_Ok _ _ _ k (c, h)) by done.
    destruct (key_search_ok c k Hc) as (i & E & Hs). rewrite (bind_Ok _ _ _ i (c, h)) by (unfold lift; by rewrite E).
    destruct Hs as [i old Hi Hw|_ _]; [|done]. destruct (Hno old). by eapply list_elem_of_lookup_2.
Qed.

End Operations.
