(* ===== verification/BlobCacheFlat.v ===== *)
(** * Saving and loading the blob cache (core/libutils/BlobCache.cpp)

    The format of a saved cache, that [flatten] writes it into a buffer of the
    size [getFlattenedSize] asks for, that [unflatten] reads it back, and what
    [unflatten] does with any other bytes. *)

From S2P Require Import Prelude Words SortedVector BlobCache BlobCacheProps.

#[local] Open Scope Z_scope.
#[local] Open Scope c_scope.

(** The value of a property has at most 91 characters, none of them NUL. *)
Class BuildLaws `{Build} : Prop := {
  build_id_length : Z.of_nat (length build_id) < PROPERTY_VALUE_MAX;
  build_id_chars : Forall (fun b => byte.unsigned b <> 0) build_id
}.

(** ** Alignment *)

Lemma align4_up x : 0 <= x < 2 ^ 63 -> align4 x = (x + 3) / 4 * 4.
Proof.
  intros Hx. unfold align4. rewrite u64_small by lia. remember (x + 3) as y eqn:Ey.
  change (y / 4 * 4) with (y / 2 ^ 2 * 2 ^ 2). rewrite <-(Z.shiftr_div_pow2 y 2), <-(Z.shiftl_mul_pow2 _ 2) by lia.
  apply Z.bits_inj'. intros i Hi. rewrite Z.land_spec.
  change (2 ^ 64 - 4) with (Z.shiftl (Z.ones 62) 2).
  destruct (decide (i < 2)); [rewrite !Z.shiftl_spec_low, andb_false_r by lia; done|].
  rewrite !Z.shiftl_spec, Z.shiftr_spec by lia. replace (i - 2 + 2) with i by lia.
  destruct (decide (i < 64)); [rewrite Z.ones_spec_low, andb_true_r by lia; done|].
  rewrite <-(Z.mod_small y (2 ^ 64)), Z.mod_pow2_bits_high by lia. done.
Qed.

Lemma align4_bounds x : 0 <= x < 2 ^ 63 -> x <= align4 x <= x + 3.
Proof.
  intros Hx. rewrite align4_up by done. pose proof (Z.div_mod (x + 3) 4 ltac:(lia)).
  pose proof (Z.mod_pos_bound (x + 3) 4 ltac:(lia)). lia.
Qed.

Lemma align4_mono x y : 0 <= x <= y -> y < 2 ^ 63 -> align4 x <= align4 y.
Proof.
  intros Hx Hy. rewrite !align4_up by lia. pose proof (Z.div_le_mono (x + 3) (y + 3) 4 ltac:(lia) ltac:(lia)). lia.
Qed.

Lemma align4_range x : 0 <= align4 x < 2 ^ 64.
Proof.
  unfold align4. assert (0 <= u64 (x + 3) < 2 ^ 64) by (apply Z.mod_pos_bound; lia).
  split; [apply Z.land_nonneg; lia|].
  assert (Z.land (u64 (x + 3)) (2 ^ 64 - 4) = Z.land (u64 (x + 3)) (2 ^ 64 - 4) mod 2 ^ 64) as ->; [|apply Z.mod_pos_bound; lia].
  rewrite <-Z.land_ones, <-Z.land_assoc by lia. done.
Qed.

(** ** The format *)

Definition entry_value (e : CacheEntry) : list byte := default [] (mValue e).

(** An entry with its header and padding. *)
Definition flat_entry (e : CacheEntry) : list byte :=
  le 8 (getSize (mKey e)) ++ le 8 (getSize (entry_value e)) ++ mKey e ++ entry_value e ++
  replicate (Z.to_nat (align4 (EntryHeader_SIZE + entry_size e) - (EntryHeader_SIZE + entry_size e))) (byte.of_Z 0).

Definition flat_entries (l : list CacheEntry) : list byte := concat (flat_entry <$> l).

(** The entries fit the machine. *)
Definition small_entries (l : list CacheEntry) : Prop :=
  Forall (fun e => is_Some (mValue e) /\ entry_size e < 2 ^ 50) l.

Lemma entry_size_nonneg e : 0 <= getSize (mKey e) /\ 0 <= getSize (entry_value e) /\
  entry_size e = getSize (mKey e) + getSize (entry_value e).
Proof. unfold entry_size, entry_value, getSize. lia. Qed.

Lemma length_flat_entry e : entry_size e < 2 ^ 50 ->
  Z.of_nat (length (flat_entry e)) = align4 (EntryHeader_SIZE + entry_size e).
Proof.
  intros Hs. pose proof (entry_size_nonneg e) as (H1 & H2 & E). unfold EntryHeader_SIZE in *.
  pose proof (align4_bounds (16 + entry_size e) ltac:(lia)).
  unfold flat_entry. rewrite !length_app, !length_le, length_replicate. unfold EntryHeader_SIZE, getSize in *. lia.
Qed.

(** ** Writing *)

Lemma mem_write_after pre post off d : Z.of_nat (length pre) = off -> (length d <= length post)%nat ->
  mem_write (pre ++ post) off d = Ok ((pre ++ d) ++ drop (length d) post).
Proof.
  intros <- Hb. rewrite mem_write_ok by (rewrite ?length_app; lia). rewrite Nat2Z.id.
  rewrite take_app_length, drop_app_add, <-app_assoc. done.
Qed.

Lemma mem_write_next mem off d1 d2 : (off + length d1 + length d2 <= length mem)%nat ->
  mem_write (take off mem ++ d1 ++ drop (off + length d1) mem) (Z.of_nat (off + length d1)) d2
  = Ok (take off mem ++ (d1 ++ d2) ++ drop (off + length (d1 ++ d2)) mem).
Proof.
  intros Hb. rewrite mem_write_ok by (rewrite ?length_app, ?length_take, ?length_drop; lia).
  rewrite Nat2Z.id. f_equal. rewrite length_app.
  rewrite (app_assoc (take off mem) d1), <-!app_assoc.
  rewrite (app_assoc (take off mem) d1 (drop (off + length d1) mem)).
  rewrite take_app_le, take_ge by (rewrite ?length_app, ?length_take; lia).
  rewrite drop_app_ge by (rewrite length_app, length_take; lia).
  rewrite drop_drop, <-app_assoc. do 4 f_equal. rewrite length_app, length_take. lia.
Qed.

Lemma mem_write_first mem off d : (off + length d <= length mem)%nat ->
  mem_write mem (Z.of_nat off) d = Ok (take off mem ++ d ++ drop (off + length d) mem).
Proof. intros Hb. rewrite mem_write_ok by lia. by rewrite Nat2Z.id. Qed.

(** The end of the entries of a list that begin at [off]. *)
Definition flat_end (off : nat) (l : list CacheEntry) : nat := off + length (flat_entries l).

Lemma flat_entries_cons e l : flat_entries (e :: l) = flat_entry e ++ flat_entries l.
Proof. done. Qed.

(** One round of the loop of [flatten]. *)
Lemma flatten_round e l buf sz off : is_Some (mValue e) -> entry_size e < 2 ^ 50 ->
  sz <= Z.of_nat (length buf) < 2 ^ 62 -> Z.of_nat (off + length (flat_entry e)) <= sz ->
  flatten_loop (e :: l) buf sz (Z.of_nat off)
  = flatten_loop l (take off buf ++ flat_entry e ++ drop (off + length (flat_entry e)) buf) sz
      (Z.of_nat (off + length (flat_entry e))).
Proof.
  intros [v Ev] Hs Hb Hfit. pose proof (length_flat_entry e Hs) as Hlen.
  pose proof (entry_size_nonneg e) as (H1 & H2 & E).
  assert (Ev' : entry_value e = v) by (unfold entry_value; by rewrite Ev). rewrite Ev' in *.
  cbn [flatten_loop]. unfold getValue. rewrite Ev. cbn [obind]. unfold EntryHeader_SIZE in *.
  pose proof (align4_bounds (16 + entry_size e) ltac:(lia)) as Ha.
  rewrite (u64_small (16 + _ + _)) by lia. replace (16 + getSize (mKey e) + getSize v) with (16 + entry_size e) by lia.
  set (t := align4 (16 + entry_size e)) in *.
  rewrite u64_small by lia. destruct (Z.ltb_spec sz (Z.of_nat off + t)); [lia|]. rewrite i64_small by lia.
  replace (Z.of_nat off + t) with (Z.of_nat (off + length (flat_entry e))) by lia.
  set (d1 := le 8 (getSize (mKey e)) ++ le 8 (getSize v)).
  assert (L1 : length d1 = 16%nat) by (unfold d1; by rewrite length_app, !length_le).
  set (pad := replicate (Z.to_nat (t - (16 + entry_size e))) (byte.of_Z 0)).
  assert (Ef : flat_entry e = ((d1 ++ mKey e) ++ v) ++ pad).
  { unfold flat_entry, EntryHeader_SIZE. rewrite Ev'. fold t pad. unfold d1. by rewrite <-!app_assoc. }
  assert (Lp : Z.of_nat (length pad) = t - (16 + entry_size e)) by (unfold pad; rewrite length_replicate; lia).
  unfold getSize in *.
  rewrite mem_write_first by lia. cbn [obind].
  replace (Z.of_nat off + 16) with (Z.of_nat (off + length d1)) by lia.
  rewrite mem_write_next by lia. cbn [obind].
  replace (Z.of_nat (off + length d1) + Z.of_nat (length (mKey e))) with (Z.of_nat (off + length (d1 ++ mKey e)))
    by (rewrite length_app; lia).
  rewrite mem_write_next by (rewrite length_app; lia). cbn [obind].
  replace (Z.of_nat (off + length (d1 ++ mKey e)) + Z.of_nat (length v)) with (Z.of_nat (off + length ((d1 ++ mKey e) ++ v)))
    by (rewrite !length_app; lia).
  destruct (Z.ltb_spec (16 + entry_size e) t).
  - rewrite mem_write_next by (rewrite !length_app; fold pad; lia). cbn [obind]. fold pad. by rewrite <-Ef.
  - cbn [obind]. assert (pad = []) as Ep by (apply length_zero_iff_nil; lia). by rewrite Ef, Ep, app_nil_r.
Qed.

Lemma flatten_loop_ok l : forall buf sz off, small_entries l -> sz <= Z.of_nat (length buf) < 2 ^ 62 ->
  Z.of_nat (flat_end off l) <= sz ->
  flatten_loop l buf sz (Z.of_nat off) = Ok (OK, take off buf ++ flat_entries l ++ drop (flat_end off l) buf).
Proof.
  induction l as [|e l IH]; intros buf sz off Hl Hb Hf; unfold flat_end in *.
  { simpl. by rewrite Nat.add_0_r, take_drop. }
  inversion_clear Hl as [|? ? [Hv Hs] Hl']. rewrite flat_entries_cons, length_app in *.
  rewrite flatten_round by (try done; lia).
  rewrite IH; [|done|rewrite !length_app, length_take, length_drop; lia|lia]. do 2 f_equal.
  rewrite (app_assoc (take off buf)), take_app_length'
    by (rewrite length_app, length_take; lia).
  rewrite drop_app_ge by (rewrite length_app, length_take; lia). rewrite drop_drop, <-!app_assoc.
  do 3 f_equal. f_equal. rewrite length_app, length_take. lia.
Qed.

Section Format.
Context `{BuildLaws}.

(** The header up to the build id; [pad] are the four bytes between the versions and
    the number of entries, which [flatten] leaves. *)
Definition flat_header (pad : list byte) (n : Z) : list byte :=
  le 4 blobCacheMagic ++ le 4 blobCacheVersion ++ le 4 blobCacheDeviceVersion ++ pad ++ le 8 n ++ le 4 (getSize build_id).

(** Where the entries begin. *)
Definition entries_start : nat := Z.to_nat (align4 (Header_SIZE + getSize build_id)).

Lemma entries_start_bounds : Header_SIZE + getSize build_id <= Z.of_nat entries_start <= Header_SIZE + getSize build_id + 3 /\
  Z.of_nat entries_start <= align4 (Header_SIZE + PROPERTY_VALUE_MAX).
Proof.
  pose proof build_id_length as Hn. unfold entries_start, Header_SIZE, PROPERTY_VALUE_MAX, getSize in *.
  set (n := Z.of_nat (length build_id)) in *. assert (0 <= n) by lia.
  pose proof (align4_bounds (32 + n) ltac:(lia)). pose proof (align4_mono (32 + n) (32 + 92) ltac:(lia) ltac:(lia)). lia.
Qed.

(** A saved cache: [gap] is what the buffer held between the build id and the
    entries, and [rest] what it holds behind them. *)
Definition flat_cache (pad gap rest : list byte) (l : list CacheEntry) : list byte :=
  flat_header pad (Z.of_nat (length l)) ++ build_id ++ gap ++ flat_entries l ++ rest.

Lemma flatten_ok c buf sz : small_entries (entries c) -> sz <= Z.of_nat (length buf) < 2 ^ 62 ->
  Z.of_nat (flat_end entries_start (entries c)) <= sz ->
  exists pad gap rest, flatten c buf sz = Ok (OK, flat_cache pad gap rest (entries c)) /\
    length pad = 4%nat /\ (28 + length build_id + length gap = entries_start)%nat /\
    length (flat_cache pad gap rest (entries c)) = length buf.
Proof.
  intros Hl Hb Hf. destruct entries_start_bounds as [Hst _]. unfold flat_end in Hf.
  unfold Header_SIZE, getSize in Hst. set (n := length build_id) in *.
  set (pad := take 4 (drop 12 buf)). set (gap := take (entries_start - 28 - n) (drop (28 + n) buf)).
  set (rest := drop (flat_end entries_start (entries c)) buf).
  assert (Lp : length pad = 4%nat) by (unfold pad; rewrite length_take, length_drop; lia).
  assert (Lg : length gap = (entries_start - 28 - n)%nat) by (unfold gap; rewrite length_take, length_drop; lia).
  exists pad, gap, rest. split; [|split; [done|split; [lia|]]].
  2: { unfold flat_cache, flat_header, rest, flat_end. rewrite !length_app, !length_le, length_drop, Lp, Lg. fold n. lia. }
  unfold flatten, Header_SIZE. destruct (Z.ltb_spec sz 32); [lia|].
  set (m := le 4 blobCacheMagic ++ le 4 blobCacheVersion ++ le 4 blobCacheDeviceVersion).
  change buf with ([] ++ buf) at 1. rewrite mem_write_after by (simpl; lia). cbn [obind]. rewrite app_nil_l.
  change (length m) with 12%nat.
  replace (drop 12 buf) with (pad ++ drop 16 buf) by (unfold pad; change 16%nat with (12 + 4)%nat; by rewrite <-drop_drop, take_drop).
  rewrite (app_assoc m pad), (mem_write_after (m ++ pad)) by (rewrite ?length_app, ?length_drop, ?length_le, ?Lp; simpl; lia).
  cbn [obind]. rewrite drop_drop, length_le.
  rewrite mem_write_after by (rewrite ?length_app, ?length_drop, ?length_le, ?Lp; simpl; lia).
  cbn [obind]. rewrite drop_drop, length_le. unfold mBuildId.
  rewrite mem_write_after by (rewrite ?length_app, ?length_drop, ?length_le, ?Lp; simpl; fold n; lia).
  cbn [obind]. rewrite drop_drop. fold n.
  set (b1 := (((m ++ pad) ++ _) ++ _) ++ build_id).
  assert (L1 : length b1 = (28 + n)%nat) by (unfold b1; rewrite !length_app, !length_le, Lp; done).
  set (buf1 := b1 ++ drop (16 + 8 + 4 + n) buf).
  assert (Lb : length buf1 = length buf) by (unfold buf1; rewrite length_app, length_drop, L1; lia).
  rewrite u64_small by (unfold getSize; fold n; lia).
  replace (align4 (32 + getSize build_id)) with (Z.of_nat entries_start)
    by (unfold entries_start, Header_SIZE; pose proof (align4_range (32 + getSize build_id)); lia).
  rewrite flatten_loop_ok by (rewrite ?Lb; done). do 2 f_equal.
  assert (E1 : take entries_start buf1 = b1 ++ gap).
  { unfold buf1, gap. rewrite take_app_ge by lia. rewrite L1. do 2 f_equal. lia. }
  assert (E2 : drop (flat_end entries_start (entries c)) buf1 = rest).
  { unfold buf1, rest. rewrite drop_app_ge by (unfold flat_end; lia). rewrite drop_drop, L1. f_equal. unfold flat_end. lia. }
  rewrite E1, E2. unfold b1, m, flat_cache, flat_header. by rewrite <-!app_assoc.
Qed.

Lemma flattened_entries_ok l : forall s, small_entries l -> 0 <= s ->
  s + Z.of_nat (length (flat_entries l)) < 2 ^ 63 -> flattened_entries l s = Ok (s + Z.of_nat (length (flat_entries l))).
Proof.
  induction l as [|e l IH]; intros s Hl Hs Hb; [simpl; f_equal; lia|].
  inversion_clear Hl as [|? ? [[v Ev] He] Hl']. rewrite flat_entries_cons, length_app in *.
  pose proof (length_flat_entry e He) as Hlen. pose proof (entry_size_nonneg e) as (H1 & H2 & E).
  assert (Ev' : entry_value e = v) by (unfold entry_value; by rewrite Ev). rewrite Ev' in *.
  cbn [flattened_entries]. unfold getValue. rewrite Ev. cbn [obind]. unfold EntryHeader_SIZE in *.
  rewrite (u64_small (16 + _ + _)) by lia. replace (16 + getSize (mKey e) + getSize v) with (16 + entry_size e) by lia.
  rewrite <-Hlen, u64_small by lia. rewrite IH; [|done|lia|lia]. f_equal. lia.
Qed.

Lemma flat_entries_bound c l : Forall (blob_entry_ok c) l -> total_of l <= 2 ^ 44 ->
  Z.of_nat (length (flat_entries l)) <= 11 * total_of l /\ small_entries l.
Proof.
  induction 1 as [|e l He Hl IH]; intros Ht; [split; [done|constructor]|].
  pose proof (entry_size_pos c e He). pose proof (total_of_count c l Hl). cbn [total_of foldr] in Ht. fold (total_of l) in Ht.
  destruct IH as [IH1 IH2]; [lia|]. destruct He as (v & Ev & _).
  pose proof (length_flat_entry e ltac:(lia)) as Hlen. pose proof (align4_bounds (16 + entry_size e) ltac:(lia)).
  unfold EntryHeader_SIZE in *. split.
  - rewrite flat_entries_cons, length_app. cbn [total_of foldr]. fold (total_of l). lia.
  - constructor; [|done]. split; [by eexists|lia].
Qed.

Lemma getFlattenedSize_ok c : cache_ok c -> small_entries (entries c) /\ exists n,
  getFlattenedSize c = Ok n /\ n = align4 (Header_SIZE + PROPERTY_VALUE_MAX) + Z.of_nat (length (flat_entries (entries c))) /\
  0 <= n < 2 ^ 50 /\ Z.of_nat (flat_end entries_start (entries c)) <= n.
Proof.
  intros Hc. pose proof (cache_count c Hc) as [_ Ht]. rewrite (ok_total c Hc) in Ht.
  destruct (flat_entries_bound c _ (ok_entries c Hc) (proj2 Ht)) as [Hb Hs]. split; [done|].
  destruct entries_start_bounds as [_ Hst]. unfold flat_end.
  change (align4 (Header_SIZE + PROPERTY_VALUE_MAX)) with 124 in *.
  eexists. split; [|split; [reflexivity|lia]].
  unfold getFlattenedSize. change (align4 (u64 (Header_SIZE + PROPERTY_VALUE_MAX))) with 124.
  apply flattened_entries_ok; [done|lia|lia].
Qed.

(** ** Reading *)

Lemma increasing_snoc (l k : list CacheEntry) e : increasing (l ++ e :: k) -> insert_item e l = l ++ [e].
Proof.
  intros Hs. rewrite <-(app_nil_r l) at 1. rewrite insert_item_skip; [done|].
  apply Forall_lookup. intros i x Hx. pose proof (lookup_lt_Some _ _ _ Hx).
  eapply (increasing_lookup _ i (length l)); [exact Hs|done| |].
  - by rewrite lookup_app_l.
  - by rewrite list_lookup_middle.
Qed.

Lemma bytes_at_app mem off d rest : drop off mem = d ++ rest -> bytes_at (mem, Z.of_nat off) (Z.of_nat (length d)) = Ok d.
Proof.
  intros E. unfold bytes_at, mem_read. cbn [fst snd]. rewrite Nat2Z.id, E, (proj2 (Z.leb_le _ _)) by (rewrite length_app; lia).
  by rewrite Nat2Z.id, take_app_length.
Qed.

Lemma drop_further {A} (mem : list A) off d rest : drop off mem = d ++ rest -> drop (off + length d) mem = rest.
Proof. intros E. by rewrite <-drop_drop, E, drop_app_length. Qed.

End Format.

Section Reading.
Context {H : Type} `{Plenty H} `{BuildLaws}.

Lemma entry_header_fields a b : 0 <= a < 2 ^ 64 -> 0 <= b < 2 ^ 64 ->
  field (le 8 a ++ le 8 b) 0 8 = a /\ field (le 8 a ++ le 8 b) 8 8 = b.
Proof.
  intros Ha Hb. split; [by apply field_here|].
  rewrite (field_skip 8) by lia. rewrite <-(app_nil_r (le 8 b)). by apply field_here.
Qed.

(** The parts of a saved entry. *)
Lemma flat_entry_parts mem off e rest : drop off mem = flat_entry e ++ rest -> exists tail,
  drop off mem = (le 8 (getSize (mKey e)) ++ le 8 (getSize (entry_value e))) ++ mKey e ++ entry_value e ++ tail /\
  bytes_at (mem, Z.of_nat (off + 16)) (getSize (mKey e)) = Ok (mKey e) /\
  bytes_at (mem, Z.of_nat (off + 16) + getSize (mKey e)) (getSize (entry_value e)) = Ok (entry_value e).
Proof.
  intros E. unfold flat_entry in E. eexists. rewrite E. split; [by rewrite <-!app_assoc|].
  rewrite <-!app_assoc, (app_assoc (le 8 _)) in E. apply drop_further in E. rewrite length_app, !length_le in E.
  split; [by eapply bytes_at_app|]. apply drop_further in E.
  replace (Z.of_nat (off + 16) + getSize (mKey e)) with (Z.of_nat (off + (8 + 8) + length (mKey e))) by (unfold getSize; lia).
  by eapply bytes_at_app.
Qed.

(** The next entry of the list is stored behind those read so far. *)
Lemma unflatten_round c (h : H) e l buf off rest n : cache_ok c -> Forall (blob_entry_ok c) (e :: l) ->
  increasing (entries c ++ e :: l) -> total_of (entries c ++ e :: l) <= mMaxTotalSize c ->
  drop off buf = flat_entry e ++ rest -> Z.of_nat (length buf) < 2 ^ 62 ->
  exists c' h', cache_ok c' /\ same_limits c c' /\ entries c' = entries c ++ [e] /\
    unflatten_loop (S n) buf (Z.of_nat (length buf)) (Z.of_nat off) (c, h)
    = unflatten_loop n buf (Z.of_nat (length buf)) (Z.of_nat (off + length (flat_entry e))) (c', h').
Proof.
  intros Hc Hes Hs Ht E Hb. inversion Hes as [|? ? He Hl]; subst.
  pose proof (lim_total c (ok_limits c Hc)) as Hlim. pose proof (total_of_count c _ (ok_entries c Hc)).
  pose proof (total_of_count c l Hl). rewrite total_of_app in Ht. cbn [total_of foldr] in Ht. fold (total_of l) in Ht.
  pose proof (length_flat_entry e ltac:(lia)) as Hlen. pose proof (entry_size_nonneg e) as (Hk0 & Hv0 & Ez).
  destruct He as (v & Ev & Hk & Hv). assert (Ev' : entry_value e = v) by (unfold entry_value; by rewrite Ev).
  destruct (flat_entry_parts _ _ _ _ E) as (tail & Ep & Bk & Bv). rewrite Ev' in *.
  assert (Hin : Z.of_nat off + Z.of_nat (length (flat_entry e)) <= Z.of_nat (length buf)).
  { apply (f_equal length) in E. rewrite length_drop, length_app in E.
    assert (length (flat_entry e) <> 0)%nat by (unfold EntryHeader_SIZE in *; pose proof (align4_bounds (16 + entry_size e) ltac:(lia)); lia). lia. }
  unfold EntryHeader_SIZE in *. pose proof (align4_bounds (16 + entry_size e) ltac:(lia)) as Ha.
  assert (Ee : e = {| mKey := mKey e; mValue := Some v |}) by (destruct e; simpl in *; by rewrite Ev).
  destruct (set_ok c h (buf, Z.of_nat (off + 16)) (getSize (mKey e)) (buf, Z.of_nat (off + 16) + getSize (mKey e)) (getSize v)
    (mKey e) v Hc ltac:(lia) ltac:(lia) ltac:(done)) as (c' & h' & Es & Hc' & Hl' & He & _).
  destruct (He eq_refl eq_refl) as [_ _ Hent _ _ _]; [unfold acceptable; lia|].
  unfold with_pair in Hent. rewrite <-Ee, (increasing_snoc _ _ _ Hs), total_of_app in Hent.
  exists c', h'. split; [done|]. split; [done|]. split; [apply Hent; simpl; lia|].
  cbn [unflatten_loop]. unfold EntryHeader_SIZE. rewrite (u64_small (Z.of_nat off + 16)) by lia.
  destruct (Z.ltb_spec (Z.of_nat (length buf)) (Z.of_nat off + 16)); [lia|].
  rewrite (bind_Ok _ _ _ (le 8 (getSize (mKey e)) ++ le 8 (getSize v)) (c, h)).
  2: { unfold lift. pose proof (bytes_at_app _ _ _ _ Ep) as Bh. rewrite length_app, !length_le in Bh.
       change (Z.of_nat (8 + 8)) with 16 in Bh. by rewrite Bh. }
  destruct (entry_header_fields (getSize (mKey e)) (getSize v)) as [-> ->]; [lia..|].
  cbv zeta. rewrite (u64_small (16 + _ + _)) by lia. replace (16 + getSize (mKey e) + getSize v) with (16 + entry_size e) by lia.
  rewrite <-Hlen, u64_small by lia.
  destruct (Z.ltb_spec (Z.of_nat (length buf)) (Z.of_nat off + Z.of_nat (length (flat_entry e)))); [lia|].
  replace (Z.of_nat off + 16) with (Z.of_nat (off + 16)) by lia.
  rewrite (bind_Ok _ _ _ _ _ Es). f_equal. rewrite i64_small by lia. lia.
Qed.

Lemma unflatten_loop_ok l : forall c (h : H) buf off rest, cache_ok c -> Forall (blob_entry_ok c) l ->
  increasing (entries c ++ l) -> total_of (entries c ++ l) <= mMaxTotalSize c ->
  drop off buf = flat_entries l ++ rest -> Z.of_nat (length buf) < 2 ^ 62 ->
  exists c' h', unflatten_loop (length l) buf (Z.of_nat (length buf)) (Z.of_nat off) (c, h) = Ok (OK, (c', h')) /\
    cache_ok c' /\ same_limits c c' /\ entries c' = entries c ++ l.
Proof.
  induction l as [|e l IH]; intros c h buf off rest Hc Hl Hs Ht E Hb.
  { exists c, h. by rewrite app_nil_r. }
  rewrite flat_entries_cons, <-app_assoc in E.
  destruct (unflatten_round c h e l buf off _ (length l) Hc Hl Hs Ht E Hb) as (c1 & h1 & Hc1 & Hl1 & He1 & E1).
  pose proof Hl1 as (L1 & L2 & L3). cbn [length]. rewrite E1.
  destruct (IH c1 h1 buf (off + length (flat_entry e))%nat rest) as (c' & h' & E2 & Hc' & Hl' & He'); try done.
  - inversion_clear Hl. eapply Forall_impl; [eassumption|]. intros x. by apply entry_ok_limits.
  - by rewrite He1, <-app_assoc.
  - by rewrite He1, <-app_assoc, L3.
  - by apply drop_further in E.
  - exists c', h'. split; [done|]. split; [done|]. destruct Hl' as (M1 & M2 & M3).
    split; [split; [congruence|split; congruence]|]. by rewrite He', He1, <-app_assoc.
Qed.

Lemma field_take l m off n : (off + n <= m)%nat -> field (take m l) off n = field l off n.
Proof.
  intros Hm. unfold field. rewrite !take_drop_commute. by rewrite take_take, Nat.min_l by lia.
Qed.

Lemma strncmp_same a l : Forall (fun b => byte.unsigned b <> 0) a -> strncmp_differs a (a ++ l) = Ok false.
Proof.
  induction 1 as [|x a Hx _ IH]; [by destruct l|]. simpl. rewrite Z.eqb_refl. cbn [negb].
  by destruct (Z.eqb_spec (byte.unsigned x) 0).
Qed.

(** [clear] leaves an empty cache; the total size stays what it was. *)
Lemma clear_entries c (h : H) : vec_ok (mCacheEntries c) -> exists c' h',
  entries_do clear (c, h) = Ok (tt, (c', h')) /\ same_limits c c' /\ entries c' = [] /\
  mTotalSize c' = mTotalSize c /\ vec_ok (mCacheEntries c').
Proof.
  intros Hv. destruct (entries_do_ok _ _ _ _ _ (clear_ok (mCacheEntries c) h Hv)) as (bytes & h' & E & Hv').
  by exists (set_cache (mTotalSize c) (Build_VectorImpl bytes []) c), h'.
Qed.

Lemma empty_cache_ok c : limits_ok c -> vec_ok (mCacheEntries c) -> entries c = [] -> mTotalSize c = 0 -> cache_ok c.
Proof.
  intros Hl Hv He Ht. split; rewrite ?He; try done; [constructor|].
  rewrite Ht. apply Hl.
Qed.

Lemma flat_cache_fields pad gap rest l : length pad = 4%nat -> Z.of_nat (length l) < 2 ^ 64 ->
  let b := flat_cache pad gap rest l in
  field b 0 4 = blobCacheMagic /\ field b 4 4 = blobCacheVersion /\ field b 8 4 = blobCacheDeviceVersion /\
  field b 16 8 = Z.of_nat (length l) /\ field b 24 4 = getSize build_id /\ drop 28 b = build_id ++ gap ++ flat_entries l ++ rest.
Proof.
  intros Lp Hl. cbv zeta. unfold flat_cache, flat_header. pose proof build_id_length as Hn. rewrite <-!app_assoc.
  assert (Hs : forall off n t, (12 <= off)%nat -> field (le 4 blobCacheMagic ++ le 4 blobCacheVersion ++ le 4 blobCacheDeviceVersion ++ pad ++ t) off n
    = field (pad ++ t) (off - 12) n).
  { intros off n t Ho. do 3 (rewrite field_skip by lia). f_equal. lia. }
  split; [by apply field_here|]. split; [rewrite field_skip by lia; by apply field_here|].
  split; [do 2 (rewrite field_skip by lia); by apply field_here|].
  split; [rewrite Hs by lia; apply field_le; [change (2 ^ (Z.of_nat 8 * 8)) with (2 ^ 64); lia|exact Lp]|].
  split.
  - rewrite Hs by lia. rewrite app_assoc. apply field_le; [|by rewrite length_app, Lp, length_le].
    unfold PROPERTY_VALUE_MAX, getSize in *. change (2 ^ (Z.of_nat 4 * 8)) with (2 ^ 32). lia.
  - rewrite !app_assoc. rewrite <-(app_assoc _ build_id), <-(app_assoc _ (build_id ++ gap)), <-(app_assoc _ ((build_id ++ gap) ++ _)).
    rewrite drop_app_length' by (by rewrite !length_app, !length_le, Lp). by rewrite <-!app_assoc.
Qed.

Lemma unflatten_flat c (h : H) pad gap rest l : cache_ok c -> entries c = [] -> Forall (blob_entry_ok c) l -> increasing l ->
  total_of l <= mMaxTotalSize c -> length pad = 4%nat -> (28 + length build_id + length gap = entries_start)%nat ->
  Z.of_nat (length (flat_cache pad gap rest l)) < 2 ^ 62 ->
  exists c' h', unflatten (flat_cache pad gap rest l) (Z.of_nat (length (flat_cache pad gap rest l))) (c, h)
    = Ok (OK, (c', h')) /\ cache_ok c' /\ same_limits c c' /\ entries c' = l.
Proof.
  intros Hc Hempty Hl Hs Ht Lp Lg Hb.
  assert (Hn : Z.of_nat (length l) < 2 ^ 64).
  { pose proof (total_of_count c l Hl). pose proof (lim_total c (ok_limits c Hc)). lia. }
  destruct (flat_cache_fields pad gap rest l Lp Hn) as (F1 & F2 & F3 & F4 & F5 & Ed).
  destruct entries_start_bounds as [Hst _]. unfold Header_SIZE in Hst.
  set (b := flat_cache pad gap rest l) in *.
  assert (Hlen : (entries_start + length (flat_entries l ++ rest) = length b)%nat).
  { apply (f_equal length) in Ed. rewrite length_drop, !length_app in Ed. rewrite length_app. unfold getSize in Hst. lia. }
  destruct (clear_entries c h (ok_vec c Hc)) as (c1 & h1 & E1 & Hl1 & He1 & Ht1 & Hv1).
  assert (Hc1 : cache_ok c1).
  { apply empty_cache_ok; try done; [eapply limits_ok_same; [done|apply Hc]|]. rewrite Ht1, (ok_total c Hc). by rewrite Hempty. }
  pose proof Hl1 as (L1 & L2 & L3).
  destruct (unflatten_loop_ok l c1 h1 b entries_start rest) as (c' & h' & E2 & Hc' & Hl' & He'); try done.
  { eapply Forall_impl; [exact Hl|]. intros x. by apply entry_ok_limits. }
  { by rewrite He1. } { by rewrite He1, L3. }
  { replace entries_start with (28 + (length build_id + length gap))%nat by lia. rewrite <-drop_drop, Ed.
    by rewrite app_assoc, drop_app_length' by (by rewrite length_app). }
  exists c', h'. split; [|split; [done|split; [destruct Hl' as (M1 & M2 & M3); split; [congruence|split; congruence]|by rewrite He', He1]]].
  unfold unflatten, Header_SIZE. rewrite (bind_Ok _ _ _ _ _ E1).
  destruct (Z.ltb_spec (Z.of_nat (length b)) 32); [unfold getSize in *; lia|].
  rewrite (bind_Ok _ _ _ (take 32 b) (c1, h1)).
  2: { unfold lift, mem_read. by rewrite (proj2 (Z.leb_le _ _)) by lia. }
  rewrite !field_take by lia. rewrite F1, F2, F3, F4, F5. cbn [negb].
  rewrite i32_small by (pose proof build_id_length; unfold PROPERTY_VALUE_MAX, getSize in *; lia). rewrite !Z.eqb_refl. cbn [negb orb].
  rewrite (bind_Ok _ _ _ false (c1, h1)).
  2: { unfold lift, mBuildId. change (Z.to_nat 28) with 28%nat. rewrite Ed, strncmp_same; [done|]. apply build_id_chars. }
  rewrite Nat2Z.id, u64_small by (pose proof build_id_length; unfold PROPERTY_VALUE_MAX, getSize in *; lia).
  replace (align4 (32 + getSize build_id)) with (Z.of_nat entries_start)
    by (unfold entries_start, Header_SIZE; pose proof (align4_range (32 + getSize build_id)); lia).
  done.
Qed.

(** ** Any buffer *)

(** A result of [unflatten]: a good cache, or none. *)
Definition unflattened (c : BlobCache) (r : outcome (Z * (BlobCache * H))) : Prop :=
  exists st c' h', r = Ok (st, (c', h')) /\ same_limits c c' /\
    ((st = OK /\ cache_ok c') \/ (st = BAD_VALUE /\ entries c' = [])).

Lemma unflattened_bad c (h : H) : vec_ok (mCacheEntries c) -> unflattened c ((entries_do clear ;;! ret BAD_VALUE) (c, h)).
Proof.
  intros Hv. destruct (clear_entries c h Hv) as (c' & h' & E & Hl & He & _).
  exists BAD_VALUE, c', h'. rewrite (bind_Ok _ _ _ _ _ E). split; [done|]. split; [done|]. by right.
Qed.

Lemma unflattened_limits c c1 r : same_limits c c1 -> unflattened c1 r -> unflattened c r.
Proof.
  intros (L1 & L2 & L3) (st & c' & h' & E & (M1 & M2 & M3) & R). exists st, c', h'. split; [done|].
  split; [split; [congruence|split; congruence]|done].
Qed.

Lemma bytes_at_within mem off n : 0 <= off -> 0 <= n -> off + n <= Z.of_nat (length mem) ->
  bytes_at (mem, off) n = Ok (take (Z.to_nat n) (drop (Z.to_nat off) mem)).
Proof.
  intros Ho Hn Hb. unfold bytes_at, mem_read. cbn [fst snd]. rewrite length_drop.
  by rewrite (proj2 (Z.leb_le _ _)) by lia.
Qed.

Lemma unflatten_loop_safe buf n : Z.of_nat (length buf) < 2 ^ 62 -> forall c (h : H) off, cache_ok c ->
  0 <= off < 2 ^ 62 -> unflattened c (unflatten_loop n buf (Z.of_nat (length buf)) off (c, h)).
Proof.
  intros Hb. induction n as [|n IH]; intros c h off Hc Ho.
  { exists OK, c, h. split; [done|]. split; [done|]. by left. }
  cbn [unflatten_loop]. unfold EntryHeader_SIZE. rewrite (u64_small (off + 16)) by lia.
  destruct (Z.ltb_spec (Z.of_nat (length buf)) (off + 16)); [apply unflattened_bad, Hc|].
  set (eh := take 16 (drop (Z.to_nat off) buf)).
  rewrite (bind_Ok _ _ _ eh (c, h)) by (unfold lift; by rewrite bytes_at_within by lia).
  pose proof (field_range eh 0 8) as Hk. pose proof (field_range eh 8 8) as Hv.
  change (2 ^ (8 * Z.of_nat 8)) with (2 ^ 64) in Hk, Hv.
  cbv zeta. set (ks := field eh 0 8) in *. set (vs := field eh 8 8) in *.
  set (t := align4 (u64 (16 + ks + vs))).
  assert (Hu : 0 <= u64 (off + t) < 2 ^ 64) by (apply Z.mod_pos_bound; lia).
  destruct (Z.ltb_spec (Z.of_nat (length buf)) (u64 (off + t))); [apply unflattened_bad, Hc|].
  destruct (set_ok c h (buf, off + 16) ks (buf, off + 16 + ks) vs (take (Z.to_nat ks) (drop (Z.to_nat (off + 16)) buf))
    (take (Z.to_nat vs) (drop (Z.to_nat (off + 16 + ks)) buf)) Hc) as (c' & h' & E & Hc' & Hl & _); [lia..| |].
  { intros Hks Hvs. pose proof (ok_limits c Hc) as [Hlk Hlv _]. pose proof (align4_bounds (16 + ks + vs) ltac:(lia)) as Ha.
    unfold t in *. rewrite u64_small in * by (rewrite ?u64_small; lia). rewrite u64_small in * by lia.
    by rewrite !bytes_at_within by lia. }
  rewrite (bind_Ok _ _ _ _ _ E), i64_small by lia. eapply unflattened_limits; [done|]. apply IH; [done|lia].
Qed.

Lemma strncmp_differs_safe a : forall b, (length a <= length b)%nat -> exists r, strncmp_differs a b = Ok r.
Proof.
  induction a as [|x a IH]; intros [|y b] Hl; simpl in *; try lia; try (by eexists).
  destruct (negb _); [by eexists|]. destruct (_ =? 0); [by eexists|]. apply IH. lia.
Qed.

(** C20: Saving a cache into a buffer of at least the size [getFlattenedSize] returns
    succeeds, and loading the buffer into a new cache with the same limits, after any
    time and on the same build, gives a cache with the same entries and total size. *)
Theorem blob_cache_round_trip c buf : cache_ok c -> Z.of_nat (length buf) < 2 ^ 62 ->
  exists n, getFlattenedSize c = Ok n /\ (n <= Z.of_nat (length buf) ->
    exists buf', flatten c buf (Z.of_nat (length buf)) = Ok (OK, buf') /\ length buf' = length buf /\
      forall now (h : H), exists c' h',
        unflatten buf' (Z.of_nat (length buf'))
          (BlobCache_new (mMaxKeySize c) (mMaxValueSize c) (mMaxTotalSize c) now, h) = Ok (OK, (c', h')) /\
        cache_ok c' /\ entries c' = entries c /\ mTotalSize c' = mTotalSize c).
Proof.
  intros Hc Hb. destruct (getFlattenedSize_ok c Hc) as (Hs & n & En & _ & Hn & Hend).
  exists n. split; [done|]. intros Hfit.
  destruct (flatten_ok c buf (Z.of_nat (length buf)) Hs) as (pad & gap & rest & Ef & Lp & Lg & Lb); [lia|lia|].
  eexists. split; [exact Ef|]. split; [exact Lb|]. intros now h.
  set (c0 := BlobCache_new _ _ _ now). assert (Hl0 : same_limits c c0) by done.
  destruct (unflatten_flat c0 h pad gap rest (entries c)) as (c' & h' & E & Hc' & _ & He); try done.
  - apply empty_cache_ok; try done. eapply limits_ok_same; [exact Hl0|apply Hc].
  - eapply Forall_impl; [apply (ok_entries c Hc)|]. intros e. by apply entry_ok_limits.
  - apply Hc.
  - rewrite <-(ok_total c Hc). apply Hc.
  - by rewrite Lb.
  - exists c', h'. split; [done|]. split; [done|]. split; [done|]. by rewrite (ok_total _ Hc'), He, (ok_total c Hc).
Qed.

(** C21: Loading any bytes, at least 28 + 92 of them for a header with a build id,
    into an empty cache in a consistent state returns and reads nothing outside of
    the buffer, whatever sizes and counts the bytes claim; it gives a cache within its limits, or an error and an
    empty cache. *)
Theorem unflatten_safe c (h : H) buf : cache_ok c -> entries c = [] -> Z.of_nat (length buf) < 2 ^ 62 ->
  mBuildId + PROPERTY_VALUE_MAX <= Z.of_nat (length buf) ->
  unflattened c (unflatten buf (Z.of_nat (length buf)) (c, h)).
Proof.
  intros Hc Hempty Hb Hsz. unfold mBuildId, PROPERTY_VALUE_MAX in Hsz. pose proof build_id_length as Hn. unfold PROPERTY_VALUE_MAX in Hn.
  destruct (clear_entries c h (ok_vec c Hc)) as (c1 & h1 & E1 & Hl1 & He1 & Ht1 & Hv1).
  assert (Hc1 : cache_ok c1).
  { apply empty_cache_ok; try done; [eapply limits_ok_same; [done|apply Hc]|]. rewrite Ht1, (ok_total c Hc). by rewrite Hempty. }
  apply (unflattened_limits c c1); [done|].
  unfold unflatten, Header_SIZE. rewrite (bind_Ok _ _ _ _ _ E1).
  destruct (Z.ltb_spec (Z.of_nat (length buf)) 32); [lia|].
  rewrite (bind_Ok _ _ _ (take 32 buf) (c1, h1)).
  2: { unfold lift, mem_read. by rewrite (proj2 (Z.leb_le _ _)) by lia. }
  destruct (negb _); [exists BAD_VALUE, c1, h1; split; [done|]; split; [done|]; by right|].
  set (versions := negb (field (take 32 buf) 4 4 =? _) || _ || _).
  assert (exists r, (if versions then ret true else lift (strncmp_differs build_id (drop (Z.to_nat mBuildId) buf))) (c1, h1)
    = Ok (r, (c1, h1))) as [r Er].
  { destruct versions; [by eexists|]. unfold lift.
    destruct (strncmp_differs_safe build_id (drop (Z.to_nat mBuildId) buf)) as [r ->]; [|by eexists].
    rewrite length_drop. unfold mBuildId. lia. }
  rewrite (bind_Ok _ _ _ _ _ Er). destruct r.
  { exists OK, c1, h1. split; [done|]. split; [done|]. by left. }
  apply unflatten_loop_safe; [done|done|].
  destruct entries_start_bounds as [Hst _]. unfold entries_start, Header_SIZE, getSize in *.
  pose proof (align4_range (32 + Z.of_nat (length build_id))). rewrite u64_small by lia. lia.
Qed.

(** ** What a refused load leaves *)

(** [set] on an empty cache whose total size says that it is more than half full,
    when the pair seems not to fit: [clean] takes a random number modulo the
    number of entries, zero. *)
Lemma set_stale c (h : H) k v : entries c = [] -> acceptable c k v ->
  0 <= mTotalSize c <= mMaxTotalSize c -> mMaxTotalSize c <= 2 ^ 44 ->
  mMaxTotalSize c / 2 < mTotalSize c -> mMaxTotalSize c < mTotalSize c + getSize k + getSize v ->
  set (k, 0) (getSize k) (v, 0) (getSize v) (c, h) = UB.
Proof.
  intros He (Hk & Hv & Hkv) Ht Hmax Hhalf Hbig. unfold set. rewrite (bind_Ok _ _ _ c (c, h)) by done.
  rewrite (proj2 (Z.ltb_ge _ _)), (proj2 (Z.ltb_ge _ _)), u64_small, (proj2 (Z.ltb_ge _ _)),
    (proj2 (Z.eqb_neq _ _)), (proj2 (Z.leb_gt _ _)) by lia.
  rewrite !bytes_at_all, (bind_Ok _ _ _ k (c, h)), (bind_Ok _ _ _ v (c, h)) by done.
  cbn [set_loop]. rewrite (bind_Ok _ _ _ c (c, h)) by done.
  rewrite (bind_Ok _ _ _ NAME_NOT_FOUND (c, h)) by (unfold lift, indexOf, indexOrderOf, size; by rewrite He).
  change (NAME_NOT_FOUND <? 0) with true. cbn match.
  destruct (Blob_copy_ok k c h) as [h1 E1]. rewrite (bind_Ok _ _ _ _ _ E1).
  destruct (Blob_copy_ok v c h1) as [h2 E2]. rewrite (bind_Ok _ _ _ _ _ E2). cbv zeta.
  rewrite u64_small, (proj2 (Z.ltb_lt _ _)) by lia. unfold isCleanable.
  rewrite (proj2 (Z.ltb_lt (mMaxTotalSize c / 2) (mTotalSize c))) by lia.
  assert (clean (c, h2) = UB) as Hcl.
  { unfold clean. rewrite (bind_Ok _ _ _ c (c, h2)) by done. rewrite He. cbn [length clean_loop].
    rewrite (bind_Ok _ _ _ c (c, h2)) by done.
    rewrite (proj2 (Z.ltb_lt (mMaxTotalSize c / 2) (mTotalSize c))) by lia.
    unfold bind, blob_random. cbn [fst snd]. destruct (nrand48 (mRandState c)). cbn [obind fst snd].
    unfold size. by rewrite He. }
  unfold bind at 1. by rewrite Hcl.
Qed.

(** A buffer that is too short for a header, or whose magic number or versions are
    not those of this build. *)
Definition header_refused (buf : list byte) : Prop :=
  Z.of_nat (length buf) < Header_SIZE \/ field (take 32 buf) 0 4 <> blobCacheMagic \/
  field (take 32 buf) 4 4 <> blobCacheVersion \/ field (take 32 buf) 8 4 <> blobCacheDeviceVersion.

(** C22: [unflatten] empties the cache without resetting its total size: loading a
    refused header into a cache that is more than half full leaves no entries and
    the old total, and every [set] of an acceptable pair that does not fit in what
    seems to be left then cleans the empty cache and divides by zero. *)
Theorem unflatten_stale_total c (h : H) buf : cache_ok c -> mMaxTotalSize c / 2 < mTotalSize c ->
  header_refused buf ->
  exists st c' h', unflatten buf (Z.of_nat (length buf)) (c, h) = Ok (st, (c', h')) /\
    entries c' = [] /\ mTotalSize c' = mTotalSize c /\
    forall k v h2, acceptable c k v -> mMaxTotalSize c < mTotalSize c + getSize k + getSize v ->
      set (k, 0) (getSize k) (v, 0) (getSize v) (c', h2) = UB.
Proof.
  intros Hc Hhalf Hbad. destruct (clear_entries c h (ok_vec c Hc)) as (c1 & h1 & E1 & (L1 & L2 & L3) & He1 & Ht1 & _).
  assert (Hend : forall st, unflatten buf (Z.of_nat (length buf)) (c, h) = Ok (st, (c1, h1)) ->
    exists st c' h', unflatten buf (Z.of_nat (length buf)) (c, h) = Ok (st, (c', h')) /\
    entries c' = [] /\ mTotalSize c' = mTotalSize c /\
    forall k v h2, acceptable c k v -> mMaxTotalSize c < mTotalSize c + getSize k + getSize v ->
      set (k, 0) (getSize k) (v, 0) (getSize v) (c', h2) = UB).
  { intros st E. exists st, c1, h1. split_and!; [done..|]. intros k v h2 Ha Hbig.
    pose proof (cache_count c Hc) as [_ Ht]. pose proof (lim_total c (ok_limits c Hc)).
    pose proof (ok_max c Hc). unfold acceptable in Ha.
    apply set_stale; unfold acceptable; rewrite ?Ht1, ?L1, ?L2, ?L3; (done || lia). }
  unfold unflatten in *. rewrite (bind_Ok _ _ _ _ _ E1) in *.
  destruct (Z.ltb_spec (Z.of_nat (length buf)) Header_SIZE); [by eapply Hend|]. unfold header_refused, Header_SIZE in *.
  rewrite (bind_Ok _ _ _ (take 32 buf) (c1, h1)) in *
    by (unfold lift, mem_read; by rewrite (proj2 (Z.leb_le _ _)) by lia).
  destruct (Z.eqb_spec (field (take 32 buf) 0 4) blobCacheMagic) as [Em|Em]; cbn [negb] in *; [|by eapply Hend].
  assert (negb (field (take 32 buf) 4 4 =? blobCacheVersion) || negb (field (take 32 buf) 8 4 =? blobCacheDeviceVersion) = true) as Ev.
  { destruct Hbad as [?|[?|[?|?]]]; [lia|done|by rewrite (proj2 (Z.eqb_neq _ _))|].
    rewrite orb_comm. by rewrite (proj2 (Z.eqb_neq (field (take 32 buf) 8 4) _)). }
  rewrite Ev in *. by eapply Hend.
Qed.

End Reading.
