(* ===== verification/BlobCacheExamples.v ===== *)
(** * Blob caches, by example (core/libutils/BlobCache.cpp)

    Concrete caches that the theorems apply to, and the runs in which the code does
    not do what its comments say: a cache that was cleared by [unflatten] still
    counts the sizes of its former entries, and divides by zero when it is full. *)

From S2P Require Import Prelude Words SortedVector BlobCache BlobCacheProps BlobCacheFlat.

#[local] Open Scope Z_scope.
#[local] Open Scope c_scope.

Definition byte_list (l : list Z) : list byte := byte.of_Z <$> l.

(** ro.build.id is MRA58K. *)
#[export] Instance mra58k : Build := byte_list [77; 82; 65; 53; 56; 75].

#[export] Instance mra58k_laws : BuildLaws.
Proof.
  split; [reflexivity|]. apply Forall_lookup. intros i b Hi.
  do 6 (destruct i as [|i]; [injection Hi as <-; done|]). done.
Qed.

(** A cache for keys of 4 bytes, values of 8 bytes and 10 bytes in all, that holds
    the value 2 3 4 5 under the key 1. *)
Definition example_cache : BlobCache := {|
  mMaxKeySize := 4; mMaxValueSize := 8; mMaxTotalSize := 10; mTotalSize := 5; mRandState := (1, 2, 3);
  mCacheEntries := Build_VectorImpl (Some 64) [{| mKey := byte_list [1]; mValue := Some (byte_list [2; 3; 4; 5]) |}]
|}.

Lemma example_cache_ok : cache_ok example_cache.
Proof.
  split; simpl; try lia.
  - split; simpl; lia.
  - split; vm_compute; [discriminate|split; discriminate].
  - repeat constructor.
  - repeat constructor. exists (byte_list [2; 3; 4; 5]). repeat split; vm_compute; (reflexivity || discriminate).
  - reflexivity.
Qed.

Lemma blob_cache_set_exact_witness : exists c' h',
  set (byte_list [9], 0) 1 (byte_list [8; 7], 0) 2 (example_cache, tt) = Ok (tt, (c', h')) /\ stored c' (byte_list [9]) (byte_list [8; 7]).
Proof.
  destruct (blob_cache_set_exact example_cache tt (byte_list [9]) (byte_list [8; 7]) example_cache_ok)
    as (c' & h' & E & _ & _ & He & _).
  exists c', h'. split; [exact E|]. assert (Ha : acceptable example_cache (byte_list [9]) (byte_list [8; 7]))
    by (repeat split; vm_compute; (reflexivity || discriminate)).
  apply (se_stored _ _ _ _ (He Ha)). vm_compute. discriminate.
Defined.

Lemma blob_cache_get_exact_witness :
  get (byte_list [1], 0) 1 (Some (byte_list [0; 0; 0; 0; 0; 0])) 6 (example_cache, tt)
  = Ok ((4, Some (byte_list [2; 3; 4; 5; 0; 0])), (example_cache, tt)).
Proof.
  destruct (blob_cache_get_exact example_cache tt (byte_list [1]) example_cache_ok) as [Hget _].
  apply (Hget (byte_list [2; 3; 4; 5]) (byte_list [0; 0; 0; 0; 0; 0]) 6).
  - by constructor.
  - done.
Defined.

Definition zero_bytes (n : nat) : list byte := replicate n (byte.of_Z 0).

Lemma blob_cache_round_trip_witness : exists buf', flatten example_cache (zero_bytes 148) 148 = Ok (OK, buf').
Proof.
  destruct (blob_cache_round_trip example_cache (zero_bytes 148) (H := unit) example_cache_ok) as (n & En & Hf); [done|].
  vm_compute in En. injection En as <-. destruct (Hf ltac:(done)) as (buf' & E & _). exists buf'. exact E.
Defined.

Lemma unflatten_safe_witness : exists r,
  unflatten (zero_bytes 200) 200 (BlobCache_new 4 8 10 0, tt) = Ok r.
Proof.
  destruct (unflatten_safe (BlobCache_new 4 8 10 0) tt (zero_bytes 200)) as (st & c' & h' & E & _).
  - apply empty_cache_ok; try done; split; simpl; lia.
  - done.
  - done.
  - done.
  - exists (st, (c', h')). exact E.
Defined.

(** ** What goes wrong *)

(** A cache that holds 8 of 10 bytes: loading an empty buffer makes storing 4
    bytes divide by zero. *)
Definition full_cache : BlobCache := {|
  mMaxKeySize := 4; mMaxValueSize := 8; mMaxTotalSize := 10; mTotalSize := 8; mRandState := (1, 2, 3);
  mCacheEntries :=
    Build_VectorImpl (Some 64) [{| mKey := byte_list [1]; mValue := Some (byte_list [2; 3; 4; 5; 6; 7; 8]) |}]
|}.

Lemma unflatten_stale_total_witness : exists st c' h',
  unflatten [] 0 (full_cache, tt) = Ok (st, (c', h')) /\ entries c' = [] /\ mTotalSize c' = 8 /\
  set (byte_list [1], 0) 1 (byte_list [2; 3; 4], 0) 3 (c', tt) = UB.
Proof.
  destruct (unflatten_stale_total full_cache tt []) as (st & c' & h' & Eu & He & Et & Hu).
  - split; simpl; try lia.
    + split; simpl; lia.
    + split; vm_compute; [discriminate|split; discriminate].
    + repeat constructor.
    + repeat constructor. exists (byte_list [2; 3; 4; 5; 6; 7; 8]).
      repeat split; vm_compute; (reflexivity || discriminate).
    + reflexivity.
  - reflexivity.
  - left. reflexivity.
  - exists st, c', h'. split; [exact Eu|]. split; [exact He|]. split; [exact Et|].
    apply (Hu (byte_list [1]) (byte_list [2; 3; 4]) tt); [repeat split; vm_compute; (reflexivity || discriminate)|reflexivity].
Defined.

(** A pair within all limits need not be stored: the cache is half full, so that
    nothing is evicted for it. *)
Lemma set_not_stored :
  acceptable example_cache (byte_list [9]) (byte_list [1; 2; 3; 4; 5]) /\
  set (byte_list [9], 0) 1 (byte_list [1; 2; 3; 4; 5], 0) 5 (example_cache, tt) = Ok (tt, (example_cache, tt)).
Proof. split; [repeat split; vm_compute; (reflexivity || discriminate)|by vm_compute]. Qed.

(** [get] does not test its buffer for null. *)
Lemma get_null_buffer : get (byte_list [1], 0) 1 None 4 (example_cache, tt) = UB.
Proof. by vm_compute. Qed.

(** [flatten] checks that the header fits, but not the build id behind it. *)
Lemma flatten_overflow : flatten (BlobCache_new 4 8 10 0) (zero_bytes 32) 32 = UB.
Proof. by vm_compute. Qed.

(** [unflatten] compares the build id behind the end of a short buffer. *)
Lemma unflatten_over_read : unflatten (flat_header (zero_bytes 4) 0 ++ take 4 mra58k) 32 (BlobCache_new 4 8 10 0, tt) = UB.
Proof. by vm_compute. Qed.

(** An entry whose sizes wrap around to nothing does not move the offset, so that
    the loop runs as often as the buffer says, on one entry. *)
Definition wrapping_entry : list byte := zero_bytes 40 ++ le 8 (2 ^ 64 - 16) ++ le 8 0.

Lemma unflatten_no_progress n :
  unflatten_loop (S n) wrapping_entry 56 40 (BlobCache_new 4 8 10 0, tt)
  = unflatten_loop n wrapping_entry 56 40 (BlobCache_new 4 8 10 0, tt).
Proof. reflexivity. Qed.

(** A heap that grants the requests as listed, and refuses the others. *)
#[export] Instance listed_heap : Malloc (list bool) := {
  malloc _ h := (hd false h, tl h);
  realloc _ h := (hd false h, tl h)
}.

(** When the vector cannot grow, [set] counts a pair that is not there. *)
Lemma set_counts_lost_pair : exists c',
  set (byte_list [1], 0) 1 (byte_list [2; 3], 0) 2 (BlobCache_new 4 8 10 0, [true; true; false]) = Ok (tt, (c', [])) /\
  entries c' = [] /\ mTotalSize c' = 3.
Proof. eexists. split; [vm_compute; reflexivity|]. by vm_compute. Qed.
